(* ===== verification/_CoqProject ===== *)
-Q . S2P
Prelude.v
Ivc.v
IvcFifo.v
IvcSystem.v
Tracebuf.v
TracebufConc.v
Eventlib.v
EventlibTbuf.v
EventlibFlt.v
EventlibInit.v
Keventlib.v
DwarfRead.v
DwarfCfa.v
DwarfRows.v
DwarfTable.v
DwarfEntries.v
EhRegions.v
Callchain.v
DwarfUnwind.v
DwarfFrame.v
DwarfWalk.v
Disasm.v
EhAbi.v
EhFacts.v
EhInsns.v
EhWalk.v
ChainStores.v
Backtrace.v
FramePointers.v
Bwmgr.v
BwmgrFacts.v
Isomgr.v
IsomgrPlat.v
BwmgrT19x.v
IsomgrFacts.v
IsomgrHandles.v
IsomgrPool.v
IsomgrRuns.v
IsomgrT19x.v
IsomgrT19xRuns.v
Syncpt.v
SyncptFacts.v
SyncptAlloc.v
Intr.v
IntrFacts.v
IntrOps.v
IntrWorld.v
IntrRuns.v
IntrTasks.v
SyncptWait.v
SyncptWaitFacts.v
SyncptWaitRuns.v
