(* ===== verification/Prelude.v ===== *)
(** * Verification of five subsystems of the NVIDIA kernel overlay

    The repository is a tree of Linux drivers. This development models five parts of
    it whose correctness is their own logic rather than that of a device:

    - the lock-free queues between virtual machines and processors
      (src/drivers/platform/tegra/tegra-ivc.c);
    - the event library, shared-memory ring buffers of trace events with their filters
      and providers (src/drivers/misc/eventlib/);
    - the stack unwinders of the profiler (src/drivers/misc/tegra-profiler/: dwarf_unwind.c,
      eh_unwind.c, disassembler.c, backtrace.c and their headers);
    - the managers of the memory clock and of isochronous bandwidth
      (src/drivers/platform/tegra/mc/: emc_bwmgr*.c, isomgr*.c);
    - the sync points of host1x, counters that engines increment, and the tasks that wait for
      them (src/drivers/video/tegra/host/: nvhost_syncpt.c, nvhost_intr.c,
      host1x/host1x_syncpt.c, host1x/host1x_intr.c).

    ** The files

    Prelude.v: integers of fixed width as [Z] with their wrap-around ([uw], [sw]), memory
    as lists of bytes with checked access ([mem_read], [mem_write]: outside the region is
    [None]), error numbers, a state monad with errors and its weakest precondition [wp],
    tactics and hint databases.

    Queues. Ivc.v has one endpoint: [ivc] is struct ivc, [channel] the shared header and
    frames, one definition per function of tegra-ivc.c; cache maintenance and user copies
    are type classes ([DmaOps], [UserAccess]) whose laws ([DmaOk], [UserOk]) the theorems
    assume and an instance satisfies. IvcFifo.v abstracts a direction to a bounded queue.
    IvcSystem.v composes two coherent endpoints: [step] is one call of one of them, taken
    whole, and the reset protocol is compared with the table in the comment of the source;
    [event] also takes the load of the handler of notifications apart from its reaction.

    Trace buffers. Tracebuf.v has tracebuf.c: push and pull on the shared buffer, whose copies
    of a message go byte by byte. TracebufConc.v lets a writer's stores come between any two
    bytes that a reader copies ([wstep], [wsteps]).
    Eventlib.v has the contexts and the layout of the shared block; EventlibTbuf.v
    eventlib_tbuf.c (reading and writing events over several buffers); EventlibFlt.v
    eventlib_flt.c (the filter slots, with the other side's stores as [interfere]);
    EventlibInit.v eventlib_init.c (publication and checking of the block's header);
    Keventlib.v eventlib.c (the registry of providers, allocations and work items as
    resources of the state).

    Unwinders. DwarfRead.v: [outcome] (a value, an error code, a fault, or a loop that the
    bound stopped), where [Faulty] names the place of a fault: an access outside the memory or
    an array, or a store behind the arrays of a call chain; reads of the mapped tables, LEB128
    and encoded pointers. DwarfCfa.v: the interpreter of call frame instructions; DwarfRows.v: what
    they mean as rows of the unwind table. DwarfTable.v: decoding of entries and the binary
    search; DwarfEntries.v: encodings of entries and tables, and that decoding inverts them.
    EhRegions.v: the table of regions shared by both unwinders, with the states and the
    reference counts of the areas. Callchain.v: the record of a call chain, and loops that
    add to it. DwarfUnwind.v, DwarfFrame.v, DwarfWalk.v: the walk of the stack, the meaning
    of one step, and what holds of the walk. Disasm.v, EhAbi.v: the prologue disassembler
    and one EHABI step; EhFacts.v, EhInsns.v: its safety, and the meaning of the
    instructions; EhWalk.v: the EHABI walk. ChainStores.v: that nothing but the store of an
    address writes to a call chain, and within its arrays ([stays]). Backtrace.v: frame pointers and the loop over
    the three unwinders, against the class [Unwinder] that says what each promises;
    FramePointers.v: what following frame pointers finds.

    Memory bandwidth. Bwmgr.v: emc_bwmgr.c, [bwmgr] is its static structure and the globals
    of the memory, [rates] what it asks of the clock, [bwmgr_ops] the rules of a chip, with
    those of Tegra186 and Tegra210; BwmgrT19x.v: those of Tegra194 with their tables.
    BwmgrFacts.v: one rate for all requests in any sequence of the interface's calls
    ([bw_call]), against the class [OpsOk] that says what the rules promise. Isomgr.v: isomgr.c, whose state [isomgr] holds the clients, their
    accounts, and the [bwmgr] below; IsomgrPlat.v: the rules of the chips
    (isomgr-pre_t19x.c, isomgr-t19x.c). IsomgrFacts.v: the requests to the clock's manager;
    IsomgrHandles.v: handles, references and sequences of calls. IsomgrPool.v and
    IsomgrRuns.v: the accounts of the pool before Tegra194, for one call and for runs;
    IsomgrT19x.v and IsomgrT19xRuns.v: the demands that a frequency admits on Tegra194.

    Sync points. Syncpt.v: nvhost_syncpt.c, [syncpt] is one entry of the arrays of struct
    nvhost_syncpt with its hardware counter, [nvhost_master] the host; SyncptFacts.v: the
    comparisons as those of numbers that never wrap, and loads of the counter by many tasks
    ([load_step]); SyncptAlloc.v: allocation and release. Intr.v: nvhost_intr.c for one sync
    point, [nvhost_intr_syncpt] with the waiters in memory and the interrupt. IntrFacts.v: the
    invariant [vinv] of the waiters, wherever they are, and that each change of the lists
    keeps it; IntrOps.v: that the operations make such changes. IntrWorld.v: the counter, the
    interrupt's thread, the worker and clients in steps ([wstep]), in a host that may stop to
    be powered at any time; IntrRuns.v: what holds in all runs; IntrTasks.v: the steps of a
    task alone are those of the code. SyncptWait.v: nvhost_syncpt_wait_timeout,
    in turns with everybody else ([turn]); SyncptWaitFacts.v: rules for its steps when the
    others run as in IntrWorld.v; SyncptWaitRuns.v: the whole call.

    ** The theorems

    Claims are numbered by the comments that state them.

    Refinement: the queue is a FIFO whatever the interleaving of calls (IvcSystem), a push is
    its sequence of stores (TracebufConc), DWARF and EHABI steps compute what their
    instructions mean (DwarfRows, DwarfFrame, EhInsns), the memory clock's manager has the
    requests of what is realized (IsomgrRuns), the table of regions is a finite map
    (EhRegions). Not numbered: the steps of the tasks that wait are the code (IntrTasks).

    Functional behaviour of waiting: when nothing is left to do and the interrupt's thread has
    always found the host powered, exactly the waiters whose threshold is reached and that
    were not cancelled have been handled, and the submits of a channel are counted right
    (IntrRuns); a wait with a timeout returns what happened, in time, and leaves no reference
    behind (SyncptWaitRuns).

    Invariants: no waiter is handled twice or early, the known value of a counter never goes
    back (IntrRuns, SyncptFacts); the bandwidth of the pool is neither lost nor given twice,
    one frequency admits what is reserved on Tegra194, and the clock's rate is that of the
    current requests, unless a client has unregistered since (IsomgrRuns, IsomgrT19xRuns,
    BwmgrFacts).

    Safety: no access leaves the shared memory or the tables, whatever the other side or the
    file put there (Ivc, Tracebuf, EventlibTbuf, DwarfCfa, DwarfTable, EhFacts), nor the arrays
    of a call chain (Backtrace); no waiter is touched after it is freed (IntrRuns). Where the
    code relies on what its callers hand over, the theorems say so: the ranges of peeks and
    pokes ([call_ok]), the sections of an area that user space describes.

    Termination and liveness: the handshake converges, the unwinding loops end by themselves
    and the EHABI and frame-pointer unwinders return (IvcSystem, DwarfCfa, EhWalk, Backtrace,
    FramePointers), and all who wait come to rest (IntrRuns).

    Round trips: written events are read back, encoded entries and LEB128 numbers decode to
    what was encoded. Counterexamples show where the code does not do what it means to; they
    are plain theorems about concrete inputs.

    ** Bounds and fuel

    A loop whose end is not structural runs on fuel: [leb_fuel], [bst_fuel], [find_fuel]
    (more than the halvings of a 32-bit range), [pull_fuel], [eh_fuel] (4 bytes for each of
    256 words), [tail_fuel], [walk_fuel] and [eh_walk_fuel] (66 rounds, since each adds one
    of at most 64 addresses). That the fuel is enough is proved where the loop ends
    ([chain_loop_ends], [eh_unwind_frame_ok], [dwarf_cfa_exec_ends]); the interpreter of call
    frame instructions takes its fuel as a parameter, since the code itself may loop, and so
    does the retry loop of tegra_isomgr_enable_test_mode. On Tegra194 bandwidths up to 34
    GB/s are considered, whose frequencies in Hz fit the 32-bit numbers of the code; an
    example shows what happens beyond. Thresholds that wait are within half the range of the
    counter ([windowed], [near]), as the code's signed comparisons need; the counter does not
    pass a task by its whole range while it loads ([load_window]). The loops of a wait take
    fuel for the turns of the others; a finite timeout needs no more than one for each jiffy
    ([in_time]) and those in which a handler that has begun gets to its end ([delayed]).

    ** Parameters

    Cache maintenance, user copies, allocation outcomes, the process's memory map, the
    shift operations that C leaves undefined ([ShiftOps]), and the clock framework ([ClkOps]:
    rounding and setting a rate) are parameters, and so are the values of the registers and
    the firmware's answer that describe the memory. The length of a jiffy and the conversions
    to milliseconds are parameters too. The power of the host is a count of references and what
    taking one returns ([host_busy_err]), which may change at any time; a waiter that could
    not be added for it is its caller's. The theorems about requests to the memory clock say
    where they rely on a clock framework that grants them. Memory is sequentially consistent at the granularity of the shared words; barriers are not
    modelled.

    ** Not modelled

    The drivers whose behaviour is that of a device (display, camera, sound, network,
    crypto, GPU links, boards), the kernel services around the five parts (sysfs, debugfs,
    mmap, RCU, locks), virtual hosts of sync points, the sampling side of the profiler, and
    the debug output. *)

(** ** Shared definitions

    Machine integers with their wrap-around, byte memories with checked
    accesses, little-endian words, the error numbers the sources return, and
    the tactics and hint databases the component files use. *)

From stdpp Require Export base tactics list numbers option.
From Stdlib Require Export ZArith Lia Bool.
Open Scope Z_scope.

(** ** Fixed-width integers

    A C integer is a [Z]; [uw w] and [sw w] reduce it to the unsigned and the
    two's-complement signed range of [w] bits. *)
Definition uw (w x : Z) : Z := x mod 2 ^ w.
Definition sw (w x : Z) : Z := (x + 2 ^ (w - 1)) mod 2 ^ w - 2 ^ (w - 1).

Abbreviation u8 := (uw 8).
Abbreviation u16 := (uw 16).
Abbreviation u32 := (uw 32).
Abbreviation u64 := (uw 64).
Abbreviation s16 := (sw 16).
Abbreviation s32 := (sw 32).
Abbreviation s64 := (sw 64).

(** ** Error numbers (include/uapi/asm-generic/errno*.h of the kernel) *)
Definition ENOENT : Z := 2.
Definition EINTR : Z := 4.
Definition EIO : Z := 5.
Definition E2BIG : Z := 7.
Definition EAGAIN : Z := 11.
Definition ENOMEM : Z := 12.
Definition EACCES : Z := 13.
Definition EFAULT : Z := 14.
Definition EBUSY : Z := 16.
Definition EINVAL : Z := 22.
Definition EMFILE : Z := 24.
Definition ENOSPC : Z := 28.
Definition EPROTO : Z := 71.
Definition EPROTONOSUPPORT : Z := 93.
Definition ECONNRESET : Z := 104.
Definition ENOBUFS : Z := 105.

(** ** Byte memories

    A region of memory is the list of its bytes. An access outside the region
    is [None]: the C code would touch memory that is not part of the object. *)
Definition zlen {A} (l : list A) : Z := Z.of_nat (length l).

Definition in_region (n off len : Z) : bool :=
  (0 <=? off) && (0 <=? len) && (off + len <=? n).

Definition slice {A} (m : list A) (off len : Z) : list A :=
  take (Z.to_nat len) (drop (Z.to_nat off) m).

Definition mem_read (m : list Z) (off len : Z) : option (list Z) :=
  if in_region (zlen m) off len then Some (slice m off len) else None.

Definition splice {A} (m : list A) (off : Z) (bs : list A) : list A :=
  take (Z.to_nat off) m ++ bs ++ drop (Z.to_nat off + length bs) m.

Definition mem_write (m : list Z) (off : Z) (bs : list Z) : option (list Z) :=
  if in_region (zlen m) off (zlen bs) then Some (splice m off bs) else None.

(** [n] copies of a byte: what [memset] stores. *)
Definition fill (n b : Z) : list Z := replicate (Z.to_nat n) b.

(** Little-endian words. *)
Fixpoint le_dec (bs : list Z) : Z :=
  match bs with
  | [] => 0
  | b :: bs => b + 256 * le_dec bs
  end.

Fixpoint le_enc (n : nat) (x : Z) : list Z :=
  match n with
  | O => []
  | S n => x mod 256 :: le_enc n (x / 256)
  end.

Definition byte_ok (b : Z) : Prop := 0 <= b < 256.
Definition bytes_ok (bs : list Z) : Prop := Forall byte_ok bs.

(** Reading and writing a little-endian word of [n] bytes. *)
Definition rd_le (n : nat) (m : list Z) (off : Z) : option Z :=
  bs ← mem_read m off (Z.of_nat n); Some (le_dec bs).
Definition wr_le (n : nat) (m : list Z) (off x : Z) : option (list Z) :=
  mem_write m off (le_enc n x).

(** ** Tactics *)

(** Case analysis on the first [Z] comparison of the goal. *)
Ltac case_z :=
  match goal with
  | |- context [Z.leb ?a ?b] => destruct (Z.leb_spec a b)
  | |- context [Z.ltb ?a ?b] => destruct (Z.ltb_spec a b)
  | |- context [Z.eqb ?a ?b] => destruct (Z.eqb_spec a b)
  end; cbn [andb orb negb].

(** The same on hypotheses. *)
Ltac case_z_in H :=
  match type of H with
  | context [Z.leb ?a ?b] => destruct (Z.leb_spec a b)
  | context [Z.ltb ?a ?b] => destruct (Z.ltb_spec a b)
  | context [Z.eqb ?a ?b] => destruct (Z.eqb_spec a b)
  end; cbn [andb orb negb] in H.

Ltac inv_opt :=
  repeat match goal with
  | H : Some _ = Some _ |- _ => injection H as H; subst
  | H : Some _ = None |- _ => discriminate H
  | H : None = Some _ |- _ => discriminate H
  | H : (_, _) = (_, _) |- _ => injection H as; subst
  end.

(** Splits the disjunctions, conjunctions and existentials of the context. *)
Ltac split_hyps :=
  repeat match goal with
  | H : _ \/ _ |- _ => destruct H
  | H : _ /\ _ |- _ => destruct H
  | H : exists _, _ |- _ => destruct H
  end; subst.

(** [zlia]: linear arithmetic with the list lengths of the goal unfolded. *)
Ltac zlia := unfold zlen in *; cbn [length] in *; lia.

(** [dlia]: linear arithmetic with division and remainder by constants. *)
Ltac dlia := Z.to_euclidean_division_equations; lia.

Create HintDb zarith_db.
Create HintDb mem_db.
Create Rewrite HintDb mem_rw.

(** ** Lemmas on fixed-width integers *)

Lemma pow2_pos w : 0 <= w -> 0 < 2 ^ w.
Proof. intros; apply Z.pow_pos_nonneg; lia. Qed.
#[export] Hint Resolve pow2_pos : zarith_db.

Lemma uw_range w x : 0 <= w -> 0 <= uw w x < 2 ^ w.
Proof. intros Hw; apply Z.mod_pos_bound, pow2_pos, Hw. Qed.

Lemma uw_small w x : 0 <= x < 2 ^ w -> uw w x = x.
Proof. apply Z.mod_small. Qed.

Lemma uw_idemp w x : uw w (uw w x) = uw w x.
Proof. unfold uw. apply Zmod_mod. Qed.

Lemma uw_add_l w x y : uw w (uw w x + y) = uw w (x + y).
Proof. apply Zplus_mod_idemp_l. Qed.

Lemma uw_sub_lr w x y : uw w (uw w x - uw w y) = uw w (x - y).
Proof. unfold uw. rewrite <- Zminus_mod. reflexivity. Qed.

Lemma u32_range x : 0 <= u32 x < 4294967296.
Proof. apply (uw_range 32); lia. Qed.
Lemma u64_range x : 0 <= u64 x < 18446744073709551616.
Proof. apply (uw_range 64); lia. Qed.
Lemma u32_small x : 0 <= x < 4294967296 -> u32 x = x.
Proof. apply (uw_small 32). Qed.
Lemma u64_small x : 0 <= x < 18446744073709551616 -> u64 x = x.
Proof. apply (uw_small 64). Qed.
#[export] Hint Resolve u32_range u64_range : zarith_db.

Lemma sw_small w x : 0 < w -> - 2 ^ (w - 1) <= x < 2 ^ (w - 1) -> sw w x = x.
Proof.
  intros Hw H. unfold sw.
  assert (2 ^ w = 2 * 2 ^ (w - 1)) as E.
  { replace w with (Z.succ (w - 1)) at 1 by lia. rewrite Z.pow_succ_r; lia. }
  rewrite Z.mod_small; lia.
Qed.

Lemma sw_range w x : 0 < w -> - 2 ^ (w - 1) <= sw w x < 2 ^ (w - 1).
Proof.
  intros Hw. unfold sw.
  assert (2 ^ w = 2 * 2 ^ (w - 1)) as E.
  { replace w with (Z.succ (w - 1)) at 1 by lia. rewrite Z.pow_succ_r; lia. }
  pose proof (Z.mod_pos_bound (x + 2 ^ (w - 1)) (2 ^ w) (pow2_pos w ltac:(lia))).
  lia.
Qed.

(** ** Lemmas on byte memories *)
Section memory.
Context {A : Type}.
Implicit Types m bs l : list A.

Lemma zlen_nonneg l : 0 <= zlen l.
Proof. unfold zlen; lia. Qed.
Lemma zlen_pos l : l <> [] -> 0 < zlen l.
Proof. unfold zlen. destruct l; [done|cbn [length]; lia]. Qed.
Lemma zlen_app l1 l2 : zlen (l1 ++ l2) = zlen l1 + zlen l2.
Proof. unfold zlen. rewrite length_app. lia. Qed.
Lemma zlen_nil : zlen (@nil A) = 0.
Proof. reflexivity. Qed.
Lemma zlen_cons (x : A) l : zlen (x :: l) = 1 + zlen l.
Proof. unfold zlen. cbn [length]. lia. Qed.

Lemma zlen_slice m off len :
  0 <= off -> 0 <= len -> off + len <= zlen m -> zlen (slice m off len) = len.
Proof. unfold zlen, slice. rewrite length_take, length_drop. lia. Qed.

Lemma zlen_splice m off bs :
  0 <= off -> off + zlen bs <= zlen m -> zlen (splice m off bs) = zlen m.
Proof.
  unfold zlen, splice. rewrite !length_app, length_take, length_drop. lia.
Qed.

(** Slices by index: the reading of memory the disjointness lemmas use. *)
Lemma lookup_slice m off len i :
  0 <= off -> (i < Z.to_nat len)%nat ->
  slice m off len !! i = m !! (Z.to_nat off + i)%nat.
Proof. intros. unfold slice. rewrite lookup_take_lt, lookup_drop; [done|lia]. Qed.

Lemma lookup_splice m off bs i :
  0 <= off -> off + zlen bs <= zlen m ->
  splice m off bs !! i =
    if (Z.of_nat i <? off) || (off + zlen bs <=? Z.of_nat i)
    then m !! i else bs !! (i - Z.to_nat off)%nat.
Proof.
  intros H0 H1. unfold splice, zlen in *.
  assert (length (take (Z.to_nat off) m) = Z.to_nat off) as L
    by (rewrite length_take; lia).
  destruct (Z.ltb_spec (Z.of_nat i) off) as [Hi|Hi]; cbn [orb].
  { rewrite lookup_app_l by lia. apply lookup_take_lt. lia. }
  rewrite lookup_app_r by lia. rewrite L.
  destruct (Z.leb_spec (off + Z.of_nat (length bs)) (Z.of_nat i)).
  - rewrite lookup_app_r by lia. rewrite lookup_drop. f_equal. lia.
  - rewrite lookup_app_l by lia. done.
Qed.

Lemma slice_ext m1 m2 off len :
  0 <= off -> 0 <= len -> off + len <= zlen m1 -> off + len <= zlen m2 ->
  (forall i : nat, off <= Z.of_nat i < off + len -> m1 !! i = m2 !! i) ->
  slice m1 off len = slice m2 off len.
Proof.
  intros Ho Hl H1 H2 E. apply list_eq. intros i.
  destruct (decide (i < Z.to_nat len)%nat) as [Hi|Hi].
  - rewrite !lookup_slice by lia. apply E. lia.
  - rewrite !lookup_ge_None_2; try done; unfold slice;
      rewrite length_take; lia.
Qed.

(** Reading back what was written. *)
Lemma slice_splice_same m off bs :
  0 <= off -> off + zlen bs <= zlen m ->
  slice (splice m off bs) off (zlen bs) = bs.
Proof.
  intros H0 H1. apply list_eq. intros i. pose proof (zlen_nonneg bs).
  destruct (decide (i < length bs)%nat) as [Hi|Hi].
  - rewrite lookup_slice by (unfold zlen; lia).
    rewrite lookup_splice by done.
    destruct (Z.ltb_spec (Z.of_nat (Z.to_nat off + i)) off); [lia|].
    destruct (Z.leb_spec (off + zlen bs) (Z.of_nat (Z.to_nat off + i)));
      [unfold zlen in *; lia|].
    cbn. f_equal. lia.
  - rewrite !lookup_ge_None_2; [done|lia|].
    unfold slice. rewrite length_take. unfold zlen. lia.
Qed.

(** A write leaves the disjoint bytes alone. *)
Lemma slice_splice_disj m off bs off' len' :
  0 <= off -> off + zlen bs <= zlen m ->
  0 <= off' -> 0 <= len' -> off' + len' <= zlen m ->
  off' + len' <= off \/ off + zlen bs <= off' ->
  slice (splice m off bs) off' len' = slice m off' len'.
Proof.
  intros H0 H1 H2 H3 H4 D. apply slice_ext; try done.
  - rewrite zlen_splice by done. done.
  - intros i Hi. rewrite lookup_splice by done.
    destruct (Z.ltb_spec (Z.of_nat i) off); [done|].
    destruct (Z.leb_spec (off + zlen bs) (Z.of_nat i)); [done|lia].
Qed.

Lemma slice_app_split m off len1 len2 :
  0 <= off -> 0 <= len1 -> 0 <= len2 ->
  slice m off (len1 + len2) = slice m off len1 ++ slice m (off + len1) len2.
Proof.
  intros. unfold slice.
  rewrite Z2Nat.inj_add, (Z2Nat.inj_add off) by lia.
  rewrite <- drop_drop. symmetry. apply take_take_drop.
Qed.

Lemma slice_all m : slice m 0 (zlen m) = m.
Proof. unfold slice, zlen. rewrite drop_0. apply take_ge. lia. Qed.

Lemma slice_0 m off : slice m off 0 = [].
Proof. done. Qed.

Lemma slice_slice m off len off' len' :
  0 <= off -> 0 <= off' -> 0 <= len' -> off' + len' <= len ->
  slice (slice m off len) off' len' = slice m (off + off') len'.
Proof.
  intros. unfold slice. rewrite Z2Nat.inj_add by lia.
  apply list_eq. intros i.
  destruct (decide (i < Z.to_nat len')%nat).
  - rewrite !lookup_take_lt, !lookup_drop, lookup_take_lt, lookup_drop by lia.
    f_equal. lia.
  - rewrite !lookup_ge_None_2; try done; rewrite length_take; lia.
Qed.
End memory.

Lemma zlen_fill n b : 0 <= n -> zlen (fill n b) = n.
Proof. intros. unfold zlen, fill. rewrite length_replicate. lia. Qed.

Lemma mem_read_Some (m : list Z) off len :
  0 <= off -> 0 <= len -> off + len <= zlen m ->
  mem_read m off len = Some (slice m off len).
Proof. intros. unfold mem_read, in_region. repeat case_z; done || lia. Qed.

Lemma mem_read_inv (m : list Z) off len bs :
  mem_read m off len = Some bs ->
  (0 <= off /\ 0 <= len /\ off + len <= zlen m) /\ bs = slice m off len.
Proof. unfold mem_read, in_region. repeat case_z; intros; inv_opt; done || lia. Qed.

Lemma mem_write_Some (m : list Z) off bs :
  0 <= off -> off + zlen bs <= zlen m ->
  mem_write m off bs = Some (splice m off bs).
Proof.
  intros. pose proof (zlen_nonneg bs).
  unfold mem_write, in_region. repeat case_z; done || lia.
Qed.

Lemma mem_write_inv (m m' : list Z) off bs :
  mem_write m off bs = Some m' ->
  (0 <= off /\ off + zlen bs <= zlen m) /\ m' = splice m off bs.
Proof. unfold mem_write, in_region. repeat case_z; intros; inv_opt; done || lia. Qed.

Lemma mem_write_length (m m' : list Z) off bs :
  mem_write m off bs = Some m' -> zlen m' = zlen m.
Proof. intros ((? & ?) & ->)%mem_write_inv. by apply zlen_splice. Qed.

(** ** Little-endian codec *)
Lemma le_enc_length n x : length (le_enc n x) = n.
Proof. revert x; induction n; intros; cbn; [|rewrite IHn]; done. Qed.

Lemma zlen_le_enc n x : zlen (le_enc n x) = Z.of_nat n.
Proof. unfold zlen. by rewrite le_enc_length. Qed.

Lemma le_dec_enc n x : le_dec (le_enc n x) = x mod 2 ^ (8 * Z.of_nat n).
Proof.
  revert x; induction n; intros; [by rewrite Z.mod_1_r|].
  cbn [le_enc le_dec]. rewrite IHn.
  replace (8 * Z.of_nat (S n)) with (8 + 8 * Z.of_nat n) by lia.
  rewrite Z.pow_add_r by lia. change (2 ^ 8) with 256.
  rewrite Z.rem_mul_r; [lia|lia|]. apply Z.pow_pos_nonneg; lia.
Qed.

Lemma le_dec_range bs : bytes_ok bs -> 0 <= le_dec bs < 2 ^ (8 * zlen bs).
Proof.
  induction 1 as [|b bs Hb Hbs IH]; cbn [le_dec]; [by split|].
  rewrite zlen_cons. replace (8 * (1 + zlen bs)) with (8 + 8 * zlen bs) by lia.
  pose proof (zlen_nonneg bs). rewrite Z.pow_add_r by lia.
  change (2 ^ 8) with 256. unfold byte_ok in Hb. lia.
Qed.

Lemma le_enc_bytes_ok n x : bytes_ok (le_enc n x).
Proof.
  revert x; induction n; intros; constructor; [|apply IHn].
  apply Z.mod_pos_bound. lia.
Qed.

Lemma le_enc_dec bs : bytes_ok bs -> le_enc (length bs) (le_dec bs) = bs.
Proof.
  induction 1 as [|b bs Hb Hbs IH]; cbn [length le_enc le_dec]; [done|].
  unfold byte_ok in Hb. f_equal.
  - rewrite Z.mul_comm, Z.mod_add by lia. apply Z.mod_small. done.
  - rewrite Z.mul_comm, Z.div_add, Z.div_small by lia. exact IH.
Qed.

(** Words at an offset: a read after the write of the same word, and after a
    disjoint write. *)
Lemma rd_le_spec n (m : list Z) off :
  0 <= off -> off + Z.of_nat n <= zlen m ->
  rd_le n m off = Some (le_dec (slice m off (Z.of_nat n))).
Proof. intros. unfold rd_le. rewrite mem_read_Some by lia. done. Qed.

Lemma wr_le_spec n (m : list Z) off x :
  0 <= off -> off + Z.of_nat n <= zlen m ->
  wr_le n m off x = Some (splice m off (le_enc n x)).
Proof. intros. unfold wr_le. apply mem_write_Some; rewrite ?zlen_le_enc; lia. Qed.

Lemma rd_le_splice_same n (m : list Z) off x :
  0 <= off -> off + Z.of_nat n <= zlen m ->
  rd_le n (splice m off (le_enc n x)) off = Some (x mod 2 ^ (8 * Z.of_nat n)).
Proof.
  intros H0 H1. rewrite rd_le_spec; rewrite ?zlen_splice by (rewrite ?zlen_le_enc; lia); try lia.
  rewrite <- (zlen_le_enc n x) at 1.
  rewrite slice_splice_same by (rewrite ?zlen_le_enc; lia).
  by rewrite le_dec_enc.
Qed.

Lemma slice_bytes_ok (m : list Z) off len : bytes_ok m -> bytes_ok (slice m off len).
Proof. intros H. unfold slice. by apply Forall_take, Forall_drop. Qed.

Lemma splice_bytes_ok (m bs : list Z) off :
  bytes_ok m -> bytes_ok bs -> bytes_ok (splice m off bs).
Proof.
  intros Hm Hb. unfold splice.
  repeat apply Forall_app_2; auto using Forall_take, Forall_drop.
Qed.

Lemma fill_bytes_ok n b : byte_ok b -> bytes_ok (fill n b).
Proof. intros. by apply Forall_replicate. Qed.

#[export] Hint Resolve le_enc_bytes_ok slice_bytes_ok splice_bytes_ok fill_bytes_ok
  zlen_nonneg : mem_db.
#[export] Hint Rewrite @zlen_app @zlen_nil @zlen_cons zlen_le_enc : mem_rw.

(** ** A state monad for C functions

    [M S A] is a C function that reads and writes a state [S] and returns an
    [A]. [None] is the kernel's BUG() and an access outside the object. *)
Definition M (S A : Type) : Type := S -> option (A * S).

#[export] Instance M_ret {S} : MRet (M S) := fun A x s => Some (x, s).
#[export] Instance M_bind {S} : MBind (M S) := fun A B k m s =>
  match m s with
  | Some (x, s') => k x s'
  | None => None
  end.

Definition get {S} : M S S := fun s => Some (s, s).
Definition modify {S} (f : S -> S) : M S unit := fun s => Some (tt, f s).
Definition BUG {S A} : M S A := fun _ => None.
Definition BUG_ON {S} (b : bool) : M S unit := if b then BUG else mret tt.
(** An access that may fall outside its object. *)
Definition checked {S A} (o : option A) : M S A := fun s =>
  match o with Some x => Some (x, s) | None => None end.

(** [munfold]: run the monad's combinators in the goal. *)
Ltac munfold :=
  cbv beta iota delta [mbind M_bind mret M_ret get modify BUG BUG_ON checked] in *.

Lemma M_bind_Some {S A B} (m : M S A) (k : A -> M S B) s r : (m ≫= k) s = Some r ->
  exists x s', m s = Some (x, s') /\ k x s' = Some r.
Proof. unfold mbind, M_bind. destruct (m s) as [[x s']|]; [eauto|done]. Qed.

(** ** Weakest preconditions of the monad *)

Create Rewrite HintDb wp_rw.

(** [wp m Q s]: from [s], [m] does not fault and ends in [Q]. *)
Definition wp {S A} (m : M S A) (Q : A -> S -> Prop) (s : S) : Prop :=
  match m s with
  | Some (x, s') => Q x s'
  | None => False
  end.

Section wp.
Context {S : Type}.

Lemma wp_bind {A B} (m : M S A) (k : A -> M S B) Q s :
  wp (mbind k m) Q s = wp m (fun x s' => wp (k x) Q s') s.
Proof. unfold wp, mbind, M_bind. destruct (m s) as [[x s']|]; done. Qed.

Lemma wp_ret {A} (x : A) (Q : A -> S -> Prop) s : wp (mret x) Q s = Q x s.
Proof. done. Qed.

Lemma wp_get (Q : S -> S -> Prop) s : wp get Q s = Q s s.
Proof. done. Qed.

Lemma wp_modify f (Q : unit -> S -> Prop) s : wp (modify f) Q s = Q tt (f s).
Proof. done. Qed.

Lemma wp_BUG_ON b (Q : unit -> S -> Prop) s : b = false -> Q tt s -> wp (BUG_ON b) Q s.
Proof. by intros ->. Qed.

Lemma wp_checked {A} (o : option A) x (Q : A -> S -> Prop) s :
  o = Some x -> Q x s -> wp (checked o) Q s.
Proof. by intros ->. Qed.

Lemma wp_mono {A} (m : M S A) (Q Q' : A -> S -> Prop) s :
  wp m Q s -> (forall x s', Q x s' -> Q' x s') -> wp m Q' s.
Proof. unfold wp. destruct (m s) as [[x s']|]; eauto. Qed.

Lemma wp_and {A} (m : M S A) (Q Q' : A -> S -> Prop) s :
  wp m Q s -> wp m Q' s -> wp m (fun x s' => Q x s' /\ Q' x s') s.
Proof. unfold wp. by destruct (m s) as [[x s']|]. Qed.

Lemma wp_and_run {A} (m : M S A) (Q Q' : A -> S -> Prop) s :
  wp m Q s -> (forall x s', m s = Some (x, s') -> Q' x s') -> wp m (fun x s' => Q x s' /\ Q' x s') s.
Proof. unfold wp. destruct (m s) as [[x s']|]; eauto. Qed.

Lemma wp_total {A} (m : M S A) Q s :
  wp m Q s -> exists x s', m s = Some (x, s') /\ Q x s'.
Proof. unfold wp. destruct (m s) as [[x s']|]; [eauto|done]. Qed.
End wp.
#[export] Hint Rewrite @wp_bind @wp_ret @wp_get @wp_modify : wp_rw.

Ltac wp_simpl := autorewrite with wp_rw; cbv beta.

(** ** Alignment masks *)

Lemma land_mask x k : 0 <= k -> Z.land x (2 ^ k - 1) = x mod 2 ^ k.
Proof. intros. rewrite <- Z.land_ones by done. by rewrite Z.ones_equiv. Qed.

Lemma land_lnot_mask x k : 0 <= k -> Z.land x (Z.lnot (2 ^ k - 1)) = x - x mod 2 ^ k.
Proof.
  intros. rewrite Z.sub_1_r, <- Z.ones_equiv, <- Z.ldiff_land.
  rewrite Z.ldiff_ones_r, Z.shiftl_mul_pow2, Z.shiftr_div_pow2 by done.
  pose proof (Z.div_mod x (2 ^ k)). pose proof (pow2_pos k). lia.
Qed.

(** ** Algebra of updates *)
Section splices.
Context {A : Type}.
Implicit Types m bs : list A.

Lemma list_eq_same_length m1 m2 :
  zlen m1 = zlen m2 ->
  (forall i : nat, (i < length m1)%nat -> m1 !! i = m2 !! i) -> m1 = m2.
Proof.
  unfold zlen. intros L E. apply list_eq. intros i.
  destruct (decide (i < length m1)%nat); [auto|].
  rewrite !lookup_ge_None_2 by lia. done.
Qed.

(** Two adjacent updates are one. *)
Lemma splice_app m off x y :
  0 <= off -> off + zlen x + zlen y <= zlen m ->
  splice (splice m off x) (off + zlen x) y = splice m off (x ++ y).
Proof.
  intros H0 H1. pose proof (zlen_nonneg x). pose proof (zlen_nonneg y).
  assert (zlen (splice m off x) = zlen m) as L by (apply zlen_splice; lia).
  assert (zlen (splice m off (x ++ y)) = zlen m) as L2
    by (apply zlen_splice; rewrite ?zlen_app; lia).
  apply list_eq_same_length; [rewrite !zlen_splice; rewrite ?L, ?zlen_app; lia|].
  intros i _. rewrite !lookup_splice; rewrite ?L, ?zlen_app; try lia.
  repeat case_z; try done; try lia; unfold zlen in *.
  - rewrite lookup_app_r by lia. f_equal. lia.
  - rewrite lookup_app_l by lia. done.
Qed.

(** An update inside a slice is an update of the whole slice. *)
Lemma splice_within m off len o bs :
  0 <= off -> 0 <= o -> o + zlen bs <= len -> off + len <= zlen m ->
  splice m (off + o) bs = splice m off (splice (slice m off len) o bs).
Proof.
  intros H0 H1 H2 H3. pose proof (zlen_nonneg bs).
  assert (zlen (slice m off len) = len) as Ls by (apply zlen_slice; lia).
  assert (zlen (splice (slice m off len) o bs) = len) as L
    by (rewrite zlen_splice; rewrite ?Ls; lia).
  apply list_eq_same_length; [rewrite !zlen_splice; rewrite ?L; lia|].
  intros i _. rewrite !lookup_splice; rewrite ?L, ?Ls; try lia.
  repeat case_z; try done; try lia; unfold zlen in *.
  - rewrite lookup_slice by lia. f_equal. lia.
  - rewrite lookup_slice by lia. f_equal. lia.
  - f_equal. lia.
Qed.

Lemma splice_twice m off x y :
  0 <= off -> zlen x = zlen y -> off + zlen x <= zlen m ->
  splice (splice m off x) off y = splice m off y.
Proof.
  intros H0 H1 H2. pose proof (zlen_nonneg y).
  assert (zlen (splice m off x) = zlen m) as L by (apply zlen_splice; lia).
  apply list_eq_same_length; [rewrite !zlen_splice; rewrite ?L; lia|].
  intros i _. rewrite !lookup_splice; rewrite ?L; try lia.
  repeat case_z; try done; lia.
Qed.

Lemma splice_slice_id m off len :
  0 <= off -> 0 <= len -> off + len <= zlen m ->
  splice m off (slice m off len) = m.
Proof.
  intros. assert (zlen (slice m off len) = len) as L by (apply zlen_slice; lia).
  apply list_eq_same_length; [rewrite zlen_splice; lia|].
  intros i _. rewrite lookup_splice; rewrite ?L; try lia.
  repeat case_z; try done. rewrite lookup_slice by lia. f_equal. lia.
Qed.
End splices.

(** Two adjacent updates, the upper one first. *)
Lemma splice_app_down {A} (m : list A) off x y :
  0 <= off -> off + zlen x + zlen y <= zlen m ->
  splice (splice m (off + zlen x) y) off x = splice m off (x ++ y).
Proof.
  intros H0 H1. pose proof (zlen_nonneg x). pose proof (zlen_nonneg y).
  assert (zlen (splice m (off + zlen x) y) = zlen m) as L by (apply zlen_splice; lia).
  assert (zlen (splice m off (x ++ y)) = zlen m) as L2
    by (apply zlen_splice; rewrite ?zlen_app; lia).
  apply list_eq_same_length; [rewrite !zlen_splice; rewrite ?L, ?zlen_app; lia|].
  intros i _. rewrite !lookup_splice; rewrite ?L, ?zlen_app; try lia.
  repeat case_z; try done; try lia; unfold zlen in *.
  - rewrite lookup_app_r by lia. f_equal. lia.
  - rewrite lookup_app_l by lia. done.
Qed.

Lemma slice_app_l {A} (a b : list A) off len :
  0 <= off -> 0 <= len -> off + len <= zlen a -> slice (a ++ b) off len = slice a off len.
Proof.
  intros H0 H1 H2. unfold zlen in *. apply list_eq. intros i.
  destruct (decide (i < Z.to_nat len)%nat).
  - rewrite !lookup_slice by lia. apply lookup_app_l. lia.
  - rewrite !lookup_ge_None_2; try done; unfold slice; rewrite length_take; lia.
Qed.

Lemma slice_app_r {A} (a b : list A) off len :
  zlen a <= off -> slice (a ++ b) off len = slice b (off - zlen a) len.
Proof.
  intros H. unfold slice, zlen in *. f_equal. rewrite skipn_app, skipn_all2 by lia.
  cbn. f_equal. lia.
Qed.

(** ** Residues *)

Lemma mod_inj_window n a b : 0 < n -> 0 < b - a < n -> a mod n <> b mod n.
Proof.
  intros Hn Hab E.
  assert ((b - a) mod n = 0) as Z0 by (rewrite Zminus_mod, E, Z.sub_diag; apply Z.mod_0_l; lia).
  rewrite Z.mod_small in Z0; lia.
Qed.

Lemma mod_succ n a : 0 < n ->
  (a + 1) mod n = if a mod n =? n - 1 then 0 else a mod n + 1.
Proof.
  intros Hn. pose proof (Z.mod_pos_bound a n Hn).
  rewrite <- Zplus_mod_idemp_l. case_z.
  - rewrite e. replace (n - 1 + 1) with n by lia. apply Z.mod_same. lia.
  - apply Z.mod_small. lia.
Qed.

(** ** Bit fields *)

(** Disjoint fields: the lower one is below bit [k]. *)
Lemma lor_shiftl_add a b k : 0 <= k -> 0 <= b < 2 ^ k -> Z.lor (Z.shiftl a k) b = a * 2 ^ k + b.
Proof.
  intros Hk Hb. rewrite <- Z.shiftl_mul_pow2 by done.
  rewrite <- Z.lxor_lor, Z.add_nocarry_lxor; try done;
    apply Z.bits_inj'; intros i Hi; rewrite Z.land_spec, Z.bits_0;
    (destruct (Z.lt_ge_cases i k); [rewrite Z.shiftl_spec_low by done; done|]);
    (destruct (Z.eq_dec b 0) as [-> |]; [by rewrite Z.bits_0, andb_false_r|]);
    rewrite (Z.bits_above_log2 b i); rewrite ?andb_false_r; try done; try lia;
    (apply Z.lt_le_trans with k; [apply Z.log2_lt_pow2; lia|done]).
Qed.

(** The field of [n] bits at bit [k]. *)
Lemma field_extract hi x lo n k :
  0 <= k -> 0 <= n -> 0 <= lo < 2 ^ k -> 0 <= x < 2 ^ n ->
  (hi * 2 ^ (n + k) + x * 2 ^ k + lo) / 2 ^ k mod 2 ^ n = x.
Proof.
  intros Hk Hn Hlo Hx. pose proof (pow2_pos k Hk). pose proof (pow2_pos n Hn).
  rewrite Z.pow_add_r by done.
  replace (hi * (2 ^ n * 2 ^ k) + x * 2 ^ k + lo) with ((hi * 2 ^ n + x) * 2 ^ k + lo) by ring.
  rewrite Z.div_add_l, (Z.div_small lo), Z.add_0_r by lia.
  rewrite Z.add_comm, Z.mod_add, Z.mod_small; lia.
Qed.

Lemma land_nonzero_iff x y : 0 <= x ->
  Z.land x y <> 0 <-> exists i, 0 <= i /\ Z.testbit x i = true /\ Z.testbit y i = true.
Proof.
  intros Hx. split.
  - intros Hne. assert (0 <= Z.land x y) as H0 by (apply Z.land_nonneg; auto).
    exists (Z.log2 (Z.land x y)). split; [apply Z.log2_nonneg|].
    apply andb_prop. rewrite <- Z.land_spec. apply Z.bit_log2. lia.
  - intros (i & Hi & Bx & By) E.
    assert (Z.testbit (Z.land x y) i = true) as C by (by rewrite Z.land_spec, Bx, By).
    by rewrite E, Z.bits_0 in C.
Qed.

(** The byte that holds bit [i] of a little-endian word. *)
Lemma le_dec_testbit bs i : bytes_ok bs -> 0 <= i < 8 * zlen bs ->
  Z.testbit (le_dec bs) i = Z.testbit (le_dec (slice bs (i / 8) 1)) (i mod 8).
Proof.
  intros H. revert i. induction H as [|b bs Hb Hbs IH]; intros i Hi.
  { change (0 <= i < 0) in Hi. lia. }
  rewrite zlen_cons in Hi. cbn [le_dec].
  assert (Z.testbit (b + 256 * le_dec bs) i =
          if i <? 8 then Z.testbit b i else Z.testbit (le_dec bs) (i - 8)) as ->.
  { unfold byte_ok in Hb.
    assert (b + 256 * le_dec bs = Z.lor (Z.shiftl (le_dec bs) 8) b) as ->
      by (rewrite lor_shiftl_add by lia; lia).
    rewrite Z.lor_spec, Z.shiftl_spec by lia. case_z.
    - rewrite (Z.testbit_neg_r _ (i - 8)) by lia. done.
    - assert (Z.testbit b i = false) as ->; [|by rewrite orb_false_r].
      apply Z.testbit_false; [lia|]. rewrite Z.div_small; [done|]. split; [lia|].
      apply Z.lt_le_trans with (2 ^ 8); [lia|]. apply Z.pow_le_mono_r; lia. }
  destruct (Z.ltb_spec i 8).
  - rewrite Z.div_small, Z.mod_small by lia. change (slice (b :: bs) 0 1) with [b].
    cbn [le_dec]. by rewrite Z.mul_0_r, Z.add_0_r.
  - rewrite IH by lia.
    replace (i mod 8) with ((i - 8) mod 8) by dlia.
    replace (slice (b :: bs) (i / 8) 1) with (slice bs ((i - 8) / 8) 1); [done|].
    unfold slice. f_equal. replace (Z.to_nat (i / 8)) with (S (Z.to_nat ((i - 8) / 8))) by dlia.
    done.
Qed.

Lemma bytes_ok_dec l : forallb (fun b => (0 <=? b) && (b <? 256)) l = true -> bytes_ok l.
Proof.
  intros H. apply Forall_forall. intros b Hb.
  rewrite forallb_forall in H. specialize (H b Hb). unfold byte_ok. lia.
Qed.

Lemma lor_range w a b : 0 <= w -> 0 <= a < 2 ^ w -> 0 <= b < 2 ^ w -> 0 <= Z.lor a b < 2 ^ w.
Proof.
  intros Hw Ha Hb.
  assert (Z.lor a b = Z.lor a b mod 2 ^ w) as ->; [|by apply Z.mod_pos_bound, pow2_pos].
  rewrite <- Z.land_ones, Z.land_lor_distr_l, !Z.land_ones by lia.
  by rewrite !Z.mod_small by lia.
Qed.
