(* ===== verification/Ivc.v ===== *)
(** * Inter-VM communication channels (drivers/platform/tegra/tegra-ivc.c)

    The shared queue of one direction (header and frame area), one endpoint
    ([struct ivc]) and every operation of the file on it. The two endpoints of
    a channel and their interleavings are in [IvcSystem]. *)

From S2P Require Import Prelude.

(** ** The environment of the file

    [IVC_ALIGN] and [struct ivc] come from <linux/tegra-ivc.h>, which is not in
    this tree; the DMA mapping and user-access calls belong to the kernel. They
    are parameters. *)
Class IvcConfig := {
  IVC_ALIGN : Z;
  IVC_ALIGN_log2 : Z;
  IVC_ALIGN_log2_range : 3 <= IVC_ALIGN_log2 < 32;
  IVC_ALIGN_pow2 : IVC_ALIGN = 2 ^ IVC_ALIGN_log2;
}.

(** enum ivc_state. Any 32-bit value can be found in shared memory. *)
Definition ivc_state_established : Z := 0.
Definition ivc_state_sync : Z := 1.
Definition ivc_state_ack : Z := 2.

(** struct ivc_channel_header: [w_count] and [state] are owned by the
    transmitting end, [r_count] by the receiving end. *)
Record ivc_channel_header := Hdr { w_count : Z; state : Z; r_count : Z }.

(** A queue: its header and the bytes of its frames, which follow the header. *)
Record channel := Chan { header : ivc_channel_header; data : list Z }.

(** Which cache line of a header is invalidated. *)
Inductive counter_line := W_LINE | R_LINE.

Class DmaOps := {
  (** what dma_sync_single_for_cpu makes visible of a header line, and of
      [len] bytes at an offset of the frame area *)
  dma_sync_counter : counter_line -> ivc_channel_header -> ivc_channel_header;
  dma_sync_frame : Z -> Z -> list Z -> list Z;
  DMA_ERROR_CODE : Z;
  dma_map_single : Z -> Z -> Z;
}.

(** copy_from_user src n: the bytes that reach the destination and the number
    of bytes that were not copied; copy_to_user: the same for the source. *)
Class UserAccess := {
  copy_from_user : list Z -> Z -> list Z * Z;
  copy_to_user : list Z -> list Z * Z;
}.

(** struct ivc. [notified] counts the calls of the notify callback. *)
Record ivc := Ivc {
  rx_channel : channel;
  tx_channel : channel;
  w_pos : Z;
  r_pos : Z;
  nframes : Z;
  frame_size : Z;
  peer_device : bool;
  rx_handle : Z;
  tx_handle : Z;
  notified : Z;
}.

Inductive chan_end := RX | TX.

Definition chan_of (e : chan_end) (i : ivc) : channel :=
  match e with RX => rx_channel i | TX => tx_channel i end.

Definition set_chan (e : chan_end) (c : channel) (i : ivc) : ivc :=
  match e with
  | RX => Ivc c (tx_channel i) (w_pos i) (r_pos i) (nframes i) (frame_size i)
            (peer_device i) (rx_handle i) (tx_handle i) (notified i)
  | TX => Ivc (rx_channel i) c (w_pos i) (r_pos i) (nframes i) (frame_size i)
            (peer_device i) (rx_handle i) (tx_handle i) (notified i)
  end.

Definition set_header (e : chan_end) (h : ivc_channel_header) (i : ivc) : ivc :=
  set_chan e (Chan h (data (chan_of e i))) i.
Definition set_data (e : chan_end) (d : list Z) (i : ivc) : ivc :=
  set_chan e (Chan (header (chan_of e i)) d) i.

Definition set_w_count (v : Z) (h : ivc_channel_header) := Hdr v (state h) (r_count h).
Definition set_state (v : Z) (h : ivc_channel_header) := Hdr (w_count h) v (r_count h).
Definition set_r_count (v : Z) (h : ivc_channel_header) := Hdr (w_count h) (state h) v.

Definition set_pos (w r : Z) (i : ivc) : ivc :=
  Ivc (rx_channel i) (tx_channel i) w r (nframes i) (frame_size i)
    (peer_device i) (rx_handle i) (tx_handle i) (notified i).

(** ivc->notify(ivc) *)
Definition notify (i : ivc) : ivc :=
  Ivc (rx_channel i) (tx_channel i) (w_pos i) (r_pos i) (nframes i) (frame_size i)
    (peer_device i) (rx_handle i) (tx_handle i) (notified i + 1).

(** ** Counter tests *)

Definition ivc_channel_empty (i : ivc) (ch : channel) : bool :=
  let w := w_count (header ch) in
  let r := r_count (header ch) in
  if nframes i <? u32 (w - r) then true else w =? r.

Definition ivc_channel_full (i : ivc) (ch : channel) : bool :=
  nframes i <=? u32 (w_count (header ch) - r_count (header ch)).

Definition ivc_channel_avail_count (ch : channel) : Z :=
  u32 (w_count (header ch) - r_count (header ch)).

Definition ivc_frame_pointer (i : ivc) (frame : Z) : M ivc Z :=
  BUG_ON (nframes i <=? frame);;
  mret (u32 (frame_size i * frame)).

Section ops.
Context {cfg : IvcConfig} {dma : DmaOps} {user : UserAccess}.

Definition ivc_invalidate_counter (e : chan_end) (l : counter_line) : M ivc unit :=
  modify (fun i =>
    if negb (peer_device i) then i
    else set_header e (dma_sync_counter l (header (chan_of e i))) i).

Definition ivc_invalidate_frame (e : chan_end) (frame off len : Z) : M ivc unit :=
  i ← get;
  if negb (peer_device i) then mret tt
  else
    BUG_ON (nframes i <=? frame);;
    modify (set_data e
      (dma_sync_frame (u32 (frame_size i * frame) + off) len (data (chan_of e i)))).

(** [w_count]+1 and the next write position, modulo [nframes]. *)
Definition ivc_advance_tx : M ivc unit :=
  modify (fun i =>
    let h := header (tx_channel i) in
    set_header TX (set_w_count (u32 (w_count h + 1)) h) i);;
  modify (fun i =>
    if w_pos i =? u32 (nframes i - 1) then set_pos 0 (r_pos i) i
    else set_pos (u32 (w_pos i + 1)) (r_pos i) i).

Definition ivc_advance_rx : M ivc unit :=
  modify (fun i =>
    let h := header (rx_channel i) in
    set_header RX (set_r_count (u32 (r_count h + 1)) h) i);;
  modify (fun i =>
    if r_pos i =? u32 (nframes i - 1) then set_pos (w_pos i) 0 i
    else set_pos (w_pos i) (u32 (r_pos i + 1)) i).

Definition ivc_check_read : M ivc Z :=
  i ← get;
  if negb (state (header (tx_channel i)) =? ivc_state_established)
  then mret (- ECONNRESET)
  else if negb (ivc_channel_empty i (rx_channel i)) then mret 0
  else
    ivc_invalidate_counter RX W_LINE;;
    i ← get;
    mret (if ivc_channel_empty i (rx_channel i) then - ENOMEM else 0).

Definition ivc_check_write : M ivc Z :=
  i ← get;
  if negb (state (header (tx_channel i)) =? ivc_state_established)
  then mret (- ECONNRESET)
  else if negb (ivc_channel_full i (tx_channel i)) then mret 0
  else
    ivc_invalidate_counter TX R_LINE;;
    i ← get;
    mret (if ivc_channel_full i (tx_channel i) then - ENOMEM else 0).

Definition tegra_ivc_can_read : M ivc bool :=
  r ← ivc_check_read; mret (r =? 0).

Definition tegra_ivc_can_write : M ivc bool :=
  r ← ivc_check_write; mret (r =? 0).

Definition tegra_ivc_tx_empty : M ivc bool :=
  ivc_invalidate_counter TX R_LINE;;
  i ← get; mret (ivc_channel_empty i (tx_channel i)).

Definition tegra_ivc_tx_frames_available : M ivc Z :=
  ivc_invalidate_counter TX R_LINE;;
  i ← get;
  mret (u32 (nframes i - u32 (w_count (header (tx_channel i)) - r_count (header (tx_channel i))))).

(** The tail both receive paths share: notify on full to non-full. *)
Definition ivc_read_notify : M ivc unit :=
  ivc_invalidate_counter RX W_LINE;;
  modify (fun i =>
    if ivc_channel_avail_count (rx_channel i) =? u32 (nframes i - 1)
    then notify i else i).

(** The tail both transmit paths share: notify on empty to non-empty. *)
Definition ivc_write_notify : M ivc unit :=
  ivc_invalidate_counter TX R_LINE;;
  modify (fun i =>
    if ivc_channel_avail_count (tx_channel i) =? 1 then notify i else i).

(** Where a received frame goes: [buf], [user_buf], both or neither. *)
Definition ivc_read_frame (buf user_buf : bool) (max_read : Z)
    : M ivc (Z * list Z) :=
  BUG_ON (buf && user_buf);;
  i ← get;
  if frame_size i <? max_read then mret (- E2BIG, [])
  else
    result ← ivc_check_read;
    if negb (result =? 0) then mret (result, [])
    else
      i ← get;
      ivc_invalidate_frame RX (r_pos i) 0 max_read;;
      src ← ivc_frame_pointer i (r_pos i);
      i ← get;
      bs ← checked (mem_read (data (rx_channel i)) src max_read);
      let finish (out : list Z) : M ivc (Z * list Z) :=
        ivc_advance_rx;; ivc_read_notify;; mret (s32 max_read, out) in
      if buf then finish bs
      else if user_buf then
        let '(out, uncopied) := copy_to_user bs in
        if negb (uncopied =? 0) then mret (- EFAULT, out) else finish out
      else BUG.

Definition tegra_ivc_read (max_read : Z) : M ivc (Z * list Z) :=
  ivc_read_frame true false max_read.

Definition tegra_ivc_read_user (max_read : Z) : M ivc (Z * list Z) :=
  ivc_read_frame false true max_read.

Definition tegra_ivc_read_peek (off count : Z) : M ivc (Z * list Z) :=
  i ← get;
  if (frame_size i <? off) || (frame_size i <? u64 (off + count))
  then mret (- E2BIG, [])
  else
    result ← ivc_check_read;
    if negb (result =? 0) then mret (result, [])
    else
      i ← get;
      ivc_invalidate_frame RX (r_pos i) off count;;
      src ← ivc_frame_pointer i (r_pos i);
      i ← get;
      bs ← checked (mem_read (data (rx_channel i)) (src + off) count);
      mret (s32 count, bs).

(** The returned pointer is the frame's offset in the queue's frame area;
    an error pointer is the left side. *)
Definition tegra_ivc_read_get_next_frame : M ivc (Z + Z) :=
  result ← ivc_check_read;
  if negb (result =? 0) then mret (inl result)
  else
    i ← get;
    ivc_invalidate_frame RX (r_pos i) 0 (frame_size i);;
    p ← ivc_frame_pointer i (r_pos i);
    mret (inr p).

Definition tegra_ivc_read_advance : M ivc Z :=
  result ← ivc_check_read;
  if negb (result =? 0) then mret result
  else ivc_advance_rx;; ivc_read_notify;; mret 0.

(** What the caller passes: a kernel buffer, a user buffer, both or neither. *)
Definition ivc_write_frame (buf user_buf : option (list Z)) (size : Z)
    : M ivc Z :=
  BUG_ON (bool_decide (is_Some buf) && bool_decide (is_Some user_buf));;
  i ← get;
  if frame_size i <? size then mret (- E2BIG)
  else
    result ← ivc_check_write;
    if negb (result =? 0) then mret result
    else
      i ← get;
      p ← ivc_frame_pointer i (w_pos i);
      let store (off : Z) (bs : list Z) : M ivc unit :=
        i ← get;
        d ← checked (mem_write (data (tx_channel i)) off bs);
        modify (set_data TX d) in
      let finish : M ivc Z :=
        store (p + size) (fill (frame_size i - size) 0);;
        ivc_advance_tx;; ivc_write_notify;; mret (s32 size) in
      match buf, user_buf with
      | Some b, _ =>
          bs ← checked (mem_read b 0 size);
          store p bs;; finish
      | None, Some ub =>
          let '(bs, uncopied) := copy_from_user ub size in
          store p bs;;
          if negb (uncopied =? 0) then mret (- EFAULT) else finish
      | None, None => BUG
      end.

Definition tegra_ivc_write (buf : list Z) (size : Z) : M ivc Z :=
  ivc_write_frame (Some buf) None size.

Definition tegra_ivc_write_user (user_buf : list Z) (size : Z) : M ivc Z :=
  ivc_write_frame None (Some user_buf) size.

Definition tegra_ivc_write_poke (buf : list Z) (off count : Z) : M ivc Z :=
  i ← get;
  if (frame_size i <? off) || (frame_size i <? u64 (off + count))
  then mret (- E2BIG)
  else
    result ← ivc_check_write;
    if negb (result =? 0) then mret result
    else
      i ← get;
      dest ← ivc_frame_pointer i (w_pos i);
      bs ← checked (mem_read buf 0 count);
      d ← checked (mem_write (data (tx_channel i)) (dest + off) bs);
      modify (set_data TX d);;
      mret (s32 count).

Definition tegra_ivc_write_get_next_frame : M ivc (Z + Z) :=
  result ← ivc_check_write;
  if negb (result =? 0) then mret (inl result)
  else i ← get; p ← ivc_frame_pointer i (w_pos i); mret (inr p).

Definition tegra_ivc_write_advance : M ivc Z :=
  result ← ivc_check_write;
  if negb (result =? 0) then mret result
  else ivc_advance_tx;; ivc_write_notify;; mret 0.

(** ** Reset protocol *)

Definition set_tx_state (s : Z) : M ivc unit :=
  modify (fun i => set_header TX (set_state s (header (tx_channel i))) i).

Definition tegra_ivc_channel_reset : M ivc unit :=
  set_tx_state ivc_state_sync;; modify notify.

(** The counters this end owns, and its positions. *)
Definition ivc_reset_counters : M ivc unit :=
  modify (fun i => set_header TX (set_w_count 0 (header (tx_channel i))) i);;
  modify (fun i => set_header RX (set_r_count 0 (header (rx_channel i))) i);;
  modify (fun i => set_pos 0 0 i).

(** The load of the peer's state, and what the handler does with it. *)
Definition ivc_observe_peer : M ivc Z :=
  ivc_invalidate_counter RX W_LINE;;
  i ← get; mret (state (header (rx_channel i))).

Definition ivc_notified_apply (peer_state : Z) : M ivc Z :=
  i ← get;
  let tx_state := state (header (tx_channel i)) in
  (if peer_state =? ivc_state_sync then
     ivc_reset_counters;; set_tx_state ivc_state_ack;; modify notify
   else if (tx_state =? ivc_state_sync) && (peer_state =? ivc_state_ack) then
     ivc_reset_counters;; set_tx_state ivc_state_established;; modify notify
   else if tx_state =? ivc_state_ack then
     set_tx_state ivc_state_established;; modify notify
   else mret tt);;
  i ← get;
  mret (if state (header (tx_channel i)) =? ivc_state_established
        then 0 else - EAGAIN).

Definition tegra_ivc_channel_notified : M ivc Z :=
  peer_state ← ivc_observe_peer; ivc_notified_apply peer_state.

(** [ivc] is [None] for the NULL pointer. *)
Definition tegra_ivc_channel_sync (ivc : option ivc) : option (Z * option Ivc.ivc) :=
  match ivc with
  | None => Some (- EINVAL, None)
  | Some i =>
      if nframes i =? 0 then Some (- EINVAL, Some i)
      else Some (0, Some (set_pos (w_count (header (tx_channel i)) mod nframes i)
                                  (r_count (header (rx_channel i)) mod nframes i) i))
  end.

(** ** Sizes and initialisation *)

Definition tegra_ivc_align (size : Z) : Z :=
  Z.land (u64 (size + (IVC_ALIGN - 1))) (Z.lnot (IVC_ALIGN - 1)).

(** The two unions of the header each take IVC_ALIGN bytes. *)
Definition sizeof_header : Z := 2 * IVC_ALIGN.

Definition tegra_ivc_total_queue_size (queue_size : Z) : Z :=
  if negb (Z.land queue_size (IVC_ALIGN - 1) =? 0) then 0
  else u32 (queue_size + sizeof_header).

(** offsetof(w_count), offsetof(r_count) and sizeof must be aligned: BUG_ON. *)
Definition header_misaligned : bool :=
  negb (Z.land 0 (IVC_ALIGN - 1) =? 0)
  || negb (Z.land IVC_ALIGN (IVC_ALIGN - 1) =? 0)
  || negb (Z.land sizeof_header (IVC_ALIGN - 1) =? 0).

Definition check_ivc_params (queue_base1 queue_base2 nframes frame_size : Z)
    : option Z :=
  if header_misaligned then None
  else if 4294967296 <=? nframes * frame_size then Some (- EINVAL)
  else if negb (Z.land queue_base1 (IVC_ALIGN - 1) =? 0) then Some (- EINVAL)
  else if negb (Z.land queue_base2 (IVC_ALIGN - 1) =? 0) then Some (- EINVAL)
  else if negb (Z.land frame_size (IVC_ALIGN - 1) =? 0) then Some (- EINVAL)
  else if queue_base1 <? queue_base2 then
    if queue_base2 <? u64 (queue_base1 + u32 (frame_size * nframes))
    then Some (- EINVAL) else Some 0
  else
    if queue_base1 <? u64 (queue_base2 + u32 (frame_size * nframes))
    then Some (- EINVAL) else Some 0.

Definition INT_MAX : Z := 2147483647.

Definition set_handles (rxh txh : Z) (i : ivc) : ivc :=
  Ivc (rx_channel i) (tx_channel i) (w_pos i) (r_pos i) (nframes i) (frame_size i)
    (peer_device i) rxh txh (notified i).

(** The last assignments of the function. *)
Definition set_config (nframes frame_size : Z) (peer_device : bool) (i : ivc) : ivc :=
  Ivc (rx_channel i) (tx_channel i) 0 0 nframes frame_size peer_device
    (rx_handle i) (tx_handle i) (notified i).

(** [chan_at]: the queue found at an address. *)
Definition tegra_ivc_init_body (chan_at : Z -> channel)
    (rx_base rx_handle tx_base tx_handle nframes frame_size : Z)
    (peer_device has_notify : bool) : M ivc Z :=
  result ← checked (check_ivc_params rx_base tx_base nframes frame_size);
  if negb (result =? 0) then mret result
  else
    BUG_ON (negb has_notify);;
    let queue_size := tegra_ivc_total_queue_size (u32 (nframes * frame_size)) in
    if INT_MAX <? frame_size then mret (- E2BIG)
    else
      modify (fun i => set_chan TX (chan_at tx_base) (set_chan RX (chan_at rx_base) i));;
      let attach : M ivc Z :=
        modify (set_config nframes frame_size peer_device);; mret 0 in
      if peer_device then
        if negb (rx_handle =? DMA_ERROR_CODE) then
          modify (set_handles rx_handle tx_handle);; attach
        else
          let rxh := dma_map_single rx_base queue_size in
          modify (fun i => set_handles rxh (Ivc.tx_handle i) i);;
          if rxh =? DMA_ERROR_CODE then mret (- ENOMEM)
          else
            let txh := dma_map_single tx_base queue_size in
            modify (set_handles rxh txh);;
            if txh =? DMA_ERROR_CODE then mret (- ENOMEM)
            else attach
      else attach.

Definition tegra_ivc_init (chan_at : Z -> channel)
    (rx_base tx_base nframes frame_size : Z) (peer_device has_notify : bool)
    : M ivc Z :=
  tegra_ivc_init_body chan_at rx_base DMA_ERROR_CODE tx_base DMA_ERROR_CODE
    nframes frame_size peer_device has_notify.

Definition tegra_ivc_init_with_dma_handle (chan_at : Z -> channel)
    (rx_base rx_handle tx_base tx_handle nframes frame_size : Z)
    (peer_device has_notify : bool) : M ivc Z :=
  tegra_ivc_init_body chan_at rx_base rx_handle tx_base tx_handle
    nframes frame_size peer_device has_notify.
End ops.

(** ** Well-formed endpoints

    Nothing is assumed of the counters and states: they are in memory the peer
    can write. *)
Record ivc_ok (i : ivc) : Prop := {
  ok_nframes : 0 < nframes i < 2 ^ 32;
  ok_frame_size : 0 <= frame_size i <= INT_MAX;
  ok_total : nframes i * frame_size i < 2 ^ 32;
  ok_rx : zlen (data (rx_channel i)) = nframes i * frame_size i;
  ok_tx : zlen (data (tx_channel i)) = nframes i * frame_size i;
  ok_w : 0 <= w_pos i < nframes i;
  ok_r : 0 <= r_pos i < nframes i;
}.

(** What the environment must respect: an invalidation does not resize the
    frame area, and a user copy stores at most the bytes it was asked for. *)
Class DmaOk (dma : DmaOps) := {
  dma_sync_frame_length : forall off len d, zlen (dma_sync_frame off len d) = zlen d;
}.
Class UserOk (user : UserAccess) := {
  copy_from_user_length : forall ub n, 0 <= n -> zlen (copy_from_user ub n).1 <= n;
}.

(** The calls a client of one endpoint can make. *)
Inductive call :=
  | CanRead | CanWrite | TxEmpty | TxFramesAvailable
  | Read (max_read : Z) | ReadUser (max_read : Z) | ReadPeek (off count : Z)
  | ReadGetNextFrame | ReadAdvance
  | Write (buf : list Z) (size : Z) | WriteUser (ubuf : list Z) (size : Z)
  | WritePoke (buf : list Z) (off count : Z)
  | WriteGetNextFrame | WriteAdvance
  | ChannelReset | ChannelNotified.

(** Sizes are [size_t]s, a kernel buffer holds the bytes it is said to hold, and
    the end of a peeked or poked range does not wrap. *)
Definition call_ok (c : call) : Prop :=
  match c with
  | Read n | ReadUser n | WriteUser _ n => 0 <= n < 2 ^ 64
  | Write b n => 0 <= n < 2 ^ 64 /\ n <= zlen b
  | ReadPeek off n => 0 <= off /\ 0 <= n /\ off + n < 2 ^ 64
  | WritePoke b off n => 0 <= off /\ 0 <= n /\ off + n < 2 ^ 64 /\ n <= zlen b
  | _ => True
  end.

Section safety.
Context {cfg : IvcConfig} {dma : DmaOps} {user : UserAccess}.

(** The status code of a call (pointers are given back as 0) and the bytes it
    delivers. *)
Definition run_call (c : call) : M ivc (Z * list Z) :=
  let code (m : M ivc Z) : M ivc (Z * list Z) := r ← m; mret (r, []) in
  match c with
  | CanRead => b ← tegra_ivc_can_read; mret (Z.b2z b, [])
  | CanWrite => b ← tegra_ivc_can_write; mret (Z.b2z b, [])
  | TxEmpty => b ← tegra_ivc_tx_empty; mret (Z.b2z b, [])
  | TxFramesAvailable => code tegra_ivc_tx_frames_available
  | Read n => tegra_ivc_read n
  | ReadUser n => tegra_ivc_read_user n
  | ReadPeek off n => tegra_ivc_read_peek off n
  | ReadGetNextFrame =>
      r ← tegra_ivc_read_get_next_frame;
      mret (match r with inl e => e | inr _ => 0 end, [])
  | ReadAdvance => code tegra_ivc_read_advance
  | Write b n => code (tegra_ivc_write b n)
  | WriteUser ub n => code (tegra_ivc_write_user ub n)
  | WritePoke b off n => code (tegra_ivc_write_poke b off n)
  | WriteGetNextFrame =>
      r ← tegra_ivc_write_get_next_frame;
      mret (match r with inl e => e | inr _ => 0 end, [])
  | WriteAdvance => code tegra_ivc_write_advance
  | ChannelReset => tegra_ivc_channel_reset;; mret (0, [])
  | ChannelNotified => code tegra_ivc_channel_notified
  end.

(** A step that only touches headers, the notification count and the
    positions (within range) keeps the endpoint well formed. *)
Lemma ok_set_header e h i : ivc_ok i -> ivc_ok (set_header e h i).
Proof. intros []; destruct e; constructor; done. Qed.

Lemma ok_notify i : ivc_ok i -> ivc_ok (notify i).
Proof. intros []; constructor; done. Qed.

Lemma ok_set_pos w r i :
  ivc_ok i -> 0 <= w < nframes i -> 0 <= r < nframes i -> ivc_ok (set_pos w r i).
Proof. intros []; constructor; done. Qed.

Lemma ok_set_data e d i :
  ivc_ok i -> zlen d = zlen (data (chan_of e i)) -> ivc_ok (set_data e d i).
Proof. intros []; destruct e; constructor; cbn in *; congruence. Qed.

(** [i'] is well formed and has the geometry of [i]. *)
Definition evolves (i i' : ivc) : Prop :=
  ivc_ok i' /\ nframes i' = nframes i /\ frame_size i' = frame_size i.

Lemma evolves_refl i : ivc_ok i -> evolves i i.
Proof. done. Qed.
Lemma evolves_trans i j k : evolves i j -> evolves j k -> evolves i k.
Proof. unfold evolves. intuition congruence. Qed.
Hint Resolve evolves_refl ok_set_header ok_notify : core.

Lemma wp_invalidate e l Q i :
  ivc_ok i -> (forall i', evolves i i' -> Q tt i') -> wp (ivc_invalidate_counter e l) Q i.
Proof.
  intros Hi HQ. unfold ivc_invalidate_counter. wp_simpl. apply HQ.
  destruct (peer_device i); cbn; auto.
  split; [auto|destruct e; done].
Qed.

Lemma wp_check_read Q i :
  ivc_ok i -> (forall r i', evolves i i' -> Q r i') -> wp ivc_check_read Q i.
Proof.
  intros Hi HQ. unfold ivc_check_read. wp_simpl.
  destruct (negb _); wp_simpl; [auto|].
  destruct (negb _); wp_simpl; [auto|].
  apply wp_invalidate; [done|]. intros. wp_simpl. auto.
Qed.

Lemma wp_check_write Q i :
  ivc_ok i -> (forall r i', evolves i i' -> Q r i') -> wp ivc_check_write Q i.
Proof.
  intros Hi HQ. unfold ivc_check_write. wp_simpl.
  destruct (negb _); wp_simpl; [auto|].
  destruct (negb _); wp_simpl; [auto|].
  apply wp_invalidate; [done|]. intros. wp_simpl. auto.
Qed.

(** A valid frame lies inside the frame area, and its offset does not wrap. *)
Lemma frame_in_area i f :
  ivc_ok i -> 0 <= f < nframes i ->
  u32 (frame_size i * f) = frame_size i * f /\
  0 <= frame_size i * f /\
  frame_size i * f + frame_size i <= nframes i * frame_size i.
Proof.
  intros [] Hf.
  assert (frame_size i * f + frame_size i <= nframes i * frame_size i) by nia.
  assert (0 <= frame_size i * f) by nia.
  split_and!; try done. apply u32_small. lia.
Qed.

Lemma wp_frame_pointer f Q i0 i :
  ivc_ok i0 -> 0 <= f < nframes i0 ->
  (0 <= frame_size i0 * f ->
   frame_size i0 * f + frame_size i0 <= nframes i0 * frame_size i0 ->
   Q (frame_size i0 * f) i) ->
  wp (ivc_frame_pointer i0 f) Q i.
Proof.
  intros Hi Hf HQ. unfold ivc_frame_pointer. wp_simpl.
  apply wp_BUG_ON; [lia|]. wp_simpl.
  destruct (frame_in_area i0 f) as (-> & ? & ?); auto.
Qed.

Lemma wp_invalidate_frame `{!DmaOk dma} e f off len Q i :
  ivc_ok i -> 0 <= f < nframes i ->
  (forall i', evolves i i' -> Q tt i') -> wp (ivc_invalidate_frame e f off len) Q i.
Proof.
  intros Hi Hf HQ. unfold ivc_invalidate_frame. wp_simpl.
  destruct (negb _); wp_simpl; [auto|].
  apply wp_BUG_ON; [lia|]. wp_simpl. apply HQ. split.
  - apply ok_set_data; [done|]. apply dma_sync_frame_length.
  - destruct e; done.
Qed.

Lemma pos_next n p : 0 <= p < n -> n < 2 ^ 32 ->
  0 <= (if p =? u32 (n - 1) then 0 else u32 (p + 1)) < n.
Proof.
  intros. rewrite !u32_small by lia. case_z; lia.
Qed.

Lemma wp_advance_tx Q i :
  ivc_ok i -> (forall i', evolves i i' -> Q tt i') -> wp ivc_advance_tx Q i.
Proof.
  intros Hi HQ. unfold ivc_advance_tx. wp_simpl. apply HQ.
  pose proof (pos_next _ _ (ok_w _ Hi) ltac:(apply Hi)) as Hp.
  match goal with |- evolves _ (if _ then set_pos _ _ ?j else _) =>
    assert (ivc_ok j) as Hj by auto; change (w_pos j) with (w_pos i);
    change (nframes j) with (nframes i) end.
  destruct (_ =? _); (split; [|done]); apply ok_set_pos; done || apply Hi.
Qed.

Lemma wp_advance_rx Q i :
  ivc_ok i -> (forall i', evolves i i' -> Q tt i') -> wp ivc_advance_rx Q i.
Proof.
  intros Hi HQ. unfold ivc_advance_rx. wp_simpl. apply HQ.
  pose proof (pos_next _ _ (ok_r _ Hi) ltac:(apply Hi)) as Hp.
  match goal with |- evolves _ (if _ then set_pos _ _ ?j else _) =>
    assert (ivc_ok j) as Hj by auto; change (r_pos j) with (r_pos i);
    change (nframes j) with (nframes i) end.
  destruct (_ =? _); (split; [|done]); apply ok_set_pos; done || apply Hi.
Qed.

Lemma wp_read_notify Q i :
  ivc_ok i -> (forall i', evolves i i' -> Q tt i') -> wp ivc_read_notify Q i.
Proof.
  intros Hi HQ. unfold ivc_read_notify. wp_simpl. apply wp_invalidate; [done|].
  intros i' Hi'. wp_simpl. apply HQ. destruct (_ =? _); [|done].
  eapply evolves_trans; [exact Hi'|]. split; [apply ok_notify, Hi'|done].
Qed.

Lemma wp_write_notify Q i :
  ivc_ok i -> (forall i', evolves i i' -> Q tt i') -> wp ivc_write_notify Q i.
Proof.
  intros Hi HQ. unfold ivc_write_notify. wp_simpl. apply wp_invalidate; [done|].
  intros i' Hi'. wp_simpl. apply HQ. destruct (_ =? _); [|done].
  eapply evolves_trans; [exact Hi'|]. split; [apply ok_notify, Hi'|done].
Qed.

(** Storing into the slot at the write position. *)
Lemma wp_store_slot off bs (Q : unit -> ivc -> Prop) i :
  ivc_ok i -> 0 <= off -> off + zlen bs <= nframes i * frame_size i ->
  (forall i', evolves i i' -> Q tt i') ->
  wp (i ← get; d ← checked (mem_write (data (tx_channel i)) off bs);
      modify (set_data TX d)) Q i.
Proof.
  intros Hi H0 H1 HQ. wp_simpl.
  eapply wp_checked; [apply mem_write_Some; rewrite ?(ok_tx _ Hi); done|].
  wp_simpl. apply HQ. split; [|done].
  apply ok_set_data; [done|]. cbn. apply zlen_splice; rewrite ?(ok_tx _ Hi); done.
Qed.

Lemma wp_load_slot off len (Q : list Z -> ivc -> Prop) i :
  ivc_ok i -> 0 <= off -> 0 <= len -> off + len <= nframes i * frame_size i ->
  (forall bs, zlen bs = len -> Q bs i) ->
  wp (checked (mem_read (data (rx_channel i)) off len)) Q i.
Proof.
  intros Hi H0 H1 H2 HQ.
  eapply wp_checked; [apply mem_read_Some; rewrite ?(ok_rx _ Hi); done|].
  apply HQ, zlen_slice; rewrite ?(ok_rx _ Hi); done.
Qed.

Hint Resolve evolves_trans : core.

(** Chains [evolves] facts, and recovers well-formedness from them. *)
Ltac evolve :=
  match goal with
  | H : evolves ?i ?j |- ivc_ok ?j => exact (proj1 H)
  | _ => eauto 8
  end.

Lemma wp_read_tail n out (Q : Z * list Z -> ivc -> Prop) i :
  ivc_ok i -> (forall r i', evolves i i' -> Q r i') ->
  wp (ivc_advance_rx;; ivc_read_notify;; mret (s32 n, out)) Q i.
Proof.
  intros Hi HQ. wp_simpl. apply wp_advance_rx; [done|]. intros i1 H1. wp_simpl.
  apply wp_read_notify; [evolve|]. intros i2 H2. wp_simpl. eauto.
Qed.

Lemma read_frame_safe `{!DmaOk dma} b ub n i :
  ivc_ok i -> 0 <= n -> b && ub = false -> b || ub = true ->
  wp (ivc_read_frame b ub n) (fun _ i' => evolves i i') i.
Proof.
  intros Hi Hn Hb Hub. unfold ivc_read_frame. wp_simpl.
  apply wp_BUG_ON; [done|]. wp_simpl.
  destruct (Z.ltb_spec (frame_size i) n); wp_simpl; [auto|].
  apply wp_check_read; [done|]. intros r i1 H1.
  destruct (negb _); wp_simpl; [done|].
  pose proof (proj1 H1) as Hi1. pose proof (ok_r _ Hi1) as Hr.
  apply wp_invalidate_frame; [evolve|done|]. intros i2 H2. wp_simpl.
  apply (wp_frame_pointer _ _ i1); [done|done|]. intros P0 P1. wp_simpl.
  destruct H1 as (_ & Hn1 & Hf1), (H2) as (Hi2 & Hn2 & Hf2).
  apply wp_load_slot; [done|lia|lia|rewrite Hn2, Hf2; lia|]. intros bs _.
  assert (evolves i i2) as E by (split_and!; congruence || done).
  destruct b; [apply wp_read_tail; eauto|].
  destruct ub; [|done]. destruct (copy_to_user bs) as [out l].
  destruct (negb _); [done|]. apply wp_read_tail; eauto.
Qed.

Lemma write_tail_safe p n (Q : Z -> ivc -> Prop) i :
  ivc_ok i -> 0 <= n <= frame_size i ->
  0 <= p -> p + frame_size i <= nframes i * frame_size i ->
  (forall r i', evolves i i' -> Q r i') ->
  wp ((i' ← get;
       d ← checked (mem_write (data (tx_channel i')) (p + n) (fill (frame_size i - n) 0));
       modify (set_data TX d));;
      ivc_advance_tx;; ivc_write_notify;; mret (s32 n)) Q i.
Proof.
  intros Hi Hn Hp Hp2 HQ. rewrite wp_bind. apply wp_store_slot; [done|lia| |].
  { rewrite zlen_fill by lia. lia. }
  intros i1 H1. wp_simpl. apply wp_advance_tx; [evolve|]. intros i2 H2. wp_simpl.
  apply wp_write_notify; [evolve|]. intros i3 H3. wp_simpl. eauto.
Qed.

Lemma write_frame_safe `{!UserOk user} b ub n i :
  ivc_ok i -> 0 <= n -> b = None \/ ub = None -> is_Some b \/ is_Some ub ->
  (forall bs, b = Some bs -> n <= zlen bs) ->
  wp (ivc_write_frame b ub n) (fun _ i' => evolves i i') i.
Proof.
  intros Hi Hn Hone Hsome Hlen. unfold ivc_write_frame. wp_simpl.
  apply wp_BUG_ON.
  { destruct Hone as [-> | ->]; [done|]. by rewrite andb_comm. }
  wp_simpl. destruct (Z.ltb_spec (frame_size i) n); wp_simpl; [auto|].
  apply wp_check_write; [done|]. intros r i1 H1.
  destruct (negb _); wp_simpl; [done|].
  pose proof (proj1 H1) as Hi1. pose proof (ok_w _ Hi1) as Hw.
  apply (wp_frame_pointer _ _ i1); [done|done|]. intros P0 P1. cbv zeta.
  pose proof (proj2 (proj2 H1)) as Hf1.
  destruct b as [b|].
  - specialize (Hlen _ eq_refl). rewrite wp_bind.
    eapply wp_checked; [apply mem_read_Some; lia|]. rewrite wp_bind.
    apply wp_store_slot; [done|done|rewrite zlen_slice by lia; lia|].
    intros i2 H2. destruct (H2) as (Hi2 & Hn2 & Hf2). rewrite <- Hf2.
    apply write_tail_safe; rewrite ?Hf2, ?Hn2; done || lia || eauto.
  - destruct ub as [ub|]; [|by destruct Hsome as [[]|[]]].
    pose proof (copy_from_user_length ub n Hn) as Hc.
    destruct (copy_from_user ub n) as [bs l]. cbn in Hc. rewrite wp_bind.
    apply wp_store_slot; [done|done|lia|].
    intros i2 H2. destruct (H2) as (Hi2 & Hn2 & Hf2).
    destruct (negb _); wp_simpl; [eauto|]. rewrite <- Hf2.
    rewrite <- !wp_bind. apply write_tail_safe; rewrite ?Hf2, ?Hn2; done || lia || eauto.
Qed.

Lemma peek_safe `{!DmaOk dma} off n i :
  ivc_ok i -> 0 <= off -> 0 <= n -> off + n < 2 ^ 64 ->
  wp (tegra_ivc_read_peek off n) (fun _ i' => evolves i i') i.
Proof.
  intros Hi Ho Hn Hw. unfold tegra_ivc_read_peek. wp_simpl.
  rewrite u64_small by lia.
  destruct (Z.ltb_spec (frame_size i) off); cbn [orb]; wp_simpl; [auto|].
  destruct (Z.ltb_spec (frame_size i) (off + n)); wp_simpl; [auto|].
  apply wp_check_read; [done|]. intros r i1 H1.
  destruct (negb _); wp_simpl; [done|].
  pose proof (proj1 H1) as Hi1. pose proof (ok_r _ Hi1) as Hr.
  apply wp_invalidate_frame; [evolve|done|]. intros i2 H2. wp_simpl.
  apply (wp_frame_pointer _ _ i1); [done|done|]. intros P0 P1. wp_simpl.
  destruct H1 as (_ & Hn1 & Hf1), (H2) as (Hi2 & Hn2 & Hf2).
  apply wp_load_slot; [done|lia|lia|rewrite Hn2, Hf2; lia|]. intros bs _. wp_simpl.
  split_and!; congruence || done.
Qed.

Lemma poke_safe b off n i :
  ivc_ok i -> 0 <= off -> 0 <= n -> off + n < 2 ^ 64 -> n <= zlen b ->
  wp (tegra_ivc_write_poke b off n) (fun _ i' => evolves i i') i.
Proof.
  intros Hi Ho Hn Hw Hb. unfold tegra_ivc_write_poke. wp_simpl.
  rewrite u64_small by lia.
  destruct (Z.ltb_spec (frame_size i) off); cbn [orb]; wp_simpl; [auto|].
  destruct (Z.ltb_spec (frame_size i) (off + n)); wp_simpl; [auto|].
  apply wp_check_write; [done|]. intros r i1 H1.
  destruct (negb _); wp_simpl; [done|].
  pose proof (proj1 H1) as Hi1. pose proof (ok_w _ Hi1) as Hr.
  apply (wp_frame_pointer _ _ i1); [done|done|]. intros P0 P1. wp_simpl.
  eapply wp_checked; [apply mem_read_Some; lia|]. wp_simpl.
  assert (zlen (slice b 0 n) = n) as L by (apply zlen_slice; lia).
  destruct H1 as (_ & Hn1 & Hf1).
  eapply wp_checked; [apply mem_write_Some; rewrite ?(ok_tx _ Hi1); lia|]. wp_simpl.
  split_and!; [|done|done]. apply ok_set_data; [done|]. cbn.
  apply zlen_splice; rewrite ?(ok_tx _ Hi1); lia.
Qed.

Lemma get_next_frame_safe `{!DmaOk dma} i :
  ivc_ok i ->
  wp tegra_ivc_read_get_next_frame (fun _ i' => evolves i i') i /\
  wp tegra_ivc_write_get_next_frame (fun _ i' => evolves i i') i.
Proof.
  intros Hi. split.
  - unfold tegra_ivc_read_get_next_frame. wp_simpl.
    apply wp_check_read; [done|]. intros r i1 H1.
    destruct (negb _); wp_simpl; [done|].
    pose proof (ok_r _ (proj1 H1)) as Hr.
    apply wp_invalidate_frame; [evolve|done|]. intros i2 H2. wp_simpl.
    apply (wp_frame_pointer _ _ i1); [evolve|done|]. intros. wp_simpl. eauto.
  - unfold tegra_ivc_write_get_next_frame. wp_simpl.
    apply wp_check_write; [done|]. intros r i1 H1.
    destruct (negb _); wp_simpl; [done|].
    pose proof (ok_w _ (proj1 H1)) as Hw.
    apply (wp_frame_pointer _ _ i1); [evolve|done|]. intros. wp_simpl. eauto.
Qed.

Lemma advance_safe i :
  ivc_ok i ->
  wp tegra_ivc_read_advance (fun _ i' => evolves i i') i /\
  wp tegra_ivc_write_advance (fun _ i' => evolves i i') i.
Proof.
  intros Hi. split.
  - unfold tegra_ivc_read_advance. wp_simpl.
    apply wp_check_read; [done|]. intros r i1 H1.
    destruct (negb _); wp_simpl; [done|].
    apply wp_advance_rx; [evolve|]. intros i2 H2. wp_simpl.
    apply wp_read_notify; [evolve|]. intros i3 H3. wp_simpl. eauto.
  - unfold tegra_ivc_write_advance. wp_simpl.
    apply wp_check_write; [done|]. intros r i1 H1.
    destruct (negb _); wp_simpl; [done|].
    apply wp_advance_tx; [evolve|]. intros i2 H2. wp_simpl.
    apply wp_write_notify; [evolve|]. intros i3 H3. wp_simpl. eauto.
Qed.

Lemma wp_set_tx_state v Q i :
  ivc_ok i -> (forall i', evolves i i' -> Q tt i') -> wp (set_tx_state v) Q i.
Proof. intros Hi HQ. apply HQ. split; [auto|done]. Qed.

Lemma evolves_notify i i' : evolves i i' -> evolves i (notify i').
Proof. intros (? & ? & ?). split; [auto|done]. Qed.
Hint Resolve evolves_notify : core.

Lemma wp_reset_counters Q i :
  ivc_ok i -> (forall i', evolves i i' -> Q tt i') -> wp ivc_reset_counters Q i.
Proof.
  intros Hi HQ. unfold ivc_reset_counters. wp_simpl. apply HQ. split; [|done].
  pose proof (ok_nframes _ Hi). apply ok_set_pos; auto; cbn; lia.
Qed.

Lemma notified_safe i :
  ivc_ok i -> wp tegra_ivc_channel_notified (fun _ i' => evolves i i') i.
Proof.
  intros Hi. unfold tegra_ivc_channel_notified, ivc_observe_peer, ivc_notified_apply.
  wp_simpl. apply wp_invalidate; [done|]. intros i1 H1. wp_simpl.
  repeat match goal with |- context [if ?b then _ else _] => destruct b end;
    wp_simpl; try done;
    repeat first
      [ done
      | apply wp_reset_counters; [evolve|]; intros; wp_simpl
      | apply wp_set_tx_state; [evolve|]; intros; wp_simpl
      | eauto 8 ].
Qed.

Lemma run_call_total `{!DmaOk dma} `{!UserOk user} (c : call) (i : ivc) :
  ivc_ok i -> call_ok c ->
  exists r i', run_call c i = Some (r, i') /\ evolves i i'.
Proof.
  intros Hi Hc. apply wp_total. destruct c; cbn [run_call]; cbn in Hc; wp_simpl;
    unfold tegra_ivc_can_read, tegra_ivc_can_write, tegra_ivc_tx_empty,
      tegra_ivc_tx_frames_available, tegra_ivc_channel_reset; wp_simpl;
    try (eapply wp_mono; [|cbn; intros ? ? H; exact H]).
  - apply wp_check_read; [done|]. intros. wp_simpl. done.
  - apply wp_check_write; [done|]. intros. wp_simpl. done.
  - apply wp_invalidate; [done|]. intros. wp_simpl. done.
  - apply wp_invalidate; [done|]. intros. wp_simpl. done.
  - apply read_frame_safe; done || lia.
  - apply read_frame_safe; done || lia.
  - apply peek_safe; tauto.
  - apply get_next_frame_safe. done.
  - apply advance_safe. done.
  - apply write_frame_safe; try tauto; [eauto|]. intros ? [= <-]. lia.
  - apply write_frame_safe; try tauto; [eauto|discriminate].
  - apply poke_safe; tauto.
  - apply get_next_frame_safe. done.
  - apply advance_safe. done.
  - apply wp_set_tx_state; [done|]. intros. wp_simpl. auto.
  - apply notified_safe. done.
Qed.

(** C2. Memory safety against the peer: whatever the counters and the states
    in shared memory are (they are arbitrary in [ivc_ok]), and whatever the
    invalidations and user copies deliver, a call on a well-formed endpoint
    hits no BUG_ON and touches no memory outside the frame areas, and the
    endpoint it leaves is well formed with the same geometry. This holds of
    every call whose sizes are size_t values and whose kernel buffer holds the
    bytes it is said to hold, with one class left out: a peek or a poke whose
    off + count is 2^64 or more. There the code's own check of the size wraps,
    and the copy leaves the frame area (IvcFifo.read_peek_size_wraps). *)
Theorem run_call_safe `{!DmaOk dma} `{!UserOk user} (c : call) (i : ivc) :
  ivc_ok i -> call_ok c ->
  exists r i', run_call c i = Some (r, i') /\ evolves i i'.
Proof. apply run_call_total. Qed.
End safety.

(** ** Sizes and parameters *)
Section params.
Context {cfg : IvcConfig}.

Lemma align_mask x : Z.land x (IVC_ALIGN - 1) = x mod IVC_ALIGN.
Proof.
  rewrite IVC_ALIGN_pow2. apply land_mask. pose proof IVC_ALIGN_log2_range. lia.
Qed.

Lemma IVC_ALIGN_range : 8 <= IVC_ALIGN < 4294967296.
Proof.
  rewrite IVC_ALIGN_pow2. pose proof IVC_ALIGN_log2_range.
  change 8 with (2 ^ 3). change 4294967296 with (2 ^ 32).
  split; [apply Z.pow_le_mono_r; lia|apply Z.pow_lt_mono_r; lia].
Qed.

Lemma header_aligned : header_misaligned = false.
Proof.
  unfold header_misaligned, sizeof_header. rewrite !align_mask.
  pose proof IVC_ALIGN_range.
  rewrite Z.mod_0_l, Z.mod_same, Z.mod_mul by lia. done.
Qed.

(** [tegra_ivc_align] rounds up to the least multiple of IVC_ALIGN that
    is at least [size], as long as the rounding does not wrap. *)
Theorem tegra_ivc_align_spec (size : Z) :
  0 <= size -> size + IVC_ALIGN <= 2 ^ 64 ->
  tegra_ivc_align size mod IVC_ALIGN = 0 /\
  size <= tegra_ivc_align size < size + IVC_ALIGN.
Proof.
  intros H0 H1. pose proof IVC_ALIGN_range. unfold tegra_ivc_align.
  rewrite u64_small by lia.
  assert (Z.land (size + (IVC_ALIGN - 1)) (Z.lnot (IVC_ALIGN - 1)) =
          size + (IVC_ALIGN - 1) - (size + (IVC_ALIGN - 1)) mod IVC_ALIGN) as ->.
  { rewrite IVC_ALIGN_pow2. apply land_lnot_mask.
    pose proof IVC_ALIGN_log2_range. lia. }
  assert (0 < IVC_ALIGN) as HA by lia.
  pose proof (Z.mod_pos_bound (size + (IVC_ALIGN - 1)) IVC_ALIGN HA).
  split; [|lia]. rewrite Zminus_mod_idemp_r, Z.sub_diag. apply Z.mod_0_l. lia.
Qed.

(** What a successful [check_ivc_params] guarantees. *)
Lemma check_ivc_params_sound base1 base2 n fs :
  0 <= n -> 0 <= fs -> 0 <= base1 -> 0 <= base2 ->
  base1 + n * fs < 2 ^ 64 -> base2 + n * fs < 2 ^ 64 ->
  check_ivc_params base1 base2 n fs = Some 0 ->
  n * fs < 2 ^ 32 /\ base1 mod IVC_ALIGN = 0 /\ base2 mod IVC_ALIGN = 0 /\
  fs mod IVC_ALIGN = 0 /\
  (base1 + n * fs <= base2 \/ base2 + n * fs <= base1).
Proof.
  intros Hn Hf Hb1 Hb2 Hw1 Hw2. unfold check_ivc_params.
  rewrite header_aligned, !align_mask.
  destruct (Z.leb_spec 4294967296 (n * fs)); [done|].
  rewrite (Z.mul_comm fs), u32_small by nia.
  rewrite (u64_small (base1 + _)), (u64_small (base2 + _)) by lia.
  repeat case_z; intros; inv_opt; try discriminate; split_and!; try done; lia.
Qed.

(** The overlap test counts the frames of a queue but not its header:
    two queues are accepted when the second one starts right after the frame
    bytes counted from the base of the first, although a queue occupies
    [tegra_ivc_total_queue_size] bytes, so the tail of the first queue's last
    frame lies over the second queue's header. *)
Theorem check_ivc_params_accepts_overlap (base n fs : Z) :
  0 <= base -> 0 < n -> 0 < fs -> base mod IVC_ALIGN = 0 -> fs mod IVC_ALIGN = 0 ->
  base + n * fs < 2 ^ 64 -> n * fs + sizeof_header < 2 ^ 32 ->
  check_ivc_params base (base + n * fs) n fs = Some 0 /\
  base + tegra_ivc_total_queue_size (u32 (n * fs)) = base + n * fs + sizeof_header /\
  0 < sizeof_header.
Proof.
  intros Hb Hn Hf Ab Af Hw Ht. pose proof IVC_ALIGN_range as HA.
  assert (0 < n * fs) by nia. assert (0 < sizeof_header) by (unfold sizeof_header; lia).
  assert ((n * fs) mod IVC_ALIGN = 0) as Anf.
  { rewrite Z.mul_mod, Af, Z.mul_0_r by lia. apply Z.mod_0_l. lia. }
  unfold check_ivc_params, tegra_ivc_total_queue_size.
  rewrite header_aligned, !align_mask, (Z.mul_comm fs), !(u32_small (n * fs)) by lia.
  rewrite Ab, Af, Anf, Z.add_mod, Ab, Anf, Z.mod_0_l by lia.
  rewrite !u64_small by lia. rewrite u32_small by lia.
  repeat case_z; try lia. split_and!; done || lia.
Qed.
End params.

(** ** Initialisation *)
Section init.
Context {cfg : IvcConfig} {dma : DmaOps}.

End init.

(** ** A concrete environment, for evaluating the definitions *)

#[export] Program Instance ex_cfg : IvcConfig := {| IVC_ALIGN := 64; IVC_ALIGN_log2 := 6 |}.
Next Obligation. done. Qed.
Next Obligation. done. Qed.

(** Coherent memory: an invalidation changes nothing. *)
Definition ex_dma : DmaOps := {|
  dma_sync_counter := fun _ h => h;
  dma_sync_frame := fun _ _ d => d;
  DMA_ERROR_CODE := -1;
  dma_map_single := fun a _ => a;
|}.
(** A user copy that moves what the buffer holds. *)
Definition ex_user : UserAccess := {|
  copy_from_user := fun ub n => (slice ub 0 n, n - zlen (slice ub 0 n));
  copy_to_user := fun bs => (bs, 0);
|}.
#[export] Instance ex_user_ok : UserOk ex_user.
Proof. constructor. intros. cbn. unfold zlen, slice. rewrite length_take. lia. Qed.
#[export] Instance ex_dma_ok : DmaOk ex_dma.
Proof. done. Qed.

(** An endpoint whose shared counters are garbage. *)
Definition ex_ivc : ivc :=
  Ivc (Chan (Hdr 77 ivc_state_ack 4000000000) [1; 2; 3; 4])
      (Chan (Hdr 9 ivc_state_established 4) [0; 0; 0; 0]) 1 0 2 2 true 0 0 0.
Lemma ex_ivc_ok : ivc_ok ex_ivc.
Proof. by constructor. Qed.

Lemma run_call_safe_witness :
  ivc_ok ex_ivc /\ call_ok (Read 2) /\
  exists r i', run_call (dma := ex_dma) (user := ex_user) (Read 2) ex_ivc = Some (r, i') /\
    evolves ex_ivc i'.
Proof.
  split; [exact ex_ivc_ok|]. split; [done|].
  apply run_call_safe; [exact ex_ivc_ok|done].
Defined.

Lemma tegra_ivc_align_spec_witness :
  tegra_ivc_align (cfg := ex_cfg) 100 mod 64 = 0 /\ 100 <= tegra_ivc_align (cfg := ex_cfg) 100 < 164.
Proof. apply (tegra_ivc_align_spec (cfg := ex_cfg) 100); done. Defined.

Lemma check_ivc_params_accepts_overlap_witness :
  check_ivc_params (cfg := ex_cfg) 4096 (4096 + 16 * 128) 16 128 = Some 0 /\
  4096 + tegra_ivc_total_queue_size (cfg := ex_cfg) (u32 (16 * 128))
    = 4096 + 16 * 128 + sizeof_header (cfg := ex_cfg) /\
  0 < sizeof_header (cfg := ex_cfg).
Proof. apply (check_ivc_params_accepts_overlap (cfg := ex_cfg) 4096 16 128); done. Defined.

