(* ===== verification/IvcFifo.v ===== *)
(** * One direction of an IVC channel as a bounded FIFO

    The counters are 32-bit and free running, the positions are modulo
    [nframes], the frames are slots of one byte area. [dir] relates them to
    the frames in flight; the lemmas below follow the relation through the
    elementary updates of [Ivc], and [run_call_effect] says which of these
    updates each API call performs on coherent memory. *)

From S2P Require Import Prelude Ivc.

(** ** The abstraction relation

    [W] and [R] are the numbers of frames ever sent and received (not reduced
    to 32 bits), [q] the frames in flight, oldest first. *)
Record dir (n fs : Z) (h : ivc_channel_header) (d : list Z) (wp rp W R : Z)
    (q : list (list Z)) : Prop := {
  dir_w : w_count h = u32 W;
  dir_r : r_count h = u32 R;
  dir_wp : wp = W mod n;
  dir_rp : rp = R mod n;
  dir_R : 0 <= R;
  dir_W : W = R + zlen q;
  dir_cap : zlen q <= n;
  dir_q : forall (k : nat) fr, q !! k = Some fr ->
    slice d (fs * ((R + Z.of_nat k) mod n)) fs = fr;
}.

(** The position after [p]. *)
Definition next_pos (n p : Z) : Z := if p =? u32 (n - 1) then 0 else u32 (p + 1).

Section dir.
Context (n fs : Z).
Hypothesis Hn : 0 < n < 2 ^ 32.
Hypothesis Hfs : 0 <= fs.

Lemma next_pos_mod x : next_pos n (x mod n) = (x + 1) mod n.
Proof.
  unfold next_pos. pose proof (Z.mod_pos_bound x n ltac:(lia)).
  rewrite mod_succ, !u32_small by lia. done.
Qed.

Context (h : ivc_channel_header) (d : list Z) (wp rp W R : Z) (q : list (list Z)).
Hypothesis Hlen : zlen d = n * fs.
Hypothesis D : dir n fs h d wp rp W R q.

Lemma dir_avail : u32 (w_count h - r_count h) = zlen q.
Proof.
  destruct D. rewrite dir_w0, dir_r0, uw_sub_lr, dir_W0.
  replace (R + zlen q - R) with (zlen q) by lia.
  apply u32_small. pose proof (zlen_nonneg q). lia.
Qed.

Lemma dir_not_empty :
  (if n <? u32 (w_count h - r_count h) then true else w_count h =? r_count h)
  = (zlen q =? 0).
Proof.
  rewrite dir_avail. destruct (Z.ltb_spec n (zlen q)).
  { pose proof (dir_cap _ _ _ _ _ _ _ _ _ D). lia. }
  pose proof dir_avail as E.
  destruct (Z.eqb_spec (zlen q) 0), (Z.eqb_spec (w_count h) (r_count h)); try done.
  - destruct D. rewrite dir_w0, dir_r0, dir_W0 in n0. replace (R + zlen q) with R in n0 by lia.
    done.
  - rewrite e, Z.sub_diag in E. change (u32 0) with 0 in E. lia.
Qed.

Lemma slot_bounds x : 0 <= x < n -> 0 <= fs * x /\ fs * x + fs <= n * fs.
Proof. nia. Qed.

Lemma slots_disjoint x y : 0 <= x < n -> 0 <= y < n -> x <> y ->
  fs * x + fs <= fs * y \/ fs * y + fs <= fs * x.
Proof. intros. assert (x < y \/ y < x) as [?|?] by lia; [left|right]; nia. Qed.

(** The slots in flight are not the write slot, unless the queue is full. *)
Lemma flight_slot k fr :
  q !! k = Some fr -> zlen q < n -> (R + Z.of_nat k) mod n <> wp.
Proof.
  intros Hk Hq. apply lookup_lt_Some in Hk. destruct D. rewrite dir_wp0.
  apply mod_inj_window; unfold zlen in *; lia.
Qed.

(** Scribbling over the write slot of a queue that is not full. *)
Lemma dir_stage fr : zlen q < n -> zlen fr = fs ->
  dir n fs h (splice d (fs * wp) fr) wp rp W R q.
Proof.
  intros Hq Hfr. assert (0 <= wp < n) as Hwp.
  { destruct D. rewrite dir_wp0. apply Z.mod_pos_bound. lia. }
  pose proof (slot_bounds wp Hwp).
  destruct D as [? ? ? ? ? ? ? Hslots]. constructor; try done. intros k fr' Hk.
  assert (0 <= (R + Z.of_nat k) mod n < n) as Hx by (apply Z.mod_pos_bound; lia).
  pose proof (slot_bounds _ Hx).
  rewrite slice_splice_disj; try lia; [eauto|]. rewrite Hfr.
  apply slots_disjoint; try done. eapply flight_slot; eauto.
Qed.

(** Sending the staged frame. *)
Lemma dir_push : zlen q < n ->
  dir n fs (set_w_count (u32 (w_count h + 1)) h) d (next_pos n wp) rp (W + 1) R
    (q ++ [slice d (fs * wp) fs]).
Proof.
  intros Hq. destruct D as [Hw Hr Hwp Hrp HR HW Hcap Hslots]. constructor; try done; cbn.
  - rewrite Hw. apply uw_add_l.
  - rewrite Hwp. apply next_pos_mod.
  - rewrite zlen_app, zlen_cons, zlen_nil. lia.
  - rewrite zlen_app, zlen_cons, zlen_nil. lia.
  - intros k fr Hk. apply lookup_app_Some in Hk as [Hk|[Hk1 Hk2]]; [eauto|].
    apply list_lookup_singleton_Some in Hk2 as [Hk2 <-].
    rewrite Hwp, HW. do 3 f_equal. unfold zlen. lia.
Qed.

(** Receiving the oldest frame. *)
Lemma dir_pop fr q' : q = fr :: q' ->
  slice d (fs * rp) fs = fr /\
  dir n fs (set_r_count (u32 (r_count h + 1)) h) d wp (next_pos n rp) W (R + 1) q'.
Proof.
  intros Eq. destruct D as [Hw Hr Hwp Hrp HR HW Hcap Hslots].
  rewrite Eq, zlen_cons in *. split.
  - specialize (Hslots 0%nat fr). rewrite Z.add_0_r, <- Hrp in Hslots.
    by apply Hslots.
  - constructor; try done; cbn; try lia.
    + rewrite Hr. apply uw_add_l.
    + rewrite Hrp. apply next_pos_mod.
    + intros k fr' Hk. rewrite <- (Hslots (S k) fr'); [|done].
      do 3 f_equal. lia.
Qed.
End dir.

(** Both ends have cleared what they own. *)
Lemma dir_clear n fs h d : 0 < n ->
  w_count h = 0 -> r_count h = 0 -> dir n fs h d 0 0 0 0 [].
Proof.
  intros Hn Hw Hr. constructor; rewrite ?Hw, ?Hr; try done; try (rewrite Z.mod_0_l; lia).
  change (zlen (@nil (list Z))) with 0. lia.
Qed.

(** ** What each call does on coherent memory *)

(** Without a peer device the invalidations do nothing; the checks are then
    functions of the endpoint. *)
Definition read_code (i : ivc) : Z :=
  if negb (state (header (tx_channel i)) =? ivc_state_established) then - ECONNRESET
  else if ivc_channel_empty i (rx_channel i) then - ENOMEM else 0.

Definition write_code (i : ivc) : Z :=
  if negb (state (header (tx_channel i)) =? ivc_state_established) then - ECONNRESET
  else if ivc_channel_full i (tx_channel i) then - ENOMEM else 0.

Definition set_notified (m : Z) (i : ivc) : ivc :=
  Ivc (rx_channel i) (tx_channel i) (w_pos i) (r_pos i) (nframes i) (frame_size i)
    (peer_device i) (rx_handle i) (tx_handle i) m.

Definition tx_slot (i : ivc) : list Z :=
  slice (data (tx_channel i)) (frame_size i * w_pos i) (frame_size i).
Definition rx_slot (i : ivc) : list Z :=
  slice (data (rx_channel i)) (frame_size i * r_pos i) (frame_size i).

Definition stage (fr : list Z) (i : ivc) : ivc :=
  set_data TX (splice (data (tx_channel i)) (frame_size i * w_pos i) fr) i.

Definition tx_push (i : ivc) : ivc :=
  let h := header (tx_channel i) in
  set_pos (next_pos (nframes i) (w_pos i)) (r_pos i)
    (set_header TX (set_w_count (u32 (w_count h + 1)) h) i).

Definition rx_pop (i : ivc) : ivc :=
  let h := header (rx_channel i) in
  set_pos (w_pos i) (next_pos (nframes i) (r_pos i))
    (set_header RX (set_r_count (u32 (r_count h + 1)) h) i).

(** The effects of the calls that do not touch the state words. *)
Inductive effect :=
  | Idle
  | Stage (fr : list Z)
  | Send (fr : list Z)
  | Recv (out : list Z).

Definition apply_effect (e : effect) (i : ivc) : ivc :=
  match e with
  | Idle => i
  | Stage fr => stage fr i
  | Send fr => tx_push (stage fr i)
  | Recv _ => rx_pop i
  end.

Definition effect_valid (e : effect) (i : ivc) : Prop :=
  match e with
  | Idle => True
  | Stage fr | Send fr => write_code i = 0 /\ zlen fr = frame_size i
  | Recv out => read_code i = 0 /\ out = take (length out) (rx_slot i)
  end.

(** Which effect a call has, by its status code [r] and its output. *)
Definition effect_of (i : ivc) (c : call) (r : Z) (out : list Z) (e : effect) : Prop :=
  match c with
  | Write b n =>
      (r < 0 /\ e = Idle) \/
      (r = n /\ e = Send (slice b 0 n ++ fill (frame_size i - n) 0))
  | WriteUser ub n =>
      (r < 0 /\ (e = Idle \/ exists fr, e = Stage fr)) \/
      (r = n /\ exists fr, e = Send fr)
  | WritePoke b off n =>
      (r < 0 /\ e = Idle) \/
      (r = n /\ e = Stage (splice (tx_slot i) off (slice b 0 n)))
  | WriteAdvance => (r < 0 /\ e = Idle) \/ (r = 0 /\ e = Send (tx_slot i))
  | Read n | ReadUser n =>
      (r < 0 /\ e = Idle) \/ (r = n /\ e = Recv out /\ zlen out = n)
  | ReadAdvance => (r < 0 /\ e = Idle) \/ (r = 0 /\ e = Recv [] /\ out = [])
  | ReadPeek off n => e = Idle /\ (0 <= r -> r = n /\ out = slice (rx_slot i) off n)
  | ChannelReset | ChannelNotified => False
  | _ => e = Idle
  end.

(** A user copy that reports nothing left has moved everything. *)
Class UserExact (user : UserAccess) := {
  copy_to_user_exact : forall bs, (copy_to_user bs).2 = 0 -> (copy_to_user bs).1 = bs;
  copy_from_user_exact : forall ub n, 0 <= n ->
    (copy_from_user ub n).2 = 0 -> zlen (copy_from_user ub n).1 = n;
}.

Section coherent.
Context {cfg : IvcConfig} {dma : DmaOps} {user : UserAccess}.

Definition coherent (i : ivc) : Prop := peer_device i = false.

Lemma wp_invalidate_coh e l Q i :
  coherent i -> Q tt i -> wp (ivc_invalidate_counter e l) Q i.
Proof. unfold coherent, ivc_invalidate_counter. wp_simpl. by intros ->. Qed.

Lemma wp_invalidate_frame_coh e f off len Q i :
  coherent i -> Q tt i -> wp (ivc_invalidate_frame e f off len) Q i.
Proof. unfold coherent, ivc_invalidate_frame. wp_simpl. by intros ->. Qed.

Lemma wp_check_read_coh Q i : coherent i -> Q (read_code i) i -> wp ivc_check_read Q i.
Proof.
  intros Hc HQ. unfold ivc_check_read. wp_simpl. unfold read_code in HQ.
  destruct (negb (state _ =? _)); wp_simpl; [done|].
  destruct (ivc_channel_empty _ _) eqn:E; cbn [negb]; wp_simpl; [|done].
  apply wp_invalidate_coh; [done|]. wp_simpl. by rewrite E.
Qed.

Lemma wp_check_write_coh Q i : coherent i -> Q (write_code i) i -> wp ivc_check_write Q i.
Proof.
  intros Hc HQ. unfold ivc_check_write. wp_simpl. unfold write_code in HQ.
  destruct (negb (state _ =? _)); wp_simpl; [done|].
  destruct (ivc_channel_full _ _) eqn:E; cbn [negb]; wp_simpl; [|done].
  apply wp_invalidate_coh; [done|]. wp_simpl. by rewrite E.
Qed.

Lemma read_code_cases i : read_code i = 0 \/ read_code i < 0.
Proof. unfold read_code, ECONNRESET, ENOMEM. repeat destruct (_ : bool); lia. Qed.
Lemma write_code_cases i : write_code i = 0 \/ write_code i < 0.
Proof. unfold write_code, ECONNRESET, ENOMEM. repeat destruct (_ : bool); lia. Qed.

Lemma wp_advance_tx_coh (Q : unit -> ivc -> Prop) i :
  Q tt (tx_push i) -> wp ivc_advance_tx Q i.
Proof.
  intros HQ. unfold ivc_advance_tx. wp_simpl. unfold tx_push, next_pos in HQ.
  cbn in *. by destruct (_ =? _).
Qed.

Lemma wp_advance_rx_coh (Q : unit -> ivc -> Prop) i :
  Q tt (rx_pop i) -> wp ivc_advance_rx Q i.
Proof.
  intros HQ. unfold ivc_advance_rx. wp_simpl. unfold rx_pop, next_pos in HQ.
  cbn in *. by destruct (_ =? _).
Qed.

Lemma set_notified_id i : set_notified (notified i) i = i.
Proof. by destruct i. Qed.

Lemma wp_read_notify_coh (Q : unit -> ivc -> Prop) i :
  coherent i -> (forall m, Q tt (set_notified m i)) -> wp ivc_read_notify Q i.
Proof.
  intros Hc HQ. unfold ivc_read_notify. wp_simpl. apply wp_invalidate_coh; [done|].
  wp_simpl. destruct (_ =? _); [apply (HQ (notified i + 1))|].
  rewrite <- (set_notified_id i). apply HQ.
Qed.

Lemma wp_write_notify_coh (Q : unit -> ivc -> Prop) i :
  coherent i -> (forall m, Q tt (set_notified m i)) -> wp ivc_write_notify Q i.
Proof.
  intros Hc HQ. unfold ivc_write_notify. wp_simpl. apply wp_invalidate_coh; [done|].
  wp_simpl. destruct (_ =? _); [apply (HQ (notified i + 1))|].
  rewrite <- (set_notified_id i). apply HQ.
Qed.

Definition has_effect (c : call) (i : ivc) (ro : Z * list Z) (i' : ivc) : Prop :=
  exists e m, effect_valid e i /\ effect_of i c ro.1 ro.2 e /\
    i' = set_notified m (apply_effect e i).

Lemma has_effect_idle c i r out :
  effect_of i c r out Idle -> has_effect c i (r, out) i.
Proof.
  intros H. exists Idle, (notified i). split_and!; try done.
  cbn. by rewrite set_notified_id.
Qed.

(** The transmit slot as a range of the frame area. *)
Lemma tx_slot_area i : ivc_ok i ->
  0 <= frame_size i * w_pos i /\
  frame_size i * w_pos i + frame_size i <= zlen (data (tx_channel i)) /\
  zlen (tx_slot i) = frame_size i.
Proof.
  intros Hi. destruct (frame_in_area i _ Hi (ok_w _ Hi)) as (_ & H0 & H1).
  pose proof (ok_frame_size _ Hi). rewrite (ok_tx _ Hi). split_and!; try done.
  apply zlen_slice; rewrite ?(ok_tx _ Hi); lia.
Qed.

Lemma rx_slot_area i : ivc_ok i ->
  0 <= frame_size i * r_pos i /\
  frame_size i * r_pos i + frame_size i <= zlen (data (rx_channel i)) /\
  zlen (rx_slot i) = frame_size i.
Proof.
  intros Hi. destruct (frame_in_area i _ Hi (ok_r _ Hi)) as (_ & H0 & H1).
  pose proof (ok_frame_size _ Hi). rewrite (ok_rx _ Hi). split_and!; try done.
  apply zlen_slice; rewrite ?(ok_rx _ Hi); lia.
Qed.

(** Storing a sub-range of the slot stages a whole frame. *)
Lemma stage_part i o bs : ivc_ok i -> 0 <= o -> o + zlen bs <= frame_size i ->
  set_data TX (splice (data (tx_channel i)) (frame_size i * w_pos i + o) bs) i
  = stage (splice (tx_slot i) o bs) i.
Proof.
  intros Hi H0 H1. destruct (tx_slot_area i Hi) as (? & ? & ?).
  unfold stage, tx_slot. f_equal. apply splice_within; lia.
Qed.

Lemma read_part i o n : ivc_ok i -> 0 <= o -> 0 <= n -> o + n <= frame_size i ->
  mem_read (data (rx_channel i)) (frame_size i * r_pos i + o) n
  = Some (slice (rx_slot i) o n).
Proof.
  intros Hi H0 H1 H2. destruct (rx_slot_area i Hi) as (? & ? & ?).
  rewrite mem_read_Some by lia. unfold rx_slot. rewrite slice_slice by lia. done.
Qed.

Lemma wp_slot_pointer f (Q : Z -> ivc -> Prop) i i0 :
  ivc_ok i0 -> 0 <= f < nframes i0 -> Q (frame_size i0 * f) i ->
  wp (ivc_frame_pointer i0 f) Q i.
Proof. intros. eapply wp_frame_pointer; eauto. Qed.

Lemma s32_size i n : ivc_ok i -> 0 <= n <= frame_size i -> s32 n = n.
Proof.
  intros Hi Hn. pose proof (ok_frame_size _ Hi). unfold INT_MAX in *.
  apply sw_small; lia.
Qed.

Lemma read_frame_effect `{!UserExact user} b n i c :
  ivc_ok i -> coherent i -> 0 <= n -> c = Read n \/ c = ReadUser n ->
  wp (ivc_read_frame b (negb b) n) (has_effect c i) i.
Proof.
  intros Hi Hc Hn Hcall. unfold ivc_read_frame. wp_simpl.
  apply wp_BUG_ON; [by destruct b|]. wp_simpl.
  assert (forall r out, r < 0 -> effect_of i c r out Idle) as Hidle
    by (intros; destruct Hcall as [-> | ->]; cbn; auto).
  destruct (Z.ltb_spec (frame_size i) n); wp_simpl.
  { apply has_effect_idle, Hidle. by unfold E2BIG. }
  apply wp_check_read_coh; [done|].
  destruct (read_code_cases i) as [E|E];
    [|destruct (Z.eqb_spec (read_code i) 0); [lia|]; apply has_effect_idle; auto].
  rewrite E. cbn [negb Z.eqb]. wp_simpl. apply wp_invalidate_frame_coh; [done|].
  wp_simpl. apply wp_slot_pointer; [done|apply Hi|]. wp_simpl.
  eapply wp_checked.
  { rewrite <- (Z.add_0_r (_ * _)). apply read_part; done || lia. }
  assert (wp (ivc_advance_rx;; ivc_read_notify;; mret (s32 n, slice (rx_slot i) 0 n))
            (has_effect c i) i) as Hfin.
  { wp_simpl. apply wp_advance_rx_coh. wp_simpl. apply wp_read_notify_coh; [done|].
    intros m. wp_simpl. rewrite (s32_size i) by done || lia.
    destruct (rx_slot_area i Hi) as (? & ? & Ls).
    assert (zlen (slice (rx_slot i) 0 n) = n) as L by (apply zlen_slice; lia).
    exists (Recv (slice (rx_slot i) 0 n)), m. split_and!; [split; [done|]| |done].
    - unfold slice at 1. rewrite drop_0. f_equal. unfold zlen in L. lia.
    - destruct Hcall as [-> | ->]; cbn; auto. }
  destruct b; [exact Hfin|]. cbn [negb].
  destruct (copy_to_user _) as [out l] eqn:Ecp.
  destruct (Z.eqb_spec l 0) as [->|]; cbn [negb].
  - pose proof (copy_to_user_exact (slice (rx_slot i) 0 n)) as Hx.
    rewrite Ecp in Hx. specialize (Hx eq_refl). change (out = slice (rx_slot i) 0 n) in Hx.
    rewrite Hx. exact Hfin.
  - apply has_effect_idle, Hidle. by unfold EFAULT.
Qed.

Lemma peek_effect off n i :
  ivc_ok i -> coherent i -> 0 <= off -> 0 <= n -> off + n < 2 ^ 64 ->
  wp (tegra_ivc_read_peek off n) (has_effect (ReadPeek off n) i) i.
Proof.
  intros Hi Hc Ho Hn Hw. unfold tegra_ivc_read_peek. wp_simpl.
  rewrite u64_small by lia.
  assert (forall r, r < 0 -> has_effect (ReadPeek off n) i (r, []) i) as Hneg.
  { intros r Hr. apply has_effect_idle. split; [done|lia]. }
  destruct (Z.ltb_spec (frame_size i) off); cbn [orb]; wp_simpl; [by apply Hneg|].
  destruct (Z.ltb_spec (frame_size i) (off + n)); wp_simpl; [by apply Hneg|].
  apply wp_check_read_coh; [done|].
  destruct (read_code_cases i) as [E|E];
    [|destruct (Z.eqb_spec (read_code i) 0); [lia|]; apply Hneg; done].
  rewrite E. cbn [negb Z.eqb]. wp_simpl. apply wp_invalidate_frame_coh; [done|].
  wp_simpl. apply wp_slot_pointer; [done|apply Hi|]. wp_simpl.
  eapply wp_checked; [apply read_part; done || lia|]. wp_simpl.
  apply has_effect_idle. split; [done|]. rewrite (s32_size i) by done || lia. auto.
Qed.

Lemma coherent_stage fr i : coherent i -> coherent (stage fr i).
Proof. done. Qed.

Lemma ok_stage fr i : ivc_ok i -> zlen fr = frame_size i -> ivc_ok (stage fr i).
Proof.
  intros Hi Hfr. destruct (tx_slot_area i Hi) as (? & ? & ?).
  apply ok_set_data; [done|]. cbn. apply zlen_splice; lia.
Qed.

(** The common end of a write: zero the rest of the slot and publish. *)
Lemma write_tail_effect c n bs i :
  ivc_ok i -> coherent i -> 0 <= n <= frame_size i -> zlen bs = n -> write_code i = 0 ->
  effect_of i c n [] (Send (bs ++ fill (frame_size i - n) 0)) ->
  wp ((j ← get; d ← checked (mem_write (data (tx_channel j)) (frame_size i * w_pos i) bs);
       modify (set_data TX d));;
      (j ← get;
       d ← checked (mem_write (data (tx_channel j)) (frame_size i * w_pos i + n)
                      (fill (frame_size i - n) 0));
       modify (set_data TX d));;
      ivc_advance_tx;; ivc_write_notify;; mret (s32 n))
    (fun r i' => has_effect c i (r, []) i') i.
Proof.
  intros Hi Hc Hn Hbs Hw Heff. destruct (tx_slot_area i Hi) as (? & ? & ?).
  assert (zlen (fill (frame_size i - n) 0) = frame_size i - n) as Lz
    by (apply zlen_fill; lia).
  wp_simpl. eapply wp_checked; [apply mem_write_Some; lia|]. wp_simpl.
  eapply wp_checked.
  { cbn. apply mem_write_Some; [lia|]. rewrite zlen_splice by lia. lia. }
  wp_simpl. cbn. rewrite <- Hbs at 1. rewrite splice_app by lia.
  apply wp_advance_tx_coh. wp_simpl. apply wp_write_notify_coh; [done|].
  intros m. wp_simpl. rewrite (s32_size i) by done || lia.
  exists (Send (bs ++ fill (frame_size i - n) 0)), m.
  split_and!; [split; [done|]|done|done]. rewrite zlen_app. lia.
Qed.

Lemma write_effect b n i :
  ivc_ok i -> coherent i -> 0 <= n -> n <= zlen b ->
  wp (tegra_ivc_write b n) (fun r i' => has_effect (Write b n) i (r, []) i') i.
Proof.
  intros Hi Hc Hn Hb. unfold tegra_ivc_write, ivc_write_frame. wp_simpl.
  apply wp_BUG_ON; [done|]. wp_simpl.
  assert (forall r, r < 0 -> has_effect (Write b n) i (r, []) i) as Hneg
    by (intros; apply has_effect_idle; by left).
  destruct (Z.ltb_spec (frame_size i) n); wp_simpl; [by apply Hneg|].
  apply wp_check_write_coh; [done|].
  destruct (write_code_cases i) as [E|E];
    [|destruct (Z.eqb_spec (write_code i) 0); [lia|]; apply Hneg; done].
  rewrite E. cbn [negb Z.eqb]. wp_simpl. apply wp_slot_pointer; [done|apply Hi|].
  cbv zeta. rewrite wp_bind.
  eapply wp_checked; [apply mem_read_Some; lia|].
  apply write_tail_effect; try done.
  - apply zlen_slice; lia.
  - by right.
Qed.

Lemma write_user_effect `{!UserOk user} `{!UserExact user} ub n i :
  ivc_ok i -> coherent i -> 0 <= n ->
  wp (tegra_ivc_write_user ub n) (fun r i' => has_effect (WriteUser ub n) i (r, []) i') i.
Proof.
  intros Hi Hc Hn. unfold tegra_ivc_write_user, ivc_write_frame. wp_simpl.
  apply wp_BUG_ON; [done|]. wp_simpl.
  assert (forall r, r < 0 -> has_effect (WriteUser ub n) i (r, []) i) as Hneg
    by (intros; apply has_effect_idle; left; auto).
  destruct (Z.ltb_spec (frame_size i) n); wp_simpl; [by apply Hneg|].
  apply wp_check_write_coh; [done|].
  destruct (write_code_cases i) as [E|E];
    [|destruct (Z.eqb_spec (write_code i) 0); [lia|]; apply Hneg; done].
  rewrite E. cbn [negb Z.eqb]. wp_simpl. apply wp_slot_pointer; [done|apply Hi|].
  cbv zeta. pose proof (copy_from_user_length ub n Hn) as Hl.
  pose proof (copy_from_user_exact ub n Hn) as Hx.
  destruct (copy_from_user ub n) as [bs l]. cbn [fst snd] in *.
  destruct (Z.eqb_spec l 0) as [->|]; cbn [negb].
  - apply write_tail_effect; try done; [auto|]. right. eauto.
  - destruct (tx_slot_area i Hi) as (? & ? & ?).
    wp_simpl. eapply wp_checked; [apply mem_write_Some; lia|]. wp_simpl.
    exists (Stage (splice (tx_slot i) 0 bs)), (notified i). split_and!.
    + split; [done|]. rewrite zlen_splice; lia.
    + left. split; [by unfold EFAULT|]. eauto.
    + cbn [apply_effect]. rewrite <- stage_part by done || lia. by rewrite Z.add_0_r.
Qed.

Lemma poke_effect b off n i :
  ivc_ok i -> coherent i -> 0 <= off -> 0 <= n -> off + n < 2 ^ 64 -> n <= zlen b ->
  wp (tegra_ivc_write_poke b off n)
    (fun r i' => has_effect (WritePoke b off n) i (r, []) i') i.
Proof.
  intros Hi Hc Ho Hn Hw Hb. unfold tegra_ivc_write_poke. wp_simpl.
  rewrite u64_small by lia.
  assert (forall r, r < 0 -> has_effect (WritePoke b off n) i (r, []) i) as Hneg
    by (intros; apply has_effect_idle; by left).
  destruct (Z.ltb_spec (frame_size i) off); cbn [orb]; wp_simpl; [by apply Hneg|].
  destruct (Z.ltb_spec (frame_size i) (off + n)); wp_simpl; [by apply Hneg|].
  apply wp_check_write_coh; [done|].
  destruct (write_code_cases i) as [E|E];
    [|destruct (Z.eqb_spec (write_code i) 0); [lia|]; apply Hneg; done].
  rewrite E. cbn [negb Z.eqb]. wp_simpl. apply wp_slot_pointer; [done|apply Hi|].
  wp_simpl. assert (zlen (slice b 0 n) = n) as L by (apply zlen_slice; lia).
  destruct (tx_slot_area i Hi) as (? & ? & ?).
  eapply wp_checked; [apply mem_read_Some; lia|]. wp_simpl.
  eapply wp_checked; [apply mem_write_Some; lia|]. wp_simpl.
  rewrite (s32_size i) by done || lia. rewrite stage_part by done || lia.
  exists (Stage (splice (tx_slot i) off (slice b 0 n))), (notified i). split_and!.
  - split; [done|]. rewrite zlen_splice; lia.
  - by right.
  - done.
Qed.

Lemma read_advance_effect i :
  coherent i -> wp tegra_ivc_read_advance (fun r i' => has_effect ReadAdvance i (r, []) i') i.
Proof.
  intros Hc. unfold tegra_ivc_read_advance. wp_simpl. apply wp_check_read_coh; [done|].
  destruct (read_code_cases i) as [E|E].
  - rewrite E. cbn [negb Z.eqb]. wp_simpl. apply wp_advance_rx_coh. wp_simpl.
    apply wp_read_notify_coh; [done|]. intros m. wp_simpl.
    exists (Recv []), m. split_and!; [done|by right|done].
  - destruct (Z.eqb_spec (read_code i) 0); [lia|]. wp_simpl.
    apply has_effect_idle. by left.
Qed.

Lemma write_advance_effect i :
  ivc_ok i -> coherent i ->
  wp tegra_ivc_write_advance (fun r i' => has_effect WriteAdvance i (r, []) i') i.
Proof.
  intros Hi Hc. unfold tegra_ivc_write_advance. wp_simpl. apply wp_check_write_coh; [done|].
  destruct (write_code_cases i) as [E|E].
  - rewrite E. cbn [negb Z.eqb]. wp_simpl. apply wp_advance_tx_coh. wp_simpl.
    apply wp_write_notify_coh; [done|]. intros m. wp_simpl.
    destruct (tx_slot_area i Hi) as (? & ? & ?).
    exists (Send (tx_slot i)), m. split_and!; [done|by right|].
    cbn [apply_effect]. unfold stage, tx_slot.
    rewrite splice_slice_id; [|done|apply Hi|lia]. by destruct i as [[] [] ? ? ? ? ? ? ? ?].
  - destruct (Z.eqb_spec (write_code i) 0); [lia|]. wp_simpl.
    apply has_effect_idle. by left.
Qed.

Lemma next_frame_effect i :
  ivc_ok i -> coherent i ->
  wp tegra_ivc_read_get_next_frame (fun _ i' => i' = i) i /\
  wp tegra_ivc_write_get_next_frame (fun _ i' => i' = i) i.
Proof.
  intros Hi Hc. split.
  - unfold tegra_ivc_read_get_next_frame. wp_simpl. apply wp_check_read_coh; [done|].
    destruct (negb _); wp_simpl; [done|]. apply wp_invalidate_frame_coh; [done|].
    wp_simpl. by apply wp_slot_pointer; [|apply Hi|].
  - unfold tegra_ivc_write_get_next_frame. wp_simpl. apply wp_check_write_coh; [done|].
    destruct (negb _); wp_simpl; [done|]. by apply wp_slot_pointer; [|apply Hi|].
Qed.

Definition is_reset_call (c : call) : bool :=
  match c with ChannelReset | ChannelNotified => true | _ => false end.

(** Every call that is not part of the reset protocol has one of the four
    effects, the one its status code says. *)
Lemma run_call_effect `{!UserOk user} `{!UserExact user} c i :
  ivc_ok i -> call_ok c -> coherent i -> is_reset_call c = false ->
  wp (run_call c) (has_effect c i) i.
Proof.
  intros Hi Hok Hc Hr. destruct c; try discriminate; cbn [run_call]; cbn in Hok; wp_simpl;
    unfold tegra_ivc_can_read, tegra_ivc_can_write, tegra_ivc_tx_empty,
      tegra_ivc_tx_frames_available; wp_simpl.
  - apply wp_check_read_coh; [done|]. wp_simpl. by apply has_effect_idle.
  - apply wp_check_write_coh; [done|]. wp_simpl. by apply has_effect_idle.
  - apply wp_invalidate_coh; [done|]. wp_simpl. by apply has_effect_idle.
  - apply wp_invalidate_coh; [done|]. wp_simpl. by apply has_effect_idle.
  - apply (read_frame_effect true); auto; lia.
  - apply (read_frame_effect false); auto; lia.
  - apply peek_effect; tauto.
  - eapply wp_mono; [by apply next_frame_effect|]. intros r ? ->. wp_simpl.
    by apply has_effect_idle.
  - eapply wp_mono; [by apply read_advance_effect|]. auto.
  - eapply wp_mono; [apply write_effect; tauto|]. auto.
  - eapply wp_mono; [apply write_user_effect; tauto|]. auto.
  - eapply wp_mono; [apply poke_effect; tauto|]. auto.
  - eapply wp_mono; [by apply next_frame_effect|]. intros r ? ->. wp_simpl.
    by apply has_effect_idle.
  - eapply wp_mono; [by apply write_advance_effect|]. auto.
Qed.

(** The copying transmit path is the zero-copy path: writing [b] is
    poking the padded frame into the next slot and advancing. *)
Theorem write_is_poke_then_advance (b : list Z) (n : Z) (i : ivc) :
  ivc_ok i -> coherent i -> 0 <= n <= frame_size i -> n <= zlen b -> write_code i = 0 ->
  exists i',
    tegra_ivc_write b n i = Some (n, i') /\
    (tegra_ivc_write_poke (slice b 0 n ++ fill (frame_size i - n) 0) 0 (frame_size i);;
     tegra_ivc_write_advance) i = Some (0, i').
Proof.
  intros Hi Hc Hn Hb E. pose proof (ok_frame_size _ Hi) as Hfs. unfold INT_MAX in Hfs.
  assert (zlen (slice b 0 n) = n) as L by (apply zlen_slice; lia).
  assert (zlen (fill (frame_size i - n) 0) = frame_size i - n) as Lz
    by (apply zlen_fill; lia).
  destruct (tx_slot_area i Hi) as (? & ? & ?).
  set (fr := slice b 0 n ++ fill (frame_size i - n) 0).
  assert (zlen fr = frame_size i) as Lf by (unfold fr; rewrite zlen_app; lia).
  exists (if ivc_channel_avail_count (tx_channel (tx_push (stage fr i))) =? 1
          then notify (tx_push (stage fr i)) else tx_push (stage fr i)).
  pose (Q := fun (x : Z) (r : Z) (j : ivc) => r = x /\ j =
          if ivc_channel_avail_count (tx_channel (tx_push (stage fr i))) =? 1
          then notify (tx_push (stage fr i)) else tx_push (stage fr i)).
  assert (forall (m : M ivc Z) x, wp m (Q x) i -> m i = Some (x,
            if ivc_channel_avail_count (tx_channel (tx_push (stage fr i))) =? 1
            then notify (tx_push (stage fr i)) else tx_push (stage fr i))) as HQ.
  { intros m x (r & j & -> & -> & ->)%wp_total. done. }
  split; apply HQ; clear HQ.
  - unfold tegra_ivc_write, ivc_write_frame. wp_simpl. apply wp_BUG_ON; [done|]. wp_simpl.
    destruct (Z.ltb_spec (frame_size i) n); [lia|]. wp_simpl.
    apply wp_check_write_coh; [done|]. rewrite E. cbn [negb Z.eqb]. wp_simpl.
    apply wp_slot_pointer; [done|apply Hi|]. cbv zeta. wp_simpl.
    eapply wp_checked; [apply mem_read_Some; lia|]. wp_simpl.
    eapply wp_checked; [apply mem_write_Some; lia|]. wp_simpl.
    eapply wp_checked; [cbn; apply mem_write_Some; [lia|rewrite zlen_splice by lia; lia]|].
    wp_simpl. cbn [data tx_channel set_data set_chan chan_of header].
    replace (frame_size i * w_pos i + n)
      with (frame_size i * w_pos i + zlen (slice b 0 n)) by lia.
    rewrite splice_app by lia. fold fr.
    apply wp_advance_tx_coh. unfold ivc_write_notify. wp_simpl.
    apply wp_invalidate_coh; [done|]. wp_simpl. rewrite (s32_size i) by done || lia.
    split; [done|]. done.
  - unfold tegra_ivc_write_poke. wp_simpl. rewrite u64_small by lia.
    destruct (Z.ltb_spec (frame_size i) 0); [lia|].
    destruct (Z.ltb_spec (frame_size i) (0 + frame_size i)); [lia|]. cbn [orb]. wp_simpl.
    apply wp_check_write_coh; [done|]. rewrite E. cbn [negb Z.eqb]. wp_simpl.
    apply wp_slot_pointer; [done|apply Hi|]. wp_simpl.
    eapply wp_checked; [apply mem_read_Some; lia|]. wp_simpl.
    assert (slice fr 0 (frame_size i) = fr) as -> by (rewrite <- Lf; apply slice_all).
    eapply wp_checked; [apply mem_write_Some; lia|]. rewrite Z.add_0_r. wp_simpl.
    unfold tegra_ivc_write_advance. wp_simpl.
    apply wp_check_write_coh; [done|].
    change (write_code (set_data TX _ i)) with (write_code i). rewrite E.
    cbn [negb Z.eqb]. wp_simpl.
    apply wp_advance_tx_coh. unfold ivc_write_notify. wp_simpl.
    apply wp_invalidate_coh; [done|]. wp_simpl. done.
Qed.
End coherent.

#[export] Instance ex_user_exact : UserExact ex_user.
Proof. constructor; cbn; intros; [done|lia]. Qed.

(** A coherent endpoint with room in its transmit queue. *)
Definition ex_coherent : ivc :=
  Ivc (Chan (Hdr 0 ivc_state_established 0) [0; 0; 0; 0])
      (Chan (Hdr 5 ivc_state_established 4) [8; 8; 8; 8]) 1 0 2 2 false 0 0 0.

(** The size check of [tegra_ivc_read_peek] adds [off] and [count] as
    size_t: a count near 2^64 passes it and the copy leaves the frame area. *)
Theorem read_peek_size_wraps (fs : Z) (d : list Z) :
  0 < fs <= INT_MAX -> zlen d = fs ->
  let i := Ivc (Chan (Hdr 1 ivc_state_established 0) d)
               (Chan (Hdr 0 ivc_state_established 0) d) 0 0 1 fs false 0 0 0 in
  ivc_ok i /\
  tegra_ivc_read_peek (dma := ex_dma) 1 (2 ^ 64 - 1) i = None.
Proof.
  intros Hfs Hd i. assert (ivc_ok i) as Hi.
  { unfold INT_MAX in *. constructor; cbn; unfold INT_MAX; lia. }
  split; [exact Hi|].
  assert (ivc_check_read (dma := ex_dma) i = Some (0, i)) as Hc by reflexivity.
  assert (ivc_frame_pointer i (r_pos i) i = Some (u32 (fs * 0), i)) as Hp by reflexivity.
  assert (ivc_invalidate_frame (dma := ex_dma) RX (r_pos i) 1 (2 ^ 64 - 1) i = Some (tt, i))
    as Hv by reflexivity.
  assert (data (rx_channel i) = d /\ frame_size i = fs) as (Ed & Ef) by done.
  clearbody i. unfold tegra_ivc_read_peek, mbind, M_bind, get, checked.
  change (u64 (1 + (2 ^ 64 - 1))) with 0. rewrite Ef.
  destruct (Z.ltb_spec fs 1); [lia|]. destruct (Z.ltb_spec fs 0); [lia|].
  cbn [orb]. rewrite Hc. cbn [Z.eqb negb]. rewrite Hv, Hp, Ed, Z.mul_0_r.
  unfold mem_read, in_region. rewrite Hd.
  destruct (Z.leb_spec (u32 0 + 1 + (2 ^ 64 - 1)) fs) as [Hbad|_]; [|by rewrite andb_false_r].
  change (u32 0) with 0 in Hbad. unfold INT_MAX in *. lia.
Qed.

Lemma read_peek_size_wraps_witness :
  tegra_ivc_read_peek (dma := ex_dma) 1 (2 ^ 64 - 1)
    (Ivc (Chan (Hdr 1 ivc_state_established 0) [9; 9])
         (Chan (Hdr 0 ivc_state_established 0) [9; 9]) 0 0 1 2 false 0 0 0) = None.
Proof. apply (read_peek_size_wraps 2 [9; 9]); done. Defined.

Lemma write_is_poke_then_advance_witness : exists i',
  tegra_ivc_write (dma := ex_dma) (user := ex_user) [3; 4] 1 ex_coherent = Some (1, i') /\
  (tegra_ivc_write_poke (dma := ex_dma) (slice [3; 4] 0 1 ++ fill (2 - 1) 0) 0 2;;
   tegra_ivc_write_advance (dma := ex_dma)) ex_coherent = Some (0, i').
Proof.
  apply (write_is_poke_then_advance (dma := ex_dma) (user := ex_user) [3; 4] 1 ex_coherent);
    try done; by constructor.
Defined.
