(* ===== verification/IvcSystem.v ===== *)
(** * Two endpoints sharing a pair of IVC queues

    The world holds the two queues, the private fields of the two endpoints and
    two ghost logs per endpoint: the frames it has published and the bytes it
    has received since it last cleared its counters. A step is one API call of
    one endpoint, in any order. A call is taken whole: the loads and stores inside it
    are not interleaved with those of the other end, but for the handler of
    notifications, whose load and reaction are taken apart at the end of the file
    ([event]). Both ends are coherent (peer_device is false), so that a counter is
    read where it is stored; the copies through a device are in Ivc.v only. *)

From S2P Require Import Prelude Ivc IvcFifo.

(** ** The state transition table of the file's comment *)

Inductive action := Nothing | MoveTo (st : Z) | ResetAndMoveTo (st : Z).

(** local, remote, action *)
Definition transition_table : list (Z * Z * action) := [
  (ivc_state_sync, ivc_state_established, Nothing);
  (ivc_state_sync, ivc_state_ack, ResetAndMoveTo ivc_state_established);
  (ivc_state_sync, ivc_state_sync, ResetAndMoveTo ivc_state_ack);
  (ivc_state_ack, ivc_state_established, MoveTo ivc_state_established);
  (ivc_state_ack, ivc_state_ack, MoveTo ivc_state_established);
  (ivc_state_ack, ivc_state_sync, ResetAndMoveTo ivc_state_ack);
  (ivc_state_established, ivc_state_established, Nothing);
  (ivc_state_established, ivc_state_ack, Nothing);
  (ivc_state_established, ivc_state_sync, ResetAndMoveTo ivc_state_ack)
].

(** "reset counters; move to st; notify" and its parts. *)
Definition perform (a : action) (i : ivc) : ivc :=
  let t := header (tx_channel i) in
  let r := header (rx_channel i) in
  match a with
  | Nothing => i
  | MoveTo st => notify (set_header TX (set_state st t) i)
  | ResetAndMoveTo st =>
      notify (set_pos 0 0 (set_header RX (set_r_count 0 r)
                             (set_header TX (Hdr 0 st (r_count t)) i)))
  end.

Definition established_code (i : ivc) : Z :=
  if state (header (tx_channel i)) =? ivc_state_established then 0 else - EAGAIN.

Section table.
Context {cfg : IvcConfig} {dma : DmaOps}.

(** The action the handler's conditions select, legal states or not. *)
Definition select_action (l p : Z) : action :=
  if p =? ivc_state_sync then ResetAndMoveTo ivc_state_ack
  else if (l =? ivc_state_sync) && (p =? ivc_state_ack)
  then ResetAndMoveTo ivc_state_established
  else if l =? ivc_state_ack then MoveTo ivc_state_established else Nothing.

Lemma notified_selects i : coherent i ->
  let i' := perform (select_action (state (header (tx_channel i)))
                                   (state (header (rx_channel i)))) i in
  tegra_ivc_channel_notified i = Some (established_code i', i').
Proof.
  intros Hc. destruct i as [[[rw rs rr] rd] [[tw ts tr] td] ? ? ? ? ? ? ? ?].
  unfold coherent in Hc. cbn in *. subst.
  unfold tegra_ivc_channel_notified, ivc_observe_peer, ivc_notified_apply,
    ivc_invalidate_counter, select_action.
  munfold. cbn.
  destruct (rs =? ivc_state_sync); [reflexivity|].
  destruct ((ts =? ivc_state_sync) && (rs =? ivc_state_ack)); [reflexivity|].
  destruct (ts =? ivc_state_ack); reflexivity.
Qed.

(** The handler runs the row of the table for its pair of states. *)
Lemma notified_row l p a i :
  (l, p, a) ∈ transition_table -> coherent i ->
  state (header (tx_channel i)) = l -> state (header (rx_channel i)) = p ->
  tegra_ivc_channel_notified i = Some (established_code (perform a i), perform a i).
Proof.
  intros Hrow Hc Hl Hp. rewrite (notified_selects i Hc). rewrite Hl, Hp.
  unfold transition_table in Hrow.
  repeat (apply elem_of_cons in Hrow as [Hrow|Hrow];
    [injection Hrow as -> -> ->; reflexivity|]). by apply elem_of_nil in Hrow.
Qed.

(** Every pair of legal states has a row. *)
Lemma transition_total l p :
  (l = ivc_state_established \/ l = ivc_state_sync \/ l = ivc_state_ack) ->
  (p = ivc_state_established \/ p = ivc_state_sync \/ p = ivc_state_ack) ->
  exists a, (l, p, a) ∈ transition_table.
Proof.
  intros [-> |[-> | ->]] [-> |[-> | ->]]; eexists; unfold transition_table;
    repeat (apply elem_of_cons; first [left; reflexivity|right]).
Qed.
End table.

(** [chan s] is the queue endpoint [s] transmits on. *)
Record world := World {
  chan : bool -> channel;
  pos : bool -> Z * Z;            (* w_pos, r_pos *)
  notes : bool -> Z;
  sent : bool -> list (list Z);
  rcvd : bool -> list (list Z);
}.

Definition upd {A} (f : bool -> A) (s : bool) (x : A) : bool -> A :=
  fun s' => if Bool.eqb s' s then x else f s'.

Lemma upd_same {A} (f : bool -> A) s x : upd f s x s = x.
Proof. unfold upd. by rewrite Bool.eqb_reflx. Qed.
Lemma upd_other {A} (f : bool -> A) s x : upd f s x (negb s) = f (negb s).
Proof. unfold upd. by destruct s. Qed.
Lemma upd_other' {A} (f : bool -> A) s x : upd f (negb s) x s = f s.
Proof. unfold upd. by destruct s. Qed.
#[export] Hint Rewrite @upd_same @upd_other @upd_other' negb_involutive : mem_rw.

Section system.
Context {cfg : IvcConfig} {dma : DmaOps} {user : UserAccess}.
(** The geometry both endpoints were initialised with. *)
Context (n fs : Z).

(** The [struct ivc] of endpoint [s]. *)
Definition view (w : world) (s : bool) : ivc :=
  Ivc (chan w (negb s)) (chan w s) (pos w s).1 (pos w s).2 n fs false 0 0 (notes w s).

Definition sends (c : call) (r : Z) : bool :=
  match c with Write _ _ | WriteUser _ _ | WriteAdvance => 0 <=? r | _ => false end.
Definition receives (c : call) (r : Z) : bool :=
  match c with Read _ | ReadUser _ | ReadAdvance => 0 <=? r | _ => false end.

(** Clearing the counters forgets the logs: the handler does so when it leaves
    its endpoint in a state it was not in, except for the move from ack to
    established. *)
Definition clears (i : ivc) : bool :=
  let peer := state (header (rx_channel i)) in
  (peer =? ivc_state_sync)
  || ((state (header (tx_channel i)) =? ivc_state_sync) && (peer =? ivc_state_ack)).

Definition is_notified (c : call) : bool :=
  match c with ChannelNotified => true | _ => false end.

Definition put (w : world) (s : bool) (c : call) (r : Z) (out : list Z) (i' : ivc) : world :=
  let i := view w s in
  let forget := is_notified c && clears i in
  World (upd (upd (chan w) s (tx_channel i')) (negb s) (rx_channel i'))
    (upd (pos w) s (w_pos i', r_pos i'))
    (upd (notes w) s (notified i'))
    (upd (sent w) s
       (if forget then [] else
        sent w s ++ (if sends c r
                     then [slice (data (tx_channel i')) (fs * w_pos i) fs] else [])))
    (upd (rcvd w) s
       (if forget then [] else rcvd w s ++ (if receives c r then [out] else []))).

Inductive step : world -> bool * call -> world -> Prop :=
  | step_call w s c r out i' :
      call_ok c ->
      run_call c (view w s) = Some ((r, out), i') ->
      step w (s, c) (put w s c r out i').

Inductive reachable (w0 : world) : world -> Prop :=
  | reach_init : reachable w0 w0
  | reach_step w l w' : reachable w0 w -> step w l w' -> reachable w0 w'.

Definition tx_state (w : world) (s : bool) : Z := state (header (chan w s)).

(** Endpoint [s] has nothing outstanding. *)
Definition clean (w : world) (s : bool) : Prop :=
  w_count (header (chan w s)) = 0 /\ r_count (header (chan w (negb s))) = 0 /\
  pos w s = (0, 0) /\ sent w s = [] /\ rcvd w s = [].

(** The queue [s] transmits on: its counters and positions agree, and what has
    been sent is what was received, each item being a prefix of its frame,
    followed by the frames in flight. *)
Definition delivered (outs frs : list (list Z)) : Prop :=
  Forall2 (fun out fr => out = take (length out) fr) outs frs.

Definition queue_ok (c : channel) (wp rp : Z) (snt rcv : list (list Z)) : Prop :=
  exists W R q done,
    dir n fs (header c) (data c) wp rp W R q /\ snt = done ++ q /\ delivered rcv done.

Definition dir_ok (w : world) (s : bool) : Prop :=
  queue_ok (chan w s) (pos w s).1 (pos w (negb s)).2 (sent w s) (rcvd w (negb s)).

(** Endpoints start well formed, and either cleared and established (the
    zero-initialised channel of the backwards-compatibility note) or in the
    sync state with arbitrary counters. *)
Definition geometry_ok (w : world) : Prop :=
  0 < n < 2 ^ 32 /\ 0 <= fs <= INT_MAX /\ n * fs < 2 ^ 32 /\
  forall s, zlen (data (chan w s)) = n * fs /\
    0 <= (pos w s).1 < n /\ 0 <= (pos w s).2 < n.

Definition initial (w : world) : Prop :=
  geometry_ok w /\
  ((forall s, tx_state w s = ivc_state_established /\ clean w s) \/
   (forall s, tx_state w s = ivc_state_sync)).

(** ** The invariant *)
Record inv (w : world) : Prop := {
  inv_geo : geometry_ok w;
  inv_state : forall s, tx_state w s = ivc_state_established \/
    tx_state w s = ivc_state_sync \/ tx_state w s = ivc_state_ack;
  inv_ack : forall s, tx_state w s = ivc_state_ack -> clean w s;
  inv_dir : (forall s, tx_state w s <> ivc_state_sync) -> forall s, dir_ok w s;
}.

Lemma view_ok w s : geometry_ok w -> ivc_ok (view w s).
Proof.
  intros (Hn & Hf & Ht & H). destruct (H s) as (L & Hp & Hr), (H (negb s)) as (L' & _).
  constructor; done.
Qed.

Lemma clean_dir w : geometry_ok w -> (forall s, clean w s) -> forall s, dir_ok w s.
Proof.
  intros (Hn & _) H s. destruct (H s) as (H1 & H2 & H3 & H4 & H5),
    (H (negb s)) as (G1 & G2 & G3 & G4 & G5). rewrite negb_involutive in *.
  exists 0, 0, [], []. rewrite H3, G3, H4, G5. split_and!; [|done|constructor].
  apply dir_clear; done || lia.
Qed.

Lemma inv_initial w : initial w -> inv w.
Proof.
  intros [Hg [H|H]]; constructor; try done.
  - intros s. left. apply H.
  - intros s E. rewrite (proj1 (H s)) in E. done.
  - intros _. apply clean_dir; [done|]. intros s. apply H.
  - intros s. right. left. apply H.
  - intros s E. rewrite (H s) in E. done.
  - intros E. destruct (E true). apply H.
Qed.

Lemma both_sides (P : bool -> Prop) s : P s -> P (negb s) -> forall s', P s'.
Proof. intros ? ? s'. by destruct s, s'. Qed.

Section put.
Context (w : world) (s : bool) (c : call) (r : Z) (out : list Z) (i' : ivc).
Let w' := put w s c r out i'.

Lemma put_chan_same : chan w' s = tx_channel i'.
Proof. cbn. by autorewrite with mem_rw. Qed.
Lemma put_chan_other : chan w' (negb s) = rx_channel i'.
Proof. cbn. by autorewrite with mem_rw. Qed.
Lemma put_pos_same : pos w' s = (w_pos i', r_pos i').
Proof. cbn. by autorewrite with mem_rw. Qed.
Lemma put_pos_other : pos w' (negb s) = pos w (negb s).
Proof. cbn. by autorewrite with mem_rw. Qed.
Lemma put_logs_other :
  sent w' (negb s) = sent w (negb s) /\ rcvd w' (negb s) = rcvd w (negb s).
Proof. cbn. by autorewrite with mem_rw. Qed.

Lemma put_geometry :
  geometry_ok w -> ivc_ok i' -> nframes i' = n -> frame_size i' = fs ->
  geometry_ok w'.
Proof.
  intros (Hn & Hf & Ht & H) [] E1 E2. rewrite E1, E2 in *.
  do 3 (split; [done|]). apply (both_sides _ s).
  - rewrite put_chan_same, put_pos_same. done.
  - rewrite put_chan_other, put_pos_other. split; [done|]. apply (H (negb s)).
Qed.
End put.

(** *** Steps outside the reset protocol *)

Lemma effect_ok e i : ivc_ok i -> effect_valid e i ->
  ivc_ok (apply_effect e i) /\ nframes (apply_effect e i) = nframes i /\
  frame_size (apply_effect e i) = frame_size i.
Proof.
  intros Hi Hv. pose proof (pos_next _ _ (ok_w _ Hi) ltac:(apply Hi)) as Hw.
  pose proof (pos_next _ _ (ok_r _ Hi) ltac:(apply Hi)) as Hr.
  destruct e; cbn [apply_effect effect_valid] in *.
  - done.
  - split; [apply ok_stage; tauto|done].
  - split; [|done]. apply ok_set_pos; [|exact Hw|apply Hi].
    apply ok_set_header, ok_stage; tauto.
  - split; [|done]. apply ok_set_pos; [|apply Hi|exact Hr]. by apply ok_set_header.
Qed.

Lemma effect_states e i :
  state (header (tx_channel (apply_effect e i))) = state (header (tx_channel i)) /\
  state (header (rx_channel (apply_effect e i))) = state (header (rx_channel i)) /\
  r_count (header (tx_channel (apply_effect e i))) = r_count (header (tx_channel i)) /\
  w_count (header (rx_channel (apply_effect e i))) = w_count (header (rx_channel i)).
Proof. by destruct e. Qed.

Lemma effect_established e i : effect_valid e i -> e <> Idle ->
  state (header (tx_channel i)) = ivc_state_established.
Proof.
  intros Hv He. assert (write_code i = 0 \/ read_code i = 0) as H
    by (destruct e; cbn in Hv; tauto).
  unfold write_code, read_code, ECONNRESET in H.
  destruct (Z.eqb_spec (state (header (tx_channel i))) ivc_state_established); [done|].
  cbn in H. lia.
Qed.

Lemma effect_sends i c r out e : effect_of i c r out e -> call_ok c ->
  sends c r = (match e with Send _ => true | _ => false end) /\
  receives c r = (match e with Recv _ => true | _ => false end).
Proof.
  intros H Hc. destruct c; cbn in *; try done;
    split_hyps; split; try done; try (case_z; done || lia).
Qed.

(** A receiving call delivers its output. *)
Lemma effect_recv_out i c r out o : effect_of i c r out (Recv o) -> out = o.
Proof.
  intros H. destruct c; cbn in *; try done; split_hyps; congruence.
Qed.

(** *** One queue under the effects *)
Hypothesis Hn : 0 < n < 2 ^ 32.
Hypothesis Hfs : 0 <= fs.

Lemma delivered_snoc outs frs out fr :
  delivered outs frs -> out = take (length out) fr ->
  delivered (outs ++ [out]) (frs ++ [fr]).
Proof. intros. apply Forall2_app; [done|]. by constructor. Qed.

Lemma queue_stage c wp rp snt rcv fr :
  zlen (data c) = n * fs -> zlen fr = fs -> u32 (w_count (header c) - r_count (header c)) < n ->
  queue_ok c wp rp snt rcv ->
  queue_ok (Chan (header c) (splice (data c) (fs * wp) fr)) wp rp snt rcv.
Proof.
  intros Hd Hfr Hfull (W & R & q & dn & D & ? & ?).
  exists W, R, q, dn. split_and!; try done. cbn.
  rewrite (dir_avail n fs Hn _ _ _ _ _ _ _ D) in Hfull. by apply dir_stage.
Qed.

Lemma queue_push c wp rp snt rcv :
  u32 (w_count (header c) - r_count (header c)) < n ->
  queue_ok c wp rp snt rcv ->
  queue_ok (Chan (set_w_count (u32 (w_count (header c) + 1)) (header c)) (data c))
    (next_pos n wp) rp (snt ++ [slice (data c) (fs * wp) fs]) rcv.
Proof.
  intros Hfull (W & R & q & dn & D & -> & ?).
  exists (W + 1), R, (q ++ [slice (data c) (fs * wp) fs]), dn.
  rewrite app_assoc. split_and!; try done. cbn.
  rewrite (dir_avail n fs Hn _ _ _ _ _ _ _ D) in Hfull. by apply dir_push.
Qed.

Lemma queue_pop c wp rp snt rcv out :
  w_count (header c) <> r_count (header c) ->
  out = take (length out) (slice (data c) (fs * rp) fs) ->
  queue_ok c wp rp snt rcv ->
  queue_ok (Chan (set_r_count (u32 (r_count (header c) + 1)) (header c)) (data c))
    wp (next_pos n rp) snt (rcv ++ [out]).
Proof.
  intros Hne Hout (W & R & q & dn & D & -> & ?).
  destruct q as [|fr q].
  { destruct Hne. destruct D as [-> -> _ _ _ -> _ _].
    change (zlen []) with 0. by rewrite Z.add_0_r. }
  destruct (dir_pop n fs Hn _ _ _ _ _ _ _ D fr q eq_refl) as (Hfr & D').
  exists W, (R + 1), q, (dn ++ [fr]). split_and!; [exact D'| |].
  - by rewrite <- app_assoc.
  - apply delivered_snoc; [done|]. by rewrite <- Hfr.
Qed.

Lemma write_room i : write_code i = 0 ->
  u32 (w_count (header (tx_channel i)) - r_count (header (tx_channel i))) < nframes i.
Proof.
  unfold write_code, ivc_channel_full, ECONNRESET, ENOMEM.
  destruct (negb _); [lia|]. case_z; lia.
Qed.

Lemma read_ready i : read_code i = 0 ->
  w_count (header (rx_channel i)) <> r_count (header (rx_channel i)).
Proof.
  unfold read_code, ivc_channel_empty, ECONNRESET, ENOMEM.
  destruct (negb _); [lia|]. intros H E. rewrite E, Z.sub_diag, Z.eqb_refl in H.
  change (u32 0) with 0 in H. case_z_in H; lia.
Qed.

(** The queue the acting endpoint transmits on, after an effect. *)
Lemma effect_tx_queue e w s rp rcv :
  geometry_ok w -> effect_valid e (view w s) ->
  queue_ok (chan w s) (pos w s).1 rp (sent w s) rcv ->
  let i' := apply_effect e (view w s) in
  queue_ok (tx_channel i') (w_pos i') rp
    (sent w s ++ (if match e with Send _ => true | _ => false end
                  then [slice (data (tx_channel i')) (fs * (pos w s).1) fs] else []))
    rcv.
Proof.
  intros (_ & _ & _ & Hg) Hv HQ. destruct (Hg s) as (Hd & Hp & _).
  assert (fs * (pos w s).1 + fs <= n * fs) by nia.
  assert (0 <= fs * (pos w s).1) by nia.
  destruct e as [|fr|fr|out]; cbn [apply_effect effect_valid] in *; cbn;
    rewrite ?app_nil_r; try done.
  - destruct Hv as (Hc%write_room & Hl). by apply queue_stage.
  - destruct Hv as (Hc%write_room & Hl).
    apply (queue_push (Chan (header (chan w s)) _)); [done|]. by apply queue_stage.
Qed.

(** The queue it receives on. *)
Lemma effect_rx_queue e w s wp snt :
  effect_valid e (view w s) ->
  queue_ok (chan w (negb s)) wp (pos w s).2 snt (rcvd w s) ->
  let i' := apply_effect e (view w s) in
  queue_ok (rx_channel i') wp (r_pos i') snt
    (rcvd w s ++ match e with Recv out => [out] | _ => [] end).
Proof.
  intros Hv HQ. destruct e as [|fr|fr|out]; cbn [apply_effect effect_valid] in *; cbn;
    rewrite ?app_nil_r; try done.
  destruct Hv as (Hc%read_ready & Hl). by apply queue_pop.
Qed.

Lemma put_logs w s c r out i' : is_notified c = false ->
  let w' := put w s c r out i' in
  sent w' s = sent w s ++ (if sends c r
                           then [slice (data (tx_channel i')) (fs * (pos w s).1) fs] else []) /\
  rcvd w' s = rcvd w s ++ (if receives c r then [out] else []).
Proof. intros Hc. cbn. rewrite Hc. cbn. by rewrite !upd_same. Qed.

(** An endpoint whose queues kept its words, positions and logs stays clean. *)
Lemma clean_ext w w' s :
  w_count (header (chan w' s)) = w_count (header (chan w s)) ->
  r_count (header (chan w' (negb s))) = r_count (header (chan w (negb s))) ->
  pos w' s = pos w s -> sent w' s = sent w s -> rcvd w' s = rcvd w s ->
  clean w s -> clean w' s.
Proof. unfold clean. by intros -> -> -> -> ->. Qed.

(** No call acts in the ack state, so a clean endpoint stays clean. *)
Lemma effect_clean w s c r out e m :
  effect_valid e (view w s) -> effect_of (view w s) c r out e -> call_ok c ->
  is_notified c = false ->
  forall s', tx_state w s' = ivc_state_ack -> clean w s' ->
  clean (put w s c r out (set_notified m (apply_effect e (view w s)))) s'.
Proof.
  intros Hval Hof Hok Hnot. set (i' := set_notified m _). set (w' := put w s c r out i').
  destruct (effect_states e (view w s)) as (S1 & S2 & S3 & S4).
  destruct (effect_sends _ _ _ _ _ Hof Hok) as (Hs & Hr).
  destruct (put_logs w s c r out i' Hnot) as (Ls & Lr).
  destruct (put_logs_other w s c r out i') as (Ls' & Lr').
  apply (both_sides (fun s' => tx_state w s' = ivc_state_ack ->
                               clean w s' -> clean w' s') s); intros Ha Hcl.
  - assert (e = Idle) as ->.
    { destruct e; [done|..]; pose proof (effect_established _ _ Hval ltac:(done)) as He;
        unfold tx_state in Ha; cbn in He; rewrite Ha in He; done. }
    rewrite Hs in Ls. rewrite Hr in Lr. rewrite app_nil_r in Ls, Lr.
    apply (clean_ext w); try done; unfold w';
      rewrite ?put_chan_same, ?put_chan_other, ?put_pos_same; try done.
    cbn. by destruct (pos w s).
  - apply (clean_ext w); try done; rewrite ?negb_involutive; unfold w';
      rewrite ?put_chan_same, ?put_chan_other, ?put_pos_other; done.
Qed.

Lemma plain_step `{!UserOk user} `{!UserExact user} w s c r out i' :
  inv w -> call_ok c -> is_reset_call c = false ->
  run_call c (view w s) = Some ((r, out), i') -> inv (put w s c r out i').
Proof.
  intros Hw Hok Hc E. pose proof (inv_geo _ Hw) as Hg.
  pose proof (view_ok w s Hg) as Hv.
  pose proof (run_call_effect c (view w s) Hv Hok eq_refl Hc) as H.
  unfold wp in H. rewrite E in H. destruct H as (e & m & Hval & Hof & ->).
  cbn [fst snd] in Hof.
  destruct (effect_ok e (view w s) Hv Hval) as (Hok' & Hn' & Hf').
  destruct (effect_states e (view w s)) as (S1 & S2 & S3 & S4).
  destruct (effect_sends _ _ _ _ _ Hof Hok) as (Hs & Hr).
  assert (is_notified c = false) as Hnot by (by destruct c).
  set (i' := set_notified m _). set (w' := put w s c r out i').
  destruct (put_logs w s c r out i' Hnot) as (Ls & Lr).
  destruct (put_logs_other w s c r out i') as (Ls' & Lr').
  assert (forall s', tx_state w' s' = tx_state w s') as Est.
  { unfold tx_state. apply (both_sides _ s); unfold w';
      rewrite ?put_chan_same, ?put_chan_other; [exact S1|exact S2]. }
  constructor.
  - apply put_geometry; [done|by destruct Hok'; constructor|done|done].
  - intros s'. rewrite Est. apply Hw.
  - intros s'. rewrite Est. intros Ha.
    by eapply effect_clean; try done; [..|by apply Hw].
  - intros Hns. apply (both_sides _ s).
    + unfold dir_ok, w'. rewrite put_chan_same, put_pos_same, put_pos_other, Ls, Lr', Hs.
      apply (effect_tx_queue e w s); [done|done|].
      apply (inv_dir _ Hw). intros s'. rewrite <- Est. apply Hns.
    + unfold dir_ok, w'. rewrite negb_involutive.
      rewrite put_chan_other, put_pos_same, put_pos_other, Ls', Lr, Hr.
      assert ((if match e with Recv _ => true | _ => false end then [out] else [])
              = match e with Recv o => [o] | _ => [] end) as ->
        by (destruct e; try done; by rewrite (effect_recv_out _ _ _ _ _ Hof)).
      apply (effect_rx_queue e w s); [done|].
      assert (dir_ok w (negb s)) as HD; [|unfold dir_ok in HD; by rewrite negb_involutive in HD].
      apply (inv_dir _ Hw). intros s'. rewrite <- Est. apply Hns.
Qed.

(** *** Steps of the reset protocol *)

Lemma ok_perform a i : ivc_ok i -> evolves i (perform a i).
Proof.
  intros Hi. pose proof (ok_nframes _ Hi). destruct a; (split; [|done]); [done|..].
  - by apply ok_notify, ok_set_header.
  - by apply ok_notify, ok_set_pos; [by repeat apply ok_set_header|cbn; lia..].
Qed.

Lemma queue_set_state c wp rp snt rcv st :
  queue_ok c wp rp snt rcv ->
  queue_ok (Chan (set_state st (header c)) (data c)) wp rp snt rcv.
Proof.
  intros (W & R & q & dn & [] & ? & ?). exists W, R, q, dn. by split_and!.
Qed.

(** What an action leaves of the queues of the two ends. *)
Section protocol.
Context (w : world) (s : bool) (a : action) (c : call) (r : Z).
Let i := view w s.
Let w' := put w s c r [] (perform a i).

Lemma perform_peer_state : tx_state w' (negb s) = tx_state w (negb s).
Proof. unfold tx_state, w'. rewrite put_chan_other. by destruct a. Qed.

Lemma perform_state :
  tx_state w' s = match a with Nothing => tx_state w s
                  | MoveTo st | ResetAndMoveTo st => st end.
Proof. unfold tx_state, w'. rewrite put_chan_same. by destruct a. Qed.

Lemma perform_peer_clean : clean w (negb s) -> clean w' (negb s).
Proof.
  pose proof (put_logs_other w s c r [] (perform a i)) as (L1 & L2).
  apply clean_ext; rewrite ?negb_involutive; unfold w';
    rewrite ?put_chan_same, ?put_chan_other, ?put_pos_other; try done; by destruct a.
Qed.
End protocol.

Lemma perform_reset_clean w s st r :
  clears (view w s) = true ->
  clean (put w s ChannelNotified r [] (perform (ResetAndMoveTo st) (view w s))) s.
Proof.
  intros Hcl. unfold clean. rewrite put_chan_same, put_chan_other, put_pos_same.
  cbn -[clears]. rewrite Hcl, !upd_same. done.
Qed.

(** Without a reset the logs stay. *)
Lemma perform_logs w s r a : clears (view w s) = false ->
  let w' := put w s ChannelNotified r [] (perform a (view w s)) in
  forall s', sent w' s' = sent w s' /\ rcvd w' s' = rcvd w s'.
Proof.
  intros Hcl w'.
  apply (both_sides (fun s' => sent w' s' = sent w s' /\ rcvd w' s' = rcvd w s') s).
  - cbn -[clears]. by rewrite Hcl, !upd_same, !app_nil_r.
  - apply put_logs_other.
Qed.

Lemma perform_dir w s r a :
  clears (view w s) = false ->
  (a = Nothing \/ exists st, a = MoveTo st) ->
  (forall s', dir_ok w s') ->
  forall s', dir_ok (put w s ChannelNotified r [] (perform a (view w s))) s'.
Proof.
  intros Hcl Ha HD.
  pose proof (perform_logs w s r a Hcl) as HL. cbv zeta in HL.
  set (w' := put w s _ r [] _) in *.
  assert (forall s', pos w' s' = pos w s') as Hp.
  { apply (both_sides (fun s' => pos w' s' = pos w s') s); unfold w';
      rewrite ?put_pos_same, ?put_pos_other; [|done].
    destruct Ha as [-> |[st ->]]; cbn; by destruct (pos w s). }
  assert (chan w' (negb s) = chan w (negb s)) as Hr
    by (unfold w'; rewrite put_chan_other; destruct Ha as [-> |[st ->]]; done).
  assert (chan w' s = chan w s \/
          exists st, chan w' s = Chan (set_state st (header (chan w s))) (data (chan w s)))
    as Ht by (unfold w'; rewrite put_chan_same; destruct Ha as [-> |[st ->]];
              [by left|right; by exists st]).
  apply (both_sides (dir_ok w') s); unfold dir_ok; rewrite ?negb_involutive, !Hp;
    rewrite (proj1 (HL _)), (proj2 (HL _)).
  - destruct Ht as [-> |[st ->]]; [|apply queue_set_state]; apply HD.
  - rewrite Hr. specialize (HD (negb s)). unfold dir_ok in HD.
    by rewrite negb_involutive in HD.
Qed.

Lemma notified_step w s r out i' :
  inv w -> run_call ChannelNotified (view w s) = Some ((r, out), i') ->
  inv (put w s ChannelNotified r out i').
Proof.
  intros Hw E. pose proof (inv_geo _ Hw) as Hg.
  pose proof (view_ok w s Hg) as Hv.
  destruct (transition_total _ _ (inv_state _ Hw s) (inv_state _ Hw (negb s))) as [a Hrow].
  pose proof (notified_row _ _ _ (view w s) Hrow eq_refl eq_refl eq_refl) as En.
  cbn in E. unfold mbind, M_bind in E. rewrite En in E. cbv [mret M_ret] in E. inv_opt.
  destruct (ok_perform a _ Hv) as (Hok' & Hn' & Hf').
  pose proof (perform_state w s a ChannelNotified (established_code (perform a (view w s)))) as Ss.
  pose proof (perform_peer_state w s a ChannelNotified (established_code (perform a (view w s)))) as Sp.
  pose proof (perform_peer_clean w s a ChannelNotified (established_code (perform a (view w s)))) as Cp.
  set (w' := put _ _ _ _ _ _) in *.
  assert (geometry_ok w') as Hg' by (apply put_geometry; done).
  assert (tx_state w' (negb s) = ivc_state_ack -> clean w' (negb s)) as Hpa
    by (rewrite Sp; intros; by apply Cp, Hw).
  pose proof (inv_state _ Hw (negb s)) as Hps. rewrite <- Sp in Hps.
  assert (clears (view w s) = false -> a = Nothing \/ (exists st, a = MoveTo st) ->
          (forall s', tx_state w s' <> ivc_state_sync) -> forall s', dir_ok w' s') as Hkeep
    by (intros; apply perform_dir; try done; by apply Hw).
  assert (tx_state w (negb s) = ivc_state_ack -> clean w' (negb s)) as Hpc
    by (intros; by apply Cp, Hw).
  assert (forall st, a = ResetAndMoveTo st -> clears (view w s) = true -> clean w' s) as Hsc
    by (intros st -> ?; by apply perform_reset_clean).
  clearbody w'. clear En Cp. unfold clears in *. cbn [view rx_channel tx_channel] in *.
  change (state (header (chan w ?x))) with (tx_state w x) in *.
  unfold transition_table in Hrow.
  repeat (apply elem_of_cons in Hrow as [Hrow|Hrow]; [injection Hrow as Hl Hp ->;
    rewrite Hl, Hp in *; constructor; try done|]);
  [..|by apply elem_of_nil in Hrow];
  match goal with
  | |- (forall s0, tx_state w' s0 <> _) -> _ =>
      intros Hns;
      first [ by destruct (Hns s) | by destruct (Hns (negb s))
            | apply Hkeep; [done|eauto|];
              apply (both_sides (fun s0 => tx_state w s0 <> ivc_state_sync) s);
              rewrite ?Hl, ?Hp; done
            | apply clean_dir; [done|]; apply (both_sides _ s); eauto ]
  | |- forall s0, tx_state w' s0 = ivc_state_ack -> _ =>
      apply (both_sides (fun s0 => tx_state w' s0 = ivc_state_ack -> clean w' s0) s);
      [rewrite Ss; first [discriminate | intros _; by eapply Hsc] | exact Hpa]
  | |- forall s0, _ \/ _ =>
      apply (both_sides (fun s0 => tx_state w' s0 = ivc_state_established \/
               tx_state w' s0 = ivc_state_sync \/ tx_state w' s0 = ivc_state_ack) s);
      [rewrite Ss; auto | exact Hps]
  end.
Qed.

Lemma reset_step w s r out i' :
  inv w -> run_call ChannelReset (view w s) = Some ((r, out), i') ->
  inv (put w s ChannelReset r out i').
Proof.
  intros Hw E. pose proof (inv_geo _ Hw) as Hg. pose proof (view_ok w s Hg) as Hv.
  assert (i' = perform (MoveTo ivc_state_sync) (view w s) /\ out = []) as [-> ->]
    by (injection E as; subst; done).
  clear E. destruct (ok_perform (MoveTo ivc_state_sync) _ Hv) as (Hok' & Hn' & Hf').
  pose proof (perform_state w s (MoveTo ivc_state_sync) ChannelReset r) as Ss.
  pose proof (perform_peer_state w s (MoveTo ivc_state_sync) ChannelReset r) as Sp.
  pose proof (perform_peer_clean w s (MoveTo ivc_state_sync) ChannelReset r) as Cp.
  constructor; [by apply put_geometry| | |intros Hns; by destruct (Hns s)].
  - set (w' := put _ _ _ _ _ _) in *. intros s'.
    destruct (decide (s' = s)) as [-> |]; [auto|].
    replace s' with (negb s) by (by destruct s, s'). rewrite Sp. apply Hw.
  - set (w' := put _ _ _ _ _ _) in *. intros s'.
    destruct (decide (s' = s)) as [-> |]; [by rewrite Ss|].
    replace s' with (negb s) by (by destruct s, s'). rewrite Sp. intros. by apply Cp, Hw.
Qed.

Lemma step_inv `{!UserOk user} `{!UserExact user} w l w' : inv w -> step w l w' -> inv w'.
Proof.
  intros Hw Hs. destruct Hs as [w s c r out i' Hok E]. destruct (is_reset_call c) eqn:Hc.
  - destruct c; try discriminate; [by apply reset_step|by apply notified_step].
  - by apply plain_step.
Qed.

Lemma reachable_inv `{!UserOk user} `{!UserExact user} w0 w :
  initial w0 -> reachable w0 w -> inv w.
Proof. intros H0 H. induction H; eauto using inv_initial, step_inv. Qed.
End system.

(** ** Running a script of calls *)
Section exec.
Context {cfg : IvcConfig} {dma : DmaOps} {user : UserAccess}.
Context (n fs : Z).

Fixpoint exec (w : world) (l : list (bool * call)) : option world :=
  match l with
  | [] => Some w
  | (s, c) :: l =>
      match run_call c (view n fs w s) with
      | Some ((r, out), i') => exec (put n fs w s c r out i') l
      | None => None
      end
  end.

Lemma exec_reachable w0 w l w' :
  reachable n fs w0 w -> Forall (fun x => call_ok x.2) l ->
  exec w l = Some w' -> reachable n fs w0 w'.
Proof.
  intros Hr Hl. revert w Hr. induction Hl as [|[s c] l Hc Hl IH]; intros w Hr E; cbn in E.
  - by inv_opt.
  - destruct (run_call c (view n fs w s)) as [[[r out] i']|] eqn:Ec; [|done].
    eapply IH; [|exact E]. eapply reach_step; [exact Hr|]. by apply step_call.
Qed.

(** No script of legal calls faults. *)
Lemma exec_total `{!DmaOk dma} `{!UserOk user} `{!UserExact user} w l :
  inv n fs w -> Forall (fun x => call_ok x.2) l -> exists w', exec w l = Some w'.
Proof.
  intros Hw Hl. revert w Hw. induction Hl as [|[s c] l Hc Hl IH]; intros w Hw; cbn; [eauto|].
  destruct (run_call_total c (view n fs w s)) as ([r out] & i' & E & _);
    [apply view_ok, Hw|done|].
  rewrite E. apply IH. destruct (inv_geo _ _ _ Hw) as (? & ? & _).
  apply (step_inv n fs ltac:(done) ltac:(tauto) w (s, c)); [done|].
  by apply step_call.
Qed.
End exec.

(** ** Properties of a channel *)
Section channel.
Context {cfg : IvcConfig} {dma : DmaOps} {user : UserAccess}.
Context (n fs : Z).

(** C1. In-order, loss-free, bounded delivery. Take any sequence of API calls
    by the two endpoints, in any interleaving, resets included, from a fresh
    channel. Whenever neither endpoint is in the sync state, the k-th item an
    endpoint has received since the last reset is a prefix of the k-th frame
    its peer has published since then, and at most [n] published frames are
    not yet received, although the counters wrap at 2^32. *)
Theorem ivc_fifo `{!UserOk user} `{!UserExact user} (w0 w : world) (s : bool) :
  initial n fs w0 -> reachable n fs w0 w ->
  (forall s', tx_state w s' <> ivc_state_sync) ->
  zlen (rcvd w (negb s)) <= zlen (sent w s) <= zlen (rcvd w (negb s)) + n /\
  forall (k : nat) out, rcvd w (negb s) !! k = Some out ->
    exists fr, sent w s !! k = Some fr /\ out = take (length out) fr.
Proof.
  intros H0 Hr Hns.
  destruct (inv_geo _ _ _ (inv_initial _ _ _ H0)) as (Hn & Hf & _).
  pose proof (reachable_inv n fs Hn (proj1 Hf) _ _ H0 Hr) as Hw.
  destruct (inv_dir _ _ _ Hw Hns s) as (W & R & q & dn & D & -> & Hdel).
  unfold delivered in Hdel.
  pose proof (Forall2_length Hdel) as HL. pose proof (dir_cap _ _ _ _ _ _ _ _ _ D).
  unfold zlen in *. rewrite length_app. split; [lia|].
  intros k out Hk. destruct (Forall2_lookup_l _ _ _ _ _ Hdel Hk) as (fr & Hfr & Ho).
  exists fr. split; [by apply lookup_app_l_Some|exact Ho].
Qed.

(** The state an action leaves. *)
Definition action_state (a : action) (l : Z) : Z :=
  match a with Nothing => l | MoveTo st | ResetAndMoveTo st => st end.
Definition next_state (l p : Z) : Z := action_state (select_action l p) l.

Lemma exec_notified w s l : exists w',
  exec n fs w ((s, ChannelNotified) :: l) = exec n fs w' l /\
  tx_state w' s = next_state (tx_state w s) (tx_state w (negb s)) /\
  tx_state w' (negb s) = tx_state w (negb s).
Proof.
  cbn [exec run_call]. unfold mbind, M_bind.
  rewrite (notified_selects (view n fs w s) eq_refl).
  eexists. split; [reflexivity|].
  rewrite (perform_state n fs w s), (perform_peer_state n fs w s).
  unfold next_state, tx_state. cbn. by destruct (select_action _ _).
Qed.

(** C4. The handshake converges: from any state of a channel, whichever end
    reset it and however the two ends are placed in the protocol, two rounds
    of notifications establish both ends. *)
Theorem handshake_converges (w : world) (s : bool) :
  (forall s', tx_state w s' = ivc_state_established \/
              tx_state w s' = ivc_state_sync \/ tx_state w s' = ivc_state_ack) ->
  exists w',
    exec n fs w [(s, ChannelNotified); (negb s, ChannelNotified);
                 (s, ChannelNotified); (negb s, ChannelNotified)] = Some w' /\
    forall s', tx_state w' s' = ivc_state_established.
Proof.
  intros H. pose proof (H s) as Hl. pose proof (H (negb s)) as Hp.
  destruct (exec_notified w s [(negb s, ChannelNotified); (s, ChannelNotified);
                               (negb s, ChannelNotified)]) as (w1 & -> & A1 & B1).
  destruct (exec_notified w1 (negb s) [(s, ChannelNotified); (negb s, ChannelNotified)])
    as (w2 & -> & B2 & A2).
  destruct (exec_notified w2 s [(negb s, ChannelNotified)]) as (w3 & -> & A3 & B3).
  destruct (exec_notified w3 (negb s) []) as (w4 & -> & B4 & A4).
  rewrite negb_involutive in *. exists w4. split; [done|].
  apply (both_sides (fun s' => tx_state w4 s' = ivc_state_established) s).
  - rewrite A4, A3, A2, B2, A1, B1.
    destruct Hl as [-> |[-> | ->]], Hp as [-> |[-> | ->]]; reflexivity.
  - rewrite B4, A3, B3, B2, A2, A1, B1.
    destruct Hl as [-> |[-> | ->]], Hp as [-> |[-> | ->]]; reflexivity.
Qed.

Lemma exec_action w s l :
  exec n fs w ((s, ChannelNotified) :: l) =
  let i' := perform (select_action (tx_state w s) (tx_state w (negb s))) (view n fs w s) in
  exec n fs (put n fs w s ChannelNotified (established_code i') [] i') l.
Proof.
  cbn [exec run_call]. unfold mbind, M_bind.
  rewrite (notified_selects (view n fs w s) eq_refl). done.
Qed.

Lemma exec_reset w s l : exists w',
  exec n fs w ((s, ChannelReset) :: l) = exec n fs w' l /\
  tx_state w' s = ivc_state_sync.
Proof.
  eexists. split; [reflexivity|]. unfold tx_state. by rewrite put_chan_same.
Qed.

Lemma move_clean w s st r : clears (view n fs w s) = false -> clean w s ->
  clean (put n fs w s ChannelNotified r [] (perform (MoveTo st) (view n fs w s))) s.
Proof.
  intros Hcl H. destruct (perform_logs n fs w s r (MoveTo st) Hcl s) as [L1 L2].
  revert H. apply clean_ext; rewrite ?L1, ?L2, ?put_chan_same, ?put_chan_other, ?put_pos_same;
    try done.
  cbn. by destruct (pos w s).
Qed.

(** A reset resynchronises: whatever the counters, positions and states
    were, after one end resets the channel, three notifications establish
    both ends with empty queues and counters and positions at zero. *)
Theorem reset_resynchronises (w : world) (s : bool) :
  exists w',
    exec n fs w [(s, ChannelReset); (negb s, ChannelNotified);
                 (s, ChannelNotified); (negb s, ChannelNotified)] = Some w' /\
    forall s', tx_state w' s' = ivc_state_established /\ clean w' s'.
Proof.
  destruct (exec_reset w s [(negb s, ChannelNotified); (s, ChannelNotified);
                            (negb s, ChannelNotified)]) as (w1 & -> & S1).
  rewrite exec_action, negb_involutive, S1. cbv zeta.
  set (a1 := select_action _ _). assert (a1 = ResetAndMoveTo ivc_state_ack) as -> by done.
  set (w2 := put _ _ _ _ _ _ _ _).
  assert (tx_state w2 (negb s) = ivc_state_ack) as S2 by apply perform_state.
  assert (tx_state w2 s = ivc_state_sync) as S2'.
  { rewrite <- S1. rewrite <- (negb_involutive s) at 1. unfold w2.
    rewrite perform_peer_state. by rewrite negb_involutive. }
  assert (clean w2 (negb s)) as C2.
  { apply perform_reset_clean. unfold clears. cbn. rewrite negb_involutive.
    change (state (header (chan w1 s))) with (tx_state w1 s). by rewrite S1. }
  clearbody w2. rewrite exec_action, S2, S2'. cbv zeta.
  set (a2 := select_action _ _). assert (a2 = ResetAndMoveTo ivc_state_established) as -> by done.
  set (w3 := put _ _ w2 s _ _ _ _).
  assert (tx_state w3 s = ivc_state_established) as S3 by apply perform_state.
  assert (tx_state w3 (negb s) = ivc_state_ack) as S3' by (by unfold w3; rewrite perform_peer_state).
  assert (clean w3 (negb s)) as C3 by (by apply perform_peer_clean).
  assert (clean w3 s) as C3'.
  { apply perform_reset_clean. unfold clears. cbn.
    change (state (header (chan w2 ?x))) with (tx_state w2 x). by rewrite S2, S2'. }
  clearbody w3. rewrite exec_action, negb_involutive, S3, S3'. cbv zeta.
  set (a3 := select_action _ _). assert (a3 = MoveTo ivc_state_established) as -> by done.
  eexists. split; [reflexivity|].
  set (w4 := put _ _ w3 (negb s) _ _ _ _).
  apply (both_sides (fun s' => tx_state w4 s' = ivc_state_established /\ clean w4 s') s).
  - rewrite <- (negb_involutive s). unfold w4. rewrite perform_peer_state.
    split; [by rewrite negb_involutive|]. apply perform_peer_clean.
    by rewrite negb_involutive.
  - split; [apply perform_state|]. apply move_clean; [|done].
    unfold clears. cbn. rewrite negb_involutive.
    change (state (header (chan w3 ?x))) with (tx_state w3 x). by rewrite S3, S3'.
Qed.
End channel.

(** ** The handler as two steps

    The load of the peer's state and the stores that follow it are separate
    accesses to shared memory; the other end can act in between. *)
Inductive event :=
  | Call (s : bool) (c : call)
  | Observe (s : bool)
  | Apply (s : bool).

Section race.
Context {cfg : IvcConfig} {dma : DmaOps} {user : UserAccess}.
Context (n fs : Z).

(** [seen s]: the peer state endpoint [s] has loaded and not yet acted on. *)
Fixpoint exec_events (w : world) (seen : bool -> Z) (l : list event) : option world :=
  match l with
  | [] => Some w
  | Call s c :: l =>
      match run_call c (view n fs w s) with
      | Some ((r, out), i') => exec_events (put n fs w s c r out i') seen l
      | None => None
      end
  | Observe s :: l =>
      match ivc_observe_peer (view n fs w s) with
      | Some (p, i') => exec_events (put n fs w s CanRead 0 [] i') (upd seen s p) l
      | None => None
      end
  | Apply s :: l =>
      match ivc_notified_apply (seen s) (view n fs w s) with
      | Some (r, i') => exec_events (put n fs w s ChannelNotified r [] i') seen l
      | None => None
      end
  end.

(** Without anything in between, the two steps are the handler. *)
Lemma observe_apply (i : ivc) p i' :
  ivc_observe_peer i = Some (p, i') ->
  tegra_ivc_channel_notified i = ivc_notified_apply p i'.
Proof.
  unfold tegra_ivc_channel_notified, mbind at 1, M_bind at 1. by intros ->.
Qed.
End race.

(** A fresh channel of two 1-byte frames per queue. *)
Definition fresh_world : world :=
  World (fun _ => Chan (Hdr 0 ivc_state_established 0) [0; 0]) (fun _ => (0, 0))
    (fun _ => 0) (fun _ => []) (fun _ => []).

(** A resets; B acknowledges; A establishes and sends a frame; B loads A's
    state (established), then A resets again and loads B's state (ack); B
    completes its handler and receives the frame; A completes its handler. *)
Definition race_script : list event :=
  [ Call true ChannelReset; Call false ChannelNotified; Call true ChannelNotified;
    Call true (Write [7] 1); Observe false; Call true ChannelReset; Observe true;
    Apply false; Call false (Read 1); Apply true ].

(** The assumption in the handler's comments, that an end in the ack state
    makes no progress until the resetting end changes its state, does not hold
    when that end has already loaded the established state: both ends finish
    established, and the queue from A to B has a write count of 0 and a read
    count of 1. It looks full to A and empty to B, so no frame passes until
    the next reset. *)
Theorem reset_race_wedges_channel :
  exists w,
    exec_events (dma := ex_dma) (user := ex_user)
      2 1 fresh_world (fun _ => 0) race_script = Some w /\
    (forall s, tx_state w s = ivc_state_established) /\
    w_count (header (chan w true)) = 0 /\ r_count (header (chan w true)) = 1 /\
    write_code (view 2 1 w true) = - ENOMEM /\ read_code (view 2 1 w false) = - ENOMEM.
Proof.
  eexists. split; [vm_compute; reflexivity|]. split; [by intros []|]. done.
Qed.

(** ** Re-synchronisation across a reboot *)
Section sync.
Context {cfg : IvcConfig} {dma : DmaOps} {user : UserAccess}.
Context (n fs : Z).

Lemma dir_sync h d wp rp W R q :
  0 < n -> (n | 2 ^ 32) -> dir n fs h d wp rp W R q ->
  w_count h mod n = wp /\ r_count h mod n = rp.
Proof.
  intros Hn Hd []. rewrite dir_w, dir_r, dir_wp, dir_rp. unfold uw.
  by rewrite !Z.mod_mod_divide.
Qed.

(** [tegra_ivc_channel_sync] recomputes the positions from the shared
    counters: on a channel in use, with a number of frames that divides 2^32,
    these are the positions the endpoint already has. *)
Theorem channel_sync_recovers `{!UserOk user} `{!UserExact user} (w0 w : world) (s : bool) :
  initial n fs w0 -> reachable n fs w0 w ->
  (forall s', tx_state w s' <> ivc_state_sync) -> (n | 2 ^ 32) ->
  tegra_ivc_channel_sync (Some (view n fs w s)) = Some (0, Some (view n fs w s)).
Proof.
  intros H0 Hr Hns Hdvd.
  destruct (inv_geo _ _ _ (inv_initial _ _ _ H0)) as (Hn & Hf & _).
  pose proof (reachable_inv n fs Hn (proj1 Hf) _ _ H0 Hr) as Hw.
  destruct (inv_dir _ _ _ Hw Hns s) as (W & R & q & dn & D & _).
  destruct (inv_dir _ _ _ Hw Hns (negb s)) as (W' & R' & q' & dn' & D' & _).
  rewrite negb_involutive in D'.
  apply dir_sync in D as (E & _); [|lia|done]. apply dir_sync in D' as (_ & E'); [|lia|done].
  unfold tegra_ivc_channel_sync. cbn. destruct (Z.eqb_spec n 0); [lia|].
  rewrite E, E'. done.
Qed.
End sync.

(** Without the divisibility it is wrong once a counter has wrapped: a
    queue of 3 frames whose endpoint has sent 2^32 frames is at position 1, and
    the resynchronisation moves it to 0. *)
Theorem channel_sync_wraps :
  let h := Hdr (u32 (2 ^ 32)) ivc_state_established (u32 (2 ^ 32)) in
  let i := Ivc (Chan h []) (Chan h []) (2 ^ 32 mod 3) (2 ^ 32 mod 3) 3 0 false 0 0 0 in
  dir 3 0 h [] (w_pos i) (r_pos i) (2 ^ 32) (2 ^ 32) [] /\ w_pos i = 1 /\
  tegra_ivc_channel_sync (Some i) = Some (0, Some (set_pos 0 0 i)).
Proof.
  cbv zeta. split_and!; [constructor; try done|done|done].
Qed.

(** ** Witnesses *)

(** A sends two frames, B receives the first. *)
Definition demo_script : list (bool * call) :=
  [(true, Write [5; 6] 1); (true, Write [7] 1); (false, Read 1)].

Lemma fresh_initial : initial 2 1 fresh_world.
Proof.
  split; [|left; by intros []]. split; [done|]. split; [done|]. split; [done|].
  by intros [].
Qed.

Lemma demo_reachable w :
  exec (dma := ex_dma) (user := ex_user) 2 1 fresh_world demo_script = Some w ->
  reachable (dma := ex_dma) (user := ex_user) 2 1 fresh_world w.
Proof.
  apply exec_reachable; [constructor|]. repeat constructor; done.
Qed.

(** The world the script ends in. *)
Definition demo_world : world :=
  match exec (dma := ex_dma) (user := ex_user) 2 1 fresh_world demo_script with
  | Some w => w
  | None => fresh_world
  end.

Lemma demo_world_reachable :
  reachable (dma := ex_dma) (user := ex_user) 2 1 fresh_world demo_world.
Proof. apply demo_reachable. vm_compute; reflexivity. Qed.

Lemma demo_world_states s : tx_state demo_world s <> ivc_state_sync.
Proof. by destruct s. Qed.

Lemma ivc_fifo_witness :
  sent demo_world true = [[5]; [7]] /\ rcvd demo_world false = [[5]] /\
  forall (k : nat) out, rcvd demo_world false !! k = Some out ->
    exists fr, sent demo_world true !! k = Some fr /\ out = take (length out) fr.
Proof.
  split; [reflexivity|]. split; [reflexivity|].
  apply (ivc_fifo (dma := ex_dma) (user := ex_user) 2 1 fresh_world demo_world true
           fresh_initial demo_world_reachable demo_world_states).
Defined.

Lemma handshake_converges_witness : exists w',
  exec (dma := ex_dma) (user := ex_user) 2 1 demo_world
    [(true, ChannelNotified); (false, ChannelNotified);
     (true, ChannelNotified); (false, ChannelNotified)] = Some w' /\
  forall s', tx_state w' s' = ivc_state_established.
Proof.
  apply (handshake_converges (dma := ex_dma) (user := ex_user) 2 1 demo_world true).
  intros []; left; reflexivity.
Defined.

Lemma channel_sync_recovers_witness :
  tegra_ivc_channel_sync (Some (view 2 1 demo_world true)) =
  Some (0, Some (view 2 1 demo_world true)).
Proof.
  apply (channel_sync_recovers (dma := ex_dma) (user := ex_user) 2 1 fresh_world demo_world
           true fresh_initial demo_world_reachable demo_world_states).
  exists 2147483648. reflexivity.
Defined.

(** The handler implements the state transition table of the file's comment,
    row by row: it performs the row's action, nothing else, and returns 0
    exactly when the endpoint is then established. *)
Theorem channel_notified_follows_table {dma : DmaOps} (l p : Z) (a : action) (i : ivc) :
  (l, p, a) ∈ transition_table -> coherent i ->
  state (header (tx_channel i)) = l -> state (header (rx_channel i)) = p ->
  tegra_ivc_channel_notified i = Some (established_code (perform a i), perform a i).
Proof. apply notified_row. Qed.

Lemma channel_notified_follows_table_witness :
  let i := set_chan TX (Chan (Hdr 5 ivc_state_sync 3) [0; 0]) (view 2 1 fresh_world true) in
  let i := set_chan RX (Chan (Hdr 9 ivc_state_ack 8) [0; 0]) i in
  tegra_ivc_channel_notified (dma := ex_dma) i =
    Some (0, perform (ResetAndMoveTo ivc_state_established) i).
Proof.
  intros j i.
  assert ((ivc_state_sync, ivc_state_ack, ResetAndMoveTo ivc_state_established)
            ∈ transition_table) as Hrow
    by (apply list_elem_of_lookup; by exists 1%nat).
  exact (channel_notified_follows_table (dma := ex_dma) _ _ _ i Hrow eq_refl eq_refl eq_refl).
Defined.
