(* ===== verification/Tracebuf.v ===== *)
(** * Trace buffers (drivers/misc/eventlib/tracebuf.c, utility.h)

    A trace buffer is a byte area shared by one writer and its readers. The
    writer appends messages upwards and wraps at the end; a reader walks them
    downwards, newest first, and detects that the writer has overtaken it from
    the packed [position] word. *)

From S2P Require Import Prelude.

(** ** Data *)

(** struct tracebuf: the words before the byte area. *)
Record tracebuf := Tracebuf {
  version : Z;
  position : Z;
  seqid : Z;
  tb_length : Z;
  tb_maxsize : Z;
}.

(** struct tracectx: [shared] is implicit, the area lies at [begin_]. *)
Record tracectx := Ctx { begin_ : Z; end_ : Z; length_ : Z; maxsize_ : Z }.

Record tracehdr := Hdr { params : Z; hdr_seqid : Z; hdr_length : Z; reserved : Z }.

Record pullstate := Pull { wrapcnt : Z; current : Z; wrapped : bool; copos : bool }.

(** Shared memory as both sides see it: the words and the bytes of the area. *)
Record tbmem := Mem { shared : tracebuf; area : list Z }.

Definition sizeof_tracebuf : Z := 32.
Definition sizeof_tracehdr : Z := 24.
Definition MIN_WORD_SIZE : Z := 8.
Definition MIN_MSG_LEVEL : Z := 16.
Definition NEXT_DATA_OFF : Z := 0xFFFFCAFE.
Definition TRACE_VERSION : Z := Z.lor (Z.shiftl 1 16) sizeof_tracebuf.

(** ** The packed position: wrapcnt (16 bits), reserve (24), valid (24) *)
Definition shl64 (x k : Z) : Z := u64 (Z.shiftl x k).

Definition GET_WRAPCNT (x : Z) : Z := Z.shiftr (shl64 x 0) 48.
Definition GET_RESERVE (x : Z) : Z := Z.shiftr (shl64 x 16) 40.
Definition GET_VALID (x : Z) : Z := Z.shiftr (shl64 x 40) 40.
Definition SET_WRAPCNT (x : Z) : Z := Z.shiftr (shl64 x 48) 0.
Definition SET_RESERVE (x : Z) : Z := Z.shiftr (shl64 x 40) 16.
Definition SET_VALID (x : Z) : Z := Z.shiftr (shl64 x 40) 40.

(** [SET_WRAPCNT(w) | SET_RESERVE(r) | SET_VALID(v)] *)
Definition pack (w r v : Z) : Z :=
  Z.lor (Z.lor (SET_WRAPCNT w) (SET_RESERVE r)) (SET_VALID v).

Definition GET_TOP32 (x : Z) : Z := Z.shiftr x 32.
Definition SET_TOP32 (x : Z) : Z := shl64 x 32.
Definition GET_LOW32 (x : Z) : Z := Z.land x 0xFFFFFFFF.
Definition SET_LOW32 (x : Z) : Z := Z.land x 0xFFFFFFFF.

(** ** Headers as bytes *)
Definition hdr_enc (h : tracehdr) : list Z :=
  le_enc 8 (params h) ++ le_enc 8 (hdr_seqid h) ++
  le_enc 4 (hdr_length h) ++ le_enc 4 (reserved h).

Definition hdr_dec (bs : list Z) : tracehdr :=
  Hdr (le_dec (slice bs 0 8)) (le_dec (slice bs 8 8))
      (le_dec (slice bs 16 4)) (le_dec (slice bs 20 4)).

(** ** Contexts *)
Definition fill_context (buffer length : Z) : Z + tracectx :=
  let available := u32 (length - sizeof_tracebuf) in
  if negb (buffer mod MIN_WORD_SIZE =? 0) then inl (- EINVAL)
  else if negb (length mod MIN_WORD_SIZE =? 0) then inl (- EINVAL)
  else if length <? sizeof_tracebuf then inl (- EINVAL)
  else if negb (available mod MIN_WORD_SIZE =? 0) then inl (- EINVAL)
  else if Z.shiftl 1 24 <=? available then inl (- EINVAL)
  else if available / MIN_MSG_LEVEL <? sizeof_tracehdr then inl (- EINVAL)
  else
    let maxsize := u32 (available / MIN_MSG_LEVEL - sizeof_tracehdr) in
    let maxsize := u32 (maxsize / MIN_WORD_SIZE * MIN_WORD_SIZE) in
    inr (Ctx (u64 (buffer + sizeof_tracebuf)) (u64 (buffer + length)) available maxsize).

Definition pull_init (ctx : tracectx) (m : tbmem) : pullstate :=
  let p := position (shared m) in
  let current := GET_VALID p in
  Pull (GET_WRAPCNT p) current false (GET_RESERVE p <? current).

Definition tracebuf_init (buffer length : Z) : M tbmem (Z + tracectx) :=
  match fill_context buffer length with
  | inl ret => mret (inl ret)
  | inr ctx =>
      m ← get;
      a ← checked (mem_write (area m) 0 (fill (length_ ctx) 0));
      modify (fun m => Mem (Tracebuf (version (shared m)) 0 1 (length_ ctx) (maxsize_ ctx)) a);;
      modify (fun m => let s := shared m in
        Mem (Tracebuf TRACE_VERSION (position s) (seqid s) (tb_length s) (tb_maxsize s)) (area m));;
      mret (inr ctx)
  end.

Definition tracebuf_bind (buffer length : Z) (m : tbmem) : Z + tracectx :=
  match fill_context buffer length with
  | inl ret => inl ret
  | inr ctx =>
      if negb (version (shared m) =? TRACE_VERSION) then inl (- EINVAL)
      else if negb (tb_length (shared m) =? length_ ctx) then inl (- EINVAL)
      else if negb (tb_maxsize (shared m) =? maxsize_ ctx) then inl (- EINVAL)
      else inr ctx
  end.

(** ** Writing a message

    A push is written over the state [S] of whoever runs it: [rd] is a load
    from the shared memory, [wr] a store to it. [tracebuf_push] is the instance
    whose state is the memory; [push_log] also keeps the memory that each store
    leaves behind, in the order of the stores. *)
Definition push_padding (paylen : Z) : Z :=
  (MIN_WORD_SIZE - paylen mod MIN_WORD_SIZE) mod MIN_WORD_SIZE.

Definition push_offset (paylen : Z) : Z :=
  u32 (8 + sizeof_tracehdr + paylen + push_padding paylen).

(** The early return of a push, before anything is filled in. *)
Definition fill_refused (ctx : tracectx) (addr offset : Z) : bool :=
  negb (addr mod MIN_WORD_SIZE =? 0) || (end_ ctx <? addr) ||
  (u64 (addr - offset) <? begin_ ctx).

Section push.
Context (ctx : tracectx) {S : Type}.
Context (rd : (tbmem -> Z) -> M S Z) (wr : M tbmem unit -> M S unit).

Definition load_position : M S Z :=
  rd (fun m => position (shared m)).

(** write64(&shared->position, p) *)
Definition set_position (p : Z) : M S unit :=
  wr (modify (fun m => let s := shared m in
    Mem (Tracebuf (version s) p (seqid s) (tb_length s) (tb_maxsize s)) (area m))).

(** increment64(&shared->seqid): a load and a store. *)
Definition increment_seqid : M S Z :=
  prev ← rd (fun m => seqid (shared m));
  wr (modify (fun m => let s := shared m in
    Mem (Tracebuf (version s) (position s) (u64 (prev + 1)) (tb_length s) (tb_maxsize s))
        (area m)));;
  mret prev.

(** Bytes stored at an address of the area. *)
Definition store (addr : Z) (bs : list Z) : M S unit :=
  wr (m ← get;
      a ← checked (mem_write (area m) (addr - begin_ ctx) bs);
      modify (fun m => Mem (shared m) a)).

(** Advance the reserve index; the result is [wrapped]. *)
Definition push_reserve (offset : Z) : M S bool :=
  position ← load_position;
  if length_ ctx <? u64 (GET_RESERVE position + offset) then
    set_position (pack (u64 (GET_WRAPCNT position + 1)) offset (GET_VALID position));;
    mret true
  else
    set_position (pack (GET_WRAPCNT position) (u64 (GET_RESERVE position + offset))
                       (GET_VALID position));;
    mret false.

(** Store the message below the reserve index of [position]. *)
Definition push_fill (hdr : tracehdr) (payload : list Z)
    (paylen padding offset position : Z) (wrapped : bool) : M S unit :=
  let addr := u64 (u64 (begin_ ctx + GET_RESERVE position) - 8) in
  store addr (le_enc 8 offset);;
  let addr := u64 (addr - sizeof_tracehdr) in
  store addr (hdr_enc hdr);;
  let addr := u64 (addr - padding) in
  store addr (fill padding 0);;
  let addr := u64 (addr - paylen) in
  bs ← checked (mem_read payload 0 paylen);
  store addr bs;;
  if wrapped then
    let addr := u64 (begin_ ctx + GET_VALID position) in
    if addr <? end_ ctx then
      store (u64 (end_ ctx - 8))
        (le_enc 8 (Z.lor (SET_TOP32 NEXT_DATA_OFF) (SET_LOW32 (u64 (end_ ctx - addr)))))
    else mret tt
  else mret tt.

Definition push_publish (position : Z) : M S unit :=
  set_position (pack (GET_WRAPCNT position) (GET_RESERVE position) (GET_RESERVE position)).

(** The caller's header comes back with its sequence number and length. *)
Definition push_body (hdr : tracehdr) (payload : list Z) (paylen : Z) : M S tracehdr :=
  id ← increment_seqid;
  let hdr := Hdr (params hdr) id paylen (reserved hdr) in
  let paylen := if maxsize_ ctx <? paylen then maxsize_ ctx else paylen in
  let padding := push_padding paylen in
  let offset := push_offset paylen in
  wrapped ← push_reserve offset;
  position ← load_position;
  if fill_refused ctx (u64 (begin_ ctx + GET_RESERVE position)) offset then mret hdr
  else
    push_fill hdr payload paylen padding offset position wrapped;;
    push_publish position;;
    mret hdr.
End push.

Definition tracebuf_push (ctx : tracectx) : tracehdr -> list Z -> Z -> M tbmem tracehdr :=
  push_body ctx (fun f => m ← get; mret (f m)) (fun x => x).

(** A store that is logged: the memory it leaves is appended. *)
Definition and_log (x : M tbmem unit) : M (tbmem * list tbmem) unit :=
  fun s => '(_, m) ← x s.1; Some (tt, (m, s.2 ++ [m])).

Definition push_log (ctx : tracectx)
    : tracehdr -> list Z -> Z -> M (tbmem * list tbmem) tracehdr :=
  push_body ctx (fun f => s ← get; mret (f s.1)) and_log.

(** ** Reading a message

    The writer runs concurrently, so every load has its own view of memory:
    [at_ 0] the size word, [at_ 1] the position, [at_ 2] the header, [at_ 3] the
    payload, [at_ 4] the position again. *)
Section pull.
Context (ctx : tracectx).

Definition load (m : tbmem) (addr len : Z) : option (list Z) :=
  mem_read (area m) (addr - begin_ ctx) len.

(** The return value, the caller's state, header, payload bytes written and
    [*paylen] afterwards. *)
Record pull_result := PullResult {
  ret : Z; st_out : pullstate; hdr_out : option tracehdr;
  payload_out : list Z; paylen_out : Z }.

Definition set_current (c : Z) (st : pullstate) : pullstate :=
  Pull (wrapcnt st) c (wrapped st) (copos st).

(** [current == 0]: continue at the end of the area. *)
Definition pull_rewind (st : pullstate) : pullstate :=
  if current st =? 0 then Pull (wrapcnt st) (length_ ctx) true (copos st) else st.

(** The two checks that follow a load: the [span] bytes below [current] may
    have been reserved since, or the writer may have wrapped. *)
Definition overtaken (st : pullstate) (span : Z) (m : tbmem) : Z :=
  let position := position (shared m) in
  if (copos st || wrapped st) && (u64 (current st - span) <? GET_RESERVE position)
  then - ENOBUFS
  else if negb (wrapcnt st =? GET_WRAPCNT position) then - EINTR
  else 0.

(** The copy of a message of [offset] bytes whose size word is at [addr]. *)
Definition pull_copy (at_ : nat -> tbmem) (st : pullstate) (paylen addr offset : Z)
    : option pull_result :=
  if u64 (addr - sizeof_tracehdr) <? begin_ ctx
  then Some (PullResult (- EIO) st None [] paylen)
  else
    let addr := u64 (addr - sizeof_tracehdr) in
    hb ← load (at_ 2%nat) addr sizeof_tracehdr;
    let hdr := hdr_dec hb in
    let remainder := u64 (offset - 8 - sizeof_tracehdr) in
    if u64 (addr - remainder) <? begin_ ctx
    then Some (PullResult (- EIO) st (Some hdr) [] paylen)
    else
      let paylen := if hdr_length hdr <? paylen then hdr_length hdr else paylen in
      let paylen := if remainder <? paylen then u32 remainder else paylen in
      out ← (if 0 <? paylen then load (at_ 3%nat) (u64 (addr - remainder)) paylen
             else Some []);
      let e := overtaken st offset (at_ 4%nat) in
      if negb (e =? 0) then Some (PullResult e st (Some hdr) out paylen)
      else Some (PullResult 0 (set_current (u64 (current st - offset)) st)
                   (Some hdr) out paylen).

Definition tracebuf_pull (at_ : nat -> tbmem) (st : pullstate) (paylen : Z)
    : option pull_result :=
  let st := pull_rewind st in
  let fail e st := Some (PullResult e st None [] paylen) in
  let addr := u64 (begin_ ctx + current st - 8) in
  if negb (addr mod MIN_WORD_SIZE =? 0) then fail (- EIO) st
  else if (addr <? begin_ ctx) || (end_ ctx <? u64 (addr + 8)) then fail (- EIO) st
  else
    ob ← load (at_ 0%nat) addr 8;
    let offset := le_dec ob in
    let e := overtaken st 8 (at_ 1%nat) in
    if negb (e =? 0) then fail e st
    else if offset =? 0 then fail (- ENOBUFS) st
    else if GET_TOP32 offset =? NEXT_DATA_OFF then
      fail (- EAGAIN) (set_current (u64 (current st - GET_LOW32 offset)) st)
    else if negb (offset mod MIN_WORD_SIZE =? 0) then fail (- EIO) st
    else if offset <? 8 + sizeof_tracehdr then fail (- EIO) st
    else if 8 + sizeof_tracehdr + maxsize_ ctx <? offset then fail (- EIO) st
    else pull_copy at_ st paylen addr offset.
End pull.

(** ** The packed position *)

Lemma shl64_shr x a b : 0 <= a -> 0 <= b -> a + b <= 64 ->
  Z.shiftr (shl64 x a) (a + b) = x / 2 ^ b mod 2 ^ (64 - a - b).
Proof.
  intros Ha Hb Hab. unfold shl64, uw. rewrite <- !Z.shiftr_div_pow2 by done.
  rewrite <- !Z.land_ones by lia.
  apply Z.bits_inj'. intros i Hi. rewrite Z.shiftr_spec, Z.land_spec by lia.
  rewrite Z.land_spec, Z.shiftr_spec by lia. rewrite Z.shiftl_spec by lia.
  replace (i + (a + b) - a) with (i + b) by lia. f_equal.
  rewrite !Z.testbit_ones_nonneg by lia.
  destruct (Z.ltb_spec (i + (a + b)) 64), (Z.ltb_spec i (64 - a - b)); lia.
Qed.

Lemma GET_WRAPCNT_div x : GET_WRAPCNT x = x / 2 ^ 48 mod 2 ^ 16.
Proof. exact (shl64_shr x 0 48 ltac:(lia) ltac:(lia) ltac:(lia)). Qed.
Lemma GET_RESERVE_div x : GET_RESERVE x = x / 2 ^ 24 mod 2 ^ 24.
Proof. exact (shl64_shr x 16 24 ltac:(lia) ltac:(lia) ltac:(lia)). Qed.
Lemma GET_VALID_mod x : GET_VALID x = x mod 2 ^ 24.
Proof.
  transitivity (x / 2 ^ 0 mod 2 ^ 24); [|by rewrite Z.pow_0_r, Z.div_1_r].
  exact (shl64_shr x 40 0 ltac:(lia) ltac:(lia) ltac:(lia)).
Qed.

Lemma pack_sum w r v : 0 <= r < 2 ^ 24 -> 0 <= v < 2 ^ 24 ->
  pack w r v = w mod 2 ^ 16 * 2 ^ 48 + r * 2 ^ 24 + v.
Proof.
  intros Hr Hv. unfold pack.
  assert (SET_VALID v = v) as -> by (change SET_VALID with GET_VALID;
    rewrite GET_VALID_mod; by apply Z.mod_small).
  assert (SET_RESERVE r = Z.shiftl r 24) as ->.
  { unfold SET_RESERVE, shl64. replace (Z.shiftl r 40) with (Z.shiftl (Z.shiftl r 24) 16)
      by (rewrite Z.shiftl_shiftl by lia; done).
    rewrite u64_small; [by rewrite Z.shiftr_shiftl_l|].
    rewrite !Z.shiftl_mul_pow2 by lia. lia. }
  assert (SET_WRAPCNT w = Z.shiftl (w mod 2 ^ 16) 48) as ->.
  { unfold SET_WRAPCNT, shl64, uw. rewrite Z.shiftr_0_r, !Z.shiftl_mul_pow2 by lia.
    change (2 ^ 64) with (2 ^ 16 * 2 ^ 48). by rewrite Zmult_mod_distr_r. }
  rewrite (lor_shiftl_add _ (Z.shiftl r 24)); rewrite ?Z.shiftl_mul_pow2 by lia; [|lia..].
  replace (w mod 2 ^ 16 * 2 ^ 48 + r * 2 ^ 24)
    with ((w mod 2 ^ 16 * 2 ^ 24 + r) * 2 ^ 24) by lia.
  rewrite <- (Z.shiftl_mul_pow2 _ 24), lor_shiftl_add by lia. rewrite ?Z.shiftl_mul_pow2 by lia. lia.
Qed.

Lemma pack_range w r v : 0 <= r < 2 ^ 24 -> 0 <= v < 2 ^ 24 -> 0 <= pack w r v < 2 ^ 64.
Proof.
  intros. rewrite pack_sum by done. pose proof (Z.mod_pos_bound w (2 ^ 16) ltac:(lia)). lia.
Qed.

Lemma GET_RESERVE_pack w r v : 0 <= r < 2 ^ 24 -> 0 <= v < 2 ^ 24 ->
  GET_RESERVE (pack w r v) = r.
Proof.
  intros. rewrite GET_RESERVE_div, pack_sum by done.
  exact (field_extract (w mod 2 ^ 16) r v 24 24 ltac:(lia) ltac:(lia) ltac:(lia) ltac:(lia)).
Qed.

Lemma GET_VALID_pack w r v : 0 <= r < 2 ^ 24 -> 0 <= v < 2 ^ 24 ->
  GET_VALID (pack w r v) = v.
Proof.
  intros. rewrite GET_VALID_mod, pack_sum by done.
  pose proof (field_extract (w mod 2 ^ 16 * 2 ^ 24 + r) v 0 24 0) as E.
  cbn [Z.add] in E. rewrite Z.add_0_r, Z.pow_0_r, Z.div_1_r, !Z.mul_1_r in E.
  rewrite <- E at 2 by lia. f_equal. lia.
Qed.

Lemma GET_WRAPCNT_pack w r v : 0 <= r < 2 ^ 24 -> 0 <= v < 2 ^ 24 ->
  GET_WRAPCNT (pack w r v) = w mod 2 ^ 16.
Proof.
  intros. rewrite GET_WRAPCNT_div, pack_sum by done.
  pose proof (Z.mod_pos_bound w (2 ^ 16) ltac:(lia)).
  replace (w mod 2 ^ 16 * 2 ^ 48 + r * 2 ^ 24 + v)
    with (0 * 2 ^ (16 + 48) + w mod 2 ^ 16 * 2 ^ 48 + (r * 2 ^ 24 + v)) by lia.
  apply field_extract; lia.
Qed.

(** Only 16 bits of the wrap count are kept. *)
Lemma pack_ext w w' r v : w mod 2 ^ 16 = w' mod 2 ^ 16 -> 0 <= r < 2 ^ 24 -> 0 <= v < 2 ^ 24 ->
  pack w r v = pack w' r v.
Proof. intros E ? ?. rewrite !pack_sum by done. by rewrite E. Qed.
Lemma pack_mod w r v : 0 <= r < 2 ^ 24 -> 0 <= v < 2 ^ 24 -> pack (w mod 2 ^ 16) r v = pack w r v.
Proof. intros. apply pack_ext; [apply Zmod_mod|done..]. Qed.
Lemma wc_succ w : u64 (w mod 2 ^ 16 + 1) mod 2 ^ 16 = (w + 1) mod 2 ^ 16.
Proof.
  unfold uw. rewrite Z.mod_mod_divide by (by exists (2 ^ 48)). by rewrite Zplus_mod_idemp_l.
Qed.

(** ** Contexts *)

Record ctx_ok (ctx : tracectx) : Prop := {
  ctx_begin : 0 <= begin_ ctx;
  ctx_align : begin_ ctx mod 8 = 0;
  ctx_end : end_ ctx = begin_ ctx + length_ ctx;
  ctx_top : end_ ctx < 2 ^ 64;
  ctx_length : 384 <= length_ ctx < 2 ^ 24;
  ctx_length_align : length_ ctx mod 8 = 0;
  ctx_maxsize : maxsize_ ctx = (length_ ctx / 16 - 24) / 8 * 8;
}.

Lemma mod8_add a b : a mod 8 = 0 -> b mod 8 = 0 -> (a + b) mod 8 = 0.
Proof. intros. dlia. Qed.
Lemma mod8_sub a b : a mod 8 = 0 -> b mod 8 = 0 -> (a - b) mod 8 = 0.
Proof. intros. dlia. Qed.

Lemma fill_context_ok buffer length ctx :
  0 <= buffer -> 0 <= length < 2 ^ 32 -> buffer + length < 2 ^ 64 ->
  fill_context buffer length = inr ctx -> ctx_ok ctx /\ length_ ctx = length - 32.
Proof.
  intros Hb Hl Ht. unfold fill_context, sizeof_tracebuf, MIN_WORD_SIZE, MIN_MSG_LEVEL,
    sizeof_tracehdr.
  destruct (Z.eqb_spec (buffer mod 8) 0); [|done].
  destruct (Z.eqb_spec (length mod 8) 0); [|done]. cbn [negb].
  destruct (Z.ltb_spec length 32); [done|].
  rewrite (u32_small (length - 32)) by lia.
  destruct (Z.eqb_spec ((length - 32) mod 8) 0); [|done]. cbn [negb].
  change (Z.shiftl 1 24) with (2 ^ 24).
  destruct (Z.leb_spec (2 ^ 24) (length - 32)); [done|].
  destruct (Z.ltb_spec ((length - 32) / 16) 24); [done|].
  rewrite (u32_small (_ / 16 - 24)) by dlia.
  rewrite (u32_small (_ / 8 * 8)) by dlia.
  rewrite !u64_small by lia. intros [= <-]. split; [|done].
  constructor; cbn; try lia; dlia.
Qed.

(** Which buffers a context accepts: 8-byte aligned ones of a size from 416
    bytes to just under 16 MB plus the header; every other gives -EINVAL. *)
Theorem fill_context_accepts buffer length :
  0 <= buffer -> 0 <= length < 2 ^ 32 ->
  (exists ctx, fill_context buffer length = inr ctx) <->
  buffer mod 8 = 0 /\ length mod 8 = 0 /\ 416 <= length < 2 ^ 24 + 32.
Proof.
  intros Hb Hl. unfold fill_context, sizeof_tracebuf, MIN_WORD_SIZE, MIN_MSG_LEVEL,
    sizeof_tracehdr. change (Z.shiftl 1 24) with (2 ^ 24).
  destruct (Z.ltb_spec length 32).
  { split; [|lia]. repeat case_z; intros [? ?]; done. }
  rewrite (u32_small (length - 32)) by lia.
  repeat case_z; split; intros Hx; try (destruct Hx; done); try lia; try dlia; eauto.
Qed.

Lemma ctx_maxsize_bound ctx : ctx_ok ctx ->
  0 <= maxsize_ ctx /\ 16 * (maxsize_ ctx + 24) <= length_ ctx /\ maxsize_ ctx mod 8 = 0.
Proof. intros [? ? ? ? ? ? ->]. dlia. Qed.

(** ** The reader never leaves the area *)

Definition addr_room (ctx : tracectx) : Prop :=
  2 ^ 32 + 8 <= begin_ ctx /\ begin_ ctx + 2 ^ 24 < 2 ^ 64.

Definition mem_ok (ctx : tracectx) (m : tbmem) : Prop :=
  zlen (area m) = length_ ctx /\ bytes_ok (area m).

(** A read position: a 24-bit index, or one a skip length has taken below it. *)
Definition pull_ok (st : pullstate) : Prop :=
  exists x, current st = u64 x /\ - 2 ^ 32 < x < 2 ^ 24.

Definition pull_result_ok (paylen : Z) (r : pull_result) : Prop :=
  pull_ok (st_out r) /\ 0 <= paylen_out r <= paylen /\ zlen (payload_out r) <= paylen /\
  (ret r = 0 -> zlen (payload_out r) = paylen_out r /\ is_Some (hdr_out r)).

Lemma GET_VALID_range x : 0 <= GET_VALID x < 2 ^ 24.
Proof. rewrite GET_VALID_mod. apply Z.mod_pos_bound. lia. Qed.

Lemma pull_init_ok ctx m : pull_ok (pull_init ctx m).
Proof.
  exists (GET_VALID (position (shared m))).
  pose proof (GET_VALID_range (position (shared m))). cbn. rewrite u64_small; lia.
Qed.

Lemma pull_rewind_ok ctx st : ctx_ok ctx -> pull_ok st -> pull_ok (pull_rewind ctx st).
Proof.
  intros Hc Hst. unfold pull_rewind. destruct (current st =? 0); [|done].
  pose proof (ctx_length _ Hc). exists (length_ ctx). cbn. rewrite u64_small; lia.
Qed.

Lemma overtaken_cases st span m :
  overtaken st span m = 0 \/ overtaken st span m = - ENOBUFS \/ overtaken st span m = - EINTR.
Proof. unfold overtaken. destruct (_ && (_ <? _)); [auto|]. destruct (wrapcnt st =? _); auto. Qed.

Section reader.
Context (ctx : tracectx) (at_ : nat -> tbmem).
Hypothesis Hctx : ctx_ok ctx.
Hypothesis Hroom : addr_room ctx.
Hypothesis Hmem : forall k, mem_ok ctx (at_ k).

Lemma load_ok k addr len :
  begin_ ctx <= addr -> 0 <= len -> addr + len <= end_ ctx ->
  load ctx (at_ k) addr len = Some (slice (area (at_ k)) (addr - begin_ ctx) len).
Proof.
  intros. unfold load. destruct (Hmem k) as [HL _]. rewrite (ctx_end _ Hctx) in *.
  apply mem_read_Some; lia.
Qed.

Lemma bytes_le_dec k off len : 0 <= off -> 0 <= len -> off + len <= length_ ctx ->
  0 <= le_dec (slice (area (at_ k)) off len) < 2 ^ (8 * len).
Proof.
  intros. destruct (Hmem k) as [HL HB].
  pose proof (le_dec_range (slice (area (at_ k)) off len) (slice_bytes_ok _ _ _ HB)) as H2.
  rewrite zlen_slice in H2 by lia. done.
Qed.

Lemma pull_copy_safe st x paylen offset :
  current st = u64 x -> 8 <= x <= length_ ctx -> 0 <= paylen < 2 ^ 32 ->
  32 <= offset <= 32 + maxsize_ ctx ->
  exists r, pull_copy ctx at_ st paylen (begin_ ctx + x - 8) offset = Some r /\
    pull_result_ok paylen r.
Proof.
  intros Hx Hxr Hpay Hoff. unfold pull_copy, sizeof_tracehdr.
  destruct Hroom as [R1 R2]. pose proof (ctx_length _ Hctx). pose proof (ctx_maxsize_bound _ Hctx).
  rewrite (u64_small x) in Hx by lia.
  rewrite (u64_small (begin_ ctx + x - 8 - 24)) by lia.
  assert (pull_ok st) as Hok by (exists x; rewrite (u64_small x) by lia; lia).
  assert (forall e h, e <> 0 -> pull_result_ok paylen (PullResult e st h [] paylen)) as Hfail.
  { intros. split_and!; cbn; try done; try lia. change (zlen []) with 0. lia. }
  destruct (Z.ltb_spec (begin_ ctx + x - 8 - 24) (begin_ ctx)); [eauto|].
  rewrite load_ok by (rewrite ?(ctx_end _ Hctx); lia). cbn [mbind option_bind].
  set (h := hdr_dec _). set (rem := u64 (offset - 8 - 24)).
  assert (rem = offset - 32) as Hrem by (unfold rem; rewrite u64_small; lia).
  rewrite (u64_small (begin_ ctx + x - 8 - 24 - rem)) by lia.
  destruct (Z.ltb_spec (begin_ ctx + x - 8 - 24 - rem) (begin_ ctx)); [eauto|].
  set (p1 := if hdr_length h <? paylen then hdr_length h else paylen).
  set (p2 := if rem <? p1 then u32 rem else p1).
  assert (0 <= hdr_length h) as Hh.
  { unfold h, hdr_dec. cbn [hdr_length]. apply le_dec_range.
    apply slice_bytes_ok, slice_bytes_ok, (Hmem 2). }
  assert (0 <= p2 <= paylen /\ p2 <= rem) as Hp2.
  { assert (0 <= p1 <= paylen) by (unfold p1; case_z; lia).
    unfold p2. rewrite (u32_small rem) by lia. case_z; lia. }
  assert (exists out, (if 0 <? p2
     then load ctx (at_ 3%nat) (begin_ ctx + x - 8 - 24 - rem) p2 else Some []) = Some out
     /\ zlen out = p2) as (out & -> & Hout).
  { destruct (Z.ltb_spec 0 p2); [|exists []; split; [done|change (zlen []) with 0; lia]].
    eexists. split; [apply load_ok; rewrite ?(ctx_end _ Hctx); lia|].
    rewrite zlen_slice; try lia. destruct (Hmem 3) as [HL _]. lia. }
  cbn [mbind option_bind]. destruct (Z.eqb_spec (overtaken st offset (at_ 4%nat)) 0); cbn [negb];
    (eexists; split; [reflexivity|]); split_and!; cbn; try done; try lia.
  exists (x - offset). rewrite Hx. split; [done|lia].
Qed.

Lemma tracebuf_pull_total (st : pullstate) (paylen : Z) :
  pull_ok st -> 0 <= paylen < 2 ^ 32 ->
  exists r, tracebuf_pull ctx at_ st paylen = Some r /\ pull_result_ok paylen r.
Proof.
  intros Hst0 Hpay. unfold tracebuf_pull.
  pose proof (pull_rewind_ok ctx st Hctx Hst0) as Hst. clear Hst0.
  set (st1 := pull_rewind ctx st) in *. clearbody st1.
  assert (forall e s, e <> 0 -> pull_ok s ->
            pull_result_ok paylen (PullResult e s None [] paylen)) as Hfail.
  { intros. split_and!; cbn; try done; try lia. change (zlen []) with 0. lia. }
  destruct Hroom as [R1 R2]. pose proof (ctx_length _ Hctx).
  pose proof (ctx_end _ Hctx) as He. pose proof Hst as (x & Hx & Hxr).
  assert (u64 (begin_ ctx + current st1 - 8) = begin_ ctx + x - 8) as ->.
  { rewrite Hx. replace (begin_ ctx + u64 x - 8) with (u64 x + (begin_ ctx - 8)) by lia.
    rewrite uw_add_l, u64_small; lia. }
  destruct (negb (_ mod _ =? 0)); [by eexists; split; [reflexivity|]; apply Hfail|].
  destruct (Z.ltb_spec (begin_ ctx + x - 8) (begin_ ctx)); cbn [orb];
    [by eexists; split; [reflexivity|]; apply Hfail|].
  rewrite (u64_small (begin_ ctx + x - 8 + 8)) by lia.
  destruct (Z.ltb_spec (end_ ctx) (begin_ ctx + x - 8 + 8));
    [by eexists; split; [reflexivity|]; apply Hfail|].
  rewrite load_ok by lia. cbn [mbind option_bind].
  set (offset := le_dec _).
  assert (0 <= offset < 2 ^ 64) as Hoff by (apply (bytes_le_dec 0%nat _ 8); lia).
  destruct (Z.eqb_spec (overtaken st1 8 (at_ 1%nat)) 0); cbn [negb];
    [|by eexists; split; [reflexivity|]; apply Hfail].
  destruct (Z.eqb_spec offset 0); [by eexists; split; [reflexivity|]; apply Hfail|].
  destruct (Z.eqb_spec (GET_TOP32 offset) NEXT_DATA_OFF).
  { eexists; split; [reflexivity|]. apply Hfail; [done|].
    exists (x - GET_LOW32 offset). cbn. unfold GET_LOW32.
    change 0xFFFFFFFF with (Z.ones 32). rewrite Z.land_ones by lia.
    pose proof (Z.mod_pos_bound offset (2 ^ 32) ltac:(lia)).
    rewrite Hx. split; [|lia]. unfold uw. by rewrite Zminus_mod_idemp_l. }
  destruct (negb (offset mod _ =? 0)); [by eexists; split; [reflexivity|]; apply Hfail|].
  unfold sizeof_tracehdr.
  destruct (Z.ltb_spec offset (8 + 24)); [by eexists; split; [reflexivity|]; apply Hfail|].
  destruct (Z.ltb_spec (8 + 24 + maxsize_ ctx) offset); [by eexists; split; [reflexivity|]; apply Hfail|].
  apply pull_copy_safe; [done|lia|done|lia].
Qed.

(** The reader is safe against the writer: whatever the shared words and
    bytes are at each of its loads, and wherever earlier skip lengths have
    left its position, one pull reads only inside the area, writes at most
    the caller's [paylen] payload bytes, exactly [*paylen] of them on
    success, and leaves a position the next pull is safe from. *)
Theorem tracebuf_pull_safe (st : pullstate) (paylen : Z) :
  pull_ok st -> 0 <= paylen < 2 ^ 32 ->
  exists r, tracebuf_pull ctx at_ st paylen = Some r /\ pull_result_ok paylen r.
Proof. apply tracebuf_pull_total. Qed.
End reader.

(** ** The writer *)

(** The bytes of a message: payload, padding, header, size. *)
Record msg := Msg { m_hdr : tracehdr; m_data : list Z }.

Definition msg_bytes (x : msg) : list Z :=
  m_data x ++ fill (push_padding (zlen (m_data x))) 0 ++ hdr_enc (m_hdr x)
  ++ le_enc 8 (push_offset (zlen (m_data x))).

Definition msg_size (x : msg) : Z := push_offset (zlen (m_data x)).

Definition skip_word (n : Z) : list Z :=
  le_enc 8 (Z.lor (SET_TOP32 NEXT_DATA_OFF) (SET_LOW32 n)).

Definition set_shared_position (p : Z) (s : tracebuf) : tracebuf :=
  Tracebuf (version s) p (seqid s) (tb_length s) (tb_maxsize s).

Definition at_position (m : tbmem) (p : Z) : tbmem :=
  Mem (set_shared_position p (shared m)) (area m).

Lemma push_padding_range n : 0 <= push_padding n < 8 /\ (n + push_padding n) mod 8 = 0.
Proof. unfold push_padding, MIN_WORD_SIZE. dlia. Qed.

Lemma push_offset_val n : 0 <= n < 2 ^ 24 ->
  push_offset n = 32 + n + push_padding n /\ push_offset n mod 8 = 0.
Proof.
  intros Hn. pose proof (push_padding_range n). unfold push_offset, sizeof_tracehdr.
  rewrite u32_small by lia. split; [lia|]. dlia.
Qed.

Lemma msg_size_nonneg x : 0 <= msg_size x.
Proof. apply u32_range. Qed.

Lemma zlen_hdr_enc h : zlen (hdr_enc h) = 24.
Proof. unfold hdr_enc. rewrite !zlen_app, !zlen_le_enc. done. Qed.

Lemma zlen_msg_bytes x : zlen (m_data x) < 2 ^ 24 -> zlen (msg_bytes x) = msg_size x.
Proof.
  intros H. pose proof (zlen_nonneg (m_data x)). unfold msg_bytes, msg_size.
  pose proof (push_padding_range (zlen (m_data x))).
  rewrite (proj1 (push_offset_val _ ltac:(done))).
  rewrite !zlen_app, zlen_hdr_enc, zlen_le_enc, zlen_fill by lia. lia.
Qed.

Section writer.
Context (ctx : tracectx).
Hypothesis Hctx : ctx_ok ctx.

(** The log does not change what a push does. *)
Definition same_run {A} (x : M tbmem A) (y : M (tbmem * list tbmem) A) : Prop :=
  forall s, x s.1 = '(a, s') ← y s; Some (a, s'.1).

Lemma same_run_bind {A B} (x : M tbmem A) y (k : A -> M tbmem B) k' :
  same_run x y -> (forall a, same_run (k a) (k' a)) -> same_run (x ≫= k) (y ≫= k').
Proof.
  intros Hx Hk s. unfold mbind, M_bind. rewrite Hx.
  destruct (y s) as [[a s']|]; cbn; [apply Hk|done].
Qed.
Lemma same_run_ret {A} (a : A) : same_run (mret a) (mret a).
Proof. done. Qed.
Lemma same_run_checked {A} (o : option A) : same_run (checked o) (checked o).
Proof. intros s. by destruct o. Qed.
Lemma same_run_load {A} (f : tbmem -> A) :
  same_run (m ← get; mret (f m)) (s ← get; mret (f s.1)).
Proof. done. Qed.
Lemma same_run_log (x : M tbmem unit) : same_run x (and_log x).
Proof. intros s. unfold and_log. destruct (x s.1) as [[[] m]|]; done. Qed.

Lemma push_log_push h payload paylen m :
  tracebuf_push ctx h payload paylen m =
    '(r, s) ← push_log ctx h payload paylen (m, []); Some (r, s.1).
Proof.
  enough (same_run (tracebuf_push ctx h payload paylen) (push_log ctx h payload paylen))
    as E by apply (E (m, [])).
  unfold tracebuf_push, push_log, push_body, increment_seqid, push_reserve, push_fill,
    push_publish, load_position, set_position, store.
  repeat first
    [ apply same_run_log | apply same_run_load | apply same_run_checked | apply same_run_ret
    | apply same_run_bind; [|intros] | case_match ].
Qed.

(** The stores of a fill, in order, for a message [x] put at [lo] after the
    valid index [p]: the size, the header, the padding, the payload and, when
    the reservation has wrapped and left room at the end, the skip word. *)
Definition push_stores (lo p : Z) (wrapped : bool) (x : msg) : list (Z * list Z) :=
  let n := zlen (m_data x) in
  let pad := push_padding n in
  [(lo + (n + pad + 24), le_enc 8 (msg_size x)); (lo + (n + pad), hdr_enc (m_hdr x));
   (lo + n, fill pad 0); (lo, m_data x)] ++
  (if wrapped && (p <? length_ ctx)
   then [(length_ ctx - 8, skip_word (length_ ctx - p))] else []).

Definition store_all (a : list Z) (l : list (Z * list Z)) : list Z :=
  foldl (fun a '(off, bs) => splice a off bs) a l.

(** The areas that the stores leave, one after the other. *)
Fixpoint areas (a : list Z) (l : list (Z * list Z)) : list (list Z) :=
  match l with
  | [] => []
  | (off, bs) :: l => splice a off bs :: areas (splice a off bs) l
  end.

Definition fits (l : list (Z * list Z)) (len : Z) : Prop :=
  Forall (fun '(off, bs) => 0 <= off /\ off + zlen bs <= len) l.

Lemma wp_store off bs (Q : unit -> tbmem * list tbmem -> Prop) m l :
  0 <= off -> off + zlen bs <= zlen (area m) ->
  (let m' := Mem (shared m) (splice (area m) off bs) in Q tt (m', l ++ [m'])) ->
  wp (store ctx and_log (begin_ ctx + off) bs) Q (m, l).
Proof.
  intros H0 H1 HQ. unfold store, and_log, wp. munfold. cbn [fst snd].
  replace (begin_ ctx + off - begin_ ctx) with off by lia.
  rewrite mem_write_Some by done. exact HQ.
Qed.

Lemma push_stores_fit lo p wrapped x :
  0 <= lo -> lo + msg_size x <= length_ ctx -> 0 <= p -> zlen (m_data x) < 2 ^ 23 ->
  fits (push_stores lo p wrapped x) (length_ ctx).
Proof.
  intros Hlo Hx Hp Hd. pose proof (zlen_nonneg (m_data x)). pose proof (ctx_length _ Hctx).
  destruct (push_offset_val (zlen (m_data x)) ltac:(lia)) as [Ho _].
  pose proof (push_padding_range (zlen (m_data x))) as [Hpad _].
  change (push_offset (zlen (m_data x))) with (msg_size x) in Ho.
  unfold push_stores, fits. apply Forall_app. split.
  - repeat constructor; rewrite ?zlen_le_enc, ?zlen_hdr_enc, ?zlen_fill by lia; lia.
  - case_match; repeat constructor; [lia|]. unfold skip_word. rewrite zlen_le_enc.
    pose proof (ctx_maxsize_bound _ Hctx). lia.
Qed.

Lemma zlen_store_all a l : fits l (zlen a) -> zlen (store_all a l) = zlen a.
Proof.
  intros Hl. revert a Hl. induction l as [|[off bs] l IH]; intros a Hl; [done|].
  apply Forall_cons_1 in Hl as [[H1 H2] Hl]. cbn.
  change (zlen (store_all (splice a off bs) l) = zlen a).
  rewrite IH; rewrite zlen_splice by done; done.
Qed.

Lemma store_all_app a l l' : store_all a (l ++ l') = store_all (store_all a l) l'.
Proof. apply foldl_app. Qed.

(** Together the stores put the bytes of the message at [lo]. *)
Lemma push_stores_bytes a lo p wrapped x :
  zlen a = length_ ctx -> 0 <= lo -> lo + msg_size x <= length_ ctx ->
  zlen (m_data x) < 2 ^ 23 ->
  store_all a (push_stores lo p wrapped x) =
    let a' := splice a lo (msg_bytes x) in
    if wrapped && (p <? length_ ctx)
    then splice a' (length_ ctx - 8) (skip_word (length_ ctx - p)) else a'.
Proof.
  intros Ha Hlo Hx Hd. pose proof (zlen_nonneg (m_data x)).
  destruct (push_offset_val (zlen (m_data x)) ltac:(lia)) as [Ho _].
  pose proof (push_padding_range (zlen (m_data x))) as [Hpad _].
  change (push_offset (zlen (m_data x))) with (msg_size x) in Ho.
  unfold push_stores. rewrite store_all_app. cbv zeta.
  enough (store_all a [(lo + (zlen (m_data x) + push_padding (zlen (m_data x)) + 24),
            le_enc 8 (msg_size x));
           (lo + (zlen (m_data x) + push_padding (zlen (m_data x))), hdr_enc (m_hdr x));
           (lo + zlen (m_data x), fill (push_padding (zlen (m_data x))) 0); (lo, m_data x)]
    = splice a lo (msg_bytes x)) as -> by (by case_match).
  cbn [store_all foldl]. unfold msg_bytes. set (n := zlen (m_data x)) in *.
  set (pad := push_padding n) in *. pose proof (zlen_hdr_enc (m_hdr x)).
  assert (zlen (fill pad 0) = pad) as Hf by (apply zlen_fill; lia).
  set (w := le_enc 8 (msg_size x)). assert (zlen w = 8) as Hw by apply zlen_le_enc.
  replace (lo + (n + pad + 24)) with (lo + (n + pad) + zlen (hdr_enc (m_hdr x))) by lia.
  rewrite splice_app_down by lia.
  replace (lo + (n + pad)) with (lo + n + zlen (fill pad 0)) by lia.
  rewrite splice_app_down by (rewrite ?zlen_app; lia).
  unfold n. rewrite splice_app_down by (rewrite ?zlen_app; lia). done.
Qed.

Lemma wp_push_fill h payload wrapped lo v wc (Q : unit -> tbmem * list tbmem -> Prop) m l :
  zlen payload <= maxsize_ ctx -> zlen (area m) = length_ ctx ->
  let x := Msg h payload in
  0 <= lo -> lo + msg_size x <= length_ ctx -> 0 <= v <= length_ ctx ->
  (let sts := push_stores lo v wrapped x in
   Q tt (Mem (shared m) (store_all (area m) sts),
         l ++ map (Mem (shared m)) (areas (area m) sts))) ->
  wp (push_fill ctx and_log h payload (zlen payload) (push_padding (zlen payload))
        (msg_size x) (pack wc (lo + msg_size x) v) wrapped) Q (m, l).
Proof.
  intros Hp Ha x Hlo Hx Hv HQ. pose proof (ctx_length _ Hctx). pose proof (ctx_top _ Hctx).
  pose proof (ctx_end _ Hctx) as He. pose proof (ctx_begin _ Hctx).
  pose proof (ctx_maxsize_bound _ Hctx). pose proof (zlen_nonneg payload).
  destruct (push_offset_val (zlen payload) ltac:(lia)) as [Ho _].
  pose proof (push_padding_range (zlen payload)) as [Hpad _].
  change (push_offset (zlen payload)) with (msg_size x) in Ho.
  pose proof (push_stores_fit lo v wrapped x Hlo Hx ltac:(lia) ltac:(cbn; lia)) as Hfit.
  unfold push_fill. cbv zeta in HQ |- *.
  rewrite GET_RESERVE_pack, GET_VALID_pack by lia. unfold sizeof_tracehdr.
  rewrite (u64_small (begin_ ctx + (lo + msg_size x))) by lia.
  rewrite (u64_small (begin_ ctx + (lo + msg_size x) - 8)) by lia.
  rewrite (u64_small (begin_ ctx + (lo + msg_size x) - 8 - 24)) by lia.
  rewrite (u64_small (begin_ ctx + (lo + msg_size x) - 8 - 24 - _)) by lia.
  rewrite (u64_small (_ - zlen payload)) by lia.
  rewrite Ho. set (n := zlen payload) in *. set (pad := push_padding n) in *.
  replace (begin_ ctx + (lo + (32 + n + pad)) - 8) with (begin_ ctx + (lo + (n + pad + 24))) by lia.
  replace (begin_ ctx + (lo + (n + pad + 24)) - 24) with (begin_ ctx + (lo + (n + pad))) by lia.
  replace (begin_ ctx + (lo + (n + pad)) - pad) with (begin_ ctx + (lo + n)) by lia.
  replace (begin_ ctx + (lo + n) - n) with (begin_ ctx + lo) by lia.
  rewrite <- Ho. unfold push_stores, fits in Hfit, HQ. cbn [m_data m_hdr] in Hfit, HQ.
  change (m_data x) with payload in *. change (m_hdr x) with h in *.
  fold n in Hfit, HQ. fold pad in Hfit, HQ.
  apply Forall_app in Hfit as [Hfit Hskip]. repeat (apply Forall_cons_1 in Hfit as [[? ?] Hfit]).
  rewrite store_all_app in HQ. cbn [store_all foldl] in HQ.
  unfold n in HQ |- *. fold n in HQ |- *.
  assert (slice payload 0 n = payload) as Hsl by apply slice_all.
  repeat (wp_simpl; rewrite ?Hsl; first
    [ apply wp_store; cbn [area shared]; rewrite ?zlen_splice;
      rewrite ?zlen_splice; rewrite ?zlen_splice; try lia
    | eapply wp_checked; [apply mem_read_Some; lia|] ]).
  rewrite (u64_small (begin_ ctx + v)) by lia.
  replace (begin_ ctx + v <? end_ ctx) with (v <? length_ ctx)
    by (rewrite He; repeat case_z; done || lia).
  destruct (wrapped && (v <? length_ ctx)) eqn:Ew.
  - apply andb_true_iff in Ew as [-> Ew]. rewrite Ew.
    rewrite !u64_small by lia. rewrite He.
    replace (begin_ ctx + length_ ctx - 8) with (begin_ ctx + (length_ ctx - 8)) by lia.
    replace (begin_ ctx + length_ ctx - (begin_ ctx + v)) with (length_ ctx - v) by lia.
    apply Forall_cons_1 in Hskip as [[? ?] _]. unfold skip_word in *.
    apply wp_store; cbn [area shared]; rewrite ?zlen_splice;
      rewrite ?zlen_splice; rewrite ?zlen_splice; rewrite ?zlen_splice; try lia.
    rewrite <- !app_assoc. exact HQ.
  - rewrite app_nil_r in HQ. cbn in HQ. replace (if wrapped then _ else _) with (mret (M := M (tbmem * list tbmem)) tt)
      by (destruct wrapped; [|done]; cbn in Ew; by rewrite Ew).
    wp_simpl. rewrite <- !app_assoc. exact HQ.
Qed.

(** What is stored: at most [maxsize] payload bytes. *)
Definition stored (payload : list Z) (paylen : Z) : list Z :=
  slice payload 0 (if maxsize_ ctx <? paylen then maxsize_ ctx else paylen).

(** The writer's state between two pushes: reserve and valid agree. *)
Record idle (wc p : Z) (m : tbmem) : Prop := {
  idle_position : position (shared m) = pack wc p p;
  idle_p : 0 <= p <= length_ ctx;
  idle_p8 : p mod 8 = 0;
  idle_area : zlen (area m) = length_ ctx;
  idle_seqid : 0 <= seqid (shared m) < 2 ^ 64;
}.

Definition pushed (wc p : Z) (x : msg) (m : tbmem) : tbmem :=
  let s := shared m in
  let s' pos := Tracebuf (version s) pos (u64 (seqid s + 1)) (tb_length s) (tb_maxsize s) in
  if length_ ctx <? p + msg_size x then
    Mem (s' (pack (wc + 1) (msg_size x) (msg_size x)))
      (let a := splice (area m) 0 (msg_bytes x) in
       if p <? length_ ctx
       then splice a (length_ ctx - 8) (skip_word (length_ ctx - p)) else a)
  else Mem (s' (pack wc (p + msg_size x) (p + msg_size x)))
         (splice (area m) p (msg_bytes x)).

Lemma stored_length payload paylen : 0 <= paylen <= zlen payload ->
  0 <= zlen (stored payload paylen) <= maxsize_ ctx /\
  zlen (stored payload paylen) =
    if maxsize_ ctx <? paylen then maxsize_ ctx else paylen.
Proof.
  intros H. pose proof (ctx_maxsize_bound _ Hctx). unfold stored.
  destruct (Z.ltb_spec (maxsize_ ctx) paylen); rewrite zlen_slice by lia; lia.
Qed.

Lemma msg_size_bound x : 0 <= zlen (m_data x) <= maxsize_ ctx ->
  32 <= msg_size x <= 32 + maxsize_ ctx /\ msg_size x mod 8 = 0.
Proof.
  intros H. pose proof (ctx_maxsize_bound _ Hctx) as (H1 & H2 & H3).
  pose proof (ctx_length _ Hctx).
  destruct (push_offset_val (zlen (m_data x)) ltac:(lia)) as [E E8].
  pose proof (push_padding_range (zlen (m_data x))) as [P1 P2].
  change (msg_size x) with (push_offset (zlen (m_data x))). split; [|done].
  split; [lia|]. dlia.
Qed.

Lemma push_fill_slice h payload n pad off pos wr : 0 <= n <= zlen payload ->
  push_fill ctx and_log h payload n pad off pos wr =
  push_fill ctx and_log h (slice payload 0 n) n pad off pos wr.
Proof.
  intros Hn. unfold push_fill.
  assert (zlen (slice payload 0 n) = n) as L by (apply zlen_slice; lia).
  replace (mem_read (slice payload 0 n) 0 n) with (mem_read payload 0 n); [done|].
  rewrite !mem_read_Some by lia. by rewrite slice_slice by lia.
Qed.

Lemma wp_log_modify (f : tbmem -> tbmem) (Q : unit -> tbmem * list tbmem -> Prop) m l :
  Q tt (f m, l ++ [f m]) -> wp (and_log (modify f)) Q (m, l).
Proof. done. Qed.

(** Where a push puts its message, and the lap it is in then. *)
Definition wraps_at (p : Z) (x : msg) : bool := length_ ctx <? p + msg_size x.
Definition push_lo (p : Z) (x : msg) : Z := if wraps_at p x then 0 else p.
Definition push_lap (wc p : Z) (x : msg) : Z := if wraps_at p x then wc + 1 else wc.

(** The memory after the sequence number has been taken, and after the space
    has been reserved: the valid index is still the old one. *)
Definition numbered (m : tbmem) : tbmem :=
  let s := shared m in
  Mem (Tracebuf (version s) (position s) (u64 (seqid s + 1)) (tb_length s) (tb_maxsize s))
      (area m).
Definition reserved_for (wc p : Z) (x : msg) (m : tbmem) : tbmem :=
  at_position (numbered m) (pack (push_lap wc p x) (push_lo p x + msg_size x) p).

Lemma pushed_published wc p x m :
  zlen (area m) = length_ ctx -> 0 <= p -> msg_size x <= length_ ctx ->
  zlen (m_data x) < 2 ^ 23 ->
  let r := push_lo p x + msg_size x in
  at_position (Mem (shared (reserved_for wc p x m))
                   (store_all (area m) (push_stores (push_lo p x) p (wraps_at p x) x)))
    (pack (push_lap wc p x) r r) = pushed wc p x m.
Proof.
  intros Ha Hp Hs Hd. cbv zeta. pose proof (msg_size_nonneg x).
  rewrite push_stores_bytes; try done.
  - unfold pushed, push_lo, push_lap, wraps_at. cbv zeta.
    destruct (length_ ctx <? p + msg_size x); cbn [andb]; [|done]. rewrite Z.add_0_l. done.
  - unfold push_lo. case_match; lia.
  - unfold push_lo, wraps_at. case_z; lia.
Qed.

Lemma wp_push_reserve wc p x (Q : bool -> tbmem * list tbmem -> Prop) m l :
  position (shared m) = pack wc p p -> 0 <= p <= length_ ctx -> msg_size x <= length_ ctx ->
  (let m' := at_position m (pack (push_lap wc p x) (push_lo p x + msg_size x) p) in
   Q (wraps_at p x) (m', l ++ [m'])) ->
  wp (push_reserve ctx (fun f => s ← get; mret (f s.1)) and_log (msg_size x)) Q (m, l).
Proof.
  intros Hpos Hp Hx HQ. pose proof (ctx_length _ Hctx). pose proof (msg_size_nonneg x).
  unfold push_reserve, load_position, set_position. wp_simpl. cbn [fst]. rewrite Hpos.
  rewrite GET_RESERVE_pack, GET_WRAPCNT_pack, GET_VALID_pack by lia.
  rewrite (u64_small (p + _)) by lia. fold (wraps_at p x).
  unfold push_lap, push_lo, at_position, set_shared_position in HQ. cbv zeta in HQ.
  destruct (wraps_at p x) eqn:Ew; unfold wraps_at in Ew;
    wp_simpl; apply wp_log_modify; wp_simpl.
  - rewrite (pack_ext (u64 (wc mod 2 ^ 16 + 1)) (wc + 1)) by (lia || apply wc_succ). exact HQ.
  - apply Z.ltb_ge in Ew. rewrite pack_mod by lia. exact HQ.
Qed.

Lemma not_refused lo x :
  0 <= lo -> lo + msg_size x <= length_ ctx -> (lo + msg_size x) mod 8 = 0 ->
  fill_refused ctx (u64 (begin_ ctx + (lo + msg_size x))) (msg_size x) = false.
Proof.
  intros Hlo Hx H8. pose proof (ctx_length _ Hctx). pose proof (ctx_top _ Hctx).
  pose proof (ctx_end _ Hctx). pose proof (ctx_begin _ Hctx). pose proof (msg_size_nonneg x).
  unfold fill_refused. rewrite !u64_small by lia.
  rewrite mod8_add by (apply Hctx || done). cbn [Z.eqb negb orb].
  destruct (Z.ltb_spec (end_ ctx) (begin_ ctx + (lo + msg_size x))); [lia|]. cbn [orb].
  destruct (Z.ltb_spec (begin_ ctx + (lo + msg_size x) - msg_size x) (begin_ ctx)); [lia|done].
Qed.

Lemma push_lo_range p x : 0 <= p <= length_ ctx -> p mod 8 = 0 -> msg_size x <= length_ ctx ->
  msg_size x mod 8 = 0 ->
  0 <= push_lo p x /\ push_lo p x + msg_size x <= length_ ctx /\
  (push_lo p x + msg_size x) mod 8 = 0.
Proof.
  intros. unfold push_lo, wraps_at. case_z; split_and!; try lia; try (by apply mod8_add); by rewrite Z.add_0_l.
Qed.

(** A push never fails on an idle buffer, and these are its stores. *)
Lemma push_log_result h payload paylen wc p m :
  idle wc p m -> 0 <= paylen <= zlen payload ->
  let h' := Hdr (params h) (seqid (shared m)) paylen (reserved h) in
  let x := Msg h' (stored payload paylen) in
  let rsv := reserved_for wc p x m in
  push_log ctx h payload paylen (m, []) =
    Some (h', (pushed wc p x m,
      numbered m :: rsv ::
      map (Mem (shared rsv)) (areas (area m) (push_stores (push_lo p x) p (wraps_at p x) x))
      ++ [pushed wc p x m])).
Proof.
  intros Hm Hpay h' x rsv. destruct (stored_length _ _ Hpay) as [Hs1 Hs2].
  pose proof (msg_size_bound x Hs1) as [Hsz Hsz8].
  pose proof (ctx_length _ Hctx). pose proof (ctx_maxsize_bound _ Hctx).
  pose proof Hm as [Hpos Hp Hp8 Ha Hq].
  destruct (push_lo_range p x Hp Hp8 ltac:(lia) Hsz8) as (L1 & L2 & L3).
  assert (zlen (m_data x) < 2 ^ 23) as Hx23 by (change (m_data x) with (stored payload paylen); lia).
  pose proof (pushed_published wc p x m Ha ltac:(lia) ltac:(lia) Hx23) as Hfin.
  fold rsv in Hfin.
  match goal with |- _ = Some (_, (?a, ?b)) =>
    enough (wp (push_log ctx h payload paylen) (fun r s => r = h' /\ s = (a, b)) (m, []))
      as (r & s & -> & -> & ->)%wp_total by done end.
  unfold push_log, push_body, increment_seqid.
  wp_simpl. fold h'. cbv zeta. cbn [fst snd]. apply wp_log_modify.
  fold (numbered m). wp_simpl. cbn [app]. fold h'. rewrite <- Hs2.
  set (n := zlen (stored payload paylen)) in *. change (push_offset n) with (msg_size x).
  apply (wp_push_reserve wc p x); [done|lia|lia|]. cbv zeta. fold rsv.
  unfold load_position. wp_simpl. cbn [fst].
  change (at_position (numbered m) _) with rsv. change (position (shared rsv))
    with (pack (push_lap wc p x) (push_lo p x + msg_size x) p).
  rewrite GET_RESERVE_pack, not_refused by lia.
  rewrite push_fill_slice by (rewrite Hs2; case_z; lia).
  replace (slice payload 0 n) with (stored payload paylen) by (by rewrite Hs2).
  wp_simpl. apply (wp_push_fill h' (stored payload paylen)); fold x; try done; [lia|].
  cbv zeta. change (area rsv) with (area m).
  unfold push_publish, set_position. wp_simpl. apply wp_log_modify. wp_simpl.
  rewrite GET_RESERVE_pack, GET_WRAPCNT_pack by lia. rewrite pack_mod by lia.
  split; [done|]. rewrite <- Hfin. by rewrite <- !app_assoc.
Qed.

Lemma tracebuf_push_result h payload paylen wc p m :
  idle wc p m -> 0 <= paylen <= zlen payload ->
  let h' := Hdr (params h) (seqid (shared m)) paylen (reserved h) in
  tracebuf_push ctx h payload paylen m =
    Some (h', pushed wc p (Msg h' (stored payload paylen)) m).
Proof.
  intros Hm Hpay. cbv zeta. rewrite push_log_push.
  by rewrite (push_log_result h payload paylen wc p m Hm Hpay).
Qed.
End writer.

(** ** Messages in the area *)

Record hdr_ok (h : tracehdr) : Prop := {
  hdr_ok_params : 0 <= params h < 2 ^ 64;
  hdr_ok_seqid : 0 <= hdr_seqid h < 2 ^ 64;
  hdr_ok_length : 0 <= hdr_length h < 2 ^ 32;
  hdr_ok_reserved : 0 <= reserved h < 2 ^ 32;
}.

Lemma hdr_dec_enc h : hdr_ok h -> hdr_dec (hdr_enc h) = h.
Proof.
  intros [H1 H2 H3 H4]. unfold hdr_dec, hdr_enc.
  assert (forall n x, slice (le_enc n x) 0 (Z.of_nat n) = le_enc n x) as Hall
    by (intros; rewrite <- (zlen_le_enc n x) at 1; apply slice_all).
  rewrite (slice_app_l _ _ 0 8), (slice_app_r _ _ 8 8), (slice_app_r _ _ 16 4),
    (slice_app_r _ _ 20 4), !zlen_le_enc by (rewrite ?zlen_le_enc; lia).
  change (8 - Z.of_nat 8) with 0. change (16 - Z.of_nat 8) with 8.
  change (20 - Z.of_nat 8) with 12.
  rewrite (slice_app_l _ _ 0 8), (slice_app_r _ _ 8 4), (slice_app_r _ _ 12 4),
    !zlen_le_enc by (rewrite ?zlen_le_enc; lia).
  change (8 - Z.of_nat 8) with 0. change (12 - Z.of_nat 8) with 4.
  rewrite (slice_app_l _ _ 0 4), (slice_app_r _ _ 4 4), !zlen_le_enc
    by (rewrite ?zlen_le_enc; lia).
  change (4 - Z.of_nat 4) with 0.
  rewrite (Hall 8%nat), (Hall 8%nat), (Hall 4%nat), (Hall 4%nat), !le_dec_enc.
  destruct h; cbn in *. f_equal; by apply Z.mod_small.
Qed.

(** A header survives the trip through memory. *)
Theorem hdr_round_trip h : hdr_ok h -> hdr_dec (hdr_enc h) = h.
Proof. apply hdr_dec_enc. Qed.

(** The bytes of [x] lie at [lo]. *)
Definition msg_at (a : list Z) (lo : Z) (x : msg) : Prop :=
  0 <= lo /\ lo + msg_size x <= zlen a /\ slice a lo (msg_size x) = msg_bytes x.

Record msg_ok (ctx : tracectx) (x : msg) : Prop := {
  msg_ok_hdr : hdr_ok (m_hdr x);
  msg_ok_data : zlen (m_data x) = Z.min (hdr_length (m_hdr x)) (maxsize_ ctx);
}.

Section messages.
Context (ctx : tracectx).
Hypothesis Hctx : ctx_ok ctx.
Context (x : msg) (a : list Z) (lo : Z).
Hypothesis Hx : msg_ok ctx x.
Hypothesis Hat : msg_at a lo x.
Hypothesis Ha : zlen a = length_ ctx.

Lemma msg_data_range : 0 <= zlen (m_data x) <= maxsize_ ctx.
Proof.
  pose proof (zlen_nonneg (m_data x)). destruct Hx as [[] E].
  pose proof (ctx_maxsize_bound _ Hctx). lia.
Qed.

Lemma msg_layout : msg_size x = 32 + zlen (m_data x) + push_padding (zlen (m_data x)).
Proof.
  pose proof msg_data_range. pose proof (ctx_maxsize_bound _ Hctx).
  pose proof (ctx_length _ Hctx). apply push_offset_val. lia.
Qed.

(** A part of the message, read in place. *)
Lemma msg_part off len : 0 <= off -> 0 <= len -> off + len <= msg_size x ->
  slice a (lo + off) len = slice (msg_bytes x) off len.
Proof.
  intros. destruct Hat as (A1 & A2 & A3). rewrite <- A3. symmetry. apply slice_slice; lia.
Qed.

Lemma msg_size_word : slice a (lo + msg_size x - 8) 8 = le_enc 8 (msg_size x).
Proof.
  pose proof msg_layout as L. pose proof msg_data_range.
  pose proof (push_padding_range (zlen (m_data x))) as [P _].
  replace (lo + msg_size x - 8) with (lo + (msg_size x - 8)) by lia.
  rewrite msg_part by lia. unfold msg_bytes.
  assert (zlen (fill (push_padding (zlen (m_data x))) 0) = push_padding (zlen (m_data x)))
    as Hf by (apply zlen_fill; lia).
  rewrite !slice_app_r, zlen_hdr_enc, Hf by (rewrite ?zlen_hdr_enc; lia).
  replace (_ - 24) with 0 by lia.
  rewrite <- (zlen_le_enc 8 (push_offset (zlen (m_data x)))) at 1. apply slice_all.
Qed.

Lemma msg_hdr_bytes : slice a (lo + msg_size x - 32) 24 = hdr_enc (m_hdr x).
Proof.
  pose proof msg_layout as L. pose proof msg_data_range.
  pose proof (push_padding_range (zlen (m_data x))) as [P _].
  replace (lo + msg_size x - 32) with (lo + (msg_size x - 32)) by lia.
  rewrite msg_part by lia. unfold msg_bytes.
  assert (zlen (fill (push_padding (zlen (m_data x))) 0) = push_padding (zlen (m_data x)))
    as Hf by (apply zlen_fill; lia).
  rewrite !slice_app_r, Hf by lia.
  replace (msg_size x - 32 - zlen (m_data x) - push_padding (zlen (m_data x))) with 0 by lia.
  rewrite slice_app_l by (rewrite ?zlen_hdr_enc; lia).
  rewrite <- (zlen_hdr_enc (m_hdr x)). apply slice_all.
Qed.

Lemma msg_payload n : 0 <= n <= zlen (m_data x) -> slice a lo n = slice (m_data x) 0 n.
Proof.
  intros Hn. pose proof msg_layout as L.
  pose proof (push_padding_range (zlen (m_data x))) as [P _].
  rewrite <- (Z.add_0_r lo), msg_part by lia. unfold msg_bytes.
  apply slice_app_l; lia.
Qed.
End messages.

(** ** Pulling one message *)
Section pull_one.
Context (ctx : tracectx) (at_ : nat -> tbmem).
Hypothesis Hctx : ctx_ok ctx.
Hypothesis Harea : forall k, zlen (area (at_ k)) = length_ ctx.

(** A position from which the reader goes on at [hi]. *)
Definition reads_from (st : pullstate) (hi : Z) : Prop :=
  current st = hi \/ (current st = 0 /\ hi = length_ ctx).

Definition not_overtaken (st : pullstate) (lo : Z) (m : tbmem) : Prop :=
  wrapcnt st = GET_WRAPCNT (position (shared m)) /\
  (copos st || wrapped st = true -> GET_RESERVE (position (shared m)) <= lo).

Lemma overtaken_no st span m hi :
  current st = hi -> 0 <= hi - span < 2 ^ 64 ->
  not_overtaken st (hi - span) m -> overtaken st span m = 0.
Proof.
  intros Hc Hr [Hw Ho]. unfold overtaken. rewrite Hc, u64_small, Hw, Z.eqb_refl by done.
  destruct (copos st || wrapped st) eqn:E; [|done].
  destruct (Z.ltb_spec (hi - span) (GET_RESERVE (position (shared m)))); [|done].
  specialize (Ho eq_refl). lia.
Qed.

Lemma pull_rewind_at st hi : 0 < hi -> reads_from st hi ->
  current (pull_rewind ctx st) = hi /\ wrapcnt (pull_rewind ctx st) = wrapcnt st /\
  copos (pull_rewind ctx st) = copos st /\
  (wrapped (pull_rewind ctx st) = true -> wrapped st = true \/ hi = length_ ctx) /\
  pull_rewind ctx (pull_rewind ctx st) = pull_rewind ctx st.
Proof.
  intros Hhi [E|[E ->]].
  - assert (pull_rewind ctx st = st) as Er
      by (unfold pull_rewind; rewrite E; case_z; [lia|done]).
    rewrite !Er. split_and!; auto.
  - pose proof (ctx_length _ Hctx).
    assert (pull_rewind ctx st = Pull (wrapcnt st) (length_ ctx) true (copos st)) as ->
      by (unfold pull_rewind; by rewrite E).
    split_and!; try done; [auto|]. unfold pull_rewind. cbn. case_z; [lia|done].
Qed.

Lemma size_word_field w : 0 <= w < 2 ^ 24 -> (GET_TOP32 w =? NEXT_DATA_OFF) = false.
Proof.
  intros Hw. unfold GET_TOP32. rewrite Z.shiftr_div_pow2, Z.div_small by lia. done.
Qed.

(** The size word at the top of [hi], as the reader sees it. *)
Definition word_at (hi w : Z) : Prop :=
  le_dec (slice (area (at_ 0%nat)) (hi - 8) 8) = w.

Lemma pull_steps st paylen hi w :
  reads_from st hi -> 8 <= hi <= length_ ctx -> hi mod 8 = 0 ->
  word_at hi w ->
  let st1 := pull_rewind ctx st in
  let fail e st := Some (PullResult e st None [] paylen) in
  tracebuf_pull ctx at_ st paylen =
    let e := overtaken st1 8 (at_ 1%nat) in
    if negb (e =? 0) then fail e st1
    else if w =? 0 then fail (- ENOBUFS) st1
    else if GET_TOP32 w =? NEXT_DATA_OFF then
      fail (- EAGAIN) (set_current (u64 (hi - GET_LOW32 w)) st1)
    else if negb (w mod MIN_WORD_SIZE =? 0) then fail (- EIO) st1
    else if w <? 8 + sizeof_tracehdr then fail (- EIO) st1
    else if 8 + sizeof_tracehdr + maxsize_ ctx <? w then fail (- EIO) st1
    else pull_copy ctx at_ st1 paylen (begin_ ctx + hi - 8) w.
Proof.
  intros Hr Hhi Hhi8 Hw. cbv zeta.
  destruct (pull_rewind_at st hi ltac:(lia) Hr) as (E1 & _).
  unfold tracebuf_pull. set (st1 := pull_rewind ctx st) in *. rewrite E1.
  pose proof (ctx_length _ Hctx). pose proof (ctx_end _ Hctx).
  pose proof (ctx_top _ Hctx). pose proof (ctx_begin _ Hctx).
  rewrite (u64_small (begin_ ctx + hi - 8)) by lia.
  assert ((begin_ ctx + hi - 8) mod MIN_WORD_SIZE = 0) as ->.
  { pose proof (ctx_align _ Hctx). unfold MIN_WORD_SIZE. dlia. }
  destruct (Z.ltb_spec (begin_ ctx + hi - 8) (begin_ ctx)); [lia|].
  rewrite (u64_small (begin_ ctx + hi - 8 + 8)) by lia.
  destruct (Z.ltb_spec (end_ ctx) (begin_ ctx + hi - 8 + 8)); [lia|].
  cbn [Z.eqb negb orb]. unfold load. pose proof (Harea 0%nat).
  rewrite mem_read_Some by lia. cbn [mbind option_bind].
  replace (begin_ ctx + hi - 8 - begin_ ctx) with (hi - 8) by lia.
  by rewrite Hw.
Qed.

(** The length given back: the caller's, cut to the stored payload. *)
Lemma pulled_length x paylen : msg_ok ctx x -> 0 <= paylen < 2 ^ 32 ->
  (let p1 := if hdr_length (m_hdr x) <? paylen then hdr_length (m_hdr x) else paylen in
   if msg_size x - 8 - 24 <? p1 then u32 (msg_size x - 8 - 24) else p1) =
  Z.min paylen (zlen (m_data x)).
Proof.
  intros Hx Hp. pose proof (msg_layout ctx Hctx x Hx) as ->.
  pose proof (ctx_maxsize_bound _ Hctx) as (M1 & M2 & M3). pose proof (ctx_length _ Hctx).
  destruct Hx as [[_ _ HL _] HD].
  pose proof (push_padding_range (zlen (m_data x))) as [Hpad _].
  assert (maxsize_ ctx < hdr_length (m_hdr x) -> push_padding (zlen (m_data x)) = 0) as Hpad0.
  { intros Hlt. rewrite HD, Z.min_r by lia. unfold push_padding, MIN_WORD_SIZE. by rewrite M3. }
  rewrite u32_small by lia. cbv zeta.
  destruct (Z.ltb_spec (hdr_length (m_hdr x)) paylen); case_z; lia.
Qed.

(** A message that is intact at every load is returned. *)
Lemma pull_hit st paylen hi x :
  msg_ok ctx x -> reads_from st hi -> hi <= length_ ctx -> hi mod 8 = 0 ->
  (forall k, msg_at (area (at_ k)) (hi - msg_size x) x) ->
  (forall k, not_overtaken (pull_rewind ctx st) (hi - msg_size x) (at_ k)) ->
  0 <= paylen < 2 ^ 32 ->
  let n := Z.min paylen (zlen (m_data x)) in
  tracebuf_pull ctx at_ st paylen =
    Some (PullResult 0 (set_current (hi - msg_size x) (pull_rewind ctx st))
            (Some (m_hdr x)) (slice (m_data x) 0 n) n).
Proof.
  intros Hx Hr Hhi Hhi8 Hat Hno Hpay n.
  pose proof (msg_data_range ctx Hctx x Hx) as Hd.
  pose proof (msg_layout ctx Hctx x Hx) as HL.
  pose proof (msg_size_bound ctx Hctx x Hd) as [Hsz Hsz8].
  pose proof (push_padding_range (zlen (m_data x))) as [Hpad _].
  pose proof (ctx_maxsize_bound _ Hctx) as HM. pose proof (ctx_length _ Hctx) as Hlen.
  destruct (Hat 0%nat) as (Hlo & _).
  assert (0 < hi) as Hhi0 by lia.
  destruct (pull_rewind_at st hi Hhi0 Hr) as (E1 & _).
  assert (word_at hi (msg_size x)) as Hword.
  { unfold word_at. replace (hi - 8) with (hi - msg_size x + msg_size x - 8) by lia.
    rewrite (msg_size_word ctx Hctx x _ _ Hx (Hat 0%nat)), le_dec_enc.
    apply Z.mod_small. cbn. lia. }
  rewrite (pull_steps st paylen hi (msg_size x)) by (done || lia).
  cbv zeta. set (st1 := pull_rewind ctx st) in *.
  rewrite (overtaken_no st1 8 _ hi); [|done|lia|].
  2: { destruct (Hno 1%nat) as [N1 N2]. split; [done|]. intros Hc. specialize (N2 Hc). lia. }
  cbn [Z.eqb negb]. destruct (Z.eqb_spec (msg_size x) 0); [lia|].
  rewrite size_word_field by lia. change MIN_WORD_SIZE with 8. rewrite Hsz8. cbn [Z.eqb negb].
  unfold sizeof_tracehdr.
  destruct (Z.ltb_spec (msg_size x) (8 + 24)); [lia|].
  destruct (Z.ltb_spec (8 + 24 + maxsize_ ctx) (msg_size x)); [lia|].
  unfold pull_copy, sizeof_tracehdr, load.
  pose proof (ctx_end _ Hctx). pose proof (ctx_top _ Hctx). pose proof (ctx_begin _ Hctx).
  rewrite (u64_small (begin_ ctx + hi - 8 - 24)) by lia.
  destruct (Z.ltb_spec (begin_ ctx + hi - 8 - 24) (begin_ ctx)); [lia|].
  pose proof (Harea 2%nat) as A2. pose proof (Harea 3%nat) as A3.
  rewrite mem_read_Some by lia. cbn [mbind option_bind].
  replace (begin_ ctx + hi - 8 - 24 - begin_ ctx)
    with (hi - msg_size x + msg_size x - 32) by lia.
  rewrite (msg_hdr_bytes ctx Hctx x _ _ Hx (Hat 2%nat)), hdr_dec_enc by apply Hx.
  rewrite (u64_small (msg_size x - 8 - 24)) by lia.
  rewrite (u64_small (begin_ ctx + hi - 8 - 24 - _)) by lia.
  destruct (Z.ltb_spec (begin_ ctx + hi - 8 - 24 - (msg_size x - 8 - 24)) (begin_ ctx)); [lia|].
  pose proof (pulled_length x paylen Hx Hpay) as Hpl. cbv zeta in Hpl.
  cbv zeta. rewrite Hpl. fold n.
  assert (0 <= n <= zlen (m_data x)) as Hn by lia.
  replace (begin_ ctx + hi - 8 - 24 - (msg_size x - 8 - 24)) with (begin_ ctx + (hi - msg_size x)) by lia.
  replace (begin_ ctx + (hi - msg_size x) - begin_ ctx) with (hi - msg_size x) by lia.
  assert ((if 0 <? n then mem_read (area (at_ 3%nat)) (hi - msg_size x) n else Some [])
          = Some (slice (m_data x) 0 n)) as ->.
  { destruct (Z.ltb_spec 0 n); [|by replace n with 0 by lia].
    rewrite mem_read_Some by lia.
    by rewrite (msg_payload ctx Hctx x _ _ Hx (Hat 3%nat)) by lia. }
  cbn [mbind option_bind].
  rewrite (overtaken_no st1 (msg_size x) _ hi); [|done|lia|apply Hno].
  cbn [Z.eqb negb]. rewrite E1, u64_small by lia. done.
Qed.
End pull_one.

(** ** The contents of a buffer

    Between two pushes the area holds the current lap, from the reserve index
    [p] down to 0, and what is left of the previous lap above [p]. Messages are
    listed newest first. *)
Section contents.
Context (ctx : tracectx).
Hypothesis Hctx : ctx_ok ctx.

Inductive lap_cur (a : list Z) : Z -> list msg -> Prop :=
  | cur_nil : lap_cur a 0 []
  | cur_cons hi x ms :
      hi mod 8 = 0 -> msg_ok ctx x -> msg_at a (hi - msg_size x) x ->
      lap_cur a (hi - msg_size x) ms -> lap_cur a hi (x :: ms).

(** [low] is the reserve index: below it the previous lap is overwritten. *)
Inductive lap_old (a : list Z) (low : Z) : Z -> list msg -> Prop :=
  | old_stop hi : 8 <= hi -> hi mod 8 = 0 -> hi - 8 < low -> lap_old a low hi []
  | old_empty hi : 8 <= hi -> hi mod 8 = 0 ->
      slice a (hi - 8) 8 = le_enc 8 0 -> lap_old a low hi []
  | old_cut hi w : hi mod 8 = 0 -> 32 <= w <= 32 + maxsize_ ctx -> w mod 8 = 0 ->
      0 <= hi - w < low -> slice a (hi - 8) 8 = le_enc 8 w -> lap_old a low hi []
  | old_cons hi x ms :
      hi mod 8 = 0 -> msg_ok ctx x -> msg_at a (hi - msg_size x) x ->
      low <= hi - msg_size x -> lap_old a low (hi - msg_size x) ms ->
      lap_old a low hi (x :: ms).

(** The previous lap starts at the end of the area, or below a skip word. *)
Definition upper (a : list Z) (p : Z) (old : list msg) : Prop :=
  lap_old a p (length_ ctx) old \/
  exists hi, 0 < hi < length_ ctx /\ p <= length_ ctx - 8 /\ hi mod 8 = 0 /\
    slice a (length_ ctx - 8) 8 = skip_word (length_ ctx - hi) /\ lap_old a p hi old.

Record contents (m : tbmem) (wc p : Z) (cur old : list msg) : Prop := {
  cont_idle : idle ctx wc p m;
  cont_cur : lap_cur (area m) p cur;
  cont_upper : upper (area m) p old;
}.

Definition agree (a a' : list Z) (lo hi : Z) : Prop :=
  zlen a' = zlen a /\
  forall off len, lo <= off -> 0 <= len -> off + len <= hi -> slice a' off len = slice a off len.

Lemma agree_sub a a' lo hi lo' hi' :
  agree a a' lo hi -> lo <= lo' -> hi' <= hi -> agree a a' lo' hi'.
Proof. intros [L H] ? ?. split; [done|]. intros. apply H; lia. Qed.

Lemma msg_size_pos x : msg_ok ctx x -> 32 <= msg_size x.
Proof. intros Hx. pose proof (msg_size_bound ctx Hctx x (msg_data_range ctx Hctx x Hx)). lia. Qed.

Lemma msg_at_agree a a' lo x : msg_ok ctx x ->
  agree a a' lo (lo + msg_size x) -> msg_at a lo x -> msg_at a' lo x.
Proof.
  intros Hx%msg_size_pos [L H] (H1 & H2 & H3). split_and!; [done|lia|]. rewrite H; [done|lia..].
Qed.

(** The messages of the current lap are not touched by a push above them. *)
Lemma lap_cur_agree a a' hi ms : agree a a' 0 hi -> lap_cur a hi ms -> lap_cur a' hi ms.
Proof.
  intros Hag H. induction H as [|hi x ms H8 Hx Hat H IH]; constructor; try done.
  - destruct Hat as (H1 & H2 & H3). pose proof (msg_size_pos x Hx).
    eapply msg_at_agree; [done| |by split_and!].
    eapply agree_sub; [exact Hag|lia..].
  - apply IH. pose proof (msg_size_pos x Hx). eapply agree_sub; [exact Hag|lia..].
Qed.

(** A message whose first bytes are overwritten ends the lap. *)
Lemma lap_old_cut a a' low hi x : msg_ok ctx x -> hi mod 8 = 0 ->
  msg_at a (hi - msg_size x) x -> agree a a' low hi -> hi - msg_size x < low ->
  lap_old a' low hi [].
Proof.
  intros Hx H8 Hat [L Hag] Hlow. pose proof (msg_size_pos x Hx).
  destruct (msg_size_bound ctx Hctx x (msg_data_range ctx Hctx x Hx)) as [Hs Hs8].
  pose proof Hat as (H1 & H2 & H3).
  destruct (Z.ltb_spec (hi - 8) low); [apply old_stop; try done; lia|].
  apply (old_cut _ _ _ (msg_size x)); try done.
  rewrite Hag by lia. rewrite <- (msg_size_word ctx Hctx x a _ Hx Hat). f_equal. lia.
Qed.

Lemma lap_old_shrink a a' low low' hi ms :
  lap_old a low hi ms -> low <= low' -> agree a a' low' hi ->
  exists k, lap_old a' low' hi (take k ms).
Proof.
  intros H Hl Hag. induction H as [hi|hi|hi w|hi x ms H8 Hx Hat Hlo H IH].
  - exists 0%nat. apply old_stop; try done. lia.
  - exists 0%nat. destruct (Z.ltb_spec (hi - 8) low'); [by apply old_stop|].
    apply old_empty; try done. by rewrite (proj2 Hag) by lia.
  - exists 0%nat. destruct (Z.ltb_spec (hi - 8) low'); [apply old_stop; try done; lia|].
    apply (old_cut _ _ _ w); try done; [lia|]. by rewrite (proj2 Hag) by lia.
  - destruct (Z.ltb_spec (hi - msg_size x) low') as [Hc|Hc].
    { exists 0%nat. by apply (lap_old_cut a a' low' hi x). }
    pose proof (msg_size_pos x Hx).
    destruct IH as [k IH]; [eapply agree_sub; [exact Hag|lia..]|].
    exists (S k). cbn [take]. apply old_cons; try done.
    eapply msg_at_agree; [done| |exact Hat]. eapply agree_sub; [exact Hag|lia..].
Qed.

(** After a wrap the current lap is the previous one. *)
Lemma lap_cur_old a a' low hi ms :
  lap_cur a hi ms -> 0 < low -> 0 < hi -> agree a a' low hi ->
  exists k, lap_old a' low hi (take k ms).
Proof.
  intros H Hl Hhi Hag. induction H as [|hi x ms H8 Hx Hat H IH]; [lia|].
  destruct (Z.ltb_spec (hi - msg_size x) low) as [Hc|Hc].
  { exists 0%nat. by apply (lap_old_cut a a' low hi x). }
  pose proof (msg_size_pos x Hx).
  destruct IH as [k IH]; [lia|eapply agree_sub; [exact Hag|lia..]|].
  exists (S k). cbn [take]. apply old_cons; try done.
  eapply msg_at_agree; [done| |exact Hat]. eapply agree_sub; [exact Hag|lia..].
Qed.

Lemma splice_agree_below (a bs : list Z) off lo hi :
  0 <= off -> off + zlen bs <= zlen a -> 0 <= lo -> hi <= off -> agree a (splice a off bs) lo hi.
Proof.
  intros. split; [by apply zlen_splice|]. pose proof (zlen_nonneg bs).
  intros. apply slice_splice_disj; lia.
Qed.

Lemma splice_agree_above (a bs : list Z) off lo hi :
  0 <= off -> off + zlen bs <= lo -> hi <= zlen a -> off + zlen bs <= zlen a ->
  agree a (splice a off bs) lo hi.
Proof.
  intros. split; [apply zlen_splice; lia|]. pose proof (zlen_nonneg bs).
  intros. apply slice_splice_disj; lia.
Qed.

Lemma agree_trans a b c lo hi : agree a b lo hi -> agree b c lo hi -> agree a c lo hi.
Proof.
  intros [L1 H1] [L2 H2]. split; [congruence|]. intros. rewrite H2 by done. by apply H1.
Qed.

Lemma msg_at_splice a lo x : msg_ok ctx x -> 0 <= lo -> lo + msg_size x <= zlen a ->
  msg_at (splice a lo (msg_bytes x)) lo x.
Proof.
  intros Hx H0 H1. pose proof (msg_data_range ctx Hctx x Hx).
  pose proof (ctx_maxsize_bound _ Hctx). pose proof (ctx_length _ Hctx).
  assert (zlen (msg_bytes x) = msg_size x) as E by (apply zlen_msg_bytes; lia).
  split_and!; [done|rewrite zlen_splice; lia|].
  rewrite <- E. apply slice_splice_same; lia.
Qed.

Lemma lap_cur_single a x : msg_ok ctx x -> msg_at a 0 x -> lap_cur a (msg_size x) [x].
Proof.
  intros Hx Hat. destruct (msg_size_bound ctx Hctx x (msg_data_range ctx Hctx x Hx)) as [_ H8].
  constructor; rewrite ?Z.sub_diag; try done. constructor.
Qed.

(** The message fits above [p]: the old lap shrinks. *)
Lemma push_fits m wc p cur old x :
  contents m wc p cur old -> msg_ok ctx x -> p + msg_size x <= length_ ctx ->
  exists k, contents (pushed ctx wc p x m) wc (p + msg_size x) (x :: cur) (take k old).
Proof.
  intros [Hi Hcur Hup] Hx Hfit. pose proof Hi as [Hpos Hp Hp8 Ha Hq].
  pose proof (msg_data_range ctx Hctx x Hx) as Hd.
  destruct (msg_size_bound ctx Hctx x Hd) as [Hs Hs8].
  pose proof (ctx_maxsize_bound _ Hctx). pose proof (ctx_length _ Hctx).
  assert (zlen (msg_bytes x) = msg_size x) as E by (apply zlen_msg_bytes; lia).
  unfold pushed. destruct (Z.ltb_spec (length_ ctx) (p + msg_size x)); [lia|].
  set (a' := splice (area m) p (msg_bytes x)).
  assert (agree (area m) a' (p + msg_size x) (length_ ctx)) as Hag
    by (apply splice_agree_above; lia).
  assert (exists k, upper a' (p + msg_size x) (take k old)) as [k Hk].
  { destruct Hup as [Hup|(hi & Hhi & Hpl & H8 & Hsk & Hup)].
    - destruct (lap_old_shrink _ a' _ (p + msg_size x) _ _ Hup) as [k Hk]; [lia|done|].
      exists k. by left.
    - destruct (Z.ltb_spec (length_ ctx - 8) (p + msg_size x)).
      { exists 0%nat. left. apply old_stop; [lia|apply Hctx|lia]. }
      destruct (lap_old_shrink _ a' _ (p + msg_size x) _ _ Hup) as [k Hk]; [lia| |].
      { eapply agree_sub; [exact Hag|lia..]. }
      exists k. right. exists hi. split_and!; try done; try lia.
      by rewrite (proj2 Hag) by lia. }
  exists k. constructor; cbn [area].
  - constructor; cbn; try done; try lia; [by apply mod8_add|by rewrite <- Ha; apply Hag|].
    apply u64_range.
  - constructor; [by apply mod8_add|done| |].
    + replace (p + msg_size x - msg_size x) with p by lia. apply msg_at_splice; done || lia.
    + replace (p + msg_size x - msg_size x) with p by lia.
      eapply lap_cur_agree; [|exact Hcur]. apply splice_agree_below; lia.
  - exact Hk.
Qed.

(** It does not: the writer wraps, and the current lap becomes the old one. *)
Lemma push_wraps m wc p cur old x :
  contents m wc p cur old -> msg_ok ctx x -> length_ ctx < p + msg_size x ->
  exists k, contents (pushed ctx wc p x m) (wc + 1) (msg_size x) [x] (take k cur).
Proof.
  intros [Hi Hcur _] Hx Hfit. pose proof Hi as [Hpos Hp Hp8 Ha Hq].
  pose proof (msg_data_range ctx Hctx x Hx) as Hd.
  destruct (msg_size_bound ctx Hctx x Hd) as [Hs Hs8].
  pose proof (ctx_maxsize_bound _ Hctx). pose proof (ctx_length _ Hctx).
  pose proof (ctx_length_align _ Hctx) as HL8.
  assert (zlen (msg_bytes x) = msg_size x) as E by (apply zlen_msg_bytes; lia).
  unfold pushed. destruct (Z.ltb_spec (length_ ctx) (p + msg_size x)); [|lia].
  set (a1 := splice (area m) 0 (msg_bytes x)).
  assert (zlen a1 = length_ ctx) as L1 by (unfold a1; rewrite zlen_splice; lia).
  assert (agree (area m) a1 (msg_size x) (length_ ctx)) as Hag1
    by (apply splice_agree_above; lia).
  assert (msg_at a1 0 x) as Hat1 by (apply msg_at_splice; done || lia).
  set (a' := if p <? length_ ctx then _ else a1).
  assert (zlen (skip_word (length_ ctx - p)) = 8) as Lk by apply zlen_le_enc.
  assert (agree a1 a' 0 p /\ agree a1 a' 0 (msg_size x) /\
    (p < length_ ctx -> p <= length_ ctx - 8 /\
      slice a' (length_ ctx - 8) 8 = skip_word (length_ ctx - p))) as (Hag2 & Hag3 & Hsk).
  { unfold a'. destruct (Z.ltb_spec p (length_ ctx)); [|by split_and!; [..|lia]].
    assert (p <= length_ ctx - 8) by dlia.
    split; [|split]; [apply splice_agree_below; lia..|]. intros _. split; [done|].
    rewrite <- Lk at 2. apply slice_splice_same; lia. }
  destruct (lap_cur_old (area m) a' (msg_size x) p cur Hcur) as [k Hk]; [lia|lia| |].
  { eapply agree_trans; [eapply agree_sub; [exact Hag1|lia..]|].
    eapply agree_sub; [exact Hag2|lia..]. }
  exists k. constructor; cbn [area].
  - constructor; cbn; try done; try lia; [|apply u64_range].
    destruct Hag2 as [-> _]. done.
  - apply lap_cur_single; [done|]. eapply msg_at_agree; [done| |exact Hat1]. exact Hag3.
  - destruct (Z.ltb_spec p (length_ ctx)) as [Hlt|]; [|left; by replace (length_ ctx) with p by lia].
    destruct (Hsk Hlt) as [Hp8' Hw]. right. exists p. split_and!; try done; lia.
Qed.

(** A push makes its message the newest and may drop the oldest ones. *)
Lemma push_contents m wc p cur old h payload paylen :
  contents m wc p cur old -> 0 <= paylen <= zlen payload -> paylen < 2 ^ 32 ->
  0 <= params h < 2 ^ 64 -> 0 <= reserved h < 2 ^ 32 ->
  let h' := Hdr (params h) (seqid (shared m)) paylen (reserved h) in
  exists m' wc' p' cur' old' k,
    tracebuf_push ctx h payload paylen m = Some (h', m') /\
    contents m' wc' p' cur' old' /\
    cur' ++ old' = Msg h' (stored ctx payload paylen) :: take k (cur ++ old) /\
    seqid (shared m') = u64 (seqid (shared m) + 1).
Proof.
  intros Hc Hpay Hpay2 Hparams Hres h'. pose proof (cont_idle _ _ _ _ _ Hc) as Hi.
  rewrite (tracebuf_push_result ctx Hctx h payload paylen wc p m Hi Hpay). fold h'.
  set (x := Msg h' (stored ctx payload paylen)).
  assert (msg_ok ctx x) as Hx.
  { destruct (stored_length ctx Hctx _ _ Hpay) as [_ HL]. split; cbn.
    - constructor; cbn; [done|by apply Hi|lia|done].
    - rewrite HL. case_z; lia. }
  assert (seqid (shared (pushed ctx wc p x m)) = u64 (seqid (shared m) + 1)) as Hseq
    by (unfold pushed; by destruct (_ <? _)).
  destruct (Z.ltb_spec (length_ ctx) (p + msg_size x)) as [Hw|Hf].
  - destruct (push_wraps m wc p cur old x Hc Hx Hw) as [k Hk].
    exists (pushed ctx wc p x m), (wc + 1), (msg_size x), [x], (take k cur),
      (Nat.min k (length cur)).
    split_and!; try done. cbn. f_equal. rewrite take_app_le by lia.
    rewrite <- take_take. by rewrite (firstn_all cur).
  - destruct (push_fits m wc p cur old x Hc Hx Hf) as [k Hk].
    exists (pushed ctx wc p x m), wc, (p + msg_size x), (x :: cur), (take k old),
      (length cur + k)%nat.
    split_and!; try done. cbn. f_equal. by rewrite take_app_add.
Qed.

(** What a reader at [st] has still to see, in a buffer nobody is writing. *)
Inductive shows (m : tbmem) (wc p : Z) : pullstate -> list msg -> Prop :=
  | shows_cur hi cur old :
      lap_cur (area m) hi cur -> 0 <= hi <= p -> upper (area m) p old ->
      shows m wc p (Pull (wc mod 2 ^ 16) hi false false) (cur ++ old)
  | shows_old hi ms :
      8 <= hi <= length_ ctx -> lap_old (area m) p hi ms ->
      shows m wc p (Pull (wc mod 2 ^ 16) hi true false) ms.

Lemma pull_init_shows m wc p cur old :
  contents m wc p cur old -> shows m wc p (pull_init ctx m) (cur ++ old).
Proof.
  intros [Hi Hcur Hup]. destruct Hi. unfold pull_init. rewrite idle_position0.
  pose proof (ctx_length _ Hctx).
  rewrite GET_VALID_pack, GET_WRAPCNT_pack, GET_RESERVE_pack, Z.ltb_irrefl by lia.
  apply shows_cur; try done. lia.
Qed.

(** The outcome of a pull that has [ms] to read. *)
Definition outcome (m : tbmem) (wc p paylen : Z) (ms : list msg) (r : pull_result) : Prop :=
  match ms with
  | [] => ret r = - ENOBUFS
  | x :: ms =>
      let n := Z.min paylen (zlen (m_data x)) in
      ret r = 0 /\ hdr_out r = Some (m_hdr x) /\
      payload_out r = slice (m_data x) 0 n /\ paylen_out r = n /\
      shows m wc p (st_out r) ms
  end.

Lemma pull_cut (at_ : nat -> tbmem) st paylen hi w low :
  (forall k, zlen (area (at_ k)) = length_ ctx) ->
  current st = hi -> wrapped st = true -> hi <= length_ ctx ->
  32 <= w <= 32 + maxsize_ ctx -> 0 <= hi - w < low ->
  (forall k, GET_RESERVE (position (shared (at_ k))) = low) ->
  exists r, pull_copy ctx at_ st paylen (begin_ ctx + hi - 8) w = Some r /\ ret r = - ENOBUFS.
Proof.
  intros Ha Hc Hwr Hhi Hw Hlo Hres. pose proof (ctx_maxsize_bound _ Hctx).
  pose proof (ctx_length _ Hctx). pose proof (ctx_end _ Hctx). pose proof (ctx_top _ Hctx).
  pose proof (ctx_begin _ Hctx). unfold pull_copy, sizeof_tracehdr, load.
  rewrite (u64_small (begin_ ctx + hi - 8 - 24)) by lia.
  destruct (Z.ltb_spec (begin_ ctx + hi - 8 - 24) (begin_ ctx)); [lia|].
  pose proof (Ha 2%nat). pose proof (Ha 3%nat).
  rewrite mem_read_Some by lia. cbn [mbind option_bind].
  rewrite (u64_small (w - 8 - 24)) by lia.
  rewrite (u64_small (begin_ ctx + hi - 8 - 24 - _)) by lia.
  destruct (Z.ltb_spec (begin_ ctx + hi - 8 - 24 - (w - 8 - 24)) (begin_ ctx)); [lia|].
  cbv zeta. set (p1 := if hdr_length _ <? paylen then _ else paylen).
  rewrite (u32_small (w - 8 - 24)) by lia.
  set (n := if w - 8 - 24 <? p1 then w - 8 - 24 else p1).
  assert (n <= w - 8 - 24) as Hn by (unfold n; case_z; lia).
  assert (overtaken st w (at_ 4%nat) = - ENOBUFS) as ->.
  { unfold overtaken. rewrite Hwr, orb_true_r, Hres, Hc, u64_small by lia.
    by destruct (Z.ltb_spec (hi - w) low); [|lia]. }
  cbn [Z.eqb negb Z.opp ENOBUFS].
  destruct (Z.ltb_spec 0 n); [rewrite mem_read_Some by lia|]; cbn [mbind option_bind]; eauto.
Qed.

Lemma zero_word a off : slice a off 8 = le_enc 8 0 -> le_dec (slice a off 8) = 0.
Proof. by intros ->. Qed.

Lemma skip_fields n : 0 <= n < 2 ^ 24 ->
  let w := Z.lor (SET_TOP32 NEXT_DATA_OFF) (SET_LOW32 n) in
  0 < w < 2 ^ 64 /\ GET_TOP32 w = NEXT_DATA_OFF /\ GET_LOW32 w = n.
Proof.
  intros Hn. unfold SET_TOP32, SET_LOW32, GET_LOW32, GET_TOP32, shl64.
  change 0xFFFFFFFF with (Z.ones 32). rewrite !Z.land_ones by lia.
  rewrite (Z.mod_small n) by lia.
  rewrite u64_small by (rewrite Z.shiftl_mul_pow2 by lia; unfold NEXT_DATA_OFF; lia).
  rewrite lor_shiftl_add by lia. unfold NEXT_DATA_OFF. cbv zeta. split; [lia|]. split.
  - rewrite Z.shiftr_div_pow2, Z.div_add_l, Z.div_small by lia. done.
  - rewrite Z.add_comm, Z.mod_add, Z.mod_small by lia. done.
Qed.

Section idle_reader.
Context (m : tbmem) (wc p : Z).
Hypothesis Hidle : idle ctx wc p m.
Let at_ : nat -> tbmem := fun _ => m.
Let wcm := wc mod 2 ^ 16.

Lemma idle_fields : zlen (area m) = length_ ctx /\
  GET_RESERVE (position (shared m)) = p /\ GET_WRAPCNT (position (shared m)) = wcm.
Proof.
  destruct Hidle. pose proof (ctx_length _ Hctx). rewrite idle_position0.
  rewrite GET_RESERVE_pack, GET_WRAPCNT_pack by lia. done.
Qed.

(** Reading down the previous lap. *)
Lemma old_pull st hi ms paylen :
  lap_old (area m) p hi ms -> 8 <= hi <= length_ ctx ->
  reads_from ctx st hi -> pull_rewind ctx st = Pull wcm hi true false ->
  0 <= paylen < 2 ^ 32 ->
  exists r, tracebuf_pull ctx at_ st paylen = Some r /\ outcome m wc p paylen ms r.
Proof.
  intros Hlap Hhi Hst Hrw Hpay. destruct idle_fields as (Ha & Hr & Hw).
  assert (forall k, zlen (area (at_ k)) = length_ ctx) as HA by done.
  pose proof (ctx_length _ Hctx). pose proof (idle_p _ _ _ _ Hidle) as Hp.
  assert (forall n, 0 <= hi - n -> hi - n < p ->
    overtaken (Pull wcm hi true false) n m = - ENOBUFS) as Hov.
  { intros n ? ?. unfold overtaken. cbn. rewrite Hr, u64_small by lia.
    by destruct (Z.ltb_spec (hi - n) p); [|lia]. }
  assert (p <= hi - 8 -> overtaken (Pull wcm hi true false) 8 m = 0) as Hno.
  { intros ?. apply (overtaken_no _ _ _ hi); [done|lia|]. split; [symmetry; exact Hw|].
    intros _. lia. }
  assert (hi mod 8 = 0) as H8 by (by destruct Hlap).
  pose proof (pull_steps ctx at_ Hctx HA st paylen hi _ Hst Hhi H8 eq_refl) as Hsteps.
  cbv zeta in Hsteps. rewrite Hrw in Hsteps.
  change (at_ 1%nat) with m in Hsteps. change (at_ 0%nat) with m in Hsteps.
  destruct (Z.ltb_spec (hi - 8) p) as [Hlt|Hge].
  { rewrite Hov in Hsteps by lia. cbn [Z.eqb negb Z.opp ENOBUFS] in Hsteps.
    eexists. split; [exact Hsteps|].
    destruct Hlap as [| | |hi x ms ? Hx]; try done. pose proof (msg_size_pos x Hx). lia. }
  rewrite Hno in Hsteps by lia. cbn [Z.eqb negb] in Hsteps.
  destruct Hlap as [hi|hi _ _ Hz|hi w _ Hwr Hw8 Hlo Hword|hi x ms _ Hx Hat Hlo Hlap].
  - lia.
  - rewrite (zero_word _ _ Hz) in Hsteps. eexists. split; [exact Hsteps|done].
  - pose proof (ctx_maxsize_bound _ Hctx).
    rewrite Hword, le_dec_enc, Z.mod_small in Hsteps by (cbn; lia).
    destruct (pull_cut at_ (Pull wcm hi true false) paylen hi w p) as (r & Er & Hret);
      try done; try lia.
    rewrite size_word_field in Hsteps by lia. change MIN_WORD_SIZE with 8 in Hsteps.
    rewrite Hw8 in Hsteps. cbn [Z.eqb negb] in Hsteps. unfold sizeof_tracehdr in Hsteps.
    destruct (Z.eqb_spec w 0); [lia|]. destruct (Z.ltb_spec w (8 + 24)); [lia|].
    destruct (Z.ltb_spec (8 + 24 + maxsize_ ctx) w); [lia|].
    exists r. split; [by rewrite Hsteps|done].
  - pose proof (msg_size_pos x Hx). destruct Hat as (A1 & A2 & A3).
    eexists. split.
    { apply (pull_hit ctx at_ Hctx HA st paylen hi x); try done; try lia.
      intros k. rewrite Hrw. split; [symmetry; exact Hw|]. intros _.
      change (at_ k) with m. lia. }
    cbn [outcome ret hdr_out payload_out paylen_out st_out]. split_and!; try done.
    rewrite Hrw. apply shows_old; [|done].
    assert ((hi - msg_size x) mod 8 = 0) as H8' by (by destruct Hlap).
    assert (0 < hi - msg_size x).
    { destruct Hlap as [| | |? ? ? ? Hy%msg_size_pos]; lia. }
    dlia.
Qed.

Lemma skip_pull st hi paylen :
  0 < hi < length_ ctx -> p <= length_ ctx - 8 ->
  slice (area m) (length_ ctx - 8) 8 = skip_word (length_ ctx - hi) ->
  current st = 0 -> wrapcnt st = wcm -> copos st = false ->
  tracebuf_pull ctx at_ st paylen =
    Some (PullResult (- EAGAIN) (Pull wcm hi true false) None [] paylen).
Proof.
  intros Hhi Hp Hw Hc Hwc Hco. destruct idle_fields as (Ha & Hr & Hwm).
  pose proof (ctx_length _ Hctx). pose proof (idle_p _ _ _ _ Hidle).
  destruct (skip_fields (length_ ctx - hi) ltac:(lia)) as (W1 & W2 & W3).
  set (w := Z.lor _ _) in *.
  rewrite (pull_steps ctx at_ Hctx (fun _ => Ha) st paylen (length_ ctx) w).
  2: by right.
  2: lia.
  2: apply Hctx.
  2: { unfold word_at. change (at_ 0%nat) with m. rewrite Hw. unfold skip_word. fold w.
       rewrite le_dec_enc. apply Z.mod_small. cbn. lia. }
  assert (pull_rewind ctx st = Pull wcm (length_ ctx) true false) as ->
    by (unfold pull_rewind; by rewrite Hc, Hwc, Hco).
  cbv zeta. rewrite (overtaken_no _ 8 _ (length_ ctx)); [|done|lia|].
  2: { split; [symmetry; exact Hwm|]. intros _. change (at_ 1%nat) with m. lia. }
  cbn [Z.eqb negb]. destruct (Z.eqb_spec w 0); [lia|].
  rewrite W2, Z.eqb_refl, W3, u64_small by lia.
  unfold set_current. cbn. do 3 f_equal. lia.
Qed.

(** One pull: the newest message not yet seen, or the hop over the end of
    the area after which there is no second hop. *)
Lemma shows_pull st ms paylen :
  shows m wc p st ms -> 0 <= paylen < 2 ^ 32 ->
  exists r, tracebuf_pull ctx at_ st paylen = Some r /\
    (outcome m wc p paylen ms r \/
     (ret r = - EAGAIN /\ payload_out r = [] /\
      exists r', tracebuf_pull ctx at_ (st_out r) paylen = Some r' /\
        outcome m wc p paylen ms r')).
Proof.
  intros Hsh Hpay. destruct idle_fields as (Ha & Hr & Hw).
  pose proof (ctx_length _ Hctx) as HL. pose proof (idle_p _ _ _ _ Hidle) as Hp.
  destruct Hsh as [hi cur old Hcur Hhi Hup|hi ms Hhi Hlap].
  - destruct Hcur as [|hi x ms H8 Hx Hat Hcur].
    + destruct Hup as [Hlap|(hi & Hhi' & Hpl & H8 & Hsk & Hlap)].
      * destruct (old_pull (Pull wcm 0 false false) (length_ ctx) old paylen Hlap)
          as (r & Er & Ho); try done; [lia|by right|]. eauto.
      * eexists. split; [by apply (skip_pull _ hi)|]. right. split; [done|]. split; [done|].
        destruct (old_pull (Pull wcm hi true false) hi old paylen Hlap)
          as (r & Er & Ho); try done; [split; [dlia|lia]|by left| |].
        { unfold pull_rewind. cbn. by destruct (Z.eqb_spec hi 0); [lia|]. }
        exists r. done.
    + pose proof (msg_size_pos x Hx). destruct (Hat) as (A1 & A2 & A3).
      assert (pull_rewind ctx (Pull wcm hi false false) = Pull wcm hi false false) as Hrw
        by (unfold pull_rewind; cbn; by destruct (Z.eqb_spec hi 0); [lia|]).
      eexists. split.
      { apply (pull_hit ctx at_ Hctx (fun _ => Ha) _ paylen hi x); try done; [by left|lia|].
        intros k. fold wcm. rewrite Hrw. split; [symmetry; exact Hw|done]. }
      left. cbn [outcome app ret hdr_out payload_out paylen_out st_out]. split_and!; try done.
      fold wcm. rewrite Hrw. apply shows_cur; try done. lia.
  - destruct (old_pull (Pull wcm hi true false) hi ms paylen Hlap) as (r & Er & Ho);
      try done; [by left| |eauto].
    unfold pull_rewind. cbn. by destruct (Z.eqb_spec hi 0); [lia|].
Qed.
End idle_reader.

(** A fresh buffer is empty. *)
Lemma init_contents buffer len m :
  0 <= buffer -> 0 <= len < 2 ^ 32 -> buffer + len < 2 ^ 64 ->
  fill_context buffer len = inr ctx -> zlen (area m) = length_ ctx ->
  exists m', tracebuf_init buffer len m = Some (inr ctx, m') /\
    contents m' 0 0 [] [] /\ seqid (shared m') = 1 /\
    version (shared m') = TRACE_VERSION /\ tb_length (shared m') = length_ ctx /\
    tb_maxsize (shared m') = maxsize_ ctx /\ (bytes_ok (area m) -> bytes_ok (area m')).
Proof.
  intros Hb Hl Ht E Ha. pose proof (ctx_length _ Hctx) as HL. unfold tracebuf_init. rewrite E.
  assert (zlen (fill (length_ ctx) 0) = length_ ctx) as Hf by (apply zlen_fill; lia).
  unfold mbind, M_bind, get, checked, modify. rewrite mem_write_Some by lia.
  eexists. split; [reflexivity|]. split_and!; try done;
    [|intros Hok; by apply splice_bytes_ok, fill_bytes_ok]. split; cbn [area shared].
  - constructor; cbn; try done; [lia|]. rewrite zlen_splice; lia.
  - constructor.
  - left. apply old_empty; [lia|apply Hctx|].
    assert (splice (area m) 0 (fill (length_ ctx) 0) = fill (length_ ctx) 0) as ->.
    { set (f := fill _ _) in *. rewrite <- (slice_all (splice _ _ _)).
      rewrite zlen_splice, Ha, <- Hf by lia. apply slice_splice_same; lia. }
    unfold slice, fill. rewrite drop_replicate, take_replicate.
    replace (Z.to_nat 8 `min` _)%nat with 8%nat by lia. done.
Qed.
End contents.

(** ** Examples: a buffer of 1 KiB, empty, and with one message of three bytes *)

Definition ex_buffer : Z := 2 ^ 40.
Definition ex_ctx : tracectx := Ctx (ex_buffer + 32) (ex_buffer + 1056) 1024 40.
Definition ex_mem : tbmem := Mem (Tracebuf TRACE_VERSION 0 1 1024 40) (fill 1024 0).
Definition ex_msg : msg := Msg (Hdr 7 1 3 5) [1; 2; 3].
Definition ex_mem1 : tbmem :=
  match tracebuf_push ex_ctx (Hdr 7 0 0 5) [1; 2; 3] 3 ex_mem with
  | Some (_, m) => m | None => ex_mem end.

Lemma ex_ctx_ok : ctx_ok ex_ctx.
Proof. split; vm_compute; (done || split; done). Qed.

Lemma ex_addr_room : addr_room ex_ctx.
Proof. split; vm_compute; done. Qed.

Lemma ex_mem_ok : mem_ok ex_ctx ex_mem.
Proof. split; [reflexivity|apply bytes_ok_dec; reflexivity]. Qed.

Lemma ex_mem1_ok : mem_ok ex_ctx ex_mem1.
Proof. split; [reflexivity|apply bytes_ok_dec; vm_compute; reflexivity]. Qed.

Lemma ex_msg_ok : msg_ok ex_ctx ex_msg.
Proof. split; [split; cbn; lia|reflexivity]. Qed.

Lemma ex_contents : contents ex_ctx ex_mem1 0 40 [ex_msg] [].
Proof.
  split.
  - split; try (vm_compute; done); cbn; lia.
  - apply (cur_cons _ _ 40 ex_msg []); [done|exact ex_msg_ok| |apply cur_nil].
    split_and!; vm_compute; done.
  - left. apply old_empty; [cbn; lia|done|vm_compute; done].
Qed.

Lemma fill_context_accepts_witness : exists ctx, fill_context ex_buffer 1056 = inr ctx.
Proof.
  apply (fill_context_accepts ex_buffer 1056); [by vm_compute|lia|].
  split_and!; by vm_compute.
Defined.

Lemma tracebuf_pull_safe_witness : exists r,
  tracebuf_pull ex_ctx (fun _ => ex_mem1) (pull_init ex_ctx ex_mem1) 40 = Some r /\
  pull_result_ok 40 r.
Proof.
  apply tracebuf_pull_safe; [exact ex_ctx_ok|exact ex_addr_room|intros _; exact ex_mem1_ok| |lia].
  exists 40. split; [vm_compute; reflexivity|lia].
Defined.

Lemma hdr_round_trip_witness : hdr_dec (hdr_enc (m_hdr ex_msg)) = m_hdr ex_msg.
Proof. apply hdr_round_trip. exact (msg_ok_hdr _ _ ex_msg_ok). Defined.
