(* ===== verification/TracebufConc.v ===== *)
(** * A trace buffer under a concurrent writer

    The writer of [Tracebuf] as a step relation: a push reserves space, stores
    its bytes in any number of steps and in any order, and publishes. A reader
    whose loads fall anywhere between these steps either reports that it was
    overtaken or returns what an atomic pull would have returned at the moment
    of its [pull_init]. The copies of a pull are not atomic: each byte may be
    loaded at a moment of its own ([sees]). *)

From S2P Require Import Prelude Tracebuf.

(** The writer in the middle of its work: [wraps] is the number of laps, not
    reduced to 16 bits; [filling] is the size of the message being stored and
    whether its reservation wrapped. *)
Record writer := Writer {
  w_mem : tbmem;
  wraps : Z;
  w_reserve : Z;
  w_valid : Z;
  filling : option (Z * bool);
}.

Section steps.
Context (ctx : tracectx).
Hypothesis Hctx : ctx_ok ctx.

(** Bytes [lo, hi) are the same. *)
Definition same (a a' : list Z) (lo hi : Z) : Prop :=
  0 <= lo -> lo <= hi -> slice a' lo (hi - lo) = slice a lo (hi - lo).

Inductive wstep : writer -> writer -> Prop :=
  | ws_seqid w id :
      wstep w (Writer (Mem (let s := shared (w_mem w) in
                            Tracebuf (version s) (position s) id (tb_length s) (tb_maxsize s))
                           (area (w_mem w)))
                      (wraps w) (w_reserve w) (w_valid w) (filling w))
  | ws_reserve m n p size :
      32 <= size <= 32 + maxsize_ ctx -> size mod 8 = 0 -> p + size <= length_ ctx ->
      wstep (Writer m n p p None)
            (Writer (at_position m (pack n (p + size) p)) n (p + size) p (Some (size, false)))
  | ws_reserve_wrap m n p size :
      32 <= size <= 32 + maxsize_ ctx -> size mod 8 = 0 -> length_ ctx < p + size ->
      wstep (Writer m n p p None)
            (Writer (at_position m (pack (n + 1) size p)) (n + 1) size p (Some (size, true)))
  | ws_fill m n r v size wr a' :
      zlen a' = zlen (area m) ->
      (forall lo hi, hi <= r - size \/ r <= lo ->
         hi <= length_ ctx - 8 \/ wr = false \/ v = length_ ctx -> hi <= length_ ctx ->
         same (area m) a' lo hi) ->
      wstep (Writer m n r v (Some (size, wr)))
            (Writer (Mem (shared m) a') n r v (Some (size, wr)))
  | ws_publish m n r v size wr :
      wstep (Writer m n r v (Some (size, wr)))
            (Writer (at_position m (pack n r r)) n r r None).

Inductive wsteps : writer -> writer -> Prop :=
  | ws_refl w : wsteps w w
  | ws_step w w' w'' : wsteps w w' -> wstep w' w'' -> wsteps w w''.

(** The writer's own invariant. *)
Record writer_ok (w : writer) : Prop := {
  wok_position : position (shared (w_mem w)) = pack (wraps w) (w_reserve w) (w_valid w);
  wok_area : zlen (area (w_mem w)) = length_ ctx;
  wok_reserve : 0 <= w_reserve w <= length_ ctx /\ w_reserve w mod 8 = 0;
  wok_valid : 0 <= w_valid w <= length_ ctx /\ w_valid w mod 8 = 0;
  wok_filling : match filling w with
                | None => w_valid w = w_reserve w
                | Some (size, false) => w_reserve w = w_valid w + size /\ 32 <= size
                | Some (size, true) =>
                    w_reserve w = size /\ 32 <= size <= 32 + maxsize_ ctx /\
                    length_ ctx < w_valid w + size
                end;
}.

Lemma wstep_ok w w' : writer_ok w -> wstep w w' -> writer_ok w'.
Proof.
  intros [H1 H2 [H3 H4] [H5 H6] H7] Hs. pose proof (ctx_maxsize_bound _ Hctx).
  pose proof (ctx_length _ Hctx).
  destruct Hs as [w id|m n p size Hsz Hs8 Hp|m n p size Hsz Hs8 Hp|m n r v size wr a' Hl Ha|];
    cbn in *.
  - constructor; cbn; try done.
  - constructor; cbn; try done; (split; [lia|]); dlia.
  - constructor; cbn; try done; (split; [lia|]); try done; lia.
  - constructor; cbn; try done. lia.
  - constructor; cbn; done.
Qed.

Lemma wsteps_ok w w' : writer_ok w -> wsteps w w' -> writer_ok w'.
Proof. induction 2; eauto using wstep_ok. Qed.

Definition wrap_in_flight (w : writer) : bool :=
  match filling w with Some (_, true) => true | _ => false end.

(** What a reader that starts at [w0] can rely on at a later [w]: as long as
    the writer has not wrapped again, the reserve index only grows, and the
    bytes that are certainly intact are those below the initial valid index
    (when the writer was not wrapping), and those at or above the reserve
    index (below the skip word, if one may be pending). *)
Record since (w0 w : writer) : Prop := {
  since_wraps : wraps w0 <= wraps w;
  since_reserve : wraps w = wraps w0 -> w_reserve w0 <= w_reserve w;
  since_filling : wraps w = wraps w0 ->
    wrap_in_flight w = true -> wrap_in_flight w0 = true /\ w_valid w = w_valid w0;
  since_below : wraps w = wraps w0 -> wrap_in_flight w0 = false ->
    w_valid w0 <= w_valid w /\
    forall lo hi, hi <= w_valid w0 -> same (area (w_mem w0)) (area (w_mem w)) lo hi;
  since_above : wraps w = wraps w0 ->
    forall lo hi, w_reserve w <= lo -> hi <= length_ ctx ->
      hi <= length_ ctx - 8 \/ wrap_in_flight w0 = false \/ w_valid w0 = length_ ctx ->
      same (area (w_mem w0)) (area (w_mem w)) lo hi;
}.

Lemma same_refl a lo hi : same a a lo hi.
Proof. done. Qed.
Lemma same_trans a b c lo hi : same a b lo hi -> same b c lo hi -> same a c lo hi.
Proof. unfold same. intros H1 H2 ? ?. rewrite H2, H1; done. Qed.

Lemma since_refl w : writer_ok w -> since w w.
Proof.
  intros Hw. constructor; try done; intros; try lia; try apply same_refl.
Qed.

Lemma since_step w0 w w' : writer_ok w0 -> writer_ok w -> since w0 w -> wstep w w' -> since w0 w'.
Proof.
  intros H0 Hw [S1 S2 S3 S4 S5] Hs. pose proof (ctx_length _ Hctx).
  pose proof (wok_valid _ H0) as [V0 _]. pose proof (wok_filling _ Hw) as Hfl.
  destruct Hs as [w id|m n p size Hsz Hs8 Hp|m n p size Hsz Hs8 Hp|m n r v size wr a' Hl Ha|
                  m n r v size wr]; cbn in *.
  - constructor; auto.
  - constructor; cbn; try done; intros E; specialize (S2 E); [lia|].
    intros. apply S5; done || lia.
  - constructor; cbn; try done; lia.
  - constructor; cbn; try done; intros E.
    + intros Hn. destruct (S4 E Hn) as [Hv Hb]. split; [done|]. intros lo hi Hhi.
      assert (wr = false) as ->.
      { destruct wr; [|done]. destruct (S3 E eq_refl) as [C _]. congruence. }
      eapply same_trans; [by apply Hb|]. apply Ha; [lia|auto|lia].
    + intros lo hi Hlo Hhi Hc. eapply same_trans; [by apply S5|].
      apply Ha; [lia| |done]. destruct wr; [|auto].
      destruct (S3 E eq_refl) as [C ->]. rewrite C in Hc.
      destruct Hc as [Hc|[Hc|Hc]]; [auto|done|auto].
  - constructor; cbn; try done; intros E.
    intros Hn. destruct (S4 E Hn) as [Hv Hb]. split; [|done].
    assert (wr = false) as ->.
    { destruct wr; [|done]. destruct (S3 E eq_refl) as [C _]. congruence. }
    lia.
Qed.

Lemma since_steps w0 w : writer_ok w0 -> wsteps w0 w -> since w0 w.
Proof.
  intros H0 Hs. induction Hs as [w|w w' w'' Hs IH Hst]; [by apply since_refl|].
  eapply since_step; [done| |by apply IH|done]. by eapply wsteps_ok.
Qed.

Lemma wsteps_trans w1 w2 w3 : wsteps w1 w2 -> wsteps w2 w3 -> wsteps w1 w3.
Proof. intros H1 H2. induction H2; eauto using ws_step. Qed.

(** ** Successful pulls *)

(** Everything a pull checks on its way to returning 0. *)
Record pull_succ (at_ : nat -> tbmem) (st : pullstate) (paylen addr off : Z)
    (ob hb out : list Z) (r : pull_result) : Prop := {
  ps_align : addr mod MIN_WORD_SIZE = 0;
  ps_lo : begin_ ctx <= addr;
  ps_hi : u64 (addr + 8) <= end_ ctx;
  ps_word : load ctx (at_ 0%nat) addr 8 = Some ob;
  ps_off : off = le_dec ob;
  ps_over1 : overtaken st 8 (at_ 1%nat) = 0;
  ps_nz : off <> 0;
  ps_skip : GET_TOP32 off <> NEXT_DATA_OFF;
  ps_off8 : off mod MIN_WORD_SIZE = 0;
  ps_off_lo : 8 + sizeof_tracehdr <= off;
  ps_off_hi : off <= 8 + sizeof_tracehdr + maxsize_ ctx;
  ps_hdr_lo : begin_ ctx <= u64 (addr - sizeof_tracehdr);
  ps_hdr : load ctx (at_ 2%nat) (u64 (addr - sizeof_tracehdr)) sizeof_tracehdr = Some hb;
  ps_pay_lo : begin_ ctx <= u64 (u64 (addr - sizeof_tracehdr) - u64 (off - 8 - sizeof_tracehdr));
  ps_over4 : overtaken st off (at_ 4%nat) = 0;
  ps_result :
    let rem := u64 (off - 8 - sizeof_tracehdr) in
    let hl := hdr_length (hdr_dec hb) in
    let n1 := if hl <? paylen then hl else paylen in
    let n := if rem <? n1 then u32 rem else n1 in
    (if 0 <? n then load ctx (at_ 3%nat) (u64 (u64 (addr - sizeof_tracehdr) - rem)) n
     else Some []) = Some out /\
    r = PullResult 0 (set_current (u64 (current st - off)) st) (Some (hdr_dec hb)) out n;
}.

Ltac pull_fails := intros E Hret; injection E as <-; cbn in Hret; (discriminate || congruence).

Lemma pull_succ_of at_ st paylen r :
  tracebuf_pull ctx at_ st paylen = Some r -> ret r = 0 ->
  let st1 := pull_rewind ctx st in
  exists off ob hb out,
    pull_succ at_ st1 paylen (u64 (begin_ ctx + current st1 - 8)) off ob hb out r.
Proof.
  cbv zeta. unfold tracebuf_pull. set (st1 := pull_rewind ctx st).
  set (addr := u64 (begin_ ctx + current st1 - 8)).
  destruct (Z.eqb_spec (addr mod MIN_WORD_SIZE) 0); cbn [negb]; [|pull_fails].
  destruct (Z.ltb_spec addr (begin_ ctx)); cbn [orb]; [pull_fails|].
  destruct (Z.ltb_spec (end_ ctx) (u64 (addr + 8))); [pull_fails|].
  destruct (load ctx (at_ 0%nat) addr 8) as [ob|] eqn:Eo; cbn [mbind option_bind]; [|done].
  destruct (Z.eqb_spec (overtaken st1 8 (at_ 1%nat)) 0); cbn [negb]; [|pull_fails].
  destruct (Z.eqb_spec (le_dec ob) 0); [pull_fails|].
  destruct (Z.eqb_spec (GET_TOP32 (le_dec ob)) NEXT_DATA_OFF); [pull_fails|].
  destruct (Z.eqb_spec (le_dec ob mod MIN_WORD_SIZE) 0); cbn [negb]; [|pull_fails].
  destruct (Z.ltb_spec (le_dec ob) (8 + sizeof_tracehdr)); [pull_fails|].
  destruct (Z.ltb_spec (8 + sizeof_tracehdr + maxsize_ ctx) (le_dec ob)); [pull_fails|].
  unfold pull_copy.
  destruct (Z.ltb_spec (u64 (addr - sizeof_tracehdr)) (begin_ ctx)); [pull_fails|].
  destruct (load ctx (at_ 2%nat) _ _) as [hb|] eqn:Eh; cbn [mbind option_bind]; [|done].
  destruct (Z.ltb_spec (u64 (u64 (addr - sizeof_tracehdr) - u64 (le_dec ob - 8 - sizeof_tracehdr)))
              (begin_ ctx)); [pull_fails|].
  cbv zeta. set (cnt := if u64 (le_dec ob - 8 - sizeof_tracehdr) <? _ then _ else _).
  destruct (if 0 <? cnt then _ else _) as [out|] eqn:Ep; cbn [mbind option_bind]; [|done].
  destruct (Z.eqb_spec (overtaken st1 (le_dec ob) (at_ 4%nat)) 0); cbn [negb]; [|pull_fails].
  intros E _. injection E as <-. exists (le_dec ob), ob, hb, out. by constructor.
Qed.

Lemma pull_of_succ at_ st paylen off ob hb out r :
  let st1 := pull_rewind ctx st in
  pull_succ at_ st1 paylen (u64 (begin_ ctx + current st1 - 8)) off ob hb out r ->
  tracebuf_pull ctx at_ st paylen = Some r.
Proof.
  cbv zeta. unfold tracebuf_pull. set (st1 := pull_rewind ctx st).
  set (addr := u64 (begin_ ctx + current st1 - 8)). intros
    [Pal Plo Phi Pw Poff Po1 Pnz Psk Po8 Pol Poh Phl Ph Ppl Po4 Pr].
  rewrite Pal, Pw. cbn [mbind option_bind Z.eqb negb]. rewrite <- Poff.
  destruct (Z.ltb_spec addr (begin_ ctx)); [lia|]. cbn [orb].
  destruct (Z.ltb_spec (end_ ctx) (u64 (addr + 8))); [lia|].
  rewrite Po1. cbn [Z.eqb negb]. destruct (Z.eqb_spec off 0); [lia|].
  destruct (Z.eqb_spec (GET_TOP32 off) NEXT_DATA_OFF); [done|].
  rewrite Po8. cbn [Z.eqb negb].
  destruct (Z.ltb_spec off (8 + sizeof_tracehdr)); [lia|].
  destruct (Z.ltb_spec (8 + sizeof_tracehdr + maxsize_ ctx) off); [lia|].
  unfold pull_copy.
  destruct (Z.ltb_spec (u64 (addr - sizeof_tracehdr)) (begin_ ctx)); [lia|].
  rewrite Ph. cbn [mbind option_bind].
  destruct (Z.ltb_spec (u64 (u64 (addr - sizeof_tracehdr) - u64 (off - 8 - sizeof_tracehdr)))
              (begin_ ctx)); [lia|].
  cbv zeta in *. destruct Pr as [Hout ->]. rewrite Hout. cbn [mbind option_bind].
  rewrite Po4. done.
Qed.

(** ** Readers *)

(** A reader that called [pull_init] at [w0] and has pulled since. *)
Record reader_at (w0 : writer) (st : pullstate) : Prop := {
  ra_wrapcnt : wrapcnt st = wraps w0 mod 2 ^ 16;
  ra_current : 0 <= current st <= length_ ctx;
  ra_copos : copos st = true ->
    wrapped st = false /\ 0 < current st <= w_valid w0 /\ 0 < w_reserve w0;
  ra_plain : copos st = false -> wrap_in_flight w0 = false /\
    (wrapped st = false -> current st <= w_valid w0);
}.

Lemma position_fields w : writer_ok w ->
  GET_RESERVE (position (shared (w_mem w))) = w_reserve w /\
  GET_VALID (position (shared (w_mem w))) = w_valid w /\
  GET_WRAPCNT (position (shared (w_mem w))) = wraps w mod 2 ^ 16.
Proof.
  intros [-> _ [H1 _] [H2 _] _]. pose proof (ctx_length _ Hctx).
  rewrite GET_RESERVE_pack, GET_VALID_pack, GET_WRAPCNT_pack by lia. done.
Qed.

Lemma pull_init_reader w0 : writer_ok w0 -> reader_at w0 (pull_init ctx (w_mem w0)).
Proof.
  intros Hw. destruct (position_fields w0 Hw) as (E1 & E2 & E3).
  pose proof (ctx_maxsize_bound _ Hctx). pose proof (ctx_length _ Hctx).
  destruct Hw as [_ _ [H1 _] [H2 _] H3]. unfold pull_init. rewrite E1, E2, E3.
  constructor; cbn; try done.
  - intros Hc. split; [done|]. destruct (Z.ltb_spec (w_reserve w0) (w_valid w0)); [|done].
    split; [lia|]. destruct (filling w0) as [[size []]|]; lia.
  - destruct (Z.ltb_spec (w_reserve w0) (w_valid w0)) as [|Hle]; [done|]. intros _.
    split; [|lia]. unfold wrap_in_flight. destruct (filling w0) as [[size []]|]; try done. lia.
Qed.

Lemma rewind_reader w0 st : reader_at w0 st -> reader_at w0 (pull_rewind ctx st).
Proof.
  intros Hst. unfold pull_rewind. destruct (Z.eqb_spec (current st) 0) as [E|]; [|done].
  destruct Hst as [H1 H2 H3 H4]. pose proof (ctx_length _ Hctx).
  constructor; cbn; try done; [lia| |].
  - intros Hc%H3. lia.
  - intros Hc%H4. split; [apply Hc|done].
Qed.

(** What a passed check says. *)
Lemma overtaken_pass st span w : writer_ok w -> overtaken st span (w_mem w) = 0 ->
  wrapcnt st = wraps w mod 2 ^ 16 /\
  (copos st || wrapped st = true -> w_reserve w <= u64 (current st - span)).
Proof.
  intros Hw. destruct (position_fields w Hw) as (E1 & _ & E3). unfold overtaken.
  rewrite E1, E3. destruct (copos st || wrapped st); cbn [andb].
  - destruct (Z.ltb_spec (u64 (current st - span)) (w_reserve w)); [done|].
    destruct (Z.eqb_spec (wrapcnt st) (wraps w mod 2 ^ 16)); [auto|done].
  - destruct (Z.eqb_spec (wrapcnt st) (wraps w mod 2 ^ 16)); [|done]. by intros _.
Qed.

(** Bytes the reader has checked at [w4] were the same at every earlier step. *)
Lemma checked_same w0 w w4 st lo hi :
  writer_ok w0 -> writer_ok w -> reader_at w0 st -> wsteps w0 w -> wsteps w w4 ->
  wraps w4 = wraps w0 ->
  (copos st || wrapped st = true -> w_reserve w4 <= lo) -> hi <= current st ->
  same (area (w_mem w0)) (area (w_mem w)) lo hi.
Proof.
  intros H0 Hw [R1 R2 R3 R4] Hs Hs4 Hn Hlo Hhi.
  pose proof (since_steps w0 w H0 Hs) as [S1 S2 S3 S4 S5].
  pose proof (since_steps w w4 Hw Hs4) as [T1 T2 _ _ _].
  assert (wraps w = wraps w0) as E by lia. specialize (T2 ltac:(lia)).
  destruct (copos st) eqn:Ec.
  - destruct (R3 eq_refl) as (Rw & Rc & _). specialize (Hlo eq_refl). apply S5; try done; [lia|lia|].
    destruct H0 as [_ _ _ [V0 V8] _]. pose proof (ctx_length_align _ Hctx).
    destruct (Z.eq_dec (w_valid w0) (length_ ctx)); [auto|]. left. dlia.
  - destruct (R4 eq_refl) as [Rf Rv]. destruct (wrapped st).
    + apply S5; auto; [specialize (Hlo eq_refl); lia|lia].
    + destruct (S4 E Rf) as [_ Hb]. apply Hb. specialize (Rv eq_refl). lia.
Qed.

Lemma load_same m m' addr len :
  zlen (area m) = zlen (area m') -> begin_ ctx <= addr -> 0 <= len ->
  same (area m') (area m) (addr - begin_ ctx) (addr - begin_ ctx + len) ->
  load ctx m addr len = load ctx m' addr len.
Proof.
  intros HL Ha Hl Hs. unfold load, mem_read. rewrite HL. destruct (in_region _ _ _); [|done].
  specialize (Hs ltac:(lia) ltac:(lia)).
  replace (addr - begin_ ctx + len - (addr - begin_ ctx)) with len in Hs by lia. by rewrite Hs.
Qed.

Lemma same_mod_close a b : a mod 2 ^ 16 = b mod 2 ^ 16 -> 0 <= b - a < 2 ^ 16 -> b = a.
Proof.
  intros E H. destruct (Z.eq_dec a b) as [|Hne]; [done|].
  destruct (mod_inj_window (2 ^ 16) a b); lia.
Qed.

Lemma overtaken_at_start w0 st span c : writer_ok w0 ->
  current st = c -> 0 <= c - span < 2 ^ 64 -> wrapcnt st = wraps w0 mod 2 ^ 16 ->
  (copos st || wrapped st = true -> w_reserve w0 <= c - span) ->
  overtaken st span (w_mem w0) = 0.
Proof.
  intros H0 Hc Hr Hw Ho. destruct (position_fields w0 H0) as (E1 & _ & E3).
  apply (overtaken_no _ _ _ c Hc Hr). unfold not_overtaken. by rewrite E1, E3.
Qed.

(** What a load that starts at [w] and ends before [w'] finds: the words of
    [shared] are loaded at once, but a copy out of the area may find each of
    its bytes at a different moment. *)
Record sees (w w' : writer) (m : tbmem) : Prop := {
  sees_shared : shared m = shared (w_mem w);
  sees_length : zlen (area m) = length_ ctx;
  sees_byte : forall i, exists w1, wsteps w w1 /\ wsteps w1 w' /\
    area m !! i = area (w_mem w1) !! i;
}.

Lemma sees_now w w' : writer_ok w -> wsteps w w' -> sees w w' (w_mem w).
Proof. intros Hw Hs. split; [done|apply Hw|]. intros i. exists w. by split; [constructor|]. Qed.

Lemma same_lookup a a' lo hi i : zlen a = zlen a' -> 0 <= lo -> hi <= zlen a ->
  same a a' lo hi -> lo <= Z.of_nat i < hi -> a' !! i = a !! i.
Proof.
  intros El Hlo Hhi Hs Hi. specialize (Hs Hlo ltac:(lia)).
  apply (f_equal (fun l => l !! (i - Z.to_nat lo)%nat)) in Hs.
  rewrite !lookup_slice in Hs by lia.
  by replace (Z.to_nat lo + (i - Z.to_nat lo))%nat with i in Hs by lia.
Qed.

Section one_pull.
Context (w0 : writer) (ws : nat -> writer) (at_ : nat -> tbmem) (st : pullstate) (paylen : Z).
Hypothesis Hroom : addr_room ctx.
Hypothesis Hw0 : writer_ok w0.
Hypothesis Hfirst : wsteps w0 (ws 0%nat).
Hypothesis Hnext : forall k, wsteps (ws k) (ws (S k)).
Hypothesis Hsees : forall k, (k <= 4)%nat -> sees (ws k) (ws (S k)) (at_ k).
Hypothesis Hlaps : wraps (ws 4%nat) - wraps w0 < 2 ^ 16.
Hypothesis Hst : reader_at w0 st.

Lemma run_from k : wsteps w0 (ws k).
Proof. induction k; [done|]. eapply wsteps_trans; eauto. Qed.
Lemma run_to_4 k : (k <= 4)%nat -> wsteps (ws k) (ws 4%nat).
Proof.
  intros Hk. replace 4%nat with (k + (4 - k))%nat by lia.
  induction (4 - k)%nat as [|j IH]; [rewrite Nat.add_0_r; constructor|].
  rewrite Nat.add_succ_r. eapply wsteps_trans; eauto.
Qed.

Lemma seen_overtaken span k : (k <= 4)%nat ->
  overtaken (pull_rewind ctx st) span (at_ k) = overtaken (pull_rewind ctx st) span (w_mem (ws k)).
Proof. intros Hk. unfold overtaken. by rewrite (sees_shared _ _ _ (Hsees k Hk)). Qed.

(** What a load before the last check found, in a span that the check let pass, is what was
    there at the start. *)
Lemma seen_load st1 lo k addr len : reader_at w0 st1 -> wraps (ws 4%nat) = wraps w0 ->
  0 <= lo -> current st1 <= length_ ctx ->
  (copos st1 || wrapped st1 = true -> w_reserve (ws 4%nat) <= lo) ->
  (k <= 3)%nat -> begin_ ctx + lo <= addr -> 0 <= len -> addr + len <= begin_ ctx + current st1 ->
  load ctx (at_ k) addr len = load ctx (w_mem w0) addr len.
Proof.
  intros Hr En Hlo Hcur Hres Hk Ha Hl Hc. destruct (Hsees k ltac:(lia)) as [_ Sl Sb].
  pose proof (wok_area _ Hw0) as A0. pose proof (wsteps_ok w0 _ Hw0 (run_from 4)) as Hw4.
  apply load_same; [by rewrite A0|lia|done|]. intros P1 P2.
  apply slice_ext; [lia|lia|lia|lia|].
  intros i Hi. destruct (Sb i) as (w1 & Q1 & Q2 & ->).
  assert (wsteps w0 w1) as Q0 by (eapply wsteps_trans; [apply run_from|exact Q1]).
  pose proof (wsteps_ok w0 _ Hw0 Q0) as Hw1. pose proof (wok_area _ Hw1) as A1.
  apply (same_lookup _ _ (addr - begin_ ctx) (addr - begin_ ctx + len)); try lia.
  apply (checked_same w0 _ (ws 4%nat) st1); try done; [|intros Hb%Hres; lia|lia].
  eapply wsteps_trans; [exact Q2|apply run_to_4; lia].
Qed.

(** C3. Successful reads are atomic: with the writer running between all the
    loads of a pull, and between the bytes of the copies of the header and the
    payload, a pull that returns 0 returns exactly what it would have
    returned, undisturbed, on the memory of the moment [pull_init] read the
    position; in particular the message is not torn. The writer may start and
    finish any number of messages meanwhile, as long as it makes fewer than
    2^16 laps. *)
Theorem tracebuf_pull_atomic (r : pull_result) :
  tracebuf_pull ctx at_ st paylen = Some r -> ret r = 0 ->
  tracebuf_pull ctx (fun _ => w_mem w0) st paylen = Some r /\
  reader_at w0 (st_out r).
Proof.
  intros E Hret. destruct (pull_succ_of _ _ _ _ E Hret) as (off & ob & hb & out & PS).
  pose proof (rewind_reader w0 st Hst) as Hst1. set (st1 := pull_rewind ctx st) in *.
  pose proof Hst1 as [R1 R2 R3 R4]. destruct Hroom as [B1 B2].
  pose proof (ctx_length _ Hctx). pose proof (ctx_maxsize_bound _ Hctx).
  set (c := current st1) in *.
  assert (u64 (begin_ ctx + c - 8) = begin_ ctx + c - 8) as Ead by (apply u64_small; lia).
  rewrite Ead in PS.
  destruct PS as [Pal Plo Phi Pw Poff Po1 Pnz Psk Po8 Pol Poh Phl Ph Ppl Po4 Pr].
  unfold sizeof_tracehdr in *.
  rewrite (u64_small (begin_ ctx + c - 8 - 24)) in * by lia.
  rewrite (u64_small (off - 8 - 24)) in * by lia.
  rewrite (u64_small (begin_ ctx + c - 8 - 24 - _)) in * by lia.
  pose proof (wsteps_ok w0 _ Hw0 (run_from 4)) as Hw4.
  rewrite seen_overtaken in Po4 by lia.
  destruct (overtaken_pass st1 off _ Hw4 Po4) as [Hwc Hres].
  fold c in Hres. rewrite (u64_small (c - off)) in Hres by lia.
  pose proof (since_steps w0 _ Hw0 (run_from 4)) as [S1 S2 _ _ _].
  assert (wraps (ws 4%nat) = wraps w0) as En by (apply same_mod_close; [congruence|lia]).
  specialize (S2 En).
  assert (forall k addr len, (k <= 3)%nat -> begin_ ctx + (c - off) <= addr -> 0 <= len ->
    addr + len <= begin_ ctx + c ->
    load ctx (at_ k) addr len = load ctx (w_mem w0) addr len) as Hload
    by (intros; apply (seen_load st1 (c - off)); done || lia).
  cbv zeta in Pr. destruct Pr as [Hout ->].
  set (n := if off - 8 - 24 <? _ then _ else _) in *.
  assert (n <= off - 8 - 24) as Hn.
  { unfold n. rewrite u32_small by lia. case_z; lia. }
  split.
  - apply (pull_of_succ _ st paylen off ob hb out). fold st1. fold c. rewrite Ead.
    constructor; unfold sizeof_tracehdr; fold c;
      rewrite ?(u64_small (begin_ ctx + c - 8 - 24)), ?(u64_small (off - 8 - 24)),
        ?(u64_small (begin_ ctx + c - 8 - 24 - _)) by lia; try done.
    + rewrite <- (Hload 0%nat) by lia. done.
    + apply (overtaken_at_start w0 _ 8 c); try done; [lia|]. intros Hb%Hres. lia.
    + rewrite <- (Hload 2%nat) by lia. done.
    + apply (overtaken_at_start w0 _ off c); try done; [lia|]. intros Hb%Hres. lia.
    + cbv zeta. fold n. split; [|done]. rewrite <- Hout.
      destruct (Z.ltb_spec 0 n); [|done]. symmetry. apply Hload; lia.
  - cbn [st_out]. fold c. rewrite (u64_small (c - off)) by lia.
    constructor; cbn; try done; [lia| |].
    + intros Hc. destruct (R3 Hc) as (Q1 & Q2 & Q3). rewrite Hc in Hres.
      specialize (Hres eq_refl). split_and!; try done; lia.
    + intros Hc%R4. destruct Hc as [Q1 Q2]. split; [done|]. intros Hq%Q2. lia.
Qed.
End one_pull.
End steps.

(** ** A push is a run of the step relation *)
Section push_steps.
Context (ctx : tracectx).
Hypothesis Hctx : ctx_ok ctx.

Lemma same_splice a off bs lo hi :
  0 <= off -> off + zlen bs <= zlen a -> hi <= zlen a -> hi <= off \/ off + zlen bs <= lo ->
  same a (splice a off bs) lo hi.
Proof. intros ? ? ? ? ? ?. pose proof (zlen_nonneg bs). apply slice_splice_disj; lia. Qed.

(** The states of the writer after each of the stores of a push: the sequence
    number is taken, the space reserved, the parts of the message are stored
    one after the other, and the message is published. *)
Definition push_run (wc p : Z) (x : msg) (m : tbmem) : list writer :=
  let rsv := reserved_for ctx wc p x m in
  let lap := push_lap ctx wc p x in
  let r := push_lo ctx p x + msg_size x in
  let busy := Some (msg_size x, wraps_at ctx p x) in
  [Writer (numbered m) wc p p None; Writer rsv lap r p busy] ++
  map (fun a => Writer (Mem (shared rsv) a) lap r p busy)
    (areas (area m) (push_stores ctx (push_lo ctx p x) p (wraps_at ctx p x) x)) ++
  [Writer (pushed ctx wc p x m) lap r r None].

Fixpoint chain (w : writer) (l : list writer) : Prop :=
  match l with [] => True | w' :: l => wstep ctx w w' /\ chain w' l end.

Lemma push_fill_chain s wc r p size wr m' sts : forall a,
  zlen a = length_ ctx ->
  Forall (fun '(off, bs) => 0 <= off /\ off + zlen bs <= length_ ctx /\
    forall lo hi, hi <= r - size \/ r <= lo ->
      hi <= length_ ctx - 8 \/ wr = false \/ p = length_ ctx ->
      hi <= off \/ off + zlen bs <= lo) sts ->
  at_position (Mem s (store_all a sts)) (pack wc r r) = m' ->
  chain (Writer (Mem s a) wc r p (Some (size, wr)))
    (map (fun a => Writer (Mem s a) wc r p (Some (size, wr))) (areas a sts) ++
     [Writer m' wc r r None]).
Proof.
  induction sts as [|[off bs] sts IH]; intros a Ha Hs Hm; cbn.
  - split; [|done]. subst m'. apply ws_publish.
  - apply Forall_cons_1 in Hs as [(H1 & H2 & H3) Hs].
    assert (zlen (splice a off bs) = zlen a) as L by (apply zlen_splice; lia).
    split; [|apply IH; [lia|done|exact Hm]].
    apply (ws_fill ctx (Mem s a)); [done|]. intros lo hi Hr Hc Hh ? ?.
    pose proof (zlen_nonneg bs).
    apply same_splice; cbn [area]; try lia. by apply H3.
Qed.

Lemma push_stores_confined lo p wr x :
  0 <= lo -> lo + msg_size x <= length_ ctx -> 0 <= p -> 0 <= zlen (m_data x) < 2 ^ 23 ->
  Forall (fun '(off, bs) => 0 <= off /\ off + zlen bs <= length_ ctx /\
    forall lo' hi, hi <= lo + msg_size x - msg_size x \/ lo + msg_size x <= lo' ->
      hi <= length_ ctx - 8 \/ wr = false \/ p = length_ ctx ->
      hi <= off \/ off + zlen bs <= lo') (push_stores ctx lo p wr x).
Proof.
  intros Hlo Hx Hp Hd. pose proof (ctx_length _ Hctx). pose proof (ctx_maxsize_bound _ Hctx).
  destruct (push_offset_val (zlen (m_data x)) ltac:(lia)) as [Ho _].
  pose proof (push_padding_range (zlen (m_data x))) as [Hpad _].
  change (push_offset (zlen (m_data x))) with (msg_size x) in Ho.
  unfold push_stores. apply Forall_app. split.
  - repeat (apply Forall_cons_2;
      [rewrite ?zlen_le_enc, ?zlen_hdr_enc, ?zlen_fill by lia; split_and!;
       [lia|lia|intros ? ? [?|?] _; lia]|]).
    apply Forall_nil_2.
  - destruct wr; cbn [andb]; [|done].
    destruct (Z.ltb_spec p (length_ ctx)) as [Hpl|]; [|done].
    apply Forall_cons_2; [|apply Forall_nil_2]. unfold skip_word. rewrite zlen_le_enc.
    split_and!; [lia|lia|]. intros ? ? _ [?|[?|?]]; done || lia.
Qed.

(** C30. A push on an idle buffer performs exactly these stores, in this
    order, each of them a step of the writer: the sequence number is
    increased; the space is reserved (in the next lap, at the start of the
    area, when the message does not fit); size, header, padding and payload are
    stored below the new reserve index, and on a wrap the skip word; and only
    then is the message published. Until that last store the valid index is
    the old one. Afterwards the buffer is idle again and the bytes below the
    new index are those of the message: the header given, with the sequence
    number and the length, and the payload cut to the maximal size. *)
Theorem push_refines_steps h payload paylen wc p m :
  idle ctx wc p m -> 0 <= paylen <= zlen payload ->
  let h' := Hdr (params h) (seqid (shared m)) paylen (reserved h) in
  let x := Msg h' (slice payload 0 (Z.min paylen (maxsize_ ctx))) in
  let m' := pushed ctx wc p x m in
  let run := push_run wc p x m in
  push_log ctx h payload paylen (m, []) = Some (h', (m', map w_mem run)) /\
  tracebuf_push ctx h payload paylen m = Some (h', m') /\
  chain (Writer m wc p p None) run /\
  Forall (fun w => GET_VALID (position (shared (w_mem w))) = p) (removelast run) /\
  idle ctx (push_lap ctx wc p x) (push_lo ctx p x + msg_size x) m' /\
  slice (area m') (push_lo ctx p x) (msg_size x) = msg_bytes x.
Proof.
  intros Hi Hpay h'.
  assert (slice payload 0 (Z.min paylen (maxsize_ ctx)) = stored ctx payload paylen) as ->
    by (unfold stored; f_equal; case_z; lia).
  intros x m' run. destruct (stored_length ctx Hctx _ _ Hpay) as [Hd _].
  destruct (msg_size_bound ctx Hctx x Hd) as [Hs Hs8].
  pose proof (ctx_maxsize_bound _ Hctx). pose proof (ctx_length _ Hctx).
  pose proof Hi as [Hpos Hp Hp8 Ha Hq].
  destruct (push_lo_range ctx p x Hp Hp8 ltac:(lia) Hs8) as (L1 & L2 & L3).
  assert (zlen (m_data x) < 2 ^ 23) as Hx23
    by (change (m_data x) with (stored ctx payload paylen); lia).
  pose proof (zlen_nonneg (m_data x)).
  pose proof (pushed_published ctx wc p x m Ha ltac:(lia) ltac:(lia) Hx23) as Hfin.
  pose proof (push_stores_fit ctx Hctx (push_lo ctx p x) p (wraps_at ctx p x) x L1 L2
                ltac:(lia) Hx23) as Hfit.
  cbv zeta in Hfin. split_and!.
  - unfold h', x, run, push_run. rewrite (push_log_result ctx Hctx h payload paylen wc p m Hi Hpay).
    cbn [map app]. rewrite map_app, map_map. done.
  - apply (tracebuf_push_result ctx Hctx h payload paylen wc p m Hi Hpay).
  - cbn [chain run push_run app]. split; [apply (ws_seqid ctx (Writer m wc p p None))|]. split.
    + unfold reserved_for, push_lap, push_lo. destruct (wraps_at ctx p x) eqn:Ew.
      * rewrite Z.add_0_l. apply Z.ltb_lt in Ew. apply ws_reserve_wrap; done.
      * apply Z.ltb_ge in Ew. apply ws_reserve; done.
    + apply push_fill_chain; [done|apply push_stores_confined; done || lia|exact Hfin].
  - unfold run, push_run. rewrite app_assoc, removelast_last. cbn [app].
    apply Forall_cons_2; [|apply Forall_cons_2].
    + cbn [w_mem numbered shared position]. rewrite Hpos, GET_VALID_pack; lia.
    + apply GET_VALID_pack; lia.
    + apply Forall_map, Forall_true. intros a. apply GET_VALID_pack; lia.
  - unfold m'. rewrite <- Hfin. constructor; [done|lia|done| |apply u64_range].
    cbn [area at_position]. rewrite zlen_store_all; rewrite Ha; done.
  - unfold m'. rewrite <- Hfin. cbn [area at_position].
    rewrite push_stores_bytes by done. cbv zeta.
    assert (zlen (msg_bytes x) = msg_size x) as El by (apply zlen_msg_bytes; lia).
    assert (slice (splice (area m) (push_lo ctx p x) (msg_bytes x)) (push_lo ctx p x) (msg_size x)
            = msg_bytes x) as Hsame by (rewrite <- El; apply slice_splice_same; lia).
    destruct (wraps_at ctx p x && (p <? length_ ctx)) eqn:Ew; [|exact Hsame].
    rewrite slice_splice_disj; [exact Hsame|..]; unfold skip_word;
      rewrite ?zlen_le_enc, ?zlen_splice; try lia.
    apply andb_true_iff in Ew as [Ew _]. unfold push_lo. rewrite Ew. lia.
Qed.
End push_steps.

(** ** Examples: the reader pulls while the writer starts its second message *)

Definition ex_w0 : writer := Writer ex_mem1 0 40 40 None.
Definition ex_w1 : writer :=
  Writer (at_position ex_mem1 (pack 0 72 40)) 0 72 40 (Some (32, false)).
Definition ex_ws (k : nat) : writer := match k with O => ex_w0 | S _ => ex_w1 end.

Lemma ex_w0_ok : writer_ok ex_ctx ex_w0.
Proof. split; vm_compute; repeat (done || split). Qed.

Lemma ex_reserve : wstep ex_ctx ex_w0 ex_w1.
Proof. apply (ws_reserve ex_ctx ex_mem1 0 40 32); vm_compute; repeat (done || split). Qed.

Lemma ex_ws_steps k : wsteps ex_ctx (ex_ws k) (ex_ws (S k)).
Proof.
  destruct k as [|k]; [|apply ws_refl].
  eapply ws_step; [apply ws_refl|exact ex_reserve].
Qed.

Lemma tracebuf_pull_atomic_witness : exists r,
  tracebuf_pull ex_ctx (fun k => w_mem (ex_ws k)) (pull_init ex_ctx ex_mem1) 40 = Some r /\
  payload_out r = [1; 2; 3] /\
  tracebuf_pull ex_ctx (fun _ => w_mem ex_w0) (pull_init ex_ctx ex_mem1) 40 = Some r /\
  reader_at ex_ctx ex_w0 (st_out r).
Proof.
  eexists. split; [vm_compute; reflexivity|]. split; [reflexivity|].
  eapply (tracebuf_pull_atomic ex_ctx ex_ctx_ok ex_w0 ex_ws (fun k => w_mem (ex_ws k))).
  - exact ex_addr_room.
  - exact ex_w0_ok.
  - apply ws_refl.
  - exact ex_ws_steps.
  - intros k _. apply (sees_now ex_ctx); [|apply ex_ws_steps].
    destruct k; [exact ex_w0_ok|exact (wstep_ok _ ex_ctx_ok _ _ ex_w0_ok ex_reserve)].
  - reflexivity.
  - split; vm_compute; repeat (done || split).
  - vm_compute; reflexivity.
  - reflexivity.
Defined.

Lemma push_refines_steps_witness : exists m' log,
  push_log ex_ctx (Hdr 9 0 0 6) [4; 5] 2 (ex_mem1, []) = Some (Hdr 9 2 2 6, (m', log)) /\
  length log = 7%nat.
Proof.
  do 2 eexists. split; [apply (push_refines_steps ex_ctx ex_ctx_ok (Hdr 9 0 0 6) [4; 5] 2 0 40 ex_mem1)|].
  - exact (cont_idle _ _ _ _ _ _ ex_contents).
  - by vm_compute.
  - vm_compute. reflexivity.
Defined.
