(* ===== verification/Eventlib.v ===== *)
(** * Event library: contexts and shared-memory layout (eventlib_init.h, eventlib.h)

    The state of one eventlib endpoint, the memory it shares with its peer, and
    the carving of that memory into subsystem areas. The subsystems themselves
    are in [EventlibFlt] and [EventlibTbuf], the initialisation in
    [EventlibInit]. *)

From S2P Require Import Prelude Tracebuf.

(** ** Constants *)
Definition EVENTLIB_FLAG_INIT_FILTERING : Z := Z.shiftl 1 0.
Definition EVENTLIB_CTX_VERSION : Z := 1.
Definition EVENTLIB_DIRECTION_READER : Z := 1.
Definition EVENTLIB_DIRECTION_WRITER : Z := 2.
Definition EVENTLIB_TBUFS_MAX : Z := 6.
Definition EVENTLIB_MAGIC_W2R : Z := 0x52574c45.
Definition EVENTLIB_MAGIC_R2W : Z := 0x57524c45.
Definition sizeof_eventlib_shared : Z := 24.
Definition MAX_MASK_SIZE : Z := 20.
Definition NUM_SLOTS : Z := 4.

(** Filter domains: event types and custom. *)
Inductive domain := EVENT_TYPE | CUSTOM.
(** The enum as the integer the API functions get. *)
Definition domain_of (d : Z) : option domain :=
  if d =? 0 then Some EVENT_TYPE else if d =? 1 then Some CUSTOM else None.

Definition EVENTLIB_FLT_MASK_SIZE (bit_count : Z) : Z := u32 (bit_count + 31) / 32 * 4.

(** ** Subsystem areas *)
Inductive subsys := TRACEBUF | FILTERING.
#[export] Instance subsys_eq_dec : EqDecision subsys.
Proof. solve_decision. Defined.

Definition subsys_index (s : subsys) : Z := match s with TRACEBUF => 0 | FILTERING => 1 end.

(** struct eventlib_shared, as a local copy: the offset and size of each area. *)
Record eventlib_shared := Shared {
  sh_num_buffers : Z;
  sh_subsys : subsys -> Z * Z;
}.

Definition set_subsys (s : subsys) (os : Z * Z) (sh : eventlib_shared) : eventlib_shared :=
  Shared (sh_num_buffers sh)
    (fun s' => if bool_decide (s' = s) then os else sh_subsys sh s').

Definition ALIGN_64_DOWN (x : Z) : Z := Z.land x (Z.lnot 7).
(** on a uint32_t *)
Definition ALIGN_64_UP (x : Z) : Z := ALIGN_64_DOWN (u32 (x + (8 - 1))).
Definition ALIGN_64_CHECK (x : Z) : bool := x =? ALIGN_64_DOWN x.

(** The area's offset in the block: [None] is the NULL pointer. *)
Definition subsys_shm_area (shm : option Z) (copy : eventlib_shared) (s : subsys) : option Z :=
  match shm with
  | None => None
  | Some a => Some (a + (sh_subsys copy s).1)
  end.

Definition subsys_shm_size (copy : eventlib_shared) (s : subsys) : Z := (sh_subsys copy s).2.

(** The new local copy and offset, or the error. *)
Definition subsys_shm_carve (copy : eventlib_shared) (shm_size shm_offset : Z)
    (s : subsys) (size : Z) : Z + eventlib_shared * Z :=
  if u32 (shm_size - shm_offset) <? size then inl (- ENOSPC)
  else inr (set_subsys s (shm_offset, size) copy, u32 (shm_offset + ALIGN_64_UP size)).

(** ** Contexts *)

(** struct eventlib_flt_domain_geo *)
Record domain_geo := Geo { geo_bits : Z; geo_offset : Z }.

(** struct eventlib_flt_ctx. [flt_w2r] and [flt_r2w] are offsets in the shared
    blocks; the union of the writer's and the reader's part is kept as both. *)
Record flt_ctx := Flt {
  inited : bool;
  flt_w2r : Z;
  flt_r2w : Z;
  geo : domain -> domain_geo;
  slot_size : Z;
  w_ack : Z;
  combined_mask : list Z;
  mask_copy : list (list Z);
  mask_copy_valid : Z;
  r_mask : list Z;
  slot_index : Z;
}.

(** memset(flt, 0, sizeof( *flt)) *)
Definition flt_zero : flt_ctx :=
  Flt false 0 0 (fun _ => Geo 0 0) 0 0 (fill MAX_MASK_SIZE 0)
    (replicate 32 (fill MAX_MASK_SIZE 0)) 0 (fill MAX_MASK_SIZE 0) 0.

(** struct eventlib_tbuf_ctx *)
Record tbuf_ctx := Tbuf { tbuf_tracectx : tracectx; seqid_ack : Z }.

(** struct eventlib_init *)
Record eventlib_init := Init {
  w2r_offset : Z; r2w_offset : Z;
  w2r_copy : eventlib_shared; r2w_copy : eventlib_shared;
  tbuf : list tbuf_ctx;
  flt : flt_ctx;
}.

(** struct eventlib_ctx: [None] for the NULL pointers. *)
Record eventlib_ctx := ECtx {
  direction : Z; flags : Z;
  w2r_shm : option Z; w2r_shm_size : Z;
  r2w_shm : option Z; r2w_shm_size : Z;
  priv : option eventlib_init;
  flt_num_bits : domain -> Z;
  num_buffers : Z;
}.

(** struct eventlib_tbuf_w2r: the compatibility word and the trace buffer. *)
Record tbuf_w2r := TbufW2r { compat : Z; tb_mem : tbmem }.

(** The endpoint and the memory it shares: the bytes of the two blocks, and the
    trace buffers by their offset in the first one. *)
Record estate := EState {
  ectx : eventlib_ctx;
  w2r_mem : list Z;
  r2w_mem : list Z;
  bufs : Z -> tbuf_w2r;
}.

Definition set_priv (p : option eventlib_init) (c : eventlib_ctx) : eventlib_ctx :=
  ECtx (direction c) (flags c) (w2r_shm c) (w2r_shm_size c) (r2w_shm c) (r2w_shm_size c)
    p (flt_num_bits c) (num_buffers c).
Definition set_flt_num_bits (f : domain -> Z) (c : eventlib_ctx) : eventlib_ctx :=
  ECtx (direction c) (flags c) (w2r_shm c) (w2r_shm_size c) (r2w_shm c) (r2w_shm_size c)
    (priv c) f (num_buffers c).
Definition set_sizes (w r n : Z) (c : eventlib_ctx) : eventlib_ctx :=
  ECtx (direction c) (flags c) (w2r_shm c) w (r2w_shm c) r (priv c) (flt_num_bits c) n.

Definition set_ectx (c : eventlib_ctx) (s : estate) : estate :=
  EState c (w2r_mem s) (r2w_mem s) (bufs s).
Definition set_w2r_mem (m : list Z) (s : estate) : estate :=
  EState (ectx s) m (r2w_mem s) (bufs s).
Definition set_r2w_mem (m : list Z) (s : estate) : estate :=
  EState (ectx s) (w2r_mem s) m (bufs s).
Definition set_buf (a : Z) (b : tbuf_w2r) (s : estate) : estate :=
  EState (ectx s) (w2r_mem s) (r2w_mem s) (fun a' => if a' =? a then b else bufs s a').

Definition set_w2r_copy (c : eventlib_shared) (off : Z) (p : eventlib_init) : eventlib_init :=
  Init off (r2w_offset p) c (r2w_copy p) (tbuf p) (flt p).
Definition set_r2w_copy (c : eventlib_shared) (off : Z) (p : eventlib_init) : eventlib_init :=
  Init (w2r_offset p) off (w2r_copy p) c (tbuf p) (flt p).
Definition set_flt (f : flt_ctx) (p : eventlib_init) : eventlib_init :=
  Init (w2r_offset p) (r2w_offset p) (w2r_copy p) (r2w_copy p) (tbuf p) f.
Definition set_tbuf (l : list tbuf_ctx) (p : eventlib_init) : eventlib_init :=
  Init (w2r_offset p) (r2w_offset p) (w2r_copy p) (r2w_copy p) l (flt p).

(** ctx->priv dereferenced: NULL faults. *)
Definition get_priv : M estate eventlib_init :=
  s ← get; checked (priv (ectx s)).
Definition modify_priv (f : eventlib_init -> eventlib_init) : M estate unit :=
  p ← get_priv; modify (fun s => set_ectx (set_priv (Some (f p)) (ectx s)) s).

(** subsys_w2r_carve and subsys_r2w_carve on the context. *)
Definition subsys_w2r_carve (sub : subsys) (size : Z) : M estate Z :=
  s ← get; p ← get_priv;
  match subsys_shm_carve (w2r_copy p) (w2r_shm_size (ectx s)) (w2r_offset p) sub size with
  | inl ret => mret ret
  | inr (c, off) => modify_priv (set_w2r_copy c off);; mret 0
  end.
Definition subsys_r2w_carve (sub : subsys) (size : Z) : M estate Z :=
  s ← get; p ← get_priv;
  match subsys_shm_carve (r2w_copy p) (r2w_shm_size (ectx s)) (r2w_offset p) sub size with
  | inl ret => mret ret
  | inr (c, off) => modify_priv (set_r2w_copy c off);; mret 0
  end.

(** ** Lemmas *)

Lemma ALIGN_64_DOWN_mod x : ALIGN_64_DOWN x = x - x mod 8.
Proof. exact (land_lnot_mask x 3 ltac:(lia)). Qed.

Lemma ALIGN_64_UP_val x : 0 <= x < 2 ^ 32 - 7 ->
  x <= ALIGN_64_UP x < x + 8 /\ ALIGN_64_UP x mod 8 = 0.
Proof.
  intros H. unfold ALIGN_64_UP. rewrite ALIGN_64_DOWN_mod, u32_small by lia. split; dlia.
Qed.

(** Carving a block: an area that is granted lies inside the block, after
    everything granted before, and leaves the next offset 8-byte aligned. The
    next offset stays inside the block, because the block size is 8-byte
    aligned. *)
Theorem subsys_shm_carve_sound copy size off s n copy' off' :
  0 <= off <= size -> size < 2 ^ 32 -> size mod 8 = 0 -> off mod 8 = 0 -> 0 <= n < 2 ^ 32 ->
  subsys_shm_carve copy size off s n = inr (copy', off') ->
  sh_subsys copy' s = (off, n) /\ off + n <= off' <= size /\ off' mod 8 = 0 /\
  (forall s', s' <> s -> sh_subsys copy' s' = sh_subsys copy s').
Proof.
  intros Ho Hs H8 Ho8 Hn. unfold subsys_shm_carve. rewrite (u32_small (size - off)) by lia.
  destruct (Z.ltb_spec (size - off) n); [done|]. intros [= <- <-].
  destruct (ALIGN_64_UP_val n ltac:(dlia)) as [Hup Hup8].
  assert (off + ALIGN_64_UP n <= size) by dlia.
  rewrite u32_small by lia. cbn. rewrite bool_decide_eq_true_2 by done.
  split_and!; try lia; try dlia; [done|].
  intros s' Hs'. by rewrite bool_decide_eq_false_2.
Qed.

(** It refuses exactly what does not fit. *)
Lemma subsys_shm_carve_enospc copy size off s n :
  0 <= off <= size -> size < 2 ^ 32 -> size - off < n ->
  subsys_shm_carve copy size off s n = inl (- ENOSPC).
Proof.
  intros. unfold subsys_shm_carve. rewrite u32_small by lia. by case_z; [|lia].
Qed.

Lemma subsys_shm_carve_sound_witness :
  sh_subsys (set_subsys FILTERING (24, 108) (Shared 1 (fun _ => (0, 0)))) FILTERING = (24, 108) /\
  24 + 108 <= 136 <= 200 /\ 136 mod 8 = 0 /\
  (forall s', s' <> FILTERING ->
    sh_subsys (set_subsys FILTERING (24, 108) (Shared 1 (fun _ => (0, 0)))) s' = (0, 0)).
Proof.
  apply (subsys_shm_carve_sound (Shared 1 (fun _ => (0, 0))) 200 24 FILTERING 108);
    [lia|lia|done|done|lia|reflexivity].
Defined.
