(* ===== verification/EventlibTbuf.v ===== *)
(** * Reading and writing events (drivers/misc/eventlib/eventlib_tbuf.c)

    The reader side pulls the messages of each trace buffer into the caller's
    buffer as records, newest first, and counts the events it can no longer
    deliver; the writer side pushes. Memory is a timeline [ms]: the n-th load of
    shared memory sees [ms n]. *)

From S2P Require Import Prelude Tracebuf Eventlib.

Definition PULL_COUNT_MAX : nat := 2.
Definition INIT_COUNT_MAX : nat := 2.
Definition SEQUENCE_ID_MIN : Z := 0.
Definition SEQUENCE_ID_MAX : Z := 2 ^ 64 - 1.
Definition sizeof_record : Z := 16.

(** struct record, as bytes. *)
Definition record_enc (size type ts : Z) : list Z :=
  le_enc 4 size ++ le_enc 4 type ++ le_enc 8 ts.

Section read.
Context (ms : nat -> tbmem).

(** The caller's buffer, with the bytes stored at an offset of it. *)
Definition buf_write (buf : list Z) (off : Z) (bs : list Z) : option (list Z) :=
  mem_write buf off bs.

Record single := Single {
  s_ret : Z; s_state : pullstate; s_time : nat; s_buf : list Z;
  s_seqid : Z; s_paylen : Z }.

(** The retry loop; a payload that was copied before a failed check is already
    in the buffer. *)
Fixpoint pull_attempts (n : nat) (ctx : tracectx) (t : nat) (st : pullstate)
    (buf : list Z) (payload_at paylen : Z) : option (pull_result * nat * list Z) :=
  match n with
  | O => None
  | S n =>
      r ← tracebuf_pull ctx (fun k => ms (t + k)%nat) st paylen;
      buf ← buf_write buf payload_at (payload_out r);
      if (ret r =? - EAGAIN) && negb (bool_decide (n = O))
      then pull_attempts n ctx (t + 5) (st_out r) buf payload_at paylen
      else Some (r, (t + 5)%nat, buf)
  end.

Definition tbuf_pull_single (ctx : tracectx) (t : nat) (st : pullstate) (seqid : Z)
    (buf : list Z) (rec_at payload_at paylen : Z) : option single :=
  '(r, t, buf) ← pull_attempts PULL_COUNT_MAX ctx t st buf payload_at paylen;
  if negb (ret r =? 0) then Some (Single (ret r) (st_out r) t buf seqid paylen)
  else
    hdr ← hdr_out r;
    buf ← buf_write buf rec_at (record_enc (paylen_out r) (reserved hdr) (params hdr));
    Some (Single 0 (st_out r) t buf (hdr_seqid hdr) (paylen_out r)).

Record multiple := Multiple {
  mu_ret : Z; mu_time : nat; mu_buf : list Z; mu_avail : Z; mu_min : Z; mu_max : Z }.

(** The loop of tbuf_pull_multiple from [current], with [avail] bytes left. *)
Fixpoint pull_loop (fuel : nat) (tb : tbuf_ctx) (t : nat) (st : pullstate) (seqid : Z)
    (buf : list Z) (current avail min max : Z) : option multiple :=
  match fuel with
  | O => None
  | S fuel =>
      if avail <? sizeof_record then Some (Multiple 0 t buf avail min max)
      else
        let length := u32 (avail - sizeof_record) in
        s ← tbuf_pull_single (tbuf_tracectx tb) t st seqid buf current
              (current + sizeof_record) length;
        if s_ret s =? - ENOBUFS then Some (Multiple 0 (s_time s) (s_buf s) avail min max)
        else if negb (s_ret s =? 0)
        then Some (Multiple (s_ret s) (s_time s) (s_buf s) avail min max)
        else if s_seqid s <=? seqid_ack tb
        then Some (Multiple 0 (s_time s) (s_buf s) avail min max)
        else
          let max := if max <? s_seqid s then s_seqid s else max in
          let min := if s_seqid s <? min then s_seqid s else min in
          let used := u32 (sizeof_record + s_paylen s) in
          if avail <? used then Some (Multiple (- EIO) (s_time s) (s_buf s) avail min max)
          else pull_loop fuel tb (s_time s) (s_state s) (s_seqid s) (s_buf s)
                 (current + used) (u32 (avail - used)) min max
  end.

(** Every record takes at least [sizeof_record] bytes. *)
Definition pull_fuel (size : Z) : nat := S (Z.to_nat (size / sizeof_record)).

(** The result, the time, the buffer, [*size], [*min] and [*max]. *)
Definition tbuf_pull_multiple (tb : tbuf_ctx) (t : nat) (buf : list Z) (buffer size : Z)
    : option (Z * nat * list Z * Z * Z * Z) :=
  let st := pull_init (tbuf_tracectx tb) (ms t) in
  r ← pull_loop (pull_fuel size) tb (t + 1) st 0 buf buffer size SEQUENCE_ID_MAX SEQUENCE_ID_MIN;
  let size := if mu_ret r =? 0 then u32 (size - mu_avail r) else size in
  Some (mu_ret r, mu_time r, mu_buf r, size, mu_min r, mu_max r).

Record tbuf_read := TbufRead {
  tr_ret : Z; tr_ctx : tbuf_ctx; tr_time : nat; tr_buf : list Z; tr_size : Z; tr_lost : Z }.

(** The restart loop. *)
Fixpoint init_attempts (n : nat) (tb : tbuf_ctx) (t : nat) (buf : list Z) (buffer size : Z)
    : option (Z * nat * list Z * Z * Z * Z) :=
  match n with
  | O => None
  | S n =>
      '(ret, t, buf, size, min, max) ← tbuf_pull_multiple tb t buf buffer size;
      if (ret =? - EINTR) && negb (bool_decide (n = O))
      then init_attempts n tb t buf buffer size
      else Some (ret, t, buf, size, min, max)
  end.

Definition eventlib_read_from_tbuf (tb : tbuf_ctx) (t : nat) (buf : list Z)
    (buffer size : Z) : option tbuf_read :=
  '(ret, t, buf, size, min, max) ← init_attempts INIT_COUNT_MAX tb t buf buffer size;
  if negb (ret =? 0) || (size =? 0) then Some (TbufRead ret tb t buf size 0)
  else
    let lost := if u64 (seqid_ack tb + 1) <? min
                then u64 (min - seqid_ack tb - 1) else 0 in
    Some (TbufRead 0 (Tbuf (tbuf_tracectx tb) max) t buf size lost).
End read.

(** ** Initialisation *)

Definition sizeof_tbuf_w2r : Z := 8.

Definition TBUF_COMPAT (c : eventlib_ctx) : Z :=
  if negb (Z.land (flags c) EVENTLIB_FLAG_INIT_FILTERING =? 0) then 1 else 0.
Definition TBUF_CHECK_COMPAT (compat : Z) : bool := Z.land compat (u32 (Z.lnot 1)) =? 0.

(** The area of the subsystem, as an address; NULL is not dereferenced here. *)
Definition tracebuf_area (c : eventlib_ctx) (p : eventlib_init) : option Z :=
  subsys_shm_area (w2r_shm c) (w2r_copy p) TRACEBUF.

(** &ctx->priv->tbuf[idx].tbuf_ctx = ...; an index outside the array faults. *)
Definition set_tracectx (idx : nat) (t : tracectx) : M estate unit :=
  p ← get_priv;
  old ← checked (tbuf p !! idx);
  modify_priv (set_tbuf (<[idx := Tbuf t (seqid_ack old)]> (tbuf p))).

(** The initialisation of buffer [idx] by the writer. *)
Definition tbuf_writer_buf (area size : Z) (idx : nat) : M estate Z :=
  s ← get;
  let w2r := area + u32 (size * Z.of_nat idx) in
  modify (set_buf w2r (TbufW2r (TBUF_COMPAT (ectx s)) (tb_mem (bufs s w2r))));;
  s ← get;
  '(r, m) ← checked (tracebuf_init (w2r + sizeof_tbuf_w2r) (u32 (size - sizeof_tbuf_w2r))
                       (tb_mem (bufs s w2r)));
  match r with
  | inl ret => mret ret
  | inr t =>
      modify (set_buf w2r (TbufW2r (compat (bufs s w2r)) m));;
      set_tracectx idx t;; mret 0
  end.

(** for (idx = 0; idx < num_buffers; idx++) { ...; if (ret != 0) break; } *)
Fixpoint buf_loop (body : nat -> M estate Z) (n idx : nat) : M estate Z :=
  match n with
  | O => mret 0
  | S n => ret ← body idx; if negb (ret =? 0) then mret ret else buf_loop body n (S idx)
  end.

Definition tbuf_writer_init : M estate Z :=
  s ← get; p ← get_priv;
  ret ← subsys_w2r_carve TRACEBUF (u32 (w2r_shm_size (ectx s) - w2r_offset p));
  if negb (ret =? 0) then mret ret
  else
    let n := num_buffers (ectx s) in
    if (n =? 0) || (EVENTLIB_TBUFS_MAX <? n) then mret (- EIO)
    else
      p ← get_priv;
      area ← checked (tracebuf_area (ectx s) p);
      let size := ALIGN_64_DOWN (subsys_shm_size (w2r_copy p) TRACEBUF / n) in
      if size <? sizeof_tbuf_w2r then mret (- ENOSPC)
      else buf_loop (tbuf_writer_buf area size) (Z.to_nat n) 0.

Definition tbuf_reader_buf (area size : Z) (idx : nat) : M estate Z :=
  s ← get;
  let w2r := area + u32 (size * Z.of_nat idx) in
  if negb (TBUF_CHECK_COMPAT (compat (bufs s w2r))) then mret (- EPROTONOSUPPORT)
  else
    match tracebuf_bind (w2r + sizeof_tbuf_w2r) (u32 (size - sizeof_tbuf_w2r))
            (tb_mem (bufs s w2r)) with
    | inl ret => mret ret
    | inr t => set_tracectx idx t;; mret 0
    end.

Definition tbuf_reader_init : M estate Z :=
  s ← get; p ← get_priv;
  let n := sh_num_buffers (w2r_copy p) in
  if (n =? 0) || (EVENTLIB_TBUFS_MAX <? n) then mret (- EIO)
  else
    area ← checked (tracebuf_area (ectx s) p);
    let size := ALIGN_64_DOWN (subsys_shm_size (w2r_copy p) TRACEBUF / n) in
    if size <? sizeof_tbuf_w2r then mret (- EIO)
    else buf_loop (tbuf_reader_buf area size) (Z.to_nat n) 0.

Definition tbuf_init : M estate Z :=
  s ← get;
  if direction (ectx s) =? EVENTLIB_DIRECTION_WRITER then tbuf_writer_init
  else if direction (ectx s) =? EVENTLIB_DIRECTION_READER then tbuf_reader_init
  else mret (- EINVAL).

(** ** The API *)

(** The trace buffer at [idx] of the shared block: found by its context, whose
    area follows the words. *)
Definition tbuf_addr (t : tracectx) : Z := begin_ t - sizeof_tracebuf - sizeof_tbuf_w2r.

Definition eventlib_write (idx : nat) (type ts : Z) (data : list Z) (size : Z)
    : M estate unit :=
  s ← get;
  if negb (direction (ectx s) =? EVENTLIB_DIRECTION_WRITER) then mret tt
  else if num_buffers (ectx s) <=? Z.of_nat idx then mret tt
  else
    p ← get_priv;
    t ← checked (tbuf p !! idx);
    let a := tbuf_addr (tbuf_tracectx t) in
    '(_, m) ← checked (tracebuf_push (tbuf_tracectx t) (Hdr ts 0 0 type) data size
                         (tb_mem (bufs s a)));
    modify (set_buf a (TbufW2r (compat (bufs s a)) m)).

Record read_result := ReadResult {
  rr_ret : Z; rr_tbufs : list tbuf_ctx; rr_time : nat; rr_buf : list Z;
  rr_size : Z; rr_lost : Z }.

(** The loop of eventlib_read from buffer [idx], with [accum_empty] bytes left. *)
Fixpoint read_loop (mem : Z -> nat -> tbmem) (n idx : nat) (tbufs : list tbuf_ctx) (t : nat)
    (buf : list Z) (copy_buffer accum_empty lost ret : Z) : option read_result :=
  match n with
  | O => Some (ReadResult ret tbufs t buf accum_empty lost)
  | S n =>
      tb ← tbufs !! idx;
      r ← eventlib_read_from_tbuf (mem (tbuf_addr (tbuf_tracectx tb))) tb t buf
            copy_buffer accum_empty;
      let tbufs := <[idx := tr_ctx r]> tbufs in
      if negb (tr_ret r =? 0)
      then Some (ReadResult (tr_ret r) tbufs (tr_time r) (tr_buf r) accum_empty lost)
      else read_loop mem n (S idx) tbufs (tr_time r) (tr_buf r)
             (copy_buffer + tr_size r) (u32 (accum_empty - tr_size r))
             (u64 (lost + tr_lost r)) 0
  end.

(** [mem]: the timeline of the trace buffer at an address; [rr_size] is [*size]. *)
Definition eventlib_read (c : eventlib_ctx) (mem : Z -> nat -> tbmem) (t : nat)
    (buf : list Z) (buffer size : Z) : option read_result :=
  if negb (direction c =? EVENTLIB_DIRECTION_READER)
  then Some (ReadResult (- EPROTO) (match priv c with Some p => tbuf p | None => [] end)
               t buf size 0)
  else
    p ← priv c;
    r ← read_loop mem (Z.to_nat (sh_num_buffers (w2r_copy p))) 0 (tbuf p) t buf
          buffer size 0 (- EPROTO);
    Some (ReadResult (rr_ret r) (rr_tbufs r) (rr_time r) (rr_buf r)
            (u32 (size - rr_size r)) (rr_lost r)).

(** ** Safety against any writer *)
Section safety.
Context (ms : nat -> tbmem) (tb : tbuf_ctx).
Let ctx := tbuf_tracectx tb.
Hypothesis Hctx : ctx_ok ctx.
Hypothesis Hroom : addr_room ctx.
Hypothesis Hms : forall t, mem_ok ctx (ms t).

(** A write inside the window the caller gave leaves the rest of the buffer. *)
Definition window (buf buf' : list Z) (lo hi : Z) : Prop :=
  zlen buf' = zlen buf /\
  forall i : nat, Z.of_nat i < lo \/ hi <= Z.of_nat i -> buf' !! i = buf !! i.

Lemma window_refl buf lo hi : window buf buf lo hi.
Proof. done. Qed.

Lemma window_trans a b c lo hi : window a b lo hi -> window b c lo hi -> window a c lo hi.
Proof. intros [L1 H1] [L2 H2]. split; [congruence|]. intros. rewrite H2; auto. Qed.

Lemma window_sub a b lo hi lo' hi' :
  window a b lo' hi' -> lo <= lo' -> hi' <= hi -> window a b lo hi.
Proof. intros [L H] ? ?. split; [done|]. intros. apply H. lia. Qed.

Lemma buf_write_ok buf off bs lo hi :
  0 <= lo -> lo <= off -> off + zlen bs <= hi -> hi <= zlen buf ->
  exists buf', buf_write buf off bs = Some buf' /\ window buf buf' lo hi.
Proof.
  intros. pose proof (zlen_nonneg bs). exists (splice buf off bs).
  split; [apply mem_write_Some; lia|]. split; [apply zlen_splice; lia|].
  intros i Hi. rewrite lookup_splice by lia. repeat case_z; done || lia.
Qed.

Lemma attempts_safe n t st buf at_ paylen :
  pull_ok st -> 0 <= paylen < 2 ^ 32 -> 0 <= at_ -> at_ + paylen <= zlen buf ->
  exists r t' buf', pull_attempts ms (S n) ctx t st buf at_ paylen = Some (r, t', buf') /\
    pull_result_ok paylen r /\ window buf buf' at_ (at_ + paylen).
Proof.
  revert t st buf. induction n as [|n IH]; intros t st buf Hst Hp Ha Hb; cbn [pull_attempts];
    destruct (tracebuf_pull_total ctx (fun k => ms (t + k)%nat) Hctx Hroom
                (fun k => Hms (t + k)%nat) st paylen Hst Hp) as (r & -> & Hr);
    cbn [mbind option_bind]; pose proof Hr as (R1 & R2 & R3 & R4);
    destruct (buf_write_ok buf at_ (payload_out r) at_ (at_ + paylen)) as (buf' & -> & Hw);
    try lia; cbn [mbind option_bind].
  - rewrite andb_false_r. eauto 8.
  - destruct (_ && _); [|eauto 8].
    destruct (IH (t + 5)%nat (st_out r) buf' R1 Hp Ha) as (r' & t' & buf'' & E & Hr' & Hw').
    { rewrite (proj1 Hw). done. }
    cbn [pull_attempts] in E. rewrite E. exists r', t', buf''. split_and!; try done; try apply Hr'.
    eapply window_trans; eauto.
Qed.

Lemma zlen_record_enc a b c : zlen (record_enc a b c) = 16.
Proof. unfold record_enc. rewrite !zlen_app, !zlen_le_enc. done. Qed.

Lemma single_safe t st seqid buf cur avail :
  pull_ok st -> 16 <= avail < 2 ^ 32 -> 0 <= cur -> cur + avail <= zlen buf ->
  exists s, tbuf_pull_single ms ctx t st seqid buf cur (cur + 16) (avail - 16) = Some s /\
    pull_ok (s_state s) /\ window buf (s_buf s) cur (cur + avail) /\
    0 <= s_paylen s <= avail - 16.
Proof.
  intros Hst Ha Hc Hb. unfold tbuf_pull_single.
  destruct (attempts_safe 1 t st buf (cur + 16) (avail - 16)) as (r & t' & buf' & E & Hr & Hw);
    try lia; [done|].
  change PULL_COUNT_MAX with 2%nat. rewrite E. cbn [mbind option_bind].
  destruct Hr as (R1 & R2 & R3 & R4).
  assert (window buf buf' cur (cur + avail)) as Hw'
    by (eapply window_sub; [exact Hw|lia|lia]).
  destruct (Z.eqb_spec (ret r) 0) as [H0|]; cbn [negb].
  - destruct (R4 H0) as [R5 [h Hh]]. rewrite Hh. cbn [mbind option_bind].
    destruct (buf_write_ok buf' cur (record_enc (paylen_out r) (reserved h) (params h))
                cur (cur + avail)) as (buf'' & -> & Hw''); rewrite ?zlen_record_enc; try lia.
    { rewrite (proj1 Hw'). lia. }
    cbn [mbind option_bind]. eexists. split; [reflexivity|]. cbn. split_and!; try done; try lia.
    eapply window_trans; eauto.
  - eexists. split; [reflexivity|]. cbn. split_and!; try done; lia.
Qed.

Lemma loop_safe fuel t st seqid buf cur avail mn mx :
  pull_ok st -> 0 <= avail < 2 ^ 32 -> 0 <= cur -> cur + avail <= zlen buf ->
  (Z.to_nat (avail / 16) < fuel)%nat ->
  exists m, pull_loop ms fuel tb t st seqid buf cur avail mn mx = Some m /\
    window buf (mu_buf m) cur (cur + avail) /\ 0 <= mu_avail m <= avail /\ mx <= mu_max m /\
    (mu_ret m = 0 -> mu_avail m < avail -> seqid_ack tb < mu_max m).
Proof.
  revert t st seqid buf cur avail mn mx.
  induction fuel as [|fuel IH]; intros t st seqid buf cur avail mn mx Hst Ha Hc Hb Hf; [lia|].
  cbn [pull_loop]. unfold sizeof_record.
  destruct (Z.ltb_spec avail 16).
  { eexists. split; [reflexivity|]. cbn. split_and!; try done; lia. }
  rewrite (u32_small (avail - 16)) by lia.
  destruct (single_safe t st seqid buf cur avail) as (s & Es & S1 & S2 & S3);
    [done|lia|done|done|].
  fold ctx. rewrite Es. cbn [mbind option_bind].
  assert (forall c, exists m, Some (Multiple c (s_time s) (s_buf s) avail mn mx) = Some m /\
    window buf (mu_buf m) cur (cur + avail) /\ 0 <= mu_avail m <= avail /\ mx <= mu_max m /\
    (mu_ret m = 0 -> mu_avail m < avail -> seqid_ack tb < mu_max m)) as Hstop.
  { intros c. eexists. split; [reflexivity|]. cbn. split_and!; try apply S2; lia. }
  destruct (_ =? - ENOBUFS); [apply Hstop|]. destruct (negb _); [apply Hstop|].
  destruct (Z.leb_spec (s_seqid s) (seqid_ack tb)); [apply Hstop|].
  cbv zeta. rewrite (u32_small (16 + s_paylen s)) by lia.
  destruct (Z.ltb_spec avail (16 + s_paylen s)); [lia|].
  rewrite u32_small by lia.
  set (mx' := if mx <? s_seqid s then s_seqid s else mx).
  assert (mx <= mx' /\ s_seqid s <= mx') as [Hmx1 Hmx2] by (unfold mx'; case_z; lia).
  match goal with |- context [pull_loop ms fuel tb ?a ?b ?c ?d ?e ?f ?g ?h] =>
    destruct (IH a b c d e f g h) as (m & -> & M1 & M2 & M3 & M4) end; try done; try lia.
  { rewrite (proj1 S2). lia. }
  { dlia. }
  exists m. split_and!; try done; try lia.
  eapply window_trans; [exact S2|]. eapply window_sub; [exact M1|lia|lia].
Qed.

Definition multiple_ok (buf : list Z) (buffer size : Z)
    (x : Z * nat * list Z * Z * Z * Z) : Prop :=
  let '(r, _, buf', size', _, mx) := x in
  window buf buf' buffer (buffer + size) /\ 0 <= size' <= size /\
  (r <> 0 -> size' = size) /\ (r = 0 -> size' <> 0 -> seqid_ack tb < mx).

Lemma multiple_safe t buf buffer size :
  0 <= size < 2 ^ 32 -> 0 <= buffer -> buffer + size <= zlen buf ->
  exists x, tbuf_pull_multiple ms tb t buf buffer size = Some x /\
    multiple_ok buf buffer size x.
Proof.
  intros Hs Hb Hl. unfold tbuf_pull_multiple.
  destruct (loop_safe (pull_fuel size) (t + 1) (pull_init ctx (ms t)) 0 buf buffer size
              SEQUENCE_ID_MAX SEQUENCE_ID_MIN) as (m & E & M1 & M2 & M3 & M4); try done.
  { apply pull_init_ok. }
  { unfold pull_fuel, sizeof_record. lia. }
  fold ctx. rewrite E. cbn [mbind option_bind]. eexists. split; [reflexivity|].
  split; [done|]. destruct (Z.eqb_spec (mu_ret m) 0).
  - rewrite u32_small by lia. split_and!; try lia.
  - split_and!; try done; lia.
Qed.

Lemma init_attempts_safe n t buf buffer size :
  0 <= size < 2 ^ 32 -> 0 <= buffer -> buffer + size <= zlen buf ->
  exists x, init_attempts ms (S n) tb t buf buffer size = Some x /\
    multiple_ok buf buffer size x.
Proof.
  intros Hs Hb. revert t buf. induction n as [|n IH]; intros t buf Hl; cbn [init_attempts];
    destruct (multiple_safe t buf buffer size Hs Hb Hl)
      as ([[[[[r t'] buf'] size'] mn] mx] & -> & Hx); cbn [mbind option_bind].
  - rewrite andb_false_r. eauto.
  - destruct (Z.eqb_spec r (- EINTR)) as [-> |]; cbn [andb]; [|eauto].
    destruct Hx as (X1 & X2 & X3 & _). rewrite X3 by done. cbn [bool_decide].
    destruct (IH t' buf') as (x & E & Y); [by rewrite (proj1 X1)|].
    cbn [init_attempts] in E. cbn [negb bool_decide decide_rel].
    destruct (bool_decide (S n = 0%nat)) eqn:Eb; [by apply bool_decide_eq_true_1 in Eb|].
    cbn [negb]. rewrite E. exists x. split; [done|].
    destruct x as [[[[[r2 t2] buf2] size2] mn2] mx2]. destruct Y as (Y1 & Y2 & Y3 & Y4).
    split; [eapply window_trans; eauto|done].
Qed.

Lemma read_from_tbuf_safe (t : nat) (buf : list Z) (buffer size : Z) :
  0 <= size < 2 ^ 32 -> 0 <= buffer -> buffer + size <= zlen buf ->
  exists r, eventlib_read_from_tbuf ms tb t buf buffer size = Some r /\
    window buf (tr_buf r) buffer (buffer + size) /\ 0 <= tr_size r <= size /\
    tbuf_tracectx (tr_ctx r) = ctx /\
    seqid_ack tb <= seqid_ack (tr_ctx r) /\
    (tr_ret r = 0 -> tr_size r <> 0 -> seqid_ack tb < seqid_ack (tr_ctx r)).
Proof.
  intros Hs Hb Hl. unfold eventlib_read_from_tbuf.
  destruct (init_attempts_safe 1 t buf buffer size Hs Hb Hl)
    as ([[[[[r t'] buf'] size'] mn] mx] & E & X1 & X2 & X3 & X4).
  change INIT_COUNT_MAX with 2%nat. rewrite E. cbn [mbind option_bind].
  destruct (Z.eqb_spec r 0) as [-> |]; cbn [negb orb].
  - destruct (Z.eqb_spec size' 0) as [-> |]; (eexists; split; [reflexivity|]); cbn;
      split_and!; try apply X1; try done; try lia.
  - eexists. split; [reflexivity|]. cbn. split_and!; try apply X1; try done; lia.
Qed.

(** C20. A read is safe against its writer and never goes back: whatever is in
    shared memory at each load, [eventlib_read_from_tbuf] terminates without
    touching memory outside the buffer [buffer, buffer+size) it was given,
    reports a size within it, and moves the acknowledged sequence number only
    forward, strictly so when it delivers anything. (Nothing is claimed here of
    the records: with a writer that does not keep to the protocol they hold
    whatever it put there.) *)
Theorem eventlib_read_from_tbuf_safe (t : nat) (buf : list Z) (buffer size : Z) :
  0 <= size < 2 ^ 32 -> 0 <= buffer -> buffer + size <= zlen buf ->
  exists r, eventlib_read_from_tbuf ms tb t buf buffer size = Some r /\
    window buf (tr_buf r) buffer (buffer + size) /\ 0 <= tr_size r <= size /\
    tbuf_tracectx (tr_ctx r) = ctx /\
    seqid_ack tb <= seqid_ack (tr_ctx r) /\
    (tr_ret r = 0 -> tr_size r <> 0 -> seqid_ack tb < seqid_ack (tr_ctx r)).
Proof. apply read_from_tbuf_safe. Qed.
End safety.

(** ** What a read delivers

    [delivery ack ms avail]: the records of the messages [ms] (newest first)
    that are newer than [ack], as far as the space goes. *)
Fixpoint delivery (ack : Z) (ms : list msg) (avail : Z) : list (msg * list Z) :=
  match ms with
  | [] => []
  | x :: ms =>
      if (avail <? sizeof_record) || (hdr_seqid (m_hdr x) <=? ack) then []
      else
        let n := Z.min (avail - sizeof_record) (zlen (m_data x)) in
        (x, record_enc n (reserved (m_hdr x)) (params (m_hdr x)) ++ slice (m_data x) 0 n)
          :: delivery ack ms (avail - sizeof_record - n)
  end.

Definition delivered_bytes (l : list (msg * list Z)) : list Z := concat (map snd l).
Definition delivered_ids (l : list (msg * list Z)) : list Z :=
  map (fun d => hdr_seqid (m_hdr d.1)) l.

Lemma buf_write_nil buf off : 0 <= off <= zlen buf -> buf_write buf off [] = Some buf.
Proof.
  intros H. unfold buf_write. rewrite mem_write_Some; [|lia|change (zlen []) with 0; lia].
  f_equal. unfold splice. cbn. rewrite Nat.add_0_r. apply take_drop.
Qed.

Section idle_read.
Context (m : tbmem) (wc p : Z) (tb : tbuf_ctx).
Let ctx := tbuf_tracectx tb.
Let ms : nat -> tbmem := fun _ => m.
Hypothesis Hctx : ctx_ok ctx.
Hypothesis Hroom : addr_room ctx.
Hypothesis Hmem : mem_ok ctx m.
Hypothesis Hidle : idle ctx wc p m.

Lemma window_slice a b lo hi off len :
  window a b lo hi -> 0 <= off -> 0 <= len -> off + len <= zlen a ->
  off + len <= lo \/ hi <= off -> slice b off len = slice a off len.
Proof.
  intros [L H] Ho Hl Hb D. apply slice_ext; try lia. intros i Hi. apply H. lia.
Qed.

(** One call of tbuf_pull_single on a quiet buffer. *)
Lemma attempts_shows t st x l buf at_ paylen :
  shows ctx m wc p st (x :: l) -> 0 <= paylen < 2 ^ 32 -> 0 <= at_ -> at_ + paylen <= zlen buf ->
  let n := Z.min paylen (zlen (m_data x)) in
  exists r t', pull_attempts ms 2 ctx t st buf at_ paylen =
      Some (r, t', splice buf at_ (slice (m_data x) 0 n)) /\
    ret r = 0 /\ hdr_out r = Some (m_hdr x) /\ paylen_out r = n /\
    shows ctx m wc p (st_out r) l.
Proof.
  intros Hsh Hp Ha Hb n. cbn [pull_attempts]. change (fun k => ms (t + k)%nat) with (fun _ : nat => m).
  assert (zlen (slice (m_data x) 0 n) = n) as Hn.
  { pose proof (zlen_nonneg (m_data x)). apply zlen_slice; lia. }
  assert (buf_write buf at_ (slice (m_data x) 0 n) = Some (splice buf at_ (slice (m_data x) 0 n)))
    as Hbw by (apply mem_write_Some; lia).
  destruct (shows_pull ctx Hctx m wc p Hidle st (x :: l) paylen Hsh Hp)
    as (r & -> & [Ho|(Hr & Hpl & r' & Er' & Ho)]); cbn [mbind option_bind].
  - destruct Ho as (O1 & O2 & O3 & O4 & O5). fold n in O3, O4. rewrite O3, Hbw. cbn [mbind option_bind].
    rewrite O1. cbn [Z.eqb andb Z.opp EAGAIN]. eauto 10.
  - rewrite Hpl, buf_write_nil by lia. cbn [mbind option_bind].
    rewrite Hr. change ((- EAGAIN =? - EAGAIN) && negb (bool_decide (1%nat = 0%nat))) with true.
    cbv iota. change (fun k => ms (t + 5 + k)%nat) with (fun _ : nat => m). rewrite Er'.
    cbn [mbind option_bind]. destruct Ho as (O1 & O2 & O3 & O4 & O5). fold n in O3, O4.
    rewrite O3, Hbw. cbn [mbind option_bind]. rewrite andb_false_r. eauto 10.
Qed.

(** The end of the messages: some attempt reports -ENOBUFS. *)
Lemma attempts_end t st buf at_ paylen :
  shows ctx m wc p st [] -> pull_ok st -> 0 <= paylen < 2 ^ 32 -> 0 <= at_ ->
  at_ + paylen <= zlen buf ->
  exists r t' buf', pull_attempts ms 2 ctx t st buf at_ paylen = Some (r, t', buf') /\
    ret r = - ENOBUFS.
Proof.
  intros Hsh Hst Hp Ha Hb.
  destruct (attempts_safe ms tb Hctx Hroom (fun _ => Hmem) 1 t st buf at_ paylen)
    as (r1 & t1 & b1 & E1 & _); try done.
  exists r1, t1, b1. split; [done|]. cbn [pull_attempts] in E1.
  change (fun k => ms (t + k)%nat) with (fun _ : nat => m) in E1.
  change (fun k => ms (t + 5 + k)%nat) with (fun _ : nat => m) in E1.
  change (tbuf_tracectx tb) with ctx in E1.
  destruct (shows_pull ctx Hctx m wc p Hidle st [] paylen Hsh Hp)
    as (r & Er & [Ho|(Hr & Hpl & r' & Er' & Ho)]); rewrite Er in E1; cbn [mbind option_bind] in E1.
  - destruct (buf_write buf at_ (payload_out r)); cbn [mbind option_bind] in E1; [|done].
    cbn in Ho. rewrite Ho in E1. cbn in E1. by inversion E1; subst.
  - rewrite Hpl, buf_write_nil in E1 by lia. cbn [mbind option_bind] in E1.
    rewrite Hr in E1.
    change ((- EAGAIN =? - EAGAIN) && negb (bool_decide (1%nat = 0%nat))) with true in E1.
    cbv iota in E1. rewrite Er' in E1. cbn [mbind option_bind] in E1.
    destruct (buf_write buf at_ (payload_out r')); cbn [mbind option_bind] in E1; [|done].
    rewrite andb_false_r in E1. by inversion E1; subst.
Qed.

Lemma splice_header_payload (buf a b : list Z) cur :
  0 <= cur -> cur + zlen a + zlen b <= zlen buf ->
  splice (splice buf (cur + zlen a) b) cur a = splice buf cur (a ++ b).
Proof. intros. apply splice_app_down; lia. Qed.

Lemma single_shows t st seqid x l buf cur avail :
  shows ctx m wc p st (x :: l) -> 16 <= avail < 2 ^ 32 -> 0 <= cur -> cur + avail <= zlen buf ->
  let n := Z.min (avail - 16) (zlen (m_data x)) in
  let rec := record_enc n (reserved (m_hdr x)) (params (m_hdr x)) ++ slice (m_data x) 0 n in
  exists s, tbuf_pull_single ms ctx t st seqid buf cur (cur + 16) (avail - 16) = Some s /\
    s_ret s = 0 /\ shows ctx m wc p (s_state s) l /\ s_buf s = splice buf cur rec /\
    s_seqid s = hdr_seqid (m_hdr x) /\ s_paylen s = n /\ zlen rec = 16 + n.
Proof.
  intros Hsh Ha Hc Hb n rec. unfold tbuf_pull_single.
  assert (zlen (slice (m_data x) 0 n) = n) as Hn.
  { pose proof (zlen_nonneg (m_data x)). apply zlen_slice; lia. }
  destruct (attempts_shows t st x l buf (cur + 16) (avail - 16) Hsh)
    as (r & t' & E & R1 & R2 & R3 & R4); try lia.
  fold n in E, R3. change PULL_COUNT_MAX with 2%nat. rewrite E. cbn [mbind option_bind].
  rewrite R1, R2, R3. cbn [Z.eqb negb mbind option_bind].
  set (h := record_enc n _ _) in *.
  assert (zlen h = 16) as Hh by apply zlen_record_enc.
  unfold buf_write. rewrite mem_write_Some; [|lia|rewrite zlen_splice; lia].
  cbn [mbind option_bind]. eexists. split; [reflexivity|].
  cbn [s_ret s_state s_buf s_seqid s_paylen]. split_and!; try done.
  - replace (cur + 16) with (cur + zlen h) by lia. apply splice_header_payload; lia.
  - unfold rec. rewrite zlen_app. lia.
Qed.

Fixpoint min_id (mn : Z) (l : list (msg * list Z)) : Z :=
  match l with
  | [] => mn
  | d :: l => min_id (if hdr_seqid (m_hdr d.1) <? mn then hdr_seqid (m_hdr d.1) else mn) l
  end.
Fixpoint max_id (mx : Z) (l : list (msg * list Z)) : Z :=
  match l with
  | [] => mx
  | d :: l => max_id (if mx <? hdr_seqid (m_hdr d.1) then hdr_seqid (m_hdr d.1) else mx) l
  end.

Lemma loop_delivers fuel t st seqid buf cur avail mn mx l :
  shows ctx m wc p st l -> pull_ok st -> 0 <= avail < 2 ^ 32 -> 0 <= cur ->
  cur + avail <= zlen buf -> (Z.to_nat (avail / 16) < fuel)%nat ->
  let dl := delivery (seqid_ack tb) l avail in
  let bs := delivered_bytes dl in
  exists r, pull_loop ms fuel tb t st seqid buf cur avail mn mx = Some r /\
    mu_ret r = 0 /\ mu_avail r = avail - zlen bs /\ 0 <= zlen bs <= avail /\
    slice (mu_buf r) cur (zlen bs) = bs /\
    mu_min r = min_id mn dl /\ mu_max r = max_id mx dl.
Proof.
  revert t st seqid buf cur avail mn mx l.
  induction fuel as [|fuel IH]; intros t st seqid buf cur avail mn mx l Hsh Hst Ha Hc Hb Hf; [lia|].
  cbn [pull_loop]. unfold sizeof_record.
  assert (forall rt t b, let r := Multiple 0 t b avail mn mx in rt = Some r ->
    exists r, rt = Some r /\ mu_ret r = 0 /\ mu_avail r = avail - 0 /\ 0 <= 0 <= avail /\
      slice (mu_buf r) cur 0 = [] /\ mu_min r = mn /\ mu_max r = mx) as Hnone.
  { intros rt t0 b r ->. exists r. split_and!; cbn; try done; lia. }
  destruct (Z.ltb_spec avail 16) as [Hsm|Hsm].
  { destruct l; cbn [delivery]; unfold sizeof_record; [by eapply Hnone|].
    destruct (Z.ltb_spec avail 16); [|lia]. by eapply Hnone. }
  rewrite (u32_small (avail - 16)) by lia. fold ctx.
  destruct (single_safe ms tb Hctx Hroom (fun _ => Hmem) t st seqid buf cur avail)
    as (s0 & Es0 & S1 & S2 & S3); [done|lia|done|done|].
  destruct l as [|x l].
  - destruct (attempts_end t st buf (cur + 16) (avail - 16) Hsh Hst) as (r & t' & b' & E & Hr);
      try lia.
    unfold tbuf_pull_single. change PULL_COUNT_MAX with 2%nat. rewrite E.
    cbn [mbind option_bind]. rewrite Hr. cbn [Z.eqb negb Z.opp ENOBUFS mbind option_bind s_ret].
    by eapply Hnone.
  - destruct (single_shows t st seqid x l buf cur avail Hsh) as (s & Es & R1 & R2 & R3 & R4 & R5 & R6);
      try lia.
    assert (Some s = Some s0) as [= <-] by (rewrite <- Es; exact Es0).
    rewrite Es. cbn [mbind option_bind]. rewrite R1.
    cbn [Z.eqb negb Z.opp ENOBUFS]. rewrite R4.
    cbn [delivery]. unfold sizeof_record.
    destruct (Z.ltb_spec avail 16); [lia|]. cbn [orb].
    destruct (Z.leb_spec (hdr_seqid (m_hdr x)) (seqid_ack tb)) as [Hle|Hgt]; [by eapply Hnone|].
    cbv zeta. rewrite R5 in *. set (n := Z.min (avail - 16) (zlen (m_data x))) in *.
    set (rec := record_enc n _ _ ++ _) in *.
    rewrite (u32_small (16 + n)) by lia. destruct (Z.ltb_spec avail (16 + n)); [lia|].
    rewrite u32_small by lia.
    replace (avail - 16 - n) with (avail - (16 + n)) by lia.
    destruct (IH (s_time s) (s_state s) (hdr_seqid (m_hdr x)) (s_buf s) (cur + (16 + n))
                (avail - (16 + n)) (if hdr_seqid (m_hdr x) <? mn then hdr_seqid (m_hdr x) else mn)
                (if mx <? hdr_seqid (m_hdr x) then hdr_seqid (m_hdr x) else mx) l)
      as (r & Er & I1 & I2 & I3 & I4 & I5 & I6); try done; try lia.
    { rewrite (proj1 S2). lia. }
    { dlia. }
    assert (window (s_buf s) (mu_buf r) (cur + (16 + n)) (cur + (16 + n) + (avail - (16 + n))))
      as Hwin.
    { destruct (loop_safe ms tb Hctx Hroom (fun _ => Hmem) fuel (s_time s) (s_state s)
                  (hdr_seqid (m_hdr x)) (s_buf s) (cur + (16 + n)) (avail - (16 + n))
                  (if hdr_seqid (m_hdr x) <? mn then hdr_seqid (m_hdr x) else mn)
                  (if mx <? hdr_seqid (m_hdr x) then hdr_seqid (m_hdr x) else mx))
        as (r' & Er' & Hw' & _); try done; try lia.
      { rewrite (proj1 S2). lia. }
      { dlia. }
      rewrite Er in Er'. injection Er' as <-. exact Hw'. }
    rewrite Er. set (bs := delivered_bytes _) in *.
    change (delivered_bytes ((x, rec) :: _)) with (rec ++ bs).
    exists r. rewrite zlen_app. split_and!; try done; try lia.
    rewrite slice_app_split by lia. rewrite R6, I4. f_equal.
    rewrite (window_slice _ _ _ _ cur (16 + n) Hwin); [|lia|lia| |lia].
    + rewrite R3, <- R6. apply slice_splice_same; lia.
    + rewrite (proj1 S2). lia.
Qed.

(** Sequence numbers count down from the newest message, [s] - 1. *)
Definition consecutive (s : Z) (l : list msg) : Prop :=
  forall (i : nat) x, l !! i = Some x -> hdr_seqid (m_hdr x) = s - 1 - Z.of_nat i.

Lemma consecutive_cons s x l : consecutive s (x :: l) <->
  hdr_seqid (m_hdr x) = s - 1 /\ consecutive (s - 1) l.
Proof.
  split.
  - intros H. split; [rewrite (H 0%nat x eq_refl); lia|].
    intros i y Hy. rewrite (H (S i) y Hy). lia.
  - intros [H0 H] [|i] y Hy; cbn in Hy; [injection Hy as <-; lia|].
    rewrite (H i y Hy). lia.
Qed.

Lemma delivery_ids ack l avail s : consecutive s l ->
  let dl := delivery ack l avail in
  (dl <> [] -> ack < s - Z.of_nat (length dl)) /\
  (forall mn, dl <> [] -> s <= mn -> min_id mn dl = s - Z.of_nat (length dl)) /\
  (forall mx, dl <> [] -> mx < s - 1 -> max_id mx dl = s - 1) /\
  (forall mx, s - 1 <= mx -> max_id mx dl = mx) /\
  (dl <> [] -> 16 <= zlen (delivered_bytes dl)).
Proof.
  revert avail s. induction l as [|x l IH]; intros avail s Hc; cbn [delivery].
  { split_and!; done. }
  apply consecutive_cons in Hc as [H0 Hc]. unfold sizeof_record.
  destruct (Z.ltb_spec avail 16); cbn [orb]; [split_and!; done|].
  destruct (Z.leb_spec (hdr_seqid (m_hdr x)) ack); [split_and!; done|]. cbv zeta.
  set (n := Z.min _ _). destruct (IH (avail - 16 - n) (s - 1) Hc) as (I1 & I2 & I3 & I4 & I5).
  set (dl := delivery _ _ _) in *. cbn [length]. rewrite H0 in *.
  split_and!.
  - intros _. destruct dl; [cbn; lia|]. specialize (I1 ltac:(done)). lia.
  - intros mn _ Hmn. cbn [min_id fst]. rewrite H0. destruct (Z.ltb_spec (s - 1) mn); [|lia].
    destruct dl; [cbn; lia|]. rewrite I2 by (done || lia). lia.
  - intros mx _ Hmx. cbn [max_id fst]. rewrite H0. destruct (Z.ltb_spec mx (s - 1)); [|lia].
    apply I4. lia.
  - intros mx Hmx. cbn [max_id fst]. rewrite H0. destruct (Z.ltb_spec mx (s - 1)); [lia|].
    apply I4. lia.
  - intros _. unfold delivered_bytes. cbn [map snd concat].
    rewrite !zlen_app, zlen_record_enc.
    pose proof (zlen_nonneg (slice (m_data x) 0 n)). pose proof (zlen_nonneg (concat (map snd dl))).
    lia.
Qed.

Lemma read_delivers (t : nat) (buf : list Z) (buffer size s : Z)
    (cur old : list msg) :
  contents ctx m wc p cur old -> consecutive s (cur ++ old) ->
  0 <= seqid_ack tb -> s <= 2 ^ 64 - 1 ->
  0 <= size < 2 ^ 32 -> 0 <= buffer -> buffer + size <= zlen buf ->
  let dl := delivery (seqid_ack tb) (cur ++ old) size in
  exists r, eventlib_read_from_tbuf ms tb t buf buffer size = Some r /\
    tr_ret r = 0 /\ tr_size r = zlen (delivered_bytes dl) /\
    slice (tr_buf r) buffer (tr_size r) = delivered_bytes dl /\
    (dl = [] -> tr_ctx r = tb /\ tr_lost r = 0) /\
    (dl <> [] -> seqid_ack (tr_ctx r) = s - 1 /\
      tr_lost r + Z.of_nat (length dl) = s - 1 - seqid_ack tb).
Proof.
  intros Hcont Hcons Hack Hs Hsize Hb Hl dl.
  destruct (loop_delivers (pull_fuel size) (t + 1) (pull_init ctx m) 0 buf buffer size
              SEQUENCE_ID_MAX SEQUENCE_ID_MIN (cur ++ old))
    as (r & E & R1 & R2 & R3 & R4 & R5 & R6); try done.
  { by apply pull_init_shows. }
  { apply pull_init_ok. }
  { unfold pull_fuel, sizeof_record. lia. }
  fold dl in R2, R3, R4, R5, R6.
  destruct (delivery_ids (seqid_ack tb) (cur ++ old) size s Hcons) as (D1 & D2 & D3 & D4 & D5).
  fold dl in D1, D2, D3, D4, D5.
  unfold eventlib_read_from_tbuf. change INIT_COUNT_MAX with 2%nat. cbn [init_attempts].
  unfold tbuf_pull_multiple. fold ctx. change (ms t) with m. rewrite E.
  cbn [mbind option_bind]. rewrite R1. change (0 =? - EINTR) with false. change (0 =? 0) with true.
  cbn [andb mbind option_bind negb orb].
  rewrite R2, u32_small by lia.
  replace (size - (size - zlen (delivered_bytes dl))) with (zlen (delivered_bytes dl)) by lia.
  destruct (Z.eqb_spec (zlen (delivered_bytes dl)) 0) as [Ez|Ez].
  - assert (dl = []) as Hdl by (destruct dl; [done|]; specialize (D5 ltac:(done)); lia).
    eexists. split; [reflexivity|]. cbn [tr_ret tr_size tr_buf tr_ctx tr_lost].
    rewrite Ez in *. split_and!; done.
  - assert (dl <> []) as Hdl by (intros ->; done).
    specialize (D1 Hdl). specialize (D2 SEQUENCE_ID_MAX Hdl ltac:(unfold SEQUENCE_ID_MAX; lia)).
    eexists. split; [reflexivity|]. cbn [tr_ret tr_size tr_buf tr_ctx tr_lost seqid_ack].
    split_and!; try done. intros _. split.
    + rewrite R6. apply D3; [done|]. unfold SEQUENCE_ID_MIN.
      assert (0 < Z.of_nat (length dl)) by (destruct dl; [done|cbn; lia]). lia.
    + rewrite R5, D2. assert (0 < Z.of_nat (length dl)) by (destruct dl; [done|cbn; lia]).
      rewrite (u64_small (seqid_ack tb + 1)) by lia.
      destruct (Z.ltb_spec (seqid_ack tb + 1) (s - Z.of_nat (length dl)));
        [rewrite u64_small by lia|]; lia.
Qed.

(** A record delivered holds as much of its message as the space before it
    leaves. *)
Lemma delivery_lookup ack l avail i d : delivery ack l avail !! i = Some d ->
  l !! i = Some d.1 /\
  16 <= avail - zlen (delivered_bytes (take i (delivery ack l avail))) /\
  let n := Z.min (avail - zlen (delivered_bytes (take i (delivery ack l avail))) - sizeof_record)
             (zlen (m_data d.1)) in
  d.2 = record_enc n (reserved (m_hdr d.1)) (params (m_hdr d.1)) ++ slice (m_data d.1) 0 n.
Proof.
  revert avail i. induction l as [|x l IH]; intros avail i; cbn [delivery]; [done|].
  unfold sizeof_record. destruct (Z.ltb_spec avail 16); cbn [orb]; [done|].
  destruct (Z.leb_spec (hdr_seqid (m_hdr x)) ack); [done|]. cbv zeta.
  set (n := Z.min (avail - 16) _). destruct i as [|i]; cbn [lookup list_lookup].
  - intros [= <-]. cbn [fst snd take delivered_bytes map concat]. cbn [concat map]. change (zlen []) with 0.
    rewrite Z.sub_0_r. split_and!; done || lia.
  - intros Hd. destruct (IH _ _ Hd) as (H1 & H2 & H3). split; [done|].
    cbn [take]. unfold delivered_bytes in *. cbn [map snd concat].
    assert (zlen (slice (m_data x) 0 n) = n) as Hsl
      by (unfold n; pose proof (zlen_nonneg (m_data x)); apply zlen_slice; lia).
    rewrite !zlen_app, zlen_record_enc, Hsl.
    unfold sizeof_record in H3.
    match goal with |- context [avail - (16 + n + ?z)] =>
      replace (avail - (16 + n + z)) with (avail - 16 - n - z) by lia end.
    split; [lia|exact H3].
Qed.

(** Reading a quiet buffer. The records delivered are those of the newest
    messages, newest first, above the acknowledged sequence number, as many
    as the space holds; and no event disappears silently: if anything is
    delivered, the acknowledged number becomes the newest one and the events
    it skips are exactly the ones delivered and the ones reported lost. *)
Theorem eventlib_read_from_tbuf_delivers (t : nat) (buf : list Z) (buffer size s : Z)
    (cur old : list msg) :
  contents ctx m wc p cur old -> consecutive s (cur ++ old) ->
  0 <= seqid_ack tb -> s <= 2 ^ 64 - 1 ->
  0 <= size < 2 ^ 32 -> 0 <= buffer -> buffer + size <= zlen buf ->
  let dl := delivery (seqid_ack tb) (cur ++ old) size in
  exists r, eventlib_read_from_tbuf ms tb t buf buffer size = Some r /\
    tr_ret r = 0 /\ tr_size r = zlen (delivered_bytes dl) /\
    slice (tr_buf r) buffer (tr_size r) = delivered_bytes dl /\
    (dl = [] -> tr_ctx r = tb /\ tr_lost r = 0) /\
    (dl <> [] -> seqid_ack (tr_ctx r) = s - 1 /\
      tr_lost r + Z.of_nat (length dl) = s - 1 - seqid_ack tb).
Proof. apply read_delivers. Qed.
End idle_read.

(** ** From the writer to the reader *)
Section roundtrip.
Context (ctx : tracectx).
Hypothesis Hctx : ctx_ok ctx.
Hypothesis Hroom : addr_room ctx.

(** An event as [eventlib_write] pushes it: type, time stamp, data. *)
Record event := Event { ev_type : Z; ev_ts : Z; ev_data : list Z }.

Definition event_ok (e : event) : Prop :=
  0 <= ev_type e < 2 ^ 32 /\ 0 <= ev_ts e < 2 ^ 64 /\ zlen (ev_data e) < 2 ^ 32 /\
  bytes_ok (ev_data e).

Definition push_event (e : event) (m : tbmem) : option tbmem :=
  '(_, m) ← tracebuf_push ctx (Hdr (ev_ts e) 0 0 (ev_type e)) (ev_data e) (zlen (ev_data e)) m;
  Some m.

Fixpoint push_events (es : list event) (m : tbmem) : option tbmem :=
  match es with
  | [] => Some m
  | e :: es => m ← push_event e m; push_events es m
  end.

(** The message an event becomes. *)
Definition event_msg (id : Z) (e : event) : msg :=
  Msg (Hdr (ev_ts e) id (zlen (ev_data e)) (ev_type e))
      (stored ctx (ev_data e) (zlen (ev_data e))).

Lemma msg_bytes_ok x : bytes_ok (m_data x) -> bytes_ok (msg_bytes x).
Proof.
  intros H. unfold msg_bytes, hdr_enc.
  repeat apply Forall_app_2; try apply le_enc_bytes_ok; [done|].
  apply fill_bytes_ok. by split.
Qed.

Lemma push_event_spec e m wc p cur old :
  contents ctx m wc p cur old -> bytes_ok (area m) -> event_ok e ->
  consecutive (seqid (shared m)) (cur ++ old) -> seqid (shared m) + 1 < 2 ^ 64 ->
  exists m' wc' p' cur' old' k,
    push_event e m = Some m' /\ contents ctx m' wc' p' cur' old' /\ bytes_ok (area m') /\
    seqid (shared m') = seqid (shared m) + 1 /\
    consecutive (seqid (shared m')) (cur' ++ old') /\
    cur' ++ old' = event_msg (seqid (shared m)) e :: take k (cur ++ old).
Proof.
  intros Hc Hb (E1 & E2 & E3 & E4) Hcons Hseq.
  pose proof (zlen_nonneg (ev_data e)).
  destruct (push_contents ctx Hctx m wc p cur old (Hdr (ev_ts e) 0 0 (ev_type e))
              (ev_data e) (zlen (ev_data e)) Hc) as (m' & wc' & p' & cur' & old' & k & H1 & H2 & H3 & H4);
    try (cbn; lia).
  exists m', wc', p', cur', old', k. unfold push_event. rewrite H1.
  pose proof (idle_seqid _ _ _ _ (cont_idle _ _ _ _ _ _ Hc)).
  rewrite u64_small in H4 by lia. split_and!; try done.
  - destruct (cont_idle _ _ _ _ _ _ Hc).
    rewrite (tracebuf_push_result ctx Hctx _ _ _ wc p m) in H1
      by (apply Hc || lia). injection H1 as <-.
    assert (bytes_ok (msg_bytes (event_msg (seqid (shared m)) e))) as Hmb
      by (apply msg_bytes_ok; cbn; by apply slice_bytes_ok).
    unfold pushed, event_msg in *. cbn [params reserved].
    repeat case_z; cbn [area]; auto with mem_db;
      repeat apply splice_bytes_ok; try done; apply le_enc_bytes_ok.
  - rewrite H3, H4. apply consecutive_cons. split; [cbn; lia|].
    replace (seqid (shared m) + 1 - 1) with (seqid (shared m)) by lia.
    intros i x Hi. apply Hcons. by apply lookup_take_Some in Hi as [Hi _].
Qed.

(** The messages in the buffer are the last ones of [es], newest first, and
    the next sequence number is that of the next event. *)
Definition holds_events (es : list event) (m : tbmem) : Prop :=
  exists wc p cur old,
    contents ctx m wc p cur old /\ bytes_ok (area m) /\
    seqid (shared m) = zlen es + 1 /\ consecutive (zlen es + 1) (cur ++ old) /\
    (es <> [] -> cur ++ old <> []) /\
    forall i x, (cur ++ old) !! i = Some x -> exists e, (i < length es)%nat /\
      es !! (length es - S i)%nat = Some e /\ x = event_msg (zlen es - Z.of_nat i) e.

Lemma push_event_holds es e m :
  holds_events es m -> event_ok e -> zlen es + 1 < 2 ^ 64 - 1 ->
  exists m', push_event e m = Some m' /\ holds_events (es ++ [e]) m'.
Proof.
  intros (wc & p & cur & old & Hc & Hb & Hs & Hcons & _ & Hm) He Hn.
  rewrite <- Hs in Hcons.
  destruct (push_event_spec e m wc p cur old Hc Hb He Hcons ltac:(lia))
    as (m' & wc' & p' & cur' & old' & k & E & H1 & H2 & H3 & H4 & H5).
  exists m'. split; [done|]. exists wc', p', cur', old'.
  rewrite zlen_app, zlen_cons, zlen_nil, H5, H3 in *. rewrite Hs in *.
  replace (zlen es + (1 + 0) + 1) with (zlen es + 1 + 1) by lia.
  split_and!; try done. intros [|i] x; cbn [lookup list_lookup]; rewrite length_app; cbn [length].
  - intros [= <-]. exists e. split_and!; [lia| |f_equal; lia].
    rewrite list_lookup_middle by lia. done.
  - intros Hi. apply lookup_take_Some in Hi as [Hi _].
    destruct (Hm i x Hi) as (e' & Hlt & He' & ->). exists e'. split_and!; [lia| |f_equal; lia].
    rewrite lookup_app_l by lia. rewrite <- He'. f_equal. lia.
Qed.

(** What the buffer holds after a run of writes. *)
Lemma push_events_hold more es m :
  holds_events es m -> Forall event_ok more -> zlen es + zlen more < 2 ^ 64 - 2 ->
  exists m', push_events more m = Some m' /\ holds_events (es ++ more) m'.
Proof.
  intros Hm Hok. revert es m Hm.
  induction Hok as [|e more He Hmore IH]; intros es m Hm Hn.
  - exists m. by rewrite app_nil_r.
  - rewrite zlen_cons in Hn. pose proof (zlen_nonneg more).
    destruct (push_event_holds es e m Hm He ltac:(lia)) as (m1 & E1 & H1).
    destruct (IH (es ++ [e]) m1 H1) as (m' & E' & H').
    { rewrite zlen_app, zlen_cons, zlen_nil. lia. }
    exists m'. cbn [push_events]. rewrite E1. by rewrite <- app_assoc in H'.
Qed.

Lemma delivery_nonempty ack l avail : 16 <= avail ->
  (forall x, head l = Some x -> ack < hdr_seqid (m_hdr x)) -> l <> [] -> delivery ack l avail <> [].
Proof.
  intros Ha Hh Hl. destruct l as [|x l]; [done|]. cbn [delivery]. unfold sizeof_record.
  destruct (Z.ltb_spec avail 16); [lia|]. cbn [orb].
  specialize (Hh x eq_refl). destruct (Z.leb_spec (hdr_seqid (m_hdr x)) ack); [lia|done].
Qed.

(** The record a reader is given for an event when [space] bytes are left: its
    length, type and time stamp, and as much of the data as was stored and
    fits. *)
Definition event_record (e : event) (space : Z) : list Z :=
  let n := Z.min (space - sizeof_record) (Z.min (zlen (ev_data e)) (maxsize_ ctx)) in
  record_enc n (ev_type e) (ev_ts e) ++ slice (ev_data e) 0 n.

(** [recs] are the records of the newest of [es], newest first, each written
    into the space the ones before it leave of [size]. *)
Definition newest_records (es : list event) (size : Z) (recs : list (list Z)) : Prop :=
  forall i rec, recs !! i = Some rec -> exists e, (i < length es)%nat /\
    es !! (length es - S i)%nat = Some e /\
    rec = event_record e (size - zlen (concat (take i recs))).

Lemma event_msg_record id e space : 16 <= space ->
  let x := event_msg id e in
  let n := Z.min (space - sizeof_record) (zlen (m_data x)) in
  record_enc n (reserved (m_hdr x)) (params (m_hdr x)) ++ slice (m_data x) 0 n
  = event_record e space.
Proof.
  intros Hsp. cbv zeta. cbn [event_msg m_hdr m_data reserved params]. unfold event_record.
  pose proof (zlen_nonneg (ev_data e)). pose proof (ctx_maxsize_bound _ Hctx).
  destruct (stored_length ctx Hctx (ev_data e) (zlen (ev_data e)) ltac:(lia)) as [_ ->].
  replace (if maxsize_ ctx <? zlen (ev_data e) then maxsize_ ctx else zlen (ev_data e))
    with (Z.min (zlen (ev_data e)) (maxsize_ ctx)) by (case_z; lia).
  f_equal. unfold stored, sizeof_record. rewrite slice_slice; [done|..]; try case_z; lia.
Qed.
(** One read of a quiet buffer that holds the events [es], by a reader that has
    acknowledged the first [a] of them. *)
Lemma read_newest es a m t buf at_ size :
  holds_events es m -> 0 <= a <= zlen es ->
  zlen es < 2 ^ 64 - 2 -> 16 <= size < 2 ^ 32 -> 0 <= at_ -> at_ + size <= zlen buf ->
  exists r recs,
    eventlib_read_from_tbuf (fun _ => m) (Tbuf ctx a) t buf at_ size = Some r /\
    tr_ret r = 0 /\ slice (tr_buf r) at_ (tr_size r) = concat recs /\
    newest_records es size recs /\
    zlen recs <= zlen es - a /\
    (a < zlen es -> recs <> [] /\ tr_lost r + zlen recs = zlen es - a) /\
    tr_ctx r = Tbuf ctx (zlen es).
Proof.
  intros (wc & p & cur & old & Hc & Hb & Hs & Hcons & Hne & Hm) Ha Hn Hsz Hat Hbuf.
  pose proof (cont_idle _ _ _ _ _ _ Hc) as Hidle.
  pose proof (conj (idle_area _ _ _ _ Hidle) Hb : mem_ok ctx m) as Hmem.
  destruct (read_delivers m wc p (Tbuf ctx a) Hctx Hroom Hmem Hidle t buf at_ size (zlen es + 1)
              cur old) as (r & Er & R1 & R2 & R3 & R4 & R5); try done; try (cbn [seqid_ack]; lia).
  change (seqid_ack (Tbuf ctx a)) with a in *. set (dl := delivery a (cur ++ old) size) in *.
  pose proof (proj1 (delivery_ids a (cur ++ old) size (zlen es + 1) Hcons)) as D1. fold dl in D1.
  destruct (read_from_tbuf_safe (fun _ => m) (Tbuf ctx a) Hctx Hroom (fun _ => Hmem)
              t buf at_ size) as (r' & Er' & _ & _ & Hctx' & _); try lia.
  rewrite Er in Er'. injection Er' as <-. cbn [tbuf_tracectx] in Hctx'.
  assert (a < zlen es -> dl <> []) as Hsome.
  { intros Hlt. apply delivery_nonempty; [lia| |apply Hne; intros ->; change (zlen []) with 0 in *; lia].
    intros x Hx. rewrite (Hcons 0%nat x); [lia|]. by rewrite <- head_lookup. }
  exists r, (map snd dl). split_and!; try done.
  - intros i rec Hi. rewrite list_lookup_fmap in Hi.
    destruct (dl !! i) as [d|] eqn:Ed; [|done]. injection Hi as <-.
    destruct (delivery_lookup a (cur ++ old) size i d Ed) as (L1 & L2 & L3).
    destruct (Hm i _ L1) as (e & Hlt & He & Hd1). exists e. split_and!; [done|done|].
    rewrite L3, Hd1. fold dl. rewrite firstn_map.
    by apply event_msg_record.
  - unfold zlen in *. rewrite length_map.
    destruct dl as [|d dl']; [cbn; lia|]. specialize (D1 ltac:(done)). lia.
  - intros Hlt%Hsome. split; [by destruct dl|]. destruct (R5 Hlt) as [_ Hl].
    unfold zlen in *. rewrite length_map. lia.
  - destruct (tr_ctx r) as [c k] eqn:Ec. cbn in *. subst c. f_equal.
    destruct (decide (dl = [])) as [Hdl|Hdl]; [|destruct (R5 Hdl) as [Hk _]; lia].
    destruct (R4 Hdl) as [[= ->] _]. destruct (Z.ltb_spec a (zlen es)); [|lia].
    by destruct (Hsome ltac:(done)).
Qed.

Lemma init_holds buffer len m0 m1 :
  0 <= buffer -> 0 <= len < 2 ^ 32 -> buffer + len < 2 ^ 64 ->
  fill_context buffer len = inr ctx ->
  zlen (area m0) = length_ ctx -> bytes_ok (area m0) ->
  tracebuf_init buffer len m0 = Some (inr ctx, m1) -> holds_events [] m1.
Proof.
  intros Hb Hl Ht Hfc Ha Hbytes Hinit.
  destruct (init_contents ctx Hctx buffer len m0 Hb Hl Ht Hfc Ha)
    as (m1' & E1 & Hc & Hs1 & _ & _ & _ & Hb1). rewrite Hinit in E1. injection E1 as <-.
  exists 0, 0, [], []. split_and!; try done. by apply Hb1.
Qed.

Lemma newest_suffix es es2 size recs :
  newest_records (es ++ es2) size recs -> zlen recs <= zlen es2 -> newest_records es2 size recs.
Proof.
  intros Hr Hle i rec Hi. destruct (Hr i rec Hi) as (e & _ & He & ->).
  apply lookup_lt_Some in Hi. unfold zlen in Hle. exists e.
  split_and!; [lia| |done]. rewrite lookup_app_r in He by (rewrite length_app; lia).
  rewrite <- He, length_app. f_equal. lia.
Qed.

(** C21. Written events come back. After any sequence of writes [es] to a fresh
    buffer, a read of it succeeds and delivers records of the newest events,
    newest first: each is the length, type and time stamp of its event and the
    first bytes of its data, as many as the buffer stored and as the space the
    records before it leave admits; and as lost it reports exactly the written
    events it does not deliver. With room for one record, the last event
    written is always delivered. After further writes [es2] a second read
    delivers records of these only, in the same way: no event is delivered
    twice. *)
Theorem write_then_read (buffer len : Z) (m0 m1 : tbmem) (es es2 : list event)
    (t t2 : nat) (buf buf2 : list Z) (at_ at2 size size2 : Z) :
  0 <= buffer -> 0 <= len < 2 ^ 32 -> buffer + len < 2 ^ 64 ->
  fill_context buffer len = inr ctx ->
  zlen (area m0) = length_ ctx -> bytes_ok (area m0) ->
  tracebuf_init buffer len m0 = Some (inr ctx, m1) ->
  Forall event_ok (es ++ es2) -> zlen es + zlen es2 < 2 ^ 64 - 2 ->
  16 <= size < 2 ^ 32 -> 0 <= at_ -> at_ + size <= zlen buf ->
  16 <= size2 < 2 ^ 32 -> 0 <= at2 -> at2 + size2 <= zlen buf2 ->
  exists m r recs m2 r2 recs2,
    push_events es m1 = Some m /\
    eventlib_read_from_tbuf (fun _ => m) (Tbuf ctx 0) t buf at_ size = Some r /\
    tr_ret r = 0 /\ slice (tr_buf r) at_ (tr_size r) = concat recs /\
    newest_records es size recs /\
    (es <> [] -> recs <> [] /\ tr_lost r + zlen recs = zlen es) /\
    push_events es2 m = Some m2 /\
    eventlib_read_from_tbuf (fun _ => m2) (tr_ctx r) t2 buf2 at2 size2 = Some r2 /\
    tr_ret r2 = 0 /\ slice (tr_buf r2) at2 (tr_size r2) = concat recs2 /\
    newest_records es2 size2 recs2 /\
    (es2 <> [] -> recs2 <> [] /\ tr_lost r2 + zlen recs2 = zlen es2).
Proof.
  intros Hb Hl Ht Hfc Ha Hbytes Hinit Hes Hn Hsz Hat Hbuf Hsz2 Hat2 Hbuf2.
  pose proof (zlen_nonneg es). pose proof (zlen_nonneg es2).
  apply Forall_app in Hes as [Hes1 Hes2].
  pose proof (init_holds buffer len m0 m1 Hb Hl Ht Hfc Ha Hbytes Hinit) as H1.
  destruct (push_events_hold es [] m1 H1 Hes1) as (m & Em & Hm);
    [change (zlen []) with 0; lia|]. cbn [app] in Hm.
  destruct (push_events_hold es2 es m Hm Hes2) as (m2 & Em2 & Hm2); [lia|].
  destruct (read_newest es 0 m t buf at_ size Hm)
    as (r & recs & Er & R1 & R2 & R3 & R4 & R5 & R6); try lia.
  destruct (read_newest (es ++ es2) (zlen es) m2 t2 buf2 at2 size2 Hm2)
    as (r2 & recs2 & Er2 & Q1 & Q2 & Q3 & Q4 & Q5 & Q6); rewrite ?zlen_app; try lia.
  rewrite zlen_app in *.
  exists m, r, recs, m2, r2, recs2. rewrite R6. split_and!; try done.
  - intros Hne%zlen_pos. destruct (R5 Hne) as [? ?]. split; [done|lia].
  - apply (newest_suffix es); [done|lia].
  - intros Hne%zlen_pos. destruct (Q5 ltac:(lia)) as [? ?]. split; [done|lia].
Qed.
End roundtrip.

(** ** Examples *)

Definition ex_tb : tbuf_ctx := Tbuf ex_ctx 0.

Lemma ex_consecutive : consecutive 2 ([ex_msg] ++ []).
Proof. apply consecutive_cons. split; [done|]. intros i x Hx. by destruct i. Qed.

Lemma eventlib_read_from_tbuf_safe_witness : exists r,
  eventlib_read_from_tbuf (fun _ => ex_mem1) ex_tb 0 (fill 64 0) 8 40 = Some r /\
  window (fill 64 0) (tr_buf r) 8 (8 + 40) /\ 0 <= tr_size r <= 40 /\
  tbuf_tracectx (tr_ctx r) = ex_ctx /\ 0 <= seqid_ack (tr_ctx r) /\
  (tr_ret r = 0 -> tr_size r <> 0 -> 0 < seqid_ack (tr_ctx r)).
Proof.
  apply (eventlib_read_from_tbuf_safe (fun _ => ex_mem1) ex_tb);
    [exact ex_ctx_ok|exact ex_addr_room|intros _; exact ex_mem1_ok|lia|lia|by vm_compute].
Defined.

Lemma eventlib_read_from_tbuf_delivers_witness : exists r,
  eventlib_read_from_tbuf (fun _ => ex_mem1) ex_tb 0 (fill 64 0) 8 40 = Some r /\
  tr_ret r = 0 /\ tr_size r = 19 /\
  slice (tr_buf r) 8 19 = record_enc 3 5 7 ++ [1; 2; 3] /\ tr_lost r = 0.
Proof.
  destruct (eventlib_read_from_tbuf_delivers ex_mem1 0 40 ex_tb ex_ctx_ok ex_addr_room ex_mem1_ok
              (cont_idle _ _ _ _ _ _ ex_contents) 0 (fill 64 0) 8 40 2 [ex_msg] []
              ex_contents ex_consecutive ltac:(done) ltac:(lia) ltac:(lia) ltac:(lia)
              ltac:(by vm_compute)) as (r & Er & R1 & R2 & R3 & _ & R5).
  exists r. rewrite R2 in R3. destruct R5 as [_ R5]; [by vm_compute|].
  split_and!; [exact Er|exact R1|rewrite R2; by vm_compute|
    etrans; [|exact R3]; by vm_compute|].
  cbn in R5. lia.
Defined.

Definition ex_event : event := Event 5 7 [1; 2; 3].
Definition ex_fresh : tbmem :=
  match tracebuf_init ex_buffer 1056 ex_mem with Some (_, m) => m | None => ex_mem end.

Lemma ex_event_ok : event_ok ex_event.
Proof. split_and!; try (by vm_compute). by apply bytes_ok_dec. Qed.

Lemma write_then_read_witness : exists m r recs m2 r2 recs2,
  push_events ex_ctx [ex_event; ex_event] ex_fresh = Some m /\
  eventlib_read_from_tbuf (fun _ => m) ex_tb 0 (fill 64 0) 8 17 = Some r /\
  tr_ret r = 0 /\ slice (tr_buf r) 8 (tr_size r) = concat recs /\
  newest_records ex_ctx [ex_event; ex_event] 17 recs /\
  ([ex_event; ex_event] <> [] -> recs <> [] /\ tr_lost r + zlen recs = 2) /\
  push_events ex_ctx [ex_event] m = Some m2 /\
  eventlib_read_from_tbuf (fun _ => m2) (tr_ctx r) 0 (fill 64 0) 8 40 = Some r2 /\
  tr_ret r2 = 0 /\ slice (tr_buf r2) 8 (tr_size r2) = concat recs2 /\
  newest_records ex_ctx [ex_event] 40 recs2 /\
  ([ex_event] <> [] -> recs2 <> [] /\ tr_lost r2 + zlen recs2 = 1).
Proof.
  apply (write_then_read ex_ctx ex_ctx_ok ex_addr_room ex_buffer 1056 ex_mem ex_fresh
           [ex_event; ex_event] [ex_event] 0 0 (fill 64 0) (fill 64 0) 8 8 17 40).
  1-5: by vm_compute.
  - apply ex_mem_ok.
  - by vm_compute.
  - repeat (constructor; [exact ex_event_ok|]). constructor.
  - by vm_compute.
  - lia.
  - lia.
  - by vm_compute.
  - lia.
  - lia.
  - by vm_compute.
Defined.
