(* ===== verification/EventlibFlt.v ===== *)
(** * Event filtering (drivers/misc/eventlib/eventlib_flt.c, eventlib_flt.h)

    Readers publish filter masks in slots of the r2w block under a per-slot
    sequence lock; the writer collects changed masks and ORs them. The r2w block
    is bytes, because slots may overlap what is copied into them. The writer's
    loads see a timeline [rd] of the block; its stores go to the state. *)

From S2P Require Import Prelude Tracebuf Eventlib.

Definition FLT_COMPAT_INFO : Z := 0.
Definition sizeof_flt_w2r : Z := 8.
Definition sizeof_flt_r2w : Z := 12.
Definition sizeof_flt_slot : Z := 4.

Definition bit (n : Z) : Z := Z.shiftl 1 n.
Definition has_bit (x n : Z) : bool := negb (Z.land x (bit n) =? 0).
(** [x & ~(1u << n)] and [x | (1u << n)] *)
Definition clear_bit (x n : Z) : Z := Z.land x (u32 (Z.lnot (bit n))).
Definition set_bit (x n : Z) : Z := Z.lor x (bit n).

(** ** Access to the blocks and to the filter context *)

Definition get_flt : M estate flt_ctx := p ← get_priv; mret (flt p).
Definition modify_flt (f : flt_ctx -> flt_ctx) : M estate unit :=
  modify_priv (fun p => set_flt (f (flt p)) p).

Definition load32 (off : Z) : M estate Z := s ← get; checked (rd_le 4 (r2w_mem s) off).
Definition store_bytes (off : Z) (bs : list Z) : M estate unit :=
  s ← get; m ← checked (mem_write (r2w_mem s) off bs); modify (set_r2w_mem m).
Definition store32 (off x : Z) : M estate unit := store_bytes off (le_enc 4 x).

Definition NOTIFY (f : flt_ctx) : Z := flt_r2w f.
Definition ACK (f : flt_ctx) : Z := flt_r2w f + 4.
Definition BUSY (f : flt_ctx) : Z := flt_r2w f + 8.

(** The address of the n-th slot; its mask follows the sequence lock. *)
Definition flt_r2w_slot (f : flt_ctx) (n : Z) : Z :=
  flt_r2w f + sizeof_flt_r2w + n * slot_size f.

(** The atomic builtins on a word of the block. *)
Definition sync_test_and_set_bit (n off : Z) : M estate bool :=
  v ← load32 off; store32 off (set_bit v n);; mret (has_bit v n).
Definition sync_set_bit (n off : Z) : M estate unit :=
  v ← load32 off; store32 off (set_bit v n).
Definition sync_clear_bit (n off : Z) : M estate unit :=
  v ← load32 off; store32 off (clear_bit v n).

(** Field updates of the filter context. *)
Definition set_inited (b : bool) (f : flt_ctx) : flt_ctx :=
  Flt b (flt_w2r f) (flt_r2w f) (geo f) (slot_size f) (w_ack f) (combined_mask f)
    (mask_copy f) (mask_copy_valid f) (r_mask f) (slot_index f).
Definition set_pointers (w r : Z) (f : flt_ctx) : flt_ctx :=
  Flt (inited f) w r (geo f) (slot_size f) (w_ack f) (combined_mask f)
    (mask_copy f) (mask_copy_valid f) (r_mask f) (slot_index f).
Definition set_geo (g : domain -> domain_geo) (sz : Z) (f : flt_ctx) : flt_ctx :=
  Flt (inited f) (flt_w2r f) (flt_r2w f) g sz (w_ack f) (combined_mask f)
    (mask_copy f) (mask_copy_valid f) (r_mask f) (slot_index f).
Definition set_w_ack (a : Z) (f : flt_ctx) : flt_ctx :=
  Flt (inited f) (flt_w2r f) (flt_r2w f) (geo f) (slot_size f) a (combined_mask f)
    (mask_copy f) (mask_copy_valid f) (r_mask f) (slot_index f).
Definition set_masks (comb : list Z) (copy : list (list Z)) (valid : Z) (f : flt_ctx) : flt_ctx :=
  Flt (inited f) (flt_w2r f) (flt_r2w f) (geo f) (slot_size f) (w_ack f) comb
    copy valid (r_mask f) (slot_index f).
Definition set_r_mask (m : list Z) (f : flt_ctx) : flt_ctx :=
  Flt (inited f) (flt_w2r f) (flt_r2w f) (geo f) (slot_size f) (w_ack f) (combined_mask f)
    (mask_copy f) (mask_copy_valid f) m (slot_index f).
Definition set_slot_index (n : Z) (f : flt_ctx) : flt_ctx :=
  Flt (inited f) (flt_w2r f) (flt_r2w f) (geo f) (slot_size f) (w_ack f) (combined_mask f)
    (mask_copy f) (mask_copy_valid f) (r_mask f) n.

(** ** Filter mask exchange *)

Definition flt_reader_push : M estate unit :=
  f ← get_flt;
  let n := slot_index f in
  let slot := flt_r2w_slot f n in
  seqlock ← load32 slot;
  store32 slot (u32 (seqlock + 1));;
  bs ← checked (mem_read (r_mask f) 0 MAX_MASK_SIZE);
  store_bytes (slot + sizeof_flt_slot) bs;;
  store32 slot (u32 (u32 (seqlock + 1) + 1));;
  ack ← load32 (ACK f);
  if has_bit ack n then sync_clear_bit n (NOTIFY f) else sync_set_bit n (NOTIFY f).

(** What the fetch loop carries: [dirty], the copies, their validity, [fetched]. *)
Record fetch_state := Fetch {
  fe_dirty : Z; fe_copy : list (list Z); fe_valid : Z; fe_fetched : bool }.

(** The body of the fetch loop for slot [n]. *)
Definition fetch_slot (rd : nat -> list Z) (f : flt_ctx) (n : nat) (s : fetch_state)
    : option fetch_state :=
  let i := Z.of_nat n in
  if negb (has_bit (fe_dirty s) i) then Some s
  else
    let s := Fetch (clear_bit (fe_dirty s) i) (fe_copy s) (fe_valid s) (fe_fetched s) in
    let slot := flt_r2w_slot f i in
    seqlock ← rd_le 4 (rd (1 + 3 * n)%nat) slot;
    if negb (Z.land seqlock 1 =? 0) then Some s
    else
      spare ← mem_read (rd (2 + 3 * n)%nat) (slot + sizeof_flt_slot) MAX_MASK_SIZE;
      seqlock' ← rd_le 4 (rd (3 + 3 * n)%nat) slot;
      if negb (seqlock =? seqlock') then Some s
      else Some (Fetch (fe_dirty s) (<[n := spare]> (fe_copy s)) (set_bit (fe_valid s) i) true).

(** for (n = 0; dirty && n < NUM_SLOTS; n++) *)
Fixpoint fetch_loop (rd : nat -> list Z) (f : flt_ctx) (k n : nat) (s : fetch_state)
    : option fetch_state :=
  match k with
  | O => Some s
  | S k =>
      if fe_dirty s =? 0 then Some s
      else s ← fetch_slot rd f n s; fetch_loop rd f k (S n) s
  end.

(** The second loop: OR the valid copies (32-bit words at a time in the source)
    and drop the copies that are all zero. *)
Definition or_mask (a b : list Z) : list Z := zip_with Z.lor a b.
Definition is_zero (m : list Z) : bool := forallb (fun x => x =? 0) m.

Fixpoint combine_loop (copy : list (list Z)) (k n : nat) (remaining valid : Z)
    (comb : list Z) : option (list Z * Z) :=
  match k with
  | O => Some (comb, valid)
  | S k =>
      if remaining =? 0 then Some (comb, valid)
      else if negb (has_bit remaining (Z.of_nat n))
      then combine_loop copy k (S n) remaining valid comb
      else
        m ← copy !! n;
        combine_loop copy k (S n) (clear_bit remaining (Z.of_nat n))
          (if is_zero m then clear_bit valid (Z.of_nat n) else valid) (or_mask comb m)
  end.

(** [fetched0] is the value the local [fetched] happens to have: the source does
    not initialise it. *)
Definition flt_writer_refresh (rd : nat -> list Z) (fetched0 : bool) : M estate unit :=
  f ← get_flt;
  notify ← checked (rd_le 4 (rd 0%nat) (NOTIFY f));
  let dirty := Z.lxor notify (w_ack f) in
  if dirty =? 0 then mret tt
  else
    store32 (ACK f) notify;;
    modify_flt (set_w_ack notify);;
    e ← checked (fetch_loop rd f (Z.to_nat NUM_SLOTS) 0
                   (Fetch dirty (mask_copy f) (mask_copy_valid f) fetched0));
    modify_flt (fun f => set_masks (combined_mask f) (fe_copy e) (fe_valid e) f);;
    if negb (fe_fetched e) then mret tt
    else
      '(comb, valid) ← checked (combine_loop (fe_copy e) (Z.to_nat NUM_SLOTS) 0
                                  (fe_valid e) (fe_valid e) (fill MAX_MASK_SIZE 0));
      modify_flt (set_masks comb (fe_copy e) valid).

(** ** Slot allocation

    [others k]: what other readers do to the block before the k-th access of
    this one. *)
Section alloc.
Context (others : nat -> list Z -> list Z).

Definition interfere (k : nat) : M estate unit :=
  modify (fun s => set_r2w_mem (others k (r2w_mem s)) s).

(** The for loop over the slots that looked free: the slot taken, if any, and
    the number of accesses made. *)
Fixpoint alloc_scan (busy_off busy : Z) (cnt n k : nat) : M estate (option nat * nat) :=
  match cnt with
  | O => mret (None, k)
  | S cnt =>
      if has_bit busy (Z.of_nat n) then alloc_scan busy_off busy cnt (S n) k
      else
        interfere k;;
        was ← sync_test_and_set_bit (Z.of_nat n) busy_off;
        if was : bool then alloc_scan busy_off busy cnt (S n) (S k)
        else mret (Some n, S k)
  end.

Definition all_slots_mask : Z := u32 (bit NUM_SLOTS - 1).

(** while (1): the inner [None] is an exhausted fuel. *)
Fixpoint alloc_loop (fuel : nat) (busy_off : Z) (k : nat) : M estate (option (Z + nat)) :=
  match fuel with
  | O => mret None
  | S fuel =>
      interfere k;;
      busy ← load32 busy_off;
      if Z.land busy all_slots_mask =? all_slots_mask then mret (Some (inl (- EBUSY)))
      else
        '(got, k) ← alloc_scan busy_off busy (Z.to_nat NUM_SLOTS) 0 (S k);
        match got with
        | Some n => mret (Some (inr n))
        | None => alloc_loop fuel busy_off k
        end
  end.

Definition flt_reader_alloc_slot (fuel : nat) : M estate (option Z) :=
  f ← get_flt;
  r ← alloc_loop fuel (BUSY f) 0;
  match r with
  | None => mret None
  | Some (inl ret) => mret (Some ret)
  | Some (inr n) =>
      modify_flt (set_slot_index (Z.of_nat n));;
      let slot := flt_r2w_slot f (Z.of_nat n) in
      seqlock ← load32 slot;
      (if negb (Z.land seqlock 1 =? 0) then store32 slot (u32 (seqlock + 1)) else mret tt);;
      mret (Some 0)
  end.
End alloc.

Definition flt_reader_release_slot : M estate unit :=
  modify_flt (set_r_mask (fill MAX_MASK_SIZE 0));;
  flt_reader_push;;
  f ← get_flt;
  sync_clear_bit (slot_index f) (BUSY f).

(** The bits of one domain: whole bytes, then the remaining bits. *)
Definition set_domain_bits (g : domain_geo) (mask : list Z) : option (list Z) :=
  m ← mem_write mask (geo_offset g) (fill (geo_bits g / 8) 0xff);
  if negb (geo_bits g mod 8 =? 0)
  then mem_write m (geo_offset g + geo_bits g / 8) [(bit (geo_bits g mod 8) - 1) mod 256]
  else Some m.

Definition flt_reader_set_all_bits : M estate unit :=
  f ← get_flt;
  m ← checked (set_domain_bits (geo f EVENT_TYPE) (r_mask f));
  m ← checked (set_domain_bits (geo f CUSTOM) m);
  modify_flt (set_r_mask m).

(** ** Initialisation *)

Definition flt_init_consts (num_bits : domain -> Z) : M estate Z :=
  let bytes1 := u16 (0 + EVENTLIB_FLT_MASK_SIZE (num_bits EVENT_TYPE)) in
  let bytes2 := u16 (bytes1 + EVENTLIB_FLT_MASK_SIZE (num_bits CUSTOM)) in
  let g d := match d with
             | EVENT_TYPE => Geo (num_bits EVENT_TYPE) 0
             | CUSTOM => Geo (num_bits CUSTOM) bytes1
             end in
  f ← get_flt;
  modify_flt (set_geo g (slot_size f));;
  if MAX_MASK_SIZE <? bytes2 then mret (- ENOMEM)
  else modify_flt (set_geo g (sizeof_flt_slot + bytes2));; mret 0.

Definition flt_r2w_size (f : flt_ctx) : Z := u32 (sizeof_flt_r2w + NUM_SLOTS * slot_size f).

Definition flt_writer_init : M estate Z :=
  s ← get;
  modify_flt (fun _ => flt_zero);;
  if Z.land (flags (ectx s)) EVENTLIB_FLAG_INIT_FILTERING =? 0 then mret 0
  else if flt_num_bits (ectx s) EVENT_TYPE <? 1 then mret (- EINVAL)
  else
    ret ← flt_init_consts (flt_num_bits (ectx s));
    if negb (ret =? 0) then mret ret
    else
      ret ← subsys_w2r_carve FILTERING sizeof_flt_w2r;
      if negb (ret =? 0) then mret ret
      else
        p ← get_priv;
        let w2r := (sh_subsys (w2r_copy p) FILTERING).1 in
        modify_flt (set_pointers w2r 0);;
        if negb (subsys_shm_size (w2r_copy p) FILTERING =? sizeof_flt_w2r) then mret (- ENOSPC)
        else
          s ← get;
          m ← checked (mem_write (w2r_mem s) w2r (le_enc 4 FLT_COMPAT_INFO));
          m ← checked (mem_write m (w2r + 4) (le_enc 2 (flt_num_bits (ectx s) EVENT_TYPE)
                                              ++ le_enc 2 (flt_num_bits (ectx s) CUSTOM)));
          modify (set_w2r_mem m);;
          f ← get_flt;
          ret ← subsys_r2w_carve FILTERING (flt_r2w_size f);
          if negb (ret =? 0) then mret ret
          else
            p ← get_priv;
            (* a NULL r2w block is dereferenced by the memset below *)
            shm ← checked (r2w_shm (ectx s));
            let r2w := (sh_subsys (r2w_copy p) FILTERING).1 in
            modify_flt (set_pointers w2r r2w);;
            let size := subsys_shm_size (r2w_copy p) FILTERING in
            if negb (size =? flt_r2w_size f) then mret (- ENOSPC)
            else store_bytes r2w (fill size 0);; modify_flt (set_inited true);; mret 0.

(** [None] inside: the slot allocation loop ran out of fuel. *)
Definition flt_reader_init (others : nat -> list Z -> list Z) (fuel : nat)
    : M estate (option Z) :=
  p ← get_priv;
  let w2r_size := subsys_shm_size (w2r_copy p) FILTERING in
  let r2w_size := subsys_shm_size (r2w_copy p) FILTERING in
  modify_flt (fun _ => flt_zero);;
  if (w2r_size =? 0) && (r2w_size =? 0) then
    modify (fun s => set_ectx (set_flt_num_bits (fun _ => 0) (ectx s)) s);; mret (Some 0)
  else if negb (w2r_size =? sizeof_flt_w2r) then mret (Some (- EPROTONOSUPPORT))
  else
    let w2r := (sh_subsys (w2r_copy p) FILTERING).1 in
    modify_flt (set_pointers w2r 0);;
    s ← get;
    compat ← checked (rd_le 4 (w2r_mem s) w2r);
    if negb (compat =? FLT_COMPAT_INFO) then mret (Some (- EPROTONOSUPPORT))
    else
      b0 ← checked (rd_le 2 (w2r_mem s) (w2r + 4));
      b1 ← checked (rd_le 2 (w2r_mem s) (w2r + 6));
      let nb d := match d with EVENT_TYPE => b0 | CUSTOM => b1 end in
      modify (fun s => set_ectx (set_flt_num_bits nb (ectx s)) s);;
      if b0 <? 1 then mret (Some (- EIO))
      else
        ret ← flt_init_consts nb;
        if negb (ret =? 0) then mret (Some ret)
        else
          f ← get_flt;
          if negb (r2w_size =? flt_r2w_size f) then mret (Some (- EIO))
          else
            shm ← checked (r2w_shm (ectx s));
            modify_flt (set_pointers w2r (sh_subsys (r2w_copy p) FILTERING).1);;
            ret ← flt_reader_alloc_slot others fuel;
            match ret with
            | None => mret None
            | Some ret =>
                if negb (ret =? 0) then mret (Some ret)
                else
                  (if Z.land (flags (ectx s)) EVENTLIB_FLAG_INIT_FILTERING =? 0
                   then flt_reader_set_all_bits else mret tt);;
                  modify_flt (set_inited true);; mret (Some 0)
            end.

Definition flt_init (others : nat -> list Z -> list Z) (fuel : nat) : M estate (option Z) :=
  s ← get;
  if direction (ectx s) =? EVENTLIB_DIRECTION_WRITER then r ← flt_writer_init; mret (Some r)
  else if direction (ectx s) =? EVENTLIB_DIRECTION_READER then flt_reader_init others fuel
  else mret (Some (- EINVAL)).

Definition flt_fini : M estate unit :=
  s ← get;
  if negb (direction (ectx s) =? EVENTLIB_DIRECTION_READER) then mret tt
  else f ← get_flt; if inited f then flt_reader_release_slot else mret tt.

(** ** Access to the masks *)

(** The number of set bits, as the loop counts them: [fuel] iterations. *)
Fixpoint count_bits (fuel : nat) (busy : Z) : option Z :=
  if busy =? 0 then Some 0
  else match fuel with
       | O => None
       | S fuel => c ← count_bits fuel (Z.shiftr busy 1);
                   Some (c + (if Z.land busy 1 =? 0 then 0 else 1))
       end.

Definition eventlib_get_num_attached_readers : M estate Z :=
  s ← get; f ← get_flt;
  if negb (inited f) then mret (- EPROTO)
  else if negb (direction (ectx s) =? EVENTLIB_DIRECTION_WRITER) then mret (- EPROTO)
  else busy ← load32 (BUSY f); checked (count_bits 32 busy).

(** The mask an endpoint tests: the writer refreshes its combined one first. *)
Definition current_mask (rd : nat -> list Z) (fetched0 : bool) : M estate (list Z) :=
  s ← get;
  if direction (ectx s) =? EVENTLIB_DIRECTION_WRITER
  then flt_writer_refresh rd fetched0;; f ← get_flt; mret (combined_mask f)
  else f ← get_flt; mret (r_mask f).

Section api.
Context (rd : nat -> list Z) (fetched0 : bool).

(** The return value and the bytes stored in the caller's mask. *)
Definition eventlib_get_filter_mask (dom : Z) : M estate (Z * list Z) :=
  f ← get_flt;
  if negb (inited f) then mret (- EPROTO, [])
  else
    match domain_of dom with
    | None => mret (- EINVAL, [])
    | Some d =>
        m ← current_mask rd fetched0;
        bs ← checked (mem_read m (geo_offset (geo f d))
                        (EVENTLIB_FLT_MASK_SIZE (geo_bits (geo f d))));
        mret (0, bs)
    end.

Definition eventlib_check_filter_bit (dom b : Z) : M estate Z :=
  f ← get_flt;
  if negb (inited f) then mret (- EPROTO)
  else
    match domain_of dom with
    | None => mret (- EINVAL)
    | Some d =>
        if geo_bits (geo f d) <=? b then mret (- EINVAL)
        else
          m ← current_mask rd fetched0;
          x ← checked (rd_le 1 m (geo_offset (geo f d) + b / 8));
          mret (if Z.land x (bit (b mod 8)) =? 0 then 0 else 1)
    end.

(** while (size >= 32), while (size >= 8), the remaining bits: the pointers
    [a] and [b] are offsets in the two masks. *)
Fixpoint check_words (fuel : nat) (m1 m2 : list Z) (a b size : Z)
    : option (bool * (Z * Z * Z)) :=
  match fuel with
  | O => None
  | S fuel =>
      if size <? 32 then Some (false, (a, b, size))
      else
        x ← rd_le 4 m1 a; y ← rd_le 4 m2 b;
        if negb (Z.land x y =? 0) then Some (true, (a, b, size))
        else check_words fuel m1 m2 (a + 4) (b + 4) (size - 32)
  end.

Fixpoint check_bytes (fuel : nat) (m1 m2 : list Z) (a b size : Z)
    : option (bool * (Z * Z * Z)) :=
  match fuel with
  | O => None
  | S fuel =>
      if size <? 8 then Some (false, (a, b, size))
      else
        x ← rd_le 1 m1 a; y ← rd_le 1 m2 b;
        if negb (Z.land x y =? 0) then Some (true, (a, b, size))
        else check_bytes fuel m1 m2 (a + 1) (b + 1) (size - 8)
  end.

Definition check_masks (m1 m2 : list Z) (a size : Z) : option Z :=
  '(hit, (a, b, size)) ← check_words (S (Z.to_nat (size / 32))) m1 m2 a 0 size;
  if hit : bool then Some 1
  else
    '(hit, (a, b, size)) ← check_bytes 5 m1 m2 a b size;
    if hit : bool then Some 1
    else if 0 <? size then
      x ← rd_le 1 m1 a; y ← rd_le 1 m2 b;
      Some (if Z.land (Z.land x y) ((bit size - 1) mod 256) =? 0 then 0 else 1)
    else Some 0.

(** On the reader's side the source does not add the domain's offset. *)
Definition eventlib_check_filter_mask (dom : Z) (mask : list Z) : M estate Z :=
  s ← get; f ← get_flt;
  if negb (inited f) then mret (- EPROTO)
  else
    match domain_of dom with
    | None => mret (- EINVAL)
    | Some d =>
        m ← current_mask rd fetched0;
        let a := if direction (ectx s) =? EVENTLIB_DIRECTION_WRITER
                 then geo_offset (geo f d) else 0 in
        checked (check_masks m mask a (geo_bits (geo f d)))
    end.

Definition eventlib_set_filter_bit (dom b val : Z) : M estate Z :=
  s ← get; f ← get_flt;
  if negb (direction (ectx s) =? EVENTLIB_DIRECTION_READER) then mret (- EPROTO)
  else if negb (inited f) then mret (- EPROTO)
  else
    match domain_of dom with
    | None => mret (- EINVAL)
    | Some d =>
        if geo_bits (geo f d) <=? b then mret (- EINVAL)
        else if negb (val =? 0) && negb (val =? 1) then mret (- EINVAL)
        else
          let p := geo_offset (geo f d) + b / 8 in
          let m := bit (b mod 8) in
          x ← checked (rd_le 1 (r_mask f) p);
          let x' := if negb (val =? 0) then Z.lor x m
                    else Z.land x (Z.lnot m mod 256) in
          mask ← checked (wr_le 1 (r_mask f) p x');
          modify_flt (set_r_mask mask);;
          flt_reader_push;; mret 0
    end.

Definition eventlib_set_filter_mask (dom : Z) (mask : list Z) : M estate Z :=
  s ← get; f ← get_flt;
  if negb (direction (ectx s) =? EVENTLIB_DIRECTION_READER) then mret (- EPROTO)
  else if negb (inited f) then mret (- EPROTO)
  else
    match domain_of dom with
    | None => mret (- EINVAL)
    | Some d =>
        bs ← checked (mem_read mask 0 (EVENTLIB_FLT_MASK_SIZE (geo_bits (geo f d))));
        m ← checked (mem_write (r_mask f) (geo_offset (geo f d)) bs);
        modify_flt (set_r_mask m);;
        flt_reader_push;; mret 0
    end.
End api.

(** ** Masks as sets of bits *)

(** Bit [i] of a mask: bits count from the least significant bit of byte 0. *)
Definition mask_bit (m : list Z) (i : Z) : bool :=
  Z.testbit (le_dec (slice m (i / 8) 1)) (i mod 8).

Lemma has_bit_testbit x n : 0 <= n -> has_bit x n = Z.testbit x n.
Proof.
  intros Hn. unfold has_bit, bit. rewrite Z.shiftl_1_l, Z.land_comm.
  pose proof (land_nonzero_iff (2 ^ n) x ltac:(apply Z.pow_nonneg; lia)) as H.
  destruct (Z.eqb_spec (Z.land (2 ^ n) x) 0) as [E|E]; cbn [negb].
  - symmetry. destruct (Z.testbit x n) eqn:Ex; [|done]. destruct H as [_ H]. destruct H; [|done].
    exists n. by rewrite Z.pow2_bits_true.
  - apply H in E as (i & Hi & B1 & B2). rewrite Z.pow2_bits_eqb in B1 by done.
    destruct (Z.eqb_spec n i); congruence.
Qed.

(** Do two masks share a set bit among [n], from the bytes [a] and [b] on? *)
Definition share (m1 m2 : list Z) (a b n : Z) : Prop :=
  exists j, 0 <= j < n /\ mask_bit m1 (8 * a + j) = true /\ mask_bit m2 (8 * b + j) = true.

Lemma share_split m1 m2 a b k n : 0 <= k -> 8 * k <= n ->
  share m1 m2 a b n <-> share m1 m2 a b (8 * k) \/ share m1 m2 (a + k) (b + k) (n - 8 * k).
Proof.
  intros Hk Hn. split.
  - intros (j & Hj & B1 & B2). destruct (Z.ltb_spec j (8 * k)).
    + left. exists j. split; [lia|done].
    + right. exists (j - 8 * k). split; [lia|].
      replace (8 * (a + k) + (j - 8 * k)) with (8 * a + j) by lia.
      replace (8 * (b + k) + (j - 8 * k)) with (8 * b + j) by lia. done.
  - intros [(j & Hj & B)|(j & Hj & B)].
    + exists j. split; [lia|done].
    + exists (8 * k + j). split; [lia|].
      replace (8 * a + (8 * k + j)) with (8 * (a + k) + j) by lia.
      replace (8 * b + (8 * k + j)) with (8 * (b + k) + j) by lia. done.
Qed.

Lemma mask_bit_word m off n j : bytes_ok m -> 0 <= off -> off + n <= zlen m -> 0 <= j < 8 * n ->
  mask_bit m (8 * off + j) = Z.testbit (le_dec (slice m off n)) j.
Proof.
  intros Hm H0 H1 Hj. assert (zlen (slice m off n) = n) as L by (apply zlen_slice; lia).
  rewrite le_dec_testbit by (rewrite ?L; auto with mem_db; lia).
  unfold mask_bit. rewrite slice_slice by dlia.
  replace ((8 * off + j) / 8) with (off + j / 8) by dlia.
  by replace ((8 * off + j) mod 8) with (j mod 8) by dlia.
Qed.

(** One comparison of [n]-byte words, of which [k] bits count. *)
Lemma word_share (n : nat) m1 m2 a b k : bytes_ok m1 -> bytes_ok m2 ->
  0 <= a -> a + Z.of_nat n <= zlen m1 -> 0 <= b -> b + Z.of_nat n <= zlen m2 ->
  0 <= k <= 8 * Z.of_nat n ->
  exists x y, rd_le n m1 a = Some x /\ rd_le n m2 b = Some y /\
    (0 <= x < 2 ^ (8 * Z.of_nat n)) /\
    (Z.land (Z.land x y) (Z.ones k) <> 0 <-> share m1 m2 a b k).
Proof.
  intros Hm1 Hm2 H0 H1 H2 H3 Hk. rewrite !rd_le_spec by done.
  do 2 eexists. split; [reflexivity|]. split; [reflexivity|].
  assert (zlen (slice m1 a (Z.of_nat n)) = Z.of_nat n) as L by (apply zlen_slice; lia).
  pose proof (le_dec_range (slice m1 a (Z.of_nat n)) (slice_bytes_ok _ _ _ Hm1)) as R.
  pose proof (le_dec_range (slice m2 b (Z.of_nat n)) (slice_bytes_ok _ _ _ Hm2)) as R2.
  rewrite L in R. split; [done|].
  rewrite land_nonzero_iff by (apply Z.land_nonneg; lia). split.
  - intros (j & Hj & B1 & B2). rewrite Z.land_spec in B1. apply andb_prop in B1 as [B1 B3].
    rewrite Z.testbit_ones_nonneg in B2 by lia. exists j.
    rewrite !(mask_bit_word _ _ (Z.of_nat n)) by (done || lia). split; [lia|done].
  - intros (j & Hj & B1 & B2). exists j.
    rewrite (mask_bit_word m1 _ (Z.of_nat n)) in B1 by (done || lia).
    rewrite (mask_bit_word m2 _ (Z.of_nat n)) in B2 by (done || lia).
    rewrite Z.land_spec, Z.testbit_ones_nonneg by lia. split_and!; [lia| |lia].
    apply andb_true_intro. done.
Qed.

Lemma land_ones_all x y k : 0 <= x < 2 ^ k -> 0 <= k ->
  Z.land (Z.land x y) (Z.ones k) = Z.land x y.
Proof.
  intros Hx Hk. rewrite Z.land_comm, Z.land_assoc, (Z.land_comm _ x), Z.land_ones by done.
  by rewrite Z.mod_small.
Qed.

Lemma word_share_all (n : nat) m1 m2 a b : bytes_ok m1 -> bytes_ok m2 ->
  0 <= a -> a + Z.of_nat n <= zlen m1 -> 0 <= b -> b + Z.of_nat n <= zlen m2 ->
  exists x y, rd_le n m1 a = Some x /\ rd_le n m2 b = Some y /\
    (Z.land x y <> 0 <-> share m1 m2 a b (8 * Z.of_nat n)).
Proof.
  intros ? ? ? ? ? ?.
  destruct (word_share n m1 m2 a b (8 * Z.of_nat n)) as (x & y & E1 & E2 & R & Hs); try done; [lia|].
  exists x, y. rewrite land_ones_all in Hs by (done || lia). done.
Qed.

Section masks.
Context (m1 m2 : list Z).
Hypothesis Hm1 : bytes_ok m1.
Hypothesis Hm2 : bytes_ok m2.

Lemma check_words_spec fuel a b size :
  0 <= a -> 0 <= b -> 0 <= size -> a + size / 8 <= zlen m1 -> b + size / 8 <= zlen m2 ->
  (Z.to_nat (size / 32) < fuel)%nat ->
  exists hit a' b' size', check_words fuel m1 m2 a b size = Some (hit, (a', b', size')) /\
    if hit then share m1 m2 a b size
    else a' = a + 4 * (size / 32) /\ b' = b + 4 * (size / 32) /\ size' = size mod 32 /\
         ~ share m1 m2 a b (32 * (size / 32)).
Proof.
  revert a b size. induction fuel as [|fuel IH]; intros a b size Ha Hb Hs H1 H2 Hf; [lia|].
  cbn [check_words]. destruct (Z.ltb_spec size 32) as [Hlt|Hge].
  { exists false, a, b, size. split; [done|]. rewrite Z.div_small, Z.mod_small by lia.
    split_and!; try lia. intros (j & Hj & _). lia. }
  destruct (word_share_all 4 m1 m2 a b) as (x & y & -> & -> & Hxy); try done; try dlia.
  cbn [mbind option_bind]. change (8 * Z.of_nat 4) with (8 * 4) in Hxy.
  destruct (Z.eqb_spec (Z.land x y) 0) as [E|E]; cbn [negb].
  - destruct (IH (a + 4) (b + 4) (size - 32)) as (hit & a' & b' & size' & -> & Hr);
      try lia; try dlia.
    exists hit, a', b', size'. split; [done|].
    assert (~ share m1 m2 a b (8 * 4)) as Hno by (rewrite <- Hxy; lia).
    destruct hit.
    + apply (share_split _ _ _ _ 4); [lia|lia|]. right.
      by replace (size - 8 * 4) with (size - 32) by lia.
    + destruct Hr as (-> & -> & -> & Hr). split_and!; try dlia.
      rewrite (share_split _ _ _ _ 4) by dlia. intros [?|Hc]; [done|]. apply Hr.
      by replace (32 * ((size - 32) / 32)) with (32 * (size / 32) - 8 * 4) by dlia.
  - exists true, a, b, size. split; [done|]. apply (share_split _ _ _ _ 4); [lia|lia|].
    left. by apply Hxy.
Qed.

Lemma check_bytes_spec fuel a b size :
  0 <= a -> 0 <= b -> 0 <= size -> a + size / 8 <= zlen m1 -> b + size / 8 <= zlen m2 ->
  (Z.to_nat (size / 8) < fuel)%nat ->
  exists hit a' b' size', check_bytes fuel m1 m2 a b size = Some (hit, (a', b', size')) /\
    if hit then share m1 m2 a b size
    else a' = a + size / 8 /\ b' = b + size / 8 /\ size' = size mod 8 /\
         ~ share m1 m2 a b (8 * (size / 8)).
Proof.
  revert a b size. induction fuel as [|fuel IH]; intros a b size Ha Hb Hs H1 H2 Hf; [lia|].
  cbn [check_bytes]. destruct (Z.ltb_spec size 8) as [Hlt|Hge].
  { exists false, a, b, size. split; [done|]. rewrite Z.div_small, Z.mod_small by lia.
    split_and!; try lia. intros (j & Hj & _). lia. }
  destruct (word_share_all 1 m1 m2 a b) as (x & y & -> & -> & Hxy); try done; try dlia.
  cbn [mbind option_bind]. change (8 * Z.of_nat 1) with (8 * 1) in Hxy.
  destruct (Z.eqb_spec (Z.land x y) 0) as [E|E]; cbn [negb].
  - destruct (IH (a + 1) (b + 1) (size - 8)) as (hit & a' & b' & size' & -> & Hr);
      try lia; try dlia.
    exists hit, a', b', size'. split; [done|].
    assert (~ share m1 m2 a b (8 * 1)) as Hno by (rewrite <- Hxy; lia).
    destruct hit.
    + apply (share_split _ _ _ _ 1); [lia|lia|]. right.
      by replace (size - 8 * 1) with (size - 8) by lia.
    + destruct Hr as (-> & -> & -> & Hr). split_and!; try dlia.
      rewrite (share_split _ _ _ _ 1) by dlia. intros [?|Hc]; [done|]. apply Hr.
      by replace (8 * ((size - 8) / 8)) with (8 * (size / 8) - 8 * 1) by dlia.
  - exists true, a, b, size. split; [done|]. apply (share_split _ _ _ _ 1); [lia|lia|].
    left. by apply Hxy.
Qed.

(** The three-stage comparison (32-bit words, bytes, remaining bits) decides
    whether the two masks have a common bit among the first [size] of the
    domain, whatever the size, and reads only the bytes of these bits. *)
Theorem check_masks_spec (a size : Z) :
  0 <= a -> 0 <= size -> a + (size + 7) / 8 <= zlen m1 -> (size + 7) / 8 <= zlen m2 ->
  exists r, check_masks m1 m2 a size = Some r /\
    (r = 1 <-> share m1 m2 a 0 size) /\ (r = 0 <-> ~ share m1 m2 a 0 size).
Proof.
  intros Ha Hs H1 H2. unfold check_masks.
  destruct (check_words_spec (S (Z.to_nat (size / 32))) a 0 size)
    as (hit & a1 & b1 & s1 & -> & R1); try dlia.
  cbn [mbind option_bind]. destruct hit.
  { exists 1. split; [done|]. split; split; done. }
  destruct R1 as (-> & -> & -> & N1).
  destruct (check_bytes_spec 5 (a + 4 * (size / 32)) (0 + 4 * (size / 32)) (size mod 32))
    as (hit & a2 & b2 & s2 & -> & R2); try dlia.
  assert (share m1 m2 a 0 size <->
          share m1 m2 (a + 4 * (size / 32)) (0 + 4 * (size / 32)) (size mod 32)) as E1.
  { rewrite (share_split m1 m2 a 0 (4 * (size / 32)) size) by dlia.
    replace (8 * (4 * (size / 32))) with (32 * (size / 32)) by lia.
    replace (size - 32 * (size / 32)) with (size mod 32) by dlia. tauto. }
  cbn [mbind option_bind]. destruct hit.
  { exists 1. split; [done|]. rewrite E1. split; split; done. }
  destruct R2 as (-> & -> & -> & N2). setoid_rewrite E1. clear E1 N1.
  set (a1 := a + 4 * (size / 32)) in *. set (b1 := 0 + 4 * (size / 32)) in *.
  set (n := size mod 32) in *.
  setoid_rewrite (share_split m1 m2 a1 b1 (n / 8) n); [|unfold n; dlia..].
  replace (n - 8 * (n / 8)) with (n mod 8) by (unfold n; dlia).
  destruct (Z.ltb_spec 0 (n mod 8)) as [Hpos|Hzero].
  - destruct (word_share 1 m1 m2 (a1 + n / 8) (b1 + n / 8) (n mod 8))
      as (x & y & -> & -> & _ & Hxy); try done; try (unfold n, a1, b1 in *; dlia).
    cbn [mbind option_bind].
    assert ((bit (n mod 8) - 1) mod 256 = Z.ones (n mod 8)) as ->.
    { unfold bit. rewrite Z.shiftl_1_l, Z.ones_equiv, Z.sub_1_r. apply Z.mod_small.
      assert (2 ^ (n mod 8) <= 2 ^ 8) by (apply Z.pow_le_mono_r; unfold n; dlia).
      assert (0 < 2 ^ (n mod 8)) by (apply Z.pow_pos_nonneg; unfold n; dlia). lia. }
    eexists. split; [reflexivity|].
    destruct (Z.eqb_spec (Z.land (Z.land x y) (Z.ones (n mod 8))) 0); split; split; try done;
      tauto || lia.
  - exists 0. split; [done|].
    assert (~ share m1 m2 (a1 + n / 8) (b1 + n / 8) (n mod 8)) as N3
      by (intros (j & Hj & _); lia).
    split; split; try done; tauto || lia.
Qed.
End masks.

(** ** A reader's push *)

Lemma testbit_u32_lnot x n i : 0 <= n < 32 -> 0 <= i ->
  Z.testbit (clear_bit x n) i = Z.testbit x i && negb (i =? n) && (i <? 32).
Proof.
  intros Hn Hi. unfold clear_bit, bit, uw. rewrite Z.land_spec, Z.shiftl_1_l.
  rewrite <- Z.land_ones, Z.land_spec, Z.testbit_ones_nonneg, Z.lnot_spec by lia.
  rewrite Z.pow2_bits_eqb by lia. rewrite (Z.eqb_sym n i).
  by destruct (Z.testbit x i), (i =? n), (i <? 32).
Qed.

Lemma testbit_set_bit x n i : 0 <= n -> 0 <= i ->
  Z.testbit (set_bit x n) i = Z.testbit x i || (i =? n).
Proof.
  intros Hn Hi. unfold set_bit, bit.
  rewrite Z.lor_spec, Z.shiftl_1_l, Z.pow2_bits_eqb, (Z.eqb_sym n i) by lia. done.
Qed.

Definition word32 (m : list Z) (off : Z) : Z := le_dec (slice m off 4).

Lemma wp_load32 off (Q : Z -> estate -> Prop) s' :
  0 <= off -> off + 4 <= zlen (r2w_mem s') ->
  Q (le_dec (slice (r2w_mem s') off 4)) s' -> wp (load32 off) Q s'.
Proof.
  intros H0 H1 HQ. unfold load32. wp_simpl.
  eapply wp_checked; [apply rd_le_spec; lia|]. done.
Qed.

Lemma wp_store_bytes off bs (Q : unit -> estate -> Prop) s' :
  0 <= off -> off + zlen bs <= zlen (r2w_mem s') ->
  Q tt (set_r2w_mem (splice (r2w_mem s') off bs) s') -> wp (store_bytes off bs) Q s'.
Proof.
  intros H0 H1 HQ. unfold store_bytes. wp_simpl.
  eapply wp_checked; [by apply mem_write_Some|]. wp_simpl. done.
Qed.

Lemma le_dec_enc32 x : le_dec (le_enc 4 x) = u32 x.
Proof. apply (le_dec_enc 4). Qed.

Lemma word32_splice_same m off x : 0 <= off -> off + 4 <= zlen m ->
  word32 (splice m off (le_enc 4 x)) off = u32 x.
Proof.
  intros H0 H1. unfold word32.
  pose proof (slice_splice_same m off (le_enc 4 x)) as E. rewrite zlen_le_enc in E.
  change (Z.of_nat 4) with 4 in E. rewrite E by lia. apply le_dec_enc32.
Qed.

Lemma word32_range m off : bytes_ok m -> 0 <= off -> off + 4 <= zlen m ->
  0 <= word32 m off < 2 ^ 32.
Proof.
  intros Hm H0 H1. unfold word32.
  pose proof (le_dec_range (slice m off 4) (slice_bytes_ok _ _ _ Hm)) as R.
  rewrite zlen_slice in R by lia. exact R.
Qed.

Lemma set_bit_range n x : 0 <= n < 32 -> 0 <= x < 2 ^ 32 -> 0 <= set_bit x n < 2 ^ 32.
Proof.
  intros Hn Hx. unfold set_bit, bit. rewrite Z.shiftl_1_l.
  assert (0 < 2 ^ n) by (apply Z.pow_pos_nonneg; lia).
  assert (0 <= Z.lor x (2 ^ n)) as H0 by (apply Z.lor_nonneg; lia). split; [done|].
  destruct (Z.eq_dec (Z.lor x (2 ^ n)) 0) as [-> |]; [lia|].
  apply Z.log2_lt_pow2; [lia|]. rewrite Z.log2_lor, Z.log2_pow2 by lia.
  apply Z.max_lub_lt; [|lia]. destruct (Z.eq_dec x 0) as [-> |]; [done|].
  apply Z.log2_lt_pow2; lia.
Qed.

Lemma clear_bit_range n x : 0 <= x < 2 ^ 32 -> 0 <= clear_bit x n < 2 ^ 32.
Proof.
  intros Hx. unfold clear_bit. pose proof (u32_range (Z.lnot (bit n))).
  assert (0 <= Z.land x (u32 (Z.lnot (bit n)))) by (apply Z.land_nonneg; lia).
  split; [done|]. destruct (Z.eq_dec (Z.land x (u32 (Z.lnot (bit n)))) 0) as [-> |]; [lia|].
  apply Z.log2_lt_pow2; [lia|].
  eapply Z.le_lt_trans; [apply Z.log2_land; lia|]. eapply Z.le_lt_trans; [apply Z.le_min_l|].
  destruct (Z.eq_dec x 0) as [-> |]; [done|]. apply Z.log2_lt_pow2; lia.
Qed.

Section push.
Context (s : estate) (p : eventlib_init).
Hypothesis Hp : priv (ectx s) = Some p.
Let f := flt p.
Let n := slot_index f.
Let slot := flt_r2w_slot f n.

(** The slot's 20 mask bytes lie in the block. *)
Record push_ok : Prop := {
  pok_base : 0 <= flt_r2w f;
  pok_index : 0 <= n < 32;
  pok_size : 0 <= slot_size f;
  pok_room : slot + 4 + MAX_MASK_SIZE <= zlen (r2w_mem s);
  pok_mask : zlen (r_mask f) = MAX_MASK_SIZE;
  pok_bytes : bytes_ok (r2w_mem s) /\ bytes_ok (r_mask f);
}.

Lemma wp_get_flt (Q : flt_ctx -> estate -> Prop) s' :
  priv (ectx s') = Some p -> Q f s' -> wp get_flt Q s'.
Proof.
  intros E HQ. unfold get_flt, get_priv. wp_simpl. rewrite E.
  eapply wp_checked; [done|]. wp_simpl. done.
Qed.

Definition pushed_notify (ack notify : Z) : Z :=
  if has_bit ack n then clear_bit notify n else set_bit notify n.

(** The block after the push: lock, mask, lock, notification. *)
Definition pushed_block : list Z :=
  let m := r2w_mem s in
  let seqlock := word32 m slot in
  let m := splice m slot (le_enc 4 (u32 (seqlock + 1))) in
  let m := splice m (slot + 4) (r_mask f) in
  let m := splice m slot (le_enc 4 (u32 (u32 (seqlock + 1) + 1))) in
  splice m (NOTIFY f) (le_enc 4 (pushed_notify (word32 m (ACK f)) (word32 m (NOTIFY f)))).

Lemma flt_reader_push_result : push_ok ->
  flt_reader_push s = Some (tt, set_r2w_mem pushed_block s).
Proof.
  intros [H1 H2 H3 H4 H5 [H6 H7]]. unfold MAX_MASK_SIZE in *.
  assert (flt_r2w f + 12 <= slot) as Hslot by (unfold slot, flt_r2w_slot, sizeof_flt_r2w; nia).
  enough (wp flt_reader_push (fun _ s' => s' = set_r2w_mem pushed_block s) s)
    as ([] & s' & -> & ->)%wp_total by done.
  unfold flt_reader_push. wp_simpl. apply wp_get_flt; [done|]. wp_simpl.
  fold n. fold slot. apply wp_load32; [lia|lia|]. wp_simpl.
  unfold store32. apply wp_store_bytes; [lia|rewrite zlen_le_enc; lia|]. wp_simpl.
  eapply wp_checked; [unfold MAX_MASK_SIZE; apply mem_read_Some; lia|]. wp_simpl.
  assert (slice (r_mask f) 0 20 = r_mask f) as -> by (rewrite <- H5; apply slice_all).
  cbn [r2w_mem set_r2w_mem]. fold (word32 (r2w_mem s) slot).
  set (m1 := splice (r2w_mem s) slot _).
  assert (zlen m1 = zlen (r2w_mem s)) as L1
    by (unfold m1; apply zlen_splice; rewrite ?zlen_le_enc; lia).
  apply wp_store_bytes; cbn [r2w_mem set_r2w_mem]; unfold sizeof_flt_slot; [lia|lia|]. wp_simpl.
  set (m2 := splice m1 _ _).
  assert (zlen m2 = zlen (r2w_mem s)) as L2 by (unfold m2; rewrite zlen_splice; lia).
  apply wp_store_bytes; cbn [r2w_mem set_r2w_mem]; [lia|rewrite zlen_le_enc; cbn [r2w_mem set_r2w_mem]; lia|].
  wp_simpl. cbn [r2w_mem set_r2w_mem]. set (m3 := splice m2 _ _).
  assert (zlen m3 = zlen (r2w_mem s)) as L3
    by (unfold m3; rewrite zlen_splice; rewrite ?zlen_le_enc; lia).
  apply wp_load32; cbn [r2w_mem set_r2w_mem]; [unfold ACK; lia|unfold ACK; lia|].
  fold (word32 m3 (ACK f)).
  unfold sync_clear_bit, sync_set_bit, pushed_block, pushed_notify.
  cbv zeta. fold m1. fold m2. fold m3.
  destruct (has_bit (word32 m3 (ACK f)) n); wp_simpl; unfold store32;
    (apply wp_load32; cbn [r2w_mem set_r2w_mem]; [unfold NOTIFY; lia|unfold NOTIFY; lia|]);
    (apply wp_store_bytes; cbn [r2w_mem set_r2w_mem];
      [unfold NOTIFY; lia|rewrite zlen_le_enc; unfold NOTIFY; lia|]); done.
Qed.

Lemma pushed_notify_range ack notify : 0 <= n < 32 -> 0 <= notify < 2 ^ 32 ->
  0 <= pushed_notify ack notify < 2 ^ 32.
Proof.
  intros. unfold pushed_notify. destruct (has_bit ack n);
    [by apply clear_bit_range|by apply set_bit_range].
Qed.

(** The fields of the block after a push. *)
Lemma pushed_block_fields : push_ok ->
  zlen pushed_block = zlen (r2w_mem s) /\
  slice pushed_block (slot + 4) MAX_MASK_SIZE = r_mask f /\
  word32 pushed_block slot = u32 (word32 (r2w_mem s) slot + 2) /\
  word32 pushed_block (NOTIFY f) =
    pushed_notify (word32 (r2w_mem s) (ACK f)) (word32 (r2w_mem s) (NOTIFY f)) /\
  forall off len, 0 <= off -> 0 <= len -> off + len <= zlen (r2w_mem s) ->
    (off + len <= slot \/ slot + 24 <= off) ->
    (off + len <= NOTIFY f \/ NOTIFY f + 4 <= off) ->
    slice pushed_block off len = slice (r2w_mem s) off len.
Proof.
  intros [H1 H2 H3 H4 H5 [H6 H7]]. unfold MAX_MASK_SIZE in *.
  assert (flt_r2w f + 12 <= slot) as Hslot by (unfold slot, flt_r2w_slot, sizeof_flt_r2w; nia).
  unfold pushed_block. cbv zeta.
  set (m1 := splice (r2w_mem s) slot _).
  assert (zlen m1 = zlen (r2w_mem s)) as L1
    by (unfold m1; apply zlen_splice; rewrite ?zlen_le_enc; lia).
  set (m2 := splice m1 _ _).
  assert (zlen m2 = zlen (r2w_mem s)) as L2 by (unfold m2; rewrite zlen_splice; lia).
  set (m3 := splice m2 _ _).
  assert (zlen m3 = zlen (r2w_mem s)) as L3
    by (unfold m3; rewrite zlen_splice; rewrite ?zlen_le_enc; lia).
  assert (forall off len, 0 <= off -> 0 <= len -> off + len <= zlen (r2w_mem s) ->
    off + len <= slot \/ slot + 24 <= off -> slice m3 off len = slice (r2w_mem s) off len)
    as Hout.
  { intros off len ? ? ? ?. unfold m3, m2, m1.
    rewrite !slice_splice_disj; rewrite ?zlen_le_enc, ?L1, ?L2; try done; try lia;
      fold m1 m2; rewrite ?L1, ?L2; lia. }
  assert (word32 m3 (ACK f) = word32 (r2w_mem s) (ACK f)) as Eack
    by (unfold word32; rewrite Hout by (unfold ACK; lia); done).
  assert (word32 m3 (NOTIFY f) = word32 (r2w_mem s) (NOTIFY f)) as Enot
    by (unfold word32; rewrite Hout by (unfold NOTIFY; lia); done).
  rewrite Eack, Enot.
  pose proof (word32_range (r2w_mem s) (NOTIFY f) H6 ltac:(unfold NOTIFY; lia)
                ltac:(unfold NOTIFY; lia)) as Rn.
  pose proof (pushed_notify_range (word32 (r2w_mem s) (ACK f)) _ H2 Rn) as Rp.
  assert (zlen (le_enc 4 (pushed_notify (word32 (r2w_mem s) (ACK f))
            (word32 (r2w_mem s) (NOTIFY f)))) = 4) as Le by apply zlen_le_enc.
  assert (NOTIFY f = flt_r2w f) as EN by done.
  split_and!.
  - rewrite zlen_splice; lia.
  - rewrite slice_splice_disj by lia. unfold m3.
    rewrite slice_splice_disj by (rewrite ?zlen_le_enc; lia).
    unfold m2. rewrite <- H5. apply slice_splice_same; lia.
  - unfold word32 at 1. rewrite slice_splice_disj by lia.
    fold (word32 m3 slot). unfold m3. rewrite word32_splice_same by lia.
    rewrite uw_add_l. rewrite <- (uw_idemp 32 (_ + 1 + 1)). rewrite uw_idemp.
    unfold uw. rewrite Zmod_mod. f_equal. lia.
  - rewrite word32_splice_same by lia. by apply u32_small.
  - intros off len ? ? ? ? ?. rewrite slice_splice_disj by lia.
    by apply Hout.
Qed.

(** A push publishes the reader's mask and is never missed: the slot holds
    the mask under an advanced sequence lock, and the reader's notification
    bit is made to differ from the acknowledged one, so the writer's next
    check finds the slot dirty; the other readers' bits are left alone. *)
Theorem flt_reader_push_publishes : push_ok ->
  exists s', flt_reader_push s = Some (tt, s') /\
    slice (r2w_mem s') (slot + 4) MAX_MASK_SIZE = r_mask f /\
    word32 (r2w_mem s') slot = u32 (word32 (r2w_mem s) slot + 2) /\
    has_bit (word32 (r2w_mem s') (NOTIFY f)) n = negb (has_bit (word32 (r2w_mem s) (ACK f)) n) /\
    (forall j, 0 <= j < 32 -> j <> n ->
      has_bit (word32 (r2w_mem s') (NOTIFY f)) j = has_bit (word32 (r2w_mem s) (NOTIFY f)) j).
Proof.
  intros Hok. rewrite flt_reader_push_result by done. eexists. split; [reflexivity|].
  cbn [r2w_mem set_r2w_mem].
  destruct (pushed_block_fields Hok) as (_ & -> & -> & -> & _).
  pose proof (pok_index Hok) as Hn. split; [done|]. split; [done|].
  unfold pushed_notify. rewrite !has_bit_testbit by lia.
  destruct (has_bit (word32 (r2w_mem s) (ACK f)) n) eqn:Ea;
    rewrite has_bit_testbit in Ea by lia; rewrite Ea.
  - split.
    + rewrite testbit_u32_lnot, Z.eqb_refl by lia. by rewrite andb_false_r.
    + intros j Hj Hne. rewrite !has_bit_testbit, testbit_u32_lnot by lia.
      destruct (Z.eqb_spec j n); [done|]. destruct (Z.ltb_spec j 32); [|lia].
      by rewrite !andb_true_r.
  - split.
    + rewrite testbit_set_bit, Z.eqb_refl by lia. by rewrite orb_true_r.
    + intros j Hj Hne. rewrite !has_bit_testbit, testbit_set_bit by lia.
      destruct (Z.eqb_spec j n); [done|]. by rewrite orb_false_r.
Qed.

(** But the copy is always MAX_MASK_SIZE bytes, whatever the size of a slot.
    When the masks of the two domains take less than that, the push runs over
    the sequence lock and the mask of the next slot, which belongs to another
    reader. *)
Theorem flt_reader_push_clobbers_next : push_ok -> 4 <= slot_size f < 4 + MAX_MASK_SIZE ->
  exists s', flt_reader_push s = Some (tt, s') /\
    let over := 4 + MAX_MASK_SIZE - slot_size f in
    slice (r2w_mem s') (flt_r2w_slot f (n + 1)) over = slice (r_mask f) (slot_size f - 4) over.
Proof.
  intros Hok Hs. rewrite flt_reader_push_result by done. eexists. split; [reflexivity|].
  cbn [r2w_mem set_r2w_mem]. cbv zeta. unfold MAX_MASK_SIZE in *.
  destruct (pushed_block_fields Hok) as (HL & Hm & _). unfold MAX_MASK_SIZE in Hm.
  rewrite <- Hm. destruct Hok as [H1 H2 H3 H4 H5 _].
  rewrite slice_slice by (unfold slot, flt_r2w_slot, sizeof_flt_r2w; nia). f_equal.
  unfold slot, flt_r2w_slot. lia.
Qed.
End push.

(** ** The writer's combined mask *)

Lemma slice_one (m : list Z) k x : 0 <= k -> m !! Z.to_nat k = Some x -> slice m k 1 = [x].
Proof.
  intros Hk Hx. unfold slice. change (Z.to_nat 1) with 1%nat.
  rewrite (drop_S _ _ _ Hx). done.
Qed.

Lemma mask_bit_lookup m i x : 0 <= i -> m !! Z.to_nat (i / 8) = Some x ->
  mask_bit m i = Z.testbit x (i mod 8).
Proof.
  intros Hi Hx. unfold mask_bit. rewrite (slice_one _ _ _ (Z.div_pos i 8 Hi ltac:(lia)) Hx). cbn [le_dec].
  by rewrite Z.mul_0_r, Z.add_0_r.
Qed.

Lemma mask_bit_or a b i : zlen a = zlen b -> 0 <= i < 8 * zlen a ->
  mask_bit (or_mask a b) i = mask_bit a i || mask_bit b i.
Proof.
  intros HL Hi. unfold zlen in *.
  assert (0 <= i / 8 < Z.of_nat (length a)) by dlia.
  destruct (lookup_lt_is_Some_2 a (Z.to_nat (i / 8))) as [x Hx]; [lia|].
  destruct (lookup_lt_is_Some_2 b (Z.to_nat (i / 8))) as [y Hy]; [lia|].
  rewrite (mask_bit_lookup a i x), (mask_bit_lookup b i y) by (done || lia).
  rewrite (mask_bit_lookup (or_mask a b) i (Z.lor x y)); [apply Z.lor_spec|lia|].
  unfold or_mask. rewrite lookup_zip_with, Hx, Hy. done.
Qed.

Lemma zlen_or_mask a b : zlen a = zlen b -> zlen (or_mask a b) = zlen a.
Proof. unfold zlen, or_mask. rewrite length_zip_with. lia. Qed.

Lemma is_zero_bits m i : is_zero m = true -> 0 <= i < 8 * zlen m -> mask_bit m i = false.
Proof.
  intros Hz Hi. unfold zlen in *.
  assert (0 <= i / 8 < Z.of_nat (length m)) by dlia.
  destruct (lookup_lt_is_Some_2 m (Z.to_nat (i / 8))) as [x Hx]; [lia|].
  rewrite (mask_bit_lookup m i x) by (done || lia).
  unfold is_zero in Hz. rewrite forallb_forall in Hz.
  specialize (Hz x (proj1 (list_elem_of_In _ _) (list_elem_of_lookup_2 _ _ _ Hx))).
  apply Z.eqb_eq in Hz as ->. apply Z.bits_0.
Qed.

Lemma zero_no_bits x j : x = 0 -> has_bit x j = false.
Proof. intros ->. unfold has_bit. by rewrite Z.land_0_l. Qed.

Lemma clear_bit_has x n j : 0 <= n < 32 -> 0 <= j < 32 ->
  has_bit (clear_bit x n) j = has_bit x j && negb (j =? n).
Proof.
  intros Hn Hj. rewrite !has_bit_testbit, testbit_u32_lnot by lia.
  destruct (Z.ltb_spec j 32); [|lia]. by rewrite andb_true_r.
Qed.

Section combine.
Context (copy : list (list Z)).
Hypothesis Hcopy : forall n m, copy !! n = Some m -> zlen m = MAX_MASK_SIZE.
Hypothesis Hlen : (4 <= length copy)%nat.

(** From slot [n] on, [k] slots to go. *)
Lemma combine_loop_bits k n remaining valid comb :
  (n + k = 4)%nat -> zlen comb = MAX_MASK_SIZE ->
  exists comb' valid', combine_loop copy k n remaining valid comb = Some (comb', valid') /\
    zlen comb' = MAX_MASK_SIZE /\
    (forall i, 0 <= i < 8 * MAX_MASK_SIZE ->
      mask_bit comb' i = true <->
      mask_bit comb i = true \/
      exists (j : nat) m, (n <= j < 4)%nat /\ has_bit remaining (Z.of_nat j) = true /\
        copy !! j = Some m /\ mask_bit m i = true) /\
    (forall j : nat, (j < 32)%nat ->
      has_bit valid' (Z.of_nat j) = true <->
      has_bit valid (Z.of_nat j) = true /\
      ~ ((n <= j < 4)%nat /\ has_bit remaining (Z.of_nat j) = true /\
         exists m, copy !! j = Some m /\ is_zero m = true)).
Proof.
  revert n remaining valid comb. induction k as [|k IH]; intros n remaining valid comb Hk Hc;
    cbn [combine_loop].
  { exists comb, valid. split_and!; try done.
    - intros i _. split; [auto|]. intros [?|(j & m & Hj & _)]; [done|lia].
    - intros j _. split; [|tauto]. intros Hv. split; [done|]. intros (? & _). lia. }
  destruct (Z.eqb_spec remaining 0) as [E|E].
  { exists comb, valid. split_and!; try done.
    - intros i _. split; [auto|]. intros [?|(j & m & _ & Hr & _)]; [done|].
      by rewrite zero_no_bits in Hr.
    - intros j _. split; [|tauto]. intros Hv. split; [done|]. intros (_ & Hr & _).
      by rewrite zero_no_bits in Hr. }
  destruct (has_bit remaining (Z.of_nat n)) eqn:Hn; cbn [negb].
  - destruct (lookup_lt_is_Some_2 copy n) as [m Hm]; [lia|]. rewrite Hm.
    cbn [mbind option_bind]. pose proof (Hcopy n m Hm) as Hml.
    set (v' := if is_zero m then clear_bit valid (Z.of_nat n) else valid).
    destruct (IH (S n) (clear_bit remaining (Z.of_nat n)) v' (or_mask comb m))
      as (comb' & valid' & E' & L' & B1 & B2); [lia|rewrite zlen_or_mask; lia|].
    exists comb', valid'. split; [done|]. split; [done|]. split.
    + intros i Hi. rewrite B1 by done. rewrite mask_bit_or, orb_true_iff by lia. split.
      * intros [[?|?]|(j & m' & Hj & Hr & Hr2)]; [auto| |].
        { right. exists n, m. split_and!; try done; lia. }
        right. exists j, m'. split; [lia|]. rewrite clear_bit_has in Hr by lia.
        apply andb_prop in Hr as [Hr _]. done.
      * intros [?|(j & m' & Hj & Hr & Hm' & Hb)]; [auto|].
        destruct (decide (j = n)) as [-> |]; [left; right; congruence|].
        right. exists j, m'. split; [lia|]. rewrite clear_bit_has by lia.
        rewrite Hr. destruct (Z.eqb_spec (Z.of_nat j) (Z.of_nat n)); [lia|done].
    + intros j Hj. rewrite B2 by done. clear B1 B2.
      assert (has_bit v' (Z.of_nat j) = true <->
              has_bit valid (Z.of_nat j) = true /\ ~ (j = n /\ is_zero m = true)) as ->.
      { unfold v'. destruct (is_zero m); [|by split; [intros ?; split; [done|by intros [_ ?]]|intros [? _]]].
        rewrite clear_bit_has by lia.
        destruct (Z.eqb_spec (Z.of_nat j) (Z.of_nat n)); cbn [negb];
          rewrite ?andb_true_r, ?andb_false_r; split; try done.
        - intros [_ []]. split; [lia|done].
        - intros Hv. split; [done|]. intros [-> _]. lia.
        - tauto. }
      split.
      * intros [[Hv H1] H2]. split; [done|]. intros (H3 & H4 & m' & H5 & H6).
        destruct (decide (j = n)) as [-> |].
        { apply H1. split; [done|]. congruence. }
        apply H2. split; [lia|]. split; [|by exists m'].
        rewrite clear_bit_has, H4 by lia.
        destruct (Z.eqb_spec (Z.of_nat j) (Z.of_nat n)); [lia|done].
      * intros [Hv H1]. split; [split; [done|]|].
        { intros [-> Hz]. apply H1. split; [lia|]. split; [done|]. by exists m. }
        intros (H3 & H4 & H5). apply H1. split; [lia|]. split; [|done].
        rewrite clear_bit_has in H4 by lia. by apply andb_prop in H4 as [H4 _].
  - destruct (IH (S n) remaining valid comb) as (comb' & valid' & E' & L' & B1 & B2); [lia|done|].
    exists comb', valid'. split; [done|]. split; [done|]. split.
    + intros i Hi. rewrite B1 by done. split; (intros [?|(j & m & Hj & Hr & Hr2)]; [auto|]);
        right; exists j, m; (split; [|done]); [lia|].
      destruct (decide (j = n)) as [-> |]; [congruence|lia].
    + intros j Hj. rewrite B2 by done. split; intros [Hv H1]; (split; [done|]);
        intros (H2 & H3 & H4); apply H1; (split; [|done]); [|lia].
      destruct (decide (j = n)) as [-> |]; [congruence|lia].
Qed.
End combine.

(** ** The writer's refresh *)
Section refresh.
Context (rd : nat -> list Z) (f : flt_ctx).

(** The mask the fetch copies from slot [n]: the lock is even and unchanged
    across the copy. *)
Definition slot_view (n : nat) : option (list Z) :=
  let slot := flt_r2w_slot f (Z.of_nat n) in
  let lock := word32 (rd (1 + 3 * n)%nat) slot in
  if negb (Z.land lock 1 =? 0) then None
  else if negb (lock =? word32 (rd (3 + 3 * n)%nat) slot) then None
  else Some (slice (rd (2 + 3 * n)%nat) (slot + sizeof_flt_slot) MAX_MASK_SIZE).

(** The block is large enough at every load. *)
Record rd_ok : Prop := {
  rdo_base : 0 <= flt_r2w f;
  rdo_size : 0 <= slot_size f;
  rdo_room k : flt_r2w f + 12 + 3 * slot_size f + 24 <= zlen (rd k);
}.

Definition fetched_copy (dirty : Z) (lo : nat) (j : nat) : option (list Z) :=
  if (lo <=? j)%nat && (j <? 4)%nat && has_bit dirty (Z.of_nat j) then slot_view j else None.

Lemma fetch_slot_result n s : rd_ok -> (n < 4)%nat ->
  fetch_slot rd f n s =
    Some (if has_bit (fe_dirty s) (Z.of_nat n)
          then let d := clear_bit (fe_dirty s) (Z.of_nat n) in
               match slot_view n with
               | Some m => Fetch d (<[n := m]> (fe_copy s)) (set_bit (fe_valid s) (Z.of_nat n)) true
               | None => Fetch d (fe_copy s) (fe_valid s) (fe_fetched s)
               end
          else s).
Proof.
  intros [H1 H2 H3] Hn. unfold fetch_slot, slot_view.
  assert (0 <= flt_r2w_slot f (Z.of_nat n) /\
          flt_r2w_slot f (Z.of_nat n) + 24 <= flt_r2w f + 12 + 3 * slot_size f + 24) as Hr
    by (unfold flt_r2w_slot, sizeof_flt_r2w; nia).
  destruct (has_bit (fe_dirty s) (Z.of_nat n)); cbn [negb]; [|done].
  cbv zeta. cbn [fe_dirty fe_copy fe_valid fe_fetched]. unfold word32, sizeof_flt_slot, MAX_MASK_SIZE.
  pose proof (H3 (1 + 3 * n)%nat). pose proof (H3 (2 + 3 * n)%nat). pose proof (H3 (3 + 3 * n)%nat).
  rewrite !rd_le_spec by lia. cbn [mbind option_bind]. change (Z.of_nat 4) with 4.
  destruct (Z.land _ 1 =? 0); cbn [negb]; [|done].
  rewrite mem_read_Some by lia. cbn [mbind option_bind].
  cbn [mbind option_bind]. change (Z.of_nat 4) with 4.
  by destruct (_ =? _).
Qed.

Definition fetch_outcome (lo : nat) (s e : fetch_state) : Prop :=
  length (fe_copy e) = length (fe_copy s) /\
  (forall j, fe_copy e !! j =
     match fetched_copy (fe_dirty s) lo j with Some m => Some m | None => fe_copy s !! j end) /\
  (forall j : nat, (j < 32)%nat -> has_bit (fe_valid e) (Z.of_nat j) = true <->
     has_bit (fe_valid s) (Z.of_nat j) = true \/ is_Some (fetched_copy (fe_dirty s) lo j)) /\
  (fe_fetched e = true <->
     fe_fetched s = true \/ exists j, is_Some (fetched_copy (fe_dirty s) lo j)).

Lemma fetched_copy_none dirty lo j :
  ((lo <= j)%nat -> (j < 4)%nat -> has_bit dirty (Z.of_nat j) = true -> False) ->
  fetched_copy dirty lo j = None.
Proof.
  intros H. unfold fetched_copy. destruct (Nat.leb_spec lo j); [|done].
  destruct (Nat.ltb_spec j 4); [|done].
  destruct (has_bit dirty (Z.of_nat j)) eqn:E; [by destruct H|done].
Qed.

Lemma fetch_outcome_nothing lo s :
  (forall j, fetched_copy (fe_dirty s) lo j = None) -> fetch_outcome lo s s.
Proof.
  intros H. split_and!; [done| | |].
  - intros j. by rewrite H.
  - intros j _. rewrite H. split; [auto|]. intros [?|[? ?]]; done.
  - split; [auto|]. intros [?|[j [? Hj]]]; [done|]. by rewrite H in Hj.
Qed.

Lemma fetched_copy_step dirty lo j : (lo < 4)%nat -> (j < 32)%nat \/ (4 <= j)%nat ->
  fetched_copy (clear_bit dirty (Z.of_nat lo)) (S lo) j =
    if decide (j = lo) then None else fetched_copy dirty lo j.
Proof.
  intros Hlo Hj. unfold fetched_copy.
  destruct (decide (j = lo)) as [-> |]; [by destruct (Nat.leb_spec (S lo) lo); [lia|]|].
  destruct (Nat.leb_spec (S lo) j), (Nat.leb_spec lo j); try lia; try done.
  destruct (Nat.ltb_spec j 4); [|done]. rewrite clear_bit_has by lia.
  destruct (Z.eqb_spec (Z.of_nat j) (Z.of_nat lo)); [lia|]. by destruct (has_bit dirty _).
Qed.

Lemma fetch_loop_outcome k n s : rd_ok -> (n + k = 4)%nat -> (4 <= length (fe_copy s))%nat ->
  exists e, fetch_loop rd f k n s = Some e /\ fetch_outcome n s e.
Proof.
  intros Hrd. revert n s. induction k as [|k IH]; intros n s Hk Hc; cbn [fetch_loop].
  { exists s. split; [done|]. apply fetch_outcome_nothing. intros j.
    apply fetched_copy_none. lia. }
  destruct (Z.eqb_spec (fe_dirty s) 0) as [E|E].
  { exists s. split; [done|]. apply fetch_outcome_nothing. intros j.
    apply fetched_copy_none. intros _ _. by rewrite zero_no_bits. }
  rewrite fetch_slot_result by (done || lia). cbn [mbind option_bind].
  assert (forall j, (j < 32)%nat \/ (4 <= j)%nat) as Hj by lia.
  destruct (has_bit (fe_dirty s) (Z.of_nat n)) eqn:Hn; cbv zeta.
  - assert (fetched_copy (fe_dirty s) n n = slot_view n) as Hself.
    { unfold fetched_copy. rewrite Hn, Nat.leb_refl. by destruct (Nat.ltb_spec n 4); [|lia]. }
    destruct (slot_view n) as [m|] eqn:Hm.
    + destruct (IH (S n) (Fetch (clear_bit (fe_dirty s) (Z.of_nat n)) (<[n:=m]> (fe_copy s))
                  (set_bit (fe_valid s) (Z.of_nat n)) true)) as (e & -> & L & C & V & F);
        [lia|cbn; rewrite length_insert; lia|].
      cbn [fe_copy fe_dirty fe_valid fe_fetched] in *. rewrite length_insert in L.
      exists e. split; [done|]. split_and!; [done| | |].
      * intros j. rewrite C, fetched_copy_step by (lia || apply Hj).
        destruct (decide (j = n)) as [-> |]; [|by rewrite list_lookup_insert_ne].
        rewrite Hself, list_lookup_insert_eq by lia. done.
      * intros j Hj32. rewrite V, fetched_copy_step by (lia || apply Hj).
        rewrite !has_bit_testbit, testbit_set_bit, orb_true_iff, Z.eqb_eq by lia.
        destruct (decide (j = n)) as [-> |]; [rewrite Hself; split; [by right|by left; right]|].
        split; [|tauto]. intros [[?|?]|?]; [tauto|lia|tauto].
      * rewrite F. split; [|tauto]. intros _. right. exists n. by rewrite Hself.
    + destruct (IH (S n) (Fetch (clear_bit (fe_dirty s) (Z.of_nat n)) (fe_copy s)
                  (fe_valid s) (fe_fetched s))) as (e & -> & L & C & V & F); [lia|done|].
      cbn [fe_copy fe_dirty fe_valid fe_fetched] in *.
      assert (forall j, fetched_copy (clear_bit (fe_dirty s) (Z.of_nat n)) (S n) j =
                        fetched_copy (fe_dirty s) n j) as Hsame.
      { intros j. rewrite fetched_copy_step by (lia || apply Hj).
        by destruct (decide (j = n)) as [-> |]. }
      exists e. split; [done|]. split_and!; [done| | |].
      * intros j. by rewrite C, Hsame.
      * intros j ?. by rewrite V, Hsame.
      * rewrite F. by setoid_rewrite Hsame.
  - destruct (IH (S n) s) as (e & -> & L & C & V & F); [lia|done|].
    assert (forall j, fetched_copy (fe_dirty s) (S n) j = fetched_copy (fe_dirty s) n j) as Hsame.
    { intros j. unfold fetched_copy. destruct (decide (j = n)) as [-> |].
      - rewrite Hn, !andb_false_r. done.
      - destruct (Nat.leb_spec (S n) j), (Nat.leb_spec n j); try done; lia. }
    exists e. split; [done|]. split_and!; [done| | |].
    + intros j. by rewrite C, Hsame.
    + intros j ?. by rewrite V, Hsame.
    + rewrite F. by setoid_rewrite Hsame.
Qed.
End refresh.

(** Bit [i] is enabled by a valid copy. *)
Definition enabled (copy : list (list Z)) (valid i : Z) : Prop :=
  exists (j : nat) m, (j < 4)%nat /\ has_bit valid (Z.of_nat j) = true /\
    copy !! j = Some m /\ mask_bit m i = true.

(** The writer's invariant: the combined mask is the OR of the valid copies. *)
Record combined_ok (f : flt_ctx) : Prop := {
  cok_copies : (4 <= length (mask_copy f))%nat;
  cok_sizes n m : mask_copy f !! n = Some m -> zlen m = MAX_MASK_SIZE;
  cok_combined : zlen (combined_mask f) = MAX_MASK_SIZE;
  cok_bits i : 0 <= i < 8 * MAX_MASK_SIZE ->
    mask_bit (combined_mask f) i = true <-> enabled (mask_copy f) (mask_copy_valid f) i;
}.

Section refresh_all.
Context (rd : nat -> list Z) (s : estate) (p : eventlib_init).
Hypothesis Hp : priv (ectx s) = Some p.
Let f := flt p.

(** The slots whose notification differs from the acknowledged one. *)
Definition dirty_slots : Z := Z.lxor (word32 (rd 0%nat) (NOTIFY f)) (w_ack f).

(** After a refresh: the notification is acknowledged; the fetched copies
    replace the old ones, the others stay; a copy that is not all zero is
    marked valid exactly if it was or was fetched now, and one that is all zero
    is not marked by the refresh. *)
Definition refreshed (f' : flt_ctx) : Prop :=
  w_ack f' = word32 (rd 0%nat) (NOTIFY f) /\
  (forall j, mask_copy f' !! j =
     match fetched_copy rd f dirty_slots 0 j with
     | Some m => Some m | None => mask_copy f !! j end) /\
  forall (j : nat) m, (j < 4)%nat -> mask_copy f' !! j = Some m ->
    let marked := has_bit (mask_copy_valid f') (Z.of_nat j) = true in
    let had := has_bit (mask_copy_valid f) (Z.of_nat j) = true in
    let fetched := is_Some (fetched_copy rd f dirty_slots 0 j) in
    (is_zero m = false -> marked <-> had \/ fetched) /\
    (is_zero m = true -> marked -> had /\ ~ fetched).

Lemma wp_modify_flt g (Q : unit -> estate -> Prop) s' p' :
  priv (ectx s') = Some p' ->
  Q tt (set_ectx (set_priv (Some (set_flt (g (flt p')) p')) (ectx s')) s') ->
  wp (modify_flt g) Q s'.
Proof.
  intros E HQ. unfold modify_flt, modify_priv, get_priv. wp_simpl. rewrite E.
  eapply wp_checked; [done|]. by wp_simpl.
Qed.

Lemma fetched_copy_size dirty j m : rd_ok rd f -> fetched_copy rd f dirty 0 j = Some m ->
  zlen m = MAX_MASK_SIZE.
Proof.
  intros [H1 H2 H3]. unfold fetched_copy, slot_view.
  destruct (Nat.ltb_spec j 4); [|by rewrite andb_false_r].
  destruct (_ && _); [|done]. destruct (negb _); [done|]. destruct (negb _); [done|].
  intros <-%(inj Some). unfold MAX_MASK_SIZE, sizeof_flt_slot, flt_r2w_slot, sizeof_flt_r2w.
  pose proof (H3 (2 + 3 * j)%nat).
  assert (0 <= Z.of_nat j * slot_size f <= 3 * slot_size f) by nia.
  apply zlen_slice; subst f; lia.
Qed.

(** What the second loop computes is the invariant. *)
Lemma combine_loop_ok copy valid0 g :
  (4 <= length copy)%nat -> (forall n m, copy !! n = Some m -> zlen m = MAX_MASK_SIZE) ->
  exists comb valid,
    combine_loop copy 4 0 valid0 valid0 (fill MAX_MASK_SIZE 0) = Some (comb, valid) /\
    combined_ok (set_masks comb copy valid g) /\
    (forall j : nat, (j < 4)%nat -> has_bit valid (Z.of_nat j) = true <->
       has_bit valid0 (Z.of_nat j) = true /\
       ~ exists m, copy !! j = Some m /\ is_zero m = true).
Proof.
  intros Hl Hsz.
  destruct (combine_loop_bits copy Hsz Hl 4 0 valid0 valid0 (fill MAX_MASK_SIZE 0))
    as (comb & valid & Ec & Lc & B1 & B2); [done|by apply zlen_fill|].
  exists comb, valid. split; [done|].
  split; [|intros j Hj; rewrite B2 by lia; split; intros [Hv Hn]; (split; [done|]);
           [intros ?; apply Hn; split_and!; done || lia|by intros (_ & _ & ?)]].
  split; [done|done|done|]. intros i Hi. cbn [combined_mask mask_copy mask_copy_valid set_masks].
  rewrite B1 by done. split.
  - intros [Hz|(j & m & Hj & Hv & Hm & Hb)].
    { rewrite is_zero_bits in Hz; [done|done|by rewrite zlen_fill]. }
    exists j, m. split; [lia|]. rewrite B2 by lia. split; [|done]. split; [done|].
    intros (_ & _ & m' & Hm' & Hz). assert (m' = m) as -> by congruence.
    rewrite is_zero_bits in Hb; [done|done|]. by rewrite (Hsz j).
  - intros (j & m & Hj & Hv & Hm & Hb). right. exists j, m.
    apply B2 in Hv as [Hv _]; [|lia]. split; [lia|done].
Qed.

(** With nothing fetched, nothing changes. *)
Lemma combined_ok_same f1 f2 : combined_ok f1 ->
  combined_mask f2 = combined_mask f1 -> mask_copy f2 = mask_copy f1 ->
  (forall j : nat, (j < 32)%nat -> has_bit (mask_copy_valid f2) (Z.of_nat j) = true <->
     has_bit (mask_copy_valid f1) (Z.of_nat j) = true) ->
  combined_ok f2.
Proof.
  intros [C1 C2 C3 C4] E1 E2 E3. split; rewrite ?E1, ?E2; try done.
  intros i Hi. rewrite C4 by done. unfold enabled.
  split; intros (j & m & Hj & Hv & H); exists j, m; (split; [done|]; split; [|done]);
    apply E3; done || lia.
Qed.

(** Where no copy is brought in, nothing has changed. *)
Lemma refreshed_same f' : w_ack f' = word32 (rd 0%nat) (NOTIFY f) -> mask_copy f' = mask_copy f ->
  (forall j : nat, (j < 4)%nat -> has_bit (mask_copy_valid f') (Z.of_nat j) = true <->
     has_bit (mask_copy_valid f) (Z.of_nat j) = true) ->
  (forall j, fetched_copy rd f dirty_slots 0 j = None) -> refreshed f'.
Proof.
  intros Ea Ec Hv Hno. split; [done|]. split; [intros j; by rewrite Ec, Hno|].
  intros j m Hj Hm. cbv zeta. rewrite (Hv j Hj), (Hno j).
  assert (~ is_Some (@None (list Z))) by by intros [? ?]. tauto.
Qed.

(** C24. Whatever the readers do while the writer looks, a refresh keeps the
    combined mask equal to the OR of the valid copies, and brings in exactly
    the slots that are dirty and whose sequence lock shows a stable copy: such a
    copy replaces the old one and, unless it is all zero, is valid from then
    on; an update in progress changes nothing. *)
Theorem flt_writer_refresh_combines (fetched0 : bool) :
  rd_ok rd f -> combined_ok f -> ACK f + 4 <= zlen (r2w_mem s) ->
  exists s' p', flt_writer_refresh rd fetched0 s = Some (tt, s') /\
    priv (ectx s') = Some p' /\ combined_ok (flt p') /\ refreshed (flt p').
Proof.
  intros Hrd [C1 C2 C3 C4] Hack. pose proof Hrd as [R1 R2 R3].
  enough (wp (flt_writer_refresh rd fetched0) (fun _ s' => exists p',
            priv (ectx s') = Some p' /\ combined_ok (flt p') /\ refreshed (flt p')) s)
    as ([] & s' & E & p' & H)%wp_total by (exists s', p'; done).
  unfold flt_writer_refresh. wp_simpl. apply (wp_get_flt p); [done|]. wp_simpl.
  unfold NOTIFY at 1. eapply wp_checked; [apply rd_le_spec; [done|]|].
  { pose proof (R3 0%nat). change (Z.of_nat 4) with 4. fold f. lia. }
  change (Z.of_nat 4) with 4. fold f. fold (word32 (rd 0%nat) (flt_r2w f)).
  change (flt_r2w f) with (NOTIFY f). fold dirty_slots.
  destruct (Z.eqb_spec dirty_slots 0) as [E|E].
  - wp_simpl. exists p. split; [done|]. split; [done|]. fold f.
    apply refreshed_same; [by apply Z.lxor_eq in E|done|done|].
    intros j. apply fetched_copy_none. intros _ _. by rewrite E, zero_no_bits.
  - wp_simpl. unfold store32. apply wp_store_bytes; [unfold ACK; lia|rewrite zlen_le_enc; lia|].
    wp_simpl. eapply wp_modify_flt; [exact Hp|]. wp_simpl.
    destruct (fetch_loop_outcome rd f 4 0
                (Fetch dirty_slots (mask_copy f) (mask_copy_valid f) fetched0))
      as (e & Ee & L & Cp & V & F); [done..|].
    cbn [fe_copy fe_dirty fe_valid fe_fetched] in *.
    eapply wp_checked; [exact Ee|]. wp_simpl.
    eapply wp_modify_flt; [reflexivity|]. cbn [flt set_flt]. fold f.
    assert (forall n m, fe_copy e !! n = Some m -> zlen m = MAX_MASK_SIZE) as Hsz.
    { intros n m. rewrite Cp. destruct (fetched_copy rd f dirty_slots 0 n) eqn:Ef; [|apply C2].
      intros [= <-]. by eapply fetched_copy_size. }
    assert (forall j : nat, (j < 4)%nat -> has_bit (fe_valid e) (Z.of_nat j) = true <->
       has_bit (mask_copy_valid f) (Z.of_nat j) = true \/
       is_Some (fetched_copy rd f dirty_slots 0 j)) as Hv
      by (intros j Hj; apply V; lia).
    destruct (fe_fetched e) eqn:Efe; cbn [negb]; wp_simpl.
    + destruct (combine_loop_ok (fe_copy e) (fe_valid e)
                  (set_masks (combined_mask f) (fe_copy e) (fe_valid e) (set_w_ack (word32 (rd 0%nat) (NOTIFY f)) f)))
        as (comb & valid & Ec & Hok & Hsub); [lia|done|].
      eapply wp_checked; [exact Ec|].
      eapply wp_modify_flt; [reflexivity|]. eexists. split; [reflexivity|].
      split; [exact Hok|]. split_and!; [done|exact Cp|].
      intros j m Hj Hm. cbv zeta. change (fe_copy e !! j = Some m) in Hm.
      cbn [flt set_flt mask_copy_valid set_masks]. split; intros Hz.
      * rewrite (Hsub j Hj), (Hv j Hj). split; [tauto|]. intros Ho. split; [exact Ho|].
        intros (m' & Hm' & Hz'). assert (m' = m) by congruence. congruence.
      * intros [_ Hn]%Hsub; [|done]. destruct Hn. by exists m.
    + assert (forall j, fetched_copy rd f dirty_slots 0 j = None) as Hno.
      { intros j. apply eq_None_not_Some. intros Hj.
        assert (false = true); [|done]. apply F. right. by exists j. }
      assert (fe_copy e = mask_copy f) as Esame
        by (apply list_eq; intros j; by rewrite Cp, Hno).
      assert (forall j : nat, (j < 32)%nat -> has_bit (fe_valid e) (Z.of_nat j) = true <->
        has_bit (mask_copy_valid f) (Z.of_nat j) = true) as Hsame
        by (intros j Hj; rewrite V, Hno by done; split; [by intros [?|[? ?]]|auto]).
      eexists. split; [reflexivity|]. split; [by apply (combined_ok_same f)|].
      apply refreshed_same; [done|done|intros j Hj; apply Hsame; lia|done].
Qed.
End refresh_all.

(** ** A reader's slot *)
Section alloc_spec.
Context (others : nat -> list Z -> list Z) (size off : Z).
Hypothesis Hoff : 0 <= off /\ off + 4 <= size.

(** What the other readers may do meanwhile: anything to the block, except
    release a slot. *)
Definition block_ok (m : list Z) : Prop := zlen m = size /\ bytes_ok m.
Record others_only_take : Prop := {
  oot_block k m : block_ok m -> block_ok (others k m);
  oot_busy k m j : block_ok m -> 0 <= j < 32 ->
    has_bit (word32 m off) j = true -> has_bit (word32 (others k m) off) j = true;
}.
Hypothesis Hothers : others_only_take.

Definition taken_block (m : list Z) (j : Z) : list Z :=
  splice m off (le_enc 4 (set_bit (word32 m off) j)).

Lemma block_word m : block_ok m -> 0 <= word32 m off < 2 ^ 32.
Proof. intros [HL Hb]. apply word32_range; [done|lia|lia]. Qed.

Lemma taken_block_ok m j : block_ok m -> block_ok (taken_block m j).
Proof.
  intros [HL Hb]. split.
  - unfold taken_block. rewrite zlen_splice; rewrite ?zlen_le_enc; lia.
  - apply splice_bytes_ok; [done|apply le_enc_bytes_ok].
Qed.

Lemma set_bit_u32 x j : 0 <= j < 32 -> 0 <= x < 2 ^ 32 -> u32 (set_bit x j) = set_bit x j.
Proof.
  intros Hj Hx. apply u32_small. by apply set_bit_range.
Qed.

Lemma taken_block_word m j : block_ok m -> 0 <= j < 32 ->
  word32 (taken_block m j) off = set_bit (word32 m off) j.
Proof.
  intros Hm Hj. pose proof (block_word m Hm). destruct Hm as [HL Hb].
  unfold taken_block. rewrite word32_splice_same by lia. by apply set_bit_u32.
Qed.

Lemma set_bit_has x n j : 0 <= n -> 0 <= j ->
  has_bit (set_bit x n) j = has_bit x j || (j =? n).
Proof. intros. rewrite !has_bit_testbit, testbit_set_bit by done. done. Qed.

(** The slot a scan returns was free in the block the atomic access saw. *)
Definition took (j : Z) (m' : list Z) : Prop :=
  exists m, block_ok m /\ has_bit (word32 m off) j = false /\ m' = taken_block m j.

Lemma alloc_scan_spec busy cnt n k s :
  (n + cnt = 4)%nat -> block_ok (r2w_mem s) ->
  wp (alloc_scan others off busy cnt n k)
     (fun r s' => block_ok (r2w_mem s') /\ ectx s' = ectx s /\
        match r.1 with
        | Some j => (j < 4)%nat /\ took (Z.of_nat j) (r2w_mem s')
        | None =>
            (forall j, 0 <= j < 32 -> has_bit (word32 (r2w_mem s) off) j = true ->
               has_bit (word32 (r2w_mem s') off) j = true) /\
            (forall j : nat, (n <= j < 4)%nat -> has_bit busy (Z.of_nat j) = true \/
               has_bit (word32 (r2w_mem s') off) (Z.of_nat j) = true)
        end) s.
Proof.
  revert n k s. induction cnt as [|cnt IH]; intros n k s Hn Hm; cbn [alloc_scan].
  { wp_simpl. cbn [fst]. split_and!; try done. lia. }
  destruct (has_bit busy (Z.of_nat n)) eqn:Eb.
  - eapply wp_mono; [apply IH; [lia|done]|]. intros [[j|] k'] s' (H1 & H2 & H3); cbn [fst] in *.
    + done.
    + split_and!; try done; [apply H3|]. intros j Hj.
      destruct (decide (j = n)) as [-> |]; [by left|]. apply H3. lia.
  - wp_simpl. unfold interfere, sync_test_and_set_bit. wp_simpl.
    set (m := others k (r2w_mem s)).
    assert (block_ok m) as Hm' by (by apply Hothers). pose proof Hm' as [HL HB].
    apply wp_load32; cbn [r2w_mem set_r2w_mem]; fold m; [lia|lia|].
    wp_simpl. unfold store32.
    apply wp_store_bytes; cbn [r2w_mem set_r2w_mem]; fold m;
      [lia|rewrite zlen_le_enc; lia|]. wp_simpl. fold (word32 m off).
    fold (taken_block m (Z.of_nat n)).
    pose proof (taken_block_ok m (Z.of_nat n) Hm') as Ht.
    pose proof (taken_block_word m (Z.of_nat n) Hm' ltac:(lia)) as Ew.
    assert (forall j, 0 <= j < 32 -> has_bit (word32 (r2w_mem s) off) j = true ->
              has_bit (word32 m off) j = true) as Hmono by (intros; by apply Hothers).
    destruct (has_bit (word32 m off) (Z.of_nat n)) eqn:Ebit.
    + eapply wp_mono; [apply IH; [lia|exact Ht]|].
      intros [[j|] k'] s' (H1 & H2 & H3); cbn [fst r2w_mem set_r2w_mem] in *; [done|].
      destruct H3 as [H3 H4]. rewrite Ew in H3. split_and!; try done.
      * intros j Hj Hbj. apply H3; [done|]. rewrite set_bit_has by lia.
        by rewrite Hmono.
      * intros j Hj. destruct (decide (j = n)) as [-> |]; [|apply H4; lia].
        right. apply H3; [lia|]. rewrite set_bit_has by lia. by rewrite Ebit.
    + wp_simpl. cbn [fst]. split; [exact Ht|]. split; [done|]. split; [lia|].
      by exists m.
Qed.

Definition all_busy (m : list Z) : Prop :=
  forall j, 0 <= j < 4 -> has_bit (word32 m off) j = true.

Lemma all_slots_spec x : 0 <= x ->
  Z.land x all_slots_mask = all_slots_mask <-> forall j, 0 <= j < 4 -> has_bit x j = true.
Proof.
  intros Hx. change all_slots_mask with (Z.ones 4). rewrite Z.land_ones by lia.
  split.
  - intros E j Hj. rewrite has_bit_testbit by lia. rewrite <- (Z.mod_pow2_bits_low x 4 j) by lia. rewrite E.
    by apply Z.ones_spec_low.
  - intros H. apply Z.bits_inj'. intros j Hj. destruct (Z.ltb_spec j 4).
    + rewrite Z.mod_pow2_bits_low, Z.ones_spec_low by lia. rewrite <- has_bit_testbit by lia. apply H. lia.
    + by rewrite Z.mod_pow2_bits_high, Z.ones_spec_high by lia.
Qed.

(** Two rounds: a slot lost in the first one is busy in the second. *)
Lemma alloc_loop_spec fuel k s : (2 <= fuel)%nat -> block_ok (r2w_mem s) ->
  wp (alloc_loop others fuel off k)
     (fun r s' => block_ok (r2w_mem s') /\ ectx s' = ectx s /\
        match r with
        | Some (inl ret) => ret = - EBUSY /\ all_busy (r2w_mem s')
        | Some (inr j) => (j < 4)%nat /\ took (Z.of_nat j) (r2w_mem s')
        | None => False
        end) s.
Proof.
  intros Hf Hm.
  assert (forall fuel k s, block_ok (r2w_mem s) -> (0 < fuel)%nat ->
    (2 <= fuel)%nat \/ all_busy (r2w_mem s) ->
    wp (alloc_loop others fuel off k)
       (fun r s' => block_ok (r2w_mem s') /\ ectx s' = ectx s /\
          match r with
          | Some (inl ret) => ret = - EBUSY /\ all_busy (r2w_mem s')
          | Some (inr j) => (j < 4)%nat /\ took (Z.of_nat j) (r2w_mem s')
          | None => False
          end) s) as H; [|by apply H; [|lia|left]].
  clear fuel k s Hf Hm. induction fuel as [|fuel IH]; intros k s Hm Hpos Hf; [lia|].
  cbn [alloc_loop]. wp_simpl. unfold interfere. wp_simpl.
  set (m := others k (r2w_mem s)).
  assert (block_ok m) as Hm' by (by apply Hothers). pose proof Hm' as [HL HB].
  apply wp_load32; cbn [r2w_mem set_r2w_mem]; fold m; [lia|lia|]. fold (word32 m off).
  pose proof (all_slots_spec (word32 m off) ltac:(pose proof (block_word m Hm'); lia)) as Hall.
  destruct (Z.eqb_spec (Z.land (word32 m off) all_slots_mask) all_slots_mask) as [E|E].
  { wp_simpl. split; [done|]. split; [done|]. exact (conj eq_refl (proj1 Hall E)). }
  destruct Hf as [Hf|Hbusy].
  2: { destruct E. apply (proj2 Hall). intros j Hj. apply Hothers; [done|lia|by apply Hbusy]. }
  wp_simpl. eapply wp_mono; [apply alloc_scan_spec; [done|exact Hm']|].
  intros [[j|] k'] s' (H1 & H2 & H3); cbn [fst] in *; cbv iota.
  - wp_simpl. done.
  - destruct H3 as [H3 H4]. cbn [r2w_mem set_r2w_mem] in H3. fold m in H3.
    eapply wp_mono; [apply IH; [done|lia|right]|].
    + intros j Hj. destruct (H4 (Z.to_nat j)) as [H5|H5]; [lia| |];
        rewrite Z2Nat.id in H5 by lia; [|done]. apply H3; [lia|done].
    + intros r s'' (H5 & H6 & H7). rewrite H6, H2. done.
Qed.
End alloc_spec.

Section alloc_slot.
Context (others : nat -> list Z -> list Z) (s : estate) (p : eventlib_init).
Hypothesis Hp : priv (ectx s) = Some p.
Let f := flt p.
Let size := zlen (r2w_mem s).

(** Slot allocation ends within two rounds of its endless loop as long as
    the other readers only take slots meanwhile. It fails with EBUSY exactly
    when it saw all slots busy; otherwise it owns a slot that was free in the
    block its atomic test-and-set saw, and the slot's sequence lock is left
    even even if the previous owner died in the middle of an update. *)
Theorem flt_reader_alloc_slot_spec (fuel : nat) :
  0 <= flt_r2w f -> 0 <= slot_size f -> flt_r2w f + 12 + 3 * slot_size f + 4 <= size ->
  bytes_ok (r2w_mem s) -> others_only_take others size (BUSY f) -> (2 <= fuel)%nat ->
  exists ret s', flt_reader_alloc_slot others fuel s = Some (Some ret, s') /\
    (ret = - EBUSY /\ all_busy (BUSY f) (r2w_mem s') \/
     exists m n, ret = 0 /\ 0 <= n < 4 /\
       zlen m = size /\ has_bit (word32 m (BUSY f)) n = false /\
       word32 (r2w_mem s') (BUSY f) = set_bit (word32 m (BUSY f)) n /\
       (exists p', priv (ectx s') = Some p' /\ slot_index (flt p') = n) /\
       Z.land (word32 (r2w_mem s') (flt_r2w_slot f n)) 1 = 0).
Proof.
  intros H1 H2 H3 Hb Ho Hf.
  assert (0 <= BUSY f /\ BUSY f + 4 <= size) as Hoff by (unfold BUSY; lia).
  enough (wp (flt_reader_alloc_slot others fuel) (fun r s' => exists ret, r = Some ret /\
     (ret = - EBUSY /\ all_busy (BUSY f) (r2w_mem s') \/
     exists m n, ret = 0 /\ 0 <= n < 4 /\
       zlen m = size /\ has_bit (word32 m (BUSY f)) n = false /\
       word32 (r2w_mem s') (BUSY f) = set_bit (word32 m (BUSY f)) n /\
       (exists p', priv (ectx s') = Some p' /\ slot_index (flt p') = n) /\
       Z.land (word32 (r2w_mem s') (flt_r2w_slot f n)) 1 = 0)) s)
    as (r & s' & E & ret & -> & HQ)%wp_total by (by exists ret, s').
  unfold flt_reader_alloc_slot. wp_simpl. apply (wp_get_flt p); [done|]. wp_simpl. fold f.
  eapply wp_mono; [apply (alloc_loop_spec others size (BUSY f)); done|].
  intros [[ret|n]|] s' (Hm & Ec & HQ); [| |done].
  { wp_simpl. exists ret. split; [done|]. by left. }
  destruct HQ as (Hn & m & Hm0 & Hfree & Em). wp_simpl.
  eapply wp_modify_flt; [rewrite Ec; exact Hp|]. wp_simpl.
  set (slot := flt_r2w_slot f (Z.of_nat n)).
  assert (BUSY f + 4 <= slot /\ slot + 4 <= size) as Hslot
    by (unfold slot, BUSY, flt_r2w_slot, sizeof_flt_r2w; nia).
  pose proof Hm as [HL HB].
  apply wp_load32; cbn [r2w_mem set_ectx]; [lia|lia|]. fold (word32 (r2w_mem s') slot).
  assert (word32 (r2w_mem s') (BUSY f) = set_bit (word32 m (BUSY f)) (Z.of_nat n)) as Ew
    by (rewrite Em; apply (taken_block_word size); [done|done|lia]).
  pose proof (word32_range (r2w_mem s') slot HB ltac:(lia) ltac:(lia)) as Hr.
  destruct (Z.eqb_spec (Z.land (word32 (r2w_mem s') slot) 1) 0) as [E|E]; cbn [negb]; wp_simpl.
  - eexists. split; [done|]. right. exists m, (Z.of_nat n).
    split_and!; try done; try lia; [apply Hm0|]. eexists. split; [reflexivity|done].
  - apply wp_store_bytes; cbn [r2w_mem set_ectx]; [lia|rewrite zlen_le_enc; lia|].
    cbn [r2w_mem set_r2w_mem set_ectx ectx]. wp_simpl. cbn [r2w_mem set_r2w_mem set_ectx ectx].
    eexists. split; [done|]. right. exists m, (Z.of_nat n).
    split_and!; try done; try lia; [apply Hm0| |eexists; split; [reflexivity|done]|].
    + unfold word32 at 1. rewrite slice_splice_disj by (rewrite ?zlen_le_enc; lia). exact Ew.
    + fold slot. rewrite word32_splice_same by lia.
      rewrite uw_idemp. change 1 with (2 ^ 1 - 1) in E |- *. rewrite land_mask in * by lia.
      unfold uw. dlia.
Qed.
End alloc_slot.

(** ** Examples: a block of 200 bytes, four slots of [sz] bytes, slot 1 in use *)

Definition ex_flt (sz : Z) : flt_ctx :=
  Flt true 24 24 (fun _ => Geo 32 0) sz 0 (fill MAX_MASK_SIZE 0)
    (replicate 32 (fill MAX_MASK_SIZE 0)) 0 (fill MAX_MASK_SIZE 5) 1.
Definition ex_priv (sz : Z) : eventlib_init :=
  Init 0 0 (Shared 1 (fun _ => (0, 0))) (Shared 1 (fun _ => (0, 0))) [] (ex_flt sz).
Definition ex_estate (sz : Z) : estate :=
  EState (ECtx 1 1 (Some 4096) 200 (Some 8192) 200 (Some (ex_priv sz)) (fun _ => 32) 1)
    (fill 200 0) (fill 200 0) (fun _ => TbufW2r 0 (Mem (Tracebuf 0 0 0 0 0) [])).

(** The block as the writer sees it: slot 0 notified, its mask all fives. *)
Definition ex_block : list Z := fill 24 0 ++ le_enc 4 1 ++ fill 8 0 ++ le_enc 4 2 ++ fill 20 5 ++ fill 140 0.

Lemma ex_push_ok sz : sz = 8 \/ sz = 24 -> push_ok (ex_estate sz) (ex_priv sz).
Proof.
  intros [-> | ->]; (split; try (by vm_compute);
    split; apply bytes_ok_dec; by vm_compute).
Qed.

Lemma le_dec_zeros n : le_dec (replicate n 0) = 0.
Proof. induction n as [|n IH]; [done|]. cbn [replicate le_dec]. by rewrite IH. Qed.

Lemma mask_bit_zeros n i : mask_bit (fill n 0) i = false.
Proof.
  unfold mask_bit, slice, fill. rewrite drop_replicate, take_replicate, le_dec_zeros.
  apply Z.testbit_0_l.
Qed.

Lemma ex_combined_ok : combined_ok (ex_flt 24).
Proof.
  split; try (by vm_compute).
  - cbn. lia.
  - intros n m [-> _]%lookup_replicate. by vm_compute.
  - intros i Hi. cbn [combined_mask ex_flt]. rewrite mask_bit_zeros. split; [done|].
    intros (j & m & _ & _ & [-> _]%lookup_replicate & Hm). by rewrite mask_bit_zeros in Hm.
Qed.

Lemma check_masks_spec_witness : exists r,
  check_masks [0; 4] [6] 1 3 = Some r /\
  (r = 1 <-> share [0; 4] [6] 1 0 3) /\ (r = 0 <-> ~ share [0; 4] [6] 1 0 3).
Proof. apply check_masks_spec; try (by apply bytes_ok_dec); by vm_compute. Defined.

Lemma flt_reader_push_publishes_witness : exists s',
  flt_reader_push (ex_estate 24) = Some (tt, s') /\
  slice (r2w_mem s') 64 20 = fill 20 5 /\ word32 (r2w_mem s') 60 = 2.
Proof.
  destruct (flt_reader_push_publishes (ex_estate 24) (ex_priv 24) eq_refl)
    as (s' & E & H1 & H2 & _); [apply ex_push_ok; by right|].
  exists s'. split; [exact E|]. split; [exact H1|exact H2].
Defined.

Lemma flt_reader_push_clobbers_next_witness : exists s',
  flt_reader_push (ex_estate 8) = Some (tt, s') /\ slice (r2w_mem s') 52 16 = fill 16 5.
Proof.
  apply (flt_reader_push_clobbers_next (ex_estate 8) (ex_priv 8) eq_refl);
    [apply ex_push_ok; by left|by vm_compute].
Defined.

Lemma flt_writer_refresh_combines_witness : exists s' p',
  flt_writer_refresh (fun _ => ex_block) false (ex_estate 24) = Some (tt, s') /\
  priv (ectx s') = Some p' /\ combined_ok (flt p') /\
  refreshed (fun _ => ex_block) (ex_priv 24) (flt p').
Proof.
  apply flt_writer_refresh_combines; [reflexivity| |exact ex_combined_ok|by vm_compute].
  split; try (intros; by vm_compute).
Defined.

Lemma ex_others_only_take : others_only_take (fun _ m => m) 200 32.
Proof. by split. Qed.

Lemma flt_reader_alloc_slot_spec_witness : exists ret s',
  flt_reader_alloc_slot (fun _ m => m) 2 (ex_estate 24) = Some (Some ret, s') /\
  ret = 0 /\ word32 (r2w_mem s') 32 = 1.
Proof.
  assert (bytes_ok (r2w_mem (ex_estate 24))) as Hb by by apply bytes_ok_dec.
  destruct (flt_reader_alloc_slot_spec (fun _ m => m) (ex_estate 24) (ex_priv 24) eq_refl 2
              ltac:(by vm_compute) ltac:(by vm_compute) ltac:(by vm_compute) Hb
              ex_others_only_take ltac:(lia)) as (ret & s' & E & _).
  exists ret, s'. split; [exact E|]. vm_compute in E. by injection E as <- <-.
Defined.
