(* ===== verification/EventlibInit.v ===== *)
(** * Setting up an endpoint (drivers/misc/eventlib/eventlib_init.c)

    Writer and reader meet through the header at the start of each shared
    block: the writer lays out its subsystems and publishes the layout, the
    reader checks the layout and copies it before using it. *)

From S2P Require Import Prelude Tracebuf Eventlib EventlibTbuf EventlibFlt.

(** sizeof(struct eventlib_init) on a 64-bit target: two words, two headers, six
    trace buffer contexts of 40 bytes, a filter context of 728. *)
Definition sizeof_eventlib_init : Z := 4 + 4 + 2 * sizeof_eventlib_shared + 6 * 40 + 728.
Definition local_mem_size : Z := 0x400.

Definition shared_zero : eventlib_shared := Shared 0 (fun _ => (0, 0)).
Definition tracectx_zero : tracectx := Ctx 0 0 0 0.
(** memset(ctx->priv, 0, priv_size) *)
Definition init_zero : eventlib_init :=
  Init 0 0 shared_zero shared_zero
    (replicate (Z.to_nat EVENTLIB_TBUFS_MAX) (Tbuf tracectx_zero 0)) flt_zero.

Definition modify_ectx (f : eventlib_ctx -> eventlib_ctx) : M estate unit :=
  modify (fun s => set_ectx (f (ectx s)) s).

Definition priv_init : M estate Z :=
  let priv_size := ALIGN_64_UP sizeof_eventlib_init in
  if local_mem_size <? priv_size then mret (- ENOMEM)
  else modify_ectx (set_priv (Some init_zero));; mret 0.

(** ** The header of a block *)

(** The new memory and offset, or the error. *)
Definition shm_writer_setup_start (shm : list Z) (size : Z) : option (Z + list Z * Z) :=
  if size <? sizeof_eventlib_shared then Some (inl (- ENOSPC))
  else
    m ← mem_write shm 0 (fill sizeof_eventlib_shared 0);
    Some (inr (m, ALIGN_64_UP sizeof_eventlib_shared)).

Definition subsys_enc (os : Z * Z) : list Z := le_enc 4 os.1 ++ le_enc 4 os.2.

Definition shm_writer_setup_done (copy : eventlib_shared) (shm : list Z) (magic : Z)
    : option (list Z) :=
  m ← mem_write shm 8 (subsys_enc (sh_subsys copy TRACEBUF) ++
                       subsys_enc (sh_subsys copy FILTERING));
  wr_le 4 m 0 magic.

(** The body of the verification loop: [true] is return -ENOSPC. *)
Definition subsys_bad (size : Z) (os : Z * Z) : bool :=
  if (os.1 =? 0) || (os.2 =? 0) then false
  else (size <? os.1) || (size <? u32 (os.1 + os.2)).

Definition shm_reader_check (copy : eventlib_shared) (shm : list Z) (size magic : Z)
    : option (Z * eventlib_shared) :=
  if size <? sizeof_eventlib_shared then Some (- ENOSPC, copy)
  else
    m ← rd_le 4 shm 0;
    if negb (m =? magic) then Some (- EIO, copy)
    else
      nb ← rd_le 4 shm 4;
      o0 ← rd_le 4 shm 8; s0 ← rd_le 4 shm 12;
      o1 ← rd_le 4 shm 16; s1 ← rd_le 4 shm 20;
      let copy := Shared nb (fun s => match s with TRACEBUF => (o0, s0) | FILTERING => (o1, s1) end) in
      if subsys_bad size (o0, s0) then Some (- ENOSPC, copy)
      else if subsys_bad size (o1, s1) then Some (- ENOSPC, copy)
      else Some (0, copy).

Definition set_w2r_offset (o : Z) (p : eventlib_init) : eventlib_init :=
  set_w2r_copy (w2r_copy p) o p.
Definition set_r2w_offset (o : Z) (p : eventlib_init) : eventlib_init :=
  set_r2w_copy (r2w_copy p) o p.

(** The writer's half: the r2w block only after success on the w2r one; the
    number of buffers is stored whatever the result. *)
Definition shm_region_start_writer : M estate Z :=
  s ← get;
  r ← checked (shm_writer_setup_start (w2r_mem s) (w2r_shm_size (ectx s)));
  ret ← match r with
        | inl ret => mret ret
        | inr (m, off) => modify (set_w2r_mem m);; modify_priv (set_w2r_offset off);; mret 0
        end;
  ret ← (if (ret =? 0) && bool_decide (r2w_shm (ectx s) <> None) then
           r ← checked (shm_writer_setup_start (r2w_mem s) (r2w_shm_size (ectx s)));
           match r with
           | inl ret => mret ret
           | inr (m, off) => modify (set_r2w_mem m);; modify_priv (set_r2w_offset off);; mret 0
           end
         else mret ret);
  s ← get;
  m ← checked (wr_le 4 (w2r_mem s) 4 (num_buffers (ectx s)));
  modify (set_w2r_mem m);; mret ret.

Definition shm_region_start_reader : M estate Z :=
  s ← get; p ← get_priv;
  '(ret, copy) ← checked (shm_reader_check (w2r_copy p) (w2r_mem s)
                            (w2r_shm_size (ectx s)) EVENTLIB_MAGIC_W2R);
  modify_priv (set_w2r_copy copy (w2r_offset p));;
  if (ret =? 0) && bool_decide (r2w_shm (ectx s) <> None) then
    p ← get_priv;
    '(ret, copy) ← checked (shm_reader_check (r2w_copy p) (r2w_mem s)
                              (r2w_shm_size (ectx s)) EVENTLIB_MAGIC_R2W);
    modify_priv (set_r2w_copy copy (r2w_offset p));; mret ret
  else mret ret.

Definition shm_region_start : M estate Z :=
  s ← get;
  if direction (ectx s) =? EVENTLIB_DIRECTION_WRITER
  then shm_region_start_writer else shm_region_start_reader.

Definition shm_region_done : M estate unit :=
  s ← get; p ← get_priv;
  if direction (ectx s) =? EVENTLIB_DIRECTION_WRITER then
    m ← checked (shm_writer_setup_done (w2r_copy p) (w2r_mem s) EVENTLIB_MAGIC_W2R);
    modify (set_w2r_mem m);;
    if bool_decide (r2w_shm (ectx s) <> None) then
      m ← checked (shm_writer_setup_done (r2w_copy p) (r2w_mem s) EVENTLIB_MAGIC_R2W);
      modify (set_r2w_mem m)
    else mret tt
  else mret tt.

Definition mem_ok (p : option Z) (size : Z) : bool :=
  if size =? 0 then true
  else match p with
       | None => false
       | Some a => if negb (ALIGN_64_CHECK a) then false else true
       end.

(** ** The entry points

    The filter subsystem is linked weakly; [others] and [fuel] are those of a
    reader's slot allocation. *)
Section entry.
Context (flt_linked : bool) (others : nat -> list Z -> list Z) (fuel : nat).

Definition eventlib_close : M estate unit :=
  (if flt_linked then flt_fini else mret tt);; modify_ectx (set_priv None).

(** [None] inside: the slot allocation ran out of fuel. *)
Definition _eventlib_init (ctx_version ctx_size : Z) : M estate (option Z) :=
  s ← get;
  let c := ectx s in
  if negb (ctx_version =? EVENTLIB_CTX_VERSION) || (ctx_size =? 0)
  then mret (Some (- EFAULT))
  else if negb (direction c =? EVENTLIB_DIRECTION_WRITER) &&
          negb (direction c =? EVENTLIB_DIRECTION_READER) then mret (Some (- EINVAL))
  else if bool_decide (w2r_shm c = None) || negb (mem_ok (w2r_shm c) (w2r_shm_size c)) ||
          negb (mem_ok (r2w_shm c) (r2w_shm_size c)) then mret (Some (- EINVAL))
  else if negb (bool_decide (priv c = None)) then mret (Some (- EINVAL))
  else
    let n := if (direction c =? EVENTLIB_DIRECTION_WRITER) && (num_buffers c =? 0)
             then 1 else num_buffers c in
    modify_ectx (set_sizes (ALIGN_64_DOWN (w2r_shm_size c)) (ALIGN_64_DOWN (r2w_shm_size c)) n);;
    ret ← priv_init;
    if negb (ret =? 0) then mret (Some ret)
    else
      ret ← shm_region_start;
      if negb (ret =? 0) then modify_ectx (set_priv None);; mret (Some ret)
      else
        fret ← (if flt_linked then flt_init others fuel else mret (Some 0));
        match fret with
        | None => mret None
        | Some ret =>
            if negb (ret =? 0) then modify_ectx (set_priv None);; mret (Some ret)
            else
              ret ← tbuf_init;
              if negb (ret =? 0) then eventlib_close;; mret (Some ret)
              else shm_region_done;; mret (Some 0)
        end.
End entry.

(** ** The header *)

Lemma subsys_bad_false size o n : 0 <= o < 2 ^ 32 -> 0 <= n < 2 ^ 32 -> o + n < 2 ^ 32 ->
  subsys_bad size (o, n) = false <-> o = 0 \/ n = 0 \/ o + n <= size.
Proof.
  intros Ho Hn Hw. unfold subsys_bad. cbn [fst snd]. rewrite u32_small by lia.
  destruct (Z.eqb_spec o 0); [subst; cbn; tauto|].
  destruct (Z.eqb_spec n 0); [subst; cbn; tauto|]. cbn [orb].
  rewrite orb_false_iff, !Z.ltb_ge. lia.
Qed.

Lemma rd_le_range n m off x : bytes_ok m -> rd_le n m off = Some x ->
  0 <= x < 2 ^ (8 * Z.of_nat n).
Proof.
  intros Hm. unfold rd_le. destruct (mem_read m off (Z.of_nat n)) as [bs|] eqn:E; [|done].
  apply mem_read_inv in E as (Hr & ->). cbn [mbind option_bind]. intros [= <-].
  pose proof (le_dec_range _ (slice_bytes_ok m off (Z.of_nat n) Hm)) as H.
  rewrite zlen_slice in H by lia. exact H.
Qed.

(** An area described by a header lies in the block. *)
Definition area_ok (size : Z) (os : Z * Z) : Prop := os.1 = 0 \/ os.2 = 0 \/ os.1 + os.2 <= size.

Definition area_wraps (os : Z * Z) : Prop := 2 ^ 32 <= os.1 + os.2.

Lemma header_words shm size :
  sizeof_eventlib_shared <= size <= zlen shm -> bytes_ok shm ->
  exists m nb o0 s0 o1 s1,
    rd_le 4 shm 0 = Some m /\ rd_le 4 shm 4 = Some nb /\
    rd_le 4 shm 8 = Some o0 /\ rd_le 4 shm 12 = Some s0 /\
    rd_le 4 shm 16 = Some o1 /\ rd_le 4 shm 20 = Some s1.
Proof.
  unfold sizeof_eventlib_shared. intros Hs Hb. do 6 eexists.
  split_and!; apply rd_le_spec; lia.
Qed.

(** The reader believes a header only if the areas it describes are inside
    the block: on success the magic is right and every area of a subsystem that
    is present and does not wrap around 2^32 ends within the block. No block
    makes the check fault. *)
Theorem shm_reader_check_sound (copy : eventlib_shared) (shm : list Z) (size magic : Z) :
  0 <= size < 2 ^ 32 -> size <= zlen shm -> bytes_ok shm ->
  exists ret copy', shm_reader_check copy shm size magic = Some (ret, copy') /\
    (ret = 0 \/ ret = - ENOSPC \/ ret = - EIO) /\
    (ret = 0 -> rd_le 4 shm 0 = Some magic /\ sizeof_eventlib_shared <= size /\
       rd_le 4 shm 4 = Some (sh_num_buffers copy') /\
       forall s, area_ok size (sh_subsys copy' s) \/ area_wraps (sh_subsys copy' s)).
Proof.
  intros Hs Hl Hb. unfold shm_reader_check.
  destruct (Z.ltb_spec size sizeof_eventlib_shared).
  { do 2 eexists. split; [reflexivity|]. split; [auto|]. intros ?. by cbn in *. }
  destruct (header_words shm size ltac:(lia) Hb)
    as (m & nb & o0 & s0 & o1 & s1 & E0 & E4 & E8 & E12 & E16 & E20).
  pose proof (rd_le_range _ _ _ _ Hb E8). pose proof (rd_le_range _ _ _ _ Hb E12).
  pose proof (rd_le_range _ _ _ _ Hb E16). pose proof (rd_le_range _ _ _ _ Hb E20).
  rewrite E0. cbn [mbind option_bind]. destruct (Z.eqb_spec m magic) as [-> |]; cbn [negb].
  2: { do 2 eexists. split; [reflexivity|]. split; [auto|]. intros ?. by cbn in *. }
  rewrite E4, E8, E12, E16, E20. cbn [mbind option_bind].
  destruct (subsys_bad size (o0, s0)) eqn:B0;
    [do 2 eexists; split; [reflexivity|]; split; [auto|]; intros ?; by cbn in *|].
  destruct (subsys_bad size (o1, s1)) eqn:B1;
    [do 2 eexists; split; [reflexivity|]; split; [auto|]; intros ?; by cbn in *|].
  do 2 eexists. split; [reflexivity|]. split; [auto|]. intros _. split_and!; try done.
  intros s. unfold area_ok, area_wraps. cbn [sh_subsys].
  destruct s; cbn [fst snd].
  - destruct (Z.lt_ge_cases (o0 + s0) (2 ^ 32)); [left|right; lia].
    apply subsys_bad_false in B0; lia.
  - destruct (Z.lt_ge_cases (o1 + s1) (2 ^ 32)); [left|right; lia].
    apply subsys_bad_false in B1; lia.
Qed.

Lemma rd_le_at n pre x post m off :
  m = pre ++ le_enc n x ++ post -> zlen pre = off -> 0 <= x < 2 ^ (8 * Z.of_nat n) ->
  rd_le n m off = Some x.
Proof.
  intros -> <- Hx. pose proof (zlen_nonneg pre). pose proof (zlen_nonneg post).
  rewrite rd_le_spec by (rewrite ?zlen_app, ?zlen_le_enc; lia).
  rewrite slice_app_r, Z.sub_diag by lia.
  rewrite slice_app_l by (rewrite ?zlen_le_enc; lia). rewrite <- (zlen_le_enc n x) at 1.
  rewrite slice_all, le_dec_enc. by rewrite Z.mod_small.
Qed.

(** The 24 bytes of a finished header. *)
Definition header (magic nb : Z) (copy : eventlib_shared) : list Z :=
  le_enc 4 magic ++ le_enc 4 nb ++
  subsys_enc (sh_subsys copy TRACEBUF) ++ subsys_enc (sh_subsys copy FILTERING).

Lemma zlen_header magic nb copy : zlen (header magic nb copy) = 24.
Proof. unfold header, subsys_enc. rewrite !zlen_app, !zlen_le_enc. done. Qed.

Definition word_ok (x : Z) : Prop := 0 <= x < 2 ^ 32.

(** What a reader finds in it. *)
Lemma header_reads magic nb copy rest :
  word_ok magic -> word_ok nb ->
  (forall s, word_ok (sh_subsys copy s).1 /\ word_ok (sh_subsys copy s).2) ->
  let m := header magic nb copy ++ rest in
  rd_le 4 m 0 = Some magic /\ rd_le 4 m 4 = Some nb /\
  rd_le 4 m 8 = Some (sh_subsys copy TRACEBUF).1 /\ rd_le 4 m 12 = Some (sh_subsys copy TRACEBUF).2 /\
  rd_le 4 m 16 = Some (sh_subsys copy FILTERING).1 /\ rd_le 4 m 20 = Some (sh_subsys copy FILTERING).2.
Proof.
  intros Hm Hn Hc m. destruct (Hc TRACEBUF) as (A1 & A2). destruct (Hc FILTERING) as (B1 & B2).
  unfold word_ok in *.
  destruct (sh_subsys copy TRACEBUF) as [o0 s0] eqn:E0.
  destruct (sh_subsys copy FILTERING) as [o1 s1] eqn:E1. cbn [fst snd] in *.
  assert (m = le_enc 4 magic ++ le_enc 4 nb ++ le_enc 4 o0 ++ le_enc 4 s0 ++
              le_enc 4 o1 ++ le_enc 4 s1 ++ rest) as Em
    by (unfold m, header, subsys_enc; rewrite E0, E1; cbn [fst snd]; by rewrite <- !app_assoc).
  split_and!.
  - by apply (rd_le_at 4 [] magic _ m 0 Em eq_refl).
  - by apply (rd_le_at 4 (le_enc 4 magic) nb _ m 4 Em eq_refl).
  - by eapply (rd_le_at 4 (le_enc 4 magic ++ le_enc 4 nb) o0); [rewrite Em, <- !app_assoc|..].
  - by eapply (rd_le_at 4 (le_enc 4 magic ++ le_enc 4 nb ++ le_enc 4 o0) s0);
      [rewrite Em, <- !app_assoc|..].
  - by eapply (rd_le_at 4 (le_enc 4 magic ++ le_enc 4 nb ++ le_enc 4 o0 ++ le_enc 4 s0) o1);
      [rewrite Em, <- !app_assoc|..].
  - by eapply (rd_le_at 4 (le_enc 4 magic ++ le_enc 4 nb ++ le_enc 4 o0 ++ le_enc 4 s0 ++ le_enc 4 o1) s1);
      [rewrite Em, <- !app_assoc|..].
Qed.

Lemma header_check magic nb copy copy0 rest size :
  word_ok magic -> word_ok nb ->
  (forall s, word_ok (sh_subsys copy s).1 /\ word_ok (sh_subsys copy s).2) ->
  (forall s, subsys_bad size (sh_subsys copy s) = false) -> 24 <= size ->
  exists copy', shm_reader_check copy0 (header magic nb copy ++ rest) size magic = Some (0, copy') /\
    sh_num_buffers copy' = nb /\ forall s, sh_subsys copy' s = sh_subsys copy s.
Proof.
  intros Hm Hn Hc Hb Hs. unfold shm_reader_check, sizeof_eventlib_shared.
  destruct (Z.ltb_spec size 24); [lia|].
  destruct (header_reads magic nb copy rest Hm Hn Hc) as (-> & -> & -> & -> & -> & ->).
  cbn [mbind option_bind]. rewrite Z.eqb_refl. cbn [negb].
  rewrite <- !surjective_pairing, !Hb.
  eexists. split; [reflexivity|]. split; [done|]. intros []; cbn; by destruct (sh_subsys copy _).
Qed.

Lemma header_written shm size nb copy magic : 24 <= size -> 24 <= zlen shm ->
  exists m1 m2, shm_writer_setup_start shm size = Some (inr (m1, 24)) /\
    wr_le 4 m1 4 nb = Some m2 /\
    shm_writer_setup_done copy m2 magic = Some (header magic nb copy ++ drop 24 shm).
Proof.
  intros Hs Hl. set (rest := drop 24 shm).
  exists (fill 24 0 ++ rest), (fill 4 0 ++ le_enc 4 nb ++ fill 16 0 ++ rest).
  pose proof (zlen_nonneg rest). split_and!.
  - unfold shm_writer_setup_start, sizeof_eventlib_shared.
    destruct (Z.ltb_spec size 24); [lia|]. rewrite mem_write_Some by (rewrite ?zlen_fill; lia).
    done.
  - rewrite wr_le_spec by (rewrite ?zlen_app, ?zlen_fill; lia). done.
  - unfold shm_writer_setup_done, subsys_enc. set (X := _ ++ le_enc 4 _).
    assert (zlen (X ++ le_enc 4 (sh_subsys copy FILTERING).1 ++
                  le_enc 4 (sh_subsys copy FILTERING).2) = 16) as LX
      by (unfold X; rewrite !zlen_app, !zlen_le_enc; done).
    rewrite mem_write_Some by (rewrite ?LX, ?zlen_app, ?zlen_fill, ?zlen_le_enc; lia).
    cbn [mbind option_bind]. rewrite wr_le_spec; [done|lia|].
    rewrite zlen_splice by (rewrite ?LX, ?zlen_app, ?zlen_fill, ?zlen_le_enc; lia).
    rewrite ?zlen_app, ?zlen_fill, ?zlen_le_enc; lia.
Qed.

(** ** The trace buffers of a block *)
Section buffers.
(** Buffers of [size] bytes from [area_at] on. *)
Context (area_at size : Z).
Hypothesis Harea : 0 <= area_at /\ area_at mod 8 = 0.
Hypothesis Hsize : 424 <= size < 2 ^ 24 + 40 /\ size mod 8 = 0.

Definition buf_at (i : nat) : Z := area_at + size * Z.of_nat i.
Definition ctx_at (i : nat) : tracectx :=
  match fill_context (buf_at i + sizeof_tbuf_w2r) (size - sizeof_tbuf_w2r) with
  | inr c => c | inl _ => tracectx_zero end.

Lemma fill_context_at i :
  fill_context (buf_at i + sizeof_tbuf_w2r) (size - sizeof_tbuf_w2r) = inr (ctx_at i) /\
  length_ (ctx_at i) = size - 40.
Proof.
  unfold ctx_at, fill_context, sizeof_tbuf_w2r, sizeof_tracebuf, MIN_WORD_SIZE, MIN_MSG_LEVEL,
    sizeof_tracehdr, buf_at. change (Z.shiftl 1 24) with (2 ^ 24).
  rewrite (u32_small (size - 8 - 32)) by lia.
  repeat case_z; cbn [negb]; try (exfalso; dlia). split; [done|]. cbn. lia.
Qed.

Lemma buf_at_inj i j : buf_at i = buf_at j -> i = j.
Proof. unfold buf_at. nia. Qed.

(** The memory the writer needs at buffer [i], and what it leaves there. *)
Definition buf_room (s : estate) (i : nat) : Prop :=
  zlen (area (tb_mem (bufs s (buf_at i)))) = size - 40.
Definition buf_ready (c : Z) (b : tbuf_w2r) (i : nat) : Prop :=
  compat b = c /\ tb_mem b =
    Mem (Tracebuf TRACE_VERSION 0 1 (length_ (ctx_at i)) (maxsize_ (ctx_at i)))
      (fill (length_ (ctx_at i)) 0).

(** The contexts [idx .. idx+n) of [l'] are those of the buffers. *)
Definition bound (l' : list tbuf_ctx) (idx n : nat) : Prop :=
  forall i, (idx <= i < idx + n)%nat ->
    exists ack, l' !! i = Some (Tbuf (ctx_at i) ack).

(** A step of either loop that binds buffer [idx]. *)
Definition binds_one (body : nat -> M estate Z) (pre : estate -> nat -> Prop)
    (post : estate -> nat -> Prop) : Prop :=
  forall idx s p l, priv (ectx s) = Some p -> tbuf p = l -> (idx < length l)%nat ->
    size * Z.of_nat idx < 2 ^ 32 -> pre s idx ->
    wp (body idx) (fun r s' => r = 0 /\ w2r_mem s' = w2r_mem s /\ r2w_mem s' = r2w_mem s /\
       (exists ack, ectx s' = set_priv (Some (set_tbuf (<[idx := Tbuf (ctx_at idx) ack]> l) p)) (ectx s)) /\
       post s' idx /\ forall a, a <> buf_at idx -> bufs s' a = bufs s a) s.

Lemma buf_loop_binds body (pre post : estate -> nat -> Prop) :
  binds_one body pre post ->
  (forall s s' i, bufs s' (buf_at i) = bufs s (buf_at i) -> ectx s' = ectx s \/
     flags (ectx s') = flags (ectx s) -> pre s i -> pre s' i) ->
  (forall s s' i, bufs s' (buf_at i) = bufs s (buf_at i) ->
     flags (ectx s') = flags (ectx s) -> post s i -> post s' i) ->
  forall n idx s p l, priv (ectx s) = Some p -> tbuf p = l -> (idx + n <= length l)%nat ->
    size * Z.of_nat (idx + n) < 2 ^ 32 ->
    (forall i, (idx <= i < idx + n)%nat -> pre s i) ->
    wp (buf_loop body n idx) (fun r s' => r = 0 /\
       w2r_mem s' = w2r_mem s /\ r2w_mem s' = r2w_mem s /\
       (exists l', ectx s' = set_priv (Some (set_tbuf l' p)) (ectx s) /\
          length l' = length l /\ bound l' idx n /\
          forall i, (i < idx)%nat -> l' !! i = l !! i) /\
       (forall i, (idx <= i < idx + n)%nat -> post s' i) /\
       (forall a, (forall i, (idx <= i < idx + n)%nat -> a <> buf_at i) -> bufs s' a = bufs s a)) s.
Proof.
  intros Hone Hpre Hpost. induction n as [|n IH]; intros idx s p l Hp Hl Hn Hw Hs;
    cbn [buf_loop].
  { wp_simpl. split_and!; try done; [|lia]. exists l. split_and!; try done.
    - destruct s as [[] ? ? ?], p; cbn in *; by subst.
    - intros i Hi. lia. }
  wp_simpl. eapply wp_mono; [eapply Hone; [exact Hp|exact Hl|lia|nia|apply Hs; lia]|].
  intros r s1 (-> & W1 & R1 & (ack & C1) & P1 & B1). cbn [negb Z.eqb].
  assert (flags (ectx s1) = flags (ectx s)) as F1 by (by rewrite C1).
  set (l1 := <[idx := Tbuf (ctx_at idx) ack]> l) in *.
  assert (length l1 = length l) as L1 by apply length_insert.
  eapply wp_mono; [eapply (IH (S idx) s1 (set_tbuf l1 p) l1)|].
  - by rewrite C1.
  - done.
  - lia.
  - by replace (S idx + n)%nat with (idx + S n)%nat by lia.
  - intros i Hi. apply (Hpre s); [|by right|apply Hs; lia].
    apply B1. intros E%buf_at_inj. lia.
  - intros r s2 (-> & W2 & R2 & (l2 & C2 & L2 & Bd & Hlow) & P2 & B2).
    split; [done|]. split; [congruence|]. split; [congruence|]. split_and!.
    + exists l2. split_and!; [|lia| |].
      * rewrite C2, C1. by destruct p, (ectx s).
      * intros i Hi. destruct (decide (i = idx)) as [-> |]; [|apply Bd; lia].
        exists ack. rewrite Hlow by lia. apply list_lookup_insert_eq. lia.
      * intros i Hi. rewrite Hlow by lia. apply list_lookup_insert_ne. lia.
    + intros i Hi. destruct (decide (i = idx)) as [-> |]; [|apply P2; lia].
      apply (Hpost s1 s2); [|by rewrite C2|exact P1]. apply B2. intros i' Hi' E%buf_at_inj. lia.
    + intros a Ha. rewrite B2 by (intros; apply Ha; lia). apply B1. apply Ha. lia.
Qed.

Lemma wp_set_tracectx idx t s p l (Q : unit -> estate -> Prop) :
  priv (ectx s) = Some p -> tbuf p = l -> (idx < length l)%nat ->
  (forall ack, Q tt (set_ectx (set_priv (Some (set_tbuf (<[idx := Tbuf t ack]> l) p)) (ectx s)) s)) ->
  wp (set_tracectx idx t) Q s.
Proof.
  intros Hp Hl Hi HQ. unfold set_tracectx, modify_priv, get_priv. wp_simpl.
  rewrite Hp. eapply wp_checked; [done|]. wp_simpl.
  destruct (lookup_lt_is_Some_2 l idx Hi) as [old Eo].
  eapply wp_checked; [by rewrite Hl|]. wp_simpl. rewrite Hp.
  eapply wp_checked; [done|]. wp_simpl. rewrite Hl. apply HQ.
Qed.

Lemma buf_addr idx : size * Z.of_nat idx < 2 ^ 32 ->
  area_at + u32 (size * Z.of_nat idx) = buf_at idx.
Proof. intros. unfold buf_at. rewrite u32_small by nia. done. Qed.

Lemma splice_all {A} (m x : list A) : zlen x = zlen m -> splice m 0 x = x.
Proof.
  unfold zlen, splice. intros. cbn [Z.to_nat take app Nat.add].
  rewrite drop_ge by lia. by rewrite app_nil_r.
Qed.

Lemma init_at idx m : zlen (area m) = size - 40 ->
  tracebuf_init (buf_at idx + sizeof_tbuf_w2r) (size - sizeof_tbuf_w2r) m =
    Some (inr (ctx_at idx),
          Mem (Tracebuf TRACE_VERSION 0 1 (length_ (ctx_at idx)) (maxsize_ (ctx_at idx)))
            (fill (length_ (ctx_at idx)) 0)).
Proof.
  intros Hm. destruct (fill_context_at idx) as [Hf Hlen]. unfold tracebuf_init. rewrite Hf.
  assert (zlen (fill (length_ (ctx_at idx)) 0) = zlen (area m)) as Hz
    by (rewrite zlen_fill; lia).
  munfold. rewrite mem_write_Some by lia. by rewrite splice_all.
Qed.

Lemma writer_buf_binds :
  binds_one (tbuf_writer_buf area_at size) buf_room
    (fun s i => buf_ready (TBUF_COMPAT (ectx s)) (bufs s (buf_at i)) i).
Proof.
  intros idx s p l Hp Hl Hi Hw Hroom. unfold tbuf_writer_buf. wp_simpl.
  rewrite buf_addr by done. cbn [bufs set_buf]. rewrite Z.eqb_refl. cbn [tb_mem].
  destruct (fill_context_at idx) as [Hf Hlen]. unfold buf_room in Hroom.
  eapply wp_checked; [by rewrite (u32_small (size - sizeof_tbuf_w2r)) by (unfold sizeof_tbuf_w2r; lia); apply init_at|].
  cbv beta iota. wp_simpl.
  eapply wp_set_tracectx; [exact Hp|exact Hl|exact Hi|]. intros ack. wp_simpl.
  cbn [ectx w2r_mem r2w_mem bufs set_ectx set_buf].
  split_and!; try done.
  - by exists ack.
  - by rewrite Z.eqb_refl.
  - intros a Ha. by destruct (Z.eqb_spec a (buf_at idx)).
Qed.

Lemma reader_buf_binds c : Z.land c (u32 (Z.lnot 1)) = 0 ->
  binds_one (tbuf_reader_buf area_at size)
    (fun s i => buf_ready c (bufs s (buf_at i)) i) (fun _ _ => True).
Proof.
  intros Hc idx s p l Hp Hl Hi Hw [H1 H2]. unfold tbuf_reader_buf. wp_simpl.
  rewrite buf_addr by done. unfold TBUF_CHECK_COMPAT. rewrite H1, Hc. cbn [Z.eqb negb].
  destruct (fill_context_at idx) as [Hf Hlen]. unfold tracebuf_bind, sizeof_tbuf_w2r in *.
  rewrite (u32_small (size - 8)) by lia. rewrite Hf, H2. cbn [version tb_length tb_maxsize].
  rewrite !Z.eqb_refl. cbn [negb]. wp_simpl.
  eapply wp_set_tracectx; [exact Hp|exact Hl|exact Hi|]. intros ack. wp_simpl.
  split_and!; try done. by exists ack.
Qed.
End buffers.

(** ** A writer and a reader of one block, without filtering *)

Lemma wp_get_priv p (Q : eventlib_init -> estate -> Prop) s :
  priv (ectx s) = Some p -> Q p s -> wp get_priv Q s.
Proof. intros E HQ. unfold get_priv. wp_simpl. by eapply wp_checked. Qed.

Lemma wp_modify_priv g p (Q : unit -> estate -> Prop) s :
  priv (ectx s) = Some p -> Q tt (set_ectx (set_priv (Some (g p)) (ectx s)) s) ->
  wp (modify_priv g) Q s.
Proof. intros E HQ. unfold modify_priv. wp_simpl. by eapply wp_get_priv; [|wp_simpl]. Qed.

(** [s'] is [s] but for the filter sizes of the context. *)
Record same_state (s s' : estate) : Prop := {
  ss_w2r : w2r_mem s' = w2r_mem s;
  ss_r2w : r2w_mem s' = r2w_mem s;
  ss_bufs : bufs s' = bufs s;
  ss_ectx : ectx s' = ectx s \/ ectx s' = set_flt_num_bits (fun _ => 0) (ectx s);
}.

Section no_filtering.
Context (linked : bool) (others : nat -> list Z -> list Z) (fuel : nat).

Definition flt_step : M estate (option Z) := if linked then flt_init others fuel else mret (Some 0).

Lemma flt_step_off s p : priv (ectx s) = Some p -> flt p = flt_zero ->
  direction (ectx s) = EVENTLIB_DIRECTION_WRITER /\ Z.land (flags (ectx s)) 1 = 0 \/
  direction (ectx s) = EVENTLIB_DIRECTION_READER /\
    subsys_shm_size (w2r_copy p) FILTERING = 0 /\ subsys_shm_size (r2w_copy p) FILTERING = 0 ->
  wp flt_step (fun r s' => r = Some 0 /\ same_state s s') s.
Proof.
  intros Hp Hz Hd. unfold flt_step. destruct linked; [|by wp_simpl; split; [|split; auto]].
  unfold flt_init. wp_simpl.
  assert (set_ectx (set_priv (Some (set_flt flt_zero p)) (ectx s)) s = s) as Es.
  { destruct s as [[] ? ? ?], p; cbn in *. by subst. }
  destruct Hd as [[-> Hf]|(-> & H1 & H2)]; cbn [Z.eqb EVENTLIB_DIRECTION_WRITER EVENTLIB_DIRECTION_READER Pos.eqb].
  - wp_simpl. unfold flt_writer_init. wp_simpl.
    eapply wp_modify_flt; [exact Hp|]. rewrite Es. change EVENTLIB_FLAG_INIT_FILTERING with 1.
    rewrite Hf. cbn [Z.eqb]. wp_simpl. split; [done|]. split; auto.
  - unfold flt_reader_init. wp_simpl. eapply wp_get_priv; [exact Hp|]. wp_simpl.
    eapply wp_modify_flt; [exact Hp|]. rewrite Es, H1, H2. cbn [Z.eqb andb]. wp_simpl.
    split; [done|]. split; auto.
Qed.
End no_filtering.

(** The number of buffers the writer sets up. *)
Definition real_buffers (nb : Z) : Z := if nb =? 0 then 1 else nb.
Lemma real_buffers_range nb : 0 <= nb <= EVENTLIB_TBUFS_MAX -> 1 <= real_buffers nb <= 6.
Proof. unfold real_buffers, EVENTLIB_TBUFS_MAX. case_z; lia. Qed.

Section agreement.
Context (linked : bool) (others others' : nat -> list Z -> list Z) (fuel fuel' : nat).
(** The block, the writer's context on it and the reader's. *)
Context (a size nb : Z) (cw cr : eventlib_ctx) (s : estate).
Let nbufs : Z := real_buffers nb.
Let size8 : Z := ALIGN_64_DOWN size.
Let tb_size : Z := ALIGN_64_DOWN ((size8 - 24) / nbufs).

(** What both sides must agree on beforehand: the address and the size. *)
Record on_block (c : eventlib_ctx) : Prop := {
  ob_shm : w2r_shm c = Some a;
  ob_size : w2r_shm_size c = size;
  ob_r2w : r2w_shm c = None /\ r2w_shm_size c = 0;
  ob_priv : priv c = None;
  ob_flags : Z.land (flags c) 1 = 0;
}.

Record block_suits : Prop := {
  bs_addr : 0 <= a /\ a mod 8 = 0;
  bs_size : 0 <= size < 2 ^ 32;
  bs_nb : 0 <= nb <= EVENTLIB_TBUFS_MAX;
  bs_tb : 424 <= tb_size < 2 ^ 24 + 40;
  bs_mem : size <= zlen (w2r_mem s);
  bs_areas : forall i : nat, Z.of_nat i < nbufs -> buf_room (a + 24) tb_size s i;
}.
Hypothesis Hblock : block_suits.

Definition tb_copy : eventlib_shared :=
  set_subsys TRACEBUF (24, size8 - 24) shared_zero.

Lemma sizes : size8 = size - size mod 8 /\ 1 <= nbufs <= 6 /\ 448 <= size8 < 2 ^ 32 /\
  tb_size mod 8 = 0 /\ tb_size * nbufs <= size8 - 24.
Proof.
  destruct Hblock as [_ H2 H3 H4 _ _]. unfold EVENTLIB_TBUFS_MAX in *.
  assert (size8 = size - size mod 8) as E8 by apply ALIGN_64_DOWN_mod.
  pose proof (real_buffers_range nb H3) as Hn. fold nbufs in Hn.
  unfold tb_size in *. rewrite ALIGN_64_DOWN_mod in *.
  set (q := (size8 - 24) / nbufs) in *.
  assert (nbufs * q <= size8 - 24) by (apply Z.mul_div_le; lia).
  assert (q - q mod 8 <= q /\ (q - q mod 8) mod 8 = 0) as [Hq Hq8] by (split; dlia).
  assert (q <= nbufs * q) by nia. assert (0 <= size mod 8 < 8) by (apply Z.mod_pos_bound; lia).
  assert ((q - q mod 8) * nbufs <= nbufs * q) by nia.
  split_and!; done || lia.
Qed.

(** The part of [_eventlib_init] after the argument checks. *)
Definition init_rest (oth : nat -> list Z -> list Z) (fl : nat) : M estate (option Z) :=
  ret ← priv_init;
  if negb (ret =? 0) then mret (Some ret)
  else
    ret ← shm_region_start;
    if negb (ret =? 0) then modify_ectx (set_priv None);; mret (Some ret)
    else
      fret ← flt_step linked oth fl;
      match fret with
      | None => mret None
      | Some ret =>
          if negb (ret =? 0) then modify_ectx (set_priv None);; mret (Some ret)
          else
            ret ← tbuf_init;
            if negb (ret =? 0) then eventlib_close linked;; mret (Some ret)
            else shm_region_done;; mret (Some 0)
      end.

Definition is_direction (d : Z) : Prop :=
  d = EVENTLIB_DIRECTION_WRITER \/ d = EVENTLIB_DIRECTION_READER.

Lemma init_prefix oth fl c ctx_size s0 (Q : option Z -> estate -> Prop) :
  on_block c -> a mod 8 = 0 -> is_direction (direction c) -> ctx_size <> 0 ->
  wp (init_rest oth fl) Q
    (set_ectx (set_sizes size8 0
       (if (direction c =? EVENTLIB_DIRECTION_WRITER) && (num_buffers c =? 0) then 1
        else num_buffers c) c) s0) ->
  wp (_eventlib_init linked oth fl EVENTLIB_CTX_VERSION ctx_size) Q (set_ectx c s0).
Proof.
  intros [B1 B2 [B3 B3'] B4 B5] G1' Hd Hc HQ.
  unfold _eventlib_init. wp_simpl. cbn [ectx set_ectx].
  rewrite B1, B2, B3, B3', B4, Z.eqb_refl, (proj2 (Z.eqb_neq _ _) Hc). cbn [negb orb].
  assert (negb (direction c =? EVENTLIB_DIRECTION_WRITER) &&
          negb (direction c =? EVENTLIB_DIRECTION_READER) = false) as ->
    by (destruct Hd as [-> | ->]; done).
  rewrite !bool_decide_eq_false_2 by done. rewrite bool_decide_eq_true_2 by done.
  assert (mem_ok (Some a) size = true) as ->.
  { unfold mem_ok, ALIGN_64_CHECK. rewrite ALIGN_64_DOWN_mod, G1'.
    destruct (size =? 0); [done|]. case_z; [done|lia]. }
  cbn [negb orb mem_ok Z.eqb]. wp_simpl. exact HQ.
Qed.

Lemma wp_priv_init (Q : Z -> estate -> Prop) s0 :
  Q 0 (set_ectx (set_priv (Some init_zero) (ectx s0)) s0) -> wp priv_init Q s0.
Proof. intros HQ. unfold priv_init, modify_ectx. cbn [Z.ltb]. wp_simpl. exact HQ. Qed.

Lemma region_start_writer s0 p :
  priv (ectx s0) = Some p -> r2w_shm (ectx s0) = None ->
  24 <= w2r_shm_size (ectx s0) -> 24 <= zlen (w2r_mem s0) ->
  wp shm_region_start_writer (fun r s1 => r = 0 /\
    ectx s1 = set_priv (Some (set_w2r_offset 24 p)) (ectx s0) /\ bufs s1 = bufs s0 /\
    forall copy magic, shm_writer_setup_done copy (w2r_mem s1) magic =
      Some (header magic (num_buffers (ectx s0)) copy ++ drop 24 (w2r_mem s0))) s0.
Proof.
  intros Hp Hr H1 H2. unfold shm_region_start_writer. wp_simpl.
  destruct (header_written (w2r_mem s0) (w2r_shm_size (ectx s0))
              (num_buffers (ectx s0)) shared_zero 0 H1 H2) as (m1 & m2 & E1 & E2 & _).
  eapply wp_checked; [exact E1|]. cbv beta iota. wp_simpl.
  eapply wp_modify_priv; [exact Hp|]. wp_simpl. rewrite Hr, bool_decide_eq_false_2 by tauto.
  rewrite andb_false_r. wp_simpl. cbn [w2r_mem ectx set_ectx set_w2r_mem].
  eapply wp_checked; [exact E2|]. wp_simpl. split_and!; try done.
  intros copy magic. cbn [w2r_mem set_w2r_mem].
  destruct (header_written (w2r_mem s0) (w2r_shm_size (ectx s0))
              (num_buffers (ectx s0)) copy magic H1 H2) as (m1' & m2' & E1' & E2' & E3').
  assert (m1' = m1) as -> by congruence. by assert (m2' = m2) as <- by congruence.
Qed.

(** Where the buffers are, as both sides compute it. *)
Lemma layout p c0 : w2r_shm c0 = Some a -> w2r_copy p = tb_copy \/
    (forall s', sh_subsys (w2r_copy p) s' = sh_subsys tb_copy s') ->
  tracebuf_area c0 p = Some (a + 24) /\
  ALIGN_64_DOWN (subsys_shm_size (w2r_copy p) TRACEBUF / nbufs) = tb_size.
Proof.
  intros Ha Hp. assert (sh_subsys (w2r_copy p) TRACEBUF = (24, size8 - 24)) as E.
  { destruct Hp as [-> |Hp]; [|rewrite Hp]; done. }
  unfold tracebuf_area, subsys_shm_area, subsys_shm_size. by rewrite Ha, E.
Qed.

Lemma buffers_fit (i : nat) : Z.of_nat i <= nbufs -> tb_size * Z.of_nat i < 2 ^ 32.
Proof.
  destruct sizes as (_ & Hn & H8 & _ & Hfit). destruct Hblock as [_ _ _ G4 _ _]. nia.
Qed.

(** What either initialisation leaves. *)
Definition tbufs_bound (s0 s1 : estate) (p : eventlib_init) : Prop :=
  w2r_mem s1 = w2r_mem s0 /\ r2w_mem s1 = r2w_mem s0 /\
  exists l', ectx s1 = set_priv (Some (set_tbuf l' p)) (ectx s0) /\
    bound (a + 24) tb_size l' 0 (Z.to_nat nbufs).

Lemma wp_tbuf_writer_init s0 p :
  priv (ectx s0) = Some p -> w2r_shm (ectx s0) = Some a ->
  w2r_shm_size (ectx s0) = size8 -> num_buffers (ectx s0) = nbufs ->
  w2r_offset p = 24 -> w2r_copy p = shared_zero -> length (tbuf p) = 6%nat ->
  bufs s0 = bufs s ->
  wp tbuf_writer_init (fun r s1 => r = 0 /\ (exists off, tbufs_bound s0 s1 (set_w2r_copy tb_copy off p)) /\
    forall i, (i < Z.to_nat nbufs)%nat ->
      buf_ready (a + 24) tb_size (TBUF_COMPAT (ectx s0)) (bufs s1 (buf_at (a + 24) tb_size i)) i) s0.
Proof.
  intros Hp Ha Hsz Hnb Ho Hcp Hl Hb.
  destruct sizes as (E8 & Hn & H8 & Ht8 & Hfit). destruct Hblock as [[G1 G1'] G2 G3 G4 G5 G6].
  unfold tbuf_writer_init, subsys_w2r_carve. wp_simpl. eapply wp_get_priv; [exact Hp|].
  wp_simpl. eapply wp_get_priv; [exact Hp|]. rewrite Hsz, Ho, Hcp.
  rewrite (u32_small (size8 - 24)) by lia. unfold subsys_shm_carve.
  rewrite (u32_small (size8 - 24)), Z.ltb_irrefl by lia. wp_simpl.
  eapply wp_modify_priv; [exact Hp|]. wp_simpl. cbn [Z.eqb negb]. rewrite Hnb.
  unfold EVENTLIB_TBUFS_MAX. destruct (Z.eqb_spec nbufs 0); [lia|].
  destruct (Z.ltb_spec 6 nbufs); [lia|]. cbn [orb]. fold tb_copy.
  set (off := u32 _). wp_simpl. eapply wp_get_priv; [reflexivity|].
  destruct (layout (set_w2r_copy tb_copy off p)
              (set_priv (Some (set_w2r_copy tb_copy off p)) (ectx s0))) as [La Ls];
    [done|by left|].
  wp_simpl. eapply wp_checked; [exact La|]. rewrite Ls. wp_simpl.
  unfold sizeof_tbuf_w2r. destruct (Z.ltb_spec tb_size 8); [lia|].
  eapply wp_mono; [eapply (buf_loop_binds (a + 24) tb_size (conj G4 Ht8) _ _ _
      (writer_buf_binds (a + 24) tb_size ltac:(split; [lia|dlia]) (conj G4 Ht8)))|].
  - intros s1 s2 i E _. unfold buf_room. by rewrite E.
  - intros s1 s2 i E F. unfold TBUF_COMPAT. by rewrite E, F.
  - reflexivity.
  - reflexivity.
  - cbn. lia.
  - apply buffers_fit. lia.
  - intros i Hi. unfold buf_room. cbn [bufs set_ectx]. rewrite Hb. apply G6. lia.
  - intros r s1 (-> & W & R & (l' & C & L & B & _) & P & _). split; [done|]. split.
    + exists off. split; [done|]. split; [done|]. exists l'. split; [|done].
      rewrite C. cbn [ectx set_ectx]. by destruct (ectx s0).
    + intros i Hi. specialize (P i ltac:(lia)). rewrite C in P. exact P.
Qed.

Lemma wp_tbuf_reader_init s0 p c :
  Z.land c (u32 (Z.lnot 1)) = 0 ->
  priv (ectx s0) = Some p -> w2r_shm (ectx s0) = Some a ->
  sh_num_buffers (w2r_copy p) = nbufs ->
  (forall s', sh_subsys (w2r_copy p) s' = sh_subsys tb_copy s') -> length (tbuf p) = 6%nat ->
  (forall i, (i < Z.to_nat nbufs)%nat ->
     buf_ready (a + 24) tb_size c (bufs s0 (buf_at (a + 24) tb_size i)) i) ->
  wp tbuf_reader_init (fun r s1 => r = 0 /\ tbufs_bound s0 s1 p) s0.
Proof.
  intros Hcompat Hp Ha Hnb Hcp Hl Hready.
  destruct sizes as (E8 & Hn & H8 & Ht8 & Hfit). destruct Hblock as [[G1 G1'] G2 G3 G4 G5 G6].
  unfold tbuf_reader_init. wp_simpl. eapply wp_get_priv; [exact Hp|]. rewrite Hnb.
  unfold EVENTLIB_TBUFS_MAX. destruct (Z.eqb_spec nbufs 0); [lia|].
  destruct (Z.ltb_spec 6 nbufs); [lia|]. cbn [orb].
  destruct (layout p (ectx s0) Ha) as [La Ls]; [by right|].
  wp_simpl. eapply wp_checked; [exact La|]. rewrite Ls. wp_simpl.
  unfold sizeof_tbuf_w2r. destruct (Z.ltb_spec tb_size 8); [lia|].
  eapply wp_mono; [eapply (buf_loop_binds (a + 24) tb_size (conj G4 Ht8) _ _ _
      (reader_buf_binds (a + 24) tb_size ltac:(split; [lia|dlia]) (conj G4 Ht8) c Hcompat))|].
  - intros s1 s2 i E _. by rewrite E.
  - done.
  - exact Hp.
  - reflexivity.
  - lia.
  - apply buffers_fit. lia.
  - intros i Hi. apply Hready. lia.
  - intros r s1 (-> & W & R & (l' & C & L & B & _) & _). split; [done|].
    split; [done|]. split; [done|]. by exists l'.
Qed.

Lemma land_flags x : Z.land x 1 = 0 -> Z.land x EVENTLIB_FLAG_INIT_FILTERING = 0.
Proof. done. Qed.

Lemma compat_off c0 : Z.land (flags c0) 1 = 0 -> TBUF_COMPAT c0 = 0.
Proof. intros E. unfold TBUF_COMPAT. by rewrite land_flags. Qed.

(** A block a writer has finished. *)
Record published (s1 : estate) : Prop := {
  pub_header : w2r_mem s1 = header EVENTLIB_MAGIC_W2R nbufs tb_copy ++ drop 24 (w2r_mem s);
  pub_bufs i : (i < Z.to_nat nbufs)%nat ->
    buf_ready (a + 24) tb_size 0 (bufs s1 (buf_at (a + 24) tb_size i)) i;
}.

Lemma writer_init_ok ctx_size :
  on_block cw -> direction cw = EVENTLIB_DIRECTION_WRITER -> num_buffers cw = nb ->
  ctx_size <> 0 ->
  wp (_eventlib_init linked others fuel EVENTLIB_CTX_VERSION ctx_size)
    (fun r s1 => r = Some 0 /\ published s1 /\ num_buffers (ectx s1) = nbufs /\
       direction (ectx s1) = EVENTLIB_DIRECTION_WRITER /\
       exists p, priv (ectx s1) = Some p /\ bound (a + 24) tb_size (tbuf p) 0 (Z.to_nat nbufs))
    (set_ectx cw s).
Proof.
  intros Hb Hd Hnb Hc. destruct sizes as (E8 & Hn & H8 & _ & _).
  pose proof (bs_mem Hblock). assert (0 <= size mod 8 < 8) by (apply Z.mod_pos_bound; lia).
  pose proof Hb as [B1 B2 [B3 B3'] B4 B5].
  apply init_prefix; [done|apply Hblock|by left|done|]. rewrite Hd, Hnb. cbn [Z.eqb andb Pos.eqb EVENTLIB_DIRECTION_WRITER].
  fold (real_buffers nb). fold nbufs. unfold init_rest. wp_simpl. apply wp_priv_init.
  cbn [Z.eqb negb ectx set_ectx]. wp_simpl. unfold shm_region_start. wp_simpl.
  set (s0 := set_ectx _ _).
  assert (direction (ectx s0) = EVENTLIB_DIRECTION_WRITER) as Hd0 by (cbn; done).
  rewrite Hd0, Z.eqb_refl.
  eapply wp_mono; [apply (region_start_writer s0 init_zero);
    [done|exact B3|change (24 <= size8); lia|change (24 <= zlen (w2r_mem s)); lia]|].
  intros r s1 (-> & C1 & F1 & M1). cbn [Z.eqb negb]. wp_simpl.
  eapply wp_mono; [apply (flt_step_off linked others fuel s1 (set_w2r_offset 24 init_zero))|].
  { by rewrite C1. } { done. } { left. rewrite C1. split; [exact Hd|exact B5]. }
  intros r s2 (-> & [W2 R2 F2 C2]). cbn [Z.eqb negb]. wp_simpl. unfold tbuf_init. wp_simpl.
  set (p1 := set_w2r_offset 24 init_zero) in *.
  assert (priv (ectx s2) = Some p1 /\ direction (ectx s2) = EVENTLIB_DIRECTION_WRITER /\
          w2r_shm (ectx s2) = Some a /\ w2r_shm_size (ectx s2) = size8 /\
          num_buffers (ectx s2) = nbufs /\ Z.land (flags (ectx s2)) 1 = 0 /\
          r2w_shm (ectx s2) = None) as (P1 & P2 & P3 & P4 & P5 & P6 & P7)
    by (destruct C2 as [-> | ->]; rewrite C1; cbn; done).
  rewrite P2, Z.eqb_refl.
  eapply wp_mono; [apply (wp_tbuf_writer_init s2 p1); try done; by rewrite F2, F1|].
  intros r s3 (-> & (off & W3 & R3 & l' & C3 & Hl') & Hready). cbn [Z.eqb negb]. wp_simpl.
  unfold shm_region_done. wp_simpl. rewrite (compat_off _ P6) in Hready.
  eapply wp_get_priv; [by rewrite C3|]. rewrite C3. cbn [direction set_priv]. rewrite P2, Z.eqb_refl.
  wp_simpl. cbn [w2r_copy set_tbuf set_w2r_copy].
  eapply wp_checked; [rewrite W3, W2; apply M1|]. wp_simpl. cbn [r2w_shm set_priv].
  rewrite P7, bool_decide_eq_false_2 by tauto. wp_simpl.
  split; [done|]. split; [split; done|]. cbn [ectx set_w2r_mem]. rewrite C3.
  split; [exact P5|]. split; [exact P2|]. eexists. split; [reflexivity|done].
Qed.

Lemma region_start_reader s0 p :
  priv (ectx s0) = Some p -> r2w_shm (ectx s0) = None -> w2r_shm_size (ectx s0) = size8 ->
  w2r_mem s0 = header EVENTLIB_MAGIC_W2R nbufs tb_copy ++ drop 24 (w2r_mem s) ->
  wp shm_region_start_reader (fun r s1 => r = 0 /\ exists copy,
    s1 = set_ectx (set_priv (Some (set_w2r_copy copy (w2r_offset p) p)) (ectx s0)) s0 /\
    sh_num_buffers copy = nbufs /\ forall s', sh_subsys copy s' = sh_subsys tb_copy s') s0.
Proof.
  intros Hp Hr Hsz Hm. destruct sizes as (E8 & Hn & H8 & _ & _).
  pose proof (bs_mem Hblock). unfold shm_region_start_reader. wp_simpl.
  eapply wp_get_priv; [exact Hp|]. rewrite Hm, Hsz.
  destruct (header_check EVENTLIB_MAGIC_W2R nbufs tb_copy (w2r_copy p) (drop 24 (w2r_mem s)) size8)
    as (copy & Ec & N & Hs); try (unfold word_ok, EVENTLIB_MAGIC_W2R; lia).
  { intros []; unfold word_ok; [change (0 <= 24 < 2 ^ 32 /\ 0 <= size8 - 24 < 2 ^ 32); lia|done]. }
  { intros []; [apply (subsys_bad_false size8 24 (size8 - 24)); lia|done]. }
  wp_simpl. eapply wp_checked; [exact Ec|]. cbv beta iota. wp_simpl.
  eapply wp_modify_priv; [exact Hp|]. rewrite Hr, bool_decide_eq_false_2 by tauto.
  rewrite andb_false_r. wp_simpl. split; [done|]. by exists copy.
Qed.

End agreement.

(** ** What the checks let through *)

(** The bound check of a header adds offset and size in 32 bits. A header
    whose area starts at 24 and claims 2^32 - 24 bytes is accepted for a block
    of 4096 bytes, and so is one with a zero offset and a size larger than the
    block, which the check skips. *)
Theorem shm_reader_check_accepts_huge_areas (copy : eventlib_shared) (rest : list Z) :
  let hdr o0 n0 o1 n1 := header EVENTLIB_MAGIC_W2R 1
    (Shared 0 (fun s => match s with TRACEBUF => (o0, n0) | FILTERING => (o1, n1) end)) in
  exists c1 c2,
    shm_reader_check copy (hdr 24 (2 ^ 32 - 24) 0 0 ++ rest) 4096 EVENTLIB_MAGIC_W2R = Some (0, c1) /\
    subsys_shm_size c1 TRACEBUF = 2 ^ 32 - 24 /\
    shm_reader_check copy (hdr 0 (2 ^ 32 - 8) 0 0 ++ rest) 4096 EVENTLIB_MAGIC_W2R = Some (0, c2) /\
    subsys_shm_size c2 TRACEBUF = 2 ^ 32 - 8.
Proof.
  intros hdr.
  assert (forall o n, word_ok o -> word_ok n -> subsys_bad 4096 (o, n) = false ->
    exists c, shm_reader_check copy (hdr o n 0 0 ++ rest) 4096 EVENTLIB_MAGIC_W2R = Some (0, c) /\
      subsys_shm_size c TRACEBUF = n) as H.
  { intros o n Ho Hn Hb. unfold hdr.
    match goal with |- context [header _ _ ?c] =>
      destruct (header_check EVENTLIB_MAGIC_W2R 1 c copy rest 4096) as (c' & E & _ & Hs) end;
      try (unfold word_ok, EVENTLIB_MAGIC_W2R in *; lia).
    - intros []; split; done.
    - by intros [].
    - exists c'. split; [exact E|]. unfold subsys_shm_size. by rewrite Hs. }
  destruct (H 24 (2 ^ 32 - 24)) as (c1 & E1 & F1); [done..|].
  destruct (H 0 (2 ^ 32 - 8)) as (c2 & E2 & F2); [done..|].
  by exists c1, c2.
Qed.

Lemma region_start_faults s0 :
  direction (ectx s0) = EVENTLIB_DIRECTION_WRITER -> r2w_shm (ectx s0) = None ->
  w2r_shm_size (ectx s0) < 24 -> zlen (w2r_mem s0) < 8 -> shm_region_start s0 = None.
Proof.
  intros Hd Hr Hs Hm. unfold shm_region_start, shm_region_start_writer. munfold.
  rewrite Hd, Z.eqb_refl. unfold shm_writer_setup_start, sizeof_eventlib_shared.
  destruct (Z.ltb_spec (w2r_shm_size (ectx s0)) 24); [|lia].
  rewrite Hr, bool_decide_eq_false_2 by tauto. rewrite andb_false_r.
  unfold wr_le, mem_write, in_region. rewrite zlen_le_enc.
  destruct (Z.leb_spec (4 + Z.of_nat 4) (zlen (w2r_mem s0))); [lia|]. by rewrite andb_false_r.
Qed.

(** A writer whose block is too small for a header does not just fail: the
    number of buffers is stored in the block before the error is returned, so
    with fewer than eight bytes the store falls outside. *)
Theorem init_writer_stores_before_failing (linked : bool) others fuel ctx_size c s (a : Z) :
  direction c = EVENTLIB_DIRECTION_WRITER -> w2r_shm c = Some a -> a mod 8 = 0 ->
  r2w_shm c = None -> r2w_shm_size c = 0 -> priv c = None -> ctx_size <> 0 ->
  0 <= w2r_shm_size c < 24 -> zlen (w2r_mem s) < 8 ->
  _eventlib_init linked others fuel EVENTLIB_CTX_VERSION ctx_size (set_ectx c s) = None.
Proof.
  intros Hd Ha Ha8 Hr Hr' Hp Hc Hs Hm. unfold _eventlib_init. munfold. cbn [ectx set_ectx].
  rewrite Hd, Ha, Hr, Hr', Hp, (proj2 (Z.eqb_neq _ _) Hc), !Z.eqb_refl. cbn [negb orb andb].
  rewrite !bool_decide_eq_false_2, bool_decide_eq_true_2 by done.
  assert (mem_ok (Some a) (w2r_shm_size c) = true) as ->.
  { unfold mem_ok, ALIGN_64_CHECK. rewrite ALIGN_64_DOWN_mod, Ha8.
    destruct (w2r_shm_size c =? 0); [done|]. case_z; [done|lia]. }
  cbn [negb orb mem_ok Z.eqb]. unfold modify_ectx, priv_init. munfold. cbn [Z.ltb Z.eqb negb].
  change (local_mem_size <? ALIGN_64_UP sizeof_eventlib_init) with false. cbv iota.
  unfold modify_ectx at 1. munfold. cbn [Z.eqb negb]. cbv beta iota.
  rewrite region_start_faults; [done|done|done| |done]. cbn. rewrite ALIGN_64_DOWN_mod.
  assert (0 <= w2r_shm_size c mod 8 < 8) by (apply Z.mod_pos_bound; lia). lia.
Qed.

(** ** Examples: a block of 1088 bytes with two trace buffers *)

Definition ex_base : Z := 2 ^ 40.
Definition ex_end (dir nb : Z) : eventlib_ctx :=
  ECtx dir 0 (Some ex_base) 1088 None 0 None (fun _ => 0) nb.
Definition ex_fresh_block : estate :=
  EState (ex_end EVENTLIB_DIRECTION_WRITER 2) (fill 1088 0) []
    (fun _ => TbufW2r 0 (Mem (Tracebuf 0 0 0 0 0) (fill 488 0))).
Definition ex_layout : eventlib_shared :=
  Shared 2 (fun s => match s with TRACEBUF => (24, 1064) | FILTERING => (0, 0) end).

Lemma ex_block_suits : block_suits ex_base 1088 2 ex_fresh_block.
Proof.
  split; [split; by vm_compute|lia|split; by vm_compute|split; by vm_compute|by vm_compute|].
  intros i _. by vm_compute.
Qed.

Lemma ex_on_block dir nb : on_block ex_base 1088 (ex_end dir nb).
Proof. by split. Qed.

Lemma shm_reader_check_sound_witness : exists ret copy',
  shm_reader_check shared_zero (header EVENTLIB_MAGIC_W2R 2 ex_layout ++ fill 1064 0) 1088
    EVENTLIB_MAGIC_W2R = Some (ret, copy') /\ ret = 0 /\
  sh_num_buffers copy' = 2.
Proof.
  destruct (shm_reader_check_sound shared_zero
              (header EVENTLIB_MAGIC_W2R 2 ex_layout ++ fill 1064 0) 1088 EVENTLIB_MAGIC_W2R)
    as (ret & copy' & E & _ & _); [lia|by vm_compute|by apply bytes_ok_dec; vm_compute|].
  exists ret, copy'. split; [exact E|]. vm_compute in E. by injection E as <- <-.
Defined.


Lemma init_writer_stores_before_failing_witness :
  _eventlib_init true (fun _ m => m) 2 EVENTLIB_CTX_VERSION 1080
    (set_ectx (ECtx EVENTLIB_DIRECTION_WRITER 0 (Some ex_base) 4 None 0 None (fun _ => 0) 1)
       (EState (ex_end EVENTLIB_DIRECTION_WRITER 1) (fill 4 0) []
          (fun _ => TbufW2r 0 (Mem (Tracebuf 0 0 0 0 0) [])))) = None.
Proof.
  apply (init_writer_stores_before_failing _ _ _ _ _ _ ex_base); by vm_compute.
Defined.
