(* ===== verification/Keventlib.v ===== *)
(** * The kernel's event providers (drivers/misc/eventlib/eventlib.c)

    The registry of providers: each has an id, pages shared with user space, a
    writer endpoint of the event library on these pages, an optional schema and
    a sysfs directory. Memory and sysfs belong to the kernel: what their calls
    answer is an input [env] of each operation, and what the module holds of
    them is the list [live]. *)

From S2P Require Import Prelude Tracebuf Eventlib EventlibTbuf EventlibFlt EventlibInit.

Definition EVENTLIB_MAX_PROVIDERS : Z := 256.

(** struct eventlib_provider_info: [pv_addr] is its address. *)
Record provider := Provider {
  pv_addr : Z;
  pv_id : Z;
  pv_kobj : Z;
  pv_pages : Z;
  pv_data_size : Z;
  pv_schema : option (Z * list Z);
  pv_el : estate;
}.

(** What the module has to give back, by its address. *)
Inductive resource := RInfo (a : Z) | RPages (a : Z) | RSchema (a : Z) | RSysfs (a : Z).
#[export] Instance resource_eq_dec : EqDecision resource.
Proof. solve_decision. Defined.

(** struct eventlib_module, the deferred work, and [live]. *)
Record kmod := Kmod {
  is_initialized : bool;
  kobj_root : bool;
  providers : list provider;
  nr_providers : Z;
  work : list provider;
  live : list resource;
}.

(** Pages from the allocator, as the library sees them. *)
Record pages := Pages { pg_addr : Z; pg_bytes : list Z; pg_bufs : Z -> tbuf_w2r }.

(** The answers of kmalloc, __get_free_pages, the second kmalloc and
    kobject_create_and_add (the address, or [None] for NULL), and of the two sysfs_create_bin_file. *)
Record env := Env {
  env_info : option Z;
  env_pages : option pages;
  env_schema : option Z;
  env_kobj : option Z;
  env_events_file : Z;
  env_schema_file : Z;
}.

Definition set_live (l : list resource) (k : kmod) : kmod :=
  Kmod (is_initialized k) (kobj_root k) (providers k) (nr_providers k) (work k) l.
Definition acquire (r : resource) (k : kmod) : kmod := set_live (r :: live k) k.

Fixpoint remove_one (r : resource) (l : list resource) : list resource :=
  match l with
  | [] => []
  | r' :: l => if decide (r' = r) then l else r' :: remove_one r l
  end.
(** Giving back what is not held is a double free. *)
Definition release (r : resource) : M kmod unit :=
  k ← get;
  if bool_decide (r ∈ live k) then modify (set_live (remove_one r (live k))) else BUG.

Definition set_providers (l : list provider) (n : Z) (k : kmod) : kmod :=
  Kmod (is_initialized k) (kobj_root k) l n (work k) (live k).
Definition set_work (w : list provider) (k : kmod) : kmod :=
  Kmod (is_initialized k) (kobj_root k) (providers k) (nr_providers k) w (live k).
Definition set_kobj_root (b : bool) (k : kmod) : kmod :=
  Kmod (is_initialized k) b (providers k) (nr_providers k) (work k) (live k).

(** ** Registration *)

Definition is_power_of_2 (n : Z) : bool := negb (n =? 0) && (Z.land n (n - 1) =? 0).

(** memset(el_ctx, 0, ...) and the assignments that follow. *)
Definition fresh_ctx (pg size : Z) : eventlib_ctx :=
  ECtx EVENTLIB_DIRECTION_WRITER 0 (Some pg) (u32 size) None 0 None (fun _ => 0) 0.

Definition EVENTLIB_CTX_SIZE : Z := 1080.

Section init.
(** Of the slot allocation, which a writer does not use. *)
Context (others : nat -> list Z -> list Z) (fuel : nat).

Definition keventlib_init (pg : pages) (bytes : list Z) (size : Z)
    : option (option Z * estate) :=
  _eventlib_init true others fuel EVENTLIB_CTX_VERSION EVENTLIB_CTX_SIZE
    (EState (fresh_ctx (pg_addr pg) size) bytes [] (pg_bufs pg)).

(** The directory, or the error; with the error, it is gone again. The parent
    directory must still exist. *)
Definition create_sysfs_entry (e : env) (schema : option (Z * list Z)) : M kmod (Z * Z) :=
  k ← get;
  BUG_ON (negb (kobj_root k));;
  match env_kobj e with
  | None => mret (- ENOMEM, 0)
  | Some o =>
      modify (acquire (RSysfs o));;
      if negb (env_events_file e =? 0) then release (RSysfs o);; mret (env_events_file e, o)
      else
        match schema with
        | None => mret (0, o)
        | Some _ =>
            if negb (env_schema_file e =? 0)
            then release (RSysfs o);; mret (env_schema_file e, o)
            else mret (0, o)
        end
  end.

Definition remove_sysfs_entry (o : Z) : M kmod unit := release (RSysfs o).

Definition is_id_free (l : list provider) (id : Z) : bool :=
  forallb (fun p => negb (id =? pv_id p)) l.

(** for (id = 0; id < EVENTLIB_MAX_PROVIDERS; id++), from [id] on. *)
Fixpoint get_free_id (cnt : nat) (id : Z) (l : list provider) : Z :=
  match cnt with
  | O => - EMFILE
  | S cnt => if is_id_free l id then id else get_free_id cnt (id + 1) l
  end.

Definition free_schema (schema : option (Z * list Z)) : M kmod unit :=
  match schema with Some (sc, _) => release (RSchema sc) | None => mret tt end.

(** The labels at the end of provider_init. *)
Definition err_free (pg : pages) (schema : option (Z * list Z)) (ret : Z)
    : M kmod (Z + provider) :=
  free_schema schema;; release (RPages (pg_addr pg));; mret (inl ret).
Definition err_sysfs (o : Z) (pg : pages) (schema : option (Z * list Z)) (ret : Z)
    : M kmod (Z + provider) :=
  remove_sysfs_entry o;; err_free pg schema ret.

(** From the sysfs entry on. *)
Definition provider_setup (e : env) (a : Z) (pg : pages) (bytes : list Z) (size : Z)
    (schema : option (Z * list Z)) : M kmod (Z + provider) :=
  '(ret, o) ← create_sysfs_entry e schema;
  if ret <? 0 then err_free pg schema ret
  else
    '(r, el) ← checked (keventlib_init pg bytes size);
    ret ← checked r;
    if ret <? 0 then err_sysfs o pg schema ret
    else
      k ← get;
      let id := get_free_id (Z.to_nat EVENTLIB_MAX_PROVIDERS) 0 (providers k) in
      if id <? 0 then
        _ ← checked (eventlib_close true el);
        err_sysfs o pg schema (- EMFILE)
      else
        let info := Provider a id o (pg_addr pg) size schema el in
        modify (set_providers (providers k ++ [info]) (nr_providers k + 1));;
        mret (inr info).

Definition provider_init (e : env) (a size : Z) (schema : option (list Z))
    : M kmod (Z + provider) :=
  if (size =? 0) || negb (is_power_of_2 size) then mret (inl (- EINVAL))
  else
    match env_pages e with
    | None => mret (inl (- ENOMEM))
    | Some pg =>
        modify (acquire (RPages (pg_addr pg)));;
        bytes ← checked (mem_write (pg_bytes pg) 0 (fill size 0));
        match schema with
        | Some ((_ :: _) as text) =>
            match env_schema e with
            | None => mret (inl (- ENOMEM))
            | Some sc =>
                modify (acquire (RSchema sc));;
                provider_setup e a pg bytes size (Some (sc, text))
            end
        | _ => provider_setup e a pg bytes size None
        end
    end.

Definition keventlib_register (e : env) (size : Z) (schema : option (list Z)) : M kmod Z :=
  k ← get;
  if negb (is_initialized k) then mret (- EACCES)
  else
    match env_info e with
    | None => mret (- ENOMEM)
    | Some a =>
        modify (acquire (RInfo a));;
        r ← provider_init e a size schema;
        match r with
        | inl ret => release (RInfo a);; mret ret
        | inr info => mret (pv_id info)
        end
    end.
End init.

(** ** Lookup, writing and removal *)

Fixpoint find_provider_info (l : list provider) (id : Z) : option provider :=
  match l with
  | [] => None
  | p :: l => if id =? pv_id p then Some p else find_provider_info l id
  end.

(** Writing through the provider's endpoint, which is part of the list. *)
Definition set_el (s : estate) (p : provider) : provider :=
  Provider (pv_addr p) (pv_id p) (pv_kobj p) (pv_pages p) (pv_data_size p) (pv_schema p) s.
Fixpoint update_provider (id : Z) (s : estate) (l : list provider) : list provider :=
  match l with
  | [] => []
  | p :: l => if id =? pv_id p then set_el s p :: l else p :: update_provider id s l
  end.

Definition keventlib_write (id : Z) (data : list Z) (size type ts : Z) : M kmod Z :=
  k ← get;
  match find_provider_info (providers k) id with
  | None => mret (- ENOENT)
  | Some info =>
      if pv_pages info =? 0 then mret (- ENOMEM)
      else
        '(_, s) ← checked (eventlib_write 0 type ts data (u32 size) (pv_el info));
        modify (set_providers (update_provider id s (providers k)) (nr_providers k));; mret 0
  end.

Fixpoint list_del (id : Z) (l : list provider) : list provider :=
  match l with
  | [] => []
  | p :: l => if id =? pv_id p then l else p :: list_del id l
  end.

(** [wd]: does the GFP_ATOMIC allocation of the work item succeed? *)
Definition free_provider (wd : bool) (info : provider) : M kmod unit :=
  _ ← checked (eventlib_close true (pv_el info));
  release (RPages (pv_pages info));;
  modify (fun k => set_providers (list_del (pv_id info) (providers k)) (nr_providers k) k);;
  if negb wd then mret tt else modify (fun k => set_work (work k ++ [info]) k).

Definition keventlib_unregister (wd : bool) (id : Z) : M kmod unit :=
  k ← get;
  if negb (is_initialized k) then mret tt
  else
    match find_provider_info (providers k) id with
    | None => mret tt
    | Some info => free_provider wd info
    end.

(** The work item of a provider that was removed. *)
Definition __free_provider (info : provider) : M kmod unit :=
  remove_sysfs_entry (pv_kobj info);;
  free_schema (pv_schema info);;
  release (RInfo (pv_addr info));;
  k ← get;
  modify (set_providers (providers k) (nr_providers k - 1));;
  if nr_providers k - 1 =? 0 then modify (set_kobj_root false) else mret tt.

(** The work queue runs its first item. *)
Definition run_work : M kmod unit :=
  k ← get;
  match work k with
  | [] => mret tt
  | info :: w => modify (set_work w);; __free_provider info
  end.

(** [wds]: one answer of the allocator per provider. *)
Fixpoint free_each (wds : nat -> bool) (n : nat) (l : list provider) : M kmod unit :=
  match l with
  | [] => mret tt
  | p :: l => free_provider (wds n) p;; free_each wds (S n) l
  end.
Definition unregister_all_providers (wds : nat -> bool) : M kmod unit :=
  k ← get; free_each wds 0 (providers k).

(** ** Module entry: the registry before the test provider is registered. *)
Definition module_start (root : bool) (k : kmod) : kmod + Z :=
  if is_initialized k then inr (- ENOMEM)
  else if negb root then inr (- ENOMEM)
  else inl (Kmod true true [] 0 [] (live k)).

(** ** The endpoint of a provider *)

(** The endpoint [s] can be written and holds the messages [l], newest first. *)
Definition el_holds (s : estate) (l : list msg) : Prop :=
  direction (ectx s) = EVENTLIB_DIRECTION_WRITER /\ 0 < num_buffers (ectx s) /\
  exists p t wc pos cur old,
    priv (ectx s) = Some p /\ tbuf p !! 0%nat = Some t /\ ctx_ok (tbuf_tracectx t) /\
    contents (tbuf_tracectx t) (tb_mem (bufs s (tbuf_addr (tbuf_tracectx t)))) wc pos cur old /\
    cur ++ old = l.

(** The one trace buffer of a provider of [size] bytes. *)
Definition pv_tb_size (size : Z) : Z := ALIGN_64_DOWN ((ALIGN_64_DOWN (u32 size) - 24) / 1).

(** What __get_free_pages promises: at least a page and at least [size] bytes,
    aligned, in the address space; and the buffer of the endpoint lies in them. *)
Record pages_ok (pg : pages) (size : Z) : Prop := {
  po_addr : 0 < pg_addr pg /\ pg_addr pg mod 8 = 0 /\ pg_addr pg + 2 ^ 32 < 2 ^ 64;
  po_bytes : 4096 <= zlen (pg_bytes pg) /\ size <= zlen (pg_bytes pg);
  po_buf : zlen (area (tb_mem (pg_bufs pg (pg_addr pg + 24)))) = pv_tb_size size - 40;
}.

Lemma fill_context_inl buffer len :
  (exists c, fill_context buffer len = inr c) \/ fill_context buffer len = inl (- EINVAL).
Proof. unfold fill_context. repeat case_z; cbn [negb]; eauto. Qed.

Section endpoint.
Context (others : nat -> list Z -> list Z) (fuel : nat).
Context (pg : pages) (size : Z) (bytes : list Z).
Hypothesis Hpg : pages_ok pg size.
Hypothesis Hsize : 0 < size.
Hypothesis Hbytes : zlen bytes = zlen (pg_bytes pg).
Let a := pg_addr pg.
Let c := fresh_ctx a size.
Let s0 := EState c bytes [] (pg_bufs pg).

Lemma fresh_on_block : on_block a (u32 size) c.
Proof. split; try done. Qed.

Lemma u32_le : u32 size <= size.
Proof. unfold uw. apply Z.mod_le; lia. Qed.

Definition initialised (r : option Z) (s : estate) : Prop :=
  exists ret, r = Some ret /\ ret <= 0 /\
    (ret = 0 -> el_holds s []).

(** Large enough for one buffer, and not too large. *)
Lemma init_good : 424 <= pv_tb_size size < 2 ^ 24 + 40 ->
  wp (_eventlib_init true others fuel EVENTLIB_CTX_VERSION EVENTLIB_CTX_SIZE)
    (fun r s => initialised r s /\ r = Some 0) s0.
Proof.
  intros Ht. pose proof u32_le. pose proof (u32_range size).
  destruct Hpg as [(A1 & A2 & A3) [B1 B2] B3]. fold a in A1, A2, A3, B3.
  assert (block_suits a (u32 size) 0 s0) as Hb.
  { split; try lia; [unfold EVENTLIB_TBUFS_MAX; lia|exact Ht|cbn; lia|].
    intros i Hi. assert (i = 0%nat) as -> by (cbn in Hi; lia).
    unfold buf_room, buf_at. rewrite Z.mul_0_r, Z.add_0_r. exact B3. }
  change s0 with (set_ectx c s0).
  eapply wp_mono; [apply (writer_init_ok true others others fuel fuel a (u32 size) 0 c s0 Hb);
    [apply fresh_on_block|done..]|].
  intros r s (-> & [P1 P2] & N & D & p & Hp & Hbd). split; [|done].
  exists 0. split; [done|]. split; [done|]. intros _.
  destruct (Hbd 0%nat) as [ack Hl]; [cbn; lia|].
  set (ts := ALIGN_64_DOWN ((ALIGN_64_DOWN (u32 size) - 24) / real_buffers 0)) in *.
  change (pv_tb_size size) with ts in Ht.
  assert (ts mod 8 = 0) as Ht8 by (unfold ts; rewrite ALIGN_64_DOWN_mod; dlia).
  destruct (fill_context_at (a + 24) ts ltac:(split; [lia|dlia]) (conj Ht Ht8) 0) as [Hf Hlen].
  destruct (P2 0%nat) as [_ Hm]; [cbn; lia|].
  assert (buf_at (a + 24) ts 0 = a + 24) as Eb by (unfold buf_at; lia). rewrite Eb in *.
  set (t := ctx_at (a + 24) ts 0) in *.
  pose proof (sizes others others fuel a (u32 size) 0 s0 Hb) as (E8 & _ & H8 & _ & Hfit). fold ts in Hfit.
  change (real_buffers 0) with 1 in Hfit.
  assert (0 <= u32 size mod 8 < 8) by (apply Z.mod_pos_bound; lia).
  assert (ctx_ok t) as Hctx by (eapply fill_context_ok; [..|exact Hf]; unfold sizeof_tbuf_w2r; lia).
  assert (tbuf_addr t = a + 24) as Ea.
  { unfold fill_context in Hf. repeat case_z_in Hf; cbn [negb] in Hf; try done.
    injection Hf as <-. unfold tbuf_addr, sizeof_tbuf_w2r, sizeof_tracebuf. cbn [begin_].
    rewrite u64_small by lia. lia. }
  destruct (init_contents t Hctx (a + 24 + sizeof_tbuf_w2r) (ts - sizeof_tbuf_w2r)
              (Mem (Tracebuf 0 0 0 0 0) (fill (ts - 40) 0)))
    as (m' & Ei & Hc & _ & _ & _ & _ & Hbok);
    [unfold sizeof_tbuf_w2r; lia..|exact Hf|cbn; rewrite zlen_fill; lia|].
  rewrite <- Eb, init_at in Ei by ((split; [lia|dlia]) || (cbn; rewrite zlen_fill; lia)).
  injection Ei as <-. fold t in Hc, Hbok.
  split; [exact D|]. split; [rewrite N; cbn; lia|].
  exists p, (Tbuf t ack), 0, 0, [], []. cbn [tbuf_tracectx]. rewrite Ea, Hm.
  split_and!; done.
Qed.

Definition failed (r : option Z) (s : estate) : Prop := exists ret, r = Some ret /\ ret < 0.

(** A block too small for the header; the state after the failure. *)
Lemma start_small s1 : direction (ectx s1) = EVENTLIB_DIRECTION_WRITER ->
  r2w_shm (ectx s1) = None -> w2r_shm_size (ectx s1) < 24 -> 8 <= zlen (w2r_mem s1) ->
  wp shm_region_start (fun r _ => r = - ENOSPC) s1.
Proof.
  intros Hd Hr Hs Hm. unfold shm_region_start, shm_region_start_writer. wp_simpl.
  rewrite Hd, Z.eqb_refl. wp_simpl. unfold shm_writer_setup_start, sizeof_eventlib_shared.
  destruct (Z.ltb_spec (w2r_shm_size (ectx s1)) 24); [|lia].
  eapply wp_checked; [reflexivity|]. wp_simpl.
  rewrite Hr, bool_decide_eq_false_2 by tauto. rewrite andb_false_r. wp_simpl.
  eapply wp_checked; [apply wr_le_spec; lia|]. by wp_simpl.
Qed.

(** A trace buffer that does not fit its part of the block. *)
Lemma tbuf_small s1 p : ~ (424 <= pv_tb_size size < 2 ^ 24 + 40) ->
  direction (ectx s1) = EVENTLIB_DIRECTION_WRITER ->
  priv (ectx s1) = Some p -> w2r_shm (ectx s1) = Some a -> num_buffers (ectx s1) = 1 ->
  w2r_shm_size (ectx s1) = ALIGN_64_DOWN (u32 size) -> 24 <= ALIGN_64_DOWN (u32 size) ->
  w2r_offset p = 24 ->
  wp tbuf_init (fun r s2 => r < 0 /\ direction (ectx s2) = EVENTLIB_DIRECTION_WRITER) s1.
Proof.
  intros Ht Hd Hp Ha Hn Hs H24 Ho. unfold tbuf_init. wp_simpl. rewrite Hd, Z.eqb_refl.
  destruct Hpg as [(A1 & A2 & A3) _ _]. fold a in A1, A2, A3.
  pose proof (u32_range size). pose proof (ALIGN_64_DOWN_mod (u32 size)) as E8.
  assert (0 <= u32 size mod 8 < 8) by (apply Z.mod_pos_bound; lia).
  set (size8 := ALIGN_64_DOWN (u32 size)) in *.
  unfold tbuf_writer_init, subsys_w2r_carve. wp_simpl. eapply wp_get_priv; [exact Hp|].
  wp_simpl. eapply wp_get_priv; [exact Hp|]. rewrite Hs, Ho, (u32_small (size8 - 24)) by lia.
  unfold subsys_shm_carve. rewrite (u32_small (size8 - 24)), Z.ltb_irrefl by lia. wp_simpl.
  eapply wp_modify_priv; [exact Hp|]. wp_simpl. cbn [Z.eqb negb]. rewrite Hn.
  cbn [Z.eqb Z.ltb EVENTLIB_TBUFS_MAX orb Z.compare Pos.compare Pos.compare_cont]. wp_simpl.
  eapply wp_get_priv; [reflexivity|]. wp_simpl.
  eapply wp_checked; [unfold tracebuf_area, subsys_shm_area; cbn; by rewrite Ha|].
  cbn [sh_subsys set_subsys w2r_copy set_w2r_copy subsys_shm_size]. wp_simpl.
  unfold subsys_shm_size. cbn [sh_subsys set_subsys w2r_copy set_w2r_copy].
  rewrite bool_decide_eq_true_2 by done. cbn [snd].
  change (ALIGN_64_DOWN ((size8 - 24) / 1)) with (pv_tb_size size).
  set (ts := pv_tb_size size) in *.
  assert (ts mod 8 = 0 /\ 0 <= ts < 2 ^ 32) as [T8 T0].
  { unfold ts, pv_tb_size. fold size8. rewrite Z.div_1_r, ALIGN_64_DOWN_mod.
    assert (0 <= (size8 - 24) mod 8 < 8) by (apply Z.mod_pos_bound; lia).
    assert ((size8 - 24) mod 8 <= size8 - 24) by (apply Z.mod_le; lia). split; [dlia|lia]. }
  destruct (Z.ltb_spec ts sizeof_tbuf_w2r); unfold sizeof_tbuf_w2r in *; [by wp_simpl|].
  change (Z.to_nat 1) with 1%nat. cbn [buf_loop]. wp_simpl. unfold tbuf_writer_buf. wp_simpl.
  change (u32 (ts * Z.of_nat 0)) with (u32 (ts * 0)). rewrite Z.mul_0_r.
  change (u32 0) with 0. unfold sizeof_tbuf_w2r. rewrite (u32_small (ts - 8)) by lia.
  eapply wp_checked.
  { assert (forall b m, tracebuf_init b (ts - 8) m = Some (inl (- EINVAL), m)) as E.
    { intros b m. unfold tracebuf_init.
      destruct (fill_context_inl b (ts - 8)) as [[t Et]| ->]; [|done].
      exfalso. apply Ht. unfold fill_context, sizeof_tracebuf, MIN_MSG_LEVEL, sizeof_tracehdr in Et.
      change (Z.shiftl 1 24) with (2 ^ 24) in Et.
      destruct (Z.ltb_spec (ts - 8) 32); [repeat case_z_in Et; done|].
      rewrite (u32_small (ts - 8 - 32)) in Et by lia.
      repeat case_z_in Et; try done. dlia. }
    apply E. }
  cbv beta iota. wp_simpl. cbn [Z.eqb Z.opp EINVAL negb]. by wp_simpl.
Qed.

Lemma init_bad : ~ (424 <= pv_tb_size size < 2 ^ 24 + 40) ->
  wp (_eventlib_init true others fuel EVENTLIB_CTX_VERSION EVENTLIB_CTX_SIZE) failed s0.
Proof.
  intros Ht. destruct Hpg as [(A1 & A2 & A3) [B1 B2] B3]. pose proof (u32_range size).
  change s0 with (set_ectx c s0).
  apply (init_prefix true a (u32 size) 0); [apply fresh_on_block|exact A2|by left|done|].
  unfold init_rest. wp_simpl. apply wp_priv_init. cbn [Z.eqb negb]. wp_simpl.
  set (s1 := set_ectx (set_priv (Some init_zero) _) _).
  assert (direction (ectx s1) = EVENTLIB_DIRECTION_WRITER /\ r2w_shm (ectx s1) = None /\
          w2r_shm_size (ectx s1) = ALIGN_64_DOWN (u32 size) /\ w2r_mem s1 = bytes)
    as (D1 & R1 & S1 & M1) by done.
  destruct (Z.lt_ge_cases (ALIGN_64_DOWN (u32 size)) 24) as [Hlt|Hge].
  { eapply wp_mono; [apply start_small; rewrite ?S1, ?M1; done || lia|].
    intros r s2 ->. cbn [Z.eqb Z.opp ENOSPC negb]. unfold modify_ectx. wp_simpl. by eexists. }
  unfold shm_region_start. wp_simpl. rewrite D1, Z.eqb_refl.
  eapply wp_mono; [apply (region_start_writer others others fuel s1 init_zero);
    rewrite ?S1, ?M1; done || lia|].
  intros r s2 (-> & C2 & _). cbn [Z.eqb negb]. wp_simpl.
  eapply wp_mono; [apply (flt_step_off true others fuel s2 (set_w2r_offset 24 init_zero));
    rewrite ?C2; auto|].
  intros r s3 (-> & [_ _ _ C3]). cbn [Z.eqb negb]. wp_simpl.
  assert (direction (ectx s3) = EVENTLIB_DIRECTION_WRITER /\
          priv (ectx s3) = Some (set_w2r_offset 24 init_zero) /\ w2r_shm (ectx s3) = Some a /\
          num_buffers (ectx s3) = 1 /\ w2r_shm_size (ectx s3) = ALIGN_64_DOWN (u32 size))
    as (D3 & P3 & W3 & N3 & S3) by (destruct C3 as [-> | ->]; rewrite C2; done).
  eapply wp_mono; [apply (tbuf_small s3 (set_w2r_offset 24 init_zero) Ht); done|].
  intros r s4 [Hr D4]. destruct (Z.eqb_spec r 0); [lia|]. cbn [negb].
  unfold eventlib_close, flt_fini, modify_ectx. wp_simpl. rewrite D4.
  cbn [Z.eqb Pos.eqb EVENTLIB_DIRECTION_WRITER EVENTLIB_DIRECTION_READER negb]. wp_simpl.
  by exists r.
Qed.

(** Whatever the size, initialising the endpoint of a provider ends, without a
    fault; it succeeds exactly for sizes that hold one trace buffer. *)
Lemma keventlib_init_returns :
  exists ret el, keventlib_init others fuel pg bytes size = Some (Some ret, el) /\ ret <= 0 /\
    (ret = 0 -> el_holds el []) /\ (ret = 0 <-> 424 <= pv_tb_size size < 2 ^ 24 + 40).
Proof.
  unfold keventlib_init. fold a c s0.
  destruct (decide (424 <= pv_tb_size size < 2 ^ 24 + 40)) as [Ht|Ht].
  - destruct (wp_total _ _ _ (init_good Ht)) as (r & el & E & (ret & -> & H1 & H2) & [= ->]).
    exists 0, el. split; [exact E|]. tauto.
  - destruct (wp_total _ _ _ (init_bad Ht)) as (r & el & E & ret & -> & H1).
    exists ret, el. split; [exact E|]. split; [lia|]. split; [lia|]. split; [lia|tauto].
Qed.
End endpoint.

(** ** The registry *)

Definition held_schema (schema : option (Z * list Z)) : list resource :=
  match schema with Some (sc, _) => [RSchema sc] | None => [] end.
(** What a registered provider holds, and one whose pages are gone. *)
Definition held_work (p : provider) : list resource :=
  RInfo (pv_addr p) :: RSysfs (pv_kobj p) :: held_schema (pv_schema p).
Definition held (p : provider) : list resource := RPages (pv_pages p) :: held_work p.

Lemma wp_release_head r l k (Q : unit -> kmod -> Prop) :
  live k = r :: l -> Q tt (set_live l k) -> wp (release r) Q k.
Proof.
  intros E HQ. unfold release. wp_simpl. rewrite E.
  rewrite bool_decide_eq_true_2 by apply list_elem_of_here. wp_simpl. cbn [remove_one].
  by rewrite decide_True.
Qed.

Lemma remove_one_perm r l : r ∈ l -> l ≡ₚ r :: remove_one r l.
Proof.
  induction l as [|x l IH]; [by intros ?%not_elem_of_nil|]. intros Hr. cbn [remove_one].
  destruct (decide (x = r)) as [-> |Hne]; [done|].
  apply elem_of_cons in Hr as [?|Hr]; [congruence|]. rewrite (IH Hr) at 1. constructor.
Qed.

Lemma wp_release r k (Q : unit -> kmod -> Prop) :
  r ∈ live k -> (forall l, live k ≡ₚ r :: l -> Q tt (set_live l k)) -> wp (release r) Q k.
Proof.
  intros Hr HQ. unfold release. wp_simpl. rewrite bool_decide_eq_true_2 by done. wp_simpl.
  by apply HQ, remove_one_perm.
Qed.

Lemma is_id_free_spec l id : is_id_free l id = true <-> (id ∉ (pv_id <$> l)).
Proof.
  unfold is_id_free. rewrite forallb_forall. split.
  - intros H [p [-> Hp]]%list_elem_of_fmap. apply list_elem_of_In in Hp. apply H in Hp.
    by rewrite Z.eqb_refl in Hp.
  - intros H p Hp%list_elem_of_In. destruct (Z.eqb_spec id (pv_id p)) as [-> |]; [|done].
    destruct H. by apply list_elem_of_fmap_2.
Qed.

(** The search takes the least free id, and fails only when all are taken. *)
Lemma get_free_id_spec l cnt id : 0 <= id ->
  let r := get_free_id cnt id l in
  (r = - EMFILE /\ forall j, id <= j < id + Z.of_nat cnt -> j ∈ (pv_id <$> l)) \/
  (id <= r < id + Z.of_nat cnt /\ (r ∉ (pv_id <$> l)) /\
   forall j, id <= j < r -> j ∈ (pv_id <$> l)).
Proof.
  revert id. induction cnt as [|cnt IH]; intros id Hid; cbn [get_free_id]; cbv zeta.
  { left. split; [done|]. lia. }
  destruct (is_id_free l id) eqn:E.
  - right. apply is_id_free_spec in E. split_and!; try done; lia.
  - assert (id ∈ (pv_id <$> l)) as Hin.
    { destruct (decide (id ∈ (pv_id <$> l))) as [?|Hn]; [done|].
      apply is_id_free_spec in Hn. congruence. }
    destruct (IH (id + 1) ltac:(lia)) as [[-> H]|(H1 & H2 & H3)].
    + left. split; [done|]. intros j Hj. destruct (decide (j = id)) as [-> |]; [done|].
      apply H. lia.
    + right. split; [lia|]. split; [done|]. intros j Hj.
      destruct (decide (j = id)) as [-> |]; [done|]. apply H3. lia.
Qed.

Definition least_free (l : list provider) (id : Z) : Prop :=
  0 <= id < EVENTLIB_MAX_PROVIDERS /\ (id ∉ (pv_id <$> l)) /\ forall j, 0 <= j < id -> j ∈ (pv_id <$> l).

(** What the kernel may answer: sysfs codes are errors or zero. *)
Record env_ok (e : env) (size : Z) : Prop := {
  eo_events : env_events_file e <= 0;
  eo_schema : env_schema_file e <= 0;
  eo_pages pg : env_pages e = Some pg -> pages_ok pg size;
}.

Section register.
Context (others : nat -> list Z -> list Z) (fuel : nat) (e : env) (size : Z).
Hypothesis Hsize : 0 <= size.
Hypothesis He : env_ok e size.

Lemma create_sysfs_spec schema k : kobj_root k = true ->
  wp (create_sysfs_entry e schema) (fun r k' =>
    (r.1 < 0 /\ k' = set_live (live k) k) \/
    (r.1 = 0 /\ env_kobj e = Some r.2 /\ k' = acquire (RSysfs r.2) k)) k.
Proof.
  intros Hk. unfold create_sysfs_entry. wp_simpl. apply wp_BUG_ON; [by rewrite Hk|].
  destruct He as [E1 E2 _]. destruct (env_kobj e) as [o|].
  2: { wp_simpl. left. split; [done|]. by destruct k. }
  wp_simpl. destruct (Z.eqb_spec (env_events_file e) 0) as [E|E]; cbn [negb].
  - destruct schema as [[sc text]|]; [|wp_simpl; by right].
    destruct (Z.eqb_spec (env_schema_file e) 0) as [E'|E']; cbn [negb]; [wp_simpl; by right|].
    wp_simpl. eapply wp_release_head; [done|]. wp_simpl. left. split; [cbn; lia|done].
  - wp_simpl. eapply wp_release_head; [done|]. wp_simpl. left. split; [cbn; lia|done].
Qed.

Lemma err_free_spec pg schema ret k base :
  live k = held_schema schema ++ RPages (pg_addr pg) :: base ->
  wp (err_free pg schema ret) (fun r k' => r = inl ret /\ k' = set_live base k) k.
Proof.
  intros Hl. unfold err_free, free_schema. wp_simpl. destruct schema as [[sc text]|]; wp_simpl.
  - eapply wp_release_head; [exact Hl|]. wp_simpl. by eapply wp_release_head; [|wp_simpl].
  - by eapply wp_release_head; [exact Hl|wp_simpl].
Qed.

Lemma provider_setup_spec a pg bytes schema k base :
  0 < size -> pages_ok pg size -> zlen bytes = zlen (pg_bytes pg) -> kobj_root k = true ->
  live k = held_schema schema ++ RPages (pg_addr pg) :: base ->
  wp (provider_setup others fuel e a pg bytes size schema) (fun r k' =>
    match r with
    | inl ret => ret < 0 /\ k' = set_live base k
    | inr info => least_free (providers k) (pv_id info) /\ el_holds (pv_el info) [] /\
        held info ≡ₚ RSysfs (pv_kobj info) :: held_schema schema ++ [RPages (pg_addr pg); RInfo a] /\
        env_kobj e = Some (pv_kobj info) /\
        pv_schema info = schema /\ pv_pages info = pg_addr pg /\
        k' = set_providers (providers k ++ [info]) (nr_providers k + 1)
               (acquire (RSysfs (pv_kobj info)) k)
    end) k.
Proof.
  intros Hpos Hpg Hb Hk Hl. unfold provider_setup. wp_simpl.
  eapply wp_mono; [by apply create_sysfs_spec|]. intros [ret o] k1 [[Hr ->]|(Hr & Ho & ->)];
    cbn [fst snd] in *.
  { destruct (Z.ltb_spec ret 0); [|lia].
    eapply wp_mono; [eapply err_free_spec; exact Hl|]. intros r k' [-> ->]. by split. }
  subst ret. cbn [Z.ltb Z.compare]. wp_simpl.
  destruct (keventlib_init_returns others fuel pg size bytes Hpg Hpos Hb)
    as (ret & el & E & Hr & Hel & _).
  eapply wp_checked; [exact E|]. cbv beta iota. wp_simpl. eapply wp_checked; [reflexivity|].
  assert (forall ret', ret' < 0 ->
    wp (err_sysfs o pg schema ret') (fun r k' => match r with
      | inl ret => ret < 0 /\ k' = set_live base k | inr _ => False end)
      (acquire (RSysfs o) k)) as Herr.
  { intros ret' Hret. unfold err_sysfs, remove_sysfs_entry. wp_simpl.
    eapply wp_release_head; [done|].
    eapply wp_mono; [eapply err_free_spec; exact Hl|]. intros r k' [-> ->]. done. }
  destruct (Z.ltb_spec ret 0) as [Hlt|Hge].
  { eapply wp_mono; [by apply Herr|]. by intros [] ?. }
  wp_simpl. specialize (Hel ltac:(lia)).
  destruct (get_free_id_spec (providers k) (Z.to_nat EVENTLIB_MAX_PROVIDERS) 0 ltac:(lia))
    as [[Ei Hall]|(H1 & H2 & H3)]; cbn [providers acquire set_live].
  - rewrite Ei. change (- EMFILE <? 0) with true. cbv iota. wp_simpl. destruct Hel as (Hd & _).
    eapply wp_checked.
    { unfold eventlib_close, flt_fini, modify_ectx. munfold. rewrite Hd.
      cbn [Z.eqb Pos.eqb EVENTLIB_DIRECTION_WRITER EVENTLIB_DIRECTION_READER negb]. reflexivity. }
    eapply wp_mono; [by apply Herr|]. by intros [] ?.
  - destruct (Z.ltb_spec (get_free_id (Z.to_nat EVENTLIB_MAX_PROVIDERS) 0 (providers k)) 0); [lia|].
    wp_simpl. cbn [pv_id pv_el pv_kobj pv_schema pv_pages].
    split; [split; [unfold EVENTLIB_MAX_PROVIDERS in *; lia|done]|]. split; [done|].
    split; [|by split_and!]. unfold held, held_work. cbn [pv_pages pv_addr pv_kobj pv_schema].
    destruct schema as [[sc text]|]; cbn [held_schema app]; solve_Permutation.
Qed.
End register.

Lemma set_live_id k : set_live (live k) k = k.
Proof. by destruct k. Qed.

(** Does a registration get as far as creating the sysfs directory, for which
    the root must still be there? *)
Definition reaches_sysfs (e : env) (size : Z) (schema : option (list Z)) (k : kmod) : bool :=
  is_initialized k && bool_decide (is_Some (env_info e)) && negb (size =? 0) &&
  is_power_of_2 size && bool_decide (is_Some (env_pages e)) &&
  match schema with Some (_ :: _) => bool_decide (is_Some (env_schema e)) | _ => true end.

(** The pages that stay behind when the copy of the schema cannot be
    allocated. *)
Definition leaked_pages (e : env) (size : Z) (schema : option (list Z)) (k : kmod)
    : list resource :=
  if is_initialized k && bool_decide (is_Some (env_info e)) && negb (size =? 0) &&
     is_power_of_2 size
  then match env_pages e, schema, env_schema e with
       | Some pg, Some (_ :: _), None => [RPages (pg_addr pg)]
       | _, _, _ => []
       end
  else [].

(** The outcomes of a registration. *)
Inductive registered (e : env) (size : Z) (schema : option (list Z)) (k : kmod)
    : Z -> kmod -> Prop :=
  | reg_ok info l :
      leaked_pages e size schema k = [] ->
      least_free (providers k) (pv_id info) -> el_holds (pv_el info) [] ->
      held info ++ live k ≡ₚ l ->
      env_info e = Some (pv_addr info) -> env_kobj e = Some (pv_kobj info) ->
      (exists pg, env_pages e = Some pg /\ pv_pages info = pg_addr pg) ->
      (forall sc text, pv_schema info = Some (sc, text) -> env_schema e = Some sc) ->
      registered e size schema k (pv_id info)
        (set_live l (set_providers (providers k ++ [info]) (nr_providers k + 1) k))
  | reg_fail ret : ret < 0 -> leaked_pages e size schema k = [] ->
      registered e size schema k ret k
  | reg_leak pg : leaked_pages e size schema k = [RPages (pg_addr pg)] ->
      env_pages e = Some pg ->
      registered e size schema k (- ENOMEM) (set_live (RPages (pg_addr pg) :: live k) k).

Lemma register_outcome others fuel e size schema k :
  0 <= size -> env_ok e size -> kobj_root k = true \/ reaches_sysfs e size schema k = false ->
  wp (keventlib_register others fuel e size schema)
    (fun ret k' => registered e size schema k ret k') k.
Proof.
  intros Hsize He Hk. unfold keventlib_register. wp_simpl.
  unfold reaches_sysfs in Hk.
  destruct (is_initialized k) eqn:Ei; cbn [negb].
  2: { wp_simpl. apply reg_fail; [done|]. unfold leaked_pages. by rewrite Ei. }
  destruct (env_info e) as [a|] eqn:Ea.
  2: { wp_simpl. apply reg_fail; [done|]. unfold leaked_pages. rewrite Ea. by rewrite andb_false_r. }
  wp_simpl. unfold provider_init.
  assert (forall ret, ret < 0 -> leaked_pages e size schema k = [] ->
    wp (release (RInfo a)) (fun _ k' => registered e size schema k ret k')
      (acquire (RInfo a) k)) as Hfail.
  { intros ret Hr Hlk. eapply wp_release_head; [done|].
    change (set_live (live k) (acquire (RInfo a) k)) with (set_live (live k) k).
    rewrite set_live_id. by apply reg_fail. }
  assert (leaked_pages e size schema k =
    if negb (size =? 0) && is_power_of_2 size
    then match env_pages e, schema, env_schema e with
         | Some pg, Some (_ :: _), None => [RPages (pg_addr pg)]
         | _, _, _ => [] end else []) as Elk
    by (unfold leaked_pages; by rewrite Ei, Ea, bool_decide_eq_true_2).
  destruct (Z.eqb_spec size 0); cbn [orb]; [wp_simpl; by apply (Hfail (- EINVAL))|].
  destruct (is_power_of_2 size); cbn [negb]; [|wp_simpl; by apply (Hfail (- EINVAL))].
  cbn [negb andb] in Elk, Hk.
  destruct (env_pages e) as [pg|] eqn:Ep; [|wp_simpl; by apply (Hfail (- ENOMEM))].
  rewrite !bool_decide_eq_true_2 in Hk by done. cbn [andb] in Hk.
  pose proof (eo_pages _ _ He pg Ep) as Hpg. destruct (po_bytes _ _ Hpg) as [B1 B2].
  wp_simpl. eapply wp_checked; [apply mem_write_Some; [done|rewrite zlen_fill by lia; lia]|].
  set (bytes := splice _ _ _).
  assert (zlen bytes = zlen (pg_bytes pg)) as Hb
    by (unfold bytes; rewrite zlen_splice; rewrite ?zlen_fill; lia).
  assert (forall sch k1, live k1 = held_schema sch ++ RPages (pg_addr pg) :: RInfo a :: live k ->
    set_live (live k) k1 = k -> kobj_root k1 = true ->
    (forall sc text, sch = Some (sc, text) -> env_schema e = Some sc) ->
    leaked_pages e size schema k = [] ->
    wp (provider_setup others fuel e a pg bytes size sch)
      (fun r k2 => wp (match r with inl ret => release (RInfo a);; mret ret
                       | inr info => mret (pv_id info) end)
         (fun ret k' => registered e size schema k ret k') k2) k1) as Hsetup.
  { intros sch k1 Hl Hk1 Hr Hsc Hlk.
    eapply wp_mono; [apply (provider_setup_spec others fuel e size He a pg bytes sch k1
        (RInfo a :: live k)); done || lia|].
    assert (providers k1 = providers k /\ nr_providers k1 = nr_providers k) as [P1 N1]
      by (by rewrite <- Hk1).
    intros [ret|info] k2.
    - intros [Hret ->]. wp_simpl. eapply wp_release_head; [done|]. wp_simpl.
      change (set_live (live k) (set_live (RInfo a :: live k) k1)) with (set_live (live k) k1).
      rewrite Hk1. by apply reg_fail.
    - intros (H1 & H2 & H3 & H4 & H5 & H6 & ->). wp_simpl.
      assert (set_providers (providers k1 ++ [info]) (nr_providers k1 + 1)
                (acquire (RSysfs (pv_kobj info)) k1) =
              set_live (RSysfs (pv_kobj info) :: live k1)
                (set_providers (providers k ++ [info]) (nr_providers k + 1) k)) as ->
        by (rewrite P1, N1, <- Hk1; by destruct k1).
      assert (pv_addr info = a) as Ha.
      { assert (RInfo (pv_addr info) ∈ held info) as Hin
          by (unfold held, held_work; right; left).
        rewrite H3, H5 in Hin || rewrite H3 in Hin. 
        destruct sch as [[sc text]|]; cbn [held_schema app] in Hin;
          repeat (apply elem_of_cons in Hin as [Hin|Hin]; [try congruence|]);
          by apply not_elem_of_nil in Hin. }
      apply reg_ok; try done.
      + by rewrite <- P1.
      + rewrite H3, Hl. destruct sch as [[sc text]|]; cbn [held_schema app]; solve_Permutation.
      + by rewrite Ha.
      + by exists pg.
      + intros sc text Es. apply (Hsc sc text). congruence. }
  destruct schema as [[|b text]|].
  - destruct Hk as [Hk|]; [|done]. apply Hsetup; try done. exact (set_live_id k).
  - destruct (env_schema e) as [sc|] eqn:Es; wp_simpl.
    + rewrite bool_decide_eq_true_2 in Hk by done. destruct Hk as [Hk|]; [|done].
      apply Hsetup; try done; [exact (set_live_id k)|]. by intros ? ? [= -> _].
    + unfold release. wp_simpl. cbn [live acquire set_live].
      rewrite bool_decide_eq_true_2 by (right; left). wp_simpl. cbn [remove_one].
      destruct (decide (RPages (pg_addr pg) = RInfo a)); [done|].
      rewrite decide_True by done. apply (reg_leak e size _ k pg); done.
  - destruct Hk as [Hk|]; [|done]. apply Hsetup; try done. exact (set_live_id k).
Qed.

(** A registration that gets to the directory after the root is gone works on
    the freed root. *)
Lemma register_faults others fuel e size schema k :
  0 <= size -> env_ok e size -> kobj_root k = false -> reaches_sysfs e size schema k = true ->
  keventlib_register others fuel e size schema k = None.
Proof.
  unfold reaches_sysfs. rewrite !andb_true_iff, !bool_decide_eq_true, negb_true_iff.
  intros Hsize He Hr (((((Hi & [a Ha]) & Hs) & Hpow) & [pg Hpg]) & Hsc).
  unfold keventlib_register, provider_init. munfold. rewrite Hi, Ha, Hs, Hpow, Hpg.
  destruct (po_bytes _ _ (eo_pages _ _ He pg Hpg)) as [B1 B2]. cbn [orb negb].
  rewrite mem_write_Some by (rewrite ?zlen_fill; lia).
  destruct schema as [[|b text]|].
  - unfold provider_setup, create_sysfs_entry. munfold. cbn [kobj_root acquire set_live].
    by rewrite Hr.
  - apply bool_decide_eq_true in Hsc as [sc Hsc]. rewrite Hsc.
    unfold provider_setup, create_sysfs_entry. munfold. cbn [kobj_root acquire set_live].
    by rewrite Hr.
  - unfold provider_setup, create_sysfs_entry. munfold. cbn [kobj_root acquire set_live].
    by rewrite Hr.
Qed.

(** ** The registry's invariant *)

(** [lost]: what nobody will give back any more; [nlost]: removed providers
    whose work item could not be allocated. *)
Record kinv (lost : list resource) (nlost : Z) (k : kmod) : Prop := {
  ki_ids : NoDup (pv_id <$> providers k);
  ki_range : Forall (fun p => 0 <= pv_id p < EVENTLIB_MAX_PROVIDERS) (providers k);
  ki_els : Forall (fun p => exists l, el_holds (pv_el p) l) (providers k);
  ki_pages : Forall (fun p => pv_pages p <> 0) (providers k);
  ki_live : live k ≡ₚ lost ++ (providers k ≫= held) ++ (work k ≫= held_work);
  ki_count : nr_providers k = zlen (providers k) + zlen (work k) + nlost;
  ki_lost : 0 <= nlost;
}.

Lemma find_provider_some l id p : find_provider_info l id = Some p ->
  pv_id p = id /\ l ≡ₚ p :: list_del id l.
Proof.
  induction l as [|q l IH]; cbn [find_provider_info list_del]; [done|].
  destruct (Z.eqb_spec id (pv_id q)) as [E|E]; [intros [= ->]; done|].
  intros H. apply IH in H as [H1 H2]. split; [done|]. rewrite H2 at 1. constructor.
Qed.

Lemma find_provider_none l id : find_provider_info l id = None <-> (id ∉ (pv_id <$> l)).
Proof.
  rewrite <- is_id_free_spec. unfold is_id_free.
  induction l as [|q l IH]; cbn [find_provider_info forallb]; [done|].
  destruct (id =? pv_id q); cbn [negb andb]; [done|exact IH].
Qed.

Lemma update_provider_ids id s l : pv_id <$> update_provider id s l = pv_id <$> l.
Proof.
  induction l as [|q l IH]; cbn [update_provider]; [done|].
  destruct (id =? pv_id q); cbn [fmap list_fmap]; [done|]. f_equal. exact IH.
Qed.

Lemma update_provider_held id s l : update_provider id s l ≫= held = l ≫= held.
Proof.
  induction l as [|q l IH]; cbn [update_provider]; [done|].
  destruct (id =? pv_id q); [done|]. rewrite !bind_cons. by rewrite IH.
Qed.

Lemma update_provider_forall (P : provider -> Prop) id s l :
  Forall P l -> (forall p, P p -> P (set_el s p)) -> Forall P (update_provider id s l).
Proof.
  intros H HP. induction H as [|q l Hq Hl IH]; cbn [update_provider]; [done|].
  destruct (id =? pv_id q); constructor; auto.
Qed.

Lemma update_provider_length id s l : zlen (update_provider id s l) = zlen l.
Proof.
  unfold zlen. f_equal. rewrite <- (length_fmap pv_id), update_provider_ids. apply length_fmap.
Qed.

(** Registering keeps the invariant; only the failure to allocate the schema
    loses something. *)
Lemma registered_kinv lost n e size schema k ret k' : kinv lost n k -> env_ok e size ->
  registered e size schema k ret k' -> kinv (leaked_pages e size schema k ++ lost) n k'.
Proof.
  intros [I1 I2 I3 I0 I4 I5 I6] He
    [info l -> Hf Hel Hl _ _ (pg & Hpg & Epg) _|ret' _ ->|pg -> _].
  - destruct Hf as (F1 & F2 & _). split; cbn; try done.
    + rewrite fmap_app. apply list.NoDup_app. split; [done|]. split; [|apply NoDup_singleton].
      intros x Hx Hx'. cbn in Hx'. apply list_elem_of_singleton in Hx' as ->. done.
    + apply Forall_app. split; [done|]. by constructor.
    + apply Forall_app. split; [done|]. constructor; [by eexists|done].
    + apply Forall_app. split; [done|]. constructor; [|done].
      pose proof (po_addr _ _ (eo_pages _ _ He pg Hpg)). lia.
    + rewrite <- Hl, I4, bind_app. cbn. rewrite app_nil_r. solve_Permutation.
    + rewrite zlen_app, I5. change (zlen [info]) with 1. lia.
  - by split.
  - split; cbn; try done. by rewrite I4.
Qed.

(** What an unregistration loses when its work item cannot be allocated, and
    the number of providers it then leaves in the count. *)
Definition lost_provider (wd : bool) (id : Z) (k : kmod) : option provider :=
  if is_initialized k && negb wd then find_provider_info (providers k) id else None.
Definition lost_work (o : option provider) : list resource :=
  match o with Some p => held_work p | None => [] end.
Definition lost_count (o : option provider) : Z :=
  match o with Some _ => 1 | None => 0 end.

Lemma wp_close_writer {K} s (Q : _ -> K -> Prop) (k : K) :
  direction (ectx s) = EVENTLIB_DIRECTION_WRITER -> (forall r, Q r k) ->
  wp (checked (eventlib_close true s)) Q k.
Proof.
  intros Hd HQ. eapply wp_checked; [|apply HQ].
  unfold eventlib_close, flt_fini, modify_ectx. munfold. rewrite Hd.
  cbn [Z.eqb Pos.eqb EVENTLIB_DIRECTION_WRITER EVENTLIB_DIRECTION_READER negb]. reflexivity.
Qed.

(** What is left of the provider goes with the work item, or is lost. *)
Lemma unregister_spec lost n wd id k : kinv lost n k ->
  let o := lost_provider wd id k in
  wp (keventlib_unregister wd id) (fun _ k' =>
    kinv (lost_work o ++ lost) (n + lost_count o) k' /\
    (is_initialized k = true -> id ∉ (pv_id <$> providers k')) /\
    (forall id', id' <> id -> find_provider_info (providers k') id' =
                              find_provider_info (providers k) id')) k.
Proof.
  intros Hk. pose proof Hk as [I1 I2 I3 I0 I4 I5 I6]. unfold keventlib_unregister, lost_provider.
  cbv zeta. wp_simpl. destruct (is_initialized k) eqn:Ei; cbn [negb andb].
  2: { wp_simpl. cbn. by rewrite Z.add_0_r. }
  destruct (find_provider_info (providers k) id) as [p|] eqn:Ef.
  2: { wp_simpl. replace (if negb wd then None else None) with (@None provider) by (by destruct wd).
       cbn. rewrite Z.add_0_r. split_and!; try done. intros _. by apply find_provider_none. }
  destruct (find_provider_some _ _ _ Ef) as [Hid Hperm]. unfold free_provider. wp_simpl.
  assert (exists l, el_holds (pv_el p) l) as (l & Hd & _).
  { rewrite Hperm in I3. by inversion I3. }
  apply wp_close_writer; [done|]. intros _. wp_simpl.
  apply wp_release. { rewrite I4, Hperm, bind_cons, !elem_of_app. right. left. left. left. }
  intros l0 Hl0. wp_simpl. rewrite Hid.
  cbn [providers nr_providers set_live set_providers work].
  assert (l0 ≡ₚ held_work p ++ lost ++ (list_del id (providers k) ≫= held) ++ (work k ≫= held_work))
    as Hl0'.
  { apply (Permutation_cons_inv (a := RPages (pv_pages p))). rewrite <- Hl0, I4, Hperm at 1.
    rewrite bind_cons. unfold held at 1. solve_Permutation. }
  assert (NoDup (id :: (pv_id <$> list_del id (providers k)))) as Hnd.
  { rewrite Hperm in I1. cbn in I1. by rewrite Hid in I1. }
  apply list.NoDup_cons in Hnd as [Hnin Hnd].
  rewrite Hperm in I2, I3, I0.
  apply Forall_cons_iff in I2 as [_ I2], I3 as [_ I3], I0 as [_ I0].
  assert (zlen (providers k) = 1 + zlen (list_del id (providers k))) as Hlen
    by (unfold zlen; rewrite Hperm at 1; cbn [length]; lia).
  assert (forall id', id' <> id -> find_provider_info (list_del id (providers k)) id' =
                                   find_provider_info (providers k) id') as Hoth.
  { intros id' Hne. clear -Hne. induction (providers k) as [|q l IH]; [done|].
    cbn [list_del find_provider_info]. destruct (Z.eqb_spec id (pv_id q)) as [E|E].
    - destruct (Z.eqb_spec id' (pv_id q)); [congruence|done].
    - cbn [find_provider_info]. by rewrite IH. }
  destruct wd; cbn [negb lost_work lost_count app]; wp_simpl.
  - rewrite Z.add_0_r. split; [|done]. split; cbn; try done.
    + rewrite Hl0', bind_app. cbn. rewrite app_nil_r. solve_Permutation.
    + rewrite zlen_app, I5. change (zlen [p]) with 1. lia.
  - split; [|done]. split; cbn; try done; [|lia|lia].
    rewrite Hl0'. solve_Permutation.
Qed.

Lemma run_work_spec lost n k : kinv lost n k ->
  wp run_work (fun _ k' => kinv lost n k' /\ providers k' = providers k) k.
Proof.
  intros Hk. pose proof Hk as [I1 I2 I3 I0 I4 I5 I6]. unfold run_work. wp_simpl.
  destruct (work k) as [|p w] eqn:Ew; [by wp_simpl|]. wp_simpl.
  unfold __free_provider, remove_sysfs_entry. wp_simpl.
  rewrite bind_cons in I4.
  assert (live k ≡ₚ held_work p ++ lost ++ (providers k ≫= held) ++ (w ≫= held_work)) as Hl
    by (rewrite I4; solve_Permutation).
  apply wp_release. { cbn [live set_work]. rewrite Hl. right. left. }
  intros l1 H1. cbn [live set_work] in H1. rewrite Hl in H1. wp_simpl.
  assert (exists rest, rest ≡ₚ lost ++ (providers k ≫= held) ++ (w ≫= held_work)) as [rest Hrest]
    by (by eexists).
  rewrite <- Hrest in H1.
  assert (l1 ≡ₚ held_schema (pv_schema p) ++ RInfo (pv_addr p) :: rest) as H1'.
  { apply (Permutation_cons_inv (a := RSysfs (pv_kobj p))). rewrite <- H1.
    unfold held_work. solve_Permutation. }
  assert (forall l2 k2, k2 = set_live l2 (set_work w k) -> l2 ≡ₚ RInfo (pv_addr p) :: rest ->
    wp (release (RInfo (pv_addr p))) (fun _ s' =>
      wp (if nr_providers s' - 1 =? 0 then modify (set_kobj_root false) else mret tt)
        (fun _ k' => kinv lost n k' /\ providers k' = providers k)
        (set_providers (providers s') (nr_providers s' - 1) s')) k2) as Hend.
  { intros l2 k2 -> H2. apply wp_release. { cbn. rewrite H2. left. }
    intros l3 H3. cbn in H3. rewrite H2 in H3. apply Permutation_cons_inv in H3.
    assert (kinv lost n (set_live l3 (set_providers (providers k) (nr_providers k - 1) (set_work w k))))
      as Hfin.
    { split; cbn; try done; [by rewrite <- H3|]. rewrite I5, zlen_cons. lia. }
    cbn [nr_providers set_live set_work providers].
    destruct (_ =? 0); wp_simpl; [|done]. split; [|done].
    destruct Hfin. by split. }
  unfold free_schema. destruct (pv_schema p) as [[sc text]|]; wp_simpl.
  - apply wp_release. { cbn. rewrite H1'. left. }
    intros l2 H2. cbn in H2. rewrite H1' in H2. wp_simpl.
    apply (Hend l2); [done|]. symmetry. apply (Permutation_cons_inv (a := RSchema sc)). exact H2.
  - apply (Hend l1); done.
Qed.

(** The endpoint takes the event as its newest message. *)
Lemma el_write s l data size type ts :
  el_holds s l -> 0 <= size <= zlen data -> size < 2 ^ 32 -> 0 <= ts < 2 ^ 64 -> 0 <= type < 2 ^ 32 ->
  wp (eventlib_write 0 type ts data size) (fun _ s' => exists x n,
    el_holds s' (x :: take n l) /\ params (m_hdr x) = ts /\ reserved (m_hdr x) = type /\
    hdr_length (m_hdr x) = size) s.
Proof.
  intros (Hd & Hn & p & t & wc & pos & cur & old & Hp & Ht & Hctx & Hc & Hl) Hs Hs2 Hts Hty.
  unfold eventlib_write. wp_simpl. rewrite Hd, Z.eqb_refl. cbn [negb].
  change (Z.of_nat 0) with 0. destruct (Z.leb_spec (num_buffers (ectx s)) 0); [lia|].
  wp_simpl. eapply wp_get_priv; [exact Hp|]. wp_simpl. eapply wp_checked; [exact Ht|]. wp_simpl.
  destruct (push_contents (tbuf_tracectx t) Hctx _ wc pos cur old (Hdr ts 0 0 type) data size Hc)
    as (m' & wc' & p' & cur' & old' & n & E & Hc' & Hl' & _); try (cbn; lia).
  eapply wp_checked; [exact E|]. cbv beta iota. wp_simpl. rewrite Hl in Hl'.
  set (x := Msg _ _) in Hl'. exists x, n. split; [|done].
  split; [done|]. split; [done|]. exists p, t, wc', p', cur', old'.
  cbn [ectx set_buf bufs]. rewrite Z.eqb_refl. by split_and!.
Qed.

Lemma write_spec lost n id data size type ts k :
  kinv lost n k -> 0 <= size <= zlen data -> size < 2 ^ 32 ->
  0 <= ts < 2 ^ 64 -> 0 <= type < 2 ^ 32 ->
  wp (keventlib_write id data size type ts) (fun ret k' =>
    kinv lost n k' /\
    match find_provider_info (providers k) id with
    | None => ret = - ENOENT /\ k' = k
    | Some p => ret = 0 /\ exists s, providers k' = update_provider id s (providers k) /\
        forall l, el_holds (pv_el p) l -> exists x j, el_holds s (x :: take j l) /\
          params (m_hdr x) = ts /\ reserved (m_hdr x) = type /\ hdr_length (m_hdr x) = size
    end) k.
Proof.
  intros Hk Hs Hs2 Hts Hty. pose proof Hk as [I1 I2 I3 I0 I4 I5 I6].
  unfold keventlib_write. wp_simpl.
  destruct (find_provider_info (providers k) id) as [p|] eqn:Ef; [|by wp_simpl].
  destruct (find_provider_some _ _ _ Ef) as [Hid Hperm].
  assert (pv_pages p <> 0 /\ exists l, el_holds (pv_el p) l) as [Hp0 [l Hl]].
  { rewrite Hperm in I0, I3. inversion I0. by inversion I3. }
  destruct (Z.eqb_spec (pv_pages p) 0); [done|]. rewrite (u32_small size) by lia.
  destruct (wp_total _ _ _ (el_write (pv_el p) l data size type ts Hl Hs Hs2 Hts Hty))
    as ([] & s & E & Hs').
  wp_simpl. eapply wp_checked; [exact E|]. cbv beta iota. wp_simpl. split.
  - split; cbn; try done.
    + by rewrite update_provider_ids.
    + apply update_provider_forall; [done|]. done.
    + destruct Hs' as (x & j & Hx & _). apply update_provider_forall; [done|]. intros q _. by eexists.
    + by apply update_provider_forall.
    + by rewrite update_provider_held.
    + by rewrite update_provider_length.
  - split; [done|]. exists s. split; [done|]. intros l' Hl'.
    destruct (wp_total _ _ _ (el_write (pv_el p) l' data size type ts Hl' Hs Hs2 Hts Hty))
      as ([] & s2 & E2 & Hs2'). assert (s2 = s) as -> by congruence. exact Hs2'.
Qed.

(** ** Runs of the module *)

(** The calls another part of the kernel can make, and the work queue, each
    with what it loses for good: resources and counted providers. A step is a
    call that returns. *)
Inductive kstep : kmod -> list resource -> Z -> kmod -> Prop :=
  | step_register others fuel e size schema ret k k' :
      0 <= size -> env_ok e size ->
      keventlib_register others fuel e size schema k = Some (ret, k') ->
      kstep k (leaked_pages e size schema k) 0 k'
  | step_write id data size type ts ret k k' :
      0 <= size <= zlen data -> size < 2 ^ 32 -> 0 <= ts < 2 ^ 64 -> 0 <= type < 2 ^ 32 ->
      keventlib_write id data size type ts k = Some (ret, k') -> kstep k [] 0 k'
  | step_unregister wd id k k' : keventlib_unregister wd id k = Some (tt, k') ->
      let o := lost_provider wd id k in kstep k (lost_work o) (lost_count o) k'
  | step_work k k' : run_work k = Some (tt, k') -> kstep k [] 0 k'.

(** The states reached from the start, with all that was lost on the way. *)
Inductive kreachable : list resource -> Z -> kmod -> Prop :=
  | reach_start : kreachable [] 0 (Kmod true true [] 0 [] [])
  | reach_step lost n k lost' n' k' : kreachable lost n k -> kstep k lost' n' k' ->
      kreachable (lost' ++ lost) (n + n') k'.

Lemma register_may others fuel e size schema k ret k' :
  0 <= size -> env_ok e size -> keventlib_register others fuel e size schema k = Some (ret, k') ->
  kobj_root k = true \/ reaches_sysfs e size schema k = false.
Proof.
  intros H1 H2 E. destruct (kobj_root k) eqn:Er; [by left|].
  destruct (reaches_sysfs e size schema k) eqn:Es; [|by right].
  by rewrite register_faults in E.
Qed.

Lemma reachable_kinv lost n k : kreachable lost n k -> kinv lost n k.
Proof.
  induction 1 as [|lost n k lost' n' k' Hr IH Hstep]; [split; cbn; try done; constructor|].
  destruct Hstep as [others fuel e size schema ret k k' H1 H2 E|
                     id data size type ts ret k k' H1 H2 H3 H4 E|wd id k k' E o|k k' E];
    rewrite ?Z.add_0_r.
  - pose proof (register_outcome others fuel e size schema k H1 H2
                  (register_may _ _ _ _ _ _ _ _ H1 H2 E)) as H.
    unfold wp in H. rewrite E in H. by eapply registered_kinv.
  - pose proof (write_spec lost n id data size type ts k IH H1 H2 H3 H4) as H.
    unfold wp in H. rewrite E in H. by destruct H as [H _].
  - pose proof (unregister_spec lost n wd id k IH) as H. cbv zeta in H. unfold wp in H.
    rewrite E in H. by destruct H as [H _].
  - pose proof (run_work_spec lost n k IH) as H. unfold wp in H. rewrite E in H.
    by destruct H as [H _].
Qed.

(** C23. In every state the module can reach, the ids of the providers are
    distinct and below 256, every endpoint can be written, what is held is
    exactly what the registered providers and the pending work items will give
    back and what was lost on the way, and the provider count is theirs and
    that of the providers lost. What is lost is determined by the calls: the
    pages of each registration whose copy of the schema could not be
    allocated; the directory, the schema and the description of each removed
    provider whose work item could not be. And no call faults or frees anything
    twice, with one exception: a registration that gets to creating its sysfs
    directory after the root directory was put (last_unregister_drops_root). *)
Theorem kreachable_safe lost n k : kreachable lost n k ->
  kinv lost n k /\
  (forall others fuel e size schema, 0 <= size -> env_ok e size ->
     is_Some (keventlib_register others fuel e size schema k) <->
     kobj_root k = true \/ reaches_sysfs e size schema k = false) /\
  (forall id data size type ts, 0 <= size <= zlen data -> size < 2 ^ 32 ->
     0 <= ts < 2 ^ 64 -> 0 <= type < 2 ^ 32 -> is_Some (keventlib_write id data size type ts k)) /\
  (forall wd id, is_Some (keventlib_unregister wd id k)) /\ is_Some (run_work k).
Proof.
  intros Hr. pose proof (reachable_kinv lost n k Hr) as Hk. split; [done|]. split_and!.
  - intros others fuel e size schema H1 H2. split.
    + intros [[ret k'] E]. by eapply register_may.
    + intros H3.
      destruct (wp_total _ _ _ (register_outcome others fuel e size schema k H1 H2 H3))
        as (? & ? & -> & _). by eexists.
  - intros id data size type ts H1 H2 H3 H4.
    destruct (wp_total _ _ _ (write_spec lost n id data size type ts k Hk H1 H2 H3 H4)) as (? & ? & -> & _).
    by eexists.
  - intros wd id. destruct (wp_total _ _ _ (unregister_spec lost n wd id k Hk)) as (? & ? & -> & _).
    by eexists.
  - destruct (wp_total _ _ _ (run_work_spec lost n k Hk)) as (? & ? & -> & _). by eexists.
Qed.

(** C39. As long as the root directory is there, or the registration fails
    before it needs it, a registration either adds one provider, with the
    least free id and an empty endpoint, holding what it acquired; or fails and
    leaves the module as it was, everything given back; except that when the
    copy of the schema cannot be allocated, the pages stay allocated. When the
    root directory is gone (it is put when the last provider's work item runs)
    and the registration gets to its own directory, it works on the freed
    root, which is a fault. *)
Theorem keventlib_register_outcomes others fuel e size schema k :
  0 <= size -> env_ok e size ->
  if negb (kobj_root k) && reaches_sysfs e size schema k
  then keventlib_register others fuel e size schema k = None
  else exists ret k', keventlib_register others fuel e size schema k = Some (ret, k') /\
    registered e size schema k ret k' /\ (0 <= ret <-> providers k' <> providers k).
Proof.
  intros H1 H2.
  destruct (negb (kobj_root k) && reaches_sysfs e size schema k) eqn:Ec.
  { apply andb_true_iff in Ec as [Ec1 Ec2]. apply negb_true_iff in Ec1. by apply register_faults. }
  assert (kobj_root k = true \/ reaches_sysfs e size schema k = false) as H3
    by (destruct (kobj_root k); [by left|by right]).
  destruct (wp_total _ _ _ (register_outcome others fuel e size schema k H1 H2 H3)) as (ret & k' & E & H).
  exists ret, k'. split; [done|]. split; [done|].
  destruct H as [info l _ [Hf _]|ret Hr _|pg _ _]; cbn.
  - split; [|intros _; lia]. intros _ Hc. apply (f_equal length) in Hc. rewrite length_app in Hc. cbn in Hc. lia.
  - split; [intros ?; exfalso; lia|done].
  - split; [intros H; by destruct H|done].
Qed.

(** A write reaches the provider with that id, whose endpoint then holds the
    event as its newest message, over the newest ones it held before, and no
    other provider; an unknown id gives -ENOENT and changes nothing. *)
Theorem keventlib_write_delivers lost n id data size type ts k :
  kinv lost n k -> 0 <= size <= zlen data -> size < 2 ^ 32 ->
  0 <= ts < 2 ^ 64 -> 0 <= type < 2 ^ 32 ->
  exists ret k', keventlib_write id data size type ts k = Some (ret, k') /\ kinv lost n k' /\
    match find_provider_info (providers k) id with
    | None => ret = - ENOENT /\ k' = k
    | Some p => ret = 0 /\ exists s, providers k' = update_provider id s (providers k) /\
        forall l, el_holds (pv_el p) l -> exists x j, el_holds s (x :: take j l) /\
          params (m_hdr x) = ts /\ reserved (m_hdr x) = type /\ hdr_length (m_hdr x) = size
    end.
Proof.
  intros Hk H1 H2 H3 H4.
  destruct (wp_total _ _ _ (write_spec lost n id data size type ts k Hk H1 H2 H3 H4)) as (ret & k' & H).
  by exists ret, k'.
Qed.

(** The root directory is put when the last provider's work item runs,
    although the module stays initialised: when the only provider is
    unregistered, the next registration that gets its memory works on the
    freed directory. *)
Theorem last_unregister_drops_root lost k p e others fuel size a pg :
  kinv lost 0 k -> providers k = [p] -> work k = [] -> is_initialized k = true ->
  0 < size -> is_power_of_2 size = true -> env_ok e size ->
  env_info e = Some a -> env_pages e = Some pg ->
  exists k1 k2, keventlib_unregister true (pv_id p) k = Some (tt, k1) /\
    run_work k1 = Some (tt, k2) /\ is_initialized k2 = true /\
    keventlib_register others fuel e size None k2 = None.
Proof.
  intros Hk Hp Hw Hi Hs Hpow He Ha Hpg.
  assert (wp (keventlib_unregister true (pv_id p)) (fun _ k1 =>
            wp run_work (fun _ k2 => is_initialized k2 = true /\ kobj_root k2 = false) k1) k) as H.
  { pose proof Hk as [I1 I2 I3 I0 I4 I5 I6]. rewrite Hp, Hw in *. cbn in I4, I5.
    apply Forall_cons_iff in I3 as [(l & Hd & _) _].
    unfold keventlib_unregister, free_provider. wp_simpl. rewrite Hi, Hp. cbn [negb find_provider_info].
    rewrite Z.eqb_refl. wp_simpl. apply wp_close_writer; [done|]. intros _. wp_simpl.
    apply wp_release. { rewrite I4, !elem_of_app. right. left. }
    intros l1 Hl1. rewrite I4, app_nil_r in Hl1. wp_simpl. cbn [negb]. wp_simpl.
    unfold run_work. wp_simpl. cbn [work set_work set_providers set_live providers nr_providers].
    rewrite Hw. cbn [app]. wp_simpl. unfold __free_provider, remove_sysfs_entry. wp_simpl.
    assert (l1 ≡ₚ lost ++ held_work p) as Hl1'.
    { apply (Permutation_cons_inv (a := RPages (pv_pages p))). rewrite <- Hl1.
      unfold held. rewrite app_nil_r. solve_Permutation. }
    apply wp_release. { cbn [live set_work set_providers set_live]. rewrite Hl1', elem_of_app. right. right. left. }
    intros l2 Hl2. cbn [live set_work set_providers set_live] in Hl2. wp_simpl.
    assert (l2 ≡ₚ held_schema (pv_schema p) ++ RInfo (pv_addr p) :: lost) as Hl2'.
    { apply (Permutation_cons_inv (a := RSysfs (pv_kobj p))). rewrite <- Hl2, Hl1'.
      unfold held_work. solve_Permutation. }
    assert (nr_providers k = 1) as Hn by (rewrite I5; done).
    assert (forall l3 k3, is_initialized k3 = true -> nr_providers k3 = 1 -> live k3 = l3 ->
      RInfo (pv_addr p) ∈ l3 ->
      wp (release (RInfo (pv_addr p))) (fun _ s' =>
        wp (if nr_providers s' - 1 =? 0 then modify (set_kobj_root false) else mret tt)
          (fun _ k2 => is_initialized k2 = true /\ kobj_root k2 = false)
          (set_providers (providers s') (nr_providers s' - 1) s')) k3) as Hend.
    { intros l3 k3 Hi3 Hn3 <- Hin. apply wp_release; [done|]. intros l4 _.
      cbn [nr_providers set_live providers]. rewrite Hn3. cbn [Z.sub Z.eqb Z.add Z.opp Z.pos_sub].
      wp_simpl. done. }
    unfold free_schema. destruct (pv_schema p) as [[sc text]|]; wp_simpl.
    - apply wp_release. { cbn. rewrite Hl2'. left. }
      intros l3 Hl3. cbn in Hl3. rewrite Hl2' in Hl3. apply Permutation_cons_inv in Hl3. wp_simpl.
      eapply Hend; [exact Hi|exact Hn|reflexivity|]. cbn. rewrite <- Hl3. left.
    - eapply Hend; [exact Hi|exact Hn|reflexivity|]. cbn. rewrite Hl2'. left. }
  apply wp_total in H as ([] & k1 & E1 & H). apply wp_total in H as ([] & k2 & E2 & Hi2 & Hr2).
  exists k1, k2. split; [done|]. split; [done|]. split; [done|].
  unfold keventlib_register, provider_init. munfold. rewrite Hi2, Ha, Hpow, Hpg.
  destruct (Z.eqb_spec size 0); [lia|]. cbn [orb negb].
  destruct (po_bytes _ _ (eo_pages _ _ He pg Hpg)) as [B1 B2].
  rewrite mem_write_Some by (rewrite ?zlen_fill; lia).
  unfold provider_setup, create_sysfs_entry. munfold. cbn [kobj_root acquire set_live].
  by rewrite Hr2.
Qed.

(** ** Examples: a module with one provider of 1 KiB *)

Definition ex_pages : pages :=
  Pages ex_base (fill 4096 0) (fun _ => TbufW2r 0 (Mem (Tracebuf 0 0 0 0 0) (fill 960 0))).
Definition ex_env : env := Env (Some 4096) (Some ex_pages) (Some 8192) (Some 16384) 0 0.
Definition ex_no_others : nat -> list Z -> list Z := fun _ m => m.
Definition ex_kmod0 : kmod := Kmod true true [] 0 [] [].
Definition ex_kmod1 : kmod :=
  match keventlib_register ex_no_others 2 ex_env 1024 (Some [1]) ex_kmod0 with
  | Some (_, k) => k | None => ex_kmod0 end.
Definition ex_provider : option provider := find_provider_info (providers ex_kmod1) 0.

Lemma ex_env_ok : env_ok ex_env 1024.
Proof.
  split; [done|done|]. intros pg [= <-].
  split; [split_and!; by vm_compute|split; by vm_compute|by vm_compute].
Qed.

Lemma ex_registered :
  keventlib_register ex_no_others 2 ex_env 1024 (Some [1]) ex_kmod0 = Some (0, ex_kmod1).
Proof. vm_compute. reflexivity. Qed.

Lemma ex_reachable : kreachable [] 0 ex_kmod1.
Proof.
  apply (reach_step [] 0 ex_kmod0 [] 0 ex_kmod1 reach_start).
  apply (step_register ex_no_others 2 ex_env 1024 (Some [1]) 0 ex_kmod0 ex_kmod1);
    [lia|exact ex_env_ok|exact ex_registered].
Qed.

Lemma ex_kinv : exists lost, kinv lost 0 ex_kmod1.
Proof. exists []. exact (reachable_kinv [] 0 ex_kmod1 ex_reachable). Qed.

Lemma kreachable_safe_witness : kreachable [] 0 ex_kmod1 /\ kinv [] 0 ex_kmod1.
Proof. split; [exact ex_reachable|]. exact (proj1 (kreachable_safe [] 0 ex_kmod1 ex_reachable)). Defined.

Lemma keventlib_register_outcomes_witness : exists ret k',
  keventlib_register ex_no_others 2 ex_env 1024 (Some [1]) ex_kmod1 = Some (ret, k') /\
  registered ex_env 1024 (Some [1]) ex_kmod1 ret k' /\
  (0 <= ret <-> providers k' <> providers ex_kmod1).
Proof.
  exact (keventlib_register_outcomes ex_no_others 2 ex_env 1024 (Some [1]) ex_kmod1
           ltac:(lia) ex_env_ok).
Defined.

Lemma keventlib_write_delivers_witness : exists ret k',
  keventlib_write 0 [1; 2; 3] 3 5 7 ex_kmod1 = Some (ret, k') /\ ret = 0.
Proof.
  destruct ex_kinv as [lost Hk].
  destruct (keventlib_write_delivers lost 0 0 [1; 2; 3] 3 5 7 ex_kmod1 Hk)
    as (ret & k' & E & _ & H); [by vm_compute|lia|lia|lia|].
  exists ret, k'. split; [exact E|].
  destruct (find_provider_info (providers ex_kmod1) 0) as [p|] eqn:Ef; [by destruct H|].
  exfalso. revert Ef. by vm_compute.
Defined.

Lemma last_unregister_drops_root_witness : exists p k1 k2,
  keventlib_unregister true (pv_id p) ex_kmod1 = Some (tt, k1) /\
  run_work k1 = Some (tt, k2) /\ is_initialized k2 = true /\
  keventlib_register ex_no_others 2 ex_env 1024 None k2 = None.
Proof.
  destruct ex_kinv as [lost Hk].
  destruct (providers ex_kmod1) as [|p [|q l]] eqn:Ep;
    [exfalso; revert Ep; by vm_compute| |exfalso; revert Ep; by vm_compute].
  exists p.
  apply (last_unregister_drops_root lost ex_kmod1 p ex_env ex_no_others 2 1024 4096 ex_pages Hk Ep);
    [by vm_compute|by vm_compute|lia|done|exact ex_env_ok|done|done].
Defined.
