(* ===== verification/DwarfRead.v ===== *)
(** * Reading unwind tables (drivers/misc/tegra-profiler/dwarf_unwind.c, 36-774)

    The profiler keeps a copy of the unwind sections of a process in an area of
    kernel memory. Everything the unwinder loads from it goes through
    [validate_addr]; on top of the loads are the LEB128 numbers and the encoded
    pointers of the DWARF tables. Addresses are 64-bit numbers, signed values are
    kept as 64-bit patterns. *)

From S2P Require Import Prelude.

(** ** Constants *)

Definition QUADD_URC_SUCCESS : Z := 0.
Definition QUADD_URC_FAILURE : Z := 1.
Definition QUADD_URC_IDX_NOT_FOUND : Z := 2.
Definition QUADD_URC_TBL_NOT_EXIST : Z := 3.
Definition QUADD_URC_EACCESS : Z := 4.
Definition QUADD_URC_TBL_IS_CORRUPT : Z := 5.
Definition QUADD_URC_UNHANDLED_INSTRUCTION : Z := 7.
Definition QUADD_URC_SP_INCORRECT : Z := 9.
Definition QUADD_URC_PC_INCORRECT : Z := 12.
Definition QUADD_URC_LEVEL_TOO_DEEP : Z := 13.

Definition QUADD_SEC_TYPE_EH_FRAME : Z := 2.
Definition QUADD_SEC_TYPE_EH_FRAME_HDR : Z := 3.
Definition QUADD_SEC_TYPE_DEBUG_FRAME : Z := 4.
Definition QUADD_SEC_TYPE_DEBUG_FRAME_HDR : Z := 5.
Definition QUADD_SEC_TYPE_MAX : nat := 6.

Definition DW_EH_PE_absptr : Z := 0x00.
Definition DW_EH_PE_omit : Z := 0xff.
Definition DW_EH_PE_uleb128 : Z := 0x01.
Definition DW_EH_PE_udata2 : Z := 0x02.
Definition DW_EH_PE_udata4 : Z := 0x03.
Definition DW_EH_PE_udata8 : Z := 0x04.
Definition DW_EH_PE_sleb128 : Z := 0x09.
Definition DW_EH_PE_sdata2 : Z := 0x0A.
Definition DW_EH_PE_sdata4 : Z := 0x0B.
Definition DW_EH_PE_sdata8 : Z := 0x0C.
Definition DW_EH_PE_pcrel : Z := 0x10.
Definition DW_EH_PE_datarel : Z := 0x30.
Definition DW_EH_PE_aligned : Z := 0x50.
Definition DW_EH_PE_indirect : Z := 0x80.

Inductive dw_mode := DW_MODE_ARM32 | DW_MODE_ARM64.
#[export] Instance dw_mode_eq_dec : EqDecision dw_mode.
Proof. solve_decision. Defined.

Definition QUADD_AARCH64_REGISTERS : nat := 32.
Definition QUADD_AARCH32_REGISTERS : nat := 16.
Definition QUADD_NUM_REGS : nat := QUADD_AARCH64_REGISTERS.
Definition ARM32_FP_THUMB : Z := 7.
Definition ARM32_FP : Z := 11.
Definition ARM32_SP : Z := 13.
Definition ARM32_LR : Z := 14.
Definition ARM64_FP : Z := 29.
Definition ARM64_LR : Z := 30.
Definition ARM64_SP : Z := 31.

Definition regnum_sp (m : dw_mode) : Z :=
  match m with DW_MODE_ARM32 => ARM32_SP | DW_MODE_ARM64 => ARM64_SP end.
Definition regnum_fp (m : dw_mode) : Z :=
  match m with DW_MODE_ARM32 => ARM32_FP | DW_MODE_ARM64 => ARM64_FP end.
Definition regnum_lr (m : dw_mode) : Z :=
  match m with DW_MODE_ARM32 => ARM32_LR | DW_MODE_ARM64 => ARM64_LR end.
Definition get_user_reg_size (m : dw_mode) : Z :=
  match m with DW_MODE_ARM32 => 4 | DW_MODE_ARM64 => 8 end.
Definition get_secid_frame (is_eh : bool) : Z :=
  if is_eh then QUADD_SEC_TYPE_EH_FRAME else QUADD_SEC_TYPE_DEBUG_FRAME.
Definition get_secid_frame_hdr (is_eh : bool) : Z :=
  if is_eh then QUADD_SEC_TYPE_EH_FRAME_HDR else QUADD_SEC_TYPE_DEBUG_FRAME_HDR.

(** ** Outcomes

    A value, an error code, a faulty access, or no end within the fuel. A fault is an
    access outside the memory at hand (the mapped area, an array of registers or of
    regions, a null pointer), or a store outside the arrays of a call chain. *)
Inductive fault_site := Outside_memory | Outside_chain.
Inductive outcome (A : Type) :=
  | Done (x : A)
  | Error (code : Z)
  | Faulty (site : fault_site)
  | Timeout.
Arguments Done {A} x.
Arguments Error {A} code.
Arguments Faulty {A} site.
Arguments Timeout {A}.
Abbreviation Fault := (Faulty Outside_memory).

#[export] Instance outcome_ret : MRet outcome := @Done.
#[export] Instance outcome_bind : MBind outcome := fun A B k m =>
  match m with
  | Done x => k x
  | Error e => Error e
  | Faulty site => Faulty site
  | Timeout => Timeout
  end.

Lemma bind_done {A B} (o : outcome A) (k : A -> outcome B) y :
  (x ← o; k x) = Done y -> exists x, o = Done x /\ k x = Done y.
Proof. destruct o; cbn; try done. eauto. Qed.

(** [inv_bind H]: the first computation of H returned; [inv_done]: so did this. *)
Ltac inv_bind H :=
  let x := fresh "x" in let E := fresh "E" in
  apply bind_done in H as (x & E & H).
Ltac inv_done := unfold mret, outcome_ret in *; simplify_eq/=.

(** ** Regions *)

Record extab_info := Extab {
  ti_addr : Z; ti_length : Z; ti_mmap_offset : Z; ti_tf_start : Z; ti_tf_end : Z }.

(** struct quadd_mmap_area: its address and its bytes. *)
Record quadd_mmap_area := MmapArea {
  mm_active : bool; mm_data : Z; mm_bytes : list Z }.

Record ex_region_info := Region {
  vm_start : Z; vm_end : Z; ex_sec : Z -> extab_info; mmap : quadd_mmap_area }.

Definition is_frame_present (ri : ex_region_info) (is_eh : bool) : bool :=
  negb (ti_length (ex_sec ri (get_secid_frame is_eh)) =? 0) &&
  negb (ti_length (ex_sec ri (get_secid_frame_hdr is_eh)) =? 0).

(** A load without any check. *)
Definition load (n : nat) (ri : ex_region_info) (addr : Z) : outcome Z :=
  match rd_le n (mm_bytes (mmap ri)) (addr - mm_data (mmap ri)) with
  | Some x => Done x
  | None => Fault
  end.

Definition validate_addr (ri : ex_region_info) (addr nbytes st : Z) : bool :=
  if negb (mm_active (mmap ri)) then false
  else
    let ti := ex_sec ri st in
    let start := u64 (mm_data (mmap ri) + ti_mmap_offset ti) in
    let end_ := u64 (start + ti_length ti) in
    negb ((addr <? start) || (u64 (end_ - nbytes) <? addr)).

Definition read_mmap_data (n : nat) (ri : ex_region_info) (addr st : Z) : outcome Z :=
  if validate_addr ri addr (Z.of_nat n) st then load n ri addr
  else Error (- QUADD_URC_EACCESS).

Definition read_mmap_data_u8 := read_mmap_data 1.
Definition read_mmap_data_u16 := read_mmap_data 2.
Definition read_mmap_data_u32 := read_mmap_data 4.
Definition read_mmap_data_u64 := read_mmap_data 8.
Definition read_mmap_data_s16 (ri : ex_region_info) (addr st : Z) : outcome Z :=
  x ← read_mmap_data 2 ri addr st; mret (u64 (sw 16 x)).
Definition read_mmap_data_s32 (ri : ex_region_info) (addr st : Z) : outcome Z :=
  x ← read_mmap_data 4 ri addr st; mret (u64 (sw 32 x)).
Definition read_mmap_data_s64 := read_mmap_data 8.

Definition ex_addr_to_mmap_addr (addr : Z) (ri : ex_region_info) (st : Z) : Z :=
  let ti := ex_sec ri st in
  u64 (ti_mmap_offset ti + u64 (addr - ti_addr ti) + mm_data (mmap ri)).

Definition mmap_addr_to_ex_addr (addr : Z) (ri : ex_region_info) (st : Z) : Z :=
  let ti := ex_sec ri st in
  u64 (ti_addr ti + u64 (addr - ti_mmap_offset ti - mm_data (mmap ri))).

(** for (i = 0; i < ARRAY_SIZE(ri->ex_sec); i++), [n] sections left *)
Fixpoint section_loop (n : nat) (i : Z) (ri : ex_region_info) (addr : Z) : Z :=
  match n with
  | O => - QUADD_URC_IDX_NOT_FOUND
  | S n =>
      let ti := ex_sec ri i in
      let start := ti_addr ti in
      let end_ := u64 (start + ti_length ti) in
      if (0 <? ti_length ti) && ((start <=? addr) && (addr <? end_)) then i
      else section_loop n (i + 1) ri addr
  end.
Definition get_section_index_by_address (ri : ex_region_info) (addr : Z) : Z :=
  section_loop QUADD_SEC_TYPE_MAX 0 ri addr.

(** ** LEB128 numbers

    [(byte & 0x7f) << shift] is computed in an int; what it gives for a shift by
    32 or more is up to the compiler. *)
Class ShiftOps := { shl_over : Z -> Z -> Z }.

Section leb.
Context `{ShiftOps}.

Definition int_shl (b shift : Z) : Z :=
  sw 32 (if shift <? 32 then Z.shiftl b shift else shl_over b shift).

(** The loop of both readers: the bits collected, the shift after them, the last
    byte and the number of bytes. *)
Record leb := Leb { leb_bits : Z; leb_shift : Z; leb_last : Z; leb_count : Z }.

Fixpoint leb_loop (fuel : nat) (ri : ex_region_info) (addr st result shift count : Z)
    : outcome leb :=
  match fuel with
  | O => Timeout
  | S fuel =>
      byte ← read_mmap_data_u8 ri addr st;
      let addr := u64 (addr + 1) in
      let result := Z.lor result (u64 (int_shl (Z.land byte 0x7f) shift)) in
      let shift := shift + 7 in
      let count := count + 1 in
      if Z.land byte 0x80 =? 0 then mret (Leb result shift byte count)
      else leb_loop fuel ri addr st result shift count
  end.

(** A number ends at the end of the section at the latest. *)
Definition leb_fuel (ri : ex_region_info) (st : Z) : nat :=
  S (Z.to_nat (ti_length (ex_sec ri st))).

(** [count] is an int, returned as an unsigned long. *)
Definition leb_returned (r : leb) : Z := u64 (sw 32 (leb_count r)).

Definition sleb_value (r : leb) : Z :=
  if (leb_shift r <? 64) && negb (Z.land (leb_last r) 0x40 =? 0)
  then Z.lor (leb_bits r) (u64 (Z.shiftl (-1) (leb_shift r))) else leb_bits r.

(** The value and the number of bytes. *)
Definition dwarf_read_uleb128 (ri : ex_region_info) (addr st : Z) : outcome (Z * Z) :=
  r ← leb_loop (leb_fuel ri st) ri addr st 0 0 0; mret (leb_bits r, leb_returned r).
Definition dwarf_read_sleb128 (ri : ex_region_info) (addr st : Z) : outcome (Z * Z) :=
  r ← leb_loop (leb_fuel ri st) ri addr st 0 0 0; mret (sleb_value r, leb_returned r).

(** ** Encoded pointers

    [char encoding] is unsigned on the targets of this driver. *)

(** read_mmap_data_u32 or u64 by the pointer size. *)
Definition read_ptr (ri : ex_region_info) (dw_ptr_size addr st err : Z) : outcome Z :=
  if dw_ptr_size =? 4 then read_mmap_data_u32 ri addr st
  else if dw_ptr_size =? 8 then read_mmap_data_u64 ri addr st
  else Error err.

(** ALIGN(addr, size) *)
Definition ALIGN_ptr (addr size : Z) : Z := Z.land (u64 (addr + (size - 1))) (Z.lnot (size - 1)).

(** The first switch, but for absptr, which returns: [stmp] and [count]. *)
Definition encoded_raw (ri : ex_region_info) (addr fmt st : Z) : outcome (Z * Z) :=
  if (fmt =? DW_EH_PE_sdata2) || (fmt =? DW_EH_PE_udata2) then
    stmp ← read_mmap_data_s16 ri addr st; mret (stmp, 2)
  else if (fmt =? DW_EH_PE_sdata4) || (fmt =? DW_EH_PE_udata4) then
    stmp ← read_mmap_data_s32 ri addr st; mret (stmp, 4)
  else if (fmt =? DW_EH_PE_sdata8) || (fmt =? DW_EH_PE_udata8) then
    stmp ← read_mmap_data_s64 ri addr st; mret (stmp, 8)
  else if fmt =? DW_EH_PE_uleb128 then
    '(utmp, n) ← dwarf_read_uleb128 ri addr st; mret (utmp, n)
  else if fmt =? DW_EH_PE_sleb128 then
    '(stmp, n) ← dwarf_read_sleb128 ri addr st; mret (stmp, n)
  else Error (- QUADD_URC_UNHANDLED_INSTRUCTION).

(** The second switch. *)
Definition encoded_base (pcrel_base stmp app : Z) : outcome Z :=
  if app =? DW_EH_PE_absptr then mret stmp
  else if app =? DW_EH_PE_pcrel then mret (u64 (pcrel_base + stmp))
  else Error (- QUADD_URC_UNHANDLED_INSTRUCTION).

Definition encoded_indirect (ri : ex_region_info) (dw_ptr_size res encoding : Z) : outcome Z :=
  if res =? 0 then mret res
  else if Z.land encoding DW_EH_PE_indirect =? 0 then mret res
  else
    let sec_idx := get_section_index_by_address ri res in
    if 0 <=? sec_idx
    then read_ptr ri dw_ptr_size res sec_idx (- QUADD_URC_UNHANDLED_INSTRUCTION)
    else mret 0.

(** The value and the int the function returns. *)
Definition dwarf_read_encoded_value (ri : ex_region_info)
    (dw_ptr_size addr pcrel_base encoding st : Z) : outcome (Z * Z) :=
  if encoding =? DW_EH_PE_omit then mret (0, 0)
  else if encoding =? DW_EH_PE_aligned then
    val ← read_ptr ri dw_ptr_size (ALIGN_ptr addr dw_ptr_size) st (- QUADD_URC_TBL_IS_CORRUPT);
    mret (val, dw_ptr_size)
  else if Z.land encoding 0x0f =? DW_EH_PE_absptr then
    val ← read_ptr ri dw_ptr_size addr st (- QUADD_URC_UNHANDLED_INSTRUCTION);
    mret (val, dw_ptr_size)
  else
    '(stmp, count) ← encoded_raw ri addr (Z.land encoding 0x0f) st;
    res ← encoded_base pcrel_base stmp (Z.land encoding 0x70);
    val ← encoded_indirect ri dw_ptr_size res encoding;
    mret (val, sw 32 count).
End leb.

(** ** Loads of a well-formed section *)

(** The section lies in the area, the area in the address space. *)
Record section_ok (ri : ex_region_info) (st : Z) : Prop := {
  so_active : mm_active (mmap ri) = true;
  so_data : 8 <= mm_data (mmap ri);
  so_top : mm_data (mmap ri) + zlen (mm_bytes (mmap ri)) < 2 ^ 64;
  so_bytes : bytes_ok (mm_bytes (mmap ri));
  so_off : 0 <= ti_mmap_offset (ex_sec ri st);
  so_len : 0 <= ti_length (ex_sec ri st);
  so_fits : ti_mmap_offset (ex_sec ri st) + ti_length (ex_sec ri st) <= zlen (mm_bytes (mmap ri));
}.

Definition sec_start (ri : ex_region_info) (st : Z) : Z :=
  mm_data (mmap ri) + ti_mmap_offset (ex_sec ri st).
Definition sec_end (ri : ex_region_info) (st : Z) : Z :=
  sec_start ri st + ti_length (ex_sec ri st).
(** The bytes at an address of the area. *)
Definition bytes_at (ri : ex_region_info) (a n : Z) : list Z :=
  slice (mm_bytes (mmap ri)) (a - mm_data (mmap ri)) n.

Lemma section_range ri st : section_ok ri st ->
  8 <= mm_data (mmap ri) <= sec_start ri st /\ sec_start ri st <= sec_end ri st /\
  sec_end ri st <= mm_data (mmap ri) + zlen (mm_bytes (mmap ri)) < 2 ^ 64.
Proof. intros []. unfold sec_end, sec_start. lia. Qed.

Lemma plain_load_ok n ri a :
  mm_data (mmap ri) <= a ->
  a + Z.of_nat n <= mm_data (mmap ri) + zlen (mm_bytes (mmap ri)) ->
  load n ri a = Done (le_dec (bytes_at ri a (Z.of_nat n))).
Proof. intros. unfold load. by rewrite rd_le_spec by lia. Qed.

Lemma read_ok n ri a st : section_ok ri st -> (n <= 8)%nat ->
  read_mmap_data n ri a st =
    if (sec_start ri st <=? a) && (a + Z.of_nat n <=? sec_end ri st)
    then Done (le_dec (bytes_at ri a (Z.of_nat n))) else Error (- QUADD_URC_EACCESS).
Proof.
  intros Hs Hn. pose proof (section_range ri st Hs) as (R1 & R2 & R3).
  unfold read_mmap_data, validate_addr. rewrite (so_active _ _ Hs). cbn [negb].
  fold (sec_start ri st). rewrite (u64_small (sec_start ri st)) by lia.
  fold (sec_end ri st). rewrite (u64_small (sec_end ri st)) by lia.
  rewrite (u64_small (sec_end ri st - Z.of_nat n)) by lia.
  destruct (Z.leb_spec (sec_start ri st) a), (Z.ltb_spec a (sec_start ri st)); try lia; [|done].
  destruct (Z.leb_spec (a + Z.of_nat n) (sec_end ri st)),
    (Z.ltb_spec (sec_end ri st - Z.of_nat n) a); try lia; cbn; [|done].
  apply plain_load_ok; lia.
Qed.

Lemma bytes_at_dec_range ri a n : bytes_ok (mm_bytes (mmap ri)) ->
  mm_data (mmap ri) <= a -> 0 <= n ->
  a + n <= mm_data (mmap ri) + zlen (mm_bytes (mmap ri)) ->
  0 <= le_dec (bytes_at ri a n) < 2 ^ (8 * n).
Proof.
  intros Hb Ha Hn Ht. unfold bytes_at.
  pose proof (le_dec_range (slice (mm_bytes (mmap ri)) (a - mm_data (mmap ri)) n)
                (slice_bytes_ok _ _ _ Hb)) as H.
  rewrite zlen_slice in H by lia. exact H.
Qed.

(** Results of reading: a value of [P], or an error code; never a fault. *)
Definition safe {A} (P : A -> Prop) (o : outcome A) : Prop :=
  match o with Done x => P x | Error e => e < 0 | _ => False end.

Lemma safe_bind {A B} (P : A -> Prop) (Q : B -> Prop) o k :
  safe P o -> (forall x, P x -> safe Q (k x)) -> safe Q (x ← o; k x).
Proof. destruct o; cbn; auto; tauto. Qed.

Lemma safe_mono {A} (P Q : A -> Prop) o : safe P o -> (forall x, P x -> Q x) -> safe Q o.
Proof. destruct o; cbn; auto. Qed.

Lemma safe_inv {A} (P : A -> Prop) o : safe P o ->
  (exists x, o = Done x /\ P x) \/ exists e, o = Error e /\ e < 0.
Proof. destruct o; cbn; eauto; tauto. Qed.

Lemma read_safe n ri a st : section_ok ri st -> (n <= 8)%nat ->
  safe (fun x => 0 <= x < 2 ^ (8 * Z.of_nat n) /\ sec_start ri st <= a /\
                 a + Z.of_nat n <= sec_end ri st) (read_mmap_data n ri a st).
Proof.
  intros Hs Hn. rewrite read_ok by done. pose proof (section_range ri st Hs).
  destruct (Z.leb_spec (sec_start ri st) a); cbn [andb]; [|done].
  destruct (Z.leb_spec (a + Z.of_nat n) (sec_end ri st)); [|done].
  cbn. split; [|lia]. apply bytes_at_dec_range; [apply Hs|lia..].
Qed.

(** ** LEB128 *)
Section leb_facts.
Context `{ShiftOps}.

Lemma leb_loop_safe ri st : section_ok ri st -> forall fuel a result shift count,
  0 <= result < 2 ^ 64 ->
  Z.max (sec_start ri st) (sec_end ri st) - a < Z.of_nat fuel \/ a < sec_start ri st ->
  (0 < fuel)%nat -> 0 <= count -> 0 <= shift ->
  safe (fun r => 0 <= leb_bits r < 2 ^ 64 /\ count < leb_count r /\ 0 <= leb_shift r /\
                 sec_start ri st <= a /\ a + (leb_count r - count) <= sec_end ri st)
    (leb_loop fuel ri a st result shift count).
Proof.
  intros Hs. pose proof (section_range ri st Hs) as (R1 & R2 & R3).
  induction fuel as [|fuel IH]; intros a result shift count Hr Hf H0 Hc Hsh; [lia|].
  cbn [leb_loop]. eapply safe_bind; [apply (read_safe 1); [done|lia]|].
  intros byte (Hb & A1 & A2). cbn beta. rewrite (u64_small (a + 1)) by lia.
  assert (0 <= Z.lor result (u64 (int_shl (Z.land byte 127) shift)) < 2 ^ 64) as Hl.
  { apply lor_range; [lia|done|]. apply (u64_range (int_shl _ _)). }
  case_z; [cbn; lia|].
  destruct (Nat.eq_dec fuel 0) as [->|Hf0]; [lia|].
  eapply safe_mono; [apply IH; lia|]. cbn. lia.
Qed.

Lemma sleb_value_range r : 0 <= leb_bits r < 2 ^ 64 -> 0 <= sleb_value r < 2 ^ 64.
Proof.
  intros Hr. unfold sleb_value. case_match; [|done].
  apply lor_range; [lia|done|]. apply (u64_range (Z.shiftl _ _)).
Qed.

(** What both readers promise: no fault, and bytes of the section only. *)
Definition leb_ok (ri : ex_region_info) (a st : Z) (r : Z * Z) : Prop :=
  0 <= r.1 < 2 ^ 64 /\ 0 < r.2 /\ sec_start ri st <= a /\ a + r.2 <= sec_end ri st.

Lemma leb_safe ri a st : section_ok ri st -> ti_length (ex_sec ri st) < 2 ^ 31 ->
  safe (leb_ok ri a st) (dwarf_read_uleb128 ri a st) /\
  safe (leb_ok ri a st) (dwarf_read_sleb128 ri a st).
Proof.
  intros Hs Hl. pose proof (section_range ri st Hs) as (R1 & R2 & R3).
  pose proof (so_len _ _ Hs).
  assert (safe (fun r => 0 <= leb_bits r < 2 ^ 64 /\ 0 < leb_count r /\ 0 <= leb_shift r /\
                 sec_start ri st <= a /\ a + leb_count r <= sec_end ri st)
            (leb_loop (leb_fuel ri st) ri a st 0 0 0)) as Hloop.
  { eapply safe_mono; [apply leb_loop_safe; unfold leb_fuel, sec_end in *; try done; lia|].
    cbn. intros r Hr. replace (leb_count r - 0) with (leb_count r) in Hr by lia. tauto. }
  split; (eapply safe_bind; [exact Hloop|]; intros r (H1 & H2 & H3 & H4 & H5);
    unfold leb_ok, leb_returned; cbn [fst snd safe mret outcome_ret];
    rewrite sw_small by (unfold sec_end in *; lia);
    rewrite u64_small by (unfold sec_end in *; lia)).
  - auto.
  - pose proof (sleb_value_range r H1). auto.
Qed.

(** *** The numbers as byte strings *)

(** The groups of seven bits, and the bytes of a complete number. *)
Fixpoint leb_groups (bs : list Z) : Z :=
  match bs with
  | [] => 0
  | b :: bs => Z.land b 0x7f + 128 * leb_groups bs
  end.

Fixpoint leb_complete (bs : list Z) : Prop :=
  match bs with
  | [] => False
  | [b] => 0 <= b < 128
  | b :: bs => 128 <= b < 256 /\ leb_complete bs
  end.

Fixpoint leb_fold (bs : list Z) (result shift : Z) : Z :=
  match bs with
  | [] => result
  | b :: bs => leb_fold bs (Z.lor result (u64 (int_shl (Z.land b 0x7f) shift))) (shift + 7)
  end.

Lemma bytes_at_cons ri a b bs : mm_data (mmap ri) <= a ->
  bytes_at ri a (1 + zlen bs) = b :: bs ->
  bytes_at ri a 1 = [b] /\ bytes_at ri (a + 1) (zlen bs) = bs.
Proof.
  intros Ha E. unfold bytes_at in *. pose proof (zlen_nonneg bs).
  rewrite slice_app_split in E by lia.
  replace (a + 1 - mm_data (mmap ri)) with (a - mm_data (mmap ri) + 1) by lia.
  set (l1 := slice _ _ 1) in *. set (l2 := slice _ _ (zlen bs)) in *.
  assert (zlen l1 + zlen l2 = 1 + zlen bs) as HL by (rewrite <- zlen_app, E, zlen_cons; done).
  assert (zlen l1 <= 1) by (unfold l1, slice, zlen; rewrite length_take; lia).
  assert (zlen l2 <= zlen bs).
  { unfold l2, slice, zlen in *. rewrite length_take in *. lia. }
  destruct l1 as [|x [|y l1]]; [rewrite zlen_nil in HL; lia|
    |rewrite !zlen_cons in *; pose proof (zlen_nonneg l1); lia].
  cbn in E. by injection E as -> ->.
Qed.

Lemma land_pow7 b : 0 <= b < 256 -> (Z.land b 128 =? 0) = (b <? 128).
Proof.
  intros Hb. assert (forall n, (n < 256)%nat ->
    (Z.land (Z.of_nat n) 128 =? 0) = (Z.of_nat n <? 128)) as H0.
  { intros n Hn. do 256 (destruct n; [reflexivity|]). lia. }
  specialize (H0 (Z.to_nat b)). rewrite Z2Nat.id in H0 by lia. apply H0. lia.
Qed.

Lemma leb_loop_bytes ri st : section_ok ri st -> forall bs fuel a result shift count,
  leb_complete bs -> sec_start ri st <= a -> a + zlen bs <= sec_end ri st ->
  bytes_at ri a (zlen bs) = bs -> zlen bs < Z.of_nat fuel ->
  leb_loop fuel ri a st result shift count =
    Done (Leb (leb_fold bs result shift) (shift + 7 * zlen bs) (last bs 0)
              (count + zlen bs)).
Proof.
  intros Hs. pose proof (section_range ri st Hs) as (R1 & R2 & R3).
  induction bs as [|b bs IH]; intros fuel a result shift count Hc Ha He Hb Hf; [done|].
  rewrite zlen_cons in *. pose proof (zlen_nonneg bs).
  apply bytes_at_cons in Hb as [Hb1 Hb2]; [|lia].
  assert (0 <= b < 256) as Hbr by (destruct bs; cbn in Hc; lia).
  destruct fuel as [|fuel]; [lia|]. cbn [leb_loop].
  unfold read_mmap_data_u8. rewrite read_ok by (done || lia).
  destruct (Z.leb_spec (sec_start ri st) a); [|lia].
  destruct (Z.leb_spec (a + Z.of_nat 1) (sec_end ri st)); [|lia].
  cbn [andb]. change (Z.of_nat 1) with 1. rewrite Hb1. cbn [le_dec]. rewrite Z.mul_0_r, Z.add_0_r.
  cbn [mbind outcome_bind]. rewrite (u64_small (a + 1)) by lia.
  rewrite land_pow7 by done. destruct bs as [|b' bs].
  - cbn in Hc. destruct (Z.ltb_spec b 128); [|lia]. reflexivity.
  - destruct Hc as [Hb' Hc]. destruct (Z.ltb_spec b 128); [lia|].
    rewrite IH by (done || lia). f_equal. f_equal; [lia|lia].
Qed.

Lemma mod_scale x m k r : 0 < m -> 0 < k -> 0 <= r < k ->
  (x * k + r) mod (m * k) = (x mod m) * k + r.
Proof.
  intros Hm Hk Hr. pose proof (Z.mod_pos_bound x m Hm).
  rewrite (Z.mul_comm m k), Z.rem_mul_r by lia.
  rewrite Z.div_add_l, (Z.div_small r k), Z.add_0_r by lia.
  rewrite (Z.add_comm (x * k) r), Z.mod_add, (Z.mod_small r k) by lia. lia.
Qed.

(** One group added to the bits below it. *)
Lemma leb_add_group d s r : 0 <= s <= 28 -> 0 <= r < 2 ^ s -> 0 <= d < 128 ->
  Z.lor r (u64 (int_shl d s)) = u64 (sw 32 (r + d * 2 ^ s)).
Proof.
  intros Hs Hr Hd. unfold int_shl. destruct (Z.ltb_spec s 32); [|lia].
  rewrite Z.shiftl_mul_pow2 by lia.
  assert (forall e, 0 <= e < 2 ^ s -> sw 32 (d * 2 ^ s + e) = sw (32 - s) d * 2 ^ s + e) as Hsw.
  { intros e He. unfold sw. assert (2 ^ (32 - 1) = 2 ^ (32 - s - 1) * 2 ^ s) as ->
      by (rewrite <- Z.pow_add_r by lia; f_equal; lia).
    assert (2 ^ 32 = 2 ^ (32 - s) * 2 ^ s) as -> by (rewrite <- Z.pow_add_r by lia; f_equal; lia).
    replace (d * 2 ^ s + e + 2 ^ (32 - s - 1) * 2 ^ s)
      with ((d + 2 ^ (32 - s - 1)) * 2 ^ s + e) by lia.
    rewrite mod_scale by lia. lia. }
  pose proof (Hsw 0 ltac:(lia)) as E0. rewrite !Z.add_0_r in E0. rewrite E0.
  rewrite (Z.add_comm r), Hsw by done. set (y := sw (32 - s) d).
  assert (forall e, 0 <= e < 2 ^ s -> u64 (y * 2 ^ s + e) = (y mod 2 ^ (64 - s)) * 2 ^ s + e) as Hu.
  { intros e He. unfold uw. assert (2 ^ 64 = 2 ^ (64 - s) * 2 ^ s) as ->
      by (rewrite <- Z.pow_add_r by lia; f_equal; lia). apply mod_scale; lia. }
  pose proof (Hu 0 ltac:(lia)) as E1. rewrite !Z.add_0_r in E1. rewrite E1, Hu by done.
  rewrite Z.lor_comm, <- Z.shiftl_mul_pow2 by lia. rewrite lor_shiftl_add by lia.
  rewrite Z.shiftl_mul_pow2 by lia. lia.
Qed.

Lemma leb_groups_range bs : 0 <= leb_groups bs < 2 ^ (7 * zlen bs).
Proof.
  induction bs as [|b bs IH]; [by vm_compute|]. cbn [leb_groups]. rewrite zlen_cons.
  pose proof (zlen_nonneg bs). change 127 with (Z.ones 7).
  rewrite Z.land_ones by lia. pose proof (Z.mod_pos_bound b (2 ^ 7) ltac:(lia)).
  replace (7 * (1 + zlen bs)) with (7 + 7 * zlen bs) by lia. rewrite Z.pow_add_r by lia. lia.
Qed.

(** Up to five bytes, the loop collects the low 32 bits and extends their sign. *)
Lemma leb_fold_groups bs : forall r s, bs <> [] -> 0 <= s -> s + 7 * zlen bs <= 35 ->
  0 <= r < 2 ^ s -> leb_fold bs r s = u64 (sw 32 (r + leb_groups bs * 2 ^ s)).
Proof.
  induction bs as [|b bs IH]; intros r s Hne Hs Hl Hr; [done|].
  rewrite zlen_cons in Hl. pose proof (zlen_nonneg bs). cbn [leb_fold leb_groups].
  assert (0 <= Z.land b 127 < 128) as Hd.
  { change 127 with (Z.ones 7). rewrite Z.land_ones by lia. apply (Z.mod_pos_bound b (2 ^ 7)). lia. }
  rewrite leb_add_group by (lia || done). set (d := Z.land b 127) in *.
  destruct bs as [|b' bs]; [cbn [leb_fold leb_groups]; do 2 f_equal; lia|].
  assert (7 <= 7 * zlen (b' :: bs)) by (rewrite zlen_cons; pose proof (zlen_nonneg bs); lia).
  assert (2 ^ (s + 7) = 128 * 2 ^ s) as Ep by (rewrite Z.pow_add_r by lia; lia).
  assert (2 ^ (s + 7) <= 2 ^ 28) by (apply Z.pow_le_mono_r; lia).
  assert (0 <= r + d * 2 ^ s < 2 ^ (s + 7)) by nia.
  rewrite sw_small, u64_small by lia. rewrite IH by (done || lia).
  rewrite Ep. do 2 f_equal. lia.
Qed.

(** *** The standard encodings, of at most [n] bytes *)

Fixpoint uleb_enc (n : nat) (v : Z) : list Z :=
  match n with
  | O => []
  | S n => if v <? 128 then [v] else (128 + v mod 128) :: uleb_enc n (v / 128)
  end.

Fixpoint sleb_enc (n : nat) (v : Z) : list Z :=
  match n with
  | O => []
  | S n =>
      if (- 64 <=? v) && (v <? 64) then [v mod 128]
      else (128 + v mod 128) :: sleb_enc n (v / 128)
  end.

Lemma land7_small b : 0 <= b < 128 -> Z.land b 127 = b.
Proof. intros. change 127 with (Z.ones 7). rewrite Z.land_ones by lia. by apply Z.mod_small. Qed.
Lemma land7_high b : 0 <= b < 128 -> Z.land (128 + b) 127 = b.
Proof.
  intros. change 127 with (Z.ones 7). rewrite Z.land_ones by lia. change (2 ^ 7) with 128. dlia.
Qed.

Lemma uleb_enc_spec n : forall v, 0 <= v < 2 ^ (7 * Z.of_nat n) -> (0 < n)%nat ->
  leb_complete (uleb_enc n v) /\ zlen (uleb_enc n v) <= Z.of_nat n /\
  leb_groups (uleb_enc n v) = v.
Proof.
  induction n as [|n IH]; intros v Hv Hn; [lia|]. cbn [uleb_enc].
  destruct (Z.ltb_spec v 128).
  { cbn. rewrite land7_small by lia. unfold zlen. cbn. lia. }
  assert (2 ^ (7 * Z.of_nat (S n)) = 128 * 2 ^ (7 * Z.of_nat n)) as Ep
    by (replace (7 * Z.of_nat (S n)) with (7 + 7 * Z.of_nat n) by lia; rewrite Z.pow_add_r; lia).
  destruct n as [|n]; [cbn in *; lia|].
  pose proof (Z.mod_pos_bound v 128 ltac:(lia)).
  destruct (IH (v / 128)) as (I1 & I2 & I3); [split; dlia|lia|].
  split; [|split].
  - cbn [leb_complete]. destruct (uleb_enc (S n) (v / 128)); [done|]. split; [lia|done].
  - rewrite zlen_cons. lia.
  - cbn [leb_groups]. rewrite land7_high, I3 by lia. dlia.
Qed.

Lemma last_cons (b : Z) bs : bs <> [] -> last (b :: bs) 0 = last bs 0.
Proof. by destruct bs. Qed.

Lemma sleb_enc_spec n : forall v, - 2 ^ (7 * Z.of_nat n - 1) <= v < 2 ^ (7 * Z.of_nat n - 1) ->
  (0 < n)%nat ->
  let bs := sleb_enc n v in
  leb_complete bs /\ zlen bs <= Z.of_nat n /\
  - 2 ^ (7 * zlen bs - 1) <= v < 2 ^ (7 * zlen bs - 1) /\
  leb_groups bs = v mod 2 ^ (7 * zlen bs) /\
  (Z.land (last bs 0) 64 =? 0) = (0 <=? v).
Proof.
  induction n as [|n IH]; intros v Hv Hn; [lia|]. cbn [sleb_enc].
  pose proof (Z.mod_pos_bound v 128 ltac:(lia)) as Hm.
  destruct ((- 64 <=? v) && (v <? 64)) eqn:E.
  { apply andb_true_iff in E as [E1 E2]. cbv zeta. change (zlen [v mod 128]) with 1.
    change (2 ^ (7 * 1)) with 128. change (2 ^ (7 * 1 - 1)) with 64.
    cbn [leb_complete leb_groups last]. rewrite land7_small by lia. split_and!; try lia.
    assert (forall k, (k < 128)%nat -> (Z.land (Z.of_nat k) 64 =? 0) = (Z.of_nat k <? 64)) as H0.
    { intros k Hk. do 128 (destruct k; [reflexivity|]). lia. }
    specialize (H0 (Z.to_nat (v mod 128))). rewrite Z2Nat.id in H0 by lia. rewrite H0 by lia.
    destruct (Z.leb_spec 0 v), (Z.ltb_spec (v mod 128) 64); try done; dlia. }
  destruct n as [|n].
  { change (7 * Z.of_nat 1 - 1) with 6 in Hv. change (2 ^ 6) with 64 in Hv.
    apply andb_false_iff in E as [E|E]; lia. }
  assert (2 ^ (7 * Z.of_nat (S (S n)) - 1) = 128 * 2 ^ (7 * Z.of_nat (S n) - 1)) as Ep.
  { replace (7 * Z.of_nat (S (S n)) - 1) with (7 + (7 * Z.of_nat (S n) - 1)) by lia.
    rewrite Z.pow_add_r; lia. }
  destruct (IH (v / 128)) as (I1 & I2 & I3 & I4 & I5); [split; dlia|lia|]. cbv zeta in *.
  set (bs := sleb_enc (S n) (v / 128)) in *.
  assert (bs <> []) as Hne by (by destruct bs).
  assert (1 <= zlen bs) as Hl by (destruct bs; [done|rewrite zlen_cons; pose proof (zlen_nonneg bs); lia]).
  rewrite zlen_cons, last_cons, I5 by done.
  assert (2 ^ (7 * (1 + zlen bs) - 1) = 128 * 2 ^ (7 * zlen bs - 1)) as E1.
  { replace (7 * (1 + zlen bs) - 1) with (7 + (7 * zlen bs - 1)) by lia. rewrite Z.pow_add_r; lia. }
  assert (2 ^ (7 * (1 + zlen bs)) = 128 * 2 ^ (7 * zlen bs)) as E2.
  { replace (7 * (1 + zlen bs)) with (7 + 7 * zlen bs) by lia. rewrite Z.pow_add_r; lia. }
  assert (0 < 2 ^ (7 * zlen bs)) by (apply Z.pow_pos_nonneg; lia).
  split_and!.
  - cbn [leb_complete]. destruct bs; [done|]. split; [lia|done].
  - lia.
  - rewrite E1. dlia.
  - rewrite E1. dlia.
  - cbn [leb_groups]. rewrite land7_high, I4, E2 by lia. rewrite Z.rem_mul_r by lia. lia.
  - destruct (Z.leb_spec 0 (v / 128)), (Z.leb_spec 0 v); try done; dlia.
Qed.

(** The sign bits that [-1L << shift] adds. *)
Lemma sleb_sign m v : 0 <= m <= 63 -> - 2 ^ m <= v < 0 ->
  Z.lor (v mod 2 ^ m) (u64 (Z.shiftl (-1) m)) = u64 v.
Proof.
  intros Hm Hv. rewrite Z.shiftl_mul_pow2 by lia.
  assert (2 ^ 64 = 2 ^ (64 - m) * 2 ^ m) as Ep by (rewrite <- Z.pow_add_r by lia; f_equal; lia).
  assert (0 < 2 ^ (64 - m)) by (apply Z.pow_pos_nonneg; lia).
  assert (0 < 2 ^ m) by (apply Z.pow_pos_nonneg; lia).
  assert (u64 (-1 * 2 ^ m) = (2 ^ (64 - m) - 1) * 2 ^ m) as ->.
  { unfold uw. symmetry. apply Z.mod_unique with (q := -1); [left; nia|]. rewrite Ep. lia. }
  assert (v mod 2 ^ m = v + 2 ^ m) as ->.
  { symmetry. apply Z.mod_unique with (q := -1); [left; lia|]. lia. }
  rewrite Z.lor_comm, <- Z.shiftl_mul_pow2, lor_shiftl_add by lia.
  unfold uw. apply Z.mod_unique with (q := -1); [left; nia|]. rewrite Ep. lia.
Qed.

Lemma sw_mod k v : 32 <= k -> sw 32 (v mod 2 ^ k) = sw 32 v.
Proof.
  intros Hk. unfold sw.
  assert (2 ^ k = 2 ^ (k - 32) * 2 ^ 32) as Ep by (rewrite <- Z.pow_add_r by lia; f_equal; lia).
  assert (v mod 2 ^ k = v + (- (v / 2 ^ k) * 2 ^ (k - 32)) * 2 ^ 32) as ->.
  { pose proof (Z.div_mod v (2 ^ k) ltac:(lia)). rewrite Ep in *. nia. }
  rewrite <- Z.add_assoc, (Z.add_comm (_ * 2 ^ 32)), Z.add_assoc, Z.mod_add by lia. done.
Qed.

(** The encoded number [bs] lies in the section at [a]. *)
Definition holds_at (ri : ex_region_info) (st a : Z) (bs : list Z) : Prop :=
  sec_start ri st <= a /\ a + zlen bs <= sec_end ri st /\ bytes_at ri a (zlen bs) = bs.

Lemma leb_loop_holds ri st a bs : section_ok ri st -> ti_length (ex_sec ri st) < 2 ^ 31 ->
  holds_at ri st a bs -> leb_complete bs -> zlen bs <= 5 ->
  leb_loop (leb_fuel ri st) ri a st 0 0 0 =
    Done (Leb (u64 (sw 32 (leb_groups bs))) (7 * zlen bs) (last bs 0) (zlen bs)) /\
  1 <= zlen bs.
Proof.
  intros Hs Hl (H1 & H2 & H3) Hc Hn. pose proof (section_range ri st Hs) as (_ & R2 & _).
  assert (bs <> []) as Hne by (by destruct bs).
  assert (1 <= zlen bs)
    by (destruct bs; [done|rewrite zlen_cons; pose proof (zlen_nonneg bs); lia]).
  split; [|done]. rewrite (leb_loop_bytes ri st Hs bs); try done.
  - rewrite leb_fold_groups by (done || lia). do 2 f_equal. by rewrite Z.mul_1_r.
  - unfold leb_fuel, sec_end in *. lia.
Qed.

(** An unsigned number of at most five bytes. *)
Lemma uleb_read ri st a v : section_ok ri st -> ti_length (ex_sec ri st) < 2 ^ 31 ->
  0 <= v < 2 ^ 35 -> holds_at ri st a (uleb_enc 5 v) ->
  dwarf_read_uleb128 ri a st = Done (u64 (sw 32 v), zlen (uleb_enc 5 v)) /\
  1 <= zlen (uleb_enc 5 v) <= 5.
Proof.
  intros Hs Hl Hv Hh. destruct (uleb_enc_spec 5 v Hv ltac:(lia)) as (E1 & E2 & E3).
  destruct (leb_loop_holds ri st a _ Hs Hl Hh E1 E2) as [Ebits H1].
  unfold dwarf_read_uleb128. rewrite Ebits. cbn [mbind outcome_bind].
  unfold leb_returned. cbn [leb_bits leb_count].
  rewrite (sw_small 32 (zlen _)), (u64_small (zlen _)), E3 by lia. split; [done|lia].
Qed.

(** A signed number of at most five bytes that fits an int. *)
Lemma sleb_read ri st a v : section_ok ri st -> ti_length (ex_sec ri st) < 2 ^ 31 ->
  - 2 ^ 31 <= v < 2 ^ 31 -> holds_at ri st a (sleb_enc 5 v) ->
  dwarf_read_sleb128 ri a st = Done (u64 v, zlen (sleb_enc 5 v)) /\
  1 <= zlen (sleb_enc 5 v) <= 5.
Proof.
  intros Hs Hl Hv Hh.
  destruct (sleb_enc_spec 5 v ltac:(change (7 * Z.of_nat 5 - 1) with 34; lia) ltac:(lia)) as (E1 & E2 & E3 & E4 & E5).
  set (bs := sleb_enc 5 v) in *.
  destruct (leb_loop_holds ri st a _ Hs Hl Hh E1 E2) as [Ebits H1].
  unfold dwarf_read_sleb128. rewrite Ebits. cbn [mbind outcome_bind].
  unfold leb_returned, sleb_value. cbn [leb_bits leb_count leb_shift leb_last].
  rewrite (sw_small 32 (zlen bs)), (u64_small (zlen bs)) by lia. split; [|lia].
  rewrite E5, E4. do 2 f_equal.
  destruct (Z.ltb_spec (7 * zlen bs) 64); [|lia]. cbn [andb].
  assert (zlen bs <= 4 \/ zlen bs = 5) as [H4|H5] by lia.
  - assert (2 ^ (7 * zlen bs) <= 2 ^ 28) by (apply Z.pow_le_mono_r; lia).
    pose proof (Z.mod_pos_bound v (2 ^ (7 * zlen bs)) ltac:(apply Z.pow_pos_nonneg; lia)).
    assert (2 ^ (7 * zlen bs) = 2 * 2 ^ (7 * zlen bs - 1)) as Ep.
    { replace (7 * zlen bs) with (1 + (7 * zlen bs - 1)) at 1 by lia. rewrite Z.pow_add_r; lia. }
    rewrite sw_small, u64_small by lia.
    destruct (Z.leb_spec 0 v); cbn [negb]; [rewrite Z.mod_small, u64_small by lia; done|].
    apply sleb_sign; lia.
  - rewrite H5, sw_mod, sw_small by lia. change (7 * 5) with 35.
    destruct (Z.leb_spec 0 v); cbn [negb]; [done|].
    rewrite <- (sleb_sign 35 v) by lia. rewrite <- Z.lor_assoc, Z.lor_diag. done.
Qed.

(** LEB128 numbers are read back, in bytes of their section and with their
    lengths, when they fit an int. An unsigned number from 2^31 on is not: the
    shifted groups are ints, and the sign of the last one fills the upper half
    of the result. *)
Theorem dwarf_read_leb128_spec ri st a : section_ok ri st -> ti_length (ex_sec ri st) < 2 ^ 31 ->
  (forall v, 0 <= v < 2 ^ 32 -> holds_at ri st a (uleb_enc 5 v) ->
     dwarf_read_uleb128 ri a st =
       Done (if v <? 2 ^ 31 then v else 2 ^ 64 - 2 ^ 32 + v, zlen (uleb_enc 5 v))) /\
  (forall v, - 2 ^ 31 <= v < 2 ^ 31 -> holds_at ri st a (sleb_enc 5 v) ->
     dwarf_read_sleb128 ri a st = Done (u64 v, zlen (sleb_enc 5 v))).
Proof.
  intros Hs Hl. split; intros v Hv Hh.
  - destruct (uleb_read ri st a v Hs Hl ltac:(lia) Hh) as [-> _]. do 2 f_equal.
    destruct (Z.ltb_spec v (2 ^ 31)); [rewrite sw_small, u64_small by lia; done|].
    unfold uw, sw. rewrite <- (Z.mod_unique (v + 2 ^ (32 - 1)) (2 ^ 32) 1 (v - 2 ^ 31)) by lia.
    symmetry. apply Z.mod_unique with (q := -1); lia.
  - by destruct (sleb_read ri st a v Hs Hl Hv Hh).
Qed.

Lemma holds_at_app ri st a l1 l2 : mm_data (mmap ri) <= sec_start ri st ->
  holds_at ri st a (l1 ++ l2) -> holds_at ri st a l1 /\ holds_at ri st (a + zlen l1) l2.
Proof.
  intros Hd (H1 & H2 & H3). rewrite zlen_app in *.
  pose proof (zlen_nonneg l1). pose proof (zlen_nonneg l2).
  unfold bytes_at in H3. rewrite slice_app_split in H3 by lia.
  set (m := mm_bytes (mmap ri)) in *. set (o := a - mm_data (mmap ri)) in *.
  assert (zlen (slice m o (zlen l1)) <= zlen l1)
    by (unfold zlen at 1, slice; rewrite length_take; lia).
  assert (zlen (slice m (o + zlen l1) (zlen l2)) <= zlen l2)
    by (unfold zlen at 1, slice; rewrite length_take; lia).
  assert (zlen (slice m o (zlen l1)) + zlen (slice m (o + zlen l1) (zlen l2)) = zlen l1 + zlen l2)
    as HL by (rewrite <- !zlen_app; by f_equal).
  apply app_inj_1 in H3 as [E1 E2]; [|unfold zlen in *; lia].
  split; (split; [lia|split; [lia|]]); unfold bytes_at; [done|].
  rewrite <- E2 at 2. f_equal. unfold o. lia.
Qed.

Lemma read_holds n ri st a bs : section_ok ri st -> (n <= 8)%nat -> holds_at ri st a bs ->
  length bs = n -> read_mmap_data n ri a st = Done (le_dec bs).
Proof.
  intros Hs Hn (H1 & H2 & H3) Hl. rewrite read_ok by done.
  assert (zlen bs = Z.of_nat n) as Hz by (unfold zlen; lia). rewrite Hz in *.
  destruct (Z.leb_spec (sec_start ri st) a); [|lia].
  destruct (Z.leb_spec (a + Z.of_nat n) (sec_end ri st)); [|lia]. cbn [andb]. by rewrite H3.
Qed.

(** ** Encoded pointers *)

Lemma read_ptr_safe ri sz a st err : section_ok ri st -> err < 0 ->
  safe (fun x => 0 <= x < 2 ^ 64) (read_ptr ri sz a st err).
Proof.
  intros Hs He. unfold read_ptr. repeat case_z; try done;
    (eapply safe_mono; [apply read_safe; [done|lia]|]; cbn; lia).
Qed.

(** Every section of a region is in the area, and of moderate size. *)
Record region_ok (ri : ex_region_info) : Prop := {
  ro_sections st : 0 <= st < 6 -> section_ok ri st;
  ro_lengths st : 0 <= st < 6 -> ti_length (ex_sec ri st) < 2 ^ 31;
}.

Lemma section_loop_range ri addr n : forall i, 0 <= i ->
  i <= section_loop n i ri addr < i + Z.of_nat n \/
  section_loop n i ri addr = - QUADD_URC_IDX_NOT_FOUND.
Proof.
  induction n as [|n IH]; intros i Hi; cbn [section_loop]; [by right|].
  case_match; [left; lia|]. destruct (IH (i + 1) ltac:(lia)); [left; lia|by right].
Qed.

Lemma section_index_range ri addr :
  0 <= get_section_index_by_address ri addr < 6 \/
  get_section_index_by_address ri addr = - QUADD_URC_IDX_NOT_FOUND.
Proof. apply (section_loop_range ri addr 6 0). lia. Qed.

(** The section found contains the address. *)
Lemma section_loop_found ri addr n : forall i, 0 <= i -> 0 <= section_loop n i ri addr ->
  let ti := ex_sec ri (section_loop n i ri addr) in
  ti_addr ti <= addr < u64 (ti_addr ti + ti_length ti).
Proof.
  induction n as [|n IH]; intros i Hi H0; cbn [section_loop] in *; [by cbn in H0|].
  case_match eqn:E; [cbv zeta; lia|]. apply IH; [lia|done].
Qed.

Lemma encoded_raw_safe ri a fmt st : section_ok ri st -> ti_length (ex_sec ri st) < 2 ^ 31 ->
  safe (fun r => 0 <= r.1 < 2 ^ 64 /\ 0 <= r.2 < 2 ^ 31) (encoded_raw ri a fmt st).
Proof.
  intros Hs Hl. destruct (leb_safe ri a st Hs Hl) as [Hu Hsl]. unfold encoded_raw.
  assert (forall r, leb_ok ri a st r -> 0 <= r.1 < 2 ^ 64 /\ 0 <= r.2 < 2 ^ 31) as Hleb.
  { intros r (H1 & H2 & H3 & H4). unfold sec_end in H4. lia. }
  repeat case_match; try done.
  - eapply safe_bind with (P := fun x => 0 <= x < 2 ^ 64); [|cbn; lia].
    eapply safe_bind; [apply read_safe; [done|lia]|]. intros x _. exact (u64_range (sw 16 x)).
  - eapply safe_bind with (P := fun x => 0 <= x < 2 ^ 64); [|cbn; lia].
    eapply safe_bind; [apply read_safe; [done|lia]|]. intros x _. exact (u64_range (sw 32 x)).
  - eapply safe_bind; [apply (read_safe 8); [done|lia]|].
    intros x [Hx _]. change (8 * Z.of_nat 8) with 64 in Hx. cbn. lia.
  - eapply safe_bind; [exact Hu|]. intros [x n] Hx. exact (Hleb _ Hx).
  - eapply safe_bind; [exact Hsl|]. intros [x n] Hx. exact (Hleb _ Hx).
Qed.

Lemma encoded_indirect_safe ri sz res enc : region_ok ri -> 0 <= res < 2 ^ 64 ->
  safe (fun x => 0 <= x < 2 ^ 64) (encoded_indirect ri sz res enc).
Proof.
  intros Hr Hres. unfold encoded_indirect. repeat case_match; try done.
  destruct (section_index_range ri res) as [Hi|Hi]; [|rewrite Hi in *; done].
  apply read_ptr_safe; [by apply ro_sections|done].
Qed.

(** Whatever the encoding byte, a value or an error comes back. *)
Lemma encoded_value_safe ri sz a base enc st : region_ok ri -> 0 <= st < 6 -> sz = 4 \/ sz = 8 ->
  safe (fun r => 0 <= r.1 < 2 ^ 64 /\ 0 <= r.2 < 2 ^ 31)
    (dwarf_read_encoded_value ri sz a base enc st).
Proof.
  intros Hr Hst Hsz. pose proof (ro_sections _ Hr st Hst) as Hs.
  unfold dwarf_read_encoded_value. repeat case_match; try (cbn; lia).
  - eapply safe_bind; [by apply read_ptr_safe|]. intros x Hx. cbn in *. lia.
  - eapply safe_bind; [by apply read_ptr_safe|]. intros x Hx. cbn in *. lia.
  - eapply safe_bind; [apply encoded_raw_safe; [done|by apply ro_lengths]|].
    intros [stmp count] [R1 R2]. cbn [fst snd] in *.
    eapply safe_bind with (P := fun x => 0 <= x < 2 ^ 64).
    { unfold encoded_base. repeat case_match; try done. exact (u64_range (base + stmp)). }
    intros res Hres. eapply safe_bind; [by apply encoded_indirect_safe|].
    intros val Hval. cbn in *. rewrite sw_small by lia. lia.
Qed.

(** Following an indirect pointer never works. The pointer is an address of
    the process, found in the section that covers it by addresses of the
    process, but the load compares it with the addresses of the copy: when the
    process lies below the copy, as user memory does, every encoded value that
    leads into a loaded section ends in -EACCESS. *)
Theorem indirect_value_unreadable ri sz a base enc st stmp count res :
  region_ok ri -> sz = 4 \/ sz = 8 ->
  enc <> DW_EH_PE_omit -> enc <> DW_EH_PE_aligned ->
  Z.land enc 0x0f <> DW_EH_PE_absptr -> Z.land enc DW_EH_PE_indirect <> 0 ->
  encoded_raw ri a (Z.land enc 0x0f) st = Done (stmp, count) ->
  encoded_base base stmp (Z.land enc 0x70) = Done res -> res <> 0 ->
  0 <= get_section_index_by_address ri res ->
  (forall i, 0 <= i < 6 -> 0 <= ti_addr (ex_sec ri i) /\
     ti_addr (ex_sec ri i) + ti_length (ex_sec ri i) <= mm_data (mmap ri)) ->
  dwarf_read_encoded_value ri sz a base enc st = Error (- QUADD_URC_EACCESS).
Proof.
  intros Hr Hsz He1 He2 He3 He4 Hraw Hbase Hres Hidx Huser.
  unfold dwarf_read_encoded_value.
  destruct (Z.eqb_spec enc DW_EH_PE_omit), (Z.eqb_spec enc DW_EH_PE_aligned),
    (Z.eqb_spec (Z.land enc 15) DW_EH_PE_absptr); try done.
  rewrite Hraw. cbn [mbind outcome_bind]. rewrite Hbase. cbn [mbind outcome_bind].
  unfold encoded_indirect. destruct (Z.eqb_spec res 0); [done|].
  destruct (Z.eqb_spec (Z.land enc DW_EH_PE_indirect) 0); [done|].
  destruct (section_index_range ri res) as [Hi|Hi]; [|rewrite Hi in Hidx; done].
  pose proof (section_loop_found ri res 6 0 ltac:(lia) Hidx) as Hin. cbv zeta in Hin.
  change (section_loop 6 0 ri res) with (get_section_index_by_address ri res) in Hin.
  set (i := get_section_index_by_address ri res) in *.
  destruct (Z.leb_spec 0 i); [|lia].
  pose proof (ro_sections _ Hr i Hi) as Hs. pose proof (section_range ri i Hs) as (R1 & R2 & R3).
  pose proof (Huser i Hi). pose proof (so_len _ _ Hs). rewrite u64_small in Hin by lia.
  unfold read_ptr, read_mmap_data_u32, read_mmap_data_u64.
  destruct Hsz as [-> | ->]; cbn [Z.eqb Pos.eqb]; rewrite read_ok by (done || lia);
    (destruct (Z.leb_spec (sec_start ri i) res); [lia|done]).
Qed.
End leb_facts.

(** ** An example region

    A process at 0x400000 whose [.eh_frame] and [.eh_frame_hdr] are copied, one
    after the other, into kernel memory. *)

Definition example_base : Z := 0xffffff8000000000.
Definition example_region (frame hdr : list Z) : ex_region_info :=
  Region 0x400000 0x500000
    (fun st =>
       if st =? QUADD_SEC_TYPE_EH_FRAME then Extab 0x450000 (zlen frame) 0 0 0
       else if st =? QUADD_SEC_TYPE_EH_FRAME_HDR then Extab 0x440000 (zlen hdr) (zlen frame) 0 0
       else Extab 0 0 0 0 0)
    (MmapArea true example_base (frame ++ hdr)).

Definition byte_bools (l : list Z) : bool := forallb (fun b => (0 <=? b) && (b <? 256)) l.

Lemma example_region_ok frame hdr : byte_bools (frame ++ hdr) = true ->
  zlen (frame ++ hdr) < 2 ^ 31 -> region_ok (example_region frame hdr).
Proof.
  intros Hb Hl. rewrite zlen_app in Hl. pose proof (zlen_nonneg frame). pose proof (zlen_nonneg hdr).
  split; intros st Hst.
  - split; cbn -[Z.add zlen]; rewrite ?zlen_app; unfold example_base; try lia;
      try (by apply bytes_ok_dec); try done; repeat case_match; cbn; lia.
  - cbn. repeat case_match; cbn; lia.
Qed.

Definition holds_bool (ri : ex_region_info) (st a : Z) (bs : list Z) : bool :=
  (sec_start ri st <=? a) && (a + zlen bs <=? sec_end ri st) &&
  bool_decide (bytes_at ri a (zlen bs) = bs).
Lemma holds_dec ri st a bs : holds_bool ri st a bs = true -> holds_at ri st a bs.
Proof.
  unfold holds_bool, holds_at. rewrite !andb_true_iff, bool_decide_eq_true.
  intros [[H1 H2] H3]. repeat split; [lia..|done].
Qed.

(** Shifts that the C standard leaves undefined give 0 in the examples. *)
Definition example_shifts : ShiftOps := {| shl_over _ _ := 0 |}.

(** The number 2^31 comes out as 2^64 - 2^31, and -3 as itself. *)
Lemma dwarf_read_leb128_spec_witness :
  let ri := example_region (uleb_enc 5 (2 ^ 31) ++ sleb_enc 5 (-3)) [] in
  @dwarf_read_uleb128 example_shifts ri example_base 2 = Done (2 ^ 64 - 2 ^ 31, 5) /\
  @dwarf_read_sleb128 example_shifts ri (example_base + 5) 2 = Done (2 ^ 64 - 3, 1).
Proof.
  intros ri.
  assert (region_ok ri) as Hr by (apply example_region_ok; reflexivity).
  assert (forall a, _) as Hspec by (intros a; apply (@dwarf_read_leb128_spec example_shifts ri 2 a);
    [apply Hr; lia|apply (ro_lengths _ Hr); lia]).
  split.
  - rewrite (proj1 (Hspec example_base) (2 ^ 31)); [done|lia|by apply holds_dec].
  - rewrite (proj2 (Hspec (example_base + 5)) (-3)); [done|lia|by apply holds_dec].
Defined.

(** An indirect four-byte pointer to 0x450000, the first byte of [.eh_frame]. *)
Lemma indirect_value_unreadable_witness :
  let ri := example_region [0; 0; 0x45; 0] [] in
  @dwarf_read_encoded_value example_shifts ri 8 example_base 0
      (DW_EH_PE_indirect + DW_EH_PE_udata4) 2 = Error (- QUADD_URC_EACCESS).
Proof.
  intros ri.
  assert (region_ok ri) as Hr by (apply example_region_ok; reflexivity).
  eapply (@indirect_value_unreadable example_shifts ri 8 example_base 0 _ 2 0x450000 4 0x450000);
    [exact Hr|by right|try done; reflexivity..|].
  intros i Hi. assert (i = 0 \/ i = 1 \/ i = 2 \/ i = 3 \/ i = 4 \/ i = 5) as Hc by lia.
  repeat destruct Hc as [->|Hc]; subst; by vm_compute.
Defined.
