(* ===== verification/DwarfCfa.v ===== *)
(** * Call frame instructions (dwarf_unwind.c, 427-484, 575-598 and 776-1160)

    The interpreter of the byte code that computes a row of the unwind table:
    where the caller's registers are, and the canonical frame address. It changes
    the frame's state as it goes, also when it then fails, so every operation
    returns the state it leaves. *)

From S2P Require Import Prelude DwarfRead.

(** ** Data *)

Inductive dw_where :=
  | DW_WHERE_UNDEF | DW_WHERE_SAME | DW_WHERE_CFAREL | DW_WHERE_REG
  | DW_WHERE_EXPR | DW_WHERE_VAL_OFFSET | DW_WHERE_VAL_EXPR.
Inductive dw_cfa_how := DW_CFA_UNSET | DW_CFA_REG_OFFSET | DW_CFA_EXP.

(** The union dw_loc is its 64 bits. *)
Record reg_info := RegInfo { where_ : dw_where; loc : Z }.

Record regs_state := Regs {
  reg : list reg_info;
  cfa_offset : Z;
  cfa_register : Z;
  cfa_expr : Z;
  cfa_expr_len : Z;
  cfa_how : dw_cfa_how;
}.

Record dw_cie := Cie {
  cie_offset : Z; cie_length : Z; aug_string : Z; aug_size : Z;
  fde_encoding : Z; lsda_encoding : Z;
  code_align_factor : Z; data_align_factor : Z;
  initial_insn_len : Z; initial_insn : Z;
  z_aug : bool; retaddr_reg : Z; personality : Z;
}.

Definition DW_MAX_RS_STACK_DEPTH : Z := 8.

(** What the interpreter changes: its position, the frame's pc and rules, and
    the stack of remembered rules of the processor. *)
Record cfa_state := CfaState {
  c_insn : Z;
  sf_pc : Z;
  sf_rs : regs_state;
  depth : Z;
  rs_stack : list regs_state;
}.

Definition set_c_insn (a : Z) (s : cfa_state) : cfa_state :=
  CfaState a (sf_pc s) (sf_rs s) (depth s) (rs_stack s).
Definition set_sf_pc (p : Z) (s : cfa_state) : cfa_state :=
  CfaState (c_insn s) p (sf_rs s) (depth s) (rs_stack s).
Definition set_sf_rs (rs : regs_state) (s : cfa_state) : cfa_state :=
  CfaState (c_insn s) (sf_pc s) rs (depth s) (rs_stack s).
Definition set_stack (d : Z) (l : list regs_state) (s : cfa_state) : cfa_state :=
  CfaState (c_insn s) (sf_pc s) (sf_rs s) d l.

Definition set_cfa_offset (o : Z) (rs : regs_state) : regs_state :=
  Regs (reg rs) o (cfa_register rs) (cfa_expr rs) (cfa_expr_len rs) (cfa_how rs).
Definition set_cfa_register (r : Z) (rs : regs_state) : regs_state :=
  Regs (reg rs) (cfa_offset rs) r (cfa_expr rs) (cfa_expr_len rs) (cfa_how rs).
Definition set_cfa_expr (e n : Z) (rs : regs_state) : regs_state :=
  Regs (reg rs) (cfa_offset rs) (cfa_register rs) e n DW_CFA_EXP.
Definition set_cfa_how (h : dw_cfa_how) (rs : regs_state) : regs_state :=
  Regs (reg rs) (cfa_offset rs) (cfa_register rs) (cfa_expr rs) (cfa_expr_len rs) h.
(** rs->reg[n] = r, for whatever int [n] is: a store outside the array is a
    [Fault]. *)
Definition put_reg (n : Z) (r : reg_info) (rs : regs_state) : regs_state :=
  Regs (<[Z.to_nat n := r]> (reg rs)) (cfa_offset rs) (cfa_register rs) (cfa_expr rs)
    (cfa_expr_len rs) (cfa_how rs).
Definition set_reg (n : Z) (r : reg_info) (rs : regs_state) : outcome regs_state :=
  if (0 <=? n) && (n <? zlen (reg rs)) then Done (put_reg n r rs) else Fault.

(** ** Rules *)

(** [regnum] is an int compared with a size_t. *)
Definition validate_regnum (regnum : Z) : bool := u64 regnum <? Z.of_nat QUADD_NUM_REGS.

(** The number comes as an unsigned long. *)
Definition set_rule_offset (regnum : Z) (w : dw_where) (offset : Z) (rs : regs_state)
    : outcome regs_state :=
  let regnum := sw 32 regnum in
  if negb (validate_regnum regnum) then Done rs else set_reg regnum (RegInfo w offset) rs.
Definition set_rule_exp (regnum : Z) (w : dw_where) (exp : Z) (rs : regs_state)
    : outcome regs_state :=
  let regnum := sw 32 regnum in
  if negb (validate_regnum regnum) then Done rs else set_reg regnum (RegInfo w exp) rs.
Definition set_rule (regnum : Z) (w : dw_where) (value : Z) (rs : regs_state)
    : outcome regs_state :=
  set_rule_offset regnum w value rs.

Definition num_regs (mode : dw_mode) : nat :=
  match mode with
  | DW_MODE_ARM32 => QUADD_AARCH32_REGISTERS
  | DW_MODE_ARM64 => QUADD_AARCH64_REGISTERS
  end.

Fixpoint rules_cleanup_from (n i : nat) (rs : regs_state) : outcome regs_state :=
  match n with
  | O => Done rs
  | S n => rs ← set_rule (Z.of_nat i) DW_WHERE_UNDEF 0 rs; rules_cleanup_from n (S i) rs
  end.
Definition rules_cleanup (mode : dw_mode) (rs : regs_state) : outcome regs_state :=
  rules_cleanup_from (num_regs mode) 0 rs.

Definition dw_cfa_opcode (insn : Z) : Z := Z.land insn 0xc0.
Definition dw_cfa_operand (insn : Z) : Z := Z.land insn 0x3f.

(** ** The opcodes *)

Definition DW_CFA_advance_loc : Z := 0x40.
Definition DW_CFA_offset : Z := 0x80.
Definition DW_CFA_restore : Z := 0xc0.
Definition DW_CFA_nop : Z := 0x00.
Definition DW_CFA_advance_loc1 : Z := 0x02.
Definition DW_CFA_advance_loc2 : Z := 0x03.
Definition DW_CFA_advance_loc4 : Z := 0x04.
Definition DW_CFA_offset_extended : Z := 0x05.
Definition DW_CFA_restore_extended : Z := 0x06.
Definition DW_CFA_undefined : Z := 0x07.
Definition DW_CFA_same_value : Z := 0x08.
Definition DW_CFA_remember_state : Z := 0x0a.
Definition DW_CFA_restore_state : Z := 0x0b.
Definition DW_CFA_def_cfa : Z := 0x0c.
Definition DW_CFA_def_cfa_register : Z := 0x0d.
Definition DW_CFA_def_cfa_offset : Z := 0x0e.
Definition DW_CFA_def_cfa_expression : Z := 0x0f.
Definition DW_CFA_expression : Z := 0x10.
Definition DW_CFA_offset_extended_sf : Z := 0x11.
Definition DW_CFA_def_cfa_sf : Z := 0x12.
Definition DW_CFA_def_cfa_offset_sf : Z := 0x13.
Definition DW_CFA_val_offset : Z := 0x14.
Definition DW_CFA_val_offset_sf : Z := 0x15.
Definition DW_CFA_val_expression : Z := 0x16.
Definition DW_CFA_GNU_args_size : Z := 0x2e.
Definition DW_CFA_GNU_negative_offset_extended : Z := 0x2f.

(** ** The interpreter *)

(** Operations on the state that may fail, leaving a state anyway. *)
Definition X (A : Type) : Type := cfa_state -> outcome A * cfa_state.
#[export] Instance X_ret : MRet X := fun A x s => (Done x, s).
#[export] Instance X_bind : MBind X := fun A B k m s =>
  match m s with
  | (Done x, s') => k x s'
  | (Error e, s') => (Error e, s')
  | (Faulty site, s') => (Faulty site, s')
  | (Timeout, s') => (Timeout, s')
  end.
Definition xget : X cfa_state := fun s => (Done s, s).
Definition xmodify (f : cfa_state -> cfa_state) : X unit := fun s => (Done tt, f s).
Definition xlift {A} (o : outcome A) : X A := fun s => (o, s).
Definition xtimeout {A} : X A := fun s => (Timeout, s).

Section exec.
Context `{ShiftOps}.
(** secid, cie and rs_initial of the run. *)
Context (ri : ex_region_info) (secid : Z) (cie : dw_cie) (rs_initial : regs_state).

(** read_mmap_data at c_insn, and c_insn past it. *)
Definition fetch (n : nat) : X Z :=
  s ← xget; x ← xlift (read_mmap_data n ri (c_insn s) secid);
  xmodify (set_c_insn (u64 (c_insn s + Z.of_nat n)));; mret x.

(** c_insn += dwarf_read_uleb128(ri, c_insn, ...), and the signed one. *)
Definition fetch_uleb : X Z :=
  s ← xget; '(v, n) ← xlift (dwarf_read_uleb128 ri (c_insn s) secid);
  xmodify (set_c_insn (u64 (c_insn s + n)));; mret v.
Definition fetch_sleb : X Z :=
  s ← xget; '(v, n) ← xlift (dwarf_read_sleb128 ri (c_insn s) secid);
  xmodify (set_c_insn (u64 (c_insn s + n)));; mret v.

Definition modify_rs (f : regs_state -> regs_state) : X unit :=
  xmodify (fun s => set_sf_rs (f (sf_rs s)) s).
Definition update_rs (f : regs_state -> outcome regs_state) : X unit :=
  s ← xget; rs ← xlift (f (sf_rs s)); modify_rs (fun _ => rs).
Definition advance_pc (d : Z) : X unit := xmodify (fun s => set_sf_pc (u64 (sf_pc s + d)) s).
(** c_insn += n *)
Definition skip_insn (n : Z) : X unit :=
  xmodify (fun s => set_c_insn (u64 (c_insn s + n)) s).

(** An operand times the data alignment factor, as a long. *)
Definition factored (v : Z) : Z := u64 (v * data_align_factor cie).

Definition remember_state : X bool :=
  s ← xget;
  if DW_MAX_RS_STACK_DEPTH <=? depth s then mret false
  else
    xmodify (set_stack (depth s + 1) (<[Z.to_nat (depth s) := sf_rs s]> (rs_stack s)));;
    mret true.

Definition restore_state : X bool :=
  s ← xget;
  if depth s =? 0 then mret false
  else
    rs ← xlift (match rs_stack s !! Z.to_nat (depth s - 1) with
                | Some rs => Done rs | None => Fault end);
    xmodify (set_stack (depth s - 1) (rs_stack s));; modify_rs (fun _ => rs);; mret true.

(** The second switch; [false] is return 0. Its cases from DW_CFA_val_offset on. *)
Definition exec_switch_rest (insn : Z) : X bool :=
  if insn =? DW_CFA_val_offset then
    reg ← fetch_uleb; utmp ← fetch_uleb;
    update_rs (set_rule_offset reg DW_WHERE_VAL_OFFSET (factored utmp));; mret true
  else if insn =? DW_CFA_val_offset_sf then
    reg ← fetch_uleb; stmp ← fetch_sleb;
    update_rs (set_rule_offset reg DW_WHERE_VAL_OFFSET (factored stmp));; mret true
  else if insn =? DW_CFA_GNU_args_size then
    _ ← fetch_uleb; mret true
  else if insn =? DW_CFA_GNU_negative_offset_extended then
    reg ← fetch_uleb; utmp ← fetch_uleb;
    update_rs (set_rule_offset reg DW_WHERE_CFAREL (u64 (- factored utmp)));; mret true
  else if insn =? DW_CFA_remember_state then remember_state
  else if insn =? DW_CFA_restore_state then restore_state
  else if insn =? DW_CFA_def_cfa_sf then
    utmp ← fetch_uleb; stmp ← fetch_sleb;
    modify_rs (fun rs => set_cfa_how DW_CFA_REG_OFFSET
      (set_cfa_offset (factored stmp) (set_cfa_register (sw 32 utmp) rs)));; mret true
  else if insn =? DW_CFA_def_cfa_offset_sf then
    stmp ← fetch_sleb; modify_rs (set_cfa_offset (factored stmp));; mret true
  else if insn =? DW_CFA_same_value then
    reg ← fetch_uleb; update_rs (set_rule reg DW_WHERE_SAME 0);; mret true
  else if insn =? DW_CFA_val_expression then
    reg ← fetch_uleb; s ← xget; update_rs (set_rule_exp reg DW_WHERE_VAL_EXPR (c_insn s));;
    utmp ← fetch_uleb; skip_insn utmp;; mret true
  else mret true.

(** The whole switch. *)
Definition exec_switch (insn : Z) : X bool :=
  if insn =? DW_CFA_nop then mret true
  else if insn =? DW_CFA_advance_loc1 then
    delta ← fetch 1; advance_pc (delta * code_align_factor cie);; mret true
  else if insn =? DW_CFA_advance_loc2 then
    delta ← fetch 2; advance_pc (delta * code_align_factor cie);; mret true
  else if insn =? DW_CFA_advance_loc4 then
    delta ← fetch 4; advance_pc (delta * code_align_factor cie);; mret true
  else if insn =? DW_CFA_offset_extended then
    _ ← fetch_uleb; _ ← fetch_uleb; mret true
  else if insn =? DW_CFA_restore_extended then
    _ ← fetch_uleb; mret true
  else if insn =? DW_CFA_undefined then
    reg ← fetch_uleb; update_rs (set_rule reg DW_WHERE_UNDEF 0);; mret true
  else if insn =? DW_CFA_def_cfa then
    utmp ← fetch_uleb; modify_rs (set_cfa_register (sw 32 utmp));;
    utmp ← fetch_uleb; modify_rs (set_cfa_offset utmp);; mret true
  else if insn =? DW_CFA_def_cfa_register then
    utmp ← fetch_uleb; modify_rs (set_cfa_register (sw 32 utmp));; mret true
  else if insn =? DW_CFA_def_cfa_offset then
    utmp ← fetch_uleb; modify_rs (set_cfa_offset utmp);; mret true
  else if insn =? DW_CFA_def_cfa_expression then
    utmp ← fetch_uleb; s ← xget;
    modify_rs (set_cfa_expr (c_insn s) (u32 utmp));; skip_insn (u32 utmp);; mret true
  else if insn =? DW_CFA_expression then
    reg ← fetch_uleb; s ← xget; update_rs (set_rule_exp reg DW_WHERE_EXPR (c_insn s));;
    utmp ← fetch_uleb; skip_insn utmp;; mret true
  else if insn =? DW_CFA_offset_extended_sf then
    reg ← fetch_uleb; stmp ← fetch_sleb;
    update_rs (set_rule_offset reg DW_WHERE_CFAREL (factored stmp));; mret true
  else exec_switch_rest insn.

(** The first switch; only an invalid register of a restore goes on to the
    second one. [delta] is an unsigned int here. *)
Definition exec_insn (insn : Z) : X bool :=
  if dw_cfa_opcode insn =? DW_CFA_advance_loc then
    advance_pc (u32 (dw_cfa_operand insn * code_align_factor cie));; mret true
  else if dw_cfa_opcode insn =? DW_CFA_offset then
    utmp ← fetch_uleb;
    update_rs (set_rule_offset (dw_cfa_operand insn) DW_WHERE_CFAREL (factored utmp));; mret true
  else if (dw_cfa_opcode insn =? DW_CFA_restore) && validate_regnum (dw_cfa_operand insn) then
    r ← xlift (match reg rs_initial !! Z.to_nat (dw_cfa_operand insn) with
               | Some r => Done r | None => Fault end);
    update_rs (set_reg (dw_cfa_operand insn) r);; mret true
  else exec_switch insn.

Fixpoint exec_loop (fuel : nat) (insn_end pc : Z) : X unit :=
  match fuel with
  | O => xtimeout
  | S fuel =>
      s ← xget;
      if (c_insn s <? insn_end) && (sf_pc s <=? pc) then
        insn ← fetch 1; go ← exec_insn insn;
        if go : bool then exec_loop fuel insn_end pc else mret tt
      else mret tt
  end.
End exec.

(** [Done] is the return of 0. *)
Definition dwarf_cfa_exec_insns `{ShiftOps} (fuel : nat) (ri : ex_region_info)
    (insn_start insn_end : Z) (cie : dw_cie) (rs_initial : regs_state) (pc : Z) (is_eh : bool)
    : X unit :=
  xmodify (fun s => set_stack 0 (rs_stack s) s);; xmodify (set_c_insn insn_start);;
  exec_loop ri (get_secid_frame is_eh) cie rs_initial fuel insn_end pc.

(** ** The state stays well formed *)

Record rs_ok (rs : regs_state) : Prop := { rok_regs : length (reg rs) = QUADD_NUM_REGS }.

Record cs_ok (s : cfa_state) : Prop := {
  cok_rs : rs_ok (sf_rs s);
  cok_depth : 0 <= depth s <= DW_MAX_RS_STACK_DEPTH;
  cok_stack : zlen (rs_stack s) = DW_MAX_RS_STACK_DEPTH;
  cok_rows : Forall rs_ok (rs_stack s);
}.

Definition xwp {A} (m : X A) (Q : A -> cfa_state -> Prop) (E : cfa_state -> Prop)
    (s : cfa_state) : Prop :=
  match m s with
  | (Done x, s') => Q x s'
  | (Error e, s') => e < 0 /\ E s'
  | _ => False
  end.

Lemma xwp_bind {A B} (m : X A) (k : A -> X B) Q E s :
  xwp m (fun x s' => xwp (k x) Q E s') E s -> xwp (x ← m; k x) Q E s.
Proof. unfold xwp, mbind, X_bind. by destruct (m s) as [[| | |] s']. Qed.

Lemma xwp_mono {A} (m : X A) (Q Q' : A -> cfa_state -> Prop) (E E' : cfa_state -> Prop) s :
  xwp m Q E s -> (forall x s', Q x s' -> Q' x s') -> (forall s', E s' -> E' s') -> xwp m Q' E' s.
Proof.
  unfold xwp. intros Hm HQ HE.
  destruct (m s) as [[x|e| |] s']; [by apply HQ|split; [apply Hm|apply HE, Hm]|done|done].
Qed.

Section exec_facts.
Context `{ShiftOps}.
Context (ri : ex_region_info) (secid : Z) (cie : dw_cie) (rs_initial : regs_state).
Hypothesis Hsec : section_ok ri secid.
Hypothesis Hlen : ti_length (ex_sec ri secid) < 2 ^ 31.
Hypothesis Hinit : rs_ok rs_initial.

(** No length read in the section leads around the end of the address space. *)
Definition forward : Prop :=
  forall a v n, dwarf_read_uleb128 ri a secid = Done (v, n) -> a + n + v < 2 ^ 64.

(** What an operation keeps: a well-formed state; and the position does not go back. *)
Definition ext (s0 s : cfa_state) : Prop :=
  cs_ok s /\ (forward -> c_insn s0 <= c_insn s).
Definition keeps {A} (m : X A) : Prop :=
  forall s0 s, ext s0 s -> xwp m (fun _ s' => ext s0 s') cs_ok s.

Lemma keeps_ret {A} (x : A) : keeps (mret x).
Proof. by intros s0 s Hs. Qed.
Lemma keeps_get : keeps xget.
Proof. by intros s0 s Hs. Qed.
Lemma keeps_bind {A B} (m : X A) (k : A -> X B) :
  keeps m -> (forall x, keeps (k x)) -> keeps (x ← m; k x).
Proof.
  intros Hm Hk s0 s Hs. apply xwp_bind. eapply xwp_mono; [by apply Hm| |done].
  intros x s' Hs'. by apply Hk.
Qed.

Lemma keeps_fetch n : (n <= 8)%nat -> keeps (fetch ri secid n).
Proof.
  intros Hn s0 s [Hs Hf]. pose proof (section_range ri secid Hsec).
  unfold fetch, xwp, xlift, mbind, X_bind, xget, xmodify.
  destruct (safe_inv _ _ (read_safe n ri (c_insn s) secid Hsec Hn))
    as [(x & -> & Hx & A1 & A2)|(e & -> & He)]; [|done].
  cbn. split; [by destruct Hs|]. cbn. rewrite u64_small by lia. intros F. specialize (Hf F). lia.
Qed.

Lemma keeps_sleb : keeps (fetch_sleb ri secid).
Proof.
  intros s0 s [Hs Hf]. pose proof (section_range ri secid Hsec).
  unfold fetch_sleb, xwp, xlift, mbind, X_bind, xget, xmodify.
  destruct (safe_inv _ _ (proj2 (leb_safe ri (c_insn s) secid Hsec Hlen)))
    as [([v n] & -> & Hv & Hn & A1 & A2)|(e & -> & He)]; [|done].
  cbn in *. split; [by destruct Hs|]. cbn. rewrite u64_small by lia. intros F. specialize (Hf F). lia.
Qed.

(** After an unsigned number, that many bytes can be skipped. *)
Definition can_skip (s : cfa_state) (v : Z) : Prop :=
  0 <= v /\ (forward -> 0 <= c_insn s /\ c_insn s + v < 2 ^ 64).

Lemma xwp_uleb {B} (k : Z -> X B) :
  (forall s0 s v, ext s0 s -> can_skip s v -> xwp (k v) (fun _ s' => ext s0 s') cs_ok s) ->
  keeps (v ← fetch_uleb ri secid; k v).
Proof.
  intros Hk s0 s [Hs Hf]. pose proof (section_range ri secid Hsec).
  apply xwp_bind. unfold fetch_uleb, xwp at 1, xlift, mbind, X_bind, xget, xmodify.
  destruct (safe_inv _ _ (proj1 (leb_safe ri (c_insn s) secid Hsec Hlen)))
    as [([v n] & E & Hv & Hn & A1 & A2)|(e & -> & He)]; [rewrite E|done].
  cbn in *. rewrite u64_small by lia. apply Hk.
  - split; [by destruct Hs|]. cbn. intros F. specialize (Hf F). lia.
  - split; [lia|]. cbn. intros F. pose proof (F _ _ _ E). lia.
Qed.

Lemma keeps_uleb {B} (k : Z -> X B) : (forall v, keeps (k v)) ->
  keeps (v ← fetch_uleb ri secid; k v).
Proof. intros Hk. apply xwp_uleb. intros s0 s v Hs _. by apply Hk. Qed.

Lemma keeps_modify_rs f : (forall rs, rs_ok rs -> rs_ok (f rs)) -> keeps (modify_rs f).
Proof.
  intros Hf s0 s [[H1 H2 H3 H4] Hp]. unfold modify_rs, xmodify, xwp.
  split; [|exact Hp]. split; cbn; auto.
Qed.

Lemma keeps_advance d : keeps (advance_pc d).
Proof. intros s0 s [[H1 H2 H3 H4] Hp]. by split. Qed.

Lemma xwp_skip s0 s v w : ext s0 s -> can_skip s v -> 0 <= w <= v ->
  xwp (skip_insn w) (fun _ s' => ext s0 s') cs_ok s.
Proof.
  intros [[H1 H2 H3 H4] Hp] [Hv Hc] Hw. unfold skip_insn, xmodify, xwp. split; [by split|].
  cbn. intros F. specialize (Hp F). specialize (Hc F). rewrite u64_small by lia. lia.
Qed.

(** A rule is never stored outside the array: that is what the checks of the
    register number are for. *)
Definition stores (f : regs_state -> outcome regs_state) : Prop :=
  forall rs, rs_ok rs -> exists rs', f rs = Done rs' /\ rs_ok rs'.

Lemma set_reg_ok n r : 0 <= n < Z.of_nat QUADD_NUM_REGS -> stores (set_reg n r).
Proof.
  intros Hn rs [Hr]. unfold set_reg, zlen. rewrite Hr.
  destruct (Z.leb_spec 0 n); [|lia]. destruct (Z.ltb_spec n (Z.of_nat QUADD_NUM_REGS)); [|lia].
  eexists. split; [reflexivity|]. split. cbn. by rewrite length_insert.
Qed.
Lemma validate_regnum_range n : - 2 ^ 63 <= n < 2 ^ 63 -> validate_regnum n = true ->
  0 <= n < Z.of_nat QUADD_NUM_REGS.
Proof.
  unfold validate_regnum. change (Z.of_nat QUADD_NUM_REGS) with 32. intros Hn Hv.
  apply Z.ltb_lt in Hv. destruct (Z.lt_ge_cases n 0); [|rewrite u64_small in Hv by lia; lia].
  replace n with (n + 2 ^ 64 - 2 ^ 64) in Hv by lia. unfold uw in Hv.
  rewrite <- (Z_mod_plus_full _ 1), Z.mul_1_l, Z.sub_add, Z.mod_small in Hv by lia. lia.
Qed.
Lemma set_rule_offset_ok n w v : stores (set_rule_offset n w v).
Proof.
  intros rs Hr. unfold set_rule_offset. pose proof (sw_range 32 n ltac:(lia)).
  case_match eqn:E; [by exists rs|]. apply negb_false_iff, validate_regnum_range in E; [|lia].
  by apply set_reg_ok.
Qed.
Lemma set_rule_exp_ok n w v : stores (set_rule_exp n w v).
Proof. exact (set_rule_offset_ok n w v). Qed.
Lemma set_rule_ok n w v : stores (set_rule n w v).
Proof. exact (set_rule_offset_ok n w v). Qed.

Lemma keeps_update_rs f : stores f -> keeps (update_rs f).
Proof.
  intros Hf s0 s [[H1 H2 H3 H4] Hp].
  unfold update_rs, modify_rs, xmodify, xlift, xwp, mbind, X_bind, xget.
  destruct (Hf (sf_rs s) H1) as (rs & -> & Hrs). split; [|exact Hp]. split; cbn; auto.
Qed.
Lemma set_scalars_ok rs : rs_ok rs ->
  (forall o, rs_ok (set_cfa_offset o rs)) /\ (forall r, rs_ok (set_cfa_register r rs)) /\
  (forall e n, rs_ok (set_cfa_expr e n rs)) /\
  (forall h o r, rs_ok (set_cfa_how h (set_cfa_offset o (set_cfa_register r rs)))).
Proof. intros [Hr]. by split_and!. Qed.

Lemma keeps_remember : keeps remember_state.
Proof.
  intros s0 s [[H1 H2 H3 H4] Hp]. unfold remember_state, xwp, mbind, X_bind, xget, xmodify.
  destruct (Z.leb_spec DW_MAX_RS_STACK_DEPTH (depth s)); [split; [by split|exact Hp]|].
  split; [|exact Hp]. split; cbn; try done; try lia.
  - unfold zlen. by rewrite length_insert.
  - by apply Forall_insert.
Qed.

Lemma keeps_restore : keeps restore_state.
Proof.
  intros s0 s [[H1 H2 H3 H4] Hp].
  unfold restore_state, modify_rs, xwp, mbind, X_bind, xget, xmodify, xlift.
  destruct (Z.eqb_spec (depth s) 0); [split; [by split|exact Hp]|].
  destruct (rs_stack s !! Z.to_nat (depth s - 1)) as [rs|] eqn:E.
  - split; [|exact Hp]. split; cbn; try done; [|lia]. by eapply (Forall_lookup_1 rs_ok).
  - apply lookup_ge_None in E. unfold zlen in *. lia.
Qed.
End exec_facts.

Create HintDb cfa_db.
#[export] Hint Resolve set_rule_ok set_rule_offset_ok set_rule_exp_ok : cfa_db.

Section exec_safe.
Context `{ShiftOps}.
Context (ri : ex_region_info) (secid : Z) (cie : dw_cie) (rs_initial : regs_state).
Hypothesis Hsec : section_ok ri secid.
Hypothesis Hlen : ti_length (ex_sec ri secid) < 2 ^ 31.
Hypothesis Hinit : rs_ok rs_initial.

(** One operation after the other. *)
Ltac keep_step :=
  lazymatch goal with
  | |- keeps _ _ (mbind _ (fetch_uleb _ _)) => apply keeps_uleb; [exact Hsec|exact Hlen|intros ?]
  | |- keeps _ _ (mbind _ _) => apply keeps_bind; [|intros ?]
  | |- keeps _ _ (mret _) => apply keeps_ret
  | |- keeps _ _ xget => apply keeps_get
  | |- keeps _ _ (fetch _ _ _) => apply keeps_fetch; [exact Hsec|lia]
  | |- keeps _ _ (fetch_sleb _ _) => apply keeps_sleb; [exact Hsec|exact Hlen]
  | |- keeps _ _ (advance_pc _) => apply keeps_advance
  | |- keeps _ _ remember_state => apply keeps_remember
  | |- keeps _ _ restore_state => apply keeps_restore
  | |- keeps _ _ (update_rs _) => apply keeps_update_rs; auto with cfa_db
  | |- keeps _ _ (modify_rs _) =>
      apply keeps_modify_rs; intros rs Hrs; cbn beta; by apply set_scalars_ok
  end.

Lemma keeps_expression w :
  keeps ri secid (reg ← fetch_uleb ri secid; s ← xget;
    update_rs (set_rule_exp reg w (c_insn s));;
    utmp ← fetch_uleb ri secid; skip_insn utmp;; mret true).
Proof.
  apply keeps_uleb; [done..|]. intros n. apply keeps_bind; [apply keeps_get|]. intros s1.
  apply keeps_bind; [keep_step|]. intros _.
  apply xwp_uleb; [done..|]. intros s0 s v Hs Hc. apply xwp_bind.
  eapply xwp_mono; [eapply (xwp_skip ri secid); [exact Hs|exact Hc|]| |done].
  - destruct Hc. lia.
  - intros [] s' Hs'. exact Hs'.
Qed.

Lemma keeps_def_cfa_expression :
  keeps ri secid (utmp ← fetch_uleb ri secid; s ← xget;
    modify_rs (set_cfa_expr (c_insn s) (u32 utmp));; skip_insn (u32 utmp);; mret true).
Proof.
  apply xwp_uleb; [done..|]. intros s0 s v Hs Hc.
  assert (0 <= u32 v <= v) as Hv.
  { destruct Hc. split; [apply u32_range|]. apply Z.mod_le; lia. }
  unfold xwp, mbind, X_bind, xget, modify_rs, xmodify, skip_insn. cbn [c_insn set_sf_rs].
  destruct Hs as [[H1 H2 H3 H4] Hp], Hc as [Hc1 Hc2]. split.
  - split; try done. by apply set_scalars_ok.
  - cbn. intros F. specialize (Hp F). specialize (Hc2 F). rewrite u64_small by lia. lia.
Qed.

Lemma keeps_switch insn : keeps ri secid (exec_switch ri secid cie insn).
Proof.
  unfold exec_switch, exec_switch_rest.
  repeat lazymatch goal with
  | |- keeps _ _ (if ?b then _ else _) => destruct b
  end;
    first [ apply keeps_def_cfa_expression | apply keeps_expression | solve [repeat keep_step] ].
Qed.

Lemma keeps_insn insn : 0 <= insn -> keeps ri secid (exec_insn ri secid cie rs_initial insn).
Proof.
  intros Hi. unfold exec_insn.
  case_match; [repeat keep_step|]. case_match; [repeat keep_step|].
  case_match eqn:E; [|apply keeps_switch].
  apply andb_true_iff in E as [_ E].
  assert (0 <= dw_cfa_operand insn < 64).
  { unfold dw_cfa_operand. change 0x3f with (Z.ones 6). rewrite Z.land_ones by lia.
    apply Z.mod_pos_bound. lia. }
  apply validate_regnum_range in E; [|lia].
  destruct (reg rs_initial !! Z.to_nat (dw_cfa_operand insn)) as [r|] eqn:Er.
  - apply keeps_bind; [by intros s0 s Hs|]. intros r'.
    apply keeps_bind; [apply keeps_update_rs, set_reg_ok; done|]. intros ?. repeat keep_step.
  - exfalso. apply lookup_ge_None in Er. rewrite (rok_regs _ Hinit) in Er. lia.
Qed.

(** A run that is out of fuel has used it: with [forward], every instruction
    takes at least one of the bytes that are left. *)
Definition run_ok (fuel : nat) (left : Z) (r : outcome unit * cfa_state) : Prop :=
  cs_ok r.2 /\
  match r.1 with
  | Done _ => True
  | Error e => e < 0
  | Faulty _ => False
  | Timeout => forward ri secid -> Z.of_nat fuel <= Z.max 0 left
  end.

Lemma exec_loop_ok insn_end pc fuel : forall s, cs_ok s ->
  run_ok fuel (insn_end - c_insn s) (exec_loop ri secid cie rs_initial fuel insn_end pc s).
Proof.
  induction fuel as [|fuel IH]; intros s Hs; cbn [exec_loop].
  { split; [done|]. cbn. lia. }
  unfold mbind at 1, X_bind at 1, xget.
  destruct ((c_insn s <? insn_end) && (sf_pc s <=? pc)) eqn:E; [|by split].
  apply andb_true_iff in E as [E _].
  unfold fetch, mbind, X_bind, xget, xlift, xmodify. pose proof (section_range ri secid Hsec).
  destruct (safe_inv _ _ (read_safe 1 ri (c_insn s) secid Hsec ltac:(lia)))
    as [(x & -> & Hx & A1 & A2)|(e & -> & He)]; [|by split].
  change (Z.of_nat 1) with 1 in *. rewrite u64_small by lia. cbn [mret X_ret].
  set (s1 := set_c_insn (c_insn s + 1) s).
  assert (ext ri secid s1 s1) as Hs1 by (split; [by destruct Hs|lia]).
  pose proof (keeps_insn x ltac:(lia) s1 s1 Hs1) as Hk. unfold xwp in Hk.
  destruct (exec_insn ri secid cie rs_initial x s1) as [[go|e| |] s2];
    [|split; apply Hk|done|done].
  destruct Hk as [Hs2 Hp]. destruct go; [|by split].
  specialize (IH s2 Hs2).
  destruct (exec_loop ri secid cie rs_initial fuel insn_end pc s2) as [[[]|e| |] s3];
    destruct IH as [IH1 IH2]; split; try done; cbn in *.
  intros F. specialize (IH2 F). specialize (Hp F). lia.
Qed.
End exec_safe.

(** The frame when the interpreter starts. *)
Definition start_ok (s : cfa_state) : Prop :=
  rs_ok (sf_rs s) /\ zlen (rs_stack s) = DW_MAX_RS_STACK_DEPTH /\ Forall rs_ok (rs_stack s).

Lemma exec_insns_ok `{ShiftOps} fuel ri insn_start insn_end cie rs_initial pc is_eh s :
  region_ok ri -> rs_ok rs_initial -> start_ok s ->
  run_ok ri (get_secid_frame is_eh) fuel (insn_end - insn_start)
    (dwarf_cfa_exec_insns fuel ri insn_start insn_end cie rs_initial pc is_eh s).
Proof.
  intros Hr Hi (S1 & S2 & S3).
  assert (0 <= get_secid_frame is_eh < 6) as Hst by (destruct is_eh; cbv; split; congruence).
  unfold dwarf_cfa_exec_insns, xmodify, mbind, X_bind.
  set (s1 := set_c_insn insn_start _).
  assert (cs_ok s1) as Hs1 by (split; cbn; try done; cbv; split; congruence).
  exact (exec_loop_ok ri _ cie rs_initial (ro_sections _ Hr _ Hst) (ro_lengths _ Hr _ Hst) Hi
           insn_end pc fuel s1 Hs1).
Qed.


(** C33. It ends, after at most one step per byte of the instructions, unless a
    length in the section leads around the end of the address space. *)
Theorem dwarf_cfa_exec_ends `{ShiftOps} fuel ri insn_start insn_end cie rs_initial pc is_eh s :
  region_ok ri -> rs_ok rs_initial -> start_ok s ->
  forward ri (get_secid_frame is_eh) ->
  Z.max 0 (insn_end - insn_start) < Z.of_nat fuel ->
  exists s', dwarf_cfa_exec_insns fuel ri insn_start insn_end cie rs_initial pc is_eh s = (Done tt, s') \/
    exists e, e < 0 /\
      dwarf_cfa_exec_insns fuel ri insn_start insn_end cie rs_initial pc is_eh s = (Error e, s').
Proof.
  intros Hr Hi Hs Hf Hn.
  pose proof (exec_insns_ok fuel ri insn_start insn_end cie rs_initial pc is_eh s Hr Hi Hs) as [H1 H2].
  destruct (dwarf_cfa_exec_insns _ _ _ _ _ _ _ _ _) as [[[]|e| |] s']; exists s'; cbn in *;
    [by left|right; by exists e|done|]. specialize (H2 Hf). lia.
Qed.

(** ** Known instructions *)
Section at_code.
Context `{ShiftOps}.
Context (ri : ex_region_info) (secid : Z).
Hypothesis Hsec : section_ok ri secid.
Hypothesis Hlen : ti_length (ex_sec ri secid) < 2 ^ 31.

Lemma fetch_at n bs s : holds_at ri secid (c_insn s) bs -> length bs = n -> (n <= 8)%nat ->
  fetch ri secid n s = (Done (le_dec bs), set_c_insn (c_insn s + zlen bs) s).
Proof.
  intros Hb Hl Hn. pose proof (section_range ri secid Hsec) as (R1 & R2 & R3).
  unfold fetch, mbind, X_bind, xget, xlift, xmodify.
  rewrite (read_holds n ri secid _ bs) by done. destruct Hb as (H1 & H2 & _).
  assert (zlen bs = Z.of_nat n) as Hz by (unfold zlen; lia). rewrite <- Hz.
  rewrite u64_small by (pose proof (zlen_nonneg bs); lia). done.
Qed.

Lemma fetch_uleb_at v s : 0 <= v < 2 ^ 35 -> holds_at ri secid (c_insn s) (uleb_enc 5 v) ->
  fetch_uleb ri secid s =
    (Done (u64 (sw 32 v)), set_c_insn (c_insn s + zlen (uleb_enc 5 v)) s).
Proof.
  intros Hv Hb. pose proof (section_range ri secid Hsec) as (R1 & R2 & R3).
  destruct (uleb_read ri secid (c_insn s) v Hsec Hlen Hv Hb) as [E Hz].
  unfold fetch_uleb, mbind, X_bind, xget, xlift, xmodify. rewrite E.
  destruct Hb as (H1 & H2 & _). rewrite (u64_small (c_insn s + _)) by lia. done.
Qed.

Lemma fetch_sleb_at v s : - 2 ^ 31 <= v < 2 ^ 31 -> holds_at ri secid (c_insn s) (sleb_enc 5 v) ->
  fetch_sleb ri secid s = (Done (u64 v), set_c_insn (c_insn s + zlen (sleb_enc 5 v)) s).
Proof.
  intros Hv Hb. pose proof (section_range ri secid Hsec) as (R1 & R2 & R3).
  destruct (sleb_read ri secid (c_insn s) v Hsec Hlen Hv Hb) as [E Hz].
  unfold fetch_sleb, mbind, X_bind, xget, xlift, xmodify. rewrite E.
  destruct Hb as (H1 & H2 & _). rewrite (u64_small (c_insn s + _)) by lia. done.
Qed.

(** The bytes of a val_expression with a length of 2^32 - 7, which is read as -7. *)
Definition backward_insn : list Z := [DW_CFA_val_expression] ++ uleb_enc 5 0 ++ uleb_enc 5 (2 ^ 32 - 7).

Lemma update_rs_done f s rs : f (sf_rs s) = Done rs -> update_rs f s = (Done tt, set_sf_rs rs s).
Proof. intros E. unfold update_rs, mbind, X_bind, xget, xlift. by rewrite E. Qed.

Lemma backward_step cie rs_initial insn_end pc fuel s :
  holds_at ri secid (c_insn s) backward_insn ->
  c_insn s < insn_end -> sf_pc s <= pc -> rs_ok (sf_rs s) ->
  exists rs, rs_ok rs /\ exec_loop ri secid cie rs_initial (S fuel) insn_end pc s =
    exec_loop ri secid cie rs_initial fuel insn_end pc (set_sf_rs rs s).
Proof.
  intros Hb He Hp Hok. pose proof (section_range ri secid Hsec) as (R1 & R2 & R3).
  apply holds_at_app in Hb as [H1 Hb]; [|lia]. apply holds_at_app in Hb as [H2 H3]; [|lia].
  change (zlen [DW_CFA_val_expression]) with 1 in *. change (zlen (uleb_enc 5 0)) with 1 in *.
  cbn [exec_loop]. unfold mbind at 1, X_bind at 1, xget.
  destruct (Z.ltb_spec (c_insn s) insn_end), (Z.leb_spec (sf_pc s) pc); try lia. cbn [andb].
  unfold mbind at 1, X_bind at 1. rewrite (fetch_at 1 _ s H1) by (done || lia).
  change (zlen [DW_CFA_val_expression]) with 1. cbn [le_dec].
  unfold mbind at 1, X_bind at 1.
  change (exec_insn ri secid cie rs_initial (DW_CFA_val_expression + 256 * 0)) with
    (reg ← fetch_uleb ri secid; s ← xget;
     update_rs (set_rule_exp reg DW_WHERE_VAL_EXPR (c_insn s));;
     utmp ← fetch_uleb ri secid; skip_insn utmp;; mret true).
  unfold mbind at 1, X_bind at 1. rewrite (fetch_uleb_at 0); [|lia|exact H2].
  unfold mbind at 1, X_bind at 1, xget at 1. unfold mbind at 1, X_bind at 1.
  match goal with |- context [update_rs ?f ?s] =>
    destruct (set_rule_exp_ok (u64 (sw 32 0)) DW_WHERE_VAL_EXPR
                (c_insn s) (sf_rs s) Hok) as (rs & Ers & Hrs);
    rewrite (update_rs_done f s rs Ers) end.
  unfold mbind at 1, X_bind at 1. rewrite (fetch_uleb_at (2 ^ 32 - 7)); [|lia|exact H3].
  unfold skip_insn, xmodify, mbind, X_bind. cbn [mret X_ret].
  exists rs. split; [exact Hrs|]. f_equal. unfold set_c_insn, set_sf_rs. cbn [c_insn sf_pc sf_rs depth rs_stack]. f_equal.
  change (u64 (sw 32 (2 ^ 32 - 7))) with (2 ^ 64 - 7). change (zlen (uleb_enc 5 0)) with 1.
  change (zlen (uleb_enc 5 (2 ^ 32 - 7))) with 5.
  destruct H1 as (H1 & B4 & _). change (zlen [DW_CFA_val_expression]) with 1 in B4.
  unfold uw. symmetry. apply Z.mod_unique with (q := 1); lia.
Qed.
End at_code.

(** Without that condition it may never end: seven bytes that describe a
    value expression of 2^32 - 7 bytes put the interpreter back to where it was.
    The tables come from user space. *)
Theorem dwarf_cfa_exec_loops `{ShiftOps} fuel ri insn_start insn_end cie rs_initial pc is_eh s :
  region_ok ri -> holds_at ri (get_secid_frame is_eh) insn_start backward_insn ->
  insn_start < insn_end -> sf_pc s <= pc -> rs_ok (sf_rs s) ->
  (dwarf_cfa_exec_insns fuel ri insn_start insn_end cie rs_initial pc is_eh s).1 = Timeout.
Proof.
  intros Hr Hb He Hp Hok.
  assert (0 <= get_secid_frame is_eh < 6) as Hst by (destruct is_eh; cbv; split; congruence).
  unfold dwarf_cfa_exec_insns, xmodify, mbind, X_bind.
  set (s1 := set_c_insn insn_start _).
  assert (c_insn s1 = insn_start /\ sf_pc s1 <= pc /\ rs_ok (sf_rs s1)) as (Hc1 & Hp1 & Hok1) by done.
  clearbody s1. revert s1 Hc1 Hp1 Hok1.
  induction fuel as [|fuel IH]; intros s1 Hc1 Hp1 Hok1; [done|].
  destruct (backward_step ri _ (ro_sections _ Hr _ Hst) (ro_lengths _ Hr _ Hst) cie rs_initial
              insn_end pc fuel s1) as (rs & Hrs & ->); [by rewrite Hc1|lia|done|done|].
  by apply IH.
Qed.

(** ** Examples *)

(** [forward] of a concrete region, by reading at every address of the section. *)
Definition forward_bool `{ShiftOps} (ri : ex_region_info) (secid : Z) : bool :=
  forallb (fun i =>
      match dwarf_read_uleb128 ri (sec_start ri secid + Z.of_nat i) secid with
      | Done (v, n) => sec_start ri secid + Z.of_nat i + n + v <? 2 ^ 64
      | _ => true
      end)
    (seq 0 (Z.to_nat (ti_length (ex_sec ri secid)))).

Lemma forward_dec `{ShiftOps} ri secid : section_ok ri secid ->
  ti_length (ex_sec ri secid) < 2 ^ 31 -> forward_bool ri secid = true -> forward ri secid.
Proof.
  intros Hs Hl Hb a v n E. pose proof (proj1 (leb_safe ri a secid Hs Hl)) as Hsafe.
  rewrite E in Hsafe. destruct Hsafe as (_ & H2 & H3 & H4). cbn [fst snd] in *. unfold sec_end in H4.
  unfold forward_bool in Hb. rewrite forallb_forall in Hb.
  specialize (Hb (Z.to_nat (a - sec_start ri secid))).
  rewrite Z2Nat.id in Hb by lia.
  replace (sec_start ri secid + (a - sec_start ri secid)) with a in Hb by lia. rewrite E in Hb.
  apply Z.ltb_lt, Hb, in_seq. lia.
Qed.

Definition example_rs : regs_state :=
  Regs (replicate QUADD_NUM_REGS (RegInfo DW_WHERE_UNDEF 0)) 0 (-1) 0 0 DW_CFA_UNSET.
Definition example_start (pc : Z) : cfa_state :=
  CfaState 0 pc example_rs 0 (replicate 8 example_rs).
Definition example_cie : dw_cie := Cie 0 0 0 0 0 0 4 (2 ^ 64 - 8) 0 0 false 30 0.
(** sp+0; after four bytes, sp+16 with x29 and x30 saved below. *)
Definition example_code : list Z := [0x0c; 31; 0; 0x41; 0x0e; 16; 0x9d; 2; 0x9e; 1].

Lemma example_rs_ok : rs_ok example_rs.
Proof. done. Qed.
Lemma example_start_ok pc : start_ok (example_start pc).
Proof. split; [done|]. split; [done|]. repeat constructor. Qed.


Lemma dwarf_cfa_exec_ends_witness :
  exists s', @dwarf_cfa_exec_insns example_shifts 11 (example_region example_code []) example_base
      (example_base + 10) example_cie example_rs 0x400004 true (example_start 0x400000)
    = (Done tt, s') \/ exists e, e < 0 /\
      @dwarf_cfa_exec_insns example_shifts 11 (example_region example_code []) example_base
      (example_base + 10) example_cie example_rs 0x400004 true (example_start 0x400000)
    = (Error e, s').
Proof.
  assert (region_ok (example_region example_code [])) as Hr by by apply example_region_ok.
  apply (@dwarf_cfa_exec_ends example_shifts);
    [exact Hr|exact example_rs_ok|apply example_start_ok| |unfold example_base; lia].
  apply forward_dec; [apply Hr; cbv; split; congruence|apply (ro_lengths _ Hr); cbv; split; congruence|].
  by vm_compute.
Defined.

Lemma dwarf_cfa_exec_loops_witness :
  (@dwarf_cfa_exec_insns example_shifts 1000 (example_region backward_insn []) example_base
    (example_base + 7) example_cie example_rs 0x400004 true (example_start 0x400000)).1 = Timeout.
Proof.
  apply (@dwarf_cfa_exec_loops example_shifts);
    [by apply example_region_ok|by apply holds_dec|unfold example_base; lia|cbn; lia|done].
Defined.
