(* ===== verification/DwarfRows.v ===== *)
(** * What call frame instructions mean

    The DWARF standard describes an instruction by its effect on a row of the
    unwind table: a location, a rule per register and the canonical frame
    address. The interpreter of DwarfCfa.v implements this on encoded
    instructions, for those instructions it implements at all. *)

From S2P Require Import Prelude DwarfRead DwarfCfa.

(** ** Rows and instructions *)

Inductive rule := Undefined | SameValue | Offset (n : Z) | ValOffset (n : Z).

Record row := Row { row_rule : Z -> rule; row_cfa : Z * Z }.

(** A location, its row, and the rows remembered. *)
Record table_state := Table { t_loc : Z; t_row : row; t_stack : list row }.

Inductive insn :=
  | I_nop
  | I_advance_loc (d : Z) | I_advance_loc1 (d : Z) | I_advance_loc2 (d : Z)
  | I_advance_loc4 (d : Z)
  | I_offset (r o : Z) | I_restore (r : Z)
  | I_undefined (r : Z) | I_same_value (r : Z)
  | I_def_cfa (r o : Z) | I_def_cfa_register (r : Z) | I_def_cfa_offset (o : Z)
  | I_def_cfa_sf (r o : Z) | I_def_cfa_offset_sf (o : Z)
  | I_offset_extended_sf (r o : Z) | I_val_offset (r o : Z) | I_val_offset_sf (r o : Z)
  | I_negative_offset_extended (r o : Z)
  | I_remember_state | I_restore_state | I_args_size (n : Z).

Definition small (v : Z) : Prop := 0 <= v < 2 ^ 31.
Definition small_signed (v : Z) : Prop := - 2 ^ 31 <= v < 2 ^ 31.

Definition insn_ok (i : insn) : Prop :=
  match i with
  | I_nop | I_remember_state | I_restore_state => True
  | I_advance_loc d => 0 <= d < 64
  | I_advance_loc1 d => 0 <= d < 2 ^ 8
  | I_advance_loc2 d => 0 <= d < 2 ^ 16
  | I_advance_loc4 d => 0 <= d < 2 ^ 32
  | I_offset r o => 0 <= r < 64 /\ small o
  | I_restore r => 0 <= r < 64
  | I_undefined v | I_same_value v | I_def_cfa_register v | I_def_cfa_offset v
  | I_args_size v => small v
  | I_def_cfa r o | I_val_offset r o | I_negative_offset_extended r o => small r /\ small o
  | I_def_cfa_sf r o | I_offset_extended_sf r o | I_val_offset_sf r o =>
      small r /\ small_signed o
  | I_def_cfa_offset_sf o => small_signed o
  end.

(** ** Encoding: the first byte and the operands *)

Definition opcode (i : insn) : Z :=
  match i with
  | I_nop => DW_CFA_nop
  | I_advance_loc d => DW_CFA_advance_loc + d
  | I_advance_loc1 _ => DW_CFA_advance_loc1
  | I_advance_loc2 _ => DW_CFA_advance_loc2
  | I_advance_loc4 _ => DW_CFA_advance_loc4
  | I_offset r _ => DW_CFA_offset + r
  | I_restore r => DW_CFA_restore + r
  | I_undefined _ => DW_CFA_undefined
  | I_same_value _ => DW_CFA_same_value
  | I_def_cfa _ _ => DW_CFA_def_cfa
  | I_def_cfa_register _ => DW_CFA_def_cfa_register
  | I_def_cfa_offset _ => DW_CFA_def_cfa_offset
  | I_def_cfa_sf _ _ => DW_CFA_def_cfa_sf
  | I_def_cfa_offset_sf _ => DW_CFA_def_cfa_offset_sf
  | I_offset_extended_sf _ _ => DW_CFA_offset_extended_sf
  | I_val_offset _ _ => DW_CFA_val_offset
  | I_val_offset_sf _ _ => DW_CFA_val_offset_sf
  | I_negative_offset_extended _ _ => DW_CFA_GNU_negative_offset_extended
  | I_remember_state => DW_CFA_remember_state
  | I_restore_state => DW_CFA_restore_state
  | I_args_size _ => DW_CFA_GNU_args_size
  end.

Definition operands (i : insn) : list Z :=
  match i with
  | I_nop | I_advance_loc _ | I_restore _ | I_remember_state | I_restore_state => []
  | I_advance_loc1 d => le_enc 1 d
  | I_advance_loc2 d => le_enc 2 d
  | I_advance_loc4 d => le_enc 4 d
  | I_offset _ o => uleb_enc 5 o
  | I_undefined v | I_same_value v | I_def_cfa_register v | I_def_cfa_offset v
  | I_args_size v => uleb_enc 5 v
  | I_def_cfa r o | I_val_offset r o | I_negative_offset_extended r o =>
      uleb_enc 5 r ++ uleb_enc 5 o
  | I_def_cfa_sf r o | I_offset_extended_sf r o | I_val_offset_sf r o =>
      uleb_enc 5 r ++ sleb_enc 5 o
  | I_def_cfa_offset_sf o => sleb_enc 5 o
  end.

Definition insn_enc (i : insn) : list Z := opcode i :: operands i.

(** ** Meaning

    [caf] and [daf] are the alignment factors, [rules0] the rules after the
    initial instructions. [None]: the stack of rows is full or empty. *)
Section meaning.
Context (caf daf : Z) (rules0 : Z -> rule).

Definition set_rule_of (r : Z) (w : rule) (t : table_state) : table_state :=
  Table (t_loc t)
    (Row (fun r' => if r' =? r then w else row_rule (t_row t) r') (row_cfa (t_row t)))
    (t_stack t).
Definition set_cfa (c : Z * Z) (t : table_state) : table_state :=
  Table (t_loc t) (Row (row_rule (t_row t)) c) (t_stack t).
Definition advance (d : Z) (t : table_state) : table_state :=
  Table (u64 (t_loc t + d * caf)) (t_row t) (t_stack t).

Definition apply_insn (i : insn) (t : table_state) : option table_state :=
  let cfa := row_cfa (t_row t) in
  match i with
  | I_nop | I_args_size _ => Some t
  | I_advance_loc d | I_advance_loc1 d | I_advance_loc2 d | I_advance_loc4 d =>
      Some (advance d t)
  | I_offset r o | I_offset_extended_sf r o => Some (set_rule_of r (Offset (o * daf)) t)
  | I_negative_offset_extended r o => Some (set_rule_of r (Offset (- (o * daf))) t)
  | I_val_offset r o | I_val_offset_sf r o => Some (set_rule_of r (ValOffset (o * daf)) t)
  | I_restore r => Some (set_rule_of r (rules0 r) t)
  | I_undefined r => Some (set_rule_of r Undefined t)
  | I_same_value r => Some (set_rule_of r SameValue t)
  | I_def_cfa r o => Some (set_cfa (r, o) t)
  | I_def_cfa_register r => Some (set_cfa (r, cfa.2) t)
  | I_def_cfa_offset o => Some (set_cfa (cfa.1, o) t)
  | I_def_cfa_sf r o => Some (set_cfa (r, o * daf) t)
  | I_def_cfa_offset_sf o => Some (set_cfa (cfa.1, o * daf) t)
  | I_remember_state =>
      if DW_MAX_RS_STACK_DEPTH <=? zlen (t_stack t) then None
      else Some (Table (t_loc t) (t_row t) (t_row t :: t_stack t))
  | I_restore_state =>
      match t_stack t with
      | [] => None
      | r :: l => Some (Table (t_loc t) r l)
      end
  end.

(** The row for [pc]: up to the first location beyond it. *)
Fixpoint run_insns (is_ : list insn) (pc : Z) (t : table_state) : table_state :=
  match is_ with
  | [] => t
  | i :: is_ =>
      if t_loc t <=? pc then
        match apply_insn i t with
        | Some t' => run_insns is_ pc t'
        | None => t
        end
      else t
  end.
End meaning.

(** ** The interpreter's state as a row *)

Definition rule_info (w : rule) : reg_info :=
  match w with
  | Undefined => RegInfo DW_WHERE_UNDEF 0
  | SameValue => RegInfo DW_WHERE_SAME 0
  | Offset n => RegInfo DW_WHERE_CFAREL (u64 n)
  | ValOffset n => RegInfo DW_WHERE_VAL_OFFSET (u64 n)
  end.

Definition rules_rel (rs : regs_state) (f : Z -> rule) : Prop :=
  forall r : nat, (r < 32)%nat -> reg rs !! r = Some (rule_info (f (Z.of_nat r))).

Record row_rel (rs : regs_state) (w : row) : Prop := {
  rr_rules : rules_rel rs (row_rule w);
  rr_register : cfa_register rs = (row_cfa w).1;
  rr_offset : cfa_offset rs = u64 ((row_cfa w).2);
}.

Record state_rel (s : cfa_state) (t : table_state) : Prop := {
  sr_loc : sf_pc s = t_loc t;
  sr_row : row_rel (sf_rs s) (t_row t);
  sr_depth : depth s = zlen (t_stack t) /\ zlen (t_stack t) <= DW_MAX_RS_STACK_DEPTH;
  sr_room : zlen (rs_stack s) = DW_MAX_RS_STACK_DEPTH;
  sr_stack : forall (i : nat) w, rev (t_stack t) !! i = Some w ->
    exists rs, rs_stack s !! i = Some rs /\ row_rel rs w;
}.

(** ** One instruction *)

Lemma xbind_done {A B} (m : X A) (k : A -> X B) s x s' :
  m s = (Done x, s') -> (x ← m; k x) s = k x s'.
Proof. intros E. unfold mbind, X_bind. by rewrite E. Qed.

Lemma bind_modify {B} f (k : unit -> X B) s :
  (x ← modify_rs f; k x) s = k tt (set_sf_rs (f (sf_rs s)) s).
Proof. done. Qed.
Lemma bind_update {B} f rs (k : unit -> X B) s : f (sf_rs s) = Done rs ->
  (x ← update_rs f; k x) s = k tt (set_sf_rs rs s).
Proof. intros E. by rewrite (xbind_done _ _ _ _ _ (update_rs_done f s rs E)). Qed.
Lemma bind_xmodify {B} f (k : unit -> X B) s : (x ← xmodify f; k x) s = k tt (f s).
Proof. done. Qed.
Lemma bind_xget {B} (k : cfa_state -> X B) s : (x ← xget; k x) s = k s s.
Proof. done. Qed.

Lemma small_value v : small v -> u64 (sw 32 v) = v /\ sw 32 v = v /\ u64 v = v.
Proof.
  unfold small. intros Hv. assert (sw 32 v = v) as E by (apply sw_small; lia).
  rewrite E, u64_small by lia. done.
Qed.

Lemma u64_mul_l a b : u64 (u64 a * b) = u64 (a * b).
Proof. apply Zmult_mod_idemp_l. Qed.
Lemma u64_mul_r a b : u64 (a * u64 b) = u64 (a * b).
Proof. apply Zmult_mod_idemp_r. Qed.
Lemma u64_opp a : u64 (- u64 a) = u64 (- a).
Proof.
  unfold uw. rewrite (Z.mod_eq a (2 ^ 64)) by lia.
  replace (- (a - 2 ^ 64 * (a / 2 ^ 64))) with (- a + a / 2 ^ 64 * 2 ^ 64) by lia.
  apply Z.mod_add. lia.
Qed.

Section rel.
Context (s : cfa_state) (t : table_state).
Hypothesis Hrel : state_rel s t.

Lemma rel_c_insn a : state_rel (set_c_insn a s) t.
Proof. by destruct Hrel. Qed.

Lemma rel_advance d caf : state_rel (set_sf_pc (u64 (sf_pc s + d * caf)) s) (advance caf d t).
Proof. destruct Hrel as [H1 H2 H3 H4 H5]. split; try done. cbn. by rewrite H1. Qed.

Lemma rules_rel_put rs f r w : rules_rel rs f -> 0 <= r < 32 ->
  set_reg r (rule_info w) rs = Done (put_reg r (rule_info w) rs) /\
  rules_rel (put_reg r (rule_info w) rs) (fun r' => if r' =? r then w else f r').
Proof.
  intros Hf Hr. pose proof (lookup_lt_Some _ _ _ (Hf (Z.to_nat r) ltac:(lia))) as Hlen.
  split.
  - unfold set_reg, zlen. destruct (Z.leb_spec 0 r); [|lia].
    by destruct (Z.ltb_spec r (Z.of_nat (length (reg rs)))); [|lia].
  - intros i Hi. cbn [reg put_reg]. destruct (Z.eqb_spec (Z.of_nat i) r) as [<-|Hne].
    + rewrite Nat2Z.id, list_lookup_insert_eq by (eapply lookup_lt_Some, Hf, Hi). done.
    + rewrite list_lookup_insert_ne by lia. by apply Hf.
Qed.

Lemma rel_set_reg r w : 0 <= r < 32 -> exists rs,
  set_reg r (rule_info w) (sf_rs s) = Done rs /\
  state_rel (set_sf_rs rs s) (set_rule_of r w t).
Proof.
  intros Hr. destruct Hrel as [H1 [R1 R2 R3] H3 H4 H5].
  destruct (rules_rel_put _ _ r w R1 Hr) as [E Hf]. eexists. split; [exact E|].
  by split.
Qed.

(** A register the interpreter does not track. *)
Lemma rel_ignored r w : 32 <= r -> state_rel s (set_rule_of r w t).
Proof.
  intros Hr. destruct Hrel as [H1 [R1 R2 R3] H3 H4 H5]. split; try done. split; try done.
  intros i Hi. cbn. destruct (Z.eqb_spec (Z.of_nat i) r); [lia|]. by apply R1.
Qed.

Lemma rel_set_rule r w wh v : small r -> RegInfo wh v = rule_info w -> exists rs,
  set_rule_offset r wh v (sf_rs s) = Done rs /\
  state_rel (set_sf_rs rs s) (set_rule_of r w t).
Proof.
  intros Hr E. unfold small in Hr. unfold set_rule_offset, validate_regnum.
  rewrite sw_small, u64_small, E by lia. change (Z.of_nat QUADD_NUM_REGS) with 32.
  destruct (Z.ltb_spec r 32); cbn [negb]; [apply rel_set_reg; lia|].
  exists (sf_rs s). split; [done|].
  assert (set_sf_rs (sf_rs s) s = s) as -> by (by destruct s).
  apply rel_ignored. lia.
Qed.

Lemma rel_set_cfa rs c : rules_rel rs (row_rule (t_row t)) ->
  cfa_register rs = c.1 -> cfa_offset rs = u64 c.2 -> state_rel (set_sf_rs rs s) (set_cfa c t).
Proof. intros A B C. destruct Hrel as [H1 H2 H3 H4 H5]. by split. Qed.

Lemma rel_remember : zlen (t_stack t) < DW_MAX_RS_STACK_DEPTH ->
  state_rel (set_stack (depth s + 1) (<[Z.to_nat (depth s) := sf_rs s]> (rs_stack s)) s)
    (Table (t_loc t) (t_row t) (t_row t :: t_stack t)).
Proof.
  intros Hlt. destruct Hrel as [H1 H2 [H3 H3'] H4 H5]. split; cbn [sf_pc sf_rs depth rs_stack
    set_stack t_loc t_row t_stack]; try done.
  - rewrite zlen_cons. lia.
  - unfold zlen in *. by rewrite length_insert.
  - intros i w Hw. cbn [rev] in Hw. apply lookup_app_Some in Hw as [Hw|[Hge Hw]].
    + assert (i < length (rev (t_stack t)))%nat by (eapply lookup_lt_Some, Hw).
      rewrite length_rev in *. rewrite list_lookup_insert_ne by (unfold zlen in *; lia).
      by apply H5.
    + rewrite length_rev in *. destruct (i - length (t_stack t))%nat as [|k] eqn:E; [|by destruct k].
      injection Hw as <-. assert (i = Z.to_nat (depth s)) as -> by (unfold zlen in *; lia).
      rewrite list_lookup_insert_eq by (unfold zlen in *; lia). by exists (sf_rs s).
Qed.

Lemma rel_restore w l : t_stack t = w :: l ->
  exists rs, rs_stack s !! Z.to_nat (depth s - 1) = Some rs /\
    state_rel (set_sf_rs rs (set_stack (depth s - 1) (rs_stack s) s)) (Table (t_loc t) w l).
Proof.
  intros El. destruct Hrel as [H1 H2 [H3 H3'] H4 H5]. rewrite El in *. rewrite zlen_cons in *.
  pose proof (zlen_nonneg l).
  assert (rev (w :: l) !! Z.to_nat (depth s - 1) = Some w) as Hl.
  { cbn [rev]. rewrite lookup_app_r by (rewrite length_rev; unfold zlen in *; lia).
    rewrite length_rev. replace (_ - _)%nat with 0%nat by (unfold zlen in *; lia). done. }
  destruct (H5 _ _ Hl) as (rs & E & Hrs). exists rs. split; [done|].
  split; cbn; try done; [lia|]. intros i w' Hw. apply H5. cbn [rev].
  by apply lookup_app_l_Some.
Qed.
End rel.

Section simulate.
Context `{ShiftOps}.
Context (ri : ex_region_info) (secid : Z) (cie : dw_cie) (rs_initial : regs_state).
Context (caf daf : Z) (rules0 : Z -> rule).
Hypothesis Hsec : section_ok ri secid.
Hypothesis Hlen : ti_length (ex_sec ri secid) < 2 ^ 31.
(** The first form of advance_loc multiplies in 32 bits. *)
Hypothesis Hcaf : code_align_factor cie = caf /\ 0 <= caf < 2 ^ 26.
Hypothesis Hdaf : data_align_factor cie = u64 daf.
Hypothesis Hrules0 : rules_rel rs_initial rules0.

Lemma factored_u v : factored cie v = u64 (v * daf).
Proof. unfold factored. by rewrite Hdaf, u64_mul_r. Qed.
Lemma factored_s v : factored cie (u64 v) = u64 (v * daf).
Proof. by rewrite factored_u, u64_mul_l. Qed.

(** What one instruction has to do, from its operands on. *)
Definition simulates (i : insn) (m : X bool) : Prop := forall s t,
  state_rel s t -> holds_at ri secid (c_insn s) (operands i) ->
  exists go s', m s = (Done go, s') /\ c_insn s' = c_insn s + zlen (operands i) /\
    match apply_insn caf daf rules0 i t with
    | Some t' => go = true /\ state_rel s' t'
    | None => go = false
    end /\ (go = false -> state_rel s' t).

Lemma bind_uleb {B} v (k : Z -> X B) s : small v -> holds_at ri secid (c_insn s) (uleb_enc 5 v) ->
  (x ← fetch_uleb ri secid; k x) s = k v (set_c_insn (c_insn s + zlen (uleb_enc 5 v)) s).
Proof.
  intros Hv Hb. rewrite (xbind_done _ _ _ _ _ (fetch_uleb_at ri secid Hsec Hlen v s
    ltac:(unfold small in Hv; lia) Hb)). by destruct (small_value v Hv) as [-> _].
Qed.

Lemma bind_sleb {B} v (k : Z -> X B) s : small_signed v ->
  holds_at ri secid (c_insn s) (sleb_enc 5 v) ->
  (x ← fetch_sleb ri secid; k x) s = k (u64 v) (set_c_insn (c_insn s + zlen (sleb_enc 5 v)) s).
Proof.
  intros Hv Hb. by rewrite (xbind_done _ _ _ _ _ (fetch_sleb_at ri secid Hsec Hlen v s Hv Hb)).
Qed.

Lemma bind_fetch {B} n v (k : Z -> X B) s : 0 <= v < 2 ^ (8 * Z.of_nat n) -> (n <= 8)%nat ->
  holds_at ri secid (c_insn s) (le_enc n v) ->
  (x ← fetch ri secid n; k x) s = k v (set_c_insn (c_insn s + zlen (le_enc n v)) s).
Proof.
  intros Hv Hn Hb. rewrite (xbind_done _ _ _ _ _ (fetch_at ri secid Hsec n _ s Hb
    (le_enc_length _ _) Hn)). by rewrite le_dec_enc, Z.mod_small.
Qed.

(** Two operands, one after the other. *)
Lemma holds_at_two s l1 l2 : holds_at ri secid (c_insn s) (l1 ++ l2) ->
  holds_at ri secid (c_insn s) l1 /\
  holds_at ri secid (c_insn (set_c_insn (c_insn s + zlen l1) s)) l2.
Proof. pose proof (section_range ri secid Hsec). intros Hb. apply holds_at_app in Hb; [done|lia]. Qed.

(** The state left, and the relation to show. *)
Ltac finish := eexists _, _; split; [reflexivity|];
  split; [cbn [c_insn set_c_insn set_sf_rs set_sf_pc set_stack operands]; rewrite ?zlen_app, ?zlen_nil; lia|];
  split; [split; [reflexivity|]|done].

Lemma sim_advance i n d : i = I_advance_loc1 d /\ n = 1%nat \/ i = I_advance_loc2 d /\ n = 2%nat \/
  i = I_advance_loc4 d /\ n = 4%nat -> insn_ok i ->
  simulates i (delta ← fetch ri secid n; advance_pc (delta * code_align_factor cie);; mret true).
Proof.
  intros Hi Hok s t Hs Hb.
  assert (operands i = le_enc n d /\ 0 <= d < 2 ^ (8 * Z.of_nat n) /\ (n <= 8)%nat /\
          apply_insn caf daf rules0 i t = Some (advance caf d t)) as (Eo & Hd & Hn & Ea)
    by (destruct Hi as [[-> ->]|[[-> ->]|[-> ->]]]; cbn in *; split_and!; try done; lia).
  rewrite Eo in *. rewrite (bind_fetch n d) by done. rewrite Ea, (proj1 Hcaf).
  finish. apply (rel_advance (set_c_insn _ s)), rel_c_insn, Hs.
Qed.

(** A rule is set. *)
Lemma sim_set_rule r w wh v a s t : state_rel s t -> small r -> RegInfo wh v = rule_info w ->
  exists s', (update_rs (set_rule_offset r wh v);; mret true) (set_c_insn a s) = (Done true, s') /\
    c_insn s' = a /\ state_rel s' (set_rule_of r w t).
Proof.
  intros Hs Hr E.
  destruct (rel_set_rule (set_c_insn a s) t (rel_c_insn s t Hs a) r w wh v Hr E) as (rs & Er & Hrs).
  exists (set_sf_rs rs (set_c_insn a s)). split; [|done]. by rewrite (bind_update _ rs).
Qed.

(** An instruction that sets a rule from one or two operands. *)
Lemma sim_rule_u i r o w v (f : Z -> Z) : operands i = uleb_enc 5 r ++ uleb_enc 5 o ->
  small r -> small o -> RegInfo v (f o) = rule_info w ->
  (forall t, apply_insn caf daf rules0 i t = Some (set_rule_of r w t)) ->
  simulates i (reg ← fetch_uleb ri secid; utmp ← fetch_uleb ri secid;
    update_rs (set_rule_offset reg v (f utmp));; mret true).
Proof.
  intros Eo Hr Ho Ew Ea s t Hs Hb. rewrite Eo in *. apply holds_at_two in Hb as [Hb1 Hb2].
  rewrite (bind_uleb r), (bind_uleb o) by done. rewrite Ea.
  destruct (sim_set_rule r w v (f o) (c_insn s + zlen (uleb_enc 5 r) + zlen (uleb_enc 5 o)) s t
              Hs Hr Ew) as (s' & E & Ec & Hrel).
  exists true, s'. split; [exact E|]. rewrite Ec, zlen_app. by split_and!; [lia|..].
Qed.

Lemma sim_rule_s i r o w v : operands i = uleb_enc 5 r ++ sleb_enc 5 o ->
  small r -> small_signed o -> RegInfo v (factored cie (u64 o)) = rule_info w ->
  (forall t, apply_insn caf daf rules0 i t = Some (set_rule_of r w t)) ->
  simulates i (reg ← fetch_uleb ri secid; stmp ← fetch_sleb ri secid;
    update_rs (set_rule_offset reg v (factored cie stmp));; mret true).
Proof.
  intros Eo Hr Ho Ew Ea s t Hs Hb. rewrite Eo in *. apply holds_at_two in Hb as [Hb1 Hb2].
  rewrite (bind_uleb r), (bind_sleb o) by done. rewrite Ea.
  destruct (sim_set_rule r w v _ (c_insn s + zlen (uleb_enc 5 r) + zlen (sleb_enc 5 o)) s t
              Hs Hr Ew) as (s' & E & Ec & Hrel).
  exists true, s'. split; [exact E|]. rewrite Ec, zlen_app. by split_and!; [lia|..].
Qed.

Lemma sim_rule i r w v : operands i = uleb_enc 5 r -> small r -> RegInfo v 0 = rule_info w ->
  (forall t, apply_insn caf daf rules0 i t = Some (set_rule_of r w t)) ->
  simulates i (reg ← fetch_uleb ri secid; update_rs (set_rule reg v 0);; mret true).
Proof.
  intros Eo Hr Ew Ea s t Hs Hb. rewrite Eo in *. rewrite (bind_uleb r) by done. rewrite Ea.
  destruct (sim_set_rule r w v 0 (c_insn s + zlen (uleb_enc 5 r)) s t Hs Hr Ew)
    as (s' & E & Ec & Hrel).
  exists true, s'. split; [exact E|]. rewrite Ec. by split_and!.
Qed.

Lemma opcode_split d k : 0 <= d < 64 -> 0 <= k < 4 ->
  dw_cfa_opcode (64 * k + d) = 64 * k /\ dw_cfa_operand (64 * k + d) = d.
Proof.
  intros Hd Hk. unfold dw_cfa_opcode, dw_cfa_operand.
  assert (Z.land (64 * k + d) 63 = d) as E.
  { change 63 with (Z.ones 6). rewrite Z.land_ones by lia. change (2 ^ 6) with 64. dlia. }
  split; [|done].
  assert (Z.lor (Z.land (64 * k + d) 192) (Z.land (64 * k + d) 63) = 64 * k + d) as Es.
  { rewrite <- Z.land_lor_distr_r. change (Z.lor 192 63) with (Z.ones 8).
    rewrite Z.land_ones by lia. apply Z.mod_small. lia. }
  rewrite E in Es.
  assert (Z.land (Z.land (64 * k + d) 192) d = 0) as Ez.
  { rewrite <- E at 2. set (x := 64 * k + d).
    assert (Z.land (Z.land x 192) (Z.land x 63) = Z.land x (Z.land 192 63)) as ->.
    { apply Z.bits_inj'. intros n _. rewrite !Z.land_spec. by destruct (Z.testbit x n). }
    by rewrite Z.land_0_r. }
  rewrite <- Z.lxor_lor, <- Z.add_nocarry_lxor in Es by done. lia.
Qed.

Lemma exec_low i : 0 <= opcode i < 64 ->
  exec_insn ri secid cie rs_initial (opcode i) = exec_switch ri secid cie (opcode i).
Proof.
  intros Hi. unfold exec_insn. destruct (opcode_split (opcode i) 0 Hi ltac:(lia)) as [E _].
  change (64 * 0 + opcode i) with (opcode i) in E. by rewrite E.
Qed.

Lemma exec_restore_invalid r : 32 <= r < 64 ->
  exec_switch ri secid cie (DW_CFA_restore + r) = mret true.
Proof.
  intros Hr. unfold exec_switch, exec_switch_rest.
  repeat match goal with
  | |- (if ?a =? ?b then _ else _) = _ =>
      destruct (Z.eqb_spec a b) as [E|_];
      [exfalso; let c := eval cbv in b in change b with c in E; unfold DW_CFA_restore in E; lia
      |cbn iota]
  end. done.
Qed.

Lemma sim_high i : match i with I_advance_loc _ | I_offset _ _ | I_restore _ => True | _ => False end ->
  insn_ok i -> simulates i (exec_insn ri secid cie rs_initial (opcode i)).
Proof.
  intros Hi Hok s t Hs Hb. unfold exec_insn.
  destruct i as [|d| | | |r o|r| | | | | | | | | | | | | |]; try done; cbn [insn_ok opcode] in *.
  - destruct (opcode_split d 1 Hok ltac:(lia)) as [E1 E2].
    change (64 * 1) with DW_CFA_advance_loc in *. rewrite E1, E2, (proj1 Hcaf).
    rewrite Z.eqb_refl, u32_small by nia. finish. by apply rel_advance.
  - destruct Hok as [Hr Ho]. destruct (opcode_split r 2 Hr ltac:(lia)) as [E1 E2].
    change (64 * 2) with DW_CFA_offset in *. rewrite E1, E2.
    change (DW_CFA_offset =? DW_CFA_advance_loc) with false. rewrite Z.eqb_refl. cbn iota.
    rewrite (bind_uleb o) by done.
    destruct (sim_set_rule r (Offset (o * daf)) DW_WHERE_CFAREL (factored cie o)
                (c_insn s + zlen (uleb_enc 5 o)) s t Hs ltac:(unfold small; lia)
                ltac:(cbn; by rewrite factored_u)) as (s' & E & Ec & Hrel).
    exists true, s'. split; [exact E|]. rewrite Ec. by split_and!.
  - destruct (opcode_split r 3 Hok ltac:(lia)) as [E1 E2].
    change (64 * 3) with DW_CFA_restore in *. rewrite E1, E2.
    change (DW_CFA_restore =? DW_CFA_advance_loc) with false.
    change (DW_CFA_restore =? DW_CFA_offset) with false. rewrite Z.eqb_refl. cbn [andb].
    unfold validate_regnum. rewrite u64_small by lia.
    destruct (Z.ltb_spec r (Z.of_nat QUADD_NUM_REGS)) as [Hlt|Hge].
    + change (Z.of_nat QUADD_NUM_REGS) with 32 in *.
      rewrite (Hrules0 (Z.to_nat r)) by lia. rewrite Z2Nat.id by lia.
      destruct (rel_set_reg s t Hs r (rules0 r) ltac:(lia)) as (rs & Er & Hrel).
      exists true, (set_sf_rs rs s). split; [|split; [cbn [operands]; rewrite zlen_nil; cbn; lia|done]].
      rewrite (xbind_done _ _ s (rule_info (rules0 r)) s eq_refl).
      by rewrite (bind_update _ rs).
    + change (Z.of_nat QUADD_NUM_REGS) with 32 in *.
      rewrite exec_restore_invalid by lia. finish. apply rel_ignored; [done|lia].
Qed.

Lemma sim_register r : small r -> simulates (I_def_cfa_register r)
  (utmp ← fetch_uleb ri secid; modify_rs (set_cfa_register (sw 32 utmp));; mret true).
Proof.
  intros Hr s t Hs Hb. cbn [operands] in Hb. rewrite (bind_uleb r) by done.
  destruct (small_value r Hr) as (_ & -> & _). finish.
  pose proof (sr_row _ _ Hs) as [R1 R2 R3]. by apply (rel_set_cfa (set_c_insn _ s) t (rel_c_insn s t Hs _)).
Qed.

Lemma sim_offset o : small o -> simulates (I_def_cfa_offset o)
  (utmp ← fetch_uleb ri secid; modify_rs (set_cfa_offset utmp);; mret true).
Proof.
  intros Ho s t Hs Hb. cbn [operands] in Hb. rewrite (bind_uleb o) by done. finish.
  pose proof (sr_row _ _ Hs) as [R1 R2 R3].
  apply (rel_set_cfa (set_c_insn _ s) t (rel_c_insn s t Hs _)); try done.
  cbn. by destruct (small_value o Ho) as (_ & _ & ->).
Qed.

Lemma sim_offset_sf o : small_signed o -> simulates (I_def_cfa_offset_sf o)
  (stmp ← fetch_sleb ri secid; modify_rs (set_cfa_offset (factored cie stmp));; mret true).
Proof.
  intros Ho s t Hs Hb. cbn [operands] in Hb. rewrite (bind_sleb o) by done. rewrite factored_s. finish.
  pose proof (sr_row _ _ Hs) as [R1 R2 R3].
  by apply (rel_set_cfa (set_c_insn _ s) t (rel_c_insn s t Hs _)).
Qed.

Lemma sim_def_cfa r o : small r -> small o -> simulates (I_def_cfa r o)
  (utmp ← fetch_uleb ri secid; modify_rs (set_cfa_register (sw 32 utmp));;
   utmp ← fetch_uleb ri secid; modify_rs (set_cfa_offset utmp);; mret true).
Proof.
  intros Hr Ho s t Hs Hb. cbn [operands] in Hb. apply holds_at_two in Hb as [Hb1 Hb2].
  rewrite (bind_uleb r) by done. destruct (small_value r Hr) as (_ & -> & _).
  rewrite bind_modify.
  rewrite (bind_uleb o) by done. finish.
  pose proof (sr_row _ _ Hs) as [R1 R2 R3].
  apply (rel_set_cfa (set_c_insn _ s) t (rel_c_insn s t Hs _)); try done.
  cbn. by destruct (small_value o Ho) as (_ & _ & ->).
Qed.

Lemma sim_def_cfa_sf r o : small r -> small_signed o -> simulates (I_def_cfa_sf r o)
  (utmp ← fetch_uleb ri secid; stmp ← fetch_sleb ri secid;
   modify_rs (fun rs => set_cfa_how DW_CFA_REG_OFFSET
     (set_cfa_offset (factored cie stmp) (set_cfa_register (sw 32 utmp) rs)));; mret true).
Proof.
  intros Hr Ho s t Hs Hb. cbn [operands] in Hb. apply holds_at_two in Hb as [Hb1 Hb2].
  rewrite (bind_uleb r), (bind_sleb o) by done. destruct (small_value r Hr) as (_ & -> & _).
  rewrite factored_s. finish.
  pose proof (sr_row _ _ Hs) as [R1 R2 R3].
  by apply (rel_set_cfa (set_c_insn _ s) t (rel_c_insn s t Hs _)).
Qed.

Lemma sim_remember : simulates I_remember_state remember_state.
Proof.
  intros s t Hs Hb. unfold remember_state. rewrite bind_xget.
  destruct (sr_depth _ _ Hs) as [Hd Hle]. cbn [apply_insn]. rewrite <- Hd in *.
  destruct (Z.leb_spec DW_MAX_RS_STACK_DEPTH (depth s)) as [Hge|Hlt].
  - eexists _, _. split; [reflexivity|]. split; [cbn [operands]; rewrite ?zlen_nil; lia|done].
  - finish. apply rel_remember; [done|lia].
Qed.

Lemma sim_restore : simulates I_restore_state restore_state.
Proof.
  intros s t Hs Hb. unfold restore_state. rewrite bind_xget.
  destruct (sr_depth _ _ Hs) as [Hd Hle]. cbn [apply_insn].
  destruct (t_stack t) as [|w l] eqn:El.
  - rewrite Hd. eexists _, _. split; [reflexivity|]. split; [cbn [operands]; rewrite ?zlen_nil; lia|done].
  - rewrite zlen_cons in *. pose proof (zlen_nonneg l).
    destruct (Z.eqb_spec (depth s) 0); [lia|].
    destruct (rel_restore s t Hs w l El) as (rs & E & Hrel). rewrite E. finish. exact Hrel.
Qed.

Lemma sim_args n : small n -> simulates (I_args_size n) (_ ← fetch_uleb ri secid; mret true).
Proof.
  intros Hn s t Hs Hb. cbn [operands] in Hb. rewrite (bind_uleb n) by done. finish.
  by apply rel_c_insn.
Qed.

(** Every instruction does what it means. *)
Lemma sim_insn i : insn_ok i -> simulates i (exec_insn ri secid cie rs_initial (opcode i)).
Proof.
  intros Hok.
  destruct i as [|d|d|d|d|r o|r|r|r|r o|r|o|r o|o|r o|r o|r o|r o| | |n];
    try (by apply sim_high);
    (rewrite exec_low by (cbv; split; congruence)); cbn [insn_ok] in Hok.
  - intros s t Hs Hb. finish. exact Hs.
  - exact (sim_advance _ 1 d ltac:(auto) Hok).
  - exact (sim_advance _ 2 d ltac:(auto) Hok).
  - exact (sim_advance _ 4 d ltac:(auto) Hok).
  - by apply (sim_rule _ r Undefined).
  - by apply (sim_rule _ r SameValue).
  - exact (sim_def_cfa r o (proj1 Hok) (proj2 Hok)).
  - exact (sim_register r Hok).
  - exact (sim_offset o Hok).
  - exact (sim_def_cfa_sf r o (proj1 Hok) (proj2 Hok)).
  - exact (sim_offset_sf o Hok).
  - apply (sim_rule_s _ r o (Offset (o * daf))); try apply Hok; [done| |done].
    cbn. by rewrite factored_s.
  - apply (sim_rule_u _ r o (ValOffset (o * daf)) _ (factored cie)); try apply Hok; [done| |done].
    cbn. by rewrite factored_u.
  - apply (sim_rule_s _ r o (ValOffset (o * daf))); try apply Hok; [done| |done].
    cbn. by rewrite factored_s.
  - apply (sim_rule_u _ r o (Offset (- (o * daf))) _ (fun v => u64 (- factored cie v)));
      try apply Hok; [done| |done].
    cbn. by rewrite factored_u, u64_opp.
  - exact sim_remember.
  - exact sim_restore.
  - exact (sim_args n Hok).
Qed.

(** ** A sequence of instructions *)

Lemma exec_loop_sim pc is_ : forall fuel s t, Forall insn_ok is_ -> state_rel s t ->
  holds_at ri secid (c_insn s) (concat (map insn_enc is_)) ->
  (length (concat (map insn_enc is_)) < fuel)%nat ->
  exists s', exec_loop ri secid cie rs_initial fuel
      (c_insn s + zlen (concat (map insn_enc is_))) pc s = (Done tt, s') /\
    state_rel s' (run_insns caf daf rules0 is_ pc t).
Proof.
  pose proof (section_range ri secid Hsec) as (R1 & R2 & R3).
  induction is_ as [|i is_ IH]; intros fuel s t Hok Hs Hb Hf.
  { destruct fuel as [|fuel]; [lia|]. exists s. cbn [map concat exec_loop run_insns].
    rewrite bind_xget, zlen_nil, Z.add_0_r, Z.ltb_irrefl. done. }
  apply Forall_cons_iff in Hok as [Hi Hok]. destruct fuel as [|fuel]; [lia|].
  cbn [map concat] in *. set (rest := concat (map insn_enc is_)) in *.
  cbn [run_insns exec_loop]. rewrite bind_xget.
  rewrite <- (sr_loc _ _ Hs). set (end_ := c_insn s + _).
  assert (c_insn s < end_) as Hlt.
  { unfold end_, insn_enc. rewrite <- app_comm_cons, zlen_cons.
    pose proof (zlen_nonneg (operands i ++ rest)). lia. }
  destruct (Z.ltb_spec (c_insn s) end_); [|lia]. cbn [andb].
  destruct (Z.leb_spec (sf_pc s) pc); [|by exists s].
  assert (end_ = c_insn s + 1 + zlen (operands i) + zlen rest) as Eend
    by (unfold end_, insn_enc; rewrite zlen_app, zlen_cons; lia).
  clearbody end_. unfold insn_enc in Hb.
  change ((opcode i :: operands i) ++ rest) with ([opcode i] ++ operands i ++ rest) in Hb.
  apply holds_at_app in Hb as [Hb1 Hb]; [|lia]. change (zlen [opcode i]) with 1 in Hb.
  apply holds_at_app in Hb as [Hb2 Hb3]; [|lia].
  rewrite (xbind_done _ _ _ _ _ (fetch_at ri secid Hsec 1 _ s Hb1 eq_refl ltac:(lia))).
  change (zlen [opcode i]) with 1. cbn [le_dec]. rewrite Z.mul_0_r, Z.add_0_r.
  destruct (sim_insn i Hi (set_c_insn (c_insn s + 1) s) t (rel_c_insn s t Hs _) Hb2)
    as (go & s2 & E & Ec & Hgo & Hstop).
  rewrite (xbind_done _ _ _ _ _ E). cbn [c_insn set_c_insn] in Ec.
  destruct (apply_insn caf daf rules0 i t) as [t'|].
  - destruct Hgo as [-> Hs2]. rewrite Eend, <- Ec. apply IH; try done.
    + by rewrite Ec.
    + unfold insn_enc in Hf. cbn [length] in Hf. rewrite length_app in Hf. cbn [length] in Hf. lia.
  - subst go. exists s2. split; [done|]. by apply Hstop.
Qed.
End simulate.

(** C31. The interpreter computes the row the standard describes. On any sequence
    of the instructions above, with operands that fit an int, it returns 0 with
    the rules, the frame address, the location and the remembered rows that the
    instructions mean, stopping at the first row beyond [pc]. *)
Theorem dwarf_cfa_exec_rows `{ShiftOps} fuel ri insn_start cie rs_initial pc is_eh s
    caf daf rules0 loc0 row0 is_ :
  region_ok ri -> code_align_factor cie = caf -> 0 <= caf < 2 ^ 26 ->
  data_align_factor cie = u64 daf -> rules_rel rs_initial rules0 ->
  sf_pc s = loc0 -> row_rel (sf_rs s) row0 -> zlen (rs_stack s) = DW_MAX_RS_STACK_DEPTH ->
  Forall insn_ok is_ ->
  let code := concat (map insn_enc is_) in
  holds_at ri (get_secid_frame is_eh) insn_start code -> (length code < fuel)%nat ->
  exists s', dwarf_cfa_exec_insns fuel ri insn_start (insn_start + zlen code) cie rs_initial pc
      is_eh s = (Done tt, s') /\
    state_rel s' (run_insns caf daf rules0 is_ pc (Table loc0 row0 [])).
Proof.
  intros Hr Hc1 Hc2 Hd Hr0 Hp Hrow Hst Hok code Hb Hf.
  assert (0 <= get_secid_frame is_eh < 6) as Hsec by (destruct is_eh; cbv; split; congruence).
  unfold dwarf_cfa_exec_insns. rewrite !bind_xmodify.
  apply (exec_loop_sim ri _ cie rs_initial caf daf rules0 (ro_sections _ Hr _ Hsec)
           (ro_lengths _ Hr _ Hsec) (conj Hc1 Hc2) Hd Hr0 pc is_ fuel
           (set_c_insn insn_start (set_stack 0 (rs_stack s) s))); try done.
Qed.

(** The code of [example_code]: after the advance, the frame is at sp+16 with
    x29 and x30 at its start. *)
Lemma dwarf_cfa_exec_rows_witness :
  let is_ := [I_def_cfa 31 0; I_advance_loc 1; I_def_cfa_offset 16; I_offset 29 2; I_offset 30 1] in
  exists s', @dwarf_cfa_exec_insns example_shifts 20 (example_region example_code []) example_base
      (example_base + 10) example_cie example_rs 0x400004 true (example_start 0x400000) = (Done tt, s') /\
    state_rel s' (run_insns 4 (-8) (fun _ => Undefined) is_ 0x400004
      (Table 0x400000 (Row (fun _ => Undefined) (-1, 0)) [])).
Proof.
  intros is_.
  apply (@dwarf_cfa_exec_rows example_shifts 20 (example_region example_code []) example_base example_cie
    example_rs 0x400004 true (example_start 0x400000) 4 (-8) (fun _ => Undefined) 0x400000
    (Row (fun _ => Undefined) (-1, 0)) is_); try done.
  - by apply example_region_ok.
  - intros r Hr. unfold example_rs. cbn [reg]. by apply lookup_replicate.
  - split; [|done..]. intros r Hr. unfold example_start, example_rs. cbn [reg sf_rs]. by apply lookup_replicate.
  - repeat constructor; cbv; try split; congruence.
  - cbn. lia.
Defined.
