(* ===== verification/DwarfTable.v ===== *)
(** * Unwind entries (dwarf_unwind.c, 486-498 and 1162-1777)

    Decoding of the CIE and FDE that describe a function, and the binary search
    table of [.eh_frame_hdr] that leads from a program counter to its FDE. *)

From S2P Require Import Prelude DwarfRead DwarfCfa.

(** ** Data *)

Record dw_fde := Fde {
  fde_offset : Z; fde_length : Z; cie_pointer : Z; fde_cie : dw_cie;
  initial_location : Z; address_range : Z;
  insn_length : Z; instructions : Z;
}.

Definition DW_CIE_ID : Z := 0xffffffff.

Definition set_entry (offset len : Z) (c : dw_cie) : dw_cie :=
  Cie offset len (aug_string c) (aug_size c) (fde_encoding c) (lsda_encoding c)
    (code_align_factor c) (data_align_factor c) (initial_insn_len c) (initial_insn c)
    (z_aug c) (retaddr_reg c) (personality c).
(** The fields read before the augmentation data. *)
Definition set_fixed (aug caf daf ra : Z) (c : dw_cie) : dw_cie :=
  Cie (cie_offset c) (cie_length c) aug (aug_size c) (fde_encoding c) (lsda_encoding c)
    caf daf (initial_insn_len c) (initial_insn c) (z_aug c) ra (personality c).
Definition set_z (size insn : Z) (c : dw_cie) : dw_cie :=
  Cie (cie_offset c) (cie_length c) (aug_string c) size (fde_encoding c) (lsda_encoding c)
    (code_align_factor c) (data_align_factor c) 0 insn
    true (retaddr_reg c) (personality c).
Definition set_no_z (c : dw_cie) : dw_cie :=
  Cie (cie_offset c) (cie_length c) (aug_string c) (aug_size c) (fde_encoding c)
    (lsda_encoding c) (code_align_factor c) (data_align_factor c) 0 0
    false (retaddr_reg c) (personality c).
Definition set_encodings (fde lsda pers : Z) (c : dw_cie) : dw_cie :=
  Cie (cie_offset c) (cie_length c) (aug_string c) (aug_size c) fde lsda
    (code_align_factor c) (data_align_factor c) (initial_insn_len c) (initial_insn c)
    (z_aug c) (retaddr_reg c) pers.
Definition set_initial (len insn : Z) (c : dw_cie) : dw_cie :=
  Cie (cie_offset c) (cie_length c) (aug_string c) (aug_size c) (fde_encoding c)
    (lsda_encoding c) (code_align_factor c) (data_align_factor c) len insn
    (z_aug c) (retaddr_reg c) (personality c).

Section decode.
Context `{ShiftOps}.
(** The region, and cpu_ctx->dw_ptr_size. *)
Context (ri : ex_region_info) (dw_ptr_size : Z).

(** ** Common information entries *)

(** strnlen: plain loads, up to [n] of them. *)
Fixpoint strnlen (n : nat) (p : Z) : outcome Z :=
  match n with
  | O => mret 0
  | S n =>
      c ← load 1 ri p;
      if c =? 0 then mret 0 else len ← strnlen n (u64 (p + 1)); mret (len + 1)
  end.

Definition ch_z : Z := 122.
Definition ch_L : Z := 76.
Definition ch_R : Z := 82.
Definition ch_P : Z := 80.
Definition ch_S : Z := 83.

(** while ( *aug != '\0'): the augmentation data behind [p]. *)
Fixpoint aug_loop (fuel : nat) (secid end_ aug p : Z) (cie : dw_cie) : outcome (Z * dw_cie) :=
  match fuel with
  | O => Timeout
  | S fuel =>
      c ← load 1 ri aug;
      if c =? 0 then mret (p, cie)
      else if end_ <=? p then Error (- QUADD_URC_TBL_IS_CORRUPT)
      else if c =? ch_L then
        v ← read_mmap_data_u8 ri p secid;
        aug_loop fuel secid end_ (u64 (aug + 1)) (u64 (p + 1))
          (set_encodings (fde_encoding cie) v (personality cie) cie)
      else if c =? ch_R then
        v ← read_mmap_data_u8 ri p secid;
        aug_loop fuel secid end_ (u64 (aug + 1)) (u64 (p + 1))
          (set_encodings v (lsda_encoding cie) (personality cie) cie)
      else if c =? ch_P then
        handler_encoding ← load 1 ri p;
        let p := u64 (p + 1) in
        '(pers, cnt) ← dwarf_read_encoded_value ri dw_ptr_size p
                         (mmap_addr_to_ex_addr p ri secid) handler_encoding secid;
        if cnt <? 0 then Error cnt
        else
          aug_loop fuel secid end_ (u64 (aug + 1)) (u64 (p + cnt))
            (set_encodings (fde_encoding cie) (lsda_encoding cie) pers cie)
      else if c =? ch_S then aug_loop fuel secid end_ (u64 (aug + 1)) p cie
      else Error (- QUADD_URC_UNHANDLED_INSTRUCTION)
  end.

(** From the version on: the augmentation string, the factors, the return
    address column. *)
Definition cie_fixed (secid cie_version end_ p : Z) (cie : dw_cie) : outcome (Z * Z * dw_cie) :=
  let max_len := u32 (end_ - p - 1) in
  len ← strnlen (Z.to_nat max_len) p;
  if len =? max_len then Error (- QUADD_URC_TBL_IS_CORRUPT)
  else
    let aug := p in
    let p := u64 (p + u32 (len + 1)) in
    '(caf, n) ← dwarf_read_uleb128 ri p secid; let p := u64 (p + n) in
    '(daf, n) ← dwarf_read_sleb128 ri p secid; let p := u64 (p + n) in
    if cie_version =? 1 then
      ra ← read_mmap_data_u8 ri p secid;
      mret (u64 (p + 1), len, set_fixed aug caf daf ra cie)
    else
      '(utmp, n) ← dwarf_read_uleb128 ri p secid;
      mret (u64 (p + n), len, set_fixed aug caf daf (u32 utmp) cie).

Definition decode_cie_entry (cie : dw_cie) (entry length : Z) (is_eh : bool) : outcome dw_cie :=
  let secid := get_secid_frame is_eh in
  let p := u64 (entry + 4) in
  let end_ := u64 (entry + length) in
  id ← read_mmap_data_u32 ri p secid;
  let p := u64 (p + 4) in
  if negb (id =? (if is_eh then 0 else DW_CIE_ID)) then Error (- QUADD_URC_TBL_IS_CORRUPT)
  else
    cie_version ← read_mmap_data_u8 ri p secid;
    let p := u64 (p + 1) in
    if negb (cie_version =? 1) && negb (cie_version =? 3)
    then Error (- QUADD_URC_TBL_IS_CORRUPT)
    else if end_ <=? p then Error (- QUADD_URC_TBL_IS_CORRUPT)
    else
      '(p, len, cie) ← cie_fixed secid cie_version end_ p cie;
      c ← load 1 ri (aug_string cie);
      '(aug, p, cie) ←
        (if c =? ch_z then
           '(size, n) ← dwarf_read_uleb128 ri p secid;
           let p := u64 (p + n) in
           mret (u64 (aug_string cie + 1), p, set_z size (u64 (p + size)) cie)
         else mret (aug_string cie, p, set_no_z cie));
      '(p, cie) ← aug_loop (S (Z.to_nat len)) secid end_ aug p
                    (set_encodings 0 DW_EH_PE_omit 0 cie);
      if end_ <? p then Error (- QUADD_URC_TBL_IS_CORRUPT)
      else if p =? end_ then mret cie
      else
        let insn := if initial_insn cie =? 0 then p else initial_insn cie in
        mret (set_initial (u32 (end_ - insn)) insn cie).

(** ** Frame description entries *)

Definition decode_fde_entry (fde : dw_fde) (entry length : Z) (is_eh : bool) : outcome dw_fde :=
  let secid := get_secid_frame is_eh in
  let cie := fde_cie fde in
  let end_ := u64 (entry + length) in
  let p := u64 (entry + 8) in
  '(loc, count) ← dwarf_read_encoded_value ri dw_ptr_size p (mmap_addr_to_ex_addr p ri secid)
                    (fde_encoding cie) secid;
  if count <? 0 then Error count
  else
    let p := u64 (p + count) in
    range ← read_mmap_data_u32 ri p secid;
    let p := u64 (p + 4) in
    let loc := if loc <? vm_start ri then u64 (loc + vm_start ri) else loc in
    p ← (if z_aug cie then
           '(utmp, n) ← dwarf_read_uleb128 ri p secid; mret (u64 (u64 (p + n) + utmp))
         else mret p);
    if end_ <? p then Error (- QUADD_URC_TBL_IS_CORRUPT)
    else
      let insn_length := u32 (end_ - p) in
      mret (Fde (fde_offset fde) (fde_length fde) (cie_pointer fde) cie loc range
              insn_length (if 0 <? insn_length then p else 0)).

Definition frame_start (is_eh : bool) : Z :=
  let secid := get_secid_frame is_eh in
  ex_addr_to_mmap_addr (ti_addr (ex_sec ri secid)) ri secid.

(** The entries are filled in place: [cie] is what the caller's struct held. *)
Definition dwarf_decode_fde_cie (fde_p : Z) (cie : dw_cie) (is_eh : bool)
    : outcome (dw_cie * dw_fde) :=
  let secid := get_secid_frame is_eh in
  length ← read_mmap_data_u32 ri fde_p secid;
  let p := u64 (fde_p + 4) in
  if length =? 0xffffffff then Error (- QUADD_URC_UNHANDLED_INSTRUCTION)
  else
    let fde_len := length + 4 in
    ptr ← read_mmap_data_u32 ri p secid;
    let cie_p := if is_eh then u64 (p - ptr) else u64 (frame_start is_eh + ptr) in
    length ← read_mmap_data_u32 ri cie_p secid;
    if length =? 0xffffffff then Error (- QUADD_URC_UNHANDLED_INSTRUCTION)
    else
      let cie := set_entry (u64 (cie_p - frame_start is_eh)) (length + 4) cie in
      cie ← decode_cie_entry cie cie_p (length + 4) is_eh;
      fde ← decode_fde_entry
              (Fde (u64 (fde_p - frame_start is_eh)) fde_len ptr cie 0 0 0 0)
              fde_p fde_len is_eh;
      mret (cie, fde).

(** ** The binary search table *)

(** struct dw_fde_table: two s32. *)
Definition dw_bst_get_initial_loc (fi data_base : Z) : outcome Z :=
  v ← load 4 ri fi; mret (u64 (data_base + sw 32 v)).
Definition dw_bst_get_fde_addr (fi data_base : Z) : outcome Z :=
  v ← load 4 ri (u64 (fi + 4)); mret (u64 (data_base + sw 32 v)).

(** while (start < stop - 1) *)
Fixpoint bst_loop (fuel : nat) (data_base start stop addr : Z) : outcome Z :=
  match fuel with
  | O => Timeout
  | S fuel =>
      if start <? u64 (stop - 8) then
        let mid := u64 (start + 8 * Z.shiftr ((stop - start) / 8) 1) in
        initial_loc ← dw_bst_get_initial_loc mid data_base;
        if addr <? initial_loc then bst_loop fuel data_base start mid addr
        else bst_loop fuel data_base mid stop addr
      else mret start
  end.

(** The table has fewer than 2^61 entries; every round halves the interval. *)
Definition bst_fuel : nat := 64.

(** The address of an entry, 0 for NULL. *)
Definition dwarf_bst_find_idx (data_base fde_table length addr : Z) : outcome Z :=
  if length =? 0 then mret 0
  else
    let stop := u64 (fde_table + 8 * (length - 1)) in
    initial_loc ← dw_bst_get_initial_loc fde_table data_base;
    if addr <? initial_loc then mret 0
    else
      initial_loc ← dw_bst_get_initial_loc stop data_base;
      if initial_loc <=? addr then mret 0
      else bst_loop bst_fuel data_base fde_table stop addr.

(** A value, or nothing when the function returned an error. *)
Definition catch {A} (o : outcome A) : outcome (option A) :=
  match o with
  | Done x => Done (Some x)
  | Error _ => Done None
  | Faulty site => Faulty site
  | Timeout => Timeout
  end.

(** The count of an encoded value, as its callers test it. *)
Definition nonneg (r : option (Z * Z)) : option (Z * Z) :=
  match r with
  | Some (v, count) => if count <? 0 then None else Some (v, count)
  | None => None
  end.

(** The table and the number of entries; [data] is the section, of [length] bytes. *)
Definition dwarf_get_bs_table (data length data_base : Z) (is_eh : bool)
    : outcome (option (Z * Z)) :=
  if length <=? 4 then mret None
  else
    let secid_hdr := get_secid_frame_hdr is_eh in
    let end_ := u64 (data + length) in
    version ← load 1 ri data;
    if negb (version =? 1) then mret None
    else
      let p := u64 (data + 4) in
      frame_ptr_enc ← load 1 ri (u64 (data + 1));
      fp ← (if negb (frame_ptr_enc =? DW_EH_PE_omit) then
              catch (dwarf_read_encoded_value ri dw_ptr_size p data_base frame_ptr_enc secid_hdr)
            else mret (Some (0, 0)));
      match nonneg fp with
      | None => mret None
      | Some (_, count) =>
          let p := u64 (p + count) in
          fde_count_enc ← load 1 ri (u64 (data + 2));
          if fde_count_enc =? DW_EH_PE_omit then mret None
          else
            fc ← catch (dwarf_read_encoded_value ri dw_ptr_size p data_base fde_count_enc secid_hdr);
            match nonneg fc with
            | None => mret None
            | Some (fde_count, count) =>
                let p := u64 (p + count) in
                if end_ <=? p then mret None
                else if negb (u64 (fde_count * 8) =? end_ - p) then mret None
                else
                  table_enc ← load 1 ri (u64 (data + 3));
                  if negb (table_enc =? Z.lor DW_EH_PE_datarel DW_EH_PE_sdata4) then mret None
                  else mret (Some (p, fde_count))
            end
      end.

(** ** Finding the entry *)

(** A call of quadd_unwind_set_tail_info: vm_start, secid, start, end. *)
Definition tail_info : Type := Z * Z * Z * Z.

(** The last entry of the table: its function ends where its FDE says. [store]
    is sf && !sf->is_sched. *)
Definition find_last (fi data_base pc init_loc : Z) (store is_eh : bool) (cie0 : dw_cie)
    : outcome (Z * list tail_info) :=
  let secid := get_secid_frame is_eh in
  let ti := ex_sec ri secid in
  a ← dw_bst_get_fde_addr fi data_base;
  let fde_addr := ex_addr_to_mmap_addr a ri secid in
  if pc =? init_loc then mret (fde_addr, [])
  else if 0 <? ti_tf_end ti then
    mret (if (ti_tf_start ti <=? pc) && (pc <? ti_tf_end ti) then fde_addr else 0, [])
  else
    r ← catch (dwarf_decode_fde_cie fde_addr cie0 is_eh);
    match r with
    | None => mret (0, [])
    | Some (_, fde) =>
        let start := initial_location fde in
        let end_ := u64 (start + address_range fde) in
        mret (if (start <=? pc) && (pc <? end_) then fde_addr else 0,
              if store : bool then [(vm_start ri, secid, start, end_)] else [])
    end.

(** The address of the FDE, 0 for NULL, and the tail information stored. *)
Definition dwarf_find_fde (data length pc : Z) (store is_eh : bool) (cie0 : dw_cie)
    : outcome (Z * list tail_info) :=
  let data_base := ti_addr (ex_sec ri (get_secid_frame_hdr is_eh)) in
  t ← dwarf_get_bs_table data length data_base is_eh;
  match t with
  | None => mret (0, [])
  | Some (bst, fde_count) =>
      if (bst =? 0) || (fde_count =? 0) then mret (0, [])
      else
        let fi := u64 (bst + 8 * (fde_count - 1)) in
        init_loc ← dw_bst_get_initial_loc fi data_base;
        if init_loc <=? pc then find_last fi data_base pc init_loc store is_eh cie0
        else
          fi ← dwarf_bst_find_idx data_base bst fde_count pc;
          if fi =? 0 then mret (0, [])
          else
            a ← dw_bst_get_fde_addr fi data_base;
            mret (ex_addr_to_mmap_addr a ri (get_secid_frame is_eh), [])
  end.

Definition hdr_start (is_eh : bool) : Z :=
  let secid_hdr := get_secid_frame_hdr is_eh in
  ex_addr_to_mmap_addr (ti_addr (ex_sec ri secid_hdr)) ri secid_hdr.
Definition hdr_len (is_eh : bool) : Z := ti_length (ex_sec ri (get_secid_frame_hdr is_eh)).

Definition __is_fde_entry_exist (addr : Z) (is_eh : bool) (cie0 : dw_cie) : outcome bool :=
  '(fde_p, _) ← dwarf_find_fde (hdr_start is_eh) (hdr_len is_eh) addr false is_eh cie0;
  mret (negb (fde_p =? 0)).

(** is_eh and is_debug; the return value is whether one of them is set. *)
Definition is_fde_entry_exist (addr : Z) (cie0 : dw_cie) : outcome (bool * bool) :=
  is_eh ← (if is_frame_present ri true then __is_fde_entry_exist addr true cie0 else mret false);
  is_debug ← (if is_frame_present ri false then __is_fde_entry_exist addr false cie0 else mret false);
  mret (is_eh, is_debug).

(** The entries that cover [pc], and the tail information stored on the way,
    also when the function then fails. *)
Definition dwarf_decode (pc : Z) (store is_eh : bool) (cie0 : dw_cie)
    : outcome (dw_cie * dw_fde) * list tail_info :=
  match dwarf_find_fde (hdr_start is_eh) (hdr_len is_eh) pc store is_eh cie0 with
  | Done (fde_p, tails) =>
      (if fde_p =? 0 then Error (- QUADD_URC_IDX_NOT_FOUND)
       else
         '(cie, fde) ← dwarf_decode_fde_cie fde_p cie0 is_eh;
         if (pc <? initial_location fde) ||
            (u64 (initial_location fde + address_range fde) <=? pc)
         then Error (- QUADD_URC_IDX_NOT_FOUND)
         else mret (cie, fde), tails)
  | Error e => (Error e, [])
  | Faulty site => (Faulty site, [])
  | Timeout => (Timeout, [])
  end.
End decode.

(** ** The search *)

(** [n] entries at [t], inside the area. *)
Record table_ok (ri : ex_region_info) (t n : Z) : Prop := {
  tk_bytes : bytes_ok (mm_bytes (mmap ri));
  tk_count : 0 < n < 2 ^ 60;
  tk_low : 8 <= mm_data (mmap ri) <= t;
  tk_high : t + 8 * n <= mm_data (mmap ri) + zlen (mm_bytes (mmap ri)) < 2 ^ 64;
}.

(** Where function [i] of the table starts, and its FDE. *)
Definition entry_loc (ri : ex_region_info) (data_base t i : Z) : Z :=
  u64 (data_base + sw 32 (le_dec (bytes_at ri (t + 8 * i) 4))).
Definition entry_fde (ri : ex_region_info) (data_base t i : Z) : Z :=
  u64 (data_base + sw 32 (le_dec (bytes_at ri (t + 8 * i + 4) 4))).

Lemma initial_loc_at ri data_base t n i : table_ok ri t n -> 0 <= i < n ->
  dw_bst_get_initial_loc ri (t + 8 * i) data_base = Done (entry_loc ri data_base t i).
Proof.
  intros [H1 H2 H3 H4] Hi. unfold dw_bst_get_initial_loc. rewrite plain_load_ok by lia. done.
Qed.

Lemma fde_addr_at ri data_base t n i : table_ok ri t n -> 0 <= i < n ->
  dw_bst_get_fde_addr ri (t + 8 * i) data_base = Done (entry_fde ri data_base t i).
Proof.
  intros [H1 H2 H3 H4] Hi. unfold dw_bst_get_fde_addr. rewrite u64_small by lia.
  rewrite plain_load_ok by lia. done.
Qed.

Lemma bst_loop_spec ri data_base t n addr : table_ok ri t n -> forall fuel i j,
  0 <= i < j -> j < n -> j - i <= 2 ^ (Z.of_nat fuel - 1) -> (0 < fuel)%nat ->
  entry_loc ri data_base t i <= addr < entry_loc ri data_base t j ->
  exists k, i <= k < j /\
    bst_loop ri fuel data_base (t + 8 * i) (t + 8 * j) addr = Done (t + 8 * k) /\
    entry_loc ri data_base t k <= addr < entry_loc ri data_base t (k + 1).
Proof.
  intros Ht. pose proof Ht as [H1 H2 H3 H4].
  induction fuel as [|fuel IH]; intros i j Hij Hj Hf H0 Ha; [lia|]. cbn [bst_loop].
  rewrite u64_small by lia. destruct (Z.ltb_spec (t + 8 * i) (t + 8 * j - 8)).
  - replace ((t + 8 * j - (t + 8 * i)) / 8) with (j - i) by dlia.
    rewrite Z.shiftr_div_pow2 by lia. change (2 ^ 1) with 2.
    replace (t + 8 * i + 8 * ((j - i) / 2)) with (t + 8 * (i + (j - i) / 2)) by lia.
    set (mid := i + (j - i) / 2). assert (i < mid < j) as Hm by (unfold mid; dlia).
    assert (1 <= Z.of_nat fuel) as Hfuel.
    { destruct fuel; [|lia]. change (2 ^ (Z.of_nat 1 - 1)) with 1 in Hf. lia. }
    assert (2 ^ (Z.of_nat (S fuel) - 1) = 2 * 2 ^ (Z.of_nat fuel - 1)) as Hp
      by (rewrite <- Z.pow_succ_r by lia; f_equal; lia).
    rewrite Hp in Hf. rewrite u64_small by lia. rewrite (initial_loc_at ri data_base t n) by (done || lia).
    cbn [mbind outcome_bind]. destruct (Z.ltb_spec addr (entry_loc ri data_base t mid)).
    + destruct (IH i mid) as (k & K1 & K2 & K3); try (done || lia); [unfold mid; dlia|].
      exists k. split; [lia|]. by split.
    + destruct (IH mid j) as (k & K1 & K2 & K3); try (done || lia); [unfold mid; dlia|].
      exists k. split; [lia|]. by split.
  - exists i. split; [lia|]. split; [done|]. by replace (i + 1) with j by lia.
Qed.

(** The search ends and reads the table only. It finds nothing below the first
    and from the last location on; in between it finds an entry whose function
    starts at or before the address, while the next one starts after it. *)
Theorem dwarf_bst_find_idx_spec ri data_base t n addr : table_ok ri t n ->
  exists r, dwarf_bst_find_idx ri data_base t n addr = Done r /\
  if (addr <? entry_loc ri data_base t 0) || (entry_loc ri data_base t (n - 1) <=? addr)
  then r = 0
  else exists i, 0 <= i < n - 1 /\ r = t + 8 * i /\
    entry_loc ri data_base t i <= addr < entry_loc ri data_base t (i + 1).
Proof.
  intros Ht. pose proof Ht as [H1 H2 H3 H4]. unfold dwarf_bst_find_idx.
  destruct (Z.eqb_spec n 0); [lia|]. rewrite u64_small by lia.
  pose proof (initial_loc_at ri data_base t n 0 Ht ltac:(lia)) as E0. rewrite Z.mul_0_r, Z.add_0_r in E0.
  rewrite E0. cbn [mbind outcome_bind].
  destruct (Z.ltb_spec addr (entry_loc ri data_base t 0)); cbn [orb]; [by exists 0|].
  rewrite (initial_loc_at ri data_base t n) by (done || lia). cbn [mbind outcome_bind].
  destruct (Z.leb_spec (entry_loc ri data_base t (n - 1)) addr); [by exists 0|].
  assert (n - 1 <> 0) by (intros E; rewrite E in *; lia).
  destruct (bst_loop_spec ri data_base t n addr Ht bst_fuel 0 (n - 1)) as (k & K1 & K2 & K3);
    try (unfold bst_fuel; lia).
  rewrite Z.mul_0_r, Z.add_0_r in K2. rewrite K2. exists (t + 8 * k). split; [done|].
  exists k. repeat split; lia || done.
Qed.

(** ** Decoding an entry that lies in its section *)

Section decode_facts.
Context `{ShiftOps}.
Context (ri : ex_region_info).
Hypothesis Hr : region_ok ri.

Lemma ALIGN_ptr_ge a sz : sz = 4 \/ sz = 8 -> 0 <= a < 2 ^ 64 ->
  a <= ALIGN_ptr a sz <= a + sz \/ ALIGN_ptr a sz = 0.
Proof.
  intros Hsz Ha. unfold ALIGN_ptr.
  assert (exists k, 0 < k < 10 /\ sz = 2 ^ k) as (k & Hk & ->)
    by (destruct Hsz as [-> | ->]; [exists 2|exists 3]; lia).
  rewrite land_lnot_mask by lia. pose proof (pow2_pos k).
  destruct (Z.lt_ge_cases (a + (2 ^ k - 1)) (2 ^ 64)) as [Hlt|Hge].
  - left. rewrite u64_small by lia.
    pose proof (Z.mod_pos_bound (a + (2 ^ k - 1)) (2 ^ k)). lia.
  - right. set (b := u64 (a + (2 ^ k - 1))).
    assert (b < 2 ^ k) as Hb.
    { unfold b, uw. assert (2 ^ k <= 2 ^ 64) by (apply Z.pow_le_mono_r; lia).
      rewrite <- (Z.mod_unique (a + (2 ^ k - 1)) (2 ^ 64) 1 (a + (2 ^ k - 1) - 2 ^ 64)); lia. }
    assert (0 <= b) by apply u64_range. rewrite Z.mod_small by lia. lia.
Qed.

Section within.
Context (a st : Z).
Hypothesis Hst : 0 <= st < 6.

Lemma read_within n x : (n <= 8)%nat -> read_mmap_data n ri a st = Done x ->
  sec_start ri st <= a /\ a + Z.of_nat n <= sec_end ri st.
Proof.
  intros Hn. rewrite read_ok by (done || by apply ro_sections).
  case_match eqn:E; [intros _; lia|intros E'; discriminate E'].
Qed.

Lemma read_ptr_within sz err x : sz = 4 \/ sz = 8 -> read_ptr ri sz a st err = Done x ->
  sec_start ri st <= a /\ a + sz <= sec_end ri st.
Proof.
  unfold read_ptr, read_mmap_data_u32, read_mmap_data_u64.
  intros [-> | ->] E; apply read_within in E; lia.
Qed.

Lemma encoded_raw_within fmt s n : encoded_raw ri a fmt st = Done (s, n) ->
  sec_start ri st <= a + n <= sec_end ri st /\ 0 < n < 2 ^ 31.
Proof.
  pose proof (ro_sections _ Hr st Hst) as Hsec. pose proof (ro_lengths _ Hr st Hst) as Hlen.
  destruct (leb_safe ri a st Hsec Hlen) as [Hu Hsl]. intros E.
  pose proof (encoded_raw_safe ri a fmt st Hsec Hlen) as Hs. rewrite E in Hs. cbn in Hs.
  revert E. unfold encoded_raw, read_mmap_data_s16, read_mmap_data_s32, read_mmap_data_s64.
  repeat case_match; [| | |destruct (dwarf_read_uleb128 ri a st) as [[v m]| | |]
                       |destruct (dwarf_read_sleb128 ri a st) as [[v m]| | |]|].
  1-3: destruct (read_mmap_data _ ri a st) eqn:E; cbn; try (intros E'; discriminate E');
    intros [= <- <-]; apply read_within in E; lia.
  1, 5: cbn; intros [= <- <-]; unfold leb_ok in *; cbn in *; lia.
  all: intros E'; discriminate E'.
Qed.
End within.

(** The bytes of a value lie in the section. *)
Lemma encoded_value_within sz a base enc st : 0 <= st < 6 -> sz = 4 \/ sz = 8 -> 0 <= a < 2 ^ 64 ->
  safe (fun r => 0 <= r.1 < 2 ^ 64 /\ 0 <= r.2 < 2 ^ 31 /\
          (r.2 = 0 \/ sec_start ri st <= a + r.2 <= sec_end ri st))
    (dwarf_read_encoded_value ri sz a base enc st).
Proof.
  intros Hst Hsz Ha. pose proof (encoded_value_safe ri sz a base enc st Hr Hst Hsz) as Hs.
  pose proof (section_range ri st (ro_sections _ Hr st Hst)) as (R1 & R2 & R3).
  destruct (dwarf_read_encoded_value ri sz a base enc st) as [[v n]|e| |] eqn:E; cbn in *; try done.
  destruct Hs as [Hv Hn]. split; [done|]. split; [done|]. revert E. unfold dwarf_read_encoded_value.
  repeat case_match; [intros [= <- <-]; by left| | |].
  - destruct (read_ptr ri sz (ALIGN_ptr a sz) st _) eqn:Ep; cbn; try (intros E'; discriminate E').
    intros [= <- <-]. right. apply read_ptr_within in Ep; try done.
    destruct (ALIGN_ptr_ge a sz Hsz Ha); lia.
  - destruct (read_ptr ri sz a st _) eqn:Ep; cbn; try (intros E'; discriminate E').
    intros [= <- <-]. right. apply read_ptr_within in Ep; try done. lia.
  - destruct (encoded_raw ri a _ st) as [[s m]| | |] eqn:Er; cbn; try (intros E'; discriminate E').
    apply encoded_raw_within in Er; [|done].
    destruct (encoded_base base s _); cbn; try (intros E'; discriminate E').
    destruct (encoded_indirect ri sz _ enc); cbn; try (intros E'; discriminate E').
    intros [= <- <-]. right. rewrite sw_small by lia. lia.
Qed.

Lemma load_in st a : 0 <= st < 6 -> sec_start ri st <= a < sec_end ri st ->
  exists c, load 1 ri a = Done c.
Proof.
  intros Hst Ha. pose proof (section_range ri st (ro_sections _ Hr st Hst)).
  rewrite plain_load_ok by (unfold sec_end, sec_start in *; lia). eauto.
Qed.

(** strnlen of bytes of the section: the number of bytes before a zero byte, all
    of them readable. *)
Lemma strnlen_safe st : 0 <= st < 6 -> forall n p,
  sec_start ri st <= p -> p + Z.of_nat n <= sec_end ri st ->
  exists len, strnlen ri n p = Done len /\ 0 <= len <= Z.of_nat n /\
    (len < Z.of_nat n -> load 1 ri (p + len) = Done 0).
Proof.
  intros Hst. pose proof (section_range ri st (ro_sections _ Hr st Hst)) as (R1 & R2 & R3).
  induction n as [|n IH]; intros p Hp He; cbn [strnlen].
  { exists 0. split; [done|]. split; [lia|]. cbn. lia. }
  destruct (load_in st p Hst ltac:(lia)) as [c Hc]. rewrite Hc. cbn [mbind outcome_bind].
  destruct (Z.eqb_spec c 0) as [->|].
  - exists 0. rewrite Z.add_0_r. split; [done|]. split; [lia|done].
  - rewrite u64_small by lia. destruct (IH (p + 1)) as (len & E & H1 & H2); [lia..|].
    rewrite E. cbn [mbind outcome_bind]. exists (len + 1). split; [done|]. split; [lia|].
    intros Hl. replace (p + (len + 1)) with (p + 1 + len) by lia. apply H2. lia.
Qed.

(** What [aug_loop] keeps of the entry. *)
Definition same_entry (c c' : dw_cie) : Prop :=
  initial_insn c' = initial_insn c /\ z_aug c' = z_aug c /\
  code_align_factor c' = code_align_factor c /\ data_align_factor c' = data_align_factor c.

Lemma same_entry_trans c1 c2 c3 : same_entry c1 c2 -> same_entry c2 c3 -> same_entry c1 c3.
Proof. unfold same_entry. intuition congruence. Qed.

(** The augmentation string ends at [z], before [end_]; the data is read behind it. *)
Lemma aug_loop_safe sz secid end_ z : 0 <= secid < 6 -> sz = 4 \/ sz = 8 ->
  end_ <= sec_end ri secid -> z < end_ -> load 1 ri z = Done 0 ->
  forall fuel aug p cie, z - aug < Z.of_nat fuel -> sec_start ri secid <= aug <= z ->
  sec_start ri secid <= p <= sec_end ri secid ->
  safe (fun r => same_entry cie r.2 /\ sec_start ri secid <= r.1 <= sec_end ri secid)
    (aug_loop ri sz fuel secid end_ aug p cie).
Proof.
  intros Hst Hsz Hend Hz Hz0. pose proof (ro_sections _ Hr secid Hst) as Hsec.
  pose proof (section_range ri secid Hsec) as (R1 & R2 & R3).
  induction fuel as [|fuel IH]; intros aug p cie Hf Ha Hp; [lia|]. cbn [aug_loop].
  destruct (load_in secid aug Hst ltac:(lia)) as [c Hc]. rewrite Hc. cbn [mbind outcome_bind].
  destruct (Z.eqb_spec c 0); [cbn; split; [done|lia]|].
  assert (aug <> z) by congruence.
  destruct (Z.leb_spec end_ p); [done|].
  rewrite (u64_small (aug + 1)) by lia. rewrite (u64_small (p + 1)) by lia.
  assert (forall p' cie', sec_start ri secid <= p' <= sec_end ri secid -> same_entry cie cie' ->
    safe (fun r => same_entry cie r.2 /\ sec_start ri secid <= r.1 <= sec_end ri secid)
      (aug_loop ri sz fuel secid end_ (aug + 1) p' cie')) as Hnext.
  { intros p' cie' Hp' Hc'. eapply safe_mono; [apply IH; lia|].
    intros r [S1 S2]. split; [by eapply same_entry_trans|done]. }
  repeat case_match; try done.
  - eapply safe_bind; [apply (read_safe 1); [done|lia]|]. intros v _. apply Hnext; [lia|done].
  - eapply safe_bind; [apply (read_safe 1); [done|lia]|]. intros v _. apply Hnext; [lia|done].
  - destruct (load_in secid p Hst ltac:(lia)) as [enc Henc]. rewrite Henc. cbn [mbind outcome_bind].
    eapply safe_bind; [apply encoded_value_within; [done..|lia]|]. intros [pers cnt] (C1 & C2 & C3).
    cbn [fst snd] in *. destruct (Z.ltb_spec cnt 0); [cbn; lia|].
    rewrite u64_small by lia. apply Hnext; [lia|done].
  - by apply Hnext.
Qed.

Lemma cie_fixed_safe sz secid version end_ p cie : 0 <= secid < 6 -> sz = 4 \/ sz = 8 ->
  end_ <= sec_end ri secid -> sec_start ri secid <= p < end_ ->
  safe (fun r => aug_string r.2 = p /\ sec_start ri secid <= r.1.1 <= sec_end ri secid /\
          0 <= r.1.2 /\ p + r.1.2 < end_ /\ load 1 ri (p + r.1.2) = Done 0)
    (cie_fixed ri secid version end_ p cie).
Proof.
  intros Hst Hsz Hend Hp. pose proof (ro_sections _ Hr secid Hst) as Hsec.
  pose proof (section_range ri secid Hsec) as (R1 & R2 & R3).
  pose proof (ro_lengths _ Hr secid Hst) as Hl. unfold cie_fixed.
  rewrite (u32_small (end_ - p - 1)) by (unfold sec_end, sec_start in *; lia).
  destruct (strnlen_safe secid Hst (Z.to_nat (end_ - p - 1)) p) as (len & E & Hlen & Hz); [lia..|].
  rewrite Z2Nat.id in * by lia. rewrite E. cbn [mbind outcome_bind].
  destruct (Z.eqb_spec len (end_ - p - 1)); [done|].
  rewrite (u32_small (len + 1)) by (unfold sec_end, sec_start in *; lia).
  rewrite (u64_small (p + (len + 1))) by lia.
  eapply safe_bind; [apply leb_safe; done|]. intros [caf n1] (_ & A1 & A2 & A3). cbn [fst snd] in *.
  rewrite (u64_small (p + (len + 1) + n1)) by lia.
  eapply safe_bind; [apply leb_safe; done|]. intros [daf n2] (_ & B1 & B2 & B3). cbn [fst snd] in *.
  rewrite (u64_small (p + (len + 1) + n1 + n2)) by lia. specialize (Hz ltac:(lia)).
  case_match.
  - eapply safe_bind; [apply (read_safe 1); [done|lia]|]. intros ra (_ & C1 & C2).
    rewrite u64_small by lia. cbn. repeat split; try done; lia.
  - eapply safe_bind; [apply leb_safe; done|]. intros [ra n3] (_ & C1 & C2 & C3). cbn [fst snd] in *.
    rewrite u64_small by lia. cbn. repeat split; try done; lia.
Qed.

(** A CIE whose bytes lie in its section decodes or is refused: no access
    leaves the section, and the loop over the augmentation string ends. *)
Theorem decode_cie_entry_safe sz cie entry length is_eh : sz = 4 \/ sz = 8 ->
  0 <= entry -> 4 <= length -> entry + length <= sec_end ri (get_secid_frame is_eh) ->
  safe (fun _ => True) (decode_cie_entry ri sz cie entry length is_eh).
Proof.
  intros Hsz He Hl Hend. set (secid := get_secid_frame is_eh) in *.
  assert (0 <= secid < 6) as Hst by (unfold secid; destruct is_eh; cbv; split; congruence).
  pose proof (ro_sections _ Hr secid Hst) as Hsec.
  pose proof (section_range ri secid Hsec) as (R1 & R2 & R3).
  unfold decode_cie_entry. fold secid. rewrite (u64_small (entry + 4)), (u64_small (entry + length)) by lia.
  eapply safe_bind; [apply (read_safe 4); [done|lia]|]. intros id (_ & A1 & A2).
  case_match; [done|]. rewrite (u64_small (entry + 4 + 4)) by lia.
  eapply safe_bind; [apply (read_safe 1); [done|lia]|]. intros version (_ & B1 & B2).
  destruct (negb (version =? 1) && negb (version =? 3)); [done|]. rewrite (u64_small (entry + 4 + 4 + 1)) by lia.
  destruct (Z.leb_spec (entry + length) (entry + 4 + 4 + 1)); [done|].
  eapply safe_bind; [apply (cie_fixed_safe sz); done || lia|].
  intros [[p len] cie'] (C1 & C2 & C3 & C4 & C5). cbn [fst snd] in *. rewrite C1.
  destruct (load_in secid (entry + 4 + 4 + 1) Hst ltac:(lia)) as [c Hc].
  rewrite Hc. cbn [mbind outcome_bind].
  eapply safe_bind with (P := fun r => sec_start ri secid <= r.1.2 <= sec_end ri secid /\
      entry + 9 <= r.1.1 <= entry + 9 + len).
  - destruct (Z.eqb_spec c ch_z) as [->|]; [|cbn; lia].
    assert (len <> 0) by (intros ->; rewrite Z.add_0_r in C5; rewrite C5 in Hc; done).
    eapply safe_bind; [apply leb_safe; [done|by apply ro_lengths]|].
    intros [size n] (_ & D1 & D2 & D3). cbn [fst snd] in *. rewrite !u64_small by lia. cbn. lia.
  - intros [[aug q] cie2] (D1 & D2). cbn [fst snd] in *.
    eapply safe_bind; [eapply (aug_loop_safe sz secid _ (entry + 4 + 4 + 1 + len)); try done; lia|].
    intros [q' cie3] (_ & F1). cbn [fst snd] in *. repeat case_match; done.
Qed.
End decode_facts.

(** ** Examples *)

(** Two entries, of functions at 0x441000 and 0x441020. *)
Definition example_table : list Z :=
  [0; 0x10; 0; 0; 0x10; 0; 1; 0; 0x20; 0x10; 0; 0; 0x30; 0; 1; 0].

Lemma dwarf_bst_find_idx_spec_witness :
  let ri := example_region [] example_table in
  exists r, dwarf_bst_find_idx ri 0x440000 example_base 2 0x441008 = Done r /\
    exists i, 0 <= i < 1 /\ r = example_base + 8 * i /\
      entry_loc ri 0x440000 example_base i <= 0x441008 < entry_loc ri 0x440000 example_base (i + 1).
Proof.
  intros ri. apply (dwarf_bst_find_idx_spec ri 0x440000 example_base 2 0x441008).
  split; [by apply bytes_ok_dec| | |]; vm_compute; repeat split; congruence.
Defined.

(** A CIE cut short: its augmentation string is not terminated. *)
Definition example_cut : list Z := [20; 0; 0; 0; 0; 0; 0; 0; 1; 122; 82].

Lemma decode_cie_entry_safe_witness :
  safe (fun _ => True)
    (@decode_cie_entry example_shifts (example_region example_cut []) 8 example_cie example_base 11 true).
Proof.
  apply (@decode_cie_entry_safe example_shifts);
    [by apply example_region_ok|by right|vm_compute; congruence..].
Defined.

(** Its declared length is not compared with the section: the string is read
    beyond the area. *)
Lemma decode_cie_reads_past_area :
  region_ok (example_region example_cut []) /\
  @decode_cie_entry example_shifts (example_region example_cut []) 8 example_cie example_base 24 true
    = Fault.
Proof. split; [by apply example_region_ok|by vm_compute]. Qed.
