(* ===== verification/DwarfEntries.v ===== *)
(** * Unwind tables as compilers write them

    The byte strings of a [zR] CIE, of its FDEs and of the binary search table, with
    32-bit relative addresses, and what the decoding of dwarf_unwind.c makes of
    them: the fields written are the fields read, and the search of the table is a
    linear scan. *)

From S2P Require Import Prelude DwarfRead DwarfCfa DwarfTable.

(** ** Reading along a known byte string *)
Section cursor.
Context `{ShiftOps}.
Context (ri : ex_region_info) (st : Z).
Hypothesis Hsec : section_ok ri st.
Hypothesis Hlen : ti_length (ex_sec ri st) < 2 ^ 31.

(** [bs] is at [a], and the address behind it does not wrap. *)
Definition at_cursor (a : Z) (bs : list Z) : Prop :=
  holds_at ri st a bs /\ u64 (a + zlen bs) = a + zlen bs.

Lemma cursor_app a l1 l2 : holds_at ri st a (l1 ++ l2) ->
  at_cursor a l1 /\ holds_at ri st (a + zlen l1) l2.
Proof.
  intros Hh. pose proof (section_range ri st Hsec) as (R1 & R2 & R3).
  apply holds_at_app in Hh as [H1 H2]; [|lia]. split; [|done]. split; [done|].
  destruct H1 as (A1 & A2 & _). pose proof (zlen_nonneg l1). rewrite u64_small; lia.
Qed.

Lemma take_le n v a l : holds_at ri st a (le_enc n v ++ l) -> (n <= 8)%nat ->
  0 <= v < 2 ^ (8 * Z.of_nat n) ->
  read_mmap_data n ri a st = Done v /\ u64 (a + Z.of_nat n) = a + Z.of_nat n /\
  holds_at ri st (a + Z.of_nat n) l.
Proof.
  intros Hh Hn Hv. apply cursor_app in Hh as [[H1 H2] H3]. rewrite zlen_le_enc in *.
  split; [|done]. rewrite (read_holds n ri st a _ Hsec Hn H1) by apply le_enc_length.
  rewrite le_dec_enc, Z.mod_small by done. done.
Qed.

Lemma take_byte b a l : holds_at ri st a ([b] ++ l) ->
  load 1 ri a = Done b /\ read_mmap_data 1 ri a st = Done b /\ u64 (a + 1) = a + 1 /\
  holds_at ri st (a + 1) l.
Proof.
  intros Hh. pose proof (section_range ri st Hsec) as (R1 & R2 & R3).
  apply cursor_app in Hh as [[H1 H2] H3]. change (zlen [b]) with 1 in *.
  split; [|split; [|done]].
  - destruct H1 as (A1 & A2 & A3). change (zlen [b]) with 1 in *.
    rewrite plain_load_ok by lia. change (Z.of_nat 1) with 1. rewrite A3. cbn. do 2 f_equal. lia.
  - rewrite (read_holds 1 ri st a _ Hsec ltac:(lia) H1) by done. cbn. f_equal. lia.
Qed.

Lemma take_uleb v a l : holds_at ri st a (uleb_enc 5 v ++ l) -> 0 <= v < 2 ^ 31 ->
  dwarf_read_uleb128 ri a st = Done (v, zlen (uleb_enc 5 v)) /\
  u64 (a + zlen (uleb_enc 5 v)) = a + zlen (uleb_enc 5 v) /\
  holds_at ri st (a + zlen (uleb_enc 5 v)) l.
Proof.
  intros Hh Hv. apply cursor_app in Hh as [[H1 H2] H3]. split; [|done].
  destruct (uleb_read ri st a v Hsec Hlen ltac:(lia) H1) as [-> _].
  rewrite sw_small, u64_small by lia. done.
Qed.

Lemma take_sleb v a l : holds_at ri st a (sleb_enc 5 v ++ l) -> - 2 ^ 31 <= v < 2 ^ 31 ->
  dwarf_read_sleb128 ri a st = Done (u64 v, zlen (sleb_enc 5 v)) /\
  u64 (a + zlen (sleb_enc 5 v)) = a + zlen (sleb_enc 5 v) /\
  holds_at ri st (a + zlen (sleb_enc 5 v)) l.
Proof.
  intros Hh Hv. apply cursor_app in Hh as [[H1 H2] H3]. split; [|done].
  by destruct (sleb_read ri st a v Hsec Hlen Hv H1).
Qed.

(** A signed 32-bit number, absolute or relative to its own address. *)
Lemma take_sdata4 sz enc v a base l : holds_at ri st a (le_enc 4 (u32 v) ++ l) ->
  - 2 ^ 31 <= v < 2 ^ 31 ->
  enc = DW_EH_PE_udata4 \/ enc = Z.lor DW_EH_PE_pcrel DW_EH_PE_sdata4 ->
  dwarf_read_encoded_value ri sz a base enc st =
    Done (u64 (if enc =? DW_EH_PE_udata4 then v else base + v), 4).
Proof.
  intros Hh Hv Henc. apply (take_le 4) in Hh as (E & _); [|lia|apply (u32_range v)].
  assert (read_mmap_data_s32 ri a st = Done (u64 v)) as Er.
  { unfold read_mmap_data_s32. rewrite E. cbn [mbind outcome_bind]. do 2 f_equal.
    unfold sw, uw. rewrite Zplus_mod_idemp_l, Z.mod_small by lia. lia. }
  unfold dwarf_read_encoded_value.
  assert ((enc =? DW_EH_PE_omit) = false /\ (enc =? DW_EH_PE_aligned) = false /\
          (Z.land enc 0x0f =? DW_EH_PE_absptr) = false /\
          (Z.land enc DW_EH_PE_indirect =? 0) = true) as (-> & -> & -> & Hind)
    by (destruct Henc as [-> | ->]; done).
  assert (encoded_raw ri a (Z.land enc 0x0f) st = Done (u64 v, 4)) as ->.
  { unfold encoded_raw. destruct Henc as [-> | ->]; cbn -[uw]; by rewrite Er. }
  cbn [mbind outcome_bind].
  assert (encoded_base base (u64 v) (Z.land enc 0x70) =
            Done (u64 (if enc =? DW_EH_PE_udata4 then v else base + v))) as ->.
  { destruct Henc as [-> | ->]; [done|].
    assert (u64 (base + u64 v) = u64 (base + v)) as Eb by apply Zplus_mod_idemp_r.
    exact (f_equal Done Eb). }
  cbn [mbind outcome_bind]. unfold encoded_indirect. rewrite Hind. by case_match.
Qed.
End cursor.

(** ** A CIE with augmentation "zR" and its FDEs *)

Record cie_desc := CieDesc { cd_caf : Z; cd_daf : Z; cd_ra : Z; cd_insns : list Z }.
Record fde_desc := FdeDesc { fd_cie_ptr : Z; fd_rel : Z; fd_range : Z; fd_insns : list Z }.

Definition pcrel_sdata4 : Z := Z.lor DW_EH_PE_pcrel DW_EH_PE_sdata4.

(** The entries without their lengths. *)
Definition cie_id (is_eh : bool) : Z := if is_eh then 0 else DW_CIE_ID.
Definition cie_body (is_eh : bool) (d : cie_desc) : list Z :=
  le_enc 4 (cie_id is_eh) ++ [1] ++ [ch_z] ++ [ch_R] ++ [0] ++ uleb_enc 5 (cd_caf d) ++
  sleb_enc 5 (cd_daf d) ++ [cd_ra d] ++ uleb_enc 5 1 ++ [pcrel_sdata4] ++ cd_insns d.
Definition fde_body (d : fde_desc) : list Z :=
  le_enc 4 (fd_cie_ptr d) ++ le_enc 4 (u32 (fd_rel d)) ++ le_enc 4 (fd_range d) ++
  uleb_enc 5 0 ++ fd_insns d.
Definition entry_enc (body : list Z) : list Z := le_enc 4 (zlen body) ++ body.

Record cie_desc_ok (d : cie_desc) : Prop := {
  cdo_caf : 0 <= cd_caf d < 2 ^ 31;
  cdo_daf : - 2 ^ 31 <= cd_daf d < 2 ^ 31;
  cdo_ra : 0 <= cd_ra d < 256;
}.
Record fde_desc_ok (d : fde_desc) : Prop := {
  fdo_ptr : 0 <= fd_cie_ptr d < 2 ^ 32;
  fdo_rel : - 2 ^ 31 <= fd_rel d < 2 ^ 31;
  fdo_range : 0 <= fd_range d < 2 ^ 32;
}.

Lemma cie_id_range is_eh : 0 <= cie_id is_eh < 2 ^ 32.
Proof. by destruct is_eh. Qed.

(** What the decoded entry says, its instructions behind the other fields. *)
Definition cie_of (is_eh : bool) (d : cie_desc) (a : Z) (c : dw_cie) : dw_cie :=
  Cie (cie_offset c) (cie_length c) (a + 9) 1 pcrel_sdata4 DW_EH_PE_omit (cd_caf d) (u64 (cd_daf d))
    (zlen (cd_insns d)) (a + zlen (entry_enc (cie_body is_eh d)) - zlen (cd_insns d))
    true (cd_ra d) 0.

Section decode_cie.
Context `{ShiftOps}.
Context (ri : ex_region_info) (is_eh : bool).
Hypothesis Hr : region_ok ri.
Let secid := get_secid_frame is_eh.

Lemma secid_range : 0 <= secid < 6.
Proof. unfold secid. destruct is_eh; cbv; split; congruence. Qed.

Let Hsec : section_ok ri secid := ro_sections _ Hr _ secid_range.
Let Hlen : ti_length (ex_sec ri secid) < 2 ^ 31 := ro_lengths _ Hr _ secid_range.

Lemma strnlen_zR n p : load 1 ri p = Done ch_z -> load 1 ri (p + 1) = Done ch_R ->
  load 1 ri (p + 1 + 1) = Done 0 -> u64 (p + 1) = p + 1 -> u64 (p + 1 + 1) = p + 1 + 1 ->
  2 < n -> strnlen ri (Z.to_nat n) p = Done 2.
Proof.
  intros L1 L2 L3 W1 W2 Hn.
  replace (Z.to_nat n) with (S (S (S (Z.to_nat (n - 3))))) by lia. cbn [strnlen].
  rewrite L1. cbn [mbind outcome_bind]. change (ch_z =? 0) with false. cbv iota.
  rewrite W1, L2. cbn [mbind outcome_bind]. change (ch_R =? 0) with false. cbv iota.
  by rewrite W2, L3.
Qed.

Lemma aug_loop_R sz fuel end_ aug p v c : load 1 ri aug = Done ch_R -> u64 (aug + 1) = aug + 1 ->
  load 1 ri (aug + 1) = Done 0 -> read_mmap_data 1 ri p secid = Done v -> u64 (p + 1) = p + 1 ->
  p < end_ ->
  aug_loop ri sz (S (S fuel)) secid end_ aug p c =
    Done (p + 1, set_encodings v (lsda_encoding c) (personality c) c).
Proof.
  intros L1 W1 L2 Hv W2 Hp. cbn [aug_loop]. rewrite L1. cbn [mbind outcome_bind].
  change (ch_R =? 0) with false. cbv iota. destruct (Z.leb_spec end_ p); [lia|].
  change (ch_R =? ch_L) with false. change (ch_R =? ch_R) with true. cbv iota.
  unfold read_mmap_data_u8. rewrite Hv. cbn [mbind outcome_bind]. rewrite W1, L2, W2. done.
Qed.

Lemma decode_cie_zR sz d a c length : cie_desc_ok d ->
  holds_at ri secid a (entry_enc (cie_body is_eh d)) ->
  length = 4 + zlen (cie_body is_eh d) ->
  decode_cie_entry ri sz c a length is_eh = Done (cie_of is_eh d a c).
Proof.
  intros [Hcaf Hdaf Hra] Hb ->. unfold entry_enc in Hb.
  pose proof (section_range ri secid Hsec) as (R1 & R2 & R3).
  assert (8 <= a) as Ha by (destruct Hb; lia).
  assert (u64 (a + (4 + zlen (cie_body is_eh d))) = a + (4 + zlen (cie_body is_eh d))) as We.
  { destruct Hb as (B1 & B2 & _). rewrite zlen_app, zlen_le_enc in B2.
    pose proof (zlen_nonneg (cie_body is_eh d)). rewrite u64_small; lia. }
  assert (zlen (cie_body is_eh d) = 11 + zlen (uleb_enc 5 (cd_caf d)) + zlen (sleb_enc 5 (cd_daf d))
            + zlen (cd_insns d)) as Ez.
  { unfold cie_body. rewrite !zlen_app, zlen_le_enc.
    change (zlen (uleb_enc 5 1)) with 1. rewrite !zlen_cons, !zlen_nil. lia. }
  unfold cie_of, entry_enc. rewrite zlen_app, zlen_le_enc.
  assert (0 <= zlen (cie_body is_eh d) < 2 ^ 32) as Hl.
  { destruct Hb as (B1 & B2 & _). rewrite zlen_app in B2. pose proof Hlen. unfold sec_end in B2.
    rewrite zlen_le_enc in B2. split; [apply zlen_nonneg|lia]. }
  pose proof (zlen_nonneg (cd_insns d)) as Hn.
  set (total := zlen (cie_body is_eh d)) in *. unfold cie_body in Hb.
  apply (take_le ri secid Hsec 4) in Hb as (_ & W1 & Hb); [|lia|done].
  apply (take_le ri secid Hsec 4) in Hb as (E2 & W2 & Hb); [|lia|apply cie_id_range].
  change (Z.of_nat 4) with 4 in *.
  apply (take_byte ri secid Hsec) in Hb as (_ & E3 & W3 & Hb).
  apply (take_byte ri secid Hsec) in Hb as (L4 & _ & W4 & Hb).
  apply (take_byte ri secid Hsec) in Hb as (L5 & _ & W5 & Hb).
  apply (take_byte ri secid Hsec) in Hb as (L6 & _ & W6 & Hb).
  apply (take_uleb ri secid Hsec Hlen) in Hb as (E7 & W7 & Hb); [|done].
  apply (take_sleb ri secid Hsec Hlen) in Hb as (E8 & W8 & Hb); [|done].
  apply (take_byte ri secid Hsec) in Hb as (_ & E9 & W9 & Hb).
  apply (take_uleb ri secid Hsec Hlen) in Hb as (E10 & W10 & Hb); [|lia].
  apply (take_byte ri secid Hsec) in Hb as (_ & E11 & W11 & _).
  change (zlen (uleb_enc 5 1)) with 1 in *.
  set (n1 := zlen (uleb_enc 5 (cd_caf d))) in *. set (n2 := zlen (sleb_enc 5 (cd_daf d))) in *.
  assert (0 <= n1 /\ 0 <= n2) as [Hn1 Hn2] by (unfold n1, n2; split; apply zlen_nonneg).
  unfold decode_cie_entry. fold secid. rewrite W1, We.
  unfold read_mmap_data_u32, read_mmap_data_u8. rewrite E2. cbn [mbind outcome_bind].
  change (cie_id is_eh =? (if is_eh then 0 else DW_CIE_ID)) with (cie_id is_eh =? cie_id is_eh).
  rewrite Z.eqb_refl. cbn [negb]. rewrite W2, E3. cbn [mbind outcome_bind Z.eqb negb andb].
  rewrite W3. destruct (Z.leb_spec (a + (4 + total)) (a + 4 + 4 + 1)); [lia|].
  unfold cie_fixed. rewrite (u32_small (_ - _ - 1)) by lia.
  rewrite (strnlen_zR _ _ L4 L5 L6 W4 W5) by lia. cbn [mbind outcome_bind].
  destruct (Z.eqb_spec 2 (a + (4 + total) - (a + 4 + 4 + 1) - 1)); [lia|].
  change (u32 (2 + 1)) with 3.
  replace (a + 4 + 4 + 1 + 3) with (a + 4 + 4 + 1 + 1 + 1 + 1) by lia. rewrite W6.
  rewrite E7. cbn [mbind outcome_bind]. rewrite W7, E8. cbn [mbind outcome_bind]. rewrite W8.
  cbn [Z.eqb Pos.eqb]. unfold read_mmap_data_u8. rewrite E9. cbn [mbind outcome_bind mret outcome_ret].
  rewrite W9. cbn [aug_string set_fixed]. rewrite L4. cbn [mbind outcome_bind].
  change (ch_z =? ch_z) with true. cbv iota. rewrite E10. cbn [mbind outcome_bind mret outcome_ret].
  rewrite W10, W4. change (S (Z.to_nat 2)) with 3%nat.
  rewrite (aug_loop_R _ _ _ _ _ _ _ L5 W5 L6 E11 W11) by lia. cbn [mbind outcome_bind].
  set (p := a + 4 + 4 + 1 + 1 + 1 + 1 + n1 + n2 + 1 + 1 + 1).
  assert (p = a + (4 + total) - zlen (cd_insns d)) as Ep by (unfold p; lia).
  destruct (Z.ltb_spec (a + (4 + total)) p); [lia|].
  fold p in W11. rewrite W11, Ep.
  cbn [initial_insn set_encodings set_z].
  set (c0 := set_encodings _ _ _ _).
  destruct (Z.eqb_spec (a + (4 + total) - zlen (cd_insns d)) (a + (4 + total))).
  - cbn [mret outcome_ret]. f_equal. unfold c0, set_encodings, set_z, set_fixed. cbn. f_equal; lia.
  - destruct (Z.eqb_spec (a + (4 + total) - zlen (cd_insns d)) 0); [lia|].
    rewrite u32_small by lia. cbn [mret outcome_ret]. f_equal. unfold c0, set_initial, set_encodings, set_z, set_fixed. cbn. f_equal; lia.
Qed.

(** The start of the function of an FDE at [a]. *)
Definition fde_start (d : fde_desc) (a : Z) : Z :=
  let l := u64 (mmap_addr_to_ex_addr (a + 8) ri secid + fd_rel d) in
  if l <? vm_start ri then u64 (l + vm_start ri) else l.

Definition fde_of (d : fde_desc) (a : Z) (offset : Z) (c : dw_cie) : dw_fde :=
  Fde offset (4 + zlen (fde_body d)) (fd_cie_ptr d) c (fde_start d a) (fd_range d)
    (zlen (fd_insns d))
    (if 0 <? zlen (fd_insns d) then a + zlen (entry_enc (fde_body d)) - zlen (fd_insns d) else 0).

Lemma entry_range a body : holds_at ri secid a (entry_enc body) ->
  8 <= a /\ sec_start ri secid <= a /\ a + (4 + zlen body) <= sec_end ri secid /\
  0 <= zlen body /\ 4 + zlen body < 2 ^ 31.
Proof.
  intros (B1 & B2 & _). pose proof (section_range ri secid Hsec) as (R1 & R2 & R3).
  pose proof Hlen. pose proof (zlen_nonneg body).
  unfold entry_enc in B2. rewrite zlen_app, zlen_le_enc in B2. unfold sec_end in *. lia.
Qed.

Lemma decode_fde_pcrel sz d a fde : fde_desc_ok d ->
  holds_at ri secid a (entry_enc (fde_body d)) ->
  fde_encoding (fde_cie fde) = pcrel_sdata4 -> z_aug (fde_cie fde) = true ->
  fde_length fde = 4 + zlen (fde_body d) -> cie_pointer fde = fd_cie_ptr d ->
  decode_fde_entry ri sz fde a (4 + zlen (fde_body d)) is_eh =
    Done (fde_of d a (fde_offset fde) (fde_cie fde)).
Proof.
  intros [Hptr Hrel Hrange] Hb Henc Hz Hfl Hfp.
  pose proof (section_range ri secid Hsec) as (R1 & R2 & R3).
  destruct (entry_range _ _ Hb) as (A1 & A2 & A3 & A4 & A5).
  unfold fde_of, entry_enc in *. rewrite zlen_app, zlen_le_enc.
  assert (zlen (fde_body d) = 13 + zlen (fd_insns d)) as Ez.
  { unfold fde_body. rewrite !zlen_app, !zlen_le_enc. change (zlen (uleb_enc 5 0)) with 1. lia. }
  pose proof (zlen_nonneg (fd_insns d)) as Hn.
  set (total := zlen (fde_body d)) in *. unfold fde_body in Hb.
  apply (take_le ri secid Hsec 4) in Hb as (_ & W1 & Hb); [|lia|change (2 ^ (8 * Z.of_nat 4)) with (2 ^ 32); lia].
  apply (take_le ri secid Hsec 4) in Hb as (_ & W2 & Hb); [|lia|exact Hptr].
  pose proof (take_sdata4 ri secid Hsec sz pcrel_sdata4 (fd_rel d) _
                (mmap_addr_to_ex_addr (a + 8) ri secid) _ Hb Hrel (or_intror eq_refl)) as E3.
  apply (take_le ri secid Hsec 4) in Hb as (_ & W3 & Hb); [|lia|exact (u32_range (fd_rel d))].
  apply (take_le ri secid Hsec 4) in Hb as (E4 & W4 & Hb); [|lia|exact Hrange].
  apply (take_uleb ri secid Hsec Hlen) in Hb as (E5 & W5 & Hb); [|lia].
  change (Z.of_nat 4) with 4 in *. change (zlen (uleb_enc 5 0)) with 1 in *.
  replace (a + 4 + 4) with (a + 8) in * by lia.
  unfold decode_fde_entry. fold secid. rewrite W2, Henc, (u64_small (a + (4 + total))) by lia.
  rewrite E3. cbn [mbind outcome_bind]. destruct (Z.ltb_spec 4 0); [lia|].
  change (pcrel_sdata4 =? DW_EH_PE_udata4) with false. cbv iota. rewrite W3.
  unfold read_mmap_data_u32. rewrite E4. cbn [mbind outcome_bind]. rewrite W4, Hz, E5.
  cbn [mbind outcome_bind mret outcome_ret]. rewrite W5, Z.add_0_r, W5.
  destruct (Z.ltb_spec (a + (4 + total)) (a + 8 + 4 + 4 + 1)); [lia|].
  rewrite u32_small by lia. unfold fde_start. cbn [mret outcome_ret]. do 2 f_equal; try done; try lia.
  replace (a + (4 + total) - (a + 8 + 4 + 4 + 1)) with (zlen (fd_insns d)) by lia.
  destruct (Z.ltb_spec 0 (zlen (fd_insns d))); lia.
Qed.

Lemma frame_start_eq : 0 <= ti_addr (ex_sec ri secid) < 2 ^ 64 ->
  frame_start ri is_eh = sec_start ri secid.
Proof.
  intros Ha. pose proof (section_range ri secid Hsec) as (R1 & R2 & R3).
  pose proof (so_off _ _ Hsec). unfold frame_start, ex_addr_to_mmap_addr. fold secid.
  rewrite Z.sub_diag. change (u64 0) with 0.
  rewrite u64_small by (unfold sec_end, sec_start in *; lia). unfold sec_start. lia.
Qed.
End decode_cie.

(** The address of the CIE that an FDE at [fde_p] points to. *)
Definition cie_target (ri : ex_region_info) (is_eh : bool) (fde_p ptr : Z) : Z :=
  if is_eh then fde_p + 4 - ptr else sec_start ri (get_secid_frame false) + ptr.

(** The fields written are the fields read: an FDE and the CIE it points to,
    with any factors, column, location, range and instructions, decode to those,
    in [.eh_frame] and in [.debug_frame]. *)
Theorem dwarf_decode_fde_cie_standard `{ShiftOps} ri sz is_eh fde_p cie_p d e cie0 :
  region_ok ri -> 0 <= ti_addr (ex_sec ri (get_secid_frame is_eh)) < 2 ^ 64 ->
  cie_desc_ok d -> fde_desc_ok e ->
  holds_at ri (get_secid_frame is_eh) cie_p (entry_enc (cie_body is_eh d)) ->
  holds_at ri (get_secid_frame is_eh) fde_p (entry_enc (fde_body e)) ->
  cie_target ri is_eh fde_p (fd_cie_ptr e) = cie_p ->
  let start := sec_start ri (get_secid_frame is_eh) in
  let cie := cie_of is_eh d cie_p
               (set_entry (cie_p - start) (4 + zlen (cie_body is_eh d)) cie0) in
  dwarf_decode_fde_cie ri sz fde_p cie0 is_eh =
    Done (cie, fde_of ri is_eh e fde_p (fde_p - start) cie).
Proof.
  intros Hr Ha Hd He Hc Hf Htgt start cie.
  assert (0 <= get_secid_frame is_eh < 6) as Hst by apply secid_range.
  pose proof (ro_sections _ Hr _ Hst) as Hsec. pose proof (ro_lengths _ Hr _ Hst) as Hlen.
  pose proof (section_range ri _ Hsec) as (R1 & R2 & R3).
  destruct (entry_range ri is_eh Hr _ _ Hc) as (C1 & C2 & C3 & C4 & C5).
  destruct (entry_range ri is_eh Hr _ _ Hf) as (F1 & F2 & F3 & F4 & F5).
  pose proof (fdo_ptr _ He) as Hptr. pose proof Hf as Hf'. pose proof Hc as Hc'.
  unfold entry_enc in Hf', Hc'. unfold fde_body in Hf' at 2.
  apply (take_le ri _ Hsec 4) in Hf' as (E1 & W1 & Hf'); [|lia|change (2 ^ (8 * Z.of_nat 4)) with (2 ^ 32); lia].
  apply (take_le ri _ Hsec 4) in Hf' as (E2 & _ & _); [|lia|exact Hptr].
  apply (take_le ri _ Hsec 4) in Hc' as (E3 & _ & _); [|lia|change (2 ^ (8 * Z.of_nat 4)) with (2 ^ 32); lia].
  change (Z.of_nat 4) with 4 in *.
  unfold dwarf_decode_fde_cie, read_mmap_data_u32. rewrite E1. cbn [mbind outcome_bind].
  destruct (Z.eqb_spec (zlen (fde_body e)) 0xffffffff); [lia|]. rewrite W1, E2. cbn [mbind outcome_bind].
  rewrite (frame_start_eq ri is_eh Hr Ha). fold start.
  assert ((if is_eh then u64 (fde_p + 4 - fd_cie_ptr e) else u64 (start + fd_cie_ptr e)) = cie_p) as ->.
  { unfold cie_target in Htgt. destruct is_eh; [|unfold start in *]; rewrite Htgt; apply u64_small; lia. }
  rewrite E3. cbn [mbind outcome_bind].
  destruct (Z.eqb_spec (zlen (cie_body is_eh d)) 0xffffffff); [lia|].
  rewrite (u64_small (cie_p - start)), (u64_small (fde_p - start)) by (unfold start in *; lia).
  rewrite (Z.add_comm (zlen (cie_body is_eh d)) 4), (Z.add_comm (zlen (fde_body e)) 4).
  rewrite (decode_cie_zR ri is_eh Hr sz d cie_p _ _ Hd Hc eq_refl). cbn [mbind outcome_bind]. fold cie.
  rewrite (decode_fde_pcrel ri is_eh Hr sz e fde_p _ He Hf) by done. done.
Qed.

(** ** The binary search table

    Entries of two relative addresses, from the start of [.eh_frame_hdr]. *)

Definition bst_entry : Type := Z * Z.
Definition entry_ok (e : bst_entry) : Prop :=
  - 2 ^ 31 <= e.1 < 2 ^ 31 /\ - 2 ^ 31 <= e.2 < 2 ^ 31.
Definition entry_bytes (e : bst_entry) : list Z := le_enc 4 (u32 e.1) ++ le_enc 4 (u32 e.2).
Definition table_bytes (es : list bst_entry) : list Z := concat (map entry_bytes es).
Definition hdr_enc (fp : Z) (es : list bst_entry) : list Z :=
  [1] ++ [pcrel_sdata4] ++ [DW_EH_PE_udata4] ++ [Z.lor DW_EH_PE_datarel DW_EH_PE_sdata4] ++
  le_enc 4 (u32 fp) ++ le_enc 4 (u32 (zlen es)) ++ table_bytes es.

Definition start_of (base : Z) (e : bst_entry) : Z := u64 (base + e.1).
Definition fde_at (base : Z) (e : bst_entry) : Z := u64 (base + e.2).

(** The reference: scan the functions that start at or below [pc]. *)
Fixpoint covering (base pc : Z) (es : list bst_entry) : option bst_entry :=
  match es with
  | [] => None
  | e :: es =>
      if pc <? start_of base e then None
      else match covering base pc es with Some e' => Some e' | None => Some e end
  end.

Definition increasing (base : Z) (es : list bst_entry) : Prop :=
  forall i j a b, (i < j)%nat -> es !! i = Some a -> es !! j = Some b ->
    start_of base a < start_of base b.

Lemma zlen_table es : zlen (table_bytes es) = 8 * zlen es.
Proof.
  induction es as [|e es IH]; [done|]. unfold table_bytes in *. cbn [map concat].
  rewrite zlen_app, zlen_cons, IH. unfold entry_bytes. rewrite zlen_app, !zlen_le_enc. lia.
Qed.

Lemma increasing_tail base e es : increasing base (e :: es) -> increasing base es.
Proof. intros H i j a b Hij Ha Hb. apply (H (S i) (S j) a b); [lia|done..]. Qed.

Lemma increasing_le base es i j a b : increasing base es -> (i <= j)%nat ->
  es !! i = Some a -> es !! j = Some b -> start_of base a <= start_of base b.
Proof.
  intros H Hij Ha Hb. destruct (decide (i = j)) as [->|]; [by simplify_eq; lia|].
  assert (start_of base a < start_of base b) by (apply (H i j); [lia|done..]). lia.
Qed.

Lemma covering_none base pc es : increasing base es ->
  (forall e, es !! 0%nat = Some e -> pc < start_of base e) -> covering base pc es = None.
Proof.
  intros _ H. destruct es as [|e es]; [done|]. cbn. specialize (H e eq_refl).
  by destruct (Z.ltb_spec pc (start_of base e)); [|lia].
Qed.

Lemma covering_some base pc : forall es i e, increasing base es -> es !! i = Some e ->
  start_of base e <= pc ->
  (forall e', es !! (S i) = Some e' -> pc < start_of base e') ->
  covering base pc es = Some e.
Proof.
  induction es as [|e0 es IH]; intros i e Hinc Hi Hle Hnext; [done|]. cbn [covering].
  pose proof (increasing_le base _ 0 i e0 e Hinc ltac:(lia) eq_refl Hi).
  destruct (Z.ltb_spec pc (start_of base e0)); [lia|]. destruct i as [|i].
  - injection Hi as <-. by rewrite (covering_none base pc es) by eauto using increasing_tail.
  - by rewrite (IH i e) by eauto using increasing_tail.
Qed.

Section table.
Context `{ShiftOps}.
Context (ri : ex_region_info) (is_eh : bool) (sz fp : Z) (es : list bst_entry).
Let hdr := get_secid_frame_hdr is_eh.
Let base := ti_addr (ex_sec ri hdr).
Let data := sec_start ri hdr.
Hypothesis Hr : region_ok ri.
Hypothesis Hbase : 0 <= base < 2 ^ 64.
Hypothesis Hfp : - 2 ^ 31 <= fp < 2 ^ 31.
Hypothesis Hes : Forall entry_ok es.
Hypothesis Hne : es <> [].
Hypothesis Hhdr : holds_at ri hdr data (hdr_enc fp es).
Hypothesis Hsize : ti_length (ex_sec ri hdr) = zlen (hdr_enc fp es).

Lemma hdr_range : 0 <= hdr < 6.
Proof. unfold hdr. destruct is_eh; cbv; split; congruence. Qed.
Let Hsec : section_ok ri hdr := ro_sections _ Hr _ hdr_range.
Let Hlen : ti_length (ex_sec ri hdr) < 2 ^ 31 := ro_lengths _ Hr _ hdr_range.

Lemma zlen_hdr_enc' : zlen (hdr_enc fp es) = 12 + 8 * zlen es.
Proof. unfold hdr_enc. rewrite !zlen_app, !zlen_le_enc, zlen_table, !zlen_cons, zlen_nil. lia. Qed.

Lemma hdr_start_eq : hdr_start ri is_eh = data.
Proof.
  pose proof (section_range ri hdr Hsec) as (R1 & R2 & R3). pose proof (so_off _ _ Hsec).
  unfold hdr_start, ex_addr_to_mmap_addr. fold hdr. rewrite Z.sub_diag. change (u64 0) with 0.
  unfold data. rewrite u64_small by (unfold sec_end, sec_start in *; lia). unfold sec_start. lia.
Qed.

Lemma hdr_count : 0 < zlen es < 2 ^ 31.
Proof.
  pose proof Hlen as L. rewrite Hsize, zlen_hdr_enc' in L.
  pose proof (zlen_pos es Hne). lia.
Qed.

(** The table behind the header. *)
Lemma get_bs_table_std : dwarf_get_bs_table ri sz data (zlen (hdr_enc fp es)) base is_eh =
    Done (Some (data + 12, zlen es)) /\
  holds_at ri hdr (data + 12) (table_bytes es) /\ table_ok ri (data + 12) (zlen es).
Proof.
  pose proof (section_range ri hdr Hsec) as (R1 & R2 & R3). pose proof hdr_count as Hn.
  pose proof Hlen as L. rewrite Hsize, zlen_hdr_enc' in L.
  assert (sec_end ri hdr = data + (12 + 8 * zlen es)) as Eend.
  { unfold sec_end. rewrite Hsize, zlen_hdr_enc'. done. }
  rewrite zlen_hdr_enc'. pose proof Hhdr as Hb. unfold hdr_enc in Hb.
  apply (take_byte ri hdr Hsec) in Hb as (L1 & _ & W1 & Hb).
  apply (take_byte ri hdr Hsec) in Hb as (L2 & _ & W2 & Hb).
  apply (take_byte ri hdr Hsec) in Hb as (L3 & _ & W3 & Hb).
  apply (take_byte ri hdr Hsec) in Hb as (L4 & _ & W4 & Hb).
  pose proof (take_sdata4 ri hdr Hsec sz pcrel_sdata4 fp _ base _ Hb Hfp (or_intror eq_refl)) as E5.
  apply (take_le ri hdr Hsec 4) in Hb as (_ & W5 & Hb); [|lia|exact (u32_range fp)].
  pose proof (take_sdata4 ri hdr Hsec sz DW_EH_PE_udata4 (zlen es) _ base _ Hb ltac:(lia)
                (or_introl eq_refl)) as E6.
  apply (take_le ri hdr Hsec 4) in Hb as (_ & W6 & Hb); [|lia|exact (u32_range (zlen es))].
  change (Z.of_nat 4) with 4 in *.
  replace (data + 1 + 1 + 1 + 1 + 4 + 4) with (data + 12) in * by lia.
  split; [|split; [exact Hb|]].
  - unfold dwarf_get_bs_table. fold hdr. destruct (Z.leb_spec (12 + 8 * zlen es) 4); [lia|].
    rewrite (u64_small (data + (12 + 8 * zlen es))), L1 by (unfold data in *; lia).
    cbn [mbind outcome_bind Z.eqb Pos.eqb negb].
    rewrite W1, L2. cbn [mbind outcome_bind]. change (pcrel_sdata4 =? DW_EH_PE_omit) with false.
    cbn [negb]. replace (u64 (data + 4)) with (data + 1 + 1 + 1 + 1) by (rewrite <- W4; f_equal; lia).
    rewrite E5. cbn [catch mbind outcome_bind nonneg Z.ltb Z.compare Pos.compare].
    rewrite W5. replace (u64 (data + 2)) with (data + 1 + 1) by (rewrite <- W2; f_equal; lia).
    rewrite L3. cbn [mbind outcome_bind]. change (DW_EH_PE_udata4 =? DW_EH_PE_omit) with false.
    cbv iota. rewrite E6. change (DW_EH_PE_udata4 =? DW_EH_PE_udata4) with true. cbv iota.
    cbn [catch mbind outcome_bind nonneg Z.ltb Z.compare Pos.compare].
    rewrite (u64_small (zlen es)), (u64_small (zlen es * 8)) by lia.
    replace (u64 (data + 1 + 1 + 1 + 1 + 4 + 4)) with (data + 12) by (rewrite <- W6; f_equal; lia).
    destruct (Z.leb_spec (data + (12 + 8 * zlen es)) (data + 12)); [lia|].
    destruct (Z.eqb_spec (zlen es * 8) (data + (12 + 8 * zlen es) - (data + 12))); [|lia].
    cbn [negb]. replace (u64 (data + 3)) with (data + 1 + 1 + 1) by (rewrite <- W3; f_equal; lia).
    by rewrite L4.
  - split; [apply Hsec|lia|unfold data in *; lia|unfold data in *; lia].
Qed.

Lemma table_bytes_at : forall l a i e, holds_at ri hdr a (table_bytes l) -> l !! i = Some e ->
  holds_at ri hdr (a + 8 * Z.of_nat i) (entry_bytes e).
Proof.
  pose proof (section_range ri hdr Hsec) as (R1 & R2 & R3).
  induction l as [|e0 l IH]; intros a i e Hb Hi; [done|].
  unfold table_bytes in Hb. cbn [map concat] in Hb. apply holds_at_app in Hb as [B1 B2]; [|lia].
  destruct i as [|i]; [injection Hi as <-; by rewrite Z.mul_0_r, Z.add_0_r|].
  specialize (IH _ i e B2 Hi). unfold entry_bytes in IH at 1. rewrite zlen_app, !zlen_le_enc in IH.
  by replace (a + 8 * Z.of_nat (S i)) with (a + (Z.of_nat 4 + Z.of_nat 4) + 8 * Z.of_nat i) by lia.
Qed.

Lemma table_entry a i e : holds_at ri hdr a (table_bytes es) -> es !! i = Some e ->
  entry_loc ri base a (Z.of_nat i) = start_of base e /\
  entry_fde ri base a (Z.of_nat i) = fde_at base e.
Proof.
  intros Hb Hi. pose proof (section_range ri hdr Hsec) as (R1 & R2 & R3).
  pose proof (table_bytes_at es a i e Hb Hi) as Hb'. unfold entry_bytes in Hb'.
  assert (entry_ok e) as [O1 O2] by (eapply Forall_lookup_1; [exact Hes|exact Hi]).
  assert (forall v, - 2 ^ 31 <= v < 2 ^ 31 -> sw 32 (le_dec (le_enc 4 (u32 v))) = v) as Hdec.
  { intros v Hv. rewrite le_dec_enc. change (8 * Z.of_nat 4) with 32.
    unfold sw, uw. rewrite Z.mod_mod, Zplus_mod_idemp_l, Z.mod_small by lia. lia. }
  apply holds_at_app in Hb' as [(_ & _ & B1) (_ & _ & B2)]; [|lia]. rewrite !zlen_le_enc in *.
  change (Z.of_nat 4) with 4 in *. unfold entry_loc, entry_fde, start_of, fde_at.
  by rewrite B1, B2, !Hdec.
Qed.

(** Below the last start, the search finds what the scan finds. *)
Lemma search_covering pc elast : increasing base es ->
  es !! (length es - 1)%nat = Some elast -> pc < start_of base elast ->
  match covering base pc es with
  | None => dwarf_bst_find_idx ri base (data + 12) (zlen es) pc = Done 0
  | Some e => exists i : nat, es !! i = Some e /\
      dwarf_bst_find_idx ri base (data + 12) (zlen es) pc = Done (data + 12 + 8 * Z.of_nat i)
  end.
Proof.
  intros Hinc Hl Hpc. destruct get_bs_table_std as (_ & Hb & Ht). pose proof hdr_count as Hn.
  destruct (dwarf_bst_find_idx_spec ri base (data + 12) (zlen es) pc Ht) as (r & E & Hspec).
  rewrite E. unfold zlen in Hn.
  assert (forall i e, es !! i = Some e -> entry_loc ri base (data + 12) (Z.of_nat i) = start_of base e) as Hloc
    by (intros i e Hi; exact (proj1 (table_entry _ i e Hb Hi))).
  destruct (lookup_lt_is_Some_2 es 0 ltac:(lia)) as [e0 H0]. 
  pose proof (Hloc 0%nat e0 H0) as L0. change (Z.of_nat 0) with 0 in L0. rewrite L0 in Hspec.
  assert (entry_loc ri base (data + 12) (zlen es - 1) = start_of base elast) as Elast.
  { rewrite <- (Hloc _ _ Hl). unfold zlen. f_equal. lia. }
  rewrite Elast in Hspec. destruct (Z.leb_spec (start_of base elast) pc); [lia|].
  destruct (Z.ltb_spec pc (start_of base e0)); cbn [orb] in Hspec.
  - subst r. rewrite covering_none; [done|done|]. intros e He. by simplify_eq.
  - destruct Hspec as (k & K1 & -> & K2). unfold zlen in K1.
    destruct (lookup_lt_is_Some_2 es (Z.to_nat k) ltac:(lia)) as [e He].
    destruct (lookup_lt_is_Some_2 es (S (Z.to_nat k)) ltac:(lia)) as [e' He'].
    pose proof (Hloc _ _ He) as L1. pose proof (Hloc _ _ He') as L2.
    rewrite Nat2Z.inj_succ in L2. rewrite Z2Nat.id in L1, L2 by lia. unfold Z.succ in L2.
    rewrite (covering_some base pc es (Z.to_nat k) e Hinc He);
      [|lia|intros e'' He''; simplify_eq; lia].
    exists (Z.to_nat k). by rewrite Z2Nat.id by lia.
Qed.

(** The last function of the table: its first address is its own; any other is
    in it when it is in the range stored before, or else in the range the FDE
    itself gives. *)
Lemma find_last_means pc store cie0 elast d cie_p ed :
  let secid := get_secid_frame is_eh in
  let ti := ex_sec ri secid in
  let p := ex_addr_to_mmap_addr (fde_at base elast) ri secid in
  let start := fde_start ri is_eh ed p in
  let end_ := u64 (start + fd_range ed) in
  es !! (length es - 1)%nat = Some elast ->
  0 <= ti_addr ti < 2 ^ 64 -> cie_desc_ok d -> fde_desc_ok ed ->
  holds_at ri secid cie_p (entry_enc (cie_body is_eh d)) ->
  holds_at ri secid p (entry_enc (fde_body ed)) ->
  cie_target ri is_eh p (fd_cie_ptr ed) = cie_p ->
  find_last ri sz (data + 12 + 8 * (zlen es - 1)) base pc (start_of base elast) store is_eh cie0 =
    Done (if pc =? start_of base elast then (p, [])
          else if 0 <? ti_tf_end ti then
            (if (ti_tf_start ti <=? pc) && (pc <? ti_tf_end ti) then p else 0, [])
          else (if (start <=? pc) && (pc <? end_) then p else 0,
                if store then [(vm_start ri, secid, start, end_)] else [])).
Proof.
  intros secid ti p start end_ Hl Ha Hd He Hc Hf Htgt.
  destruct get_bs_table_std as (_ & Hb & Ht). pose proof hdr_count as Hn.
  assert (zlen es - 1 = Z.of_nat (length es - 1)) as En by (unfold zlen in *; lia).
  unfold find_last. fold secid ti. rewrite En.
  rewrite (fde_addr_at ri base (data + 12) (zlen es)) by (done || (unfold zlen in *; lia)).
  cbn [mbind outcome_bind]. rewrite (proj2 (table_entry _ _ _ Hb Hl)). fold p.
  destruct (pc =? start_of base elast); [done|]. destruct (0 <? ti_tf_end ti); [done|].
  rewrite (dwarf_decode_fde_cie_standard ri sz is_eh p cie_p d ed cie0) by done.
  cbn [catch mbind outcome_bind]. done.
Qed.

(** C38. The lookup of an address is a linear scan. On the table a linker writes,
    sorted, of relative 32-bit addresses, no FDE is found below the first start,
    and otherwise the FDE of the last function that starts at or below the
    address. The last function of the table has a range too: its FDE, written
    with a zR CIE, is found for its first address; for another one only if the
    address is in the range stored for the section, or, when none is stored, in
    the range that the FDE gives, which is then stored when asked for. *)
Theorem dwarf_find_fde_scan pc store cie0 elast d cie_p ed :
  let secid := get_secid_frame is_eh in
  let ti := ex_sec ri secid in
  let fde e := ex_addr_to_mmap_addr (fde_at base e) ri secid in
  let start := fde_start ri is_eh ed (fde elast) in
  let end_ := u64 (start + fd_range ed) in
  increasing base es -> es !! (length es - 1)%nat = Some elast ->
  0 <= ti_addr ti < 2 ^ 64 -> cie_desc_ok d -> fde_desc_ok ed ->
  holds_at ri secid cie_p (entry_enc (cie_body is_eh d)) ->
  holds_at ri secid (fde elast) (entry_enc (fde_body ed)) ->
  cie_target ri is_eh (fde elast) (fd_cie_ptr ed) = cie_p ->
  dwarf_find_fde ri sz (hdr_start ri is_eh) (hdr_len ri is_eh) pc store is_eh cie0 =
    Done match covering base pc es with
         | None => (0, [])
         | Some e =>
             if pc <=? start_of base elast then (fde e, [])
             else if 0 <? ti_tf_end ti then
               (if (ti_tf_start ti <=? pc) && (pc <? ti_tf_end ti) then fde elast else 0, [])
             else
               (if (start <=? pc) && (pc <? end_) then fde elast else 0,
                if store then [(vm_start ri, secid, start, end_)] else [])
         end.
Proof.
  intros secid ti fde start end_ Hinc Hl Ha Hd He Hc Hf Htgt.
  destruct get_bs_table_std as (E & Hb & Ht). pose proof hdr_count as Hn.
  pose proof (section_range ri hdr Hsec) as (R1 & R2 & R3).
  unfold dwarf_find_fde. fold hdr base. rewrite hdr_start_eq. unfold hdr_len. fold hdr.
  rewrite Hsize, E. cbn [mbind outcome_bind]. pose proof Ht as [_ _ T3 T4].
  destruct (Z.eqb_spec (data + 12) 0); [lia|]. destruct (Z.eqb_spec (zlen es) 0); [lia|]. cbn [orb].
  rewrite u64_small by lia. rewrite (initial_loc_at ri base (data + 12) (zlen es)) by (done || lia).
  cbn [mbind outcome_bind].
  assert (entry_loc ri base (data + 12) (zlen es - 1) = start_of base elast) as ->.
  { rewrite <- (proj1 (table_entry _ _ _ Hb Hl)). f_equal. unfold zlen in *. lia. }
  destruct (Z.leb_spec (start_of base elast) pc) as [Hge|Hlt].
  - rewrite (find_last_means pc store cie0 elast d cie_p ed) by done.
    rewrite (covering_some base pc es _ _ Hinc Hl Hge).
    + fold secid ti (fde elast). fold start end_.
      destruct (Z.eqb_spec pc (start_of base elast)), (Z.leb_spec pc (start_of base elast)); done || lia.
    + intros e' He'. apply lookup_lt_Some in He'. unfold zlen in *. lia.
  - pose proof (search_covering pc elast Hinc Hl Hlt) as Hs.
    destruct (covering base pc es) as [e|]; [|by rewrite Hs].
    destruct Hs as (i & Hi & ->). cbn [mbind outcome_bind].
    destruct (Z.leb_spec pc (start_of base elast)); [|lia].
    destruct (Z.eqb_spec (data + 12 + 8 * Z.of_nat i) 0); [lia|].
    pose proof (lookup_lt_Some _ _ _ Hi) as Hlen'.
    rewrite (fde_addr_at ri base (data + 12) (zlen es)) by (done || (unfold zlen; lia)).
    cbn [mbind outcome_bind]. by rewrite (proj2 (table_entry _ _ _ Hb Hi)).
Qed.
End table.

(** ** Examples *)

Definition example_cie_desc : cie_desc := CieDesc 4 (-8) 30 [0x0c; 31; 0].
(** A function at 0x441000 of 32 bytes, its FDE behind the CIE. *)
Definition example_fde_desc : fde_desc :=
  FdeDesc 24 (0x441000 - 0x45001c) 32 [0x41; 0x0e; 16; 0x9d; 2; 0x9e; 1].
Definition example_frame : list Z :=
  entry_enc (cie_body true example_cie_desc) ++ entry_enc (fde_body example_fde_desc).
Definition example_entries : list bst_entry := [(0x1000, 0x10014); (0x2000, 0x10014)].
(** A table of the one function. *)
Definition last_entries : list bst_entry := [(0x1000, 0x10014)].

Lemma dwarf_decode_fde_cie_standard_witness :
  let ri := example_region example_frame [] in
  exists cie fde,
    @dwarf_decode_fde_cie example_shifts ri 8 (example_base + 20) example_cie true = Done (cie, fde) /\
    initial_location fde = 0x441000 /\ address_range fde = 32 /\ data_align_factor cie = u64 (-8).
Proof.
  intros ri. eexists _, _. split.
  - eapply (@dwarf_decode_fde_cie_standard example_shifts ri 8 true (example_base + 20) example_base
              example_cie_desc example_fde_desc example_cie); try (by apply holds_dec); try (by apply example_region_ok);
      first [reflexivity | repeat split; vm_compute; congruence].
  - by vm_compute.
Defined.

(** An address of the last function, and one behind its end. *)
Lemma dwarf_find_fde_scan_witness :
  let ri := example_region example_frame (hdr_enc 0 last_entries) in
  let find pc := @dwarf_find_fde example_shifts ri 8 (hdr_start ri true) (hdr_len ri true) pc true
                   true example_cie in
  let range := (vm_start ri, get_secid_frame true, 0x441000, 0x441020) in
  find 0x441010 = Done (example_base + 20, [range]) /\ find 0x441020 = Done (0, [range]).
Proof.
  intros ri find range. unfold find.
  split;
    (rewrite (@dwarf_find_fde_scan example_shifts ri true 8 0 last_entries)
       with (elast := (0x1000, 0x10014)) (d := example_cie_desc) (cie_p := example_base)
         (ed := example_fde_desc);
     [by vm_compute| | | | | | | | | | | | | | |];
     first [ by apply example_region_ok | by apply holds_dec
           | intros [|i] [|j] a b Hij Ha Hb; cbn in *; simplify_eq; lia
           | reflexivity
           | repeat first [constructor | split]; vm_compute; congruence ]).
Defined.
