(* ===== verification/EhRegions.v ===== *)
(** * The table of regions (drivers/misc/tegra-profiler/eh_unwind.c, 50-65 and 210-730)

    For every mapping of a process whose unwind sections were handed over, the
    driver keeps one entry in an array sorted by the start of the mapping. The array
    is replaced as a whole under a lock and read under RCU, so every operation is a
    function of the current array. The copies of the sections live in areas with a
    state and a reference count. *)

From stdpp Require Import gmap.
From S2P Require Import Prelude DwarfRead.
#[local] Open Scope Z_scope.

(** ** Data *)

Inductive mmap_state := ACTIVE | CLOSING | CLOSED.
#[export] Instance mmap_state_eq_dec : EqDecision mmap_state.
Proof. solve_decision. Defined.

(** struct ex_region_info: the area is a pointer. *)
Record ex_region := ExRegion {
  xr_start : Z; xr_end : Z; xr_sec : Z -> extab_info; xr_mmap : Z }.
Definition zero_extab : extab_info := Extab 0 0 0 0 0.
Definition zero_region : ex_region := ExRegion 0 0 (fun _ => zero_extab) 0.

(** struct regions_data: the size is the length of the array. *)
Record regions_data := Regions { rd_entries : list ex_region; rd_nr : Z }.
Definition rd_size (rd : regions_data) : Z := zlen (rd_entries rd).

(** struct quadd_mmap_area: the copy of a process' sections. *)
Record area := Area {
  a_extabs : bool; a_data : Z; a_bytes : list Z;
  a_state : mmap_state; a_ref : Z; a_entries : list ex_region;
}.
Definition set_state_ref (st : mmap_state) (n : Z) (a : area) : area :=
  Area (a_extabs a) (a_data a) (a_bytes a) st n (a_entries a).
Definition set_entries (l : list ex_region) (a : area) : area :=
  Area (a_extabs a) (a_data a) (a_bytes a) (a_state a) (a_ref a) l.

(** The region as the unwinders see it. *)
Definition region_of (x : ex_region) (a : area) : ex_region_info :=
  Region (xr_start x) (xr_end x) (xr_sec x)
    (MmapArea (bool_decide (a_state a = ACTIVE)) (a_data a) (a_bytes a)).

(** ** Arrays *)

Definition rd_get (arr : list ex_region) (i : Z) : outcome ex_region :=
  match arr !! Z.to_nat i with Some e => Done e | None => Fault end.
(** memcpy(&array[i], e, sizeof( *e)) *)
Definition rd_set (arr : list ex_region) (i : Z) (e : ex_region) : outcome (list ex_region) :=
  if i <? zlen arr then Done (<[Z.to_nat i := e]> arr) else Fault.
(** memmove(array + dst, array + src, n * sizeof( *array)) *)
Definition memmove (arr : list ex_region) (dst src n : Z) : outcome (list ex_region) :=
  if (dst + n <=? zlen arr) && (src + n <=? zlen arr)
  then Done (splice arr dst (slice arr src n)) else Fault.

(** The search of the three functions; the indices are unsigned int. *)
Fixpoint lower_bound (fuel : nat) (arr : list ex_region) (key i_min i_max : Z) : outcome Z :=
  match fuel with
  | O => Timeout
  | S fuel =>
      if i_min <? i_max then
        let mid := u32 (i_min + u32 (i_max - i_min) / 2) in
        e ← rd_get arr mid;
        if key <=? xr_start e then lower_bound fuel arr key i_min mid
        else lower_bound fuel arr key (u32 (mid + 1)) i_max
      else mret i_max
  end.
Definition bound_fuel : nat := 33.

(** The array after the operation, and the number of entries added. *)
Definition add_ex_region (arr : list ex_region) (size : Z) (e : ex_region)
    : outcome (list ex_region * Z) :=
  if size =? 0 then arr ← rd_set arr 0 e; mret (arr, 1)
  else
    first ← rd_get arr 0;
    if (size =? 1) && (xr_start first =? xr_start e) then mret (arr, 0)
    else if xr_start e <? xr_start first then
      arr ← memmove arr 1 0 size; arr ← rd_set arr 0 e; mret (arr, 1)
    else
      last ← rd_get arr (size - 1);
      if xr_start last <? xr_start e then arr ← rd_set arr size e; mret (arr, 1)
      else
        i_max ← lower_bound bound_fuel arr (xr_start e) 0 (u32 size);
        x ← rd_get arr i_max;
        if xr_start x =? xr_start e then mret (arr, 0)
        else
          arr ← memmove arr (i_max + 1) i_max (size - i_max);
          arr ← rd_set arr i_max e; mret (arr, 1).

(** The array, and the number of entries removed. *)
Definition remove_ex_region (arr : list ex_region) (size : Z) (e : ex_region)
    : outcome (list ex_region * Z) :=
  if size =? 0 then mret (arr, 0)
  else
    first ← rd_get arr 0;
    if size =? 1 then mret (arr, if xr_start first =? xr_start e then 1 else 0)
    else if xr_start e <? xr_start first then mret (arr, 0)
    else
      last ← rd_get arr (size - 1);
      if xr_start last <? xr_start e then mret (arr, 0)
      else
        i_max ← lower_bound bound_fuel arr (xr_start e) 0 (u32 size);
        x ← rd_get arr i_max;
        if xr_start x =? xr_start e then
          arr ← memmove arr i_max (i_max + 1) (size - i_max); mret (arr, 1)
        else mret (arr, 0).

(** The index of the entry. *)
Definition __search_ex_region (arr : list ex_region) (size key : Z) : outcome (option Z) :=
  if size =? 0 then mret None
  else
    i_max ← lower_bound bound_fuel arr key 0 (u32 size);
    x ← rd_get arr i_max;
    mret (if xr_start x =? key then Some i_max else None).

(** ** The driver's state *)

Record world := World { w_rd : option regions_data; w_areas : gmap Z area }.
Definition set_rd (rd : option regions_data) (w : world) : world := World rd (w_areas w).
Definition set_area (m : Z) (a : area) (w : world) : world :=
  World (w_rd w) (<[m := a]> (w_areas w)).

Definition QUADD_EXTABS_SIZE : Z := 0x100.
(** Error codes of the kernel. *)
Definition EIO : Z := 5.
Definition ENOENT : Z := 2.
Definition ENOMEM : Z := 12.

Definition search_ex_region (key : Z) (w : world) : outcome (option ex_region) :=
  match w_rd w with
  | None => mret None
  | Some rd =>
      i ← __search_ex_region (rd_entries rd) (rd_nr rd) key;
      match i with
      | None => mret None
      | Some i => x ← rd_get (rd_entries rd) i; mret (Some x)
      end
  end.

(** The second half of quadd_get_dw_frames and get_extabs_ehabi, under the lock of
    the area: [usable] is the check of the sections. *)
Definition get_area (usable : ex_region -> bool) (x : ex_region) (w : world)
    : outcome ((Z + ex_region) * world) :=
  match w_areas w !! xr_mmap x with
  | None => Fault
  | Some a =>
      if bool_decide (a_state a = ACTIVE) && usable x
      then mret (inr x, set_area (xr_mmap x) (set_state_ref (a_state a) (a_ref a + 1) a) w)
      else mret (inl (- ENOENT), w)
  end.

Definition has_section (x : ex_region) (st : Z) : bool := negb (ti_length (xr_sec x st) =? 0).
Definition dw_usable (x : ex_region) : bool :=
  has_section x QUADD_SEC_TYPE_EH_FRAME && has_section x QUADD_SEC_TYPE_EH_FRAME_HDR ||
  has_section x QUADD_SEC_TYPE_DEBUG_FRAME && has_section x QUADD_SEC_TYPE_DEBUG_FRAME_HDR.
Definition QUADD_SEC_TYPE_EXTAB : Z := 0.
Definition QUADD_SEC_TYPE_EXIDX : Z := 1.

Definition get_region (usable : ex_region -> bool) (key : Z) (w : world)
    : outcome ((Z + ex_region) * world) :=
  r ← search_ex_region key w;
  match r with
  | None => mret (inl (- ENOENT), w)
  | Some x => get_area usable x w
  end.
Definition quadd_get_dw_frames (key : Z) (w : world) : outcome ((Z + ex_region) * world) :=
  get_region dw_usable key w.
Definition get_extabs_ehabi (key : Z) (w : world) : outcome ((Z + ex_region) * world) :=
  get_region (fun x => has_section x QUADD_SEC_TYPE_EXIDX) key w.

(** Both functions that drop a reference. *)
Definition quadd_put_dw_frames (x : ex_region) (w : world) : outcome world :=
  match w_areas w !! xr_mmap x with
  | None => Fault
  | Some a =>
      let n := a_ref a - 1 in
      let st := if (n =? 0) && bool_decide (a_state a = CLOSING) then CLOSED else a_state a in
      mret (set_area (xr_mmap x) (set_state_ref st n a) w)
  end.
Definition put_extabs_ehabi (x : ex_region) (w : world) : outcome world := quadd_put_dw_frames x w.
(** What a walk holds besides its caller's reference. *)
Definition put_prev (prev : option ex_region) (w : world) : outcome world :=
  match prev with Some x => quadd_put_dw_frames x w | None => mret w end.
(** The region with its area, as it is now. *)
Definition view (w : world) (x : ex_region) : outcome ex_region_info :=
  match w_areas w !! xr_mmap x with Some a => Done (region_of x a) | None => Fault end.

(** An empty array of [size] zeroed entries. *)
Definition rd_alloc (size : Z) : list ex_region := replicate (Z.to_nat size) zero_region.
(** memcpy(rd_new->entries, rd->entries, n * sizeof( *rd->entries)) *)
Definition rd_copy (arr old : list ex_region) (n : Z) : outcome (list ex_region) :=
  if (n <=? zlen arr) && (n <=? zlen old) then Done (splice arr 0 (slice old 0 n)) else Fault.

(** struct quadd_sections: addr, length and mmap_offset of each section. *)
Record quadd_sections := Sections {
  qs_start : Z; qs_end : Z; qs_sec : Z -> Z * Z * Z }.

Definition new_entry (s : quadd_sections) (m : Z) : ex_region :=
  ExRegion (qs_start s) (qs_end s)
    (fun i => let '(addr, length, off) := qs_sec s i in
              if addr =? 0 then zero_extab else Extab addr length off 0 0) m.

(** The two allocations of the function: the array and the area's own entry. *)
Definition quadd_unwind_set_extab (alloc_rd alloc_entry : bool) (s : quadd_sections) (m : Z)
    (w : world) : outcome (Z * world) :=
  match w_areas w !! m with
  | None => Fault
  | Some a =>
      if negb (a_extabs a) then mret (- EIO, w)
      else
        let '(size, nr) := match w_rd w with
                           | None => (QUADD_EXTABS_SIZE, 0)
                           | Some rd => (rd_size rd, rd_nr rd)
                           end in
        let size := if size <=? nr then u64 (size + Z.shiftr size 1) else size in
        if negb alloc_rd then mret (- ENOMEM, w)
        else
          arr ← match w_rd w with
                | Some rd => if nr =? 0 then mret (rd_alloc size)
                             else rd_copy (rd_alloc size) (rd_entries rd) nr
                | None => mret (rd_alloc size)
                end;
          '(arr, added) ← add_ex_region arr nr (new_entry s m);
          if added =? 0 then mret (0, w)
          else if negb alloc_entry then mret (- ENOMEM, w)
          else
            let a := set_entries (a_entries a ++ [new_entry s m]) a in
            mret (0, set_area m a (set_rd (Some (Regions arr (nr + added))) w))
  end.

Definition upd_tail (secid tf_start tf_end : Z) (x : ex_region) : ex_region :=
  ExRegion (xr_start x) (xr_end x)
    (fun i => let ti := xr_sec x i in
              if i =? secid then Extab (ti_addr ti) (ti_length ti) (ti_mmap_offset ti) tf_start tf_end
              else ti) (xr_mmap x).

Definition quadd_unwind_set_tail_info (alloc_rd : bool) (start secid tf_start tf_end : Z) (w : world)
    : outcome world :=
  match w_rd w with
  | None => mret w
  | Some rd =>
      if rd_nr rd =? 0 then mret w
      else if negb alloc_rd then mret w
      else
        arr ← rd_copy (rd_alloc (rd_size rd)) (rd_entries rd) (rd_nr rd);
        i ← __search_ex_region arr (rd_nr rd) start;
        match i with
        | None => mret w
        | Some i =>
            x ← rd_get arr i; arr ← rd_set arr i (upd_tail secid tf_start tf_end x);
            mret (set_rd (Some (Regions arr (rd_nr rd))) w)
        end
  end.

(** list_for_each_entry_safe over the entries of the area; [size] does not change
    during the loop. The array and the number of removed entries. *)
Fixpoint clean_loop (l : list ex_region) (arr : list ex_region) (size : Z) (rm_ext : bool)
    (nr_removed : Z) : outcome (list ex_region * Z) :=
  match l with
  | [] => mret (arr, nr_removed)
  | e :: l =>
      '(arr, n) ← (if rm_ext : bool then remove_ex_region arr size e else mret (arr, 0));
      clean_loop l arr size rm_ext (nr_removed + n)
  end.
Definition clean_mmap (rd : regions_data) (a : area) (rm_ext : bool)
    : outcome (list ex_region * Z * area) :=
  '(arr, n) ← clean_loop (a_entries a) (rd_entries rd) (rd_nr rd) rm_ext 0;
  mret (arr, n, set_entries [] a).

Definition __quadd_unwind_delete_mmap (alloc_rd : bool) (m : Z) (w : world) : outcome world :=
  match w_areas w !! m with
  | None => Fault
  | Some a =>
      match w_rd w with
      | None => mret w
      | Some rd =>
          if rd_nr rd =? 0 then mret w
          else
            let new_size := Z.min (rd_size rd) (rd_nr rd) in
            if negb alloc_rd then mret w
            else
              arr ← rd_copy (rd_alloc new_size) (rd_entries rd) (rd_nr rd);
              '(arr, n, a) ← clean_mmap (Regions arr (rd_nr rd)) a true;
              mret (set_area m a (set_rd (Some (Regions arr (rd_nr rd - n))) w))
      end
  end.

(** mmap_wait_for_close up to the loop that waits for CLOSED. *)
Definition mmap_start_close (m : Z) (w : world) : outcome world :=
  match w_areas w !! m with
  | None => Fault
  | Some a =>
      mret (set_area m (set_state_ref (if 0 <? a_ref a then CLOSING else CLOSED) (a_ref a) a) w)
  end.
(** The end of the loop, and the rest of quadd_unwind_delete_mmap. *)
Definition is_closed (m : Z) (w : world) : bool :=
  match w_areas w !! m with Some a => bool_decide (a_state a = CLOSED) | None => false end.

(** Starting replaces the table; stopping closes the area of every entry, waits
    and drops the table. *)
Definition quadd_unwind_start (alloc_rd : bool) (dwarf_start : Z) (w : world) : Z * world :=
  if negb alloc_rd then (- ENOMEM, w)
  else if negb (dwarf_start =? 0) then (dwarf_start, w)
  else (0, set_rd (Some (Regions (rd_alloc QUADD_EXTABS_SIZE) 0)) w).

(** ** The array as a map *)

Definition live (arr : list ex_region) (nr : Z) : list ex_region := take (Z.to_nat nr) arr.
Definition sorted (l : list ex_region) : Prop :=
  forall (i j : nat) a b, (i < j)%nat -> l !! i = Some a -> l !! j = Some b ->
    xr_start a < xr_start b.
Definition spare_zero (arr : list ex_region) (nr : Z) : Prop :=
  forall (i : nat) x, nr <= Z.of_nat i -> arr !! i = Some x -> xr_start x = 0.

Record rd_ok (arr : list ex_region) (nr : Z) : Prop := {
  ro_nr : 0 <= nr <= zlen arr;
  ro_small : zlen arr < 2 ^ 31;
  ro_sorted : sorted (live arr nr);
}.

(** The abstract table: a finite map from the starts of the mappings. *)
Definition rd_map (arr : list ex_region) (nr : Z) : gmap Z ex_region :=
  list_to_map ((fun x => (xr_start x, x)) <$> live arr nr).

Lemma live_lookup arr nr (i : nat) : Z.of_nat i < nr -> live arr nr !! i = arr !! i.
Proof. intros Hi. unfold live. rewrite lookup_take_lt; [done|lia]. Qed.

Lemma live_lookup_Some arr nr (i : nat) x : live arr nr !! i = Some x ->
  arr !! i = Some x /\ (0 <= nr -> Z.of_nat i < nr).
Proof.
  unfold live. intros H. apply lookup_take_Some in H as [H1 H2]. split; [done|]. lia.
Qed.

Lemma sorted_nodup l : sorted l -> NoDup (xr_start <$> l).
Proof.
  intros Hs. apply NoDup_alt. intros i j x Hi Hj.
  apply list_lookup_fmap_Some in Hi as (a & -> & Ha).
  apply list_lookup_fmap_Some in Hj as (b & E & Hb).
  destruct (Nat.lt_trichotomy i j) as [Hlt|[->|Hgt]]; [|done|].
  - pose proof (Hs i j a b Hlt Ha Hb). lia.
  - pose proof (Hs j i b a Hgt Hb Ha). lia.
Qed.

Lemma rd_map_lookup arr nr key x : rd_ok arr nr ->
  rd_map arr nr !! key = Some x <-> exists i : nat, live arr nr !! i = Some x /\ xr_start x = key.
Proof.
  intros [_ _ Hs]. unfold rd_map. rewrite <- elem_of_list_to_map.
  - rewrite list_elem_of_fmap. split.
    + intros (y & [= -> ->] & Hy). apply list_elem_of_lookup in Hy as [i Hi]. eauto.
    + intros (i & Hi & <-). exists x. split; [done|]. apply list_elem_of_lookup. eauto.
  - rewrite <- list_fmap_compose. exact (sorted_nodup _ Hs).
Qed.

(** *** The search *)

Lemma rd_get_ok arr i : 0 <= i < zlen arr -> exists x, rd_get arr i = Done x /\ arr !! Z.to_nat i = Some x.
Proof.
  intros Hi. unfold rd_get. destruct (lookup_lt_is_Some_2 arr (Z.to_nat i)) as [x Hx]; [zlia|].
  rewrite Hx. eauto.
Qed.

(** Between what is smaller than the key and what is not. *)
Definition splits (arr : list ex_region) (nr key k : Z) : Prop :=
  (forall (i : nat) x, Z.of_nat i < k -> arr !! i = Some x -> xr_start x < key) /\
  (forall (i : nat) x, k <= Z.of_nat i < nr -> arr !! i = Some x -> key <= xr_start x).

Lemma lower_bound_spec arr nr key : rd_ok arr nr -> forall fuel i_min i_max,
  0 <= i_min <= i_max -> i_max <= nr -> i_max - i_min < 2 ^ (Z.of_nat fuel - 1) -> (0 < fuel)%nat ->
  (forall (i : nat) x, Z.of_nat i < i_min -> arr !! i = Some x -> xr_start x < key) ->
  (forall (i : nat) x, i_max <= Z.of_nat i < nr -> arr !! i = Some x -> key <= xr_start x) ->
  exists k, lower_bound fuel arr key i_min i_max = Done k /\ 0 <= k <= nr /\ splits arr nr key k.
Proof.
  intros [Hn Hsm Hs]. induction fuel as [|fuel IH]; intros lo hi Hlo Hhi Hf H0 Hl Hh; [lia|].
  cbn [lower_bound]. destruct (Z.ltb_spec lo hi).
  - rewrite (u32_small (hi - lo)) by lia. set (mid := lo + (hi - lo) / 2).
    assert (lo <= mid < hi) as Hm by (unfold mid; dlia). rewrite (u32_small mid) by lia.
    assert (1 <= Z.of_nat fuel) as Hfuel.
    { destruct fuel; [|lia]. change (2 ^ (Z.of_nat 1 - 1)) with 1 in Hf. lia. }
    assert (2 ^ (Z.of_nat (S fuel) - 1) = 2 * 2 ^ (Z.of_nat fuel - 1)) as Hp
      by (rewrite <- Z.pow_succ_r by lia; f_equal; lia).
    rewrite Hp in Hf. destruct (rd_get_ok arr mid) as (x & E & Hx); [lia|]. rewrite E.
    cbn [mbind outcome_bind].
    assert (forall (i : nat) y, (i < Z.to_nat mid)%nat -> arr !! i = Some y -> xr_start y < xr_start x) as Hbelow.
    { intros i y Hi Hy. apply (Hs i (Z.to_nat mid)); [lia|rewrite live_lookup by lia; done..]. }
    assert (forall (i : nat) y, (Z.to_nat mid < i)%nat -> Z.of_nat i < nr -> arr !! i = Some y ->
              xr_start x < xr_start y) as Habove.
    { intros i y Hi Hi' Hy. apply (Hs (Z.to_nat mid) i); [lia|rewrite live_lookup by lia; done..]. }
    destruct (Z.leb_spec key (xr_start x)).
    + apply IH; try (unfold mid in *; dlia); [done|]. intros i y Hi Hy.
      destruct (decide (i = Z.to_nat mid)) as [->|]; [by simplify_eq; lia|].
      specialize (Habove i y ltac:(lia) ltac:(lia) Hy). lia.
    + rewrite u32_small by lia. apply IH; try (unfold mid in *; dlia); [|done]. intros i y Hi Hy.
      destruct (decide (i = Z.to_nat mid)) as [->|]; [by simplify_eq; lia|].
      specialize (Hbelow i y ltac:(lia) Hy). lia.
  - exists lo. assert (lo = hi) as -> by lia. split; [done|]. split; [lia|]. by split.
Qed.

Lemma bound_ok arr nr key : rd_ok arr nr ->
  exists k, lower_bound bound_fuel arr key 0 (u32 nr) = Done k /\ 0 <= k <= nr /\ splits arr nr key k.
Proof.
  intros Hok. pose proof Hok as [Hn Hsm Hs]. rewrite u32_small by lia.
  apply (lower_bound_spec arr nr key Hok); unfold bound_fuel; try lia.
Qed.

(** The slot behind the last entry is there, and zero. *)
Record rd_room (arr : list ex_region) (nr : Z) : Prop := {
  rr_ok : rd_ok arr nr;
  rr_room : nr < zlen arr;
  rr_spare : spare_zero arr nr;
}.

Lemma search_index arr nr key : rd_room arr nr -> key <> 0 ->
  exists r, __search_ex_region arr nr key = Done r /\
    match r with
    | Some i => 0 <= i < nr /\ exists x, arr !! Z.to_nat i = Some x /\ xr_start x = key
    | None => forall (i : nat) x, Z.of_nat i < nr -> arr !! i = Some x -> xr_start x <> key
    end.
Proof.
  intros [Hok Hroom Hspare] Hkey. pose proof Hok as [Hn _ _]. unfold __search_ex_region.
  destruct (Z.eqb_spec nr 0) as [->|]; [exists None; split; [done|]; intros; lia|].
  destruct (bound_ok arr nr key Hok) as (k & E & Hk & Hlo & Hhi). rewrite E. cbn [mbind outcome_bind].
  destruct (rd_get_ok arr k ltac:(lia)) as (x & Ex & Hx). rewrite Ex. cbn [mbind outcome_bind].
  destruct (Z.eqb_spec (xr_start x) key) as [Heq|Hne].
  - exists (Some k). split; [done|]. destruct (decide (k < nr)) as [Hlt|Hge]; [split; [lia|eauto]|].
    rewrite (Hspare (Z.to_nat k) x ltac:(lia) Hx) in Heq. lia.
  - exists None. split; [done|]. intros i y Hi Hy Hs.
    destruct (Z.lt_ge_cases (Z.of_nat i) k) as [Hlt|Hge]; [pose proof (Hlo i y Hlt Hy); lia|].
    destruct (decide (Z.to_nat k = i)) as [<-|Hik]; [by simplify_eq|].
    assert (xr_start x < xr_start y).
    { pose proof (ro_sorted _ _ Hok) as Hsort.
      apply (Hsort (Z.to_nat k) i); [lia|rewrite live_lookup by lia; done..]. }
    pose proof (Hhi (Z.to_nat k) x ltac:(lia) Hx). lia.
Qed.

(** The binary search is the lookup of the map. *)
Theorem search_ex_region_map arr nr key w : w_rd w = Some (Regions arr nr) -> rd_room arr nr ->
  key <> 0 -> search_ex_region key w = Done (rd_map arr nr !! key).
Proof.
  intros Hw Hr Hkey. pose proof (rr_ok _ _ Hr) as Hok.
  unfold search_ex_region. rewrite Hw. cbn [rd_entries rd_nr].
  destruct (search_index arr nr key Hr Hkey) as ([i|] & E & Hspec); rewrite E; cbn [mbind outcome_bind].
  - destruct Hspec as (Hi & x & Hx & Hs). unfold rd_get. rewrite Hx. cbn [mbind outcome_bind mret outcome_ret].
    f_equal. symmetry. apply rd_map_lookup; [done|]. exists (Z.to_nat i).
    rewrite live_lookup by lia. done.
  - cbn [mret outcome_ret]. f_equal. symmetry. apply eq_None_not_Some. intros [x Hx].
    apply rd_map_lookup in Hx as (i & Hi & Hs); [|done].
    apply live_lookup_Some in Hi as [Hi Hn]. apply (Hspec i x); [|done..].
    apply Hn, Hok.
Qed.

(** A full table is read past its end for every key above its last one. *)
Lemma search_reads_past_end arr nr key w : w_rd w = Some (Regions arr nr) -> rd_ok arr nr ->
  nr = zlen arr -> 0 < nr -> (forall (i : nat) x, arr !! i = Some x -> xr_start x < key) ->
  search_ex_region key w = Fault.
Proof.
  intros Hw Hok Hfull Hnr Hkey. unfold search_ex_region, __search_ex_region. rewrite Hw.
  cbn [rd_entries rd_nr]. destruct (Z.eqb_spec nr 0); [lia|].
  destruct (bound_ok arr nr key Hok) as (k & E & Hk & Hlo & Hhi). rewrite E. cbn [mbind outcome_bind].
  assert (k = nr) as ->.
  { destruct (decide (k = nr)) as [->|]; [done|]. destruct (rd_get_ok arr k ltac:(lia)) as (x & _ & Hx).
    pose proof (Hkey _ _ Hx). pose proof (Hhi (Z.to_nat k) _ ltac:(lia) Hx). lia. }
  unfold rd_get. rewrite lookup_ge_None_2; [done|]. zlia.
Qed.

(** *** Adding an entry *)

Definition insert_at (k : Z) (e : ex_region) (nr : Z) (arr : list ex_region) : list ex_region :=
  take (Z.to_nat k) arr ++ e :: slice arr k (nr - k) ++ drop (Z.to_nat (nr + 1)) arr.

Lemma memmove_insert arr nr k e : 0 <= k <= nr -> nr < zlen arr ->
  (arr ← memmove arr (k + 1) k (nr - k); rd_set arr k e) = Done (insert_at k e nr arr).
Proof.
  intros Hk Hn. unfold memmove. destruct (Z.leb_spec (k + 1 + (nr - k)) (zlen arr)); [|lia].
  destruct (Z.leb_spec (k + (nr - k)) (zlen arr)); [|lia]. cbn [andb mbind outcome_bind].
  assert (zlen (slice arr k (nr - k)) = nr - k) as Hz by (apply zlen_slice; lia).
  unfold rd_set. rewrite zlen_splice by (rewrite ?Hz; lia).
  destruct (Z.ltb_spec k (zlen arr)); [|lia]. f_equal. unfold insert_at, splice.
  assert (length (slice arr k (nr - k)) = Z.to_nat (nr - k)) as Hsl.
  { unfold slice. rewrite length_take, length_drop. zlia. }
  rewrite Hsl.
  assert (exists y, take (Z.to_nat (k + 1)) arr = take (Z.to_nat k) arr ++ [y]) as [y Hy].
  { destruct (lookup_lt_is_Some_2 arr (Z.to_nat k)) as [y Hy]; [zlia|]. exists y.
    replace (Z.to_nat (k + 1)) with (S (Z.to_nat k)) by lia. by apply take_S_r. }
  rewrite Hy, <- app_assoc. rewrite insert_app_r_alt by (rewrite length_take; zlia).
  rewrite length_take, Nat.min_l by zlia. rewrite Nat.sub_diag. cbn [app insert list_insert].
  do 4 f_equal. lia.
Qed.

Lemma rd_set_insert arr nr e : 0 <= nr < zlen arr -> rd_set arr nr e = Done (insert_at nr e nr arr).
Proof.
  intros Hn. rewrite <- (memmove_insert arr nr nr e) by lia. unfold memmove.
  destruct (Z.leb_spec (nr + 1 + (nr - nr)) (zlen arr)); [|lia].
  destruct (Z.leb_spec (nr + (nr - nr)) (zlen arr)); [|lia]. cbn [andb mbind outcome_bind].
  assert (splice arr (nr + 1) (slice arr nr (nr - nr)) = arr) as ->; [|done].
  rewrite Z.sub_diag. change (slice arr nr 0) with (@nil ex_region). unfold splice.
  cbn [app length]. by rewrite Nat.add_0_r, take_drop.
Qed.

(** What adding promises. *)
Definition present (arr : list ex_region) (nr key : Z) : Prop :=
  exists (i : nat) x, live arr nr !! i = Some x /\ xr_start x = key.
Definition added (arr arr' : list ex_region) (nr n : Z) (e : ex_region) : Prop :=
  n = 0 /\ arr' = arr /\ present arr nr (xr_start e) \/
  n = 1 /\ ~ present arr nr (xr_start e) /\
    exists k, 0 <= k <= nr /\ splits arr nr (xr_start e) k /\ arr' = insert_at k e nr arr.

Lemma live_order arr nr (i j : nat) a b : rd_ok arr nr -> (i <= j)%nat -> Z.of_nat j < nr ->
  arr !! i = Some a -> arr !! j = Some b -> xr_start a <= xr_start b.
Proof.
  intros Hok Hij Hj Ha Hb. destruct (decide (i = j)) as [->|]; [by simplify_eq; lia|].
  assert (xr_start a < xr_start b); [|lia].
  apply (ro_sorted _ _ Hok i j); [lia|rewrite live_lookup by lia; done..].
Qed.

Lemma present_at arr nr (i : nat) x : Z.of_nat i < nr -> arr !! i = Some x ->
  present arr nr (xr_start x).
Proof. intros Hi Hx. exists i, x. rewrite live_lookup by lia. done. Qed.

(** Where the entry at the bound is not the one looked for, none is. *)
Lemma splits_missing arr nr key k : rd_ok arr nr -> splits arr nr key k -> 0 <= k <= nr ->
  (forall x, k < nr -> arr !! Z.to_nat k = Some x -> xr_start x <> key) -> ~ present arr nr key.
Proof.
  intros Hok [Hlo Hhi] Hk Hne (i & y & Hy & Hs).
  apply live_lookup_Some in Hy as [Hy Hn]. specialize (Hn ltac:(lia)).
  destruct (Z.lt_ge_cases (Z.of_nat i) k) as [Hlt|Hge]; [pose proof (Hlo i y Hlt Hy); lia|].
  pose proof (ro_nr _ _ Hok). destruct (rd_get_ok arr k ltac:(lia)) as (x & _ & Hx).
  pose proof (Hhi (Z.to_nat k) x ltac:(lia) Hx). specialize (Hne x ltac:(lia) Hx).
  pose proof (live_order arr nr (Z.to_nat k) i x y Hok ltac:(lia) Hn Hx Hy). lia.
Qed.

Lemma added_at arr nr k e : rd_ok arr nr -> 0 <= k <= nr -> splits arr nr (xr_start e) k ->
  (forall x, k < nr -> arr !! Z.to_nat k = Some x -> xr_start x <> xr_start e) ->
  added arr (insert_at k e nr arr) nr 1 e.
Proof.
  intros Hok Hk Hs Hne. right. split; [done|]. split; [|eauto].
  by apply (splits_missing arr nr _ k).
Qed.

Lemma memmove_insert_at arr nr k e : 0 <= k <= nr -> nr < zlen arr ->
  exists a1, memmove arr (k + 1) k (nr - k) = Done a1 /\ rd_set a1 k e = Done (insert_at k e nr arr).
Proof.
  intros Hk Hn. pose proof (memmove_insert arr nr k e Hk Hn) as H.
  destruct (memmove arr (k + 1) k (nr - k)) as [a1|c1| |]; cbn in H; try discriminate H. eauto.
Qed.

Lemma add_ex_region_spec arr nr e : rd_ok arr nr -> nr < zlen arr ->
  exists arr' n, add_ex_region arr nr e = Done (arr', n) /\ added arr arr' nr n e.
Proof.
  intros Hok Hroom. pose proof Hok as [Hn _ Hs]. unfold add_ex_region.
  destruct (Z.eqb_spec nr 0) as [->|].
  { rewrite rd_set_insert by lia. eexists _, _. split; [done|].
    apply added_at; [done|lia|split; intros; lia|intros; lia]. }
  destruct (rd_get_ok arr 0 ltac:(lia)) as (x0 & E0 & H0). rewrite E0. cbn [mbind outcome_bind].
  destruct ((nr =? 1) && (xr_start x0 =? xr_start e)) eqn:E1.
  { exists arr, 0. split; [done|]. left. split; [done|]. split; [done|].
    replace (xr_start e) with (xr_start x0) by lia. by apply (present_at arr nr 0); [lia|]. }
  destruct (Z.ltb_spec (xr_start e) (xr_start x0)).
  { destruct (memmove_insert_at arr nr 0 e ltac:(lia) ltac:(lia)) as (a1 & Ea & Eb).
    change (0 + 1) with 1 in Ea. rewrite Z.sub_0_r in Ea. rewrite Ea. cbn [mbind outcome_bind].
    rewrite Eb. eexists _, _. split; [done|]. apply added_at; [done|lia| |].
    - split; [intros; lia|]. intros i y Hi Hy.
      pose proof (live_order arr nr 0 i x0 y Hok ltac:(lia) ltac:(lia) H0 Hy). lia.
    - intros x _ Hx. by simplify_eq; lia. }
  destruct (rd_get_ok arr (nr - 1) ltac:(lia)) as (x1 & -> & H1). cbn [mbind outcome_bind].
  destruct (Z.ltb_spec (xr_start x1) (xr_start e)).
  { rewrite rd_set_insert by lia. eexists _, _. split; [done|]. apply added_at; [done|lia| |intros; lia].
    split; [|intros; lia]. intros i y Hi Hy.
    pose proof (live_order arr nr i (Z.to_nat (nr - 1)) y x1 Hok ltac:(lia) ltac:(lia) Hy H1). lia. }
  destruct (bound_ok arr nr (xr_start e) Hok) as (k & -> & Hk & Hsp). cbn [mbind outcome_bind].
  destruct (rd_get_ok arr k ltac:(lia)) as (x & -> & Hx). cbn [mbind outcome_bind].
  destruct (Z.eqb_spec (xr_start x) (xr_start e)) as [Heq|Hne].
  - assert (k < nr).
    { destruct (decide (k = nr)) as [->|]; [|lia].
      pose proof (proj1 Hsp (Z.to_nat (nr - 1)) x1 ltac:(lia) H1). lia. }
    eexists _, _. split; [done|]. left. split; [done|]. split; [done|]. rewrite <- Heq.
    apply (present_at arr nr (Z.to_nat k)); [lia|done].
  - destruct (memmove_insert_at arr nr k e ltac:(lia) ltac:(lia)) as (a1 & -> & Eb).
    cbn [mbind outcome_bind]. rewrite Eb. eexists _, _. split; [done|].
    apply added_at; try done. intros y _ Hy. by simplify_eq.
Qed.

(** *** The map after an insertion *)

Lemma live_insert arr nr k e : 0 <= k <= nr -> nr < zlen arr ->
  live (insert_at k e nr arr) (nr + 1) = take (Z.to_nat k) arr ++ e :: slice arr k (nr - k) /\
  live arr nr = take (Z.to_nat k) arr ++ slice arr k (nr - k).
Proof.
  intros Hk Hn. split.
  - unfold live, insert_at. rewrite app_comm_cons, app_assoc. apply take_app_length'.
    rewrite length_app. cbn [length]. unfold slice. rewrite !length_take, length_drop. zlia.
  - unfold live, slice. replace (Z.to_nat nr) with (Z.to_nat k + Z.to_nat (nr - k))%nat by lia.
    symmetry. apply take_take_drop.
Qed.

Lemma sorted_insert l1 l2 e : sorted (l1 ++ l2) ->
  (forall (i : nat) x, l1 !! i = Some x -> xr_start x < xr_start e) ->
  (forall (i : nat) x, l2 !! i = Some x -> xr_start e < xr_start x) -> sorted (l1 ++ e :: l2).
Proof.
  intros Hs H1 H2 i j a b Hij Ha Hb.
  assert (forall (i : nat) x, (l1 ++ e :: l2) !! i = Some x ->
    (i < length l1)%nat /\ l1 !! i = Some x \/ i = length l1 /\ x = e \/
    exists n, i = (length l1 + S n)%nat /\ l2 !! n = Some x) as Hc.
  { intros n x Hx. destruct (decide (n < length l1)%nat).
    - rewrite lookup_app_l in Hx by done. auto.
    - rewrite lookup_app_r in Hx by lia.
      destruct (n - length l1)%nat as [|m] eqn:En; cbn in Hx.
      + injection Hx as <-. right; left. split; [lia|done].
      + right; right. exists m. split; [lia|done]. }
  destruct (Hc i a Ha) as [[I1 I2]|[[-> ->]|(n & -> & I2)]],
    (Hc j b Hb) as [[J1 J2]|[[-> ->]|(m & -> & J2)]]; try lia; eauto.
  - apply (Hs i j); [lia|rewrite lookup_app_l by lia; done..].
  - apply (Hs i (length l1 + m)%nat); [lia|by rewrite lookup_app_l by lia|].
    rewrite lookup_app_r by lia. by replace (length l1 + m - length l1)%nat with m by lia.
  - apply (Hs (length l1 + n)%nat (length l1 + m)%nat); [lia|rewrite lookup_app_r by lia..].
    + by replace (length l1 + n - length l1)%nat with n by lia.
    + by replace (length l1 + m - length l1)%nat with m by lia.
Qed.

Lemma zlen_insert_at k e nr arr : 0 <= k <= nr -> nr < zlen arr ->
  zlen (insert_at k e nr arr) = zlen arr.
Proof.
  intros Hk Hn. unfold insert_at, zlen in *. rewrite length_app. cbn [length].
  unfold slice. rewrite length_app, !length_take, !length_drop. lia.
Qed.

Lemma slice_lookup_inv {A} (arr : list A) k n (i : nat) x : slice arr k n !! i = Some x ->
  (i < Z.to_nat n)%nat /\ arr !! (Z.to_nat k + i)%nat = Some x.
Proof.
  unfold slice. intros H. apply lookup_take_Some in H as [H1 H2]. rewrite lookup_drop in H1. done.
Qed.

Lemma insert_ok arr nr k e : rd_ok arr nr -> nr < zlen arr -> 0 <= k <= nr ->
  splits arr nr (xr_start e) k -> ~ present arr nr (xr_start e) ->
  rd_ok (insert_at k e nr arr) (nr + 1) /\
  rd_map (insert_at k e nr arr) (nr + 1) = <[xr_start e := e]> (rd_map arr nr).
Proof.
  intros Hok Hroom Hk Hsp Hmiss. pose proof Hok as [Hn Hsm Hs].
  destruct (live_insert arr nr k e Hk Hroom) as [Hl' Hl].
  assert (sorted (take (Z.to_nat k) arr ++ e :: slice arr k (nr - k))) as Hsort.
  { apply sorted_insert; [by rewrite <- Hl| |]; intros i x Hx.
    - apply lookup_take_Some in Hx as [Hx Hi]. apply (proj1 Hsp i); [lia|done].
    - apply slice_lookup_inv in Hx as [Hi Hx].
      pose proof (proj2 Hsp (Z.to_nat k + i)%nat x ltac:(lia) Hx).
      assert (xr_start x <> xr_start e); [|lia]. intros Heq. apply Hmiss. rewrite <- Heq.
      apply (present_at arr nr (Z.to_nat k + i)); [lia|done]. }
  split.
  - split; rewrite ?zlen_insert_at by lia; [lia|done|by rewrite Hl'].
  - unfold rd_map. rewrite Hl', Hl. set (f := fun x => (xr_start x, x)).
    rewrite fmap_app. cbn [fmap list_fmap].
    change (<[xr_start e := e]> (list_to_map (f <$> take (Z.to_nat k) arr ++ slice arr k (nr - k))))
      with (list_to_map (M := gmap Z ex_region) (f e :: (f <$> take (Z.to_nat k) arr ++ slice arr k (nr - k)))).
    apply list_to_map_proper.
    + apply (sorted_nodup _) in Hsort. rewrite fmap_app in Hsort. cbn [fmap list_fmap] in Hsort.
      rewrite fmap_app. cbn [fmap list_fmap]. rewrite <- !list_fmap_compose. exact Hsort.
    + rewrite fmap_app. symmetry. apply Permutation_middle.
Qed.

(** Adding is insertion into the map: a start already there is left alone, any
    other is bound to the new entry, and the array stays sorted. *)
Theorem add_ex_region_map arr nr e : rd_ok arr nr -> nr < zlen arr ->
  exists arr' n, add_ex_region arr nr e = Done (arr', n) /\ rd_ok arr' (nr + n) /\
    zlen arr' = zlen arr /\
    match rd_map arr nr !! xr_start e with
    | Some _ => n = 0 /\ arr' = arr
    | None => n = 1 /\ rd_map arr' (nr + n) = <[xr_start e := e]> (rd_map arr nr)
    end.
Proof.
  intros Hok Hroom. destruct (add_ex_region_spec arr nr e Hok Hroom) as (arr' & n & E & Hadd).
  exists arr', n. split; [done|].
  destruct Hadd as [(-> & -> & i & x & Hx & He)|(-> & Hmiss & k & Hk & Hsp & ->)].
  - rewrite Z.add_0_r. split; [done|]. split; [done|].
    assert (rd_map arr nr !! xr_start e = Some x) as -> by (apply rd_map_lookup; eauto). done.
  - destruct (insert_ok arr nr k e Hok Hroom Hk Hsp Hmiss) as [Hok' Hmap].
    split; [done|]. split; [by apply zlen_insert_at|].
    assert (rd_map arr nr !! xr_start e = None) as ->; [|done].
    apply eq_None_not_Some. intros [x Hx]. apply rd_map_lookup in Hx as (i & Hi & Hs); [|done].
    apply Hmiss. exists i, x. done.
Qed.

(** *** The operations on the driver's state *)

Definition world_map (w : world) : gmap Z ex_region :=
  match w_rd w with None => ∅ | Some rd => rd_map (rd_entries rd) (rd_nr rd) end.

Lemma splice_0 {A} (m bs : list A) : splice m 0 bs = bs ++ drop (length bs) m.
Proof. done. Qed.

Lemma rd_copy_spec old nr size : 0 <= nr <= zlen old -> nr <= size ->
  exists arr, rd_copy (rd_alloc size) old nr = Done arr /\ zlen arr = size /\
    live arr nr = live old nr /\ spare_zero arr nr.
Proof.
  intros Hn Hs. unfold rd_copy, rd_alloc.
  assert (zlen (replicate (Z.to_nat size) zero_region) = size) as Hz
    by (unfold zlen; rewrite length_replicate; lia).
  rewrite Hz. destruct (Z.leb_spec nr size), (Z.leb_spec nr (zlen old)); try lia. cbn [andb].
  assert (length (slice old 0 nr) = Z.to_nat nr) as Hl
    by (unfold slice; rewrite length_take, length_drop; zlia).
  eexists. split; [done|]. split; [|split].
  - rewrite zlen_splice; [done|lia|]. unfold zlen at 1. rewrite Hl, Hz. lia.
  - unfold live. rewrite splice_0, take_app_length' by lia. done.
  - intros i x Hi Hx. rewrite splice_0 in Hx.
    rewrite lookup_app_r in Hx by lia. rewrite lookup_drop in Hx.
    by apply lookup_replicate in Hx as [-> _].
Qed.

Lemma rd_ok_live arr arr' nr : rd_ok arr nr -> live arr' nr = live arr nr -> nr <= zlen arr' ->
  zlen arr' < 2 ^ 31 -> rd_ok arr' nr /\ rd_map arr' nr = rd_map arr nr.
Proof.
  intros [Hn Hsm Hs] Hl Hn' Hsm'. split; [split; [lia|done|by rewrite Hl]|]. unfold rd_map. by rewrite Hl.
Qed.

Lemma insert_spare arr nr k e : 0 <= k <= nr -> nr < zlen arr -> spare_zero arr nr ->
  spare_zero (insert_at k e nr arr) (nr + 1).
Proof.
  intros Hk Hn Hsp i x Hi Hx. apply (Hsp i x); [lia|]. rewrite <- Hx. unfold insert_at.
  rewrite app_comm_cons, app_assoc. rewrite lookup_app_r.
  - rewrite lookup_drop. f_equal. rewrite length_app. cbn [length]. unfold slice.
    rewrite !length_take, length_drop. zlia.
  - rewrite length_app. cbn [length]. unfold slice. rewrite !length_take, length_drop. zlia.
Qed.

(** The table a new one is built from, and its size. *)
Definition table_of (w : world) : list ex_region * Z :=
  match w_rd w with None => ([], 0) | Some rd => (rd_entries rd, rd_nr rd) end.
Definition grown (w : world) : Z :=
  match w_rd w with
  | None => QUADD_EXTABS_SIZE
  | Some rd => if rd_size rd <=? rd_nr rd then rd_size rd + Z.shiftr (rd_size rd) 1 else rd_size rd
  end.

(** A table that is not a full one of a single entry grows by what is needed. *)
Definition table_grows (w : world) : Prop :=
  match w_rd w with
  | None => True
  | Some rd => rd_ok (rd_entries rd) (rd_nr rd) /\ rd_size rd < 2 ^ 30 /\
      0 < rd_size rd /\ (rd_nr rd < rd_size rd \/ 2 <= rd_size rd)
  end.

Lemma set_extab_table w : table_grows w ->
  exists arr, rd_ok arr (table_of w).2 /\ (table_of w).2 < zlen arr /\
    spare_zero arr (table_of w).2 /\ rd_map arr (table_of w).2 = world_map w /\
    forall alloc s m a, w_areas w !! m = Some a -> a_extabs a = true ->
      quadd_unwind_set_extab true alloc s m w =
        ('(arr', n) ← add_ex_region arr (table_of w).2 (new_entry s m);
         if n =? 0 then mret (0, w)
         else if negb alloc then mret (- ENOMEM, w)
         else mret (0, set_area m (set_entries (a_entries a ++ [new_entry s m]) a)
                         (set_rd (Some (Regions arr' ((table_of w).2 + n))) w))).
Proof.
  intros Hg. unfold table_grows, table_of, world_map, quadd_unwind_set_extab in *.
  destruct (w_rd w) as [[old nr]|] eqn:Erd; cbn [rd_entries rd_nr fst snd] in *.
  - destruct Hg as (Hok & Hb & H0 & Hroom). unfold rd_size in *. cbn [rd_entries rd_nr] in *.
    pose proof (ro_nr _ _ Hok) as Hn.
    set (size := if zlen old <=? nr then u64 (zlen old + Z.shiftr (zlen old) 1) else zlen old).
    assert (nr < size < 2 ^ 31) as Hsize.
    { unfold size. destruct (Z.leb_spec (zlen old) nr); [|lia].
      rewrite Z.shiftr_div_pow2 by lia. change (2 ^ 1) with 2. rewrite u64_small by dlia. dlia. }
    destruct (rd_copy_spec old nr size Hn ltac:(lia)) as (arr & E & Hz & Hl & Hsp).
    destruct (rd_ok_live old arr nr Hok Hl ltac:(lia) ltac:(lia)) as [Hok' Hmap].
    destruct (Z.eqb_spec nr 0) as [->|].
    + exists (rd_alloc size).
      assert (zlen (rd_alloc size) = size) as Ha by (unfold rd_alloc, zlen; rewrite length_replicate; lia).
      destruct (rd_ok_live old (rd_alloc size) 0 Hok eq_refl ltac:(lia) ltac:(lia)) as [Hok'' Hmap'].
      split; [done|]. split; [lia|]. split.
      { intros i x _ Hx. by apply lookup_replicate in Hx as [-> _]. }
      split; [done|]. intros alloc s m a Hm He. rewrite Hm, He. fold size. done.
    + exists arr. split; [done|]. split; [lia|]. split; [done|]. split; [done|].
      intros alloc s m a Hm He. rewrite Hm, He. cbn [negb]. fold size. rewrite E. done.
  - exists (rd_alloc QUADD_EXTABS_SIZE). split.
    { split; [vm_compute; split; congruence|done|]. intros i j a b Hij Ha.
      apply live_lookup_Some in Ha as [_ Ha]. lia. }
    split; [done|]. split; [intros i x _ Hx; by apply lookup_replicate in Hx as [-> _]|].
    split; [done|]. intros alloc s m a Hm He. by rewrite Hm, He.
Qed.

(** C25. Handing over the sections of a mapping binds its start to a new entry in the table and
    adds the entry to its area, and the table stays sorted; a start already bound is reported
    as success and changes nothing, and so do an area of another type (-EIO) and a lack of
    memory (-ENOMEM). It is so for every sorted table of less than 2^30 slots but a full one
    of a single entry, which does not grow (eh_unwind.c:523). *)
Theorem quadd_unwind_set_extab_map alloc_rd alloc_entry s m w a : table_grows w -> w_areas w !! m = Some a ->
  exists r w', quadd_unwind_set_extab alloc_rd alloc_entry s m w = Done (r, w') /\
    if negb (a_extabs a) then r = - EIO /\ w' = w
    else if negb alloc_rd then r = - ENOMEM /\ w' = w
    else match world_map w !! qs_start s with
    | Some _ => r = 0 /\ w' = w
    | None =>
        if negb alloc_entry then r = - ENOMEM /\ w' = w
        else r = 0 /\ world_map w' = <[qs_start s := new_entry s m]> (world_map w) /\
          w_areas w' = <[m := set_entries (a_entries a ++ [new_entry s m]) a]> (w_areas w) /\
          exists arr nr, w_rd w' = Some (Regions arr nr) /\ rd_ok arr nr /\ spare_zero arr nr
    end.
Proof.
  intros Hg Hm. destruct (a_extabs a) eqn:He; cbn [negb].
  2:{ exists (- EIO), w. unfold quadd_unwind_set_extab. by rewrite Hm, He. }
  destruct alloc_rd; cbn [negb].
  2:{ exists (- ENOMEM), w. unfold quadd_unwind_set_extab. rewrite Hm, He. by destruct (match w_rd w with None => _ | Some _ => _ end). }
  destruct (set_extab_table w Hg) as (arr & Hok & Hroom & Hsp & Hmap & Eq).
  rewrite (Eq alloc_entry s m a Hm He). set (nr := (table_of w).2) in *. rewrite <- Hmap.
  destruct (add_ex_region_spec arr nr (new_entry s m) Hok Hroom) as (arr' & n & E & Hadd).
  rewrite E. cbn [mbind outcome_bind]. change (qs_start s) with (xr_start (new_entry s m)).
  destruct Hadd as [(-> & -> & i & x & Hx & Hxs)|(-> & Hmiss & k & Hk & Hs & ->)].
  - exists 0, w. split; [done|].
    assert (rd_map arr nr !! xr_start (new_entry s m) = Some x) as -> by (apply rd_map_lookup; eauto).
    done.
  - destruct (insert_ok arr nr k (new_entry s m) Hok Hroom Hk Hs Hmiss) as [Hok' Hmap'].
    assert (rd_map arr nr !! xr_start (new_entry s m) = None) as ->.
    { apply eq_None_not_Some. intros [x Hx]. apply rd_map_lookup in Hx as (i & Hi & Hxs); [|done].
      apply Hmiss. exists i, x. done. }
    destruct alloc_entry; cbn [negb Z.eqb]; [|by exists (- ENOMEM), w].
    eexists 0, _. split; [done|]. split; [done|]. split; [exact Hmap'|]. split; [done|]. eexists _, _. split; [done|]. split; [exact Hok'|].
    by apply insert_spare.
Qed.

Lemma rd_map_fun arr nr (i : nat) x : rd_ok arr nr -> Z.of_nat i < nr -> arr !! i = Some x ->
  rd_map arr nr !! xr_start x = Some x.
Proof. intros Hok Hi Hx. apply rd_map_lookup; [done|]. exists i. by rewrite live_lookup by lia. Qed.

(** Replacing an entry by one with the same start. *)
Lemma rd_update arr nr (i : nat) x y : rd_ok arr nr -> Z.of_nat i < nr -> arr !! i = Some x ->
  xr_start y = xr_start x ->
  rd_ok (<[i := y]> arr) nr /\ rd_map (<[i := y]> arr) nr = <[xr_start x := y]> (rd_map arr nr).
Proof.
  intros Hok Hi Hx Hy. pose proof Hok as [Hn Hsm Hs].
  assert (forall (j : nat) a, live (<[i := y]> arr) nr !! j = Some a ->
    exists b, live arr nr !! j = Some b /\ xr_start b = xr_start a /\ (j <> i -> a = b) /\ (j = i -> a = y)) as Hc.
  { intros j a Ha. apply live_lookup_Some in Ha as [Ha Hj]. specialize (Hj ltac:(lia)).
    destruct (decide (i = j)) as [<-|Hne].
    - rewrite list_lookup_insert_eq in Ha by (by eapply lookup_lt_Some). injection Ha as <-.
      exists x. rewrite live_lookup by lia. repeat split; done.
    - rewrite list_lookup_insert_ne in Ha by done. exists a. rewrite live_lookup by lia.
      repeat split; done. }
  assert (rd_ok (<[i := y]> arr) nr) as Hok'.
  { split; [unfold zlen in *; rewrite length_insert; lia|unfold zlen in *; rewrite length_insert; lia|].
    intros j k a b Hjk Ha Hb. destruct (Hc j a Ha) as (a' & Ha' & <- & _).
    destruct (Hc k b Hb) as (b' & Hb' & <- & _). by apply (Hs j k). }
  split; [done|]. apply map_eq. intros key. apply option_eq. intros v.
  rewrite rd_map_lookup by done. destruct (decide (xr_start x = key)) as [<-|Hne].
  - rewrite lookup_insert_eq. split.
    + intros (j & Hj & Hv). destruct (Hc j v Hj) as (b & Hb & Hbv & Hne & Heq). f_equal.
      destruct (decide (j = i)) as [->|Hji]; [symmetry; by apply Heq|].
      exfalso. assert (live arr nr !! i = Some x) as Hxi by (by rewrite live_lookup by lia).
      destruct (Nat.lt_total i j) as [Hlt|[->|Hlt]]; [|done|].
      * pose proof (Hs i j x b Hlt Hxi Hb). lia.
      * pose proof (Hs j i b x Hlt Hb Hxi). lia.
    + intros [= <-]. exists i. split; [|done]. rewrite live_lookup by lia.
      apply list_lookup_insert_eq. by eapply lookup_lt_Some.
  - rewrite lookup_insert_ne by done. rewrite rd_map_lookup by done. split.
    + intros (j & Hj & Hv). destruct (Hc j v Hj) as (b & Hb & Hbv & Hvb & Heq).
      exists j. destruct (decide (j = i)) as [->|Hji].
      * rewrite (Heq eq_refl) in Hv. congruence.
      * pose proof (Hvb Hji). by subst v.
    + intros (j & Hj & Hv). exists j. split; [|done]. apply live_lookup_Some in Hj as [Hj Hjn].
      specialize (Hjn ltac:(lia)). rewrite live_lookup by lia.
      rewrite list_lookup_insert_ne; [done|]. intros ->. congruence.
Qed.

(** The tail information is stored with the entry of the mapping, and nothing
    else changes. *)
Theorem quadd_unwind_set_tail_info_map arr nr start secid tf_start tf_end w :
  w_rd w = Some (Regions arr nr) -> rd_ok arr nr -> nr < zlen arr -> start <> 0 ->
  exists w', quadd_unwind_set_tail_info true start secid tf_start tf_end w = Done w' /\
    world_map w' = alter (upd_tail secid tf_start tf_end) start (world_map w) /\
    w_areas w' = w_areas w.
Proof.
  intros Hw Hok Hroom Hst. pose proof (ro_nr _ _ Hok) as Hn. pose proof (ro_small _ _ Hok).
  unfold quadd_unwind_set_tail_info, world_map. rewrite Hw. cbn [rd_nr rd_entries].
  destruct (Z.eqb_spec nr 0) as [->|].
  { exists w. rewrite Hw. cbn [rd_nr rd_entries]. split; [done|]. split; [|done].
    apply map_eq. intros k. change (rd_map arr 0) with (∅ : gmap Z ex_region).
    rewrite lookup_alter, !lookup_empty. by case_decide. }
  cbn [negb]. unfold rd_size. cbn [rd_entries].
  destruct (rd_copy_spec arr nr (zlen arr) Hn ltac:(lia)) as (arr' & -> & Hz & Hl & Hsp).
  destruct (rd_ok_live arr arr' nr Hok Hl ltac:(lia) ltac:(lia)) as [Hok' Hmap].
  cbn [mbind outcome_bind]. rewrite <- Hmap.
  assert (rd_room arr' nr) as Hr' by (split; [done|lia|done]).
  destruct (search_index arr' nr start Hr' Hst) as ([i|] & -> & Hspec); cbn [mbind outcome_bind].
  - destruct Hspec as (Hi & x & Hx & Hxs). unfold rd_get, rd_set. rewrite Hx. cbn [mbind outcome_bind].
    destruct (Z.ltb_spec i (zlen arr')); [|lia]. cbn [mbind outcome_bind mret outcome_ret].
    eexists. split; [done|]. cbn [w_rd set_rd rd_entries rd_nr w_areas]. split; [|done].
    destruct (rd_update arr' nr (Z.to_nat i) x (upd_tail secid tf_start tf_end x) Hok' ltac:(lia) Hx eq_refl)
      as [_ ->]. rewrite Hxs.
    assert (rd_map arr' nr !! start = Some x) as Hlk
      by (rewrite <- Hxs; apply (rd_map_fun arr' nr (Z.to_nat i)); [done|lia|done]).
    apply map_eq. intros k. destruct (decide (start = k)) as [<-|Hne].
    + by rewrite lookup_insert_eq, lookup_alter_eq, Hlk.
    + by rewrite lookup_insert_ne, lookup_alter_ne by done.
  - exists w. rewrite Hw. cbn [rd_nr rd_entries]. split; [done|]. split; [|done].
    apply map_eq. intros k. rewrite Hmap. rewrite lookup_alter. case_decide as Hk; [|done]. subst k.
    rewrite <- Hmap. destruct (rd_map arr' nr !! start) as [x|] eqn:E; [|done].
    apply rd_map_lookup in E as (j & Hj & Hxs); [|done].
    apply live_lookup_Some in Hj as [Hj Hjn]. exfalso. apply (Hspec j x); [apply Hjn; lia|done..].
Qed.

(** *** References *)

(** A reference is only given out on an active area, and giving it back undoes
    that. *)
Lemma get_region_inv usable key w x w' : get_region usable key w = Done (inr x, w') ->
  search_ex_region key w = Done (Some x) /\ usable x = true /\
  exists a, w_areas w !! xr_mmap x = Some a /\ a_state a = ACTIVE /\
    w' = set_area (xr_mmap x) (set_state_ref ACTIVE (a_ref a + 1) a) w.
Proof.
  unfold get_region. destruct (search_ex_region key w) as [[y|]|e| |]; cbn; intros E; try discriminate E.
  unfold get_area in E. destruct (w_areas w !! xr_mmap y) as [a|] eqn:Ea; [|discriminate E].
  destruct (bool_decide (a_state a = ACTIVE)) eqn:Eact; [|discriminate E].
  destruct (usable y) eqn:Eu; [|discriminate E]. injection E as <- <-.
  apply bool_decide_eq_true in Eact. split; [done|]. split; [done|]. exists a. by rewrite Eact.
Qed.

Lemma get_put usable key w x w' : get_region usable key w = Done (inr x, w') ->
  quadd_put_dw_frames x w' = Done w.
Proof.
  intros E. apply get_region_inv in E as (_ & _ & a & Ha & Hst & ->).
  unfold quadd_put_dw_frames, set_area. cbn [w_areas w_rd]. rewrite lookup_insert_eq.
  cbn [set_state_ref a_ref a_state]. rewrite (bool_decide_eq_false_2 (ACTIVE = CLOSING)) by done.
  rewrite andb_false_r. cbn [mret outcome_ret]. f_equal. unfold set_state_ref. cbn.
  rewrite insert_insert_eq, insert_id; [by destruct w|]. rewrite Ha. f_equal. destruct a; cbn in *.
  subst. f_equal. lia.
Qed.

(** Two worlds whose areas agree. *)
Definition same_areas (w w' : world) : Prop := w_areas w' = w_areas w.
#[export] Instance same_areas_equiv : Equivalence same_areas.
Proof.
  split; unfold same_areas; [by intros w|by intros w w' E|intros w1 w2 w3 E1 E2; by rewrite E2].
Qed.

Lemma put_same x w1 w2 w : same_areas w1 w2 -> quadd_put_dw_frames x w1 = Done w ->
  exists w', quadd_put_dw_frames x w2 = Done w' /\ same_areas w w'.
Proof.
  unfold same_areas, quadd_put_dw_frames. intros Hs. rewrite Hs. destruct (w_areas w1 !! _); [|done].
  intros E. inv_done. eexists. split; [done|]. cbn. by rewrite Hs.
Qed.

Lemma put_prev_same prev w1 w2 w : same_areas w1 w2 -> put_prev prev w1 = Done w ->
  exists w', put_prev prev w2 = Done w' /\ same_areas w w'.
Proof.
  destruct prev as [x|]; cbn [put_prev]; [apply put_same|]. intros Hs E. inv_done. eauto.
Qed.

Lemma get_put_same usable key w x w' : get_region usable key w = Done (inr x, w') ->
  exists w'', quadd_put_dw_frames x w' = Done w'' /\ same_areas w w''.
Proof. intros E. exists w. by split; [eapply get_put|]. Qed.

Lemma get_none_same usable key w e w' : get_region usable key w = Done (inl e, w') -> w' = w.
Proof.
  unfold get_region, get_area. intros E. inv_bind E. destruct x as [x|]; [|by inv_done].
  destruct (w_areas w !! _); [|done]. destruct (_ && _); by inv_done.
Qed.

(** A walk that holds a reference on [prev]: but for it, the areas are those of [w0]. *)
Definition holding (w0 : world) (prev : option ex_region) (w : world) : Prop :=
  exists w', put_prev prev w = Done w' /\ same_areas w0 w'.

Lemma holding_same w0 prev w w' : holding w0 prev w -> same_areas w w' -> holding w0 prev w'.
Proof.
  intros (w1 & E & Hs) Hw. destruct (put_prev_same _ _ _ _ Hw E) as (w2 & E' & Hs').
  exists w2. split; [done|]. by etrans.
Qed.

(** Giving back the old reference and asking for another one. *)
Lemma holding_switch usable w0 prev w key w1 g w2 : holding w0 prev w -> put_prev prev w = Done w1 ->
  get_region usable key w1 = Done (g, w2) ->
  holding w0 (match g with inl _ => None | inr x => Some x end) w2.
Proof.
  intros (w' & E & Hs) E1 Eg. rewrite E in E1. injection E1 as ->. destruct g as [e|x].
  - apply get_none_same in Eg as ->. by exists w1.
  - destruct (get_put_same _ _ _ _ _ Eg) as (w3 & E3 & Hs3). exists w3. split; [done|]. by etrans.
Qed.

(** *** Loaded tables

    The table has room, and every entry's area is active and holds its sections. *)

Definition region_in (w : world) (x : ex_region) : Prop :=
  exists a, w_areas w !! xr_mmap x = Some a /\ a_state a = ACTIVE /\ region_ok (region_of x a).
Definition loaded (w : world) : Prop :=
  match w_rd w with
  | None => True
  | Some rd => rd_room (rd_entries rd) (rd_nr rd) /\
      forall (i : nat) x, Z.of_nat i < rd_nr rd -> rd_entries rd !! i = Some x -> region_in w x
  end.

(** The active areas differ in their reference counts only. *)
Definition refs_only (w w' : world) : Prop :=
  w_rd w' = w_rd w /\
  forall m a, w_areas w !! m = Some a -> a_state a = ACTIVE ->
    exists n, w_areas w' !! m = Some (set_state_ref ACTIVE n a).

Lemma refs_region w w' x : refs_only w w' -> region_in w x -> region_in w' x.
Proof.
  intros [_ Hr] (a & Ha & Hst & Hok). destruct (Hr _ _ Ha Hst) as [n Hn]. eexists. split; [done|].
  split; [done|]. unfold region_of in *. cbn. by rewrite Hst in Hok.
Qed.
Lemma refs_loaded w w' : refs_only w w' -> loaded w -> loaded w'.
Proof.
  intros Hr Hl. unfold loaded in *. rewrite (proj1 Hr). destruct (w_rd w) as [rd|]; [|done].
  destruct Hl as [Hroom Hx]. split; [done|]. intros i x Hi E. eapply refs_region; [done|by eapply Hx].
Qed.
Lemma refs_only_refl w : refs_only w w.
Proof. split; [done|]. intros m a Ha Hst. exists (a_ref a). by rewrite Ha, <- Hst; destruct a. Qed.
Lemma refs_only_trans w1 w2 w3 : refs_only w1 w2 -> refs_only w2 w3 -> refs_only w1 w3.
Proof.
  intros [E1 H1] [E2 H2]. split; [congruence|]. intros m a Ha Hst.
  destruct (H1 _ _ Ha Hst) as [n Hn]. destruct (H2 _ _ Hn eq_refl) as [n' Hn']. by exists n'.
Qed.

Lemma set_ref_refs w m a n : w_areas w !! m = Some a -> a_state a = ACTIVE ->
  refs_only w (set_area m (set_state_ref ACTIVE n a) w).
Proof.
  intros Ha Hst. split; [done|]. intros m' a' Ha' Hst'. cbn [w_areas set_area].
  destruct (decide (m = m')) as [<-|Hne].
  - rewrite lookup_insert_eq. assert (a = a') as <- by congruence. by exists n.
  - rewrite lookup_insert_ne by done. exists (a_ref a'). by rewrite Ha', <- Hst'; destruct a'.
Qed.

Lemma put_total w x : region_in w x ->
  exists w', quadd_put_dw_frames x w = Done w' /\ refs_only w w'.
Proof.
  intros (a & Ha & Hst & _). unfold quadd_put_dw_frames. rewrite Ha, Hst.
  rewrite (bool_decide_eq_false_2 (ACTIVE = CLOSING)), andb_false_r by done.
  eexists. split; [done|]. by apply set_ref_refs.
Qed.

Lemma get_total usable w key : loaded w -> key <> 0 ->
  exists g w', get_region usable key w = Done (g, w') /\ refs_only w w' /\
    forall x, g = inr x -> region_in w' x.
Proof.
  intros Hl Hkey. unfold get_region, search_ex_region. unfold loaded in Hl.
  destruct (w_rd w) as [rd|] eqn:Erd.
  2: { eexists _, w. split; [done|]. split; [apply refs_only_refl|done]. }
  destruct Hl as [Hroom Hx].
  destruct (search_index _ _ key Hroom Hkey) as ([i|] & E & Hi); rewrite E; cbn [mbind outcome_bind mret outcome_ret].
  2: { eexists _, w. split; [done|]. split; [apply refs_only_refl|done]. }
  destruct Hi as (Hi & x & Ex & _). unfold rd_get. rewrite Ex. cbn [mbind outcome_bind mret outcome_ret].
  pose proof (Hx (Z.to_nat i) x ltac:(lia) Ex) as Hin. pose proof Hin as (a & Ha & Hst & Hok).
  unfold get_area. rewrite Ha, Hst. rewrite (bool_decide_eq_true_2 (ACTIVE = ACTIVE)) by done.
  destruct (usable x); cbn [andb].
  - eexists _, _. split; [done|]. pose proof (set_ref_refs w _ a (a_ref a + 1) Ha Hst) as Hr.
    split; [done|]. intros y [= <-]. by apply (refs_region w).
  - eexists _, w. split; [done|]. split; [apply refs_only_refl|done].
Qed.

(** *** Deleting *)

(** Removing an entry from a full table of at least two moves one slot too many. *)
Lemma remove_reads_past_end arr nr e : rd_ok arr nr -> nr = zlen arr -> 2 <= nr ->
  present arr nr (xr_start e) -> remove_ex_region arr nr e = Fault.
Proof.
  intros Hok Hfull Hnr (i & x & Hx & Hxe). apply live_lookup_Some in Hx as [Hx Hi].
  specialize (Hi ltac:(lia)). unfold remove_ex_region. destruct (Z.eqb_spec nr 0); [lia|].
  destruct (rd_get_ok arr 0 ltac:(lia)) as (x0 & -> & H0). cbn [mbind outcome_bind].
  destruct (Z.eqb_spec nr 1); [lia|].
  pose proof (live_order arr nr 0 i x0 x Hok ltac:(lia) Hi H0 Hx).
  destruct (Z.ltb_spec (xr_start e) (xr_start x0)); [lia|].
  destruct (rd_get_ok arr (nr - 1) ltac:(lia)) as (x1 & -> & Hlast). cbn [mbind outcome_bind].
  pose proof (live_order arr nr i (Z.to_nat (nr - 1)) x x1 Hok ltac:(lia) ltac:(lia) Hx Hlast).
  destruct (Z.ltb_spec (xr_start x1) (xr_start e)); [lia|].
  destruct (bound_ok arr nr (xr_start e) Hok) as (k & -> & Hk & Hlo & Hhi). cbn [mbind outcome_bind].
  assert (k <= Z.of_nat i) by (destruct (Z.lt_ge_cases (Z.of_nat i) k); [pose proof (Hlo i x ltac:(lia) Hx); lia|lia]).
  destruct (rd_get_ok arr k ltac:(lia)) as (y & -> & Hy). cbn [mbind outcome_bind].
  pose proof (Hhi (Z.to_nat k) y ltac:(lia) Hy).
  pose proof (live_order arr nr (Z.to_nat k) i y x Hok ltac:(lia) Hi Hy Hx).
  destruct (Z.eqb_spec (xr_start y) (xr_start e)); [|lia].
  unfold memmove. destruct (Z.leb_spec (k + 1 + (nr - k)) (zlen arr)); [lia|]. by rewrite andb_false_r.
Qed.

(** Deleting an area reads beyond the table. The new table has room for the
    live entries only, and removing one of at least two moves one slot too many. *)
Theorem delete_mmap_reads_past_end arr nr m a e l w : w_rd w = Some (Regions arr nr) ->
  rd_ok arr nr -> 2 <= nr -> w_areas w !! m = Some a -> a_entries a = e :: l ->
  present arr nr (xr_start e) -> __quadd_unwind_delete_mmap true m w = Fault.
Proof.
  intros Hw Hok Hnr Hm He Hp. pose proof (ro_nr _ _ Hok) as Hn. pose proof (ro_small _ _ Hok).
  unfold __quadd_unwind_delete_mmap. rewrite Hm, Hw. cbn [rd_nr rd_entries].
  destruct (Z.eqb_spec nr 0); [lia|]. cbn [negb]. unfold rd_size. cbn [rd_entries].
  rewrite Z.min_r by lia.
  destruct (rd_copy_spec arr nr nr Hn ltac:(lia)) as (arr' & -> & Hz & Hl & _). cbn [mbind outcome_bind].
  destruct (rd_ok_live arr arr' nr Hok Hl ltac:(lia) ltac:(lia)) as [Hok' _].
  unfold clean_mmap. rewrite He. cbn [clean_loop rd_entries rd_nr].
  rewrite remove_reads_past_end; [done|done|lia|lia|]. unfold present. by rewrite Hl.
Qed.

(** ** Examples *)

Definition example_sections (start : Z) : quadd_sections :=
  Sections start (start + 0x1000)
    (fun i => if i =? QUADD_SEC_TYPE_EH_FRAME then (start + 0x800, 64, 0)
              else if i =? QUADD_SEC_TYPE_EH_FRAME_HDR then (start + 0x900, 32, 64) else (0, 0, 0)).
Definition example_area : area := Area true example_base (replicate 96 0) ACTIVE 0 [].
(** Two areas, the driver started. *)
Definition example_world : world :=
  (quadd_unwind_start true 0 (World None {[1 := example_area; 2 := example_area]})).2.
(** The world after an operation that succeeds. *)
Definition after (o : outcome (Z * world)) : world :=
  match o with Done (_, w) => w | _ => World None ∅ end.
Definition example_one : world :=
  after (quadd_unwind_set_extab true true (example_sections 0x400000) 1 example_world).
Definition example_two : world :=
  after (quadd_unwind_set_extab true true (example_sections 0x600000) 2 example_one).

(** Closing an area without sections shrinks a table of one entry to one slot;
    half of one is nothing, and the next entry is written beyond the new table. *)
Lemma set_extab_overflows :
  match __quadd_unwind_delete_mmap true 2 example_one with
  | Done w => quadd_unwind_set_extab true true (example_sections 0x600000) 2 w
  | _ => Done (0, example_one)
  end = Fault.
Proof. by vm_compute. Qed.

(** Lookups in the table of [example_two]. *)
Definition example_arr : list ex_region :=
  match w_rd example_two with Some rd => rd_entries rd | None => [] end.

Lemma sorted_two a b : xr_start a < xr_start b -> sorted [a; b].
Proof.
  intros H [|[|i]] [|[|j]] x y Hij Hx Hy; cbn in *; simplify_eq; try lia.
Qed.

Lemma example_arr_room : rd_room example_arr 2.
Proof.
  split; [split| |].
  - by vm_compute.
  - by vm_compute.
  - apply sorted_two. by vm_compute.
  - by vm_compute.
  - intros i x Hi Hx. destruct i as [|[|i]]; [lia|lia|].
    change (drop 2 example_arr !! i = Some x) in Hx.
    assert (drop 2 example_arr = replicate 254 zero_region) as E by reflexivity.
    rewrite E in Hx. by apply lookup_replicate in Hx as [-> _].
Qed.

Lemma search_ex_region_map_witness :
  search_ex_region 0x600000 example_two = Done (rd_map example_arr 2 !! 0x600000).
Proof. apply search_ex_region_map; [reflexivity|exact example_arr_room|lia]. Defined.

Lemma add_ex_region_map_witness :
  exists arr' n, add_ex_region example_arr 2 zero_region = Done (arr', n) /\ rd_ok arr' (2 + n) /\
    zlen arr' = zlen example_arr /\
    match rd_map example_arr 2 !! 0 with
    | Some _ => n = 0 /\ arr' = example_arr
    | None => n = 1 /\ rd_map arr' (2 + n) = <[0 := zero_region]> (rd_map example_arr 2)
    end.
Proof. apply (add_ex_region_map example_arr 2 zero_region); [apply example_arr_room|by vm_compute]. Defined.

Lemma quadd_unwind_set_extab_map_witness :
  exists w', quadd_unwind_set_extab true true (example_sections 0x500000) 1 example_two = Done (0, w') /\
    world_map w' = <[0x500000 := new_entry (example_sections 0x500000) 1]> (world_map example_two).
Proof.
  destruct (quadd_unwind_set_extab_map true true (example_sections 0x500000) 1 example_two
              (set_entries [new_entry (example_sections 0x400000) 1] example_area))
    as (r & w' & E & H); [|reflexivity|].
  - split; [apply example_arr_room|]. by vm_compute; auto.
  - assert (world_map example_two !! qs_start (example_sections 0x500000) = None) as Hn by (vm_compute; reflexivity).
    rewrite Hn in H. cbn [a_extabs set_entries example_area negb] in H. destruct H as (-> & Hw & _). exists w'. split; [exact E|exact Hw].
Defined.

Lemma quadd_unwind_set_tail_info_map_witness :
  exists w', quadd_unwind_set_tail_info true 0x600000 2 0x600100 0x600140 example_two = Done w' /\
    world_map w' = alter (upd_tail 2 0x600100 0x600140) 0x600000 (world_map example_two) /\
    w_areas w' = w_areas example_two.
Proof.
  apply (quadd_unwind_set_tail_info_map example_arr 2);
    [reflexivity|exact (rr_ok _ _ example_arr_room)|by vm_compute|done].
Defined.

Lemma delete_mmap_reads_past_end_witness : __quadd_unwind_delete_mmap true 1 example_two = Fault.
Proof.
  apply (delete_mmap_reads_past_end example_arr 2 1
           (set_entries [new_entry (example_sections 0x400000) 1] example_area)
           (new_entry (example_sections 0x400000) 1) []); try reflexivity; [exact (rr_ok _ _ example_arr_room)|].
  exists 0%nat, (new_entry (example_sections 0x400000) 1). by vm_compute.
Defined.
