(* ===== verification/Callchain.v ===== *)
(** * Call chains and user memory (tegra-profiler/backtrace.h and backtrace.c, 33-113)

    What the unwinders share: the record of a call chain, which holds at most 64
    addresses, and the checks and reads of user memory. The kernel's view of the
    process is a parameter. The driver is built for arm64. *)

From S2P Require Import Prelude DwarfRead.

(** ** The process

    The mappings, by [find_vma]; reads of user memory, which may fault; the size
    of the address space; whether the task has an mm. *)
Record vm_area := Vma { vma_start : Z; vma_end : Z }.

Class Process := {
  find_vma : Z -> option vm_area;
  copy_from_user : Z -> nat -> option Z;
  TASK_SIZE : Z;
  task_mm : bool;
}.

Definition QUADD_MAX_STACK_DEPTH : Z := 64.
Definition QUADD_URC_NONE : Z := 15.
Definition QUADD_URC_FP_INCORRECT : Z := 14.

Definition QUADD_UNW_TYPE_FP : Z := 0.
Definition QUADD_UNW_TYPE_UT : Z := 1.
Definition QUADD_UNW_TYPE_KCTX : Z := 4.
Definition QUADD_UNW_TYPE_DWARF_EH : Z := 5.
Definition QUADD_UNW_TYPE_DWARF_DF : Z := 6.

(** ** struct quadd_callchain

    [ips] is the array in use, ip_64 or ip_32, of 64 entries; [types] its 8 words of
    4-bit fields; [low_addr] that of the timer context. *)
Record unw_methods := Methods { um_fp : bool; um_ut : bool; um_ut_ce : bool; um_dwarf : bool }.

Record callchain := Callchain {
  nr : Z; ips : list Z; types : list Z; cs_64 : bool; um : unw_methods;
  urc_fp : Z; urc_ut : Z; urc_dwarf : Z;
  curr_sp : Z; curr_fp : Z; curr_fp_thumb : Z; curr_pc : Z; curr_lr : Z;
  low_addr : Z;
}.

Definition set_urc_fp (u : Z) (cc : callchain) : callchain :=
  Callchain (nr cc) (ips cc) (types cc) (cs_64 cc) (um cc) u (urc_ut cc) (urc_dwarf cc)
    (curr_sp cc) (curr_fp cc) (curr_fp_thumb cc) (curr_pc cc) (curr_lr cc) (low_addr cc).
Definition set_urc_ut (u : Z) (cc : callchain) : callchain :=
  Callchain (nr cc) (ips cc) (types cc) (cs_64 cc) (um cc) (urc_fp cc) u (urc_dwarf cc)
    (curr_sp cc) (curr_fp cc) (curr_fp_thumb cc) (curr_pc cc) (curr_lr cc) (low_addr cc).
Definition set_urc_dwarf (u : Z) (cc : callchain) : callchain :=
  Callchain (nr cc) (ips cc) (types cc) (cs_64 cc) (um cc) (urc_fp cc) (urc_ut cc) u
    (curr_sp cc) (curr_fp cc) (curr_fp_thumb cc) (curr_pc cc) (curr_lr cc) (low_addr cc).
Definition set_curr (sp fp fp_thumb pc lr : Z) (cc : callchain) : callchain :=
  Callchain (nr cc) (ips cc) (types cc) (cs_64 cc) (um cc) (urc_fp cc) (urc_ut cc) (urc_dwarf cc)
    sp fp fp_thumb pc lr (low_addr cc).
Definition set_chain (n : Z) (l t : list Z) (cc : callchain) : callchain :=
  Callchain n l t (cs_64 cc) (um cc) (urc_fp cc) (urc_ut cc) (urc_dwarf cc)
    (curr_sp cc) (curr_fp cc) (curr_fp_thumb cc) (curr_pc cc) (curr_lr cc) (low_addr cc).

(** ** The registers of the sampled task

    struct pt_regs on arm64; a 32-bit task has its registers in the first sixteen. *)
Record pt_regs := PtRegs {
  r_x : list Z; r_sp : Z; r_pc : Z; r_compat : bool; r_thumb : bool }.
(** compat_usr(x), regs->regs[x] *)
Definition r_reg (r : pt_regs) (i : nat) : Z := r_x r !!! i.
(** struct quadd_event_context: no registers is a null pointer. *)
Record event_context := Event { ev_regs : option pt_regs; ev_user_mode : bool; ev_is_sched : bool }.

Definition quadd_user_stack_pointer (r : pt_regs) : Z :=
  if r_compat r then r_reg r 13 else r_sp r.
Definition quadd_get_user_frame_pointer (r : pt_regs) : Z :=
  if r_compat r then (if r_thumb r then r_reg r 7 else r_reg r 11) else r_reg r 29.
Definition quadd_user_link_register (r : pt_regs) : Z :=
  if r_compat r then r_reg r 14 else r_reg r 30.
(** instruction_pointer, of the kernel *)
Definition instruction_pointer (r : pt_regs) : Z := r_pc r.

Section checks.
Context `{Process}.

Definition is_vma_addr (addr : Z) (vma : option vm_area) (nbytes : Z) : bool :=
  match vma with
  | None => false
  | Some v => (vma_start v <=? addr) && (addr <? u64 (vma_end v - nbytes))
  end.

Definition validate_pc_addr (addr nbytes : Z) : bool :=
  negb (addr =? 0) && (addr <? u64 (TASK_SIZE - nbytes)).

Definition validate_stack_addr (addr : Z) (vma : option vm_area) (nbytes : Z) : bool :=
  if negb (Z.land addr 0x03 =? 0) then false else is_vma_addr addr vma nbytes.

Definition read_user_data (src : Z) (n : nat) : outcome Z :=
  match copy_from_user src n with
  | Some v => Done v
  | None => Error (- QUADD_URC_EACCESS)
  end.

(** ** Storing an address *)

(** The 4-bit field [bt_idx]. *)
Definition put_unw_type (p : list Z) (bt_idx type : Z) : outcome (list Z) :=
  let word_idx := bt_idx / 8 in
  let shift := (bt_idx mod 8) * 4 in
  match p !! Z.to_nat word_idx with
  | None => Faulty Outside_chain
  | Some w =>
      let w := Z.land w (u32 (Z.lnot (Z.shiftl 0x0f shift))) in
      Done (<[Z.to_nat word_idx := Z.lor w (u32 (Z.shiftl (Z.land type 0x0f) shift))]> p)
  end.

(** The number of addresses added, and the chain. *)
Definition quadd_callchain_store (cc : callchain) (ip type : Z) : outcome (Z * callchain) :=
  if (ip <? low_addr cc) || negb (validate_pc_addr ip 8)
  then mret (0, set_urc_fp QUADD_URC_PC_INCORRECT cc)
  else if QUADD_MAX_STACK_DEPTH <=? nr cc then mret (0, set_urc_fp QUADD_URC_LEVEL_TOO_DEEP cc)
  else
    types ← put_unw_type (types cc) (nr cc) type;
    if nr cc <? zlen (ips cc) then
      mret (1, set_chain (nr cc + 1) (<[Z.to_nat (nr cc) := if cs_64 cc then ip else u32 ip]> (ips cc))
                 types cc)
    else Faulty Outside_chain.
End checks.

(** ** The chain is well formed, and grows by valid addresses *)

Definition get_unw_type (p : list Z) (i : Z) : Z :=
  Z.land (Z.shiftr (p !!! Z.to_nat (i / 8)) ((i mod 8) * 4)) 0x0f.

Section facts.
Context `{Process}.

(** An address the driver accepts. *)
Definition pc_ok (cc : callchain) (ip : Z) : Prop := low_addr cc <= ip < TASK_SIZE - 8 /\ ip <> 0.

Record cc_ok (cc : callchain) : Prop := {
  co_nr : 0 <= nr cc <= QUADD_MAX_STACK_DEPTH;
  co_ips : zlen (ips cc) = QUADD_MAX_STACK_DEPTH;
  co_types : zlen (types cc) = 8;
  co_words : Forall (fun w => 0 <= w < 2 ^ 32) (types cc);
}.

Lemma testbit_u32 x n : 0 <= n -> Z.testbit (u32 x) n = (n <? 32) && Z.testbit x n.
Proof.
  intros Hn. unfold uw. destruct (Z.ltb_spec n 32).
  - by rewrite Z.mod_pow2_bits_low.
  - by rewrite Z.mod_pow2_bits_high by lia.
Qed.

Lemma testbit_15 n : Z.testbit 0x0f n = (0 <=? n) && (n <? 4).
Proof. change 0x0f with (Z.ones 4). apply Z.testbit_ones. lia. Qed.

(** Writing the field at [sh], and reading it or another one. *)
Definition put_field (w sh t : Z) : Z :=
  Z.lor (Z.land w (u32 (Z.lnot (Z.shiftl 0x0f sh)))) (u32 (Z.shiftl (Z.land t 0x0f) sh)).

Lemma put_field_bits w sh t n : 0 <= w < 2 ^ 32 -> 0 <= sh <= 28 -> 0 <= n < 32 ->
  Z.testbit (put_field w sh t) n =
    if (sh <=? n) && (n <? sh + 4) then Z.testbit t (n - sh) else Z.testbit w n.
Proof.
  intros Hw Hsh Hn. unfold put_field.
  rewrite Z.lor_spec, Z.land_spec, !testbit_u32, Z.lnot_spec, !Z.shiftl_spec, Z.land_spec, testbit_15 by lia.
  destruct (Z.ltb_spec n 32); [|lia].
  destruct (Z.leb_spec 0 (n - sh)), (Z.ltb_spec (n - sh) 4), (Z.leb_spec sh n), (Z.ltb_spec n (sh + 4));
    try lia; by destruct (Z.testbit w n), (Z.testbit t (n - sh)).
Qed.

Lemma put_field_range w sh t : 0 <= w < 2 ^ 32 -> 0 <= put_field w sh t < 2 ^ 32.
Proof.
  intros Hw. unfold put_field. apply lor_range; [lia| |apply u32_range].
  split; [apply Z.land_nonneg; lia|].
  destruct (Z.eq_dec (Z.land w (u32 (Z.lnot (Z.shiftl 15 sh)))) 0) as [->|Hne]; [lia|].
  pose proof (u32_range (Z.lnot (Z.shiftl 15 sh))) as Hu.
  assert (0 <= Z.land w (u32 (Z.lnot (Z.shiftl 15 sh)))) by (apply Z.land_nonneg; lia).
  apply Z.log2_lt_pow2; [lia|]. pose proof (Z.log2_land w (u32 (Z.lnot (Z.shiftl 15 sh))) ltac:(lia) ltac:(lia)).
  assert (Z.log2 w < 32) by (destruct (Z.eq_dec w 0) as [->|]; [done|apply Z.log2_lt_pow2; lia]). lia.
Qed.

Lemma get_put_field w sh sh' t : 0 <= w < 2 ^ 32 -> 0 <= sh <= 28 -> 0 <= sh' <= 28 -> 0 <= t < 16 ->
  sh = sh' \/ sh + 4 <= sh' \/ sh' + 4 <= sh ->
  Z.land (Z.shiftr (put_field w sh t) sh') 0x0f =
    if sh =? sh' then t else Z.land (Z.shiftr w sh') 0x0f.
Proof.
  intros Hw Hsh Hsh' Ht Hdis. apply Z.bits_inj'. intros n Hn.
  assert (forall x, Z.testbit (Z.land (Z.shiftr x sh') 15) n = (n <? 4) && Z.testbit x (n + sh')) as Hget.
  { intros x. rewrite Z.land_spec, testbit_15, Z.shiftr_spec by lia.
    destruct (Z.leb_spec 0 n); [|lia]. cbn [andb]. apply andb_comm. }
  rewrite Hget. destruct (Z.ltb_spec n 4) as [Hlt|Hge]; cbn [andb].
  - rewrite put_field_bits by lia.
    destruct (Z.eqb_spec sh sh') as [->|Hne].
    + destruct (Z.leb_spec sh' (n + sh')), (Z.ltb_spec (n + sh') (sh' + 4)); try lia. cbn [andb].
      f_equal. lia.
    + rewrite Hget. destruct (Z.ltb_spec n 4); [|lia].
      destruct (Z.leb_spec sh (n + sh')), (Z.ltb_spec (n + sh') (sh + 4)); try lia; done.
  - symmetry. destruct (Z.eqb_spec sh sh').
    + apply Z.bits_above_log2; [lia|]. destruct (Z.eq_dec t 0) as [->|]; [cbn; lia|].
      assert (Z.log2 t < 4) by (apply Z.log2_lt_pow2; lia). lia.
    + rewrite Hget. by destruct (Z.ltb_spec n 4); [lia|].
Qed.

Lemma put_unw_type_spec p i t : zlen p = 8 -> Forall (fun w => 0 <= w < 2 ^ 32) p ->
  0 <= i < 64 -> 0 <= t < 16 ->
  exists p', put_unw_type p i t = Done p' /\ zlen p' = 8 /\ Forall (fun w => 0 <= w < 2 ^ 32) p' /\
    forall j, 0 <= j < 64 -> get_unw_type p' j = if j =? i then t else get_unw_type p j.
Proof.
  intros Hl Hw Hi Ht. unfold put_unw_type. assert (0 <= i / 8 < 8) as Hd by dlia.
  destruct (lookup_lt_is_Some_2 p (Z.to_nat (i / 8))) as [w Hlw]; [zlia|]. rewrite Hlw.
  assert (0 <= w < 2 ^ 32) as Hwr by exact (Forall_lookup_1 _ _ _ _ Hw Hlw).
  fold (put_field w (i mod 8 * 4) t). eexists. split; [done|].
  split; [unfold zlen in *; by rewrite length_insert|].
  split; [apply Forall_insert; [done|by apply put_field_range]|].
  intros j Hj. unfold get_unw_type.
  destruct (decide (i / 8 = j / 8)) as [Hq|Hq].
  - rewrite Hq in *. rewrite list_lookup_total_insert_eq by (unfold zlen in *; lia).
    rewrite get_put_field by dlia. rewrite (list_lookup_total_correct p _ w Hlw).
    destruct (Z.eqb_spec (i mod 8 * 4) (j mod 8 * 4)), (Z.eqb_spec j i); try done; dlia.
  - rewrite list_lookup_total_insert_ne by dlia. destruct (Z.eqb_spec j i); [congruence|done].
Qed.

(** An address below the lower bound, zero or outside the address space is refused,
    as is one too many; any other is appended with its type, and nothing stored
    before changes. *)
Lemma quadd_callchain_store_spec cc ip type : cc_ok cc -> 8 <= TASK_SIZE < 2 ^ 64 ->
  0 <= type < 16 ->
  exists n cc', quadd_callchain_store cc ip type = Done (n, cc') /\ cc_ok cc' /\
    nr cc' = nr cc + n /\ curr_sp cc' = curr_sp cc /\
    (n = 1 <-> pc_ok cc ip /\ nr cc < QUADD_MAX_STACK_DEPTH) /\ (n = 0 \/ n = 1) /\
    (n = 1 -> ips cc' !! Z.to_nat (nr cc) = Some (if cs_64 cc then ip else u32 ip) /\
              get_unw_type (types cc') (nr cc) = type) /\
    (forall j, 0 <= j < nr cc -> ips cc' !! Z.to_nat j = ips cc !! Z.to_nat j /\
              get_unw_type (types cc') j = get_unw_type (types cc) j).
Proof.
  intros [H1 H2 H3 H4] Htask Ht. unfold quadd_callchain_store, validate_pc_addr, pc_ok.
  rewrite u64_small by lia. unfold QUADD_MAX_STACK_DEPTH in *.
  destruct (Z.ltb_spec ip (low_addr cc)); cbn [orb negb andb].
  { eexists 0, _. split; [done|]. split; [by split|]. cbn. repeat split; try lia; done. }
  destruct (Z.eqb_spec ip 0); cbn [orb negb andb].
  { eexists 0, _. split; [done|]. split; [by split|]. cbn. repeat split; try lia; done. }
  destruct (Z.ltb_spec ip (TASK_SIZE - 8)); cbn [orb negb andb].
  2: { eexists 0, _. split; [done|]. split; [by split|]. cbn. repeat split; try lia; done. }
  destruct (Z.leb_spec 64 (nr cc)).
  { eexists 0, _. split; [done|]. split; [by split|]. cbn. repeat split; try lia; done. }
  destruct (put_unw_type_spec (types cc) (nr cc) type H3 H4 ltac:(lia) Ht) as (p' & -> & P1 & P2 & P3).
  cbn [mbind outcome_bind]. destruct (Z.ltb_spec (nr cc) (zlen (ips cc))); [|lia].
  eexists 1, _. split; [done|]. cbn. split.
  { split; cbn; try done; [unfold QUADD_MAX_STACK_DEPTH; lia|]. unfold zlen in *. by rewrite length_insert. }
  split; [done|]. split; [done|]. split; [lia|]. split; [by right|]. split.
  - intros _. rewrite list_lookup_insert_eq by zlia. rewrite P3 by lia. by rewrite Z.eqb_refl.
  - intros j Hj. rewrite list_lookup_insert_ne by lia. rewrite P3 by lia.
    by destruct (Z.eqb_spec j (nr cc)); [lia|].
Qed.

(** *** Growing chains *)

Lemma store_bits cc ip type n cc' : quadd_callchain_store cc ip type = Done (n, cc') ->
  cs_64 cc' = cs_64 cc /\ low_addr cc' = low_addr cc.
Proof.
  unfold quadd_callchain_store. destruct (_ || _); [by intros [= <- <-]|].
  destruct (QUADD_MAX_STACK_DEPTH <=? nr cc); [by intros [= <- <-]|].
  destruct (put_unw_type _ _ _); cbn; try done. by destruct (_ <? _); intros [= <- <-].
Qed.

(** Entry [j] is an address the driver accepts, with a type among [tys]. *)
Definition entry_ok (tys : list Z) (cc0 cc : callchain) (j : Z) : Prop := exists ip,
  pc_ok cc0 ip /\ ips cc !! Z.to_nat j = Some (if cs_64 cc0 then ip else u32 ip) /\
  get_unw_type (types cc) j ∈ tys.

(** [cc'] is [cc] with addresses appended. *)
Record extends (tys : list Z) (cc cc' : callchain) : Prop := {
  ex_ok : cc_ok cc';
  ex_nr : nr cc <= nr cc';
  ex_bits : cs_64 cc' = cs_64 cc /\ low_addr cc' = low_addr cc;
  ex_old : forall j, 0 <= j < nr cc -> ips cc' !! Z.to_nat j = ips cc !! Z.to_nat j /\
           get_unw_type (types cc') j = get_unw_type (types cc) j;
  ex_new : forall j, nr cc <= j < nr cc' -> entry_ok tys cc cc' j;
}.

(** The fields of the chain proper; the others are the unwinders' notes. *)
Definition same_chain (cc cc' : callchain) : Prop :=
  nr cc' = nr cc /\ ips cc' = ips cc /\ types cc' = types cc /\ cs_64 cc' = cs_64 cc /\
  low_addr cc' = low_addr cc.

Lemma same_chain_ok cc cc' : same_chain cc cc' -> cc_ok cc -> cc_ok cc'.
Proof. intros (E1 & E2 & E3 & E4 & E5) []. split; congruence. Qed.

Lemma same_extends tys cc cc' : cc_ok cc -> same_chain cc cc' -> extends tys cc cc'.
Proof.
  intros Hok Hs. pose proof (same_chain_ok _ _ Hs Hok). destruct Hs as (E1 & E2 & E3 & E4 & E5).
  split; [done|lia|done|by rewrite E2, E3|intros; lia].
Qed.

Lemma extends_refl tys cc : cc_ok cc -> extends tys cc cc.
Proof. intros. by apply same_extends. Qed.

Lemma extends_weaken tys tys' cc cc' : tys ⊆ tys' -> extends tys cc cc' -> extends tys' cc cc'.
Proof.
  intros Hsub [X1 X2 X3 X4 X5]. split; try done. intros j Hj. destruct (X5 j Hj) as (ip & Hip & E1 & E2).
  exists ip. split; [done|]. split; [done|]. by apply Hsub.
Qed.

Lemma extends_trans tys a b c : 0 <= nr a -> extends tys a b -> extends tys b c -> extends tys a c.
Proof.
  intros Ha [A1 A2 [A3 A4] A5 A6] [B1 B2 [B3 B4] B5 B6]. split; [done|lia|split; congruence|..].
  - intros j Hj. destruct (A5 j Hj) as [<- <-]. apply B5. lia.
  - intros j Hj. destruct (Z.lt_ge_cases j (nr b)).
    + destruct (A6 j) as (ip & Hip & E1 & E2); [lia|]. exists ip. split; [done|].
      destruct (B5 j) as [-> ->]; [lia|]. done.
    + destruct (B6 j) as (ip & Hip & E1 & E2); [lia|]. exists ip. unfold pc_ok in *.
      rewrite <- A3, <- A4. done.
Qed.

(** Storing is growing, by one address or by none. *)
Lemma store_extends tys cc ip type : cc_ok cc -> 8 <= TASK_SIZE < 2 ^ 64 -> 0 <= type < 16 ->
  type ∈ tys ->
  exists n cc', quadd_callchain_store cc ip type = Done (n, cc') /\ extends tys cc cc' /\
    nr cc' = nr cc + n /\ curr_sp cc' = curr_sp cc /\ (n = 0 \/ n = 1).
Proof.
  intros Hok Htask Ht Hin. pose proof Hok as [H1 H2 H3 H4].
  destruct (quadd_callchain_store_spec cc ip type Hok Htask Ht)
    as (n & cc' & E & Hok' & Hnr & Hsp & H01 & Hn & Hnew & Hold).
  exists n, cc'. split; [done|]. split; [|done].
  pose proof (store_bits cc ip type n cc' E) as Hbits.
  split; [done|lia|done|done|]. intros j Hj. assert (n = 1) as -> by lia.
  assert (j = nr cc) as -> by lia. destruct (Hnew eq_refl) as [E1 E2].
  exists ip. split; [by apply H01|]. by rewrite E1, E2.
Qed.

(** *** A sequence of stores *)

(** The addresses of the chain with their types. *)
Definition chain (cc : callchain) : list (Z * Z) :=
  (fun j : nat => (ips cc !!! j, get_unw_type (types cc) (Z.of_nat j))) <$> seq 0 (Z.to_nat (nr cc)).

Fixpoint store_all (cc : callchain) (l : list (Z * Z)) : outcome callchain :=
  match l with
  | [] => mret cc
  | (ip, ty) :: l => '(_, cc) ← quadd_callchain_store cc ip ty; store_all cc l
  end.

#[local] Instance pc_ok_dec cc ip : Decision (pc_ok cc ip).
Proof. unfold pc_ok. apply _. Defined.

(** What is kept of a sequence of addresses. *)
Definition kept (cc : callchain) (l : list (Z * Z)) : list (Z * Z) :=
  (fun p => (if cs_64 cc then p.1 else u32 p.1, p.2)) <$> filter (fun p => pc_ok cc p.1) l.

Lemma chain_length cc : length (chain cc) = Z.to_nat (nr cc).
Proof. unfold chain. by rewrite length_fmap, length_seq. Qed.

Lemma chain_snoc cc cc' e : 0 <= nr cc -> nr cc' = nr cc + 1 ->
  (forall j, 0 <= j < nr cc -> ips cc' !! Z.to_nat j = ips cc !! Z.to_nat j /\
     get_unw_type (types cc') j = get_unw_type (types cc) j) ->
  ips cc' !! Z.to_nat (nr cc) = Some e.1 -> get_unw_type (types cc') (nr cc) = e.2 ->
  chain cc' = chain cc ++ [e].
Proof.
  intros Hn E Hold H1 H2. unfold chain. rewrite E, Z2Nat.inj_add, Nat.add_1_r, seq_S, fmap_app by lia.
  f_equal.
  - apply list_fmap_ext. intros i j Hj. apply lookup_seq in Hj as [-> Hj].
    destruct (Hold (Z.of_nat (0 + i)) ltac:(lia)) as [A B]. rewrite Nat2Z.id in A.
    by rewrite !list_lookup_total_alt, A, B.
  - cbn. rewrite Z2Nat.id by lia. rewrite (list_lookup_total_correct _ _ _ H1), H2. by destruct e.
Qed.

Lemma chain_same cc cc' : nr cc' = nr cc ->
  (forall j, 0 <= j < nr cc -> ips cc' !! Z.to_nat j = ips cc !! Z.to_nat j /\
     get_unw_type (types cc') j = get_unw_type (types cc) j) ->
  chain cc' = chain cc.
Proof.
  intros E Hold. unfold chain. rewrite E. apply list_fmap_ext. intros i j Hj.
  apply lookup_seq in Hj as [-> Hj]. destruct (Hold (Z.of_nat (0 + i)) ltac:(lia)) as [A B].
  rewrite Nat2Z.id in A. by rewrite !list_lookup_total_alt, A, B.
Qed.

(** Storing a sequence of addresses keeps those that are in the address space, not
    zero and not below the lower bound, in their order and with their types, until
    there are 64; the array and the packed types are never left. *)
Theorem quadd_callchain_store_all l : forall cc, cc_ok cc -> 8 <= TASK_SIZE < 2 ^ 64 ->
  Forall (fun p => 0 <= p.2 < 16) l ->
  exists cc', store_all cc l = Done cc' /\ cc_ok cc' /\
    chain cc' = take 64 (chain cc ++ kept cc l).
Proof.
  induction l as [|[ip ty] l IH]; intros cc Hok Htask Hl.
  { exists cc. split; [done|]. split; [done|]. cbn. rewrite app_nil_r, take_ge; [done|].
    rewrite chain_length. destruct Hok as [Hn _ _ _]. unfold QUADD_MAX_STACK_DEPTH in Hn. lia. }
  apply Forall_cons_1 in Hl as [Ht Hl]. cbn in Ht. cbn [store_all].
  destruct (quadd_callchain_store_spec cc ip ty Hok Htask Ht)
    as (n & c1 & E & Hok1 & Hnr & _ & H01 & Hn & Hnew & Hold).
  rewrite E. cbn [mbind outcome_bind]. destruct (IH c1 Hok1 Htask Hl) as (cc' & -> & Hok' & Hc).
  exists cc'. split; [done|]. split; [done|]. rewrite Hc.
  destruct (store_bits _ _ _ _ _ E) as [Hb1 Hb2].
  assert (kept c1 l = kept cc l) as ->.
  { unfold kept. rewrite Hb1. f_equal. apply list_filter_iff. intros x. unfold pc_ok. by rewrite Hb2. }
  pose proof (co_nr _ Hok) as Hr. unfold kept. rewrite filter_cons. cbn [fst].
  destruct Hn as [-> | ->].
  - rewrite (chain_same cc c1) by (done || lia). case_decide as Hd; [|done]. cbn.
    assert (nr cc = 64) as Hfull.
    { unfold QUADD_MAX_STACK_DEPTH in *. destruct (Z.eq_dec (nr cc) 64); [done|]. exfalso.
      assert (0 = 1) by (apply H01; split; [done|lia]). lia. }
    rewrite !take_app_length' by (rewrite chain_length; lia). done.
  - destruct (Hnew eq_refl) as [A B]. destruct (proj1 H01 eq_refl) as [Hpc _].
    rewrite decide_True by done. rewrite fmap_cons.
    rewrite (chain_snoc cc c1 (if cs_64 cc then ip else u32 ip, ty)); try done; [|lia].
    by rewrite <- app_assoc.
Qed.
End facts.

(** ** Loops that add to a chain

    The unwinders repeat a step that says whether to go on; one that goes on has added
    to the chain, so that 64 bounds the rounds of every such loop. *)
Section chain_loop.
Context {S : Type} (body : S -> outcome (bool * S)).

Fixpoint chain_loop (fuel : nat) (s : S) : outcome S :=
  match fuel with
  | O => Timeout
  | Datatypes.S fuel =>
      '(go, s) ← body s;
      if go : bool then chain_loop fuel s else mret s
  end.

(** The states after [n] rounds that go on. *)
Inductive rounds (s : S) : nat -> S -> Prop :=
  | rounds_0 : rounds s 0 s
  | rounds_S n s1 s2 : rounds s n s1 -> body s1 = Done (true, s2) -> rounds s (Datatypes.S n) s2.

Context `{Process} (cc_of : S -> callchain) (tys : list Z).
Hypothesis Hbody : forall s go s', body s = Done (go, s') -> cc_ok (cc_of s) ->
  extends tys (cc_of s) (cc_of s') /\ (go = true -> nr (cc_of s) < nr (cc_of s')).

Lemma rounds_extend s n s' : rounds s n s' -> cc_ok (cc_of s) ->
  extends tys (cc_of s) (cc_of s') /\ nr (cc_of s) + Z.of_nat n <= nr (cc_of s').
Proof.
  intros Hr Hok. induction Hr as [|n s1 s2 Hr [I1 I2] E]; [split; [by apply extends_refl|lia]|].
  destruct (Hbody s1 true s2 E (ex_ok _ _ _ I1)) as [Hex Hgo]. specialize (Hgo eq_refl).
  pose proof (co_nr _ Hok). split; [|lia]. apply (extends_trans _ _ (cc_of s1)); [lia|done..].
Qed.

Lemma loop_outcomes s0 fuel : forall n s, rounds s0 n s -> cc_ok (cc_of s0) ->
  QUADD_MAX_STACK_DEPTH - nr (cc_of s) < Z.of_nat fuel ->
  match chain_loop fuel s with
  | Done s' => exists k s1, rounds s0 k s1 /\ body s1 = Done (false, s')
  | Timeout => exists k s1, rounds s0 k s1 /\ body s1 = Timeout
  | Faulty site => exists k s1, rounds s0 k s1 /\ body s1 = Faulty site
  | Error e => exists k s1, rounds s0 k s1 /\ body s1 = Error e
  end.
Proof.
  induction fuel as [|fuel IH]; intros n s Hr Hok Hf;
    destruct (rounds_extend _ _ _ Hr Hok) as (X & E); pose proof (co_nr _ (ex_ok _ _ _ X)); [lia|].
  cbn [chain_loop]. destruct (body s) as [[[|] s1]|e| |] eqn:Eb; cbn [mbind outcome_bind];
    try (exists n, s; by split).
  apply (IH (Datatypes.S n)); [by eapply rounds_S|done|].
  destruct (Hbody s true s1 Eb (ex_ok _ _ _ X)) as [_ Hgo]. specialize (Hgo eq_refl). lia.
Qed.

(** The bound is never what stops the loop. *)
Lemma chain_loop_ends s fuel : cc_ok (cc_of s) -> QUADD_MAX_STACK_DEPTH < Z.of_nat fuel ->
  match chain_loop fuel s with
  | Done s' => extends tys (cc_of s) (cc_of s') /\
               exists n s1, rounds s n s1 /\ body s1 = Done (false, s')
  | Timeout => exists n s1, rounds s n s1 /\ body s1 = Timeout
  | Faulty site => exists n s1, rounds s n s1 /\ body s1 = Faulty site
  | Error e => exists n s1, rounds s n s1 /\ body s1 = Error e
  end.
Proof.
  intros Hok Hf. pose proof (co_nr _ Hok) as Hn.
  pose proof (loop_outcomes s fuel 0 s (rounds_0 s) Hok ltac:(lia)) as Hl.
  destruct (chain_loop fuel s) as [s'|e| |]; destruct Hl as (k & s1 & Hr & Eb); eauto.
  split; [|eauto]. destruct (rounds_extend _ _ _ Hr Hok) as (X & _).
  destruct (Hbody s1 false s' Eb (ex_ok _ _ _ X)) as [X' _].
  apply (extends_trans _ _ (cc_of s1)); [lia|done..].
Qed.

(** When every round returns, the loop does. *)
Lemma chain_loop_total (I : S -> Prop) s fuel :
  (forall s, I s -> cc_ok (cc_of s) /\ exists go s', body s = Done (go, s') /\ I s') -> I s ->
  QUADD_MAX_STACK_DEPTH < Z.of_nat fuel ->
  exists s', chain_loop fuel s = Done s' /\ I s' /\ extends tys (cc_of s) (cc_of s').
Proof.
  intros HI Hs Hf. pose proof (chain_loop_ends s fuel (proj1 (HI s Hs)) Hf) as Hl.
  assert (forall n s1, rounds s n s1 -> I s1) as Hr.
  { intros n s1 Hr. induction Hr as [|n s1 s2 Hr IH E]; [done|].
    destruct (HI s1 IH) as (_ & go & s' & E' & Hs'). congruence. }
  assert (forall n s1, rounds s n s1 -> exists go s', body s1 = Done (go, s') /\ I s') as Hb
    by (intros n s1 H1; apply HI, (Hr n s1 H1)).
  destruct (chain_loop fuel s) as [s'|e| |].
  - destruct Hl as (X & n & s1 & Hn & E). exists s'. split; [done|].
    destruct (Hb n s1 Hn) as (go & s2 & E2 & H2). split; [congruence|done].
  - destruct Hl as (n & s1 & Hn & E). destruct (Hb n s1 Hn) as (go & s2 & E2 & _). congruence.
  - destruct Hl as (n & s1 & Hn & E). destruct (Hb n s1 Hn) as (go & s2 & E2 & _). congruence.
  - destruct Hl as (n & s1 & Hn & E). destruct (Hb n s1 Hn) as (go & s2 & E2 & _). congruence.
Qed.

(** What every round keeps, the loop keeps. *)
Lemma chain_loop_keeps (I : S -> Prop) fuel :
  (forall s go s', body s = Done (go, s') -> I s -> I s') ->
  forall s s', chain_loop fuel s = Done s' -> I s -> I s'.
Proof.
  intros HI. induction fuel as [|fuel IH]; intros s s' E Hs; cbn [chain_loop] in E; [done|].
  inv_bind E. destruct x as [go s1]. pose proof (HI _ _ _ E0 Hs).
  destruct go; [by apply (IH s1)|by inv_done].
Qed.
End chain_loop.

(** ** An example process

    Code at 0x400000, a stack of the given words that ends at 0x7fff0000. *)
Definition example_vmas (stack : list Z) : list vm_area :=
  [Vma 0x400000 0x500000; Vma (0x7fff0000 - 0x1000) 0x7fff0000].
Definition example_stack_base : Z := 0x7fff0000 - 0x1000.
Definition example_process (stack : list Z) : Process := {|
  find_vma a := List.find (fun v => a <? vma_end v) (example_vmas stack);
  copy_from_user a n := rd_le n (concat (map (le_enc 8) stack)) (a - example_stack_base);
  TASK_SIZE := 2 ^ 39;
  task_mm := true;
|}.

Definition example_chain : callchain :=
  Callchain 0 (replicate 64 0) (replicate 8 0) true (Methods true true false true)
    QUADD_URC_NONE QUADD_URC_NONE QUADD_URC_NONE 0 0 0 0 0 0x1000.
Lemma example_chain_ok : cc_ok example_chain.
Proof. split; cbn; try done. repeat constructor; lia. Qed.

Lemma quadd_callchain_store_all_witness :
  exists cc', @store_all (example_process []) example_chain
      [(0x400010, QUADD_UNW_TYPE_DWARF_EH); (0, QUADD_UNW_TYPE_FP); (0x400020, QUADD_UNW_TYPE_FP)]
      = Done cc' /\
    chain cc' = [(0x400010, QUADD_UNW_TYPE_DWARF_EH); (0x400020, QUADD_UNW_TYPE_FP)].
Proof.
  destruct (@quadd_callchain_store_all (example_process []) [(0x400010, QUADD_UNW_TYPE_DWARF_EH);
      (0, QUADD_UNW_TYPE_FP); (0x400020, QUADD_UNW_TYPE_FP)] example_chain example_chain_ok)
    as (cc' & E & _ & H1).
  - cbn. lia.
  - repeat apply Forall_cons_2; try apply Forall_nil_2; by vm_compute.
  - exists cc'. split; [exact E|]. rewrite H1. by vm_compute.
Defined.
