(* ===== verification/DwarfUnwind.v ===== *)
(** * Walking the stack with unwind tables (dwarf_unwind.c, 114-138 and 1779-2212)

    One step recovers the registers of the caller from the row of the table that
    covers the program counter; the walk repeats it and stores the addresses in the
    call chain, taking and giving back references on the regions it goes through.
    Every operation returns the state it leaves, also when it fails. *)

From stdpp Require Import gmap.
From S2P Require Import Prelude DwarfRead DwarfCfa DwarfTable DwarfEntries Callchain EhRegions.
#[local] Open Scope Z_scope.

(** ** State *)

(** struct stackframe *)
Record stackframe := Frame {
  f_pc : Z; f_vregs : list Z; f_rs : regs_state; f_rs_initial : regs_state;
  f_cfa : Z; f_mode : dw_mode; f_is_sched : bool;
}.
(** struct dwarf_cpu_context *)
Record cpu_context := Cpu {
  c_rs_stack : list regs_state; c_depth : Z; c_sf : stackframe; c_ptr_size : Z }.

Definition set_f_pc (pc : Z) (f : stackframe) : stackframe :=
  Frame pc (f_vregs f) (f_rs f) (f_rs_initial f) (f_cfa f) (f_mode f) (f_is_sched f).
Definition set_f_vreg (r v : Z) (f : stackframe) : stackframe :=
  Frame (f_pc f) (<[Z.to_nat r := v]> (f_vregs f)) (f_rs f) (f_rs_initial f) (f_cfa f) (f_mode f)
    (f_is_sched f).
Definition set_f_rs (rs rs_initial : regs_state) (f : stackframe) : stackframe :=
  Frame (f_pc f) (f_vregs f) rs rs_initial (f_cfa f) (f_mode f) (f_is_sched f).
Definition set_f_cfa (cfa : Z) (f : stackframe) : stackframe :=
  Frame (f_pc f) (f_vregs f) (f_rs f) (f_rs_initial f) cfa (f_mode f) (f_is_sched f).
Definition set_f_run (mode : dw_mode) (is_sched : bool) (f : stackframe) : stackframe :=
  Frame (f_pc f) (f_vregs f) (f_rs f) (f_rs_initial f) 0 mode is_sched.
Definition set_sf (f : stackframe) (c : cpu_context) : cpu_context :=
  Cpu (c_rs_stack c) (c_depth c) f (c_ptr_size c).
Definition modify_sf (g : stackframe -> stackframe) (c : cpu_context) : cpu_context :=
  set_sf (g (c_sf c)) c.
(** The array of registers, whose indices are register numbers below 32. *)
Definition vreg (f : stackframe) (r : Z) : Z := f_vregs f !!! Z.to_nat r.

(** A computation that may fail, the processor's context it leaves, and the tail
    information it has stored. *)
Definition step_result (A : Type) : Type := outcome A * cpu_context * list tail_info.

Section unwind.
Context `{ShiftOps} `{Process}.
(** The fuel of the interpreter, and the contents of the local [cie]. *)
Context (cfa_fuel : nat) (cie0 : dw_cie).

(** ** One frame *)

Definition def_cfa (f : stackframe) (rs : regs_state) : outcome stackframe :=
  let reg := cfa_register rs in
  if 0 <=? reg then
    if Z.of_nat QUADD_NUM_REGS <=? reg then Error (- QUADD_URC_TBL_IS_CORRUPT)
    else mret (set_f_cfa (u64 (vreg f reg + cfa_offset rs)) f)
  else mret (set_f_cfa (u64 (f_cfa f + cfa_offset rs)) f).

(** dwarf_cfa_exec_insns on the frame of this processor. *)
Definition exec_insns (ri : ex_region_info) (insn_start insn_end : Z) (cie : dw_cie) (pc : Z)
    (is_eh : bool) (c : cpu_context) : outcome unit * cpu_context :=
  let f := c_sf c in
  let '(r, s) := dwarf_cfa_exec_insns cfa_fuel ri insn_start insn_end cie (f_rs_initial f) pc is_eh
                   (CfaState 0 (f_pc f) (f_rs f) (c_depth c) (c_rs_stack c)) in
  (r, Cpu (rs_stack s) (depth s) (set_f_rs (sf_rs s) (f_rs_initial f) (set_f_pc (sf_pc s) f))
        (c_ptr_size c)).

(** for (i = 0; i < num_regs; i++), [n] registers left *)
Fixpoint restore_regs (n : nat) (i : Z) (vma_sp : option vm_area) (c : cpu_context)
    : outcome unit * cpu_context :=
  match n with
  | O => (Done tt, c)
  | S n =>
      let f := c_sf c in
      match reg (f_rs f) !! Z.to_nat i with
      | None => (Fault, c)
      | Some r =>
          match where_ r with
          | DW_WHERE_CFAREL =>
              let addr := u64 (f_cfa f + loc r) in
              let size := get_user_reg_size (f_mode f) in
              if negb (validate_stack_addr addr vma_sp size)
              then (Error (- QUADD_URC_SP_INCORRECT), c)
              else
                match read_user_data addr (Z.to_nat size) with
                | Done val => restore_regs n (i + 1) vma_sp (modify_sf (set_f_vreg i val) c)
                | Error e => (Error e, c)
                | Faulty site => (Faulty site, c)
                | Timeout => (Timeout, c)
                end
          | _ => restore_regs n (i + 1) vma_sp c
          end
      end
  end.

(** From def_cfa on. *)
Definition unwind_finish (vma_sp : option vm_area) (c : cpu_context) : outcome unit * cpu_context :=
  let f := c_sf c in
  let mode := f_mode f in
  let size := get_user_reg_size mode in
  match def_cfa f (f_rs f) with
  | Done f =>
      match restore_regs (num_regs mode) 0 vma_sp (set_sf f c) with
      | (Done _, c) =>
          let return_addr := vreg (c_sf c) (regnum_lr mode) in
          if negb (validate_pc_addr return_addr size) then (Error (- QUADD_URC_PC_INCORRECT), c)
          else
            (Done tt, modify_sf (fun f => set_f_vreg (regnum_sp mode) (f_cfa f)
                                            (set_f_pc return_addr f)) c)
      | (e, c) => (e, c)
      end
  | Error e => (Error e, c)
  | Faulty site => (Faulty site, c)
  | Timeout => (Timeout, c)
  end.

(** The initial instructions, then those of the function. *)
Definition unwind_rules (ri : ex_region_info) (cie : dw_cie) (fde : dw_fde) (pc : Z)
    (is_eh : bool) (c : cpu_context) : outcome unit * cpu_context :=
  let '(r, c) := if initial_insn cie =? 0 then (Done tt, c)
                 else exec_insns ri (initial_insn cie) (u64 (initial_insn cie + initial_insn_len cie))
                        cie pc is_eh c in
  match r with
  | Done _ =>
      let c := modify_sf (fun f => set_f_rs (f_rs f) (f_rs f) f) c in
      if instructions fde =? 0 then (Done tt, c)
      else exec_insns ri (instructions fde) (u64 (instructions fde + insn_length fde))
             (fde_cie fde) pc is_eh c
  | e => (e, c)
  end.

Definition unwind_frame (ri : ex_region_info) (vma_sp : option vm_area) (is_eh : bool)
    (c : cpu_context) : step_result unit :=
  let f := c_sf c in
  let pc := f_pc f in
  match dwarf_decode ri (c_ptr_size c) pc (negb (f_is_sched f)) is_eh cie0 with
  | (Done (cie, fde), tails) =>
      match rules_cleanup (f_mode f) (set_cfa_register (-1) (f_rs f)) with
      | Done rs =>
          let f := set_f_rs rs (set_cfa_register (-1) (f_rs_initial f))
                     (set_f_pc (initial_location fde) f) in
          match unwind_rules ri cie fde pc is_eh (set_sf f c) with
          | (Done _, c) => let '(r, c) := unwind_finish vma_sp c in (r, c, tails)
          | (e, c) => (e, c, tails)
          end
      | Error e => (Error e, c, tails)
      | Faulty site => (Faulty site, c, tails)
      | Timeout => (Timeout, c, tails)
      end
  | (Error e, tails) => (Error e, c, tails)
  | (Faulty site, tails) => (Faulty site, c, tails)
  | (Timeout, tails) => (Timeout, c, tails)
  end.

(** ** The walk *)

(** The outcome of the allocation in quadd_unwind_set_tail_info. *)
Context (alloc_tail : tail_info -> bool).

Fixpoint store_tails (l : list tail_info) (w : world) : outcome world :=
  match l with
  | [] => mret w
  | (start, secid, tf_start, tf_end) :: l =>
      w ← quadd_unwind_set_tail_info (alloc_tail (start, secid, tf_start, tf_end))
            start secid tf_start tf_end w;
      store_tails l w
  end.

(** The locals of the walk and what it changes: [b_prev] is the region it holds a
    reference on besides the caller's. *)
Record walk := Walk {
  b_w : world; b_cc : callchain; b_cpu : cpu_context;
  b_ri : ex_region; b_prev : option ex_region; b_is_eh : bool;
}.
Definition set_cc (cc : callchain) (b : walk) : walk :=
  Walk (b_w b) cc (b_cpu b) (b_ri b) (b_prev b) (b_is_eh b).

(** The region of the code at pc: the one at hand, or a new one; [false] when there
    is none. *)
Definition switch_region (vma_pc : vm_area) (b : walk) : outcome (bool * walk) :=
  if is_vma_addr (xr_start (b_ri b)) (Some vma_pc) (get_user_reg_size (f_mode (c_sf (b_cpu b))))
  then mret (true, b)
  else
    w ← put_prev (b_prev b) (b_w b);
    '(g, w) ← quadd_get_dw_frames (vma_start vma_pc) w;
    match g with
    | inl _ =>
        mret (false, Walk w (set_urc_dwarf QUADD_URC_TBL_NOT_EXIST (b_cc b)) (b_cpu b) (b_ri b)
                       None (b_is_eh b))
    | inr x => mret (true, Walk w (b_cc b) (b_cpu b) x (Some x) (b_is_eh b))
    end.

(** unwind_frame on the walk: the error code, if any. *)
Definition walk_frame (vma_sp : option vm_area) (b : walk) : outcome (option Z * walk) :=
  ri ← view (b_w b) (b_ri b);
  let '(r, c, tails) := unwind_frame ri vma_sp (b_is_eh b) (b_cpu b) in
  w ← store_tails tails (b_w b);
  let b := Walk w (b_cc b) c (b_ri b) (b_prev b) (b_is_eh b) in
  match r with
  | Done _ => mret (None, b)
  | Error e => mret (Some e, b)
  | Faulty site => Faulty site
  | Timeout => Timeout
  end.

Definition set_is_eh (e : bool) (b : walk) : walk :=
  Walk (b_w b) (b_cc b) (b_cpu b) (b_ri b) (b_prev b) e.

(** With both tables at hand, a failure is followed by an attempt with the other. *)
Definition try_frames (both : bool) (vma_sp : option vm_area) (b : walk) : outcome (option Z * walk) :=
  '(err, b) ← walk_frame vma_sp b;
  match err with
  | Some e =>
      if both then walk_frame vma_sp (set_is_eh (negb (b_is_eh b)) b) else mret (Some e, b)
  | None => mret (None, b)
  end.

(** What the walk records of a frame, and whether it goes on; [sp] is that of the
    frame before. *)
Definition record_frame (sp : Z) (b : walk) : outcome (bool * walk) :=
  let f := c_sf (b_cpu b) in
  let mode := f_mode f in
  let cc := b_cc b in
  let fp_thumb := match mode with
                  | DW_MODE_ARM32 => vreg f ARM32_FP_THUMB | DW_MODE_ARM64 => curr_fp_thumb cc end in
  let curr := vreg f (regnum_sp mode) in
  let cc := set_curr curr (vreg f (regnum_fp mode)) fp_thumb (f_pc f) (vreg f (regnum_lr mode)) cc in
  let is_stack_ok := if 0 <? nr cc then sp <? curr else sp <=? curr in
  if negb is_stack_ok then mret (false, set_cc (set_urc_dwarf QUADD_URC_SP_INCORRECT cc) b)
  else
    '(added, cc) ← quadd_callchain_store cc (f_pc f)
                     (if b_is_eh b then QUADD_UNW_TYPE_DWARF_EH else QUADD_UNW_TYPE_DWARF_DF);
    mret (negb (added =? 0), set_cc cc b).

(** One round of the loop; [false] is a break. *)
Definition walk_body (vma_sp : option vm_area) (b : walk) : outcome (bool * walk) :=
  let f := c_sf (b_cpu b) in
  let mode := f_mode f in
  let sp := vreg f (regnum_sp mode) in
  if negb task_mm then mret (false, b)
  else if negb (validate_stack_addr sp vma_sp (get_user_reg_size mode))
  then mret (false, set_cc (set_urc_dwarf QUADD_URC_SP_INCORRECT (b_cc b)) b)
  else
    match find_vma (f_pc f) with
    | None => mret (false, b)
    | Some vma_pc =>
        '(go, b) ← switch_region vma_pc b;
        if negb go then mret (false, b)
        else
          ri ← view (b_w b) (b_ri b);
          '(__is_eh, __is_debug) ← is_fde_entry_exist ri (c_ptr_size (b_cpu b)) (f_pc f) cie0;
          if negb (__is_eh || __is_debug)
          then mret (false, set_cc (set_urc_dwarf QUADD_URC_IDX_NOT_FOUND (b_cc b)) b)
          else
            let is_eh := if b_is_eh b then __is_eh else negb __is_debug in
            '(err, b) ← try_frames (__is_eh && __is_debug) vma_sp (set_is_eh is_eh b);
            match err with
            | Some e => mret (false, set_cc (set_urc_dwarf (- e) (b_cc b)) b)
            | None => record_frame sp b
            end
    end.

Definition walk_loop (fuel : nat) (vma_sp : option vm_area) (b : walk) : outcome walk :=
  chain_loop (walk_body vma_sp) fuel b.

(** Every round but the last adds one of at most 64 addresses. *)
Definition walk_fuel : nat := 66.

Definition unwind_backtrace (cc : callchain) (x : ex_region) (vma_sp : option vm_area)
    (c : cpu_context) (w : world) : outcome (callchain * cpu_context * world) :=
  b ← walk_loop walk_fuel vma_sp (Walk w (set_urc_dwarf QUADD_URC_FAILURE cc) c x None true);
  w ← put_prev (b_prev b) (b_w b);
  mret (b_cc b, b_cpu b, w).

(** ** Entry points *)

Definition quadd_is_ex_entry_exist_dwarf (ev : event_context) (addr ptr_size : Z) (w : world)
    : outcome (bool * world) :=
  match ev_regs ev, task_mm with
  | Some _, true =>
      match find_vma addr with
      | None => mret (false, w)
      | Some vma =>
          '(g, w) ← quadd_get_dw_frames (vma_start vma) w;
          match g with
          | inl _ => mret (false, w)
          | inr x =>
              ri ← view w x; '(is_eh, is_debug) ← is_fde_entry_exist ri ptr_size addr cie0;
              w ← quadd_put_dw_frames x w;
              mret (is_eh || is_debug, w)
          end
      end
  | _, _ => mret (false, w)
  end.

(** The frame at the sample, or where the chain has come to. *)
Definition start_frame (ev : event_context) (r : pt_regs) (cc : callchain) (c : cpu_context)
    : cpu_context :=
  let mode := if r_compat r then DW_MODE_ARM32 else DW_MODE_ARM64 in
  let '(ip, sp, fp, fp_thumb, lr) :=
    if negb (curr_sp cc =? 0)
    then (curr_pc cc, curr_sp cc, curr_fp cc, curr_fp_thumb cc, curr_lr cc)
    else
      let '(fp, fp_thumb) := if r_compat r then (r_reg r 11, r_reg r 7) else (r_reg r 29, 0) in
      (instruction_pointer r, quadd_user_stack_pointer r, fp, fp_thumb, quadd_user_link_register r) in
  let f := set_f_vreg (regnum_lr mode) lr (c_sf c) in
  let f := set_f_vreg (regnum_fp mode) fp (set_f_vreg (regnum_sp mode) sp (set_f_pc ip f)) in
  let f := match mode with
           | DW_MODE_ARM32 => set_f_vreg ARM32_FP_THUMB fp_thumb f | DW_MODE_ARM64 => f end in
  Cpu (c_rs_stack c) (c_depth c) (set_f_run mode (ev_is_sched ev) f)
    (match mode with DW_MODE_ARM32 => 4 | DW_MODE_ARM64 => 8 end).

(** The number of addresses returned, and the state. *)
Definition quadd_get_user_cc_dwarf (ev : event_context) (cc : callchain) (c : cpu_context) (w : world)
    : outcome (Z * callchain * cpu_context * world) :=
  match ev_regs ev, task_mm with
  | Some r, true =>
      if urc_dwarf cc =? QUADD_URC_LEVEL_TOO_DEEP then mret (nr cc, cc, c, w)
      else
        let c := start_frame ev r cc c in
        let cc := set_urc_dwarf QUADD_URC_FAILURE cc in
        match find_vma (f_pc (c_sf c)) with
        | None => mret (0, cc, c, w)
        | Some vma =>
            match find_vma (vreg (c_sf c) (regnum_sp (f_mode (c_sf c)))) with
            | None => mret (0, cc, c, w)
            | Some vma_sp =>
                '(g, w) ← quadd_get_dw_frames (vma_start vma) w;
                match g with
                | inl _ => mret (0, set_urc_dwarf QUADD_URC_TBL_NOT_EXIST cc, c, w)
                | inr x =>
                    '(cc, c, w) ← unwind_backtrace cc x (Some vma_sp) c w;
                    w ← quadd_put_dw_frames x w;
                    mret (nr cc, cc, c, w)
                end
            end
        end
  | _, _ => mret (0, cc, c, w)
  end.
End unwind.

(** Starting allocates the processors' contexts once. *)
Definition quadd_dwarf_unwind_start (alloc : bool) (started : bool) : Z * bool :=
  if negb started then (if alloc then (0, true) else (- ENOMEM, false)) else (0, started).
Definition quadd_dwarf_unwind_stop (started : bool) : bool := false.
Definition quadd_dwarf_unwind_init : Z * bool := (0, false).

(** ** An example

    A program whose one function, at 0x441000, saves x29 and x30 in the 16 bytes below
    the frame address; three of its frames are on the stack. The tables are those
    of DwarfEntries.v. *)
Definition walk_hdr : list Z := hdr_enc 0 example_entries.
Definition walk_area : area :=
  Area true example_base (example_frame ++ walk_hdr) ACTIVE 0 [].
Definition walk_sections : quadd_sections :=
  Sections 0x400000 0x500000
    (fun st => if st =? QUADD_SEC_TYPE_EH_FRAME then (0x450000, zlen example_frame, 0)
               else if st =? QUADD_SEC_TYPE_EH_FRAME_HDR
               then (0x440000, zlen walk_hdr, zlen example_frame) else (0, 0, 0)).
Definition walk_world : world :=
  after (quadd_unwind_set_extab true true walk_sections 1
           (quadd_unwind_start true 0 (World None {[1 := walk_area]})).2).
Definition walk_process : Process :=
  example_process [0; 0x441008; 0; 0x441008; 0; 0; 0; 0].
Definition walk_regs : pt_regs :=
  PtRegs (replicate 31 0) example_stack_base 0x441010 false false.
Definition walk_event : event_context := Event (Some walk_regs) true false.
Definition walk_frame0 : stackframe :=
  Frame 0 (replicate 32 0) example_rs example_rs 0 DW_MODE_ARM64 false.
Definition walk_cpu : cpu_context :=
  Cpu (replicate (Z.to_nat DW_MAX_RS_STACK_DEPTH) example_rs) 0 walk_frame0 8.
Definition walk_result : outcome (Z * callchain * cpu_context * world) :=
  @quadd_get_user_cc_dwarf example_shifts walk_process 20 example_cie (fun _ => true)
    walk_event example_chain walk_cpu walk_world.

(** Two callers are found; the third return address is zero. *)
Lemma walk_result_chain :
  match walk_result with
  | Done (n, cc, _, w) => n = 2 /\ chain cc = [(0x441008, 5); (0x441008, 5)] /\
      urc_dwarf cc = QUADD_URC_PC_INCORRECT
  | _ => False
  end.
Proof. by vm_compute. Qed.
