(* ===== verification/DwarfFrame.v ===== *)
(** * What one step of the walk computes (unwind_frame)

    From the tables' meaning, the rows of DwarfRows.v, to the registers of the caller:
    the step of DwarfUnwind.v, on bytes, equals a definition that knows neither
    encodings nor the order in which the registers are restored. For 64-bit
    programs. *)

From stdpp Require Import gmap.
From S2P Require Import Prelude DwarfRead DwarfCfa DwarfRows DwarfTable DwarfEntries Callchain.
From S2P Require Import EhRegions DwarfUnwind.
#[local] Open Scope Z_scope.

(** ** The caller's frame, by a row *)

Section reference.
Context `{Process}.
Context (w : row) (vma_sp : option vm_area) (f : stackframe).

(** The canonical frame address. *)
Definition row_cfa_value : outcome Z :=
  let '(r, off) := row_cfa w in
  if r <? 0 then mret (u64 (f_cfa f + off))
  else if 32 <=? r then Error (- QUADD_URC_TBL_IS_CORRUPT)
  else mret (u64 (vreg f r + off)).

(** A register saved relative to it is read from the stack; any other is kept. *)
Definition restored (cfa : Z) (r : nat) : outcome Z :=
  match row_rule w (Z.of_nat r) with
  | Offset n =>
      let addr := u64 (cfa + n) in
      if validate_stack_addr addr vma_sp 8 then read_user_data addr 8
      else Error (- QUADD_URC_SP_INCORRECT)
  | _ => mret (f_vregs f !!! r)
  end.

(** The caller's pc, frame address and registers. *)
Definition caller_frame : outcome (Z * Z * list Z) :=
  cfa ← row_cfa_value;
  regs ← mapM (restored cfa) (seq 0 32);
  let pc := regs !!! 30%nat in
  if validate_pc_addr pc 8 then mret (pc, cfa, <[31%nat := cfa]> regs)
  else Error (- QUADD_URC_PC_INCORRECT).
End reference.

(** ** Restoring the registers one by one *)

Section restore.
Context `{Process}.
Context (w : row) (vma_sp : option vm_area).

Definition set_vregs (l : list Z) (c : cpu_context) : cpu_context :=
  modify_sf (fun f => Frame (f_pc f) l (f_rs f) (f_rs_initial f) (f_cfa f) (f_mode f) (f_is_sched f)) c.

(** The registers before [i] do not matter for the others. *)
Lemma mapM_restored_ext cfa f f' n : forall i,
  (forall r, (i <= r)%nat -> f_vregs f !!! r = f_vregs f' !!! r) ->
  mapM (restored w vma_sp f cfa) (seq i n) = mapM (restored w vma_sp f' cfa) (seq i n).
Proof.
  induction n as [|n IH]; intros i E; [done|]. cbn [seq mapM].
  assert (restored w vma_sp f cfa i = restored w vma_sp f' cfa i) as ->
    by (unfold restored; by rewrite E by lia).
  destruct (restored _ _ _ _ _); cbn [mbind outcome_bind]; try done.
  by rewrite (IH (S i)) by (intros r Hr; apply E; lia).
Qed.

Lemma take_S_snoc i (l : list Z) v : (i < length l)%nat ->
  take (S i) (<[i := v]> l) = take i l ++ [v].
Proof.
  intros Hi. rewrite (take_S_r _ _ v) by (by apply list_lookup_insert_eq). f_equal.
  apply take_insert_ge. lia.
Qed.

Lemma restore_step n i c : rules_rel (f_rs (c_sf c)) (row_rule w) ->
  f_mode (c_sf c) = DW_MODE_ARM64 -> length (f_vregs (c_sf c)) = 32%nat -> (i < 32)%nat ->
  match restored w vma_sp (c_sf c) (f_cfa (c_sf c)) i with
  | Done v => restore_regs (S n) (Z.of_nat i) vma_sp c =
                restore_regs n (Z.of_nat (S i)) vma_sp (modify_sf (set_f_vreg (Z.of_nat i) v) c)
  | Error e => exists c', restore_regs (S n) (Z.of_nat i) vma_sp c = (Error e, c')
  | _ => False
  end.
Proof.
  intros Hw Hm Hl Hi. cbn [restore_regs]. rewrite Nat2Z.id, (Hw i) by lia.
  replace (Z.of_nat i + 1) with (Z.of_nat (S i)) by lia.
  assert (modify_sf (set_f_vreg (Z.of_nat i) (f_vregs (c_sf c) !!! i)) c = c) as Hkeep.
  { unfold modify_sf, set_sf, set_f_vreg. destruct c as [? ? [] ?]. cbn in *. rewrite Nat2Z.id.
    rewrite list_insert_id; [done|]. apply list_lookup_lookup_total_lt. lia. }
  unfold restored. destruct (row_rule w (Z.of_nat i)) as [| |o|o]; cbn [rule_info where_ loc];
    try (cbn [mret outcome_ret]; by rewrite Hkeep).
  assert (u64 (f_cfa (c_sf c) + u64 o) = u64 (f_cfa (c_sf c) + o)) as -> by apply Zplus_mod_idemp_r.
  rewrite Hm. change (get_user_reg_size DW_MODE_ARM64) with 8.
  destruct (validate_stack_addr _ _ _); cbn [negb]; [|by eexists].
  change (Z.to_nat 8) with 8%nat. unfold read_user_data.
  destruct (copy_from_user _ _); [done|by eexists].
Qed.

(** [n] registers are left, the first [i] done. *)
Lemma restore_regs_spec n : forall i c, rules_rel (f_rs (c_sf c)) (row_rule w) ->
  f_mode (c_sf c) = DW_MODE_ARM64 -> length (f_vregs (c_sf c)) = 32%nat -> (i + n = 32)%nat ->
  match mapM (restored w vma_sp (c_sf c) (f_cfa (c_sf c))) (seq i n) with
  | Done l => restore_regs n (Z.of_nat i) vma_sp c =
                (Done tt, set_vregs (take i (f_vregs (c_sf c)) ++ l) c)
  | Error e => exists c', restore_regs n (Z.of_nat i) vma_sp c = (Error e, c')
  | _ => False
  end.
Proof.
  induction n as [|n IH]; intros i c Hw Hm Hl Hi.
  { cbn [seq mapM mret outcome_ret restore_regs]. rewrite app_nil_r, take_ge by lia.
    unfold set_vregs, modify_sf, set_sf. by destruct c as [? ? [] ?]. }
  cbn [seq mapM].
  pose proof (restore_step n i c Hw Hm Hl ltac:(lia)) as Hstep.
  destruct (restored w vma_sp (c_sf c) (f_cfa (c_sf c)) i) as [v|e| |]; try done.
  cbn [mbind outcome_bind]. rewrite Hstep. clear Hstep.
  set (c1 := modify_sf (set_f_vreg (Z.of_nat i) v) c).
  specialize (IH (S i) c1 Hw Hm ltac:(cbn; by rewrite length_insert) ltac:(lia)).
  rewrite (mapM_restored_ext _ _ (c_sf c)) in IH.
  2: { intros r Hr. cbn. rewrite Nat2Z.id. apply list_lookup_total_insert_ne; lia. }
  change (f_cfa (c_sf c1)) with (f_cfa (c_sf c)) in IH.
  destruct (mapM _ _) as [l|e| |]; try done. cbn [mbind outcome_bind mret outcome_ret].
  rewrite IH. cbn [c_sf c1 modify_sf set_sf f_vregs set_f_vreg].
  change (f_vregs (c_sf c1)) with (<[Z.to_nat (Z.of_nat i) := v]> (f_vregs (c_sf c))).
  by rewrite Nat2Z.id, take_S_snoc, <- app_assoc by lia.
Qed.
End restore.

(** ** From the row on *)

Section finish.
Context `{Process}.
Context (w : row) (vma_sp : option vm_area).

Lemma def_cfa_spec f : row_rel (f_rs f) w -> length (f_vregs f) = 32%nat ->
  def_cfa f (f_rs f) = (cfa ← row_cfa_value w f; mret (set_f_cfa cfa f)).
Proof.
  intros [_ R2 R3] Hl. unfold def_cfa, row_cfa_value. rewrite R2, R3.
  destruct (row_cfa w) as [r off]; cbn [fst snd].
  assert (forall x, u64 (x + u64 off) = u64 (x + off)) as Hu by (intros; apply Zplus_mod_idemp_r).
  rewrite !Hu. change (Z.of_nat QUADD_NUM_REGS) with 32.
  destruct (Z.leb_spec 0 r), (Z.ltb_spec r 0); try lia; [|done].
  by destruct (Z.leb_spec 32 r).
Qed.

Lemma finish_spec c : row_rel (f_rs (c_sf c)) w -> f_mode (c_sf c) = DW_MODE_ARM64 ->
  length (f_vregs (c_sf c)) = 32%nat ->
  match caller_frame w vma_sp (c_sf c) with
  | Done (pc, cfa, regs) => exists c', unwind_finish vma_sp c = (Done tt, c') /\
      f_pc (c_sf c') = pc /\ f_cfa (c_sf c') = cfa /\ f_vregs (c_sf c') = regs
  | Error e => exists c', unwind_finish vma_sp c = (Error e, c')
  | _ => False
  end.
Proof.
  intros Hrow Hm Hl. unfold unwind_finish, caller_frame. rewrite (def_cfa_spec _ Hrow Hl).
  destruct (row_cfa_value w (c_sf c)) as [cfa|e| |] eqn:Ec; cbn [mbind outcome_bind mret outcome_ret].
  2: by eexists.
  2-3: revert Ec; unfold row_cfa_value; destruct (row_cfa w) as [r off];
       by destruct (r <? 0), (32 <=? r).
  set (f1 := set_f_cfa cfa (c_sf c)).
  pose proof (restore_regs_spec w vma_sp 32 0 (set_sf f1 c) (rr_rules _ _ Hrow) Hm Hl eq_refl) as Hr.
  cbn [c_sf set_sf f_cfa f1 set_f_cfa] in Hr. rewrite Hm.
  change (f_cfa f1) with cfa in Hr. change (num_regs DW_MODE_ARM64) with 32%nat.
  rewrite (mapM_restored_ext w vma_sp cfa f1 (c_sf c)) in Hr by done.
  change (Z.of_nat 0) with 0 in Hr. change (Z.of_nat 0) with 0.
  destruct (mapM _ _) as [l|e| |]; try done; cbn [mbind outcome_bind].
  - rewrite Hr. cbn [take app]. change (vreg (c_sf (set_vregs l (set_sf f1 c))) (regnum_lr DW_MODE_ARM64))
      with (l !!! 30%nat). change (get_user_reg_size DW_MODE_ARM64) with 8.
    destruct (validate_pc_addr _ _); cbn [negb]; [|by eexists].
    eexists. by split_and!.
  - destruct Hr as [c' ->]. by eexists.
Qed.
End finish.

(** ** The rows the instructions build *)

Section rules.
Context `{ShiftOps}.
Context (cfa_fuel : nat) (ri : ex_region_info) (is_eh : bool).
Hypothesis Hr : region_ok ri.
Let secid := get_secid_frame is_eh.

Definition code (is_ : list insn) : list Z := concat (map insn_enc is_).

(** The program at [start], none when that is zero. *)
Definition program (start len : Z) (is_ : list insn) : Prop :=
  if start =? 0 then is_ = []
  else len = zlen (code is_) /\ holds_at ri secid start (code is_) /\ Forall insn_ok is_ /\
       (length (code is_) < cfa_fuel)%nat.

(** The alignment factors of an entry. *)
Definition factors (cie : dw_cie) (caf daf : Z) : Prop :=
  code_align_factor cie = caf /\ 0 <= caf < 2 ^ 26 /\ data_align_factor cie = u64 daf.

(** The state of a frame whose rules are the row [w]. *)
Definition at_row (w : row) (loc : Z) (f0 : stackframe) (c0 c : cpu_context) : Prop :=
  row_rel (f_rs (c_sf c)) w /\ zlen (c_rs_stack c) = DW_MAX_RS_STACK_DEPTH /\
  c_sf c = set_f_rs (f_rs (c_sf c)) (f_rs_initial f0) (set_f_pc loc f0) /\
  c_ptr_size c = c_ptr_size c0.

Lemma exec_insns_row start len cie pc caf daf rules0 w is_ c : program start len is_ -> start <> 0 ->
  factors cie caf daf -> rules_rel (f_rs_initial (c_sf c)) rules0 -> row_rel (f_rs (c_sf c)) w ->
  zlen (c_rs_stack c) = DW_MAX_RS_STACK_DEPTH ->
  exists c', exec_insns cfa_fuel ri start (u64 (start + len)) cie pc is_eh c = (Done tt, c') /\
    let t := run_insns caf daf rules0 is_ pc (Table (f_pc (c_sf c)) w []) in
    at_row (t_row t) (t_loc t) (c_sf c) c c'.
Proof.
  intros Hp Hs0 (F1 & F2 & F3) H0 Hw Hst. unfold program in Hp.
  destruct (Z.eqb_spec start 0); [done|]. destruct Hp as (-> & Hb & Hok & Hf).
  assert (0 <= secid < 6) as Hsec by (unfold secid; destruct is_eh; cbv; split; congruence).
  assert (u64 (start + zlen (code is_)) = start + zlen (code is_)) as ->.
  { pose proof (section_range ri secid (ro_sections _ Hr _ Hsec)) as (R1 & R2 & R3).
    destruct Hb as (B1 & B2 & _). pose proof (zlen_nonneg (code is_)). apply u64_small. lia. }
  unfold exec_insns, dwarf_cfa_exec_insns. rewrite !bind_xmodify.
  set (s := CfaState 0 (f_pc (c_sf c)) (f_rs (c_sf c)) (c_depth c) (c_rs_stack c)).
  destruct (exec_loop_sim ri secid cie (f_rs_initial (c_sf c)) caf daf rules0
             (ro_sections _ Hr _ Hsec) (ro_lengths _ Hr _ Hsec) (conj F1 F2) F3 H0 pc is_ cfa_fuel
             (set_c_insn start (set_stack 0 (rs_stack s) s)) (Table (f_pc (c_sf c)) w []) Hok)
    as (s' & E & [L1 L2 L3 L4 L5]); [by split|done|done|].
  cbn [c_insn set_c_insn] in E. fold (code is_) in E. unfold secid in E. rewrite E.
  eexists. split; [done|]. cbv zeta. split_and!; cbn; try done. by rewrite L1.
Qed.

(** The row for [pc], and the location it starts at: the initial instructions on an
    empty row, then those of the function. *)
Definition frame_rows (caf daf : Z) (stale : Z -> rule) (off loc pc : Z) (is0 is1 : list insn)
    : table_state :=
  let t0 := run_insns caf daf stale is0 pc (Table loc (Row (fun _ => Undefined) (-1, off)) []) in
  run_insns caf daf (row_rule (t_row t0)) is1 pc (Table (t_loc t0) (t_row t0) []).

Lemma unwind_rules_row cie fde pc caf daf stale w is0 is1 c :
  program (initial_insn cie) (initial_insn_len cie) is0 ->
  program (instructions fde) (insn_length fde) is1 -> fde_cie fde = cie -> factors cie caf daf ->
  rules_rel (f_rs_initial (c_sf c)) stale -> row_rel (f_rs (c_sf c)) w ->
  zlen (c_rs_stack c) = DW_MAX_RS_STACK_DEPTH ->
  exists c', unwind_rules cfa_fuel ri cie fde pc is_eh c = (Done tt, c') /\
    let t0 := run_insns caf daf stale is0 pc (Table (f_pc (c_sf c)) w []) in
    let t := run_insns caf daf (row_rule (t_row t0)) is1 pc (Table (t_loc t0) (t_row t0) []) in
    row_rel (f_rs (c_sf c')) (t_row t) /\
    f_vregs (c_sf c') = f_vregs (c_sf c) /\ f_cfa (c_sf c') = f_cfa (c_sf c) /\
    f_mode (c_sf c') = f_mode (c_sf c).
Proof.
  intros P0 P1 Hcie Hf H0 Hw Hst. unfold unwind_rules. cbv zeta.
  set (t0 := run_insns caf daf stale is0 pc (Table (f_pc (c_sf c)) w [])).
  assert (exists c1, (if initial_insn cie =? 0 then (Done tt, c)
     else exec_insns cfa_fuel ri (initial_insn cie) (u64 (initial_insn cie + initial_insn_len cie))
            cie pc is_eh c) = (Done tt, c1) /\ at_row (t_row t0) (t_loc t0) (c_sf c) c c1)
    as (c1 & -> & (A1 & A2 & A3 & A4)).
  { destruct (Z.eqb_spec (initial_insn cie) 0) as [E|E].
    - exists c. split; [done|]. unfold program in P0. rewrite E in P0. cbn in P0. subst is0.
      split_and!; try done. by destruct c as [? ? [] ?].
    - by eapply exec_insns_row. }
  set (c2 := modify_sf (fun f => set_f_rs (f_rs f) (f_rs f) f) c1).
  assert (f_vregs (c_sf c1) = f_vregs (c_sf c) /\ f_cfa (c_sf c1) = f_cfa (c_sf c) /\
          f_mode (c_sf c1) = f_mode (c_sf c) /\ f_pc (c_sf c1) = t_loc t0) as (K1 & K2 & K3 & K4)
    by (rewrite A3; done).
  destruct (Z.eqb_spec (instructions fde) 0) as [E|E].
  - exists c2. split; [done|]. unfold program in P1. rewrite E in P1. cbn in P1. subst is1.
    by split_and!.
  - destruct (exec_insns_row _ _ cie pc caf daf (row_rule (t_row t0)) (t_row t0) is1 c2 P1 E Hf)
      as (c' & E' & (B1 & B2 & B3 & B4)); [apply A1|done|done|].
    rewrite Hcie. exists c'. split; [exact E'|]. cbn [c_sf c2 modify_sf set_sf f_pc set_f_rs] in *.
    change (f_pc (c_sf c2)) with (f_pc (c_sf c1)) in *. rewrite K4 in *.
    split; [exact B1|]. rewrite B3. by split_and!.
Qed.
End rules.

Lemma decode_fde_keeps_cie ri sz fde a l is_eh fde' `{ShiftOps} :
  decode_fde_entry ri sz fde a l is_eh = Done fde' -> fde_cie fde' = fde_cie fde.
Proof.
  unfold decode_fde_entry. intros E. inv_bind E. destruct x as [loc cnt].
  destruct (cnt <? 0); [done|]. inv_bind E. inv_bind E. destruct (_ <? _); [done|]. by inv_done.
Qed.

Lemma dwarf_decode_cie ri sz pc store is_eh cie0 cie fde tails `{ShiftOps} :
  dwarf_decode ri sz pc store is_eh cie0 = (Done (cie, fde), tails) -> fde_cie fde = cie.
Proof.
  unfold dwarf_decode. destruct (dwarf_find_fde _ _ _ _ _ _ _ _) as [[p t]|e| |]; intros E; try done.
  injection E as E _. destruct (p =? 0); [done|]. inv_bind E. destruct x as [cie1 fde1].
  destruct (_ || _); [done|]. inv_done. unfold dwarf_decode_fde_cie in E0.
  inv_bind E0. destruct (_ =? _); [done|]. inv_bind E0. inv_bind E0. destruct (_ =? _); [done|].
  inv_bind E0. inv_bind E0. inv_done. by match goal with Hd : decode_fde_entry _ _ _ _ _ _ = _ |- _ =>
    apply decode_fde_keeps_cie in Hd end.
Qed.

Lemma cleanup_from_spec n : forall i rs, length (reg rs) = 32%nat -> (i + n <= 32)%nat ->
  exists rs', rules_cleanup_from n i rs = Done rs' /\
  cfa_register rs' = cfa_register rs /\ cfa_offset rs' = cfa_offset rs /\
  forall r : nat, reg rs' !! r =
    if decide (i <= r < i + n)%nat then Some (RegInfo DW_WHERE_UNDEF 0) else reg rs !! r.
Proof.
  induction n as [|n IH]; intros i rs Hl Hi; cbn [rules_cleanup_from].
  { exists rs. split_and!; try done. intros r. by rewrite decide_False by lia. }
  unfold set_rule, set_rule_offset, validate_regnum, set_reg, zlen.
  rewrite sw_small, u64_small, Hl by lia.
  change (Z.of_nat QUADD_NUM_REGS) with 32. change (Z.of_nat 32) with 32.
  destruct (Z.ltb_spec (Z.of_nat i) 32); [|lia]. destruct (Z.leb_spec 0 (Z.of_nat i)); [|lia].
  cbn [negb andb mbind outcome_bind].
  destruct (IH (S i) (put_reg (Z.of_nat i) (RegInfo DW_WHERE_UNDEF 0) rs)) as (rs' & E & A & B & C);
    [cbn; by rewrite length_insert|lia|].
  exists rs'. split; [exact E|]. split; [exact A|]. split; [exact B|].
  intros r. rewrite C. cbn [reg put_reg]. rewrite Nat2Z.id.
  repeat case_decide; try lia; try done.
  - assert (r = i) as -> by lia. apply list_lookup_insert_eq. lia.
  - by rewrite list_lookup_insert_ne by lia.
Qed.

Lemma cleanup_row rs : rs_ok rs -> 0 <= cfa_offset rs < 2 ^ 64 -> exists rs',
  rules_cleanup DW_MODE_ARM64 (set_cfa_register (-1) rs) = Done rs' /\
  row_rel rs' (Row (fun _ => Undefined) (-1, cfa_offset rs)).
Proof.
  intros [Hl] Hoff. unfold rules_cleanup. change (num_regs DW_MODE_ARM64) with 32%nat.
  destruct (cleanup_from_spec 32 0 (set_cfa_register (-1) rs) Hl ltac:(lia)) as (rs' & E & A & B & C).
  exists rs'. split; [exact E|]. split; [|exact A|].
  - intros r Hlt. rewrite C. by rewrite decide_True by lia.
  - rewrite B. cbn. by rewrite u64_small by lia.
Qed.

Lemma caller_frame_ext `{Process} w vma_sp f f' : f_vregs f = f_vregs f' -> f_cfa f = f_cfa f' ->
  caller_frame w vma_sp f = caller_frame w vma_sp f'.
Proof.
  intros Ev Ec. unfold caller_frame.
  assert (row_cfa_value w f = row_cfa_value w f') as ->
    by (unfold row_cfa_value, vreg; by rewrite Ev, Ec).
  destruct (row_cfa_value w f') as [cfa|e| |]; cbn [mbind outcome_bind];
    [|reflexivity..].
  assert (mapM (restored w vma_sp f cfa) (seq 0 32) = mapM (restored w vma_sp f' cfa) (seq 0 32)) as E.
  { apply mapM_restored_ext. intros r _. by rewrite Ev. }
  rewrite E. reflexivity.
Qed.

(** C8. One step recovers the caller's frame. When the entries for the pc decode to
    the programs [is0] and [is1], the step returns what the row of the standard says:
    the frame address, the registers saved relative to it read from the stack, and
    the return address; it fails exactly when the row's frame address, one of these
    reads or the return address is refused, with that code. *)
Theorem unwind_frame_row `{ShiftOps} `{Process} cfa_fuel cie0 ri vma_sp is_eh c cie fde tails
    caf daf stale is0 is1 :
  region_ok ri -> f_mode (c_sf c) = DW_MODE_ARM64 -> length (f_vregs (c_sf c)) = 32%nat ->
  rs_ok (f_rs (c_sf c)) -> 0 <= cfa_offset (f_rs (c_sf c)) < 2 ^ 64 ->
  zlen (c_rs_stack c) = DW_MAX_RS_STACK_DEPTH -> rules_rel (f_rs_initial (c_sf c)) stale ->
  dwarf_decode ri (c_ptr_size c) (f_pc (c_sf c)) (negb (f_is_sched (c_sf c))) is_eh cie0 =
    (Done (cie, fde), tails) ->
  program cfa_fuel ri is_eh (initial_insn cie) (initial_insn_len cie) is0 ->
  program cfa_fuel ri is_eh (instructions fde) (insn_length fde) is1 -> factors cie caf daf ->
  let t := frame_rows caf daf stale (cfa_offset (f_rs (c_sf c))) (initial_location fde)
             (f_pc (c_sf c)) is0 is1 in
  exists r c', unwind_frame cfa_fuel cie0 ri vma_sp is_eh c = (r, c', tails) /\
    match caller_frame (t_row t) vma_sp (c_sf c) with
    | Done (pc, cfa, regs) => r = Done tt /\
        f_pc (c_sf c') = pc /\ f_cfa (c_sf c') = cfa /\ f_vregs (c_sf c') = regs
    | Error e => r = Error e
    | _ => False
    end.
Proof.
  intros Hr Hm Hl Hrs Hoff Hst Hstale Hdec P0 P1 Hf t. unfold unwind_frame. rewrite Hdec, Hm.
  destruct (cleanup_row _ Hrs Hoff) as (rs & -> & Hrow). cbv zeta.
  set (c1 := set_sf _ c).
  destruct (unwind_rules_row cfa_fuel ri is_eh Hr cie fde (f_pc (c_sf c)) caf daf stale
              (Row (fun _ => Undefined) (-1, cfa_offset (f_rs (c_sf c)))) is0 is1 c1
              P0 P1 (dwarf_decode_cie _ _ _ _ _ _ _ _ _ Hdec) Hf)
    as (c2 & -> & Hrow2 & V & C & M); [|exact Hrow|done|].
  { intros i Hi. cbn. by apply Hstale. }
  change (row_rel (f_rs (c_sf c2)) (t_row t)) in Hrow2.
  cbn [c_sf c1 set_sf] in V, C, M. 
  pose proof (finish_spec (t_row t) vma_sp c2 Hrow2 ltac:(by rewrite M) ltac:(by rewrite V)) as Hfin.
  rewrite (caller_frame_ext _ _ (c_sf c2) (c_sf c) V C) in Hfin.
  destruct (caller_frame _ _ _) as [[[pc cfa] regs]|e| |]; try done.
  - destruct Hfin as (c' & -> & Hc). by exists (Done tt), c'.
  - destruct Hfin as (c' & ->). by exists (Error e), c'.
Qed.

(** ** The first step of the example of DwarfUnwind.v *)

Definition first_cpu : cpu_context := start_frame walk_event walk_regs example_chain walk_cpu.
Definition first_region : ex_region_info := example_region example_frame walk_hdr.
Definition first_decoded : outcome (dw_cie * dw_fde) * list tail_info :=
  @dwarf_decode example_shifts first_region 8 0x441010 true true example_cie.
Definition decoded_cie : dw_cie := match first_decoded.1 with Done (cie, _) => cie | _ => example_cie end.
Definition decoded_fde : dw_fde :=
  match first_decoded.1 with Done (_, fde) => fde | _ => Fde 0 0 0 example_cie 0 0 0 0 end.
Definition decoded_is0 : list insn := [I_def_cfa 31 0].
Definition decoded_is1 : list insn :=
  [I_advance_loc 1; I_def_cfa_offset 16; I_offset 29 2; I_offset 30 1].

Definition program_bool (fuel : nat) (ri : ex_region_info) (is_eh : bool) (start len : Z)
    (is_ : list insn) : bool :=
  negb (start =? 0) && (len =? zlen (code is_)) &&
  holds_bool ri (get_secid_frame is_eh) start (code is_) && (length (code is_) <? fuel)%nat.
Lemma program_dec fuel ri is_eh start len is_ : program_bool fuel ri is_eh start len is_ = true ->
  Forall insn_ok is_ -> program fuel ri is_eh start len is_.
Proof.
  unfold program_bool, program. destruct (start =? 0); [done|]. cbn [negb andb].
  rewrite !andb_true_iff, Z.eqb_eq, Nat.ltb_lt. intros [[E Hh] Hl] Hok.
  split_and!; try done. by apply holds_dec.
Qed.

Lemma unwind_frame_row_witness :
  exists r c', @unwind_frame example_shifts walk_process 20 example_cie first_region
      (@find_vma walk_process example_stack_base) true first_cpu = (r, c', first_decoded.2) /\
    r = Done tt /\ f_pc (c_sf c') = 0x441008 /\ f_cfa (c_sf c') = example_stack_base + 16.
Proof.
  destruct (@unwind_frame_row example_shifts walk_process 20 example_cie first_region
              (@find_vma walk_process example_stack_base) true first_cpu decoded_cie decoded_fde
              first_decoded.2 4 (-8) (fun _ => Undefined) decoded_is0 decoded_is1)
    as (r & c' & E & Hr).
  - by apply example_region_ok.
  - reflexivity.
  - reflexivity.
  - exact example_rs_ok.
  - split; [reflexivity|]. by vm_compute.
  - reflexivity.
  - intros i Hi. by apply lookup_replicate.
  - by vm_compute.
  - apply program_dec; [by vm_compute|repeat constructor; by vm_compute].
  - apply program_dec; [by vm_compute|repeat constructor; by vm_compute].
  - repeat split; by vm_compute.
  - exists r, c'. split; [exact E|].
    set (o := caller_frame _ _ _) in Hr.
    assert (match o with Done (pc, cfa, _) => (pc =? 0x441008) && (cfa =? example_stack_base + 16)
            | _ => false end = true) as Ho by by vm_compute.
    clearbody o. destruct o as [[[pc cfa] regs]|e| |]; try discriminate Ho.
    apply andb_true_iff in Ho as [Hp Hc]. apply Z.eqb_eq in Hp, Hc. subst.
    destruct Hr as (R1 & R2 & R3 & _). split; [exact R1|]. split; [exact R2|exact R3].
Defined.
