(* ===== verification/DwarfWalk.v ===== *)
(** * The walk ends, climbs the stack and gives back its references

    What holds of unwind_backtrace and quadd_get_user_cc_dwarf (DwarfUnwind.v)
    whatever the tables contain. *)

From stdpp Require Import gmap.
From S2P Require Import Prelude DwarfRead DwarfCfa DwarfTable Callchain EhRegions DwarfUnwind.
#[local] Open Scope Z_scope.

Definition dwarf_types : list Z := [QUADD_UNW_TYPE_DWARF_EH; QUADD_UNW_TYPE_DWARF_DF].

(** The stack pointer of the frame the walk has come to. *)
Definition sp_of (b : walk) : Z :=
  let f := c_sf (b_cpu b) in vreg f (regnum_sp (f_mode f)).

Section walk.
Context `{ShiftOps} `{Process}.
Context (cfa_fuel : nat) (cie0 : dw_cie) (alloc_tail : tail_info -> bool).
Context (vma_sp : option vm_area).
Hypothesis Htask : 8 <= TASK_SIZE < 2 ^ 64.
Abbreviation body := (walk_body cfa_fuel cie0 alloc_tail vma_sp).
Abbreviation loop := (fun n => walk_loop cfa_fuel cie0 alloc_tail n vma_sp).

(** ** One round *)

Lemma same_urc u cc : same_chain cc (set_urc_dwarf u cc).
Proof. done. Qed.

Lemma switch_same vma b go b' : switch_region vma b = Done (go, b') ->
  same_chain (b_cc b) (b_cc b') /\ b_cpu b' = b_cpu b.
Proof.
  unfold switch_region. intros E. destruct (is_vma_addr _ _ _); [by inv_done|].
  inv_bind E. inv_bind E. destruct x0 as [g w]. by destruct g; inv_done.
Qed.

Lemma walk_frame_same b err b' : walk_frame cfa_fuel cie0 alloc_tail vma_sp b = Done (err, b') ->
  b_cc b' = b_cc b.
Proof.
  unfold walk_frame. intros E. inv_bind E.
  destruct (unwind_frame _ _ _ _ _ _) as [[r c] tails]. inv_bind E.
  by destruct r; inv_done.
Qed.

Lemma try_frames_same both b err b' :
  try_frames cfa_fuel cie0 alloc_tail both vma_sp b = Done (err, b') -> b_cc b' = b_cc b.
Proof.
  unfold try_frames. intros E. inv_bind E. destruct x as [[e|] b1].
  - apply walk_frame_same in E0. destruct both; [|by inv_done].
    apply walk_frame_same in E. cbn in E. congruence.
  - apply walk_frame_same in E0. by inv_done.
Qed.

Lemma record_frame_spec sp b : cc_ok (b_cc b) ->
  exists go b', record_frame sp b = Done (go, b') /\ extends dwarf_types (b_cc b) (b_cc b') /\
    b_w b' = b_w b /\ b_prev b' = b_prev b /\
    (go = true -> nr (b_cc b') = nr (b_cc b) + 1 /\ curr_sp (b_cc b') = sp_of b' /\
                  sp <= sp_of b' /\ (0 < nr (b_cc b) -> sp < sp_of b')).
Proof.
  intros Hok. unfold record_frame. set (f := c_sf (b_cpu b)). set (curr := vreg f _).
  set (cc := set_curr _ _ _ _ _ _).
  assert (same_chain (b_cc b) cc) as Hs by done.
  pose proof (same_chain_ok _ _ Hs Hok) as Hok1.
  destruct (negb _) eqn:Est.
  { eexists false, _. split; [done|]. split; [|done]. by apply same_extends. }
  destruct (store_extends dwarf_types cc (f_pc f)
    (if b_is_eh b then QUADD_UNW_TYPE_DWARF_EH else QUADD_UNW_TYPE_DWARF_DF)) as (n & cc' & -> & Hex & Hnr & Hsp & Hn);
    [done..|by destruct (b_is_eh b)|by destruct (b_is_eh b); repeat constructor|].
  eexists _, _. split; [done|]. cbn [b_cc set_cc b_w b_prev]. split.
  - apply (extends_trans _ _ cc); [apply Hok|by apply same_extends|done].
  - split; [done|]. split; [done|]. intros Hgo. destruct Hn as [-> | ->]; [done|].
    split; [exact Hnr|]. split; [exact Hsp|].
    change (sp_of _) with curr. change (nr cc) with (nr (b_cc b)) in *.
    destruct (Z.ltb_spec 0 (nr (b_cc b))); cbn [negb] in Est.
    + destruct (Z.ltb_spec sp curr); [lia|done].
    + destruct (Z.leb_spec sp curr); [lia|done].
Qed.

(** A round leaves the addresses alone, or ends the walk after adding one, or adds
    one above the last and goes on. *)
Lemma walk_body_spec b go b' : body b = Done (go, b') -> cc_ok (b_cc b) ->
  extends dwarf_types (b_cc b) (b_cc b') /\
  (go = true -> nr (b_cc b') = nr (b_cc b) + 1 /\ curr_sp (b_cc b') = sp_of b' /\
                sp_of b <= sp_of b' /\ (0 < nr (b_cc b) -> sp_of b < sp_of b')).
Proof.
  intros E Hok. pose proof (extends_refl dwarf_types _ Hok) as Hrefl. unfold walk_body in E.
  destruct (negb task_mm); [by inv_done|].
  destruct (negb _); [by inv_done; split; [apply same_extends|]|].
  destruct (find_vma _) as [vma_pc|]; [|by inv_done].
  inv_bind E. destruct x as [ok b1]. apply switch_same in E0 as [S1 S2].
  pose proof (same_chain_ok _ _ S1 Hok) as Hok1. pose proof (same_extends dwarf_types _ _ Hok S1) as X1.
  destruct (negb ok); [by inv_done|]. inv_bind E. inv_bind E. destruct x0 as [e d].
  destruct (negb _); [by inv_done; split; [apply same_extends|]|].
  inv_bind E. destruct x0 as [err b2]. apply try_frames_same in E2.
  change (b_cc (set_is_eh _ b1)) with (b_cc b1) in E2.
  assert (same_chain (b_cc b) (b_cc b2)) as S3 by (rewrite E2; exact S1).
  pose proof (same_chain_ok _ _ S3 Hok) as Hok2. pose proof (same_extends dwarf_types _ _ Hok S3) as X2.
  destruct err as [err|]; [by inv_done; split; [apply same_extends|]|].
  destruct (record_frame_spec (sp_of b) b2 Hok2) as (go' & b3 & E3 & Hex & _ & _ & Hgo).
  unfold sp_of at 1 in E3. rewrite E3 in E. injection E as <- <-. split.
  - by apply (extends_trans _ _ (b_cc b2)); [apply Hok|..].
  - assert (nr (b_cc b2) = nr (b_cc b)) as En by apply S3. by rewrite <- En.
Qed.

(** ** The walk *)

Lemma rounds_spec b n b' : rounds body b n b' -> cc_ok (b_cc b) ->
  extends dwarf_types (b_cc b) (b_cc b') /\ nr (b_cc b') = nr (b_cc b) + Z.of_nat n /\
  sp_of b + Z.of_nat n - 1 <= sp_of b' /\ (0 < nr (b_cc b) \/ n = 0%nat -> sp_of b + Z.of_nat n <= sp_of b').
Proof.
  intros Hr Hok. induction Hr as [|n b1 b2 Hr (I1 & I2 & I3 & I4) E].
  { split; [by apply extends_refl|]. split; [lia|]. split; [lia|]. intros _. lia. }
  destruct (walk_body_spec b1 true b2 E (ex_ok _ _ _ I1)) as [Hex Hgo].
  destruct (Hgo eq_refl) as (G1 & G2 & G3 & G4). pose proof (co_nr _ Hok).
  split; [apply (extends_trans _ _ (b_cc b1)); [lia|done..]|]. split; [lia|].
  destruct (Z.ltb_spec 0 (nr (b_cc b1))) as [Hp|Hp].
  - specialize (G4 Hp). split; [lia|]. intros [Hc|?]; [|lia]. specialize (I4 (or_introl Hc)). lia.
  - assert (n = 0%nat) as -> by lia. specialize (I4 (or_intror eq_refl)).
    split; [lia|]. intros [?|?]; lia.
Qed.


Lemma body_extends b go b' : body b = Done (go, b') -> cc_ok (b_cc b) ->
  extends dwarf_types (b_cc b) (b_cc b') /\ (go = true -> nr (b_cc b) < nr (b_cc b')).
Proof.
  intros E Hok. destruct (walk_body_spec b go b' E Hok) as [X Hgo]. split; [done|].
  intros Hg. destruct (Hgo Hg). lia.
Qed.

(** The walk ends by itself. The bound on its rounds is never what stops it: it
    returns after a round that breaks out of the loop, and the chain it returns is the
    old one with accepted addresses appended; otherwise some round within the bound
    did not return. *)
Theorem walk_ends b : cc_ok (b_cc b) ->
  match loop walk_fuel b with
  | Done b' => extends dwarf_types (b_cc b) (b_cc b') /\
               exists n b1, rounds body b n b1 /\ body b1 = Done (false, b')
  | Timeout => exists n b1, rounds body b n b1 /\ body b1 = Timeout
  | Faulty site => exists n b1, rounds body b n b1 /\ body b1 = Faulty site
  | Error e => exists n b1, rounds body b n b1 /\ body b1 = Error e
  end.
Proof.
  intros Hok. exact (chain_loop_ends body b_cc dwarf_types body_extends b walk_fuel Hok ltac:(done)).
Qed.
End walk.

(** ** References

    What the walk holds, besides the caller's reference, is given back by
    [put_prev]; giving back leaves the areas as they were at the start. *)

Section references.
Context `{ShiftOps} `{Process}.
Context (cfa_fuel : nat) (cie0 : dw_cie) (alloc_tail : tail_info -> bool).

Lemma store_tails_same l : forall w w', store_tails alloc_tail l w = Done w' -> same_areas w w'.
Proof.
  induction l as [|[[[start secid] s] e] l IH]; intros w w' E; cbn [store_tails] in E; [by inv_done|].
  inv_bind E. apply IH in E. unfold same_areas in *. rewrite E. clear E IH.
  unfold quadd_unwind_set_tail_info in E0. destruct (w_rd w) as [rd|]; [|by inv_done].
  destruct (rd_nr rd =? 0); [by inv_done|]. destruct (negb _); [by inv_done|].
  inv_bind E0. inv_bind E0. destruct x1; [|by inv_done]. inv_bind E0. inv_bind E0. by inv_done.
Qed.

Definition balanced (w0 : world) (b : walk) : Prop := holding w0 (b_prev b) (b_w b).

Lemma balanced_same w0 b b' : balanced w0 b -> b_prev b' = b_prev b -> same_areas (b_w b) (b_w b') ->
  balanced w0 b'.
Proof. unfold balanced. intros Hb -> Hs. by apply (holding_same w0 _ (b_w b)). Qed.

Lemma switch_balanced w0 vma b go b' : switch_region vma b = Done (go, b') -> balanced w0 b ->
  balanced w0 b'.
Proof.
  unfold switch_region. intros E Hb. destruct (is_vma_addr _ _ _); [by inv_done|].
  inv_bind E. inv_bind E. destruct x0 as [g w1].
  pose proof (holding_switch _ _ _ _ _ _ _ _ Hb E0 E1). by destruct g; inv_done.
Qed.

Lemma walk_frame_keeps vma_sp b err b' : walk_frame cfa_fuel cie0 alloc_tail vma_sp b = Done (err, b') ->
  b_prev b' = b_prev b /\ same_areas (b_w b) (b_w b').
Proof.
  unfold walk_frame. intros E. inv_bind E.
  destruct (unwind_frame _ _ _ _ _ _) as [[r c] tails]. inv_bind E. apply store_tails_same in E1.
  by destruct r; inv_done.
Qed.

Lemma try_frames_keeps both vma_sp b err b' :
  try_frames cfa_fuel cie0 alloc_tail both vma_sp b = Done (err, b') ->
  b_prev b' = b_prev b /\ same_areas (b_w b) (b_w b').
Proof.
  unfold try_frames. intros E. inv_bind E. destruct x as [[e|] b1].
  - apply walk_frame_keeps in E0 as [P1 S1]. destruct both; [|by inv_done].
    apply walk_frame_keeps in E as [P2 S2]. cbn in P2, S2. split; [congruence|by etrans].
  - apply walk_frame_keeps in E0. by inv_done.
Qed.

Lemma record_keeps sp b go b' : record_frame sp b = Done (go, b') ->
  b_prev b' = b_prev b /\ same_areas (b_w b) (b_w b').
Proof.
  unfold record_frame. intros E. destruct (negb _); [by inv_done|]. inv_bind E.
  destruct x as [n cc]. by inv_done.
Qed.

Lemma body_balanced w0 vma_sp b go b' :
  walk_body cfa_fuel cie0 alloc_tail vma_sp b = Done (go, b') -> balanced w0 b -> balanced w0 b'.
Proof.
  unfold walk_body. intros E Hb. destruct (negb task_mm); [by inv_done|].
  destruct (negb _); [by inv_done|]. destruct (find_vma _) as [vma|]; [|by inv_done].
  inv_bind E. destruct x as [ok b1]. apply (switch_balanced w0) in E0; [|done].
  destruct (negb ok); [by inv_done|]. inv_bind E. inv_bind E. destruct x0 as [e d].
  destruct (negb _); [by inv_done|]. inv_bind E. destruct x0 as [err b2].
  apply try_frames_keeps in E3 as [P2 S2]. pose proof (balanced_same w0 b1 b2 E0 P2 S2) as Hb2.
  destruct err; [by inv_done|]. apply record_keeps in E as [P3 S3].
  by apply (balanced_same w0 b2).
Qed.

Lemma unwind_backtrace_areas cc x vma_sp c w cc' c' w' :
  unwind_backtrace cfa_fuel cie0 alloc_tail cc x vma_sp c w = Done (cc', c', w') -> same_areas w w'.
Proof.
  unfold unwind_backtrace. intros E. inv_bind E.
  apply (chain_loop_keeps _ (balanced w)) in E0; [|intros b go b'; apply body_balanced|by exists w].
  destruct E0 as (w1 & E1 & Hs). rewrite E1 in E. by inv_done.
Qed.

(** Every reference is given back. Whatever regions the walk goes through and
    however it ends, it leaves the state and the reference count of every area as
    they were. *)
Lemma dwarf_gives_back ev cc c w n cc' c' w' :
  quadd_get_user_cc_dwarf cfa_fuel cie0 alloc_tail ev cc c w = Done (n, cc', c', w') ->
  w_areas w' = w_areas w.
Proof.
  unfold quadd_get_user_cc_dwarf. intros E. destruct (ev_regs ev) as [r|]; [|by inv_done].
  destruct task_mm; [|by inv_done]. destruct (_ =? _); [by inv_done|].
  destruct (find_vma _) as [vma|]; [|by inv_done]. destruct (find_vma _) as [vma_sp|]; [|by inv_done].
  inv_bind E. destruct x as [[e|x] w1].
  { apply get_none_same in E0 as ->. by inv_done. }
  destruct (get_put_same _ _ _ _ _ E0) as (w2 & E2 & Hs2). inv_bind E. destruct x0 as [[cc1 c1] w3].
  apply unwind_backtrace_areas in E1. destruct (put_same _ _ _ _ E1 E2) as (w4 & E4 & Hs4).
  rewrite E4 in E. cbn [mbind outcome_bind] in E. inv_done. change (same_areas w w'). by etrans.
Qed.

Lemma dwarf_exist_gives_back ev addr sz w r w' :
  quadd_is_ex_entry_exist_dwarf cie0 ev addr sz w = Done (r, w') -> same_areas w w'.
Proof.
  unfold quadd_is_ex_entry_exist_dwarf. intros E. destruct (ev_regs ev); [|by inv_done].
  destruct task_mm; [|by inv_done]. destruct (find_vma _); [|by inv_done].
  inv_bind E. destruct x as [[e|x] w1].
  { apply get_none_same in E0 as ->. by inv_done. }
  destruct (get_put_same _ _ _ _ _ E0) as (w2 & E2 & Hs2). inv_bind E. inv_bind E. destruct x1 as [a b].
  rewrite E2 in E. cbn [mbind outcome_bind] in E. by inv_done.
Qed.

Lemma backtrace_extends cc x vma_sp c w cc' c' w' :
  unwind_backtrace cfa_fuel cie0 alloc_tail cc x vma_sp c w = Done (cc', c', w') ->
  8 <= TASK_SIZE < 2 ^ 64 -> cc_ok cc -> extends dwarf_types cc cc'.
Proof.
  unfold unwind_backtrace. intros E Ht Hok. set (b := Walk _ _ _ _ _ _) in *. inv_bind E. inv_bind E.
  unfold mret, outcome_ret in E. injection E as <- _ _.
  assert (same_chain cc (b_cc b)) as Hs by done. pose proof (same_chain_ok _ _ Hs Hok) as Hb.
  pose proof (chain_loop_ends _ b_cc dwarf_types (body_extends cfa_fuel cie0 alloc_tail vma_sp Ht) b
                walk_fuel Hb ltac:(done)) as Hl.
  unfold walk_loop in E0. rewrite E0 in Hl. apply (extends_trans _ _ (b_cc b)); [apply Hok| |apply Hl].
  by apply same_extends.
Qed.

(** The chain that is returned is the old one with accepted addresses appended. *)
Lemma dwarf_extends ev cc c w n cc' c' w' : 8 <= TASK_SIZE < 2 ^ 64 -> cc_ok cc ->
  quadd_get_user_cc_dwarf cfa_fuel cie0 alloc_tail ev cc c w = Done (n, cc', c', w') ->
  extends dwarf_types cc cc'.
Proof.
  intros Ht Hok. unfold quadd_get_user_cc_dwarf. intros E. pose proof (extends_refl dwarf_types _ Hok) as Hr.
  destruct (ev_regs ev) as [r|]; [|by inv_done]. destruct task_mm; [|by inv_done].
  destruct (_ =? _); [by inv_done|]. set (cc1 := set_urc_dwarf QUADD_URC_FAILURE cc) in *.
  assert (extends dwarf_types cc cc1) as H1 by by apply same_extends.
  destruct (find_vma _) as [vma|]; [|by inv_done]. destruct (find_vma _) as [vma_sp|]; [|by inv_done].
  inv_bind E. destruct x as [[e|x] w1]; [inv_done; by apply same_extends|].
  inv_bind E. destruct x0 as [[cc2 c2] w2]. apply backtrace_extends in E1; [|done|by apply (same_chain_ok cc)].
  inv_bind E. inv_done. apply (extends_trans _ _ cc1); [apply Hok|done|done].
Qed.
End references.

(** ** The example of DwarfUnwind.v *)

Definition example_vma_sp : option vm_area := @find_vma walk_process example_stack_base.
(** Where quadd_get_user_cc_dwarf begins to walk. *)
Definition example_walk : walk :=
  match quadd_get_dw_frames 0x400000 walk_world with
  | Done (inr x, w) =>
      Walk w (set_urc_dwarf QUADD_URC_FAILURE example_chain)
        (start_frame walk_event walk_regs example_chain walk_cpu) x None true
  | _ => Walk walk_world example_chain walk_cpu zero_region None true
  end.
Definition example_body : walk -> outcome (bool * walk) :=
  @walk_body example_shifts walk_process 20 example_cie (fun _ => true) example_vma_sp.
(** The state after a round that goes on. *)
Definition next (b : walk) : walk := match example_body b with Done (true, b) => b | _ => b end.

Lemma example_walk_ok : cc_ok (b_cc example_walk).
Proof. apply (same_chain_ok example_chain); [by vm_compute|exact example_chain_ok]. Qed.
Lemma example_task : 8 <= @TASK_SIZE walk_process < 2 ^ 64.
Proof. cbn. lia. Qed.

Definition goes_on (b : walk) : bool :=
  match example_body b with Done (go, _) => go | _ => false end.
Lemma goes_on_next b : goes_on b = true -> example_body b = Done (true, next b).
Proof.
  unfold goes_on, next. destruct (example_body b) as [[go b']|e| |]; try done. by intros ->.
Qed.


Lemma walk_ends_witness :
  match @walk_loop example_shifts walk_process 20 example_cie (fun _ => true) walk_fuel example_vma_sp
          example_walk with
  | Done b' => @extends walk_process dwarf_types (b_cc example_walk) (b_cc b') /\ nr (b_cc b') = 2
  | _ => False
  end.
Proof.
  pose proof (@walk_ends example_shifts walk_process 20 example_cie (fun _ => true) example_vma_sp
                example_task example_walk example_walk_ok) as Hw.
  assert (match @walk_loop example_shifts walk_process 20 example_cie (fun _ => true) walk_fuel
                  example_vma_sp example_walk with Done b' => nr (b_cc b') =? 2 | _ => false end = true)
    as Hn by by vm_compute.
  cbv beta in *. destruct (walk_loop _ _ _ _ _ _) as [b'|e| |]; try discriminate Hn.
  split; [exact (proj1 Hw)|]. by apply Z.eqb_eq.
Defined.
