(* ===== verification/Disasm.v ===== *)
(** * The prologue disassembler (drivers/misc/tegra-profiler/disassembler.c)

    Looks at the first instructions of a function for what its prologue pushes and
    subtracts, so that the result of an unwind step can be checked against it.
    Built without QM_DEBUG_DISASSEMBLER. *)

From S2P Require Import Prelude DwarfRead Callchain.

Definition QUADD_URC_UNWIND_MISMATCH : Z := 16.
Definition QUADD_DISASM_MAX : Z := 128.
Definition QUADD_DISASM_MIN : Z := 16.

(** struct quadd_disasm_data *)
Record quadd_disasm_data := Disasm {
  qd_thumb : bool; qd_min : Z; qd_max : Z; r_regset : Z; d_regset : Z;
  stacksize : Z; stackreg : Z; stackoff : Z; ustackreg : Z;
}.
Definition set_max (m : Z) (q : quadd_disasm_data) : quadd_disasm_data :=
  Disasm (qd_thumb q) (qd_min q) m (r_regset q) (d_regset q) (stacksize q) (stackreg q) (stackoff q)
    (ustackreg q).
Definition set_regset (r : Z) (q : quadd_disasm_data) : quadd_disasm_data :=
  Disasm (qd_thumb q) (qd_min q) (qd_max q) r (d_regset q) (stacksize q) (stackreg q) (stackoff q)
    (ustackreg q).
Definition set_d_regset (d : Z) (q : quadd_disasm_data) : quadd_disasm_data :=
  Disasm (qd_thumb q) (qd_min q) (qd_max q) (r_regset q) d (stacksize q) (stackreg q) (stackoff q)
    (ustackreg q).
Definition set_stacksize (s : Z) (q : quadd_disasm_data) : quadd_disasm_data :=
  Disasm (qd_thumb q) (qd_min q) (qd_max q) (r_regset q) (d_regset q) s (stackreg q) (stackoff q)
    (ustackreg q).
Definition set_stackreg (r off : Z) (q : quadd_disasm_data) : quadd_disasm_data :=
  Disasm (qd_thumb q) (qd_min q) (qd_max q) (r_regset q) (d_regset q) (stacksize q) r off
    (ustackreg q).
Definition set_ustackreg (r : Z) (q : quadd_disasm_data) : quadd_disasm_data :=
  Disasm (qd_thumb q) (qd_min q) (qd_max q) (r_regset q) (d_regset q) (stacksize q) (stackreg q)
    (stackoff q) r.

(** The bits of [val] under a mask, compared. *)
Definition bits_are (val mask bits : Z) : bool := Z.land val mask =? bits.
(** (val >> n) & m *)
Definition field (val n m : Z) : Z := Z.land (Z.shiftr val n) m.

Section disasm.
Context `{ShiftOps} `{Process}.

(** An unsigned int shifted. *)
Definition uint_shl (x n : Z) : Z := u32 (if n <? 32 then Z.shiftl x n else shl_over x n).

Definition quadd_arm_imm (val : Z) : Z :=
  let rot := Z.shiftr (Z.land val 0xf00) 7 in
  let imm := Z.land val 0xff in
  Z.land (Z.lor (uint_shl imm (32 - rot)) (Z.shiftr imm rot)) 0xffffffff.

Definition quadd_stack_found (q : quadd_disasm_data) : bool :=
  negb (stackreg q =? -1) || negb (stacksize q =? 0).

Definition add_stacksize (n : Z) (q : quadd_disasm_data) : quadd_disasm_data :=
  set_stacksize (sw 64 (stacksize q + n)) q.

(** qd->d_regset |= (1 << i), for [n] registers from [i]. *)
Fixpoint or_bits (n : nat) (i d : Z) : Z :=
  match n with O => d | S n => or_bits n (i + 1) (Z.lor d (int_shl 1 i)) end.

Definition vpush (val : Z) (q : quadd_disasm_data) : quadd_disasm_data :=
  let reg := Z.lor (field val 12 0xf) (field val 18 0x10) in
  let off := field val 1 0x3f in
  if off =? 1 then set_d_regset (Z.lor (d_regset q) (int_shl 1 reg)) q
  else if reg + off <=? 32 then set_d_regset (or_bits (Z.to_nat off) reg (d_regset q)) q
  else q.

(** The body of the loop: [true] is a break. *)
Definition arm_insn (val addr : Z) (q : quadd_disasm_data) : quadd_disasm_data * bool :=
  if bits_are val 0x0def0ff0 0x01a00000 && negb (quadd_stack_found q) then
    let x := field val 12 0xf in let y := Z.land val 0xf in
    (if (y =? 13) && negb (x =? y) then set_stackreg x 0 q else q, false)
  else if (bits_are val 0x0fe00000 0x02800000 || bits_are val 0x0fe00010 0x00800000 ||
           bits_are val 0x0fe00090 0x00800010) && negb (quadd_stack_found q) then
    let x := field val 12 0xf in let y := field val 16 0xf in
    (if (y =? 13) && negb (x =? y) then set_stackreg x (quadd_arm_imm val) q else q, false)
  else if (bits_are val 0x0fe00000 0x02400000 || bits_are val 0x0fe00010 0x00400000) &&
          negb (quadd_stack_found q) then
    let x := field val 12 0xf in let y := field val 16 0xf in
    (if (x =? 13) && (y =? 13) then add_stacksize (quadd_arm_imm val) q else q, false)
  else if bits_are val 0x0fff0000 0x092d0000 then
    (set_regset (Z.lor (r_regset q) (Z.land val 0xffff)) q, false)
  else if bits_are val 0x0fff0fff 0x052d0004 then
    (set_regset (Z.lor (r_regset q) (int_shl 1 (field val 12 0xf))) q, false)
  else if bits_are val 0x0fbf0f01 0x0d2d0b00 then (vpush val q, false)
  else if (bits_are val 0x0e000000 0x0a000000 || bits_are val 0x0ffffff0 0x012fff10) &&
          (field val 28 0xf =? 0xe) then (set_max (u64 (addr + 4)) q, true)
  else if bits_are val 0x0fff0fff 0x049d0004 || bits_are val 0x0fff0000 0x08bd0000 then
    (set_max (u64 (addr + 4)) q, true)
  else (q, false).

Fixpoint arm_loop (fuel : nat) (addr : Z) (q : quadd_disasm_data) : outcome quadd_disasm_data :=
  match fuel with
  | O => Timeout
  | S fuel =>
      if addr <? qd_max q then
        val ← read_user_data addr 4;
        let '(q, stop) := arm_insn val addr q in
        if stop : bool then mret q else arm_loop fuel (u64 (addr + 4)) q
      else mret q
  end.

(** At most 128 bytes are looked at. *)
Definition disasm_fuel : nat := 65.
Definition quadd_disassemble_arm (q : quadd_disasm_data) : outcome quadd_disasm_data :=
  arm_loop disasm_fuel (qd_min q) q.

(** The modified immediate of sub.w sp, sp, #imm *)
Definition thumb_imm (val : Z) : Z :=
  let bits := Z.lor (Z.lor (Z.land val 0x000000ff) (Z.shiftr (Z.land val 0x00007000) 4))
                (Z.shiftr (Z.land val 0x04000000) 15) in
  let imm8 := Z.land bits 0x0ff in
  let mod_ := Z.shiftr (Z.land bits 0xf00) 8 in
  if mod_ =? 0 then imm8
  else if mod_ =? 1 then Z.lor (uint_shl imm8 16) imm8
  else if mod_ =? 2 then Z.lor (uint_shl imm8 24) (uint_shl imm8 8)
  else if mod_ =? 3 then
    Z.lor (Z.lor (Z.lor (uint_shl imm8 24) (uint_shl imm8 16)) (uint_shl imm8 8)) imm8
  else
    let mod_ := Z.shiftr (Z.land bits 0xf80) 7 in
    let imm8 := Z.lor (Z.land bits 0x07f) 0x80 in
    Z.land (Z.lor (uint_shl imm8 (32 - mod_)) (Z.shiftr imm8 mod_)) 0xffffffff.

(** The 4-byte instruction whose second half is at [addr]. *)
Definition thumb_insn32 (val addr : Z) (q : quadd_disasm_data) : quadd_disasm_data * bool :=
  if bits_are val 0xfbe08000 0xf1a00000 && (field val 8 0xf =? 13) && (field val 16 0xf =? 13) then
    (add_stacksize (thumb_imm val) q, false)
  else if bits_are val 0x0fbf0f01 0x0d2d0b00 then (vpush val q, false)
  else if bits_are val 0xffd00000 0xe9000000 && (field val 16 0xf =? 13) then
    (set_regset (Z.lor (r_regset q) (Z.land val 0xffff)) q, false)
  else if (bits_are val 0xf800d000 0xf0009000 || bits_are val 0xf800d001 0xf000c000 ||
           bits_are val 0xf800d000 0xf000d000 || bits_are val 0xf800d000 0xf0008000) &&
          (0xe <=? field val 28 0xf) then (set_max (u64 (addr + 2)) q, true)
  else if bits_are val 0xffd00000 0xe8900000 then (set_max (u64 (addr + 2)) q, true)
  else (q, false).

(** The body of the loop: the address, the data and whether it breaks. *)
Definition thumb_insn (val1 addr : Z) (q : quadd_disasm_data)
    : outcome (Z * quadd_disasm_data * bool) :=
  if bits_are val1 0xf800 0xa800 && negb (quadd_stack_found q) then
    mret (addr, set_stackreg (field val1 8 0x7) (Z.land val1 0xff * 4) q, false)
  else if bits_are val1 0xff80 0xb080 && negb (quadd_stack_found q) then
    mret (addr, add_stacksize (Z.land val1 0x7f * 4) q, false)
  else if bits_are val1 0xfe00 0xb400 then
    let q := set_regset (Z.lor (r_regset q) (Z.land val1 0xff)) q in
    let q := if Z.land val1 0x100 =? 0 then q else set_regset (Z.lor (r_regset q) 0x4000) q in
    mret (addr, q, false)
  else if bits_are val1 0xff80 0x4700 || bits_are val1 0xff87 0x4780 ||
          (bits_are val1 0xf000 0xd000 && (field val1 8 0xf =? 0xe)) || bits_are val1 0xf800 0xe000
  then mret (addr, set_max (u64 (addr + 2)) q, true)
  else if bits_are val1 0xfe00 0xbc00 then mret (addr, set_max (u64 (addr + 2)) q, true)
  else if (bits_are val1 0xf800 0xf800 || bits_are val1 0xf800 0xf000 || bits_are val1 0xf800 0xe800) &&
          (u64 (addr + 2) <? qd_max q) then
    val2 ← read_user_data (u64 (addr + 2)) 2;
    let val := u32 (Z.lor (Z.shiftl val1 16) val2) in
    let addr := u64 (addr + 2) in
    let '(q, stop) := thumb_insn32 val addr q in
    mret (addr, q, stop)
  else mret (addr, q, false).

Fixpoint thumb_loop (fuel : nat) (addr : Z) (q : quadd_disasm_data) : outcome quadd_disasm_data :=
  match fuel with
  | O => Timeout
  | S fuel =>
      if addr <? qd_max q then
        val1 ← read_user_data addr 2;
        '(addr, q, stop) ← thumb_insn val1 addr q;
        if stop : bool then mret q else thumb_loop fuel (u64 (addr + 2)) q
      else mret q
  end.
Definition quadd_disassemble_thumb (q : quadd_disasm_data) : outcome quadd_disasm_data :=
  thumb_loop disasm_fuel (qd_min q) q.

(** A failure leaves nothing the caller looks at. *)
Definition quadd_disassemble (min max : Z) (thumbflag : bool) : outcome quadd_disasm_data :=
  let q := Disasm thumbflag min max 0 0 0 (-1) 0 (-1) in
  if thumbflag then quadd_disassemble_thumb q else quadd_disassemble_arm q.

Definition quadd_check_unwind_result (q : quadd_disasm_data) : Z :=
  if (0 <? stacksize q) || negb (r_regset q =? 0) || negb (d_regset q =? 0) ||
     negb (stackreg q =? ustackreg q) || negb (stackoff q =? 0)
  then - QUADD_URC_UNWIND_MISMATCH else QUADD_URC_SUCCESS.
End disasm.
