(* ===== verification/EhAbi.v ===== *)
(** * One step of the ARM exception-handling unwinder (eh_unwind.c, 41-48, 67-208, 732-1186)

    32-bit programs describe a frame by an index of functions, sorted by address, and
    for each a word or a list of words of byte-sized instructions on a virtual stack
    pointer and 16 virtual registers. *)

From stdpp Require Import gmap.
From S2P Require Import Prelude DwarfRead Callchain EhRegions Disasm.
#[local] Open Scope Z_scope.

Definition QUADD_URC_CANTUNWIND : Z := 6.
Definition QUADD_URC_REFUSE_TO_UNWIND : Z := 8.
Definition QUADD_URC_SPARE_ENCODING : Z := 10.
Definition QUADD_URC_UNSUPPORTED_PR : Z := 11.
Definition QUADD_URC_TBL_LINK_INCORRECT : Z := 17.

(** enum regs *)
Definition FP_THUMB : nat := 7.
Definition FP_ARM : nat := 11.
Definition SP : nat := 13.
Definition LR : nat := 14.
Definition PC : nat := 15.

(** struct stackframe *)
Record stackframe := EhFrame { e_fp_thumb : Z; e_fp_arm : Z; e_sp : Z; e_lr : Z; e_pc : Z }.

(** struct unwind_ctrl_block: the virtual registers, the current instruction word,
    the number of words left and the byte in the word. *)
Record unwind_ctrl_block := Ctrl { vrs : list Z; insn : Z; entries : Z; byte : Z }.
Definition set_vrs (l : list Z) (c : unwind_ctrl_block) : unwind_ctrl_block :=
  Ctrl l (insn c) (entries c) (byte c).
Definition set_vr (r : nat) (v : Z) (c : unwind_ctrl_block) : unwind_ctrl_block :=
  set_vrs (<[r := v]> (vrs c)) c.
Definition set_entries (n : Z) (c : unwind_ctrl_block) : unwind_ctrl_block :=
  Ctrl (vrs c) (insn c) n (byte c).
Definition vr (c : unwind_ctrl_block) (r : nat) : Z := vrs c !!! r.

(** ** Addresses *)

Definition eh_validate_mmap_addr (ri : ex_region_info) (addr nbytes : Z) : bool :=
  let m := mmap ri in
  if negb (mm_active m) then false
  else if negb (Z.land addr 0x03 =? 0) then false
  else
    let size := zlen (mm_bytes m) in
    negb ((addr <? mm_data m) || (u64 (mm_data m + u64 (size - nbytes)) <=? addr)).

Definition eh_read_mmap_data (ri : ex_region_info) (addr : Z) : outcome Z :=
  if eh_validate_mmap_addr ri addr 4 then load 4 ri addr else Error (- QUADD_URC_EACCESS).

(** As in dwarf_unwind.c, but for a section that is not there. *)
Definition eh_ex_addr_to_mmap_addr (addr : Z) (ri : ex_region_info) (sec_type : Z) : Z :=
  if ti_length (ex_sec ri sec_type) =? 0 then 0 else ex_addr_to_mmap_addr addr ri sec_type.
Definition eh_mmap_addr_to_ex_addr (addr : Z) (ri : ex_region_info) (sec_type : Z) : Z :=
  if ti_length (ex_sec ri sec_type) =? 0 then 0 else mmap_addr_to_ex_addr addr ri sec_type.

(** (((s32)value) << 1) >> 1 *)
Definition prel31 (value : Z) : Z := Z.shiftr (sw 32 (2 * sw 32 value)) 1.

(** The word at [ptr] is read without a check. *)
Definition mmap_prel31_to_addr (ptr : Z) (ri : ex_region_info) (src_type dst_type : Z) (to_mmap : bool)
    : outcome Z :=
  value ← load 4 ri ptr;
  let addr := u32 (eh_mmap_addr_to_ex_addr ptr ri src_type) in
  if addr =? 0 then mret 0
  else
    let addr := u32 (addr + prel31 value) in
    mret (if to_mmap then eh_ex_addr_to_mmap_addr addr ri dst_type else addr).

(** ** The index: struct unwind_idx is two words *)

Definition idx_addr (ri : ex_region_info) (p : Z) : outcome Z :=
  mmap_prel31_to_addr p ri QUADD_SEC_TYPE_EXIDX QUADD_SEC_TYPE_EXTAB false.

(** while (start < stop - 1): 0 for NULL. *)
Fixpoint find_loop (fuel : nat) (ri : ex_region_info) (addr start stop : Z) : outcome Z :=
  match fuel with
  | O => Timeout
  | S fuel =>
      if start <? u64 (stop - 8) then
        let mid := u64 (start + 8 * Z.shiftr ((stop - start) / 8) 1) in
        value ← idx_addr ri mid;
        if value =? 0 then mret 0
        else if addr <? value then find_loop fuel ri addr start mid
        else find_loop fuel ri addr mid stop
      else mret start
  end.
Definition find_fuel : nat := 64.

(** The entry, 0 for NULL, and [lowaddr]. *)
Definition unwind_find_idx (ri : ex_region_info) (addr : Z) : outcome (Z * Z) :=
  let ti := ex_sec ri QUADD_SEC_TYPE_EXIDX in
  let length := ti_length ti / 8 in
  if length =? 0 then mret (0, 0)
  else
    let start := u64 (mm_data (mmap ri) + ti_mmap_offset ti) in
    let stop := u64 (start + 8 * (length - 1)) in
    value ← idx_addr ri start;
    if (value =? 0) || (addr <? value) then mret (0, 0)
    else
      value ← idx_addr ri stop;
      if (value =? 0) || (value <=? addr) then mret (0, 0)
      else
        start ← find_loop find_fuel ri addr start stop;
        if start =? 0 then mret (0, 0)
        else lowaddr ← idx_addr ri start; mret (start, lowaddr).

(** IS_ERR_OR_NULL, of the kernel *)
Definition is_err_or_null (p : Z) : bool := (p =? 0) || (2 ^ 64 - 4095 <=? p).

(** ** Instructions *)

Definition unwind_get_byte (ri : ex_region_info) (c : unwind_ctrl_block)
    : outcome (Z * unwind_ctrl_block) :=
  if entries c <=? 0 then Error (- QUADD_URC_TBL_IS_CORRUPT)
  else
    insn_word ← eh_read_mmap_data ri (insn c);
    let ret := Z.land (Z.shiftr insn_word (byte c * 8)) 0xff in
    mret (ret, if byte c =? 0 then Ctrl (vrs c) (u64 (insn c + 4)) (entries c - 1) 3
               else Ctrl (vrs c) (insn c) (entries c) (byte c - 1)).

(** What is left of the table, in bytes. *)
Definition bytes_left (c : unwind_ctrl_block) : Z :=
  if entries c <=? 0 then 0 else 4 * (entries c - 1) + byte c + 1.

Section exec.
Context `{ShiftOps} `{Process}.

Fixpoint uleb_loop (fuel : nat) (ri : ex_region_info) (c : unwind_ctrl_block) (result shift count : Z)
    : outcome (Z * Z * unwind_ctrl_block) :=
  match fuel with
  | O => Timeout
  | S fuel =>
      '(b, c) ← unwind_get_byte ri c;
      let count := count + 1 in
      let result := Z.lor result (u64 (int_shl (Z.land b 0x7f) shift)) in
      let shift := shift + 7 in
      if Z.land b 0x80 =? 0 then mret (result, count, c) else uleb_loop fuel ri c result shift count
  end.
(** Every round takes a byte. *)
Definition read_uleb128 (ri : ex_region_info) (c : unwind_ctrl_block)
    : outcome (Z * Z * unwind_ctrl_block) :=
  uleb_loop (S (Z.to_nat (bytes_left c))) ri c 0 0 0.

(** qd->r_regset &= ~(1 << reg) *)
Definition clear_reg (reg : Z) (q : quadd_disasm_data) : quadd_disasm_data :=
  set_regset (Z.land (r_regset q) (Z.lnot (int_shl 1 reg))) q.
Definition clear_d_reg (i : Z) (q : quadd_disasm_data) : quadd_disasm_data :=
  set_d_regset (Z.land (d_regset q) (Z.lnot (int_shl 1 i))) q.

(** One register from the stack at [vsp]; the array has 16 words. *)
Definition pop_reg (reg : nat) (vsp : Z) (c : unwind_ctrl_block) (q : quadd_disasm_data)
    : outcome (unwind_ctrl_block * quadd_disasm_data) :=
  v ← read_user_data vsp 4;
  if (reg <? length (vrs c))%nat
  then mret (set_vr reg v c, clear_reg (Z.of_nat reg) q) else Fault.

(** while (mask): at most [n] bits, the lowest for [reg]; the new vsp. *)
Fixpoint pop_mask (n : nat) (mask : Z) (reg : nat) (vsp : Z) (c : unwind_ctrl_block)
    (q : quadd_disasm_data) : outcome (Z * unwind_ctrl_block * quadd_disasm_data) :=
  match n with
  | O => if mask =? 0 then mret (vsp, c, q) else Timeout
  | S n =>
      if mask =? 0 then mret (vsp, c, q)
      else if Z.odd mask then
        '(c, q) ← pop_reg reg vsp c q;
        pop_mask n (Z.shiftr mask 1) (S reg) (u64 (vsp + 4)) c q
      else pop_mask n (Z.shiftr mask 1) (S reg) vsp c q
  end.

(** for (reg = 4; reg <= 4 + (insn & 7); reg++), [n] registers left *)
Fixpoint pop_range (n : nat) (reg : nat) (vsp : Z) (c : unwind_ctrl_block) (q : quadd_disasm_data)
    : outcome (Z * unwind_ctrl_block * quadd_disasm_data) :=
  match n with
  | O => mret (vsp, c, q)
  | S n => '(c, q) ← pop_reg reg vsp c q; pop_range n (S reg) (u64 (vsp + 4)) c q
  end.

(** for (i = reg_from; i <= reg_to; i++) vsp += 2, qd->d_regset &= ~(1 << i) *)
Fixpoint pop_vfp (n : nat) (i vsp : Z) (q : quadd_disasm_data) : Z * quadd_disasm_data :=
  match n with
  | O => (vsp, q)
  | S n => pop_vfp n (i + 1) (u64 (vsp + 8)) (clear_d_reg i q)
  end.

Definition exec_result : Type := outcome (unwind_ctrl_block * quadd_disasm_data).

(** The cases of the chain that need more than one line. *)
Definition exec_pop_mask (ri : ex_region_info) (op : Z) (c : unwind_ctrl_block) (q : quadd_disasm_data)
    : exec_result :=
  let vsp := vr c SP in
  '(b, c) ← unwind_get_byte ri c;
  let mask := Z.land (Z.lor (Z.shiftl op 8) b) 0x0fff in
  if mask =? 0 then Error (- QUADD_URC_REFUSE_TO_UNWIND)
  else
    let load_sp := negb (Z.land mask 0x200 =? 0) in
    '(vsp, c, q) ← pop_mask 12 mask 4 vsp c q;
    mret (if load_sp then c else set_vr SP (u32 vsp) c, q).

Definition exec_pop_range (op : Z) (c : unwind_ctrl_block) (q : quadd_disasm_data) : exec_result :=
  let vsp := vr c SP in
  '(vsp, c, q) ← pop_range (S (Z.to_nat (Z.land op 7))) 4 vsp c q;
  '(vsp, c, q) ← (if Z.land op 0x08 =? 0 then mret (vsp, c, q)
                  else '(c, q) ← pop_reg 14 vsp c q; mret (u64 (vsp + 4), c, q));
  mret (set_vr SP (u32 vsp) c, q).

Definition exec_pop_low (ri : ex_region_info) (c : unwind_ctrl_block) (q : quadd_disasm_data)
    : exec_result :=
  '(mask, c) ← unwind_get_byte ri c;
  let vsp := vr c SP in
  if (mask =? 0) || negb (Z.land mask 0xf0 =? 0) then Error (- QUADD_URC_SPARE_ENCODING)
  else
    '(vsp, c, q) ← pop_mask 4 mask 0 vsp c q;
    mret (set_vr SP (u32 vsp) c, q).

Definition exec_vsp_uleb (ri : ex_region_info) (c : unwind_ctrl_block) (q : quadd_disasm_data)
    : exec_result :=
  '(uleb128, count, c) ← read_uleb128 ri c;
  if count =? 0 then Error (- QUADD_URC_TBL_IS_CORRUPT)
  else
    let n := u64 (0x204 + u64 (Z.shiftl uleb128 2)) in
    mret (set_vr SP (u32 (vr c SP + n)) c, set_stacksize (sw 64 (stacksize q - n)) q).

Definition exec_pop_vfp (ri : ex_region_info) (op : Z) (c : unwind_ctrl_block) (q : quadd_disasm_data)
    : exec_result :=
  let vsp := vr c SP in
  '(data, c) ← unwind_get_byte ri c;
  let reg_from := Z.shiftr (Z.land data 0xf0) 4 in
  let n := S (Z.to_nat (Z.land data 0x0f)) in
  let reg_from := if op =? 0xc8 then reg_from + 16 else reg_from in
  let '(vsp, q) := pop_vfp n reg_from vsp q in
  let vsp := if op =? 0xb3 then u64 (vsp + 4) else vsp in
  mret (set_vr SP (u32 vsp) c, q).

Definition exec_pop_vfp8 (op : Z) (c : unwind_ctrl_block) (q : quadd_disasm_data) : exec_result :=
  let '(vsp, q) := pop_vfp (S (Z.to_nat (Z.land op 0x07))) 8 (vr c SP) q in
  let vsp := if Z.land op 0xf8 =? 0xb8 then u64 (vsp + 4) else vsp in
  mret (set_vr SP (u32 vsp) c, q).

Definition unwind_exec_insn (ri : ex_region_info) (c : unwind_ctrl_block) (q : quadd_disasm_data)
    : exec_result :=
  '(op, c) ← unwind_get_byte ri c;
  if Z.land op 0xc0 =? 0x00 then
    let n := Z.shiftl (Z.land op 0x3f) 2 + 4 in
    mret (set_vr SP (u32 (vr c SP + n)) c, set_stacksize (sw 64 (stacksize q - n)) q)
  else if Z.land op 0xc0 =? 0x40 then
    let n := Z.shiftl (Z.land op 0x3f) 2 + 4 in
    mret (set_vr SP (u32 (vr c SP - n)) c, set_stackreg (stackreg q) (sw 64 (stackoff q - n)) q)
  else if Z.land op 0xf0 =? 0x80 then exec_pop_mask ri op c q
  else if (Z.land op 0xf0 =? 0x90) && negb (Z.land op 0x0d =? 0x0d) then
    mret (set_vr SP (vr c (Z.to_nat (Z.land op 0x0f))) c, set_ustackreg (Z.land op 0xf) q)
  else if Z.land op 0xf0 =? 0xa0 then exec_pop_range op c q
  else if op =? 0xb0 then
    let c := if vr c PC =? 0 then set_vr PC (vr c LR) c else c in
    mret (set_entries 0 c, q)
  else if op =? 0xb1 then exec_pop_low ri c q
  else if op =? 0xb2 then exec_vsp_uleb ri c q
  else if (op =? 0xb3) || (op =? 0xc8) || (op =? 0xc9) then exec_pop_vfp ri op c q
  else if (Z.land op 0xf8 =? 0xb8) || (Z.land op 0xf8 =? 0xd0) then exec_pop_vfp8 op c q
  else Error (- QUADD_URC_UNHANDLED_INSTRUCTION).

(** ** One frame *)

(** while (ctrl.entries > 0) *)
Fixpoint exec_loop (fuel : nat) (ri : ex_region_info) (low high : Z) (c : unwind_ctrl_block)
    (q : quadd_disasm_data) : exec_result :=
  match fuel with
  | O => Timeout
  | S fuel =>
      if 0 <? entries c then
        '(c, q) ← unwind_exec_insn ri c q;
        let sp := vr c SP in
        if negb (Z.land sp 0x03 =? 0) || (sp <? low) || (high <=? sp)
        then Error (- QUADD_URC_SP_INCORRECT)
        else exec_loop fuel ri low high c q
      else mret (c, q)
  end.

(** Where the instructions of the entry [idx] are, whose second word is [val]. *)
Definition insn_start (ri : ex_region_info) (idx val : Z) : outcome Z :=
  if val =? 1 then Error (- QUADD_URC_CANTUNWIND)
  else if Z.land val 0x80000000 =? 0 then
    a ← mmap_prel31_to_addr (u64 (idx + 4)) ri QUADD_SEC_TYPE_EXIDX QUADD_SEC_TYPE_EXTAB true;
    if a =? 0 then Error (- QUADD_URC_TBL_LINK_INCORRECT) else mret a
  else if Z.land val 0xff000000 =? 0x80000000 then mret (u64 (idx + 4))
  else Error (- QUADD_URC_UNSUPPORTED_PR).

(** The first byte and the number of words, by the personality routine. *)
Definition insn_size (val : Z) : outcome (Z * Z) :=
  if Z.land val 0xff000000 =? 0x80000000 then mret (2, 1)
  else if Z.land val 0xff000000 =? 0x81000000 then
    mret (1, 1 + Z.shiftr (Z.land val 0x00ff0000) 16)
  else Error (- QUADD_URC_UNSUPPORTED_PR).

(** The end of the code to disassemble. *)
Definition disasm_max (pc min : Z) : Z :=
  if u64 (pc - min) <? QUADD_DISASM_MIN then u64 (min + QUADD_DISASM_MIN)
  else if u64 (pc - min) <? QUADD_DISASM_MAX then pc else u64 (min + QUADD_DISASM_MAX).

(** At most 256 words of four bytes. *)
Definition eh_fuel : nat := 1026.

(** The locals of the function before they are set. *)
Context (vrs0 : list Z) (qd0 : quadd_disasm_data).

(** From the control block to the end. *)
Definition unwind_run (ut_ce : bool) (ri : ex_region_info) (frame : stackframe) (low high : Z)
    (c : unwind_ctrl_block) (q : quadd_disasm_data) : outcome stackframe :=
  '(c, q) ← exec_loop eh_fuel ri low high c q;
  if ut_ce && (quadd_check_unwind_result q <? 0) then Error (- QUADD_URC_UNWIND_MISMATCH)
  else
    let c := if vr c PC =? 0 then set_vr PC (vr c LR) c else c in
    if negb (validate_pc_addr (vr c PC) 4) then Error (- QUADD_URC_PC_INCORRECT)
    else mret (EhFrame (vr c FP_THUMB) (vr c FP_ARM) (vr c SP) (vr c LR) (vr c PC)).

Definition unwind_frame (um : unw_methods) (ri : ex_region_info) (frame : stackframe)
    (vma_sp : vm_area) (thumbflag : bool) : outcome stackframe :=
  if negb (validate_stack_addr (e_sp frame) (Some vma_sp) 4) then Error (- QUADD_URC_SP_INCORRECT)
  else
    let low := e_sp frame in let high := vma_end vma_sp in
    '(idx, min) ← unwind_find_idx ri (u32 (e_pc frame));
    if is_err_or_null idx then Error (- QUADD_URC_IDX_NOT_FOUND)
    else
      let l := <[FP_ARM := u32 (e_fp_arm frame)]> (<[FP_THUMB := u32 (e_fp_thumb frame)]> vrs0) in
      let l := <[PC := 0]> (<[LR := u32 (e_lr frame)]> (<[SP := u32 (e_sp frame)]> l)) in
      val ← eh_read_mmap_data ri (u64 (idx + 4));
      insn ← insn_start ri idx val;
      val ← eh_read_mmap_data ri insn;
      '(byte, entries) ← insn_size val;
      q ← (if um_ut_ce um then quadd_disassemble min (disasm_max (e_pc frame) min) thumbflag
           else mret qd0);
      unwind_run (um_ut_ce um) ri frame low high (Ctrl l insn entries byte) q.
End exec.
