(* ===== verification/EhFacts.v ===== *)
(** * The step of EhAbi.v is safe and ends

    On any bytes in the sections, the step reads inside the area, writes inside the
    array of virtual registers, ends, and only climbs the stack. *)

From stdpp Require Import gmap.
From S2P Require Import Prelude DwarfRead Callchain EhRegions Disasm EhAbi.
#[local] Open Scope Z_scope.

(** A pair's components. *)
Lemma safe_bind2 {A B C} (Q : A * B -> Prop) (R : C -> Prop) (o : outcome (A * B)) k :
  safe Q o -> (forall a b, Q (a, b) -> safe R (k a b)) -> safe R ('(a, b) ← o; k a b).
Proof. intros Ho Hk. eapply safe_bind; [exact Ho|]. intros [a b]. apply Hk. Qed.

(** ** The disassembler *)

Section disasm.
Context `{ShiftOps} `{Process}.

Lemma read_user_ends a n : safe (fun _ => True) (read_user_data a n).
Proof. unfold read_user_data. by destruct (copy_from_user a n). Qed.

Lemma int_shl_range b s : - 2 ^ 31 <= int_shl b s < 2 ^ 31.
Proof. unfold int_shl. apply (sw_range 32). lia. Qed.

Lemma vpush_max val q : qd_max (vpush val q) = qd_max q.
Proof. unfold vpush. by repeat case_match. Qed.

(** One goal per branch of a decoder. *)
Ltac branches :=
  repeat (match goal with |- context [if ?b then (_, _) else _] => destruct b end;
          [try done; intros _; rewrite ?vpush_max; by repeat case_match|]); done.

Lemma arm_insn_max val addr q : 
  let '(q', stop) := arm_insn val addr q in stop = false -> qd_max q' = qd_max q.
Proof.
  unfold arm_insn. branches.
Qed.

Lemma arm_loop_ends fuel : forall addr q, 0 <= addr -> qd_max q < 2 ^ 64 - 4 ->
  qd_max q - addr < 4 * Z.of_nat fuel - 3 -> (0 < fuel)%nat -> safe (fun _ => True) (arm_loop fuel addr q).
Proof.
  induction fuel as [|fuel IH]; intros addr q Ha Hm Hf Hp; [lia|]. cbn [arm_loop].
  destruct (Z.ltb_spec addr (qd_max q)) as [Hlt|]; [|done].
  eapply safe_bind; [apply read_user_ends|]. intros val _.
  pose proof (arm_insn_max val addr q) as Hmax. destruct (arm_insn val addr q) as [q' [|]]; [done|].
  specialize (Hmax eq_refl). rewrite u64_small by lia. apply IH; lia.
Qed.

Lemma thumb_insn32_max val addr q :
  let '(q', stop) := thumb_insn32 val addr q in stop = false -> qd_max q' = qd_max q.
Proof.
  unfold thumb_insn32. branches.
Qed.

Lemma thumb_insn_ends val1 addr q : 0 <= addr < qd_max q -> qd_max q < 2 ^ 64 - 4 ->
  safe (fun r => let '(addr', q', stop) := r in
          addr <= addr' <= addr + 2 /\ (stop = false -> qd_max q' = qd_max q))
    (thumb_insn val1 addr q).
Proof.
  intros Ha Hm. unfold thumb_insn. rewrite !u64_small by lia.
  repeat (match goal with |- safe _ (if ?b then _ else _) => destruct b end; [cbn; split; [lia|try done]|]).
  - intros _. by destruct (Z.land val1 256 =? 0).
  - destruct (_ && _); [|cbn; split; [lia|done]].
    eapply safe_bind; [apply read_user_ends|]. intros val2 _.
    pose proof (thumb_insn32_max (u32 (Z.lor (Z.shiftl val1 16) val2)) (addr + 2) q) as Hmax.
    destruct (thumb_insn32 _ _ _) as [q' stop]. cbn. split; [lia|done].
Qed.

Lemma thumb_loop_ends fuel : forall addr q, 0 <= addr -> qd_max q < 2 ^ 64 - 4 ->
  qd_max q - addr < 2 * Z.of_nat fuel - 1 -> (0 < fuel)%nat -> safe (fun _ => True) (thumb_loop fuel addr q).
Proof.
  induction fuel as [|fuel IH]; intros addr q Ha Hm Hf Hp; [lia|]. cbn [thumb_loop].
  destruct (Z.ltb_spec addr (qd_max q)) as [Hlt|]; [|done].
  eapply safe_bind; [apply read_user_ends|]. intros val1 _.
  eapply safe_bind; [apply thumb_insn_ends; lia|]. intros [[addr' q'] [|]] [Ha' Hmax]; [done|].
  specialize (Hmax eq_refl). rewrite u64_small by lia. apply IH; lia.
Qed.

Lemma disassemble_ends min max thumb : 0 <= min -> max <= min + QUADD_DISASM_MAX ->
  max < 2 ^ 64 - 4 -> safe (fun _ => True) (quadd_disassemble min max thumb).
Proof.
  unfold QUADD_DISASM_MAX, quadd_disassemble, quadd_disassemble_arm, quadd_disassemble_thumb, disasm_fuel.
  intros. destruct thumb; [apply thumb_loop_ends|apply arm_loop_ends]; cbn [qd_min qd_max]; lia.
Qed.
End disasm.

(** ** Reading the table *)

(** The area in the address space. *)
Record area_ok (ri : ex_region_info) : Prop := {
  ao_data : 8 <= mm_data (mmap ri);
  ao_top : mm_data (mmap ri) + zlen (mm_bytes (mmap ri)) < 2 ^ 64;
  ao_bytes : bytes_ok (mm_bytes (mmap ri));
}.

Lemma region_area ri : region_ok ri -> area_ok ri.
Proof. intros Hr. destruct (ro_sections _ Hr 0 ltac:(lia)). by split. Qed.

Lemma bytes_at_dec_range4 ri a : area_ok ri -> mm_data (mmap ri) <= a ->
  a + 4 <= mm_data (mmap ri) + zlen (mm_bytes (mmap ri)) ->
  exists v, load 4 ri a = Done v /\ 0 <= v < 2 ^ 32.
Proof.
  intros [H1 H2 H3] Ha Hb. exists (le_dec (bytes_at ri a 4)). split; [apply plain_load_ok; lia|].
  apply (bytes_at_dec_range ri a 4 H3); lia.
Qed.

Lemma eh_read_ends ri a : area_ok ri -> safe (fun v => 0 <= v < 2 ^ 32) (eh_read_mmap_data ri a).
Proof.
  intros Ha. pose proof Ha as [H1 H2 H3]. pose proof (zlen_nonneg (mm_bytes (mmap ri))).
  unfold eh_read_mmap_data. destruct (eh_validate_mmap_addr ri a 4) eqn:E; [|done].
  unfold eh_validate_mmap_addr in E. destruct (negb (mm_active _)); [done|].
  destruct (negb (Z.land a 3 =? 0)); [done|].
  apply negb_true_iff, orb_false_iff in E as [E1 E2]. apply Z.ltb_ge in E1. apply Z.leb_gt in E2.
  destruct (bytes_at_dec_range4 ri a Ha E1) as (v & -> & Hv); [|done].
  destruct (Z.lt_ge_cases (zlen (mm_bytes (mmap ri))) 4).
  - exfalso. assert (u64 (mm_data (mmap ri) + u64 (zlen (mm_bytes (mmap ri)) - 4)) =
      mm_data (mmap ri) + (zlen (mm_bytes (mmap ri)) - 4)) as Hu.
    { unfold uw. rewrite Zplus_mod_idemp_r, Z.mod_small; lia. }
    rewrite Hu in E2. lia.
  - rewrite (u64_small (zlen _ - 4)), u64_small in E2 by lia. lia.
Qed.

Record ctrl_ok (c : unwind_ctrl_block) : Prop := {
  ck_vrs : length (vrs c) = 16%nat;
  ck_byte : 0 <= byte c <= 3;
}.

Lemma set_vr_ok r v c : ctrl_ok c -> ctrl_ok (set_vr r v c).
Proof. intros []. split; [cbn; by rewrite length_insert|done]. Qed.
Lemma set_vr_left r v c : bytes_left (set_vr r v c) = bytes_left c.
Proof. done. Qed.

(** At least [n] bytes have been taken. *)
Definition took (n : Z) (c c' : unwind_ctrl_block) : Prop :=
  ctrl_ok c' /\ 0 <= bytes_left c' <= bytes_left c - n.

Lemma took_set_vr n c c' r v : took n c c' -> took n c (set_vr r v c').
Proof. intros [? ?]. split; [by apply set_vr_ok|done]. Qed.
Lemma took_trans n m a b c : took n a b -> took m b c -> took (n + m) a c.
Proof. intros [? ?] [? ?]. split; [done|lia]. Qed.

Lemma bytes_left_nonneg c : ctrl_ok c -> 0 <= bytes_left c.
Proof. intros [_ ?]. unfold bytes_left. destruct (Z.leb_spec (entries c) 0); lia. Qed.
Lemma took_refl c : ctrl_ok c -> took 0 c c.
Proof. intros Hc. split; [done|]. pose proof (bytes_left_nonneg c Hc). lia. Qed.

Lemma get_byte_ends ri c : area_ok ri -> ctrl_ok c ->
  safe (fun '(b, c') => 0 <= b < 256 /\ took 1 c c' /\ vrs c' = vrs c) (unwind_get_byte ri c).
Proof.
  intros Ha [Hv Hb]. unfold unwind_get_byte. destruct (Z.leb_spec (entries c) 0); [done|].
  eapply safe_bind; [by apply eh_read_ends|]. intros w Hw.
  assert (0 <= Z.land (Z.shiftr w (byte c * 8)) 255 < 256) as Hr.
  { change 255 with (Z.ones 8). rewrite Z.land_ones by lia. apply Z.mod_pos_bound. lia. }
  unfold took, bytes_left. destruct (Z.eqb_spec (byte c) 0) as [Hz|Hz]; cbn [safe mret outcome_ret].
  - split; [exact Hr|]. split; [|done]. split; [split; cbn; [done|lia]|]. cbn.
    destruct (Z.leb_spec (entries c) 0), (Z.leb_spec (entries c - 1) 0); lia.
  - split; [exact Hr|]. split; [|done]. split; [split; cbn; [done|lia]|]. cbn.
    destruct (Z.leb_spec (entries c) 0); lia.
Qed.

Section exec.
Context `{ShiftOps} `{Process}.
Context (ri : ex_region_info).
Hypothesis Ha : area_ok ri.

Lemma uleb_loop_ends fuel : forall c result shift count, ctrl_ok c -> 0 <= count ->
  bytes_left c < Z.of_nat fuel ->
  safe (fun '(_, n, c') => 0 < n /\ took 1 c c') (uleb_loop fuel ri c result shift count).
Proof.
  induction fuel as [|fuel IH]; intros c result shift count Hc Hn Hf;
    pose proof (bytes_left_nonneg c Hc); [lia|]. cbn [uleb_loop].
  eapply safe_bind2; [by apply get_byte_ends|]. intros b c1 (Hb & Ht & _).
  destruct (_ =? 0); [cbn; split; [lia|done]|]. destruct Ht as [T1 T2].
  eapply safe_mono; [apply IH; [done|lia|lia]|]. intros [[r n] c2] (Hn' & U1 & U2).
  split; [done|]. split; [done|lia].
Qed.

Lemma pop_reg_ends reg vsp c q : ctrl_ok c -> (reg < 16)%nat ->
  safe (fun '(c', _) => took 0 c c') (pop_reg reg vsp c q).
Proof.
  intros Hc Hr. unfold pop_reg. eapply safe_bind; [apply read_user_ends|]. intros v _.
  rewrite (ck_vrs _ Hc). destruct (Nat.ltb_spec reg 16); [|lia]. by apply took_set_vr, took_refl.
Qed.

Lemma pop_range_ends n : forall reg vsp c q, ctrl_ok c -> (reg + n <= 16)%nat ->
  safe (fun '(_, c', _) => took 0 c c') (pop_range n reg vsp c q).
Proof.
  induction n as [|n IH]; intros reg vsp c q Hc Hr; cbn [pop_range]; [by apply took_refl|].
  eapply safe_bind2; [apply (pop_reg_ends reg); [done|lia]|]. intros c1 q1 Ht.
  eapply safe_mono; [apply IH; [apply Ht|lia]|]. intros [[v c2] q2] Ht2.
  exact (took_trans 0 0 _ _ _ Ht Ht2).
Qed.

Lemma shiftr_lt mask n : 0 <= mask < 2 ^ Z.of_nat (S n) -> 0 <= Z.shiftr mask 1 < 2 ^ Z.of_nat n.
Proof.
  intros Hm. rewrite Nat2Z.inj_succ, Z.pow_succ_r in Hm by lia. rewrite Z.shiftr_div_pow2 by lia.
  change (2 ^ 1) with 2. dlia.
Qed.

Lemma pop_mask_ends n : forall mask reg vsp c q, ctrl_ok c -> (reg + n <= 16)%nat ->
  0 <= mask < 2 ^ Z.of_nat n ->
  safe (fun '(_, c', _) => took 0 c c') (pop_mask n mask reg vsp c q).
Proof.
  induction n as [|n IH]; intros mask reg vsp c q Hc Hr Hm; cbn [pop_mask].
  { change (2 ^ Z.of_nat 0) with 1 in Hm. destruct (Z.eqb_spec mask 0); [|lia]. by apply took_refl. }
  destruct (mask =? 0); [by apply took_refl|]. pose proof (shiftr_lt mask n Hm).
  destruct (Z.odd mask); [|apply IH; [done|lia|done]].
  eapply safe_bind2; [apply (pop_reg_ends reg); [done|lia]|]. intros c1 q1 Ht.
  eapply safe_mono; [apply IH; [apply Ht|lia|done]|]. intros [[v c2] q2] Ht2.
  exact (took_trans 0 0 _ _ _ Ht Ht2).
Qed.

Lemma land_ones_range x k : 0 <= k -> 0 <= Z.land x (2 ^ k - 1) < 2 ^ k.
Proof. intros Hk. rewrite land_mask by done. apply Z.mod_pos_bound. by apply pow2_pos. Qed.

Lemma exec_pop_mask_ends op c q : ctrl_ok c ->
  safe (fun '(c', _) => took 1 c c') (exec_pop_mask ri op c q).
Proof.
  intros Hc. unfold exec_pop_mask. eapply safe_bind2; [by apply get_byte_ends|].
  intros b c1 (_ & Ht & _). set (mask := Z.land _ 0xfff). destruct (mask =? 0); [done|].
  eapply safe_bind; [apply (pop_mask_ends 12); [apply Ht|lia|apply (land_ones_range _ 12); lia]|].
  intros [[v c2] q2] Ht2. pose proof (took_trans _ _ _ _ _ Ht Ht2) as Ht3.
  destruct (negb _); [exact Ht3|by apply took_set_vr].
Qed.

Lemma exec_pop_range_ends op c q : ctrl_ok c ->
  safe (fun '(c', _) => took 0 c c') (exec_pop_range op c q).
Proof.
  intros Hc. unfold exec_pop_range. pose proof (land_ones_range op 3 ltac:(lia)) as Hl.
  change (2 ^ 3 - 1) with 7 in Hl.
  eapply safe_bind; [apply (pop_range_ends (S (Z.to_nat (Z.land op 7)))); [done|lia]|].
  intros [[v c1] q1] Ht.
  apply (safe_bind (fun '(_, c', _) => took 0 c c')).
  - destruct (_ =? 0); [exact Ht|]. eapply safe_bind2; [apply pop_reg_ends; [apply Ht|lia]|].
    intros c2 q2 Ht2. exact (took_trans _ _ _ _ _ Ht Ht2).
  - intros [[v2 c2] q2] Ht2. by apply took_set_vr.
Qed.

Lemma exec_pop_low_ends c q : ctrl_ok c ->
  safe (fun '(c', _) => took 1 c c') (exec_pop_low ri c q).
Proof.
  intros Hc. unfold exec_pop_low. eapply safe_bind2; [by apply get_byte_ends|].
  intros b c1 (Hb & Ht & _). destruct (Z.eqb_spec b 0); [done|]. cbn [orb].
  destruct (Z.eqb_spec (Z.land b 0xf0) 0) as [E|]; [|done]. cbn [negb].
  assert (b = b mod 2 ^ 4) as Hlow.
  { rewrite <- (land_mask b 4) by lia. change (2 ^ 4 - 1) with 15.
    assert (Z.land b (Z.lor 15 240) = b) as Eb.
    { change (Z.lor 15 240) with (Z.ones 8). rewrite Z.land_ones by lia. apply Z.mod_small. lia. }
    rewrite <- Eb at 1. by rewrite Z.land_lor_distr_r, E, Z.lor_0_r. }
  eapply safe_bind; [apply (pop_mask_ends 4); [apply Ht|lia|change (2 ^ Z.of_nat 4) with 16; change (2 ^ 4) with 16 in Hlow; dlia]|].
  intros [[v c2] q2] Ht2. apply took_set_vr. exact (took_trans _ _ _ _ _ Ht Ht2).
Qed.

Lemma exec_vsp_uleb_ends c q : ctrl_ok c ->
  safe (fun '(c', _) => took 1 c c') (exec_vsp_uleb ri c q).
Proof.
  intros Hc. unfold exec_vsp_uleb, read_uleb128. pose proof (bytes_left_nonneg c Hc).
  eapply safe_bind; [apply uleb_loop_ends; [done|lia|lia]|]. intros [[v n] c1] [Hn Ht].
  destruct (Z.eqb_spec n 0); [done|]. by apply took_set_vr.
Qed.

Lemma exec_pop_vfp_ends op c q : ctrl_ok c ->
  safe (fun '(c', _) => took 1 c c') (exec_pop_vfp ri op c q).
Proof.
  intros Hc. unfold exec_pop_vfp. eapply safe_bind2; [by apply get_byte_ends|].
  intros b c1 (_ & Ht & _). destruct (pop_vfp _ _ _ _) as [v q1]. by apply took_set_vr.
Qed.

Lemma exec_pop_vfp8_ends op c q : ctrl_ok c ->
  safe (fun '(c', _) => took 0 c c') (exec_pop_vfp8 op c q).
Proof.
  intros Hc. unfold exec_pop_vfp8. destruct (pop_vfp _ _ _ _) as [v q1].
  by apply took_set_vr, took_refl.
Qed.

(** An instruction takes at least its byte. *)
Lemma exec_insn_ends c q : ctrl_ok c ->
  safe (fun '(c', _) => took 1 c c') (unwind_exec_insn ri c q).
Proof.
  intros Hc. unfold unwind_exec_insn. eapply safe_bind2; [by apply get_byte_ends|].
  intros op c1 (_ & Ht & _). pose proof (proj1 Ht) as Hc1.
  assert (forall n o, 0 <= n -> safe (fun '(c', _) => took n c1 c') o ->
            safe (fun '(c', _) => took 1 c c') (o : exec_result)) as Hk.
  { intros n o Hn Ho. eapply safe_mono; [exact Ho|]. intros [c2 q2] Ht2. destruct Ht, Ht2.
    split; [done|lia]. }
  repeat match goal with |- safe _ (if ?b then _ else _) => destruct b end;
    try (by apply took_set_vr); try done.
  - apply (Hk 1); [lia|by apply exec_pop_mask_ends].
  - apply (Hk 0); [lia|by apply exec_pop_range_ends].
  - cbn. pose proof (bytes_left_nonneg c Hc). destruct Ht as [T1 T2].
    destruct (_ =? 0); (split; [split; cbn; rewrite ?length_insert; by apply T1|]); cbn; lia.
  - apply (Hk 1); [lia|by apply exec_pop_low_ends].
  - apply (Hk 1); [lia|by apply exec_vsp_uleb_ends].
  - apply (Hk 1); [lia|by apply exec_pop_vfp_ends].
  - apply (Hk 0); [lia|by apply exec_pop_vfp8_ends].
Qed.

(** A stack pointer the step accepts. *)
Definition sp_in (low high sp : Z) : Prop := Z.land sp 3 = 0 /\ low <= sp < high.

Lemma exec_loop_ends low high fuel : forall c q, ctrl_ok c -> bytes_left c < Z.of_nat fuel ->
  0 < entries c \/ sp_in low high (vr c SP) ->
  safe (fun '(c', _) => ctrl_ok c' /\ sp_in low high (vr c' SP)) (exec_loop fuel ri low high c q).
Proof.
  induction fuel as [|fuel IH]; intros c q Hc Hf Hs; pose proof (bytes_left_nonneg c Hc); [lia|].
  cbn [exec_loop]. destruct (Z.ltb_spec 0 (entries c)) as [He|He].
  - eapply safe_bind2; [by apply exec_insn_ends|]. intros c1 q1 [T1 T2].
    destruct (Z.eqb_spec (Z.land (vr c1 SP) 3) 0) as [E1|]; [|done].
    destruct (Z.ltb_spec (vr c1 SP) low) as [|E2]; [done|].
    destruct (Z.leb_spec high (vr c1 SP)) as [|E3]; [done|]. cbn [negb orb].
    apply IH; [done|lia|right; split; [done|lia]].
  - split; [done|]. destruct Hs; [lia|done].
Qed.
End exec.

(** ** The index *)

Section index.
Context (ri : ex_region_info).
Hypothesis Hr : region_ok ri.
Definition idx_start : Z := sec_start ri QUADD_SEC_TYPE_EXIDX.
Definition idx_count : Z := ti_length (ex_sec ri QUADD_SEC_TYPE_EXIDX) / 8.

(** The start of function [i]; 0 when the address computed is. *)
Definition idx_at (i : Z) : Z :=
  let p := idx_start + 8 * i in
  let addr := u32 (eh_mmap_addr_to_ex_addr p ri QUADD_SEC_TYPE_EXIDX) in
  if addr =? 0 then 0 else u32 (addr + prel31 (le_dec (bytes_at ri p 4))).

Let Hsec : section_ok ri QUADD_SEC_TYPE_EXIDX := ro_sections _ Hr 1 ltac:(lia).

Lemma idx_range i : 0 <= i < idx_count ->
  8 <= mm_data (mmap ri) <= idx_start /\
  idx_start + 8 * i + 8 <= mm_data (mmap ri) + zlen (mm_bytes (mmap ri)) < 2 ^ 64 /\
  idx_count < 2 ^ 28.
Proof.
  unfold idx_count, idx_start, sec_start. intros Hi. pose proof (ro_lengths _ Hr 1 ltac:(lia)) as Hl.
  destruct Hsec as [S1 S2 S3 S4 S5 S6 S7].
  change QUADD_SEC_TYPE_EXIDX with 1 in *.
  split; [lia|]. split; [dlia|dlia].
Qed.

Lemma idx_addr_at i : 0 <= i < idx_count -> idx_addr ri (idx_start + 8 * i) = Done (idx_at i).
Proof.
  intros Hi. pose proof (idx_range i Hi) as (R1 & R2 & R3).
  unfold idx_addr, mmap_prel31_to_addr. rewrite plain_load_ok by lia. cbn [mbind outcome_bind].
  unfold idx_at. by destruct (_ =? 0).
Qed.

(** NULL, or an entry whose function starts at or before [addr], the next after. *)
Definition idx_found (addr : Z) (r : Z * Z) : Prop :=
  exists k, 0 <= k < idx_count - 1 /\ r = (idx_start + 8 * k, idx_at k) /\
    idx_at k <= addr < idx_at (k + 1).

Lemma find_loop_spec addr fuel : forall i j, 0 <= i < j -> j < idx_count ->
  j - i <= 2 ^ (Z.of_nat fuel - 1) -> (0 < fuel)%nat -> idx_at i <= addr < idx_at j ->
  exists p, find_loop fuel ri addr (idx_start + 8 * i) (idx_start + 8 * j) = Done p /\
    ((p = 0 /\ exists m, 0 <= m < idx_count /\ idx_at m = 0) \/
     exists k, i <= k < j /\ p = idx_start + 8 * k /\ idx_at k <= addr < idx_at (k + 1)).
Proof.
  induction fuel as [|fuel IH]; intros i j Hij Hj Hf H0 Ha; [lia|]. cbn [find_loop].
  pose proof (idx_range j ltac:(lia)) as (R1 & R2 & R3).
  rewrite u64_small by lia. destruct (Z.ltb_spec (idx_start + 8 * i) (idx_start + 8 * j - 8)).
  - replace ((idx_start + 8 * j - (idx_start + 8 * i)) / 8) with (j - i) by dlia.
    rewrite Z.shiftr_div_pow2 by lia. change (2 ^ 1) with 2.
    replace (idx_start + 8 * i + 8 * ((j - i) / 2)) with (idx_start + 8 * (i + (j - i) / 2)) by lia.
    set (mid := i + (j - i) / 2). assert (i < mid < j) as Hm by (unfold mid; dlia).
    assert (1 <= Z.of_nat fuel) as Hfuel.
    { destruct fuel; [|lia]. change (2 ^ (Z.of_nat 1 - 1)) with 1 in Hf. lia. }
    assert (2 ^ (Z.of_nat (S fuel) - 1) = 2 * 2 ^ (Z.of_nat fuel - 1)) as Hp
      by (rewrite <- Z.pow_succ_r by lia; f_equal; lia).
    rewrite Hp in Hf. rewrite u64_small by lia. rewrite (idx_addr_at mid) by lia.
    cbn [mbind outcome_bind]. destruct (Z.eqb_spec (idx_at mid) 0) as [Ez|].
    + exists 0. split; [done|]. left. split; [done|]. exists mid. split; [lia|done].
    + destruct (Z.ltb_spec addr (idx_at mid)).
      * destruct (IH i mid) as (p & E & Hp'); try (done || lia); [unfold mid; dlia|].
        exists p. split; [done|]. destruct Hp' as [?|(k & ? & ?)]; [by left|]. right. exists k. split; [lia|done].
      * destruct (IH mid j) as (p & E & Hp'); try (done || lia); [unfold mid; dlia|].
        exists p. split; [done|]. destruct Hp' as [?|(k & ? & ?)]; [by left|]. right. exists k. split; [lia|done].
  - exists (idx_start + 8 * i). split; [done|]. right. exists i. split; [lia|]. split; [done|].
    by replace (i + 1) with j by lia.
Qed.

Lemma find_idx_cases addr : exists r, unwind_find_idx ri addr = Done r /\
  (r = (0, 0) /\ (idx_count = 0 \/ addr < idx_at 0 \/ idx_at (idx_count - 1) <= addr \/
                  exists m, 0 <= m < idx_count /\ idx_at m = 0) \/
   idx_found addr r /\ idx_at 0 <= addr < idx_at (idx_count - 1)).
Proof.
  unfold unwind_find_idx. fold idx_count. destruct (Z.eqb_spec idx_count 0) as [|Hn].
  { exists (0, 0). split; [done|]. left. auto. }
  assert (0 < idx_count) as Hp.
  { destruct Hsec as [_ _ _ _ _ S6 _]. unfold idx_count in *. dlia. }
  pose proof (idx_range (idx_count - 1) ltac:(lia)) as (R1 & R2 & R3).
  change (mm_data (mmap ri) + ti_mmap_offset (ex_sec ri QUADD_SEC_TYPE_EXIDX)) with idx_start.
  rewrite (u64_small idx_start), u64_small by lia.
  pose proof (idx_addr_at 0 ltac:(lia)) as E0. rewrite Z.mul_0_r, Z.add_0_r in E0.
  rewrite E0. cbn [mbind outcome_bind].
  destruct (Z.eqb_spec (idx_at 0) 0) as [Ez|]; cbn [orb].
  { exists (0, 0). split; [done|]. left. split; [done|]. do 3 right. exists 0. split; [lia|done]. }
  destruct (Z.ltb_spec addr (idx_at 0)); [exists (0, 0); split; [done|]; left; auto|].
  rewrite (idx_addr_at (idx_count - 1)) by lia. cbn [mbind outcome_bind].
  destruct (Z.eqb_spec (idx_at (idx_count - 1)) 0) as [Ez|]; cbn [orb].
  { exists (0, 0). split; [done|]. left. split; [done|]. do 3 right. exists (idx_count - 1). split; [lia|done]. }
  destruct (Z.leb_spec (idx_at (idx_count - 1)) addr); [exists (0, 0); split; [done|]; left; auto|].
  assert (idx_count - 1 <> 0) by (intros E; rewrite E in *; lia).
  destruct (find_loop_spec addr find_fuel 0 (idx_count - 1)) as (p & E & Hp'); try (unfold find_fuel; lia).
  rewrite Z.mul_0_r, Z.add_0_r in E. rewrite E. cbn [mbind outcome_bind].
  destruct Hp' as [[-> Hm]|(k & K1 & -> & K2)].
  - exists (0, 0). split; [done|]. left. auto.
  - destruct (Z.eqb_spec (idx_start + 8 * k) 0); [lia|]. rewrite (idx_addr_at k) by lia.
    eexists. split; [done|]. right. split; [|lia]. by exists k.
Qed.
End index.

(** The search of the index ends, reads the index only, and finds the function an
    address belongs to. Between the first address and the last, when no entry
    computes to zero, it returns the entry whose function starts at or before the
    address while the next one starts after it, with that start; otherwise NULL. *)
Theorem unwind_find_idx_spec ri addr : region_ok ri ->
  (forall i, 0 <= i < idx_count ri -> idx_at ri i <> 0) -> 0 < idx_count ri ->
  exists r, unwind_find_idx ri addr = Done r /\
    if (addr <? idx_at ri 0) || (idx_at ri (idx_count ri - 1) <=? addr) then r = (0, 0)
    else idx_found ri addr r.
Proof.
  intros Hr Hnz Hn. destruct (find_idx_cases ri Hr addr) as (r & E & Hc). exists r. split; [done|].
  destruct Hc as [[-> Hc]|[Hf Hc]].
  - destruct Hc as [?|[?|[?|(m & Hm & Ez)]]]; [lia| | |by destruct (Hnz m Hm)];
      destruct (Z.ltb_spec addr (idx_at ri 0)), (Z.leb_spec (idx_at ri (idx_count ri - 1)) addr);
      try done; lia.
  - destruct (Z.ltb_spec addr (idx_at ri 0)), (Z.leb_spec (idx_at ri (idx_count ri - 1)) addr);
      try done; lia.
Qed.

(** ** The step *)

Section frame.
Context `{ShiftOps} `{Process}.
Context (vrs0 : list Z) (qd0 : quadd_disasm_data).
Hypothesis Hvrs : length vrs0 = 16%nat.

Lemma insn_start_safe ri k val : region_ok ri -> 0 <= k < idx_count ri ->
  safe (fun _ => True) (insn_start ri (idx_start ri + 8 * k) val).
Proof.
  intros Hr Hk. pose proof (idx_range ri Hr k Hk) as (R1 & R2 & R3). unfold insn_start.
  destruct (val =? 1); [done|]. destruct (_ =? 0); [|by destruct (_ =? _)].
  unfold mmap_prel31_to_addr. rewrite u64_small, plain_load_ok by lia. cbn [mbind outcome_bind].
  destruct (u32 _ =? 0); cbn [mbind outcome_bind mret outcome_ret]; [done|]. by destruct (_ =? 0).
Qed.

Lemma insn_size_safe val : safe (fun '(b, n) => 0 <= b <= 3 /\ 1 <= n <= 256) (insn_size val).
Proof.
  unfold insn_size. destruct (_ =? _); [cbn; lia|]. destruct (_ =? _); [|done].
  cbn [safe mret outcome_ret]. split; [lia|].
  assert (Z.shiftr (Z.land val 0x00ff0000) 16 = Z.land (Z.shiftr val 16) (2 ^ 8 - 1)) as ->
    by (by rewrite Z.shiftr_land).
  pose proof (land_ones_range (Z.shiftr val 16) 8). lia.
Qed.

Lemma disasm_max_le pc min : pc < 2 ^ 64 -> 0 <= min < 2 ^ 32 ->
  disasm_max pc min <= min + QUADD_DISASM_MAX.
Proof.
  intros Hp Hm. unfold disasm_max, QUADD_DISASM_MAX, QUADD_DISASM_MIN.
  destruct (Z.ltb_spec (u64 (pc - min)) 16); [rewrite u64_small; lia|].
  destruct (Z.ltb_spec (u64 (pc - min)) 128) as [Hlt|]; [|rewrite u64_small; lia].
  destruct (Z.lt_ge_cases pc min); [lia|]. rewrite u64_small in Hlt; lia.
Qed.

Lemma run_safe ut_ce ri frame low high c q : area_ok ri -> ctrl_ok c -> 0 < entries c <= 256 ->
  safe (fun f => sp_in low high (e_sp f) /\ validate_pc_addr (e_pc f) 4 = true)
    (unwind_run ut_ce ri frame low high c q).
Proof.
  intros Ha Hc He. unfold unwind_run.
  assert (bytes_left c < Z.of_nat eh_fuel) as Hf.
  { unfold bytes_left, eh_fuel. destruct (Z.leb_spec (entries c) 0); [lia|]. pose proof (ck_byte _ Hc). lia. }
  eapply safe_bind2; [apply exec_loop_ends; [done|done|done|lia]|]. intros c1 q1 [Hc1 Hs].
  destruct (ut_ce && _); [done|]. set (c2 := if vr c1 PC =? 0 then _ else _).
  assert (vr c2 SP = vr c1 SP) as Esp.
  { unfold c2. destruct (_ =? _); [|done]. unfold vr, set_vr, set_vrs. cbn [vrs].
    by rewrite list_lookup_total_insert_ne by done. }
  destruct (validate_pc_addr (vr c2 PC) 4) eqn:E; [|done].
  cbn [negb safe mret outcome_ret e_sp e_pc]. by rewrite Esp.
Qed.

Lemma eh_unwind_frame_ok um ri frame vma_sp thumbflag : region_ok ri ->
  e_pc frame < 2 ^ 64 ->
  safe (fun f => sp_in (e_sp frame) (vma_end vma_sp) (e_sp f) /\ validate_pc_addr (e_pc f) 4 = true)
    (unwind_frame vrs0 qd0 um ri frame vma_sp thumbflag).
Proof.
  intros Hr Hpc. pose proof (region_area ri Hr) as Ha. unfold unwind_frame.
  destruct (negb _); [done|].
  destruct (find_idx_cases ri Hr (u32 (e_pc frame))) as (r & -> & Hf). cbn [mbind outcome_bind].
  destruct Hf as [[-> _]|[(k & Hk & -> & _) _]]; [done|].
  assert (0 <= idx_at ri k < 2 ^ 32) as Hmin.
  { unfold idx_at. destruct (_ =? 0); [lia|]. apply u32_range. }
  destruct (is_err_or_null _); [done|].
  eapply safe_bind; [by apply eh_read_ends|]. intros val _.
  eapply safe_bind; [apply insn_start_safe; [done|lia]|]. intros insn _.
  eapply safe_bind; [by apply eh_read_ends|]. intros val2 _.
  eapply safe_bind2; [apply insn_size_safe|]. intros byte n [Hb Hn].
  apply (safe_bind (fun _ => True)).
  { destruct (um_ut_ce um); [|done]. pose proof (disasm_max_le (e_pc frame) _ Hpc Hmin) as Hd.
    apply disassemble_ends; [lia|done|]. unfold QUADD_DISASM_MAX in Hd. lia. }
  intros q _. apply run_safe; [done| |cbn; lia].
  split; [|done]. cbn [vrs]. by rewrite !length_insert.
Qed.
(** C34. A step of the EHABI unwinder ends and stays inside its memory. When the
    sections lie inside the mapped area (offset plus length, below 2 GB; that the
    offsets are in range is not checked where they come from user space,
    eh_unwind.c:559), then on any bytes in them the step reads no byte outside the
    area and writes no register outside the array; its loop is over within 1026
    instructions; and when it succeeds the stack pointer is aligned, not below the
    old one and below the end of the stack, and the return address is in the
    address space. *)
Theorem eh_unwind_frame_safe um ri frame vma_sp thumbflag : region_ok ri ->
  e_pc frame < 2 ^ 64 ->
  safe (fun f => sp_in (e_sp frame) (vma_end vma_sp) (e_sp f) /\ validate_pc_addr (e_pc f) 4 = true)
    (unwind_frame vrs0 qd0 um ri frame vma_sp thumbflag).
Proof. exact (eh_unwind_frame_ok um ri frame vma_sp thumbflag). Qed.
End frame.
