(* ===== verification/EhInsns.v ===== *)
(** * What the EHABI instructions mean

    The ABI for the ARM architecture (exception handling, 9.3) describes a frame by
    instructions on a virtual stack pointer and the core registers. The interpreter
    of EhAbi.v, on words in memory, implements them. *)

From stdpp Require Import gmap.
From S2P Require Import Prelude DwarfRead Callchain EhRegions Disasm EhAbi EhFacts.
#[local] Open Scope Z_scope.

(** ** Instructions and their encoding *)

Inductive vfp_kind := FSTMFDX | D16 | D0.

Inductive eh_insn :=
  | E_add (n : Z) | E_sub (n : Z) | E_refuse | E_pop (mask : Z) | E_mov_sp (r : Z)
  | E_pop_range (n : Z) (lr : bool) | E_finish | E_pop_low (mask : Z) | E_add_long (n : Z)
  | E_vfp (k : vfp_kind) (s n : Z) | E_vfp8 (fstmx : bool) (n : Z).

Definition eh_ok (i : eh_insn) : Prop :=
  match i with
  | E_add n | E_sub n => 0 <= n < 64
  | E_pop mask => 0 < mask < 2 ^ 12
  | E_mov_sp r => 0 <= r < 16 /\ r <> 13 /\ r <> 15
  | E_pop_range n _ | E_vfp8 _ n => 0 <= n < 8
  | E_pop_low mask => 0 < mask < 16
  | E_add_long n => 0 <= n < 2 ^ 31
  | E_vfp _ s n => 0 <= s < 16 /\ 0 <= n < 16
  | E_refuse | E_finish => True
  end.

Definition eh_enc (i : eh_insn) : list Z :=
  match i with
  | E_add n => [n]
  | E_sub n => [0x40 + n]
  | E_refuse => [0x80; 0]
  | E_pop mask => [0x80 + mask / 256; mask mod 256]
  | E_mov_sp r => [0x90 + r]
  | E_pop_range n lr => [0xa0 + n + if lr : bool then 8 else 0]
  | E_finish => [0xb0]
  | E_pop_low mask => [0xb1; mask]
  | E_add_long n => 0xb2 :: uleb_enc 5 n
  | E_vfp k s n => [match k with FSTMFDX => 0xb3 | D16 => 0xc8 | D0 => 0xc9 end; 16 * s + n]
  | E_vfp8 x n => [(if x : bool then 0xb8 else 0xd0) + n]
  end.

(** ** Meaning: on the registers, and on what the disassembler wants undone *)

Section meaning.
Context `{ShiftOps} `{Process}.

(** The registers of a mask whose lowest bit is for [base]. *)
Definition popped (base n : nat) (mask : Z) : list nat :=
  filter (fun r => Z.testbit mask (Z.of_nat (r - base)) = true) (seq base n).

(** Registers from ascending addresses. *)
Fixpoint pop_all (regs : list nat) (vsp : Z) (l : list Z) (q : quadd_disasm_data)
    : outcome (Z * list Z * quadd_disasm_data) :=
  match regs with
  | [] => mret (vsp, l, q)
  | r :: regs =>
      v ← read_user_data vsp 4;
      pop_all regs (u64 (vsp + 4)) (<[r := v]> l) (clear_reg (Z.of_nat r) q)
  end.

Definition sp_at (l : list Z) : Z := l !!! SP.
Definition sp_set (v : Z) (l : list Z) : list Z := <[SP := u32 v]> l.

(** Registers popped, and the stack pointer after them unless it was one. *)
Definition eh_pop (regs : list nat) (l : list Z) (q : quadd_disasm_data)
    : outcome (list Z * quadd_disasm_data) :=
  '(vsp, l, q) ← pop_all regs (sp_at l) l q;
  mret (if bool_decide (SP ∈ regs) then l else sp_set vsp l, q).

Definition clear_d (s n : Z) (q : quadd_disasm_data) : quadd_disasm_data :=
  (pop_vfp (Z.to_nat n) s 0 q).2.

Definition eh_apply (i : eh_insn) (l : list Z) (q : quadd_disasm_data)
    : outcome (list Z * quadd_disasm_data) :=
  let sp := sp_at l in
  match i with
  | E_add n => mret (sp_set (sp + (4 * n + 4)) l, set_stacksize (sw 64 (stacksize q - (4 * n + 4))) q)
  | E_sub n =>
      mret (sp_set (sp - (4 * n + 4)) l, set_stackreg (stackreg q) (sw 64 (stackoff q - (4 * n + 4))) q)
  | E_refuse => Error (- QUADD_URC_REFUSE_TO_UNWIND)
  | E_pop mask => eh_pop (popped 4 12 mask) l q
  | E_mov_sp r => mret (<[SP := l !!! Z.to_nat r]> l, set_ustackreg r q)
  | E_pop_range n lr => eh_pop (seq 4 (S (Z.to_nat n)) ++ if lr : bool then [LR] else []) l q
  | E_finish => mret (if l !!! PC =? 0 then <[PC := l !!! LR]> l else l, q)
  | E_pop_low mask => eh_pop (popped 0 4 mask) l q
  | E_add_long n => mret (sp_set (sp + (0x204 + 4 * n)) l, set_stacksize (sw 64 (stacksize q - (0x204 + 4 * n))) q)
  | E_vfp k s n =>
      mret (sp_set (sp + 8 * (n + 1) + match k with FSTMFDX => 4 | _ => 0 end) l,
            clear_d (match k with D16 => s + 16 | _ => s end) (n + 1) q)
  | E_vfp8 x n => mret (sp_set (sp + 8 * (n + 1) + if x : bool then 4 else 0) l, clear_d 8 (n + 1) q)
  end.

(** The instructions of a frame: every one leaves a stack pointer within bounds, and
    the first [E_finish] ends the sequence. *)
Definition sp_bad (low high sp : Z) : bool :=
  negb (Z.land sp 3 =? 0) || (sp <? low) || (high <=? sp).
Definition is_finish (i : eh_insn) : bool := match i with E_finish => true | _ => false end.

Fixpoint eh_run (low high : Z) (is_ : list eh_insn) (l : list Z) (q : quadd_disasm_data)
    : outcome (list Z * quadd_disasm_data) :=
  match is_ with
  | [] => mret (l, q)
  | i :: is_ =>
      '(l, q) ← eh_apply i l q;
      if sp_bad low high (sp_at l) then Error (- QUADD_URC_SP_INCORRECT)
      else if is_finish i then mret (l, q) else eh_run low high is_ l q
  end.
End meaning.

(** ** The bytes of a table entry *)

(** The bytes of a word in the order the interpreter takes them. *)
Definition word_bytes (w : Z) : list Z :=
  (fun k => Z.land (Z.shiftr w (k * 8)) 0xff) <$> [3; 2; 1; 0].

(** Readable words from [a] on. *)
Definition words_at (ri : ex_region_info) (a : Z) (ws : list Z) : Prop :=
  0 <= a /\ a + 4 * zlen ws < 2 ^ 64 /\
  forall (i : nat) w, ws !! i = Some w -> eh_read_mmap_data ri (a + 4 * Z.of_nat i) = Done w.

(** What is left to execute. *)
Definition stream (ri : ex_region_info) (c : unwind_ctrl_block) (bs : list Z) : Prop :=
  exists ws, entries c = zlen ws /\ words_at ri (insn c) ws /\ 0 <= byte c <= 3 /\
    (ws = [] -> byte c = 3) /\ bs = drop (Z.to_nat (3 - byte c)) (concat (word_bytes <$> ws)).

Lemma stream_vrs ri c l bs : stream ri c bs -> stream ri (set_vrs l c) bs.
Proof. done. Qed.

Lemma stream_end ri c : stream ri c [] -> entries c = 0.
Proof.
  intros (ws & E & _ & Hb & _ & Ed). destruct ws as [|w ws]; [done|]. exfalso.
  apply (f_equal length) in Ed. rewrite length_drop in Ed. cbn in Ed. lia.
Qed.

Lemma stream_byte ri c b bs : stream ri c (b :: bs) ->
  exists c', unwind_get_byte ri c = Done (b, c') /\ stream ri c' bs /\ vrs c' = vrs c.
Proof.
  intros (ws & E & (W1 & W2 & W3) & Hb & Hemp & Ed). destruct ws as [|w ws].
  { cbn in Ed. by rewrite drop_nil in Ed. }
  rewrite zlen_cons in *. pose proof (zlen_nonneg ws). unfold unwind_get_byte.
  destruct (Z.leb_spec (entries c) 0); [lia|].
  pose proof (W3 0%nat w eq_refl) as Ew. rewrite Z.mul_0_r, Z.add_0_r in Ew. rewrite Ew.
  cbn [mbind outcome_bind mret outcome_ret]. cbn [fmap list_fmap concat word_bytes app] in Ed.
  assert (words_at ri (u64 (insn c + 4)) ws) as Hnext.
  { rewrite u64_small by lia. split; [lia|]. split; [lia|]. intros i x Hx.
    rewrite <- (W3 (S i) x Hx). f_equal. lia. }
  destruct (Z.eqb_spec (byte c) 0) as [Ez|Ez].
  - eexists. split; [do 2 f_equal|split; [|done]].
    + rewrite Ez in *. by injection Ed as ->.
    + rewrite Ez in Ed. injection Ed as -> ->. exists ws. cbn. split; [lia|]. split; [done|].
      split; [lia|done].
  - assert (byte c = 1 \/ byte c = 2 \/ byte c = 3) as Hc by lia.
    eexists. split; [do 2 f_equal|split; [|done]].
    + destruct Hc as [Ec|[Ec|Ec]]; rewrite Ec in *; by injection Ed as ->.
    + exists (w :: ws). rewrite zlen_cons. cbn [entries insn byte]. split; [lia|].
      split; [split; [done|split; [rewrite zlen_cons; lia|done]]|]. split; [lia|]. split; [done|].
      destruct Hc as [Ec|[Ec|Ec]]; rewrite Ec in *; by injection Ed as _ ->.
Qed.

(** ** One instruction *)

Section simulate.
Context `{ShiftOps} `{Process}.
Context (ri : ex_region_info).

Lemma filter_ext_in (P Q : nat -> Prop) `{!forall x, Decision (P x), !forall x, Decision (Q x)}
    (l : list nat) :
  (forall x, x ∈ l -> P x <-> Q x) -> filter P l = filter Q l.
Proof.
  induction l as [|x l IH]; intros E; [done|]. rewrite !filter_cons, IH by (intros y Hy; apply E; by constructor).
  destruct (E x) as [E1 E2]; [by constructor|]. repeat case_decide; tauto.
Qed.

Lemma popped_S base n mask : 0 <= mask -> popped base (S n) mask =
  (if Z.odd mask then [base] else []) ++ popped (S base) n (Z.shiftr mask 1).
Proof.
  intros Hm. unfold popped. cbn [seq]. rewrite filter_cons, Nat.sub_diag. change (Z.of_nat 0) with 0.
  rewrite Z.bit0_odd.
  assert (filter (fun r => Z.testbit mask (Z.of_nat (r - base)) = true) (seq (S base) n) =
          filter (fun r => Z.testbit (Z.shiftr mask 1) (Z.of_nat (r - S base)) = true) (seq (S base) n)) as ->.
  { apply filter_ext_in. intros r Hr. apply elem_of_seq in Hr.
    rewrite Z.shiftr_spec by lia. replace (Z.of_nat (r - S base) + 1) with (Z.of_nat (r - base)) by lia. done. }
  by destruct (Z.odd mask); case_decide.
Qed.

Lemma popped_0 n : forall base, popped base n 0 = [].
Proof.
  induction n as [|n IH]; intros base; [done|]. rewrite popped_S by lia. cbn. apply IH.
Qed.

Definition regs_below (l : list nat) : Prop := Forall (fun r => (r < 16)%nat) l.

Lemma popped_below base n mask : (base + n <= 16)%nat -> regs_below (popped base n mask).
Proof.
  intros Hb. apply Forall_forall. intros r Hr.
  apply list_elem_of_In, list_elem_of_filter in Hr as [_ Hr].
  apply elem_of_seq in Hr. lia.
Qed.

(** [pop_all] on a control block. *)
Definition pops (regs : list nat) (vsp : Z) (c : unwind_ctrl_block) (q : quadd_disasm_data)
    : outcome (Z * unwind_ctrl_block * quadd_disasm_data) :=
  '(vsp, l, q) ← pop_all regs vsp (vrs c) q; mret (vsp, set_vrs l c, q).

Lemma pops_nil vsp c q : pops [] vsp c q = Done (vsp, c, q).
Proof. unfold pops, set_vrs. cbn. by destruct c. Qed.

Lemma pops_cons r regs vsp c q : (r < length (vrs c))%nat ->
  pops (r :: regs) vsp c q = ('(c, q) ← pop_reg r vsp c q; pops regs (u64 (vsp + 4)) c q).
Proof.
  intros Hr. unfold pops, pop_reg. cbn [pop_all]. destruct (read_user_data vsp 4); try done.
  cbn [mbind outcome_bind]. by destruct (Nat.ltb_spec r (length (vrs c))); [|lia].
Qed.

Lemma pop_reg_length r vsp c q c' q' : pop_reg r vsp c q = Done (c', q') ->
  length (vrs c') = length (vrs c).
Proof.
  unfold pop_reg. intros E. inv_bind E. destruct (_ <? _)%nat; [|done]. inv_done.
  by rewrite length_insert.
Qed.

Lemma pop_mask_pops n : forall mask reg vsp c q, 0 <= mask < 2 ^ Z.of_nat n ->
  length (vrs c) = 16%nat -> (reg + n <= 16)%nat ->
  pop_mask n mask reg vsp c q = pops (popped reg n mask) vsp c q.
Proof.
  induction n as [|n IH]; intros mask reg vsp c q Hm Hc Hr; cbn [pop_mask].
  { change (2 ^ Z.of_nat 0) with 1 in Hm. destruct (Z.eqb_spec mask 0); [|lia]. by rewrite pops_nil. }
  pose proof (shiftr_lt mask n Hm) as Hs.
  destruct (Z.eqb_spec mask 0) as [->|]; [by rewrite popped_0, pops_nil|].
  rewrite popped_S by lia. destruct (Z.odd mask); [|by apply IH; [|done|lia]].
  cbn [app]. rewrite pops_cons by lia.
  destruct (pop_reg reg vsp c q) as [[c1 q1]|e| |] eqn:E; try done. cbn [mbind outcome_bind].
  apply pop_reg_length in E. apply IH; [done|congruence|lia].
Qed.

Lemma pop_range_pops n : forall reg vsp c q, length (vrs c) = 16%nat -> (reg + n <= 16)%nat ->
  pop_range n reg vsp c q = pops (seq reg n) vsp c q.
Proof.
  induction n as [|n IH]; intros reg vsp c q Hc Hr; cbn [pop_range seq]; [by rewrite pops_nil|].
  rewrite pops_cons by lia. destruct (pop_reg reg vsp c q) as [[c1 q1]|e| |] eqn:E; try done.
  cbn [mbind outcome_bind]. apply pop_reg_length in E. apply IH; [congruence|lia].
Qed.

Lemma pops_app l1 : forall l2 vsp c q, regs_below (l1 ++ l2) -> length (vrs c) = 16%nat ->
  pops (l1 ++ l2) vsp c q = ('(vsp, c, q) ← pops l1 vsp c q; pops l2 vsp c q).
Proof.
  induction l1 as [|r l1 IH]; intros l2 vsp c q Hb Hc; [by rewrite pops_nil|].
  apply Forall_cons_1 in Hb as [Hr Hb]. cbn [app]. rewrite !pops_cons by lia.
  destruct (pop_reg r vsp c q) as [[c1 q1]|e| |] eqn:E; try done. cbn [mbind outcome_bind].
  apply pop_reg_length in E. apply IH; [done|congruence].
Qed.

(** What one instruction has to do with the rest of the stream. *)
Definition eh_simulates (i : eh_insn) (c : unwind_ctrl_block) (q : quadd_disasm_data) (bs : list Z)
    (o : exec_result) : Prop :=
  match eh_apply i (vrs c) q with
  | Done (l, q') => exists c', o = Done (c', q') /\ vrs c' = l /\ length l = 16%nat /\
      if is_finish i then entries c' = 0 else stream ri c' bs
  | Error e => o = Error e
  | _ => False
  end.

Lemma pop_all_cases regs : forall vsp l q,
  match pop_all regs vsp l q with
  | Done (_, l', _) => length l' = length l | Error _ => True | _ => False end.
Proof.
  induction regs as [|r regs IH]; intros vsp l q; [done|]. cbn [pop_all].
  unfold read_user_data. destruct (copy_from_user vsp 4); [|done]. cbn [mbind outcome_bind].
  specialize (IH (u64 (vsp + 4)) (<[r:=z]> l) (clear_reg (Z.of_nat r) q)).
  rewrite length_insert in IH. exact IH.
Qed.

Lemma eh_pop_simulates i c c1 q bs regs o : is_finish i = false ->
  eh_apply i (vrs c) q = eh_pop regs (vrs c) q -> length (vrs c) = 16%nat -> vrs c1 = vrs c ->
  stream ri c1 bs ->
  o = ('(vsp, c2, q) ← pops regs (sp_at (vrs c)) c1 q;
       mret (if bool_decide (SP ∈ regs) then c2 else set_vr SP (u32 vsp) c2, q)) ->
  eh_simulates i c q bs o.
Proof.
  intros Hi Ha Hl Hv Hs ->. unfold eh_simulates. rewrite Ha, Hi. unfold eh_pop, pops. rewrite Hv.
  pose proof (pop_all_cases regs (sp_at (vrs c)) (vrs c) q) as Hp.
  destruct (pop_all _ _ _ _) as [[[v l] q']|e| |]; try done. cbn [mbind outcome_bind mret outcome_ret].
  destruct (bool_decide _).
  - exists (set_vrs l c1). split; [done|]. split; [done|]. split; [congruence|]. by apply stream_vrs.
  - exists (set_vr SP (u32 v) (set_vrs l c1)). split; [done|]. split; [done|].
    split; [unfold sp_set; rewrite length_insert; congruence|]. by apply stream_vrs.
Qed.

(** *** The first byte *)

(** Which case of the chain takes it. *)
Definition op_class (op : Z) : nat :=
  if Z.land op 0xc0 =? 0x00 then 0
  else if Z.land op 0xc0 =? 0x40 then 1
  else if Z.land op 0xf0 =? 0x80 then 2
  else if (Z.land op 0xf0 =? 0x90) && negb (Z.land op 0x0d =? 0x0d) then 3
  else if Z.land op 0xf0 =? 0xa0 then 4
  else if op =? 0xb0 then 5
  else if op =? 0xb1 then 6
  else if op =? 0xb2 then 7
  else if (op =? 0xb3) || (op =? 0xc8) || (op =? 0xc9) then 8
  else if (Z.land op 0xf8 =? 0xb8) || (Z.land op 0xf8 =? 0xd0) then 9
  else 10%nat.

Definition exec_class (op : Z) (c : unwind_ctrl_block) (q : quadd_disasm_data) : exec_result :=
  match op_class op with
  | 0%nat =>
      let n := Z.shiftl (Z.land op 0x3f) 2 + 4 in
      mret (set_vr SP (u32 (vr c SP + n)) c, set_stacksize (sw 64 (stacksize q - n)) q)
  | 1%nat =>
      let n := Z.shiftl (Z.land op 0x3f) 2 + 4 in
      mret (set_vr SP (u32 (vr c SP - n)) c, set_stackreg (stackreg q) (sw 64 (stackoff q - n)) q)
  | 2%nat => exec_pop_mask ri op c q
  | 3%nat => mret (set_vr SP (vr c (Z.to_nat (Z.land op 0x0f))) c, set_ustackreg (Z.land op 0xf) q)
  | 4%nat => exec_pop_range op c q
  | 5%nat => mret (set_entries 0 (if vr c PC =? 0 then set_vr PC (vr c LR) c else c), q)
  | 6%nat => exec_pop_low ri c q
  | 7%nat => exec_vsp_uleb ri c q
  | 8%nat => exec_pop_vfp ri op c q
  | 9%nat => exec_pop_vfp8 op c q
  | _ => Error (- QUADD_URC_UNHANDLED_INSTRUCTION)
  end.

Lemma exec_insn_class c q :
  unwind_exec_insn ri c q = ('(op, c) ← unwind_get_byte ri c; exec_class op c q).
Proof.
  unfold unwind_exec_insn, exec_class, op_class.
  destruct (unwind_get_byte ri c) as [[op c1]|e| |]; try done. cbn [mbind outcome_bind].
  by repeat match goal with |- (if ?b then _ else _) = _ => destruct b end.
Qed.

(** A fact about the numbers below [n], by computation. *)
Lemma below n (P : Z -> bool) : forallb P (map Z.of_nat (seq 0 n)) = true ->
  forall x, 0 <= x < Z.of_nat n -> P x = true.
Proof.
  intros Hf x Hx. rewrite forallb_forall in Hf. apply Hf, in_map_iff. exists (Z.to_nat x).
  split; [lia|]. apply in_seq. lia.
Qed.

Definition starts (i : eh_insn) (op : Z) (bs : list Z) (c : unwind_ctrl_block) (q : quadd_disasm_data)
    : Prop :=
  forall c1, unwind_get_byte ri c = Done (op, c1) -> vrs c1 = vrs c ->
  stream ri c1 (tail (eh_enc i) ++ bs) ->
  eh_simulates i c q bs (exec_class op c1 q).

Lemma class_add n : 0 <= n < 64 ->
  op_class n = 0%nat /\ Z.shiftl (Z.land n 0x3f) 2 + 4 = 4 * n + 4 /\
  op_class (0x40 + n) = 1%nat /\ Z.shiftl (Z.land (0x40 + n) 0x3f) 2 + 4 = 4 * n + 4.
Proof.
  intros Hn. pose proof (below 64 (fun n => (op_class n =? 0)%nat &&
    (Z.shiftl (Z.land n 0x3f) 2 + 4 =? 4 * n + 4) && (op_class (0x40 + n) =? 1)%nat &&
    (Z.shiftl (Z.land (0x40 + n) 0x3f) 2 + 4 =? 4 * n + 4)) eq_refl n Hn) as Hb.
  cbv beta in Hb. rewrite !andb_true_iff, !Nat.eqb_eq, !Z.eqb_eq in Hb. tauto.
Qed.

(** An instruction of one byte that changes no more than the virtual stack pointer. *)
Lemma simple_simulates i c c1 q q' l bs : is_finish i = false -> vrs c1 = vrs c -> stream ri c1 bs ->
  length (vrs c) = 16%nat -> length l = 16%nat -> eh_apply i (vrs c) q = Done (l, q') ->
  eh_simulates i c q bs (Done (set_vrs l c1, q')).
Proof.
  intros Hi Hv Hs Hl Hl' Ha. unfold eh_simulates. rewrite Ha, Hi. eexists. split; [done|].
  split; [done|]. split; [done|]. by apply stream_vrs.
Qed.

Lemma class_mov r : 0 <= r < 16 -> r <> 13 -> r <> 15 ->
  op_class (0x90 + r) = 3%nat /\ Z.land (0x90 + r) 0x0f = r.
Proof.
  intros Hr H1 H2. pose proof (below 16 (fun r => (r =? 13) || (r =? 15) ||
    (op_class (0x90 + r) =? 3)%nat && (Z.land (0x90 + r) 0x0f =? r)) eq_refl r Hr) as Hb.
  cbv beta in Hb. destruct (Z.eqb_spec r 13), (Z.eqb_spec r 15); try done. cbn [orb] in Hb.
  by rewrite andb_true_iff, Nat.eqb_eq, Z.eqb_eq in Hb.
Qed.

Lemma class_pop_range n (lr : bool) : 0 <= n < 8 ->
  let op := 0xa0 + n + if lr then 8 else 0 in
  op_class op = 4%nat /\ Z.land op 7 = n /\ (Z.land op 8 =? 0) = negb lr.
Proof.
  intros Hn. pose proof (below 8 (fun n => let op := 0xa0 + n + if lr then 8 else 0 in
    (op_class op =? 4)%nat && (Z.land op 7 =? n) && eqb (Z.land op 8 =? 0) (negb lr))
    ltac:(by destruct lr) n Hn) as Hb.
  cbv beta zeta in Hb. rewrite !andb_true_iff, Nat.eqb_eq, Z.eqb_eq, eqb_true_iff in Hb. cbv zeta. tauto.
Qed.

Lemma class_vfp8 (x : bool) n : 0 <= n < 8 -> let op := (if x then 0xb8 else 0xd0) + n in
  op_class op = 9%nat /\ Z.land op 7 = n /\ (Z.land op 0xf8 =? 0xb8) = x.
Proof.
  intros Hn. pose proof (below 8 (fun n => let op := (if x then 0xb8 else 0xd0) + n in
    (op_class op =? 9)%nat && (Z.land op 7 =? n) && eqb (Z.land op 0xf8 =? 0xb8) x)
    ltac:(by destruct x) n Hn) as Hb.
  cbv beta zeta in Hb. rewrite !andb_true_iff, Nat.eqb_eq, Z.eqb_eq, eqb_true_iff in Hb. cbv zeta. tauto.
Qed.

Lemma class_pop n : 0 <= n < 16 -> op_class (0x80 + n) = 2%nat.
Proof.
  intros Hn. pose proof (below 16 (fun n => (op_class (0x80 + n) =? 2)%nat) eq_refl n Hn) as Hb.
  by apply Nat.eqb_eq in Hb.
Qed.

(** *** Operands *)

Lemma stream_left c bs : stream ri c bs -> bytes_left c = zlen bs.
Proof.
  intros (ws & E & _ & Hb & Hemp & ->). unfold bytes_left. rewrite E.
  assert (length (concat (word_bytes <$> ws)) = 4 * length ws)%nat as L.
  { clear. induction ws as [|w ws IH]; [done|]. rewrite fmap_cons. cbn [concat].
    rewrite length_app, IH. cbn [length]. change (length (word_bytes w)) with 4%nat. lia. }
  unfold zlen at 3. rewrite length_drop, L. destruct ws as [|w ws].
  - rewrite Hemp by done. done.
  - rewrite zlen_cons. pose proof (zlen_nonneg ws).
    destruct (Z.leb_spec (1 + zlen ws) 0); [lia|]. unfold zlen in *. cbn [length]. lia.
Qed.

Lemma uleb_stream bs : forall fuel c result shift count rest, leb_complete bs ->
  stream ri c (bs ++ rest) -> zlen bs < Z.of_nat fuel ->
  exists c', uleb_loop fuel ri c result shift count =
      Done (leb_fold bs result shift, count + zlen bs, c') /\ stream ri c' rest /\ vrs c' = vrs c.
Proof.
  induction bs as [|b bs IH]; intros fuel c result shift count rest Hc Hs Hf; [done|].
  rewrite zlen_cons in *. pose proof (zlen_nonneg bs). destruct fuel as [|fuel]; [lia|].
  assert (0 <= b < 256) as Hbr by (destruct bs; cbn in Hc; lia).
  cbn [app] in Hs. apply stream_byte in Hs as (c1 & Eb & Hs & Hv). cbn [uleb_loop].
  rewrite Eb. cbn [mbind outcome_bind]. rewrite land_pow7 by done. destruct bs as [|b' bs].
  - cbn in Hc. destruct (Z.ltb_spec b 128); [|lia]. exists c1. by split_and!.
  - destruct Hc as [Hb' Hc]. destruct (Z.ltb_spec b 128); [lia|].
    destruct (IH fuel c1 (Z.lor result (u64 (int_shl (Z.land b 127) shift))) (shift + 7) (count + 1) rest)
      as (c' & E & Hs' & Hv'); [done|done|lia|].
    exists c'. rewrite E. cbn [leb_fold]. split; [do 2 f_equal; f_equal; lia|]. split; [done|congruence].
Qed.

Lemma u32_u64 x : u32 (u64 x) = u32 x.
Proof.
  unfold uw. change (2 ^ 64) with (2 ^ 32 * 2 ^ 32). rewrite Z.rem_mul_r by lia.
  rewrite Z.mul_comm, Z.mod_add by lia. apply Z.mod_mod. lia.
Qed.
Lemma u32_u64_add x y : u32 (u64 x + y) = u32 (x + y).
Proof. rewrite <- (uw_add_l 32 (u64 x)), u32_u64. apply uw_add_l. Qed.

Lemma pop_vfp_spec n : forall i vsp q,
  u32 (pop_vfp n i vsp q).1 = u32 (vsp + 8 * Z.of_nat n) /\
  (pop_vfp n i vsp q).2 = (pop_vfp n i 0 q).2.
Proof.
  induction n as [|n IH]; intros i vsp q; cbn [pop_vfp].
  { cbn [fst snd]. by rewrite Z.add_0_r. }
  destruct (IH (i + 1) (u64 (vsp + 8)) (clear_d_reg i q)) as [I1 I2].
  destruct (IH (i + 1) (u64 (0 + 8)) (clear_d_reg i q)) as [_ I3].
  split; [|congruence]. rewrite I1, u32_u64_add. f_equal. lia.
Qed.

Lemma data_split s n : 0 <= s < 16 -> 0 <= n < 16 ->
  Z.shiftr (Z.land (16 * s + n) 0xf0) 4 = s /\ Z.land (16 * s + n) 0x0f = n.
Proof.
  intros Hs Hn. pose proof (below 256 (fun d => (Z.shiftr (Z.land d 0xf0) 4 =? d / 16) &&
    (Z.land d 0x0f =? d mod 16)) eq_refl (16 * s + n) ltac:(lia)) as Hb.
  cbv beta in Hb. rewrite andb_true_iff, !Z.eqb_eq in Hb. destruct Hb as [-> ->]. split; dlia.
Qed.

Lemma pop_mask_value mask : 0 < mask < 2 ^ 12 ->
  Z.land (Z.lor (Z.shiftl (0x80 + mask / 256) 8) (mask mod 256)) 0x0fff = mask.
Proof.
  intros Hm. rewrite (lor_shiftl_add _ _ 8) by (try (apply Z.mod_pos_bound); lia).
  change 0xfff with (2 ^ 12 - 1). rewrite land_mask by lia. change (2 ^ 8) with 256.
  change (2 ^ 12) with 4096 in *. dlia.
Qed.

Lemma low_mask mask : 0 < mask < 16 -> Z.land mask 0xf0 = 0.
Proof.
  intros Hm. pose proof (below 16 (fun m => Z.land m 0xf0 =? 0) eq_refl mask ltac:(lia)) as Hb.
  by apply Z.eqb_eq.
Qed.

(** *** Every instruction *)

Section each.
Context (c : unwind_ctrl_block) (q : quadd_disasm_data) (bs : list Z).
Hypothesis Hl : length (vrs c) = 16%nat.

Lemma load_sp_in mask : 0 < mask < 2 ^ 12 ->
  negb (Z.land mask 0x200 =? 0) = bool_decide (SP ∈ popped 4 12 mask).
Proof.
  intros Hm. assert (negb (Z.land mask 0x200 =? 0) = Z.testbit mask 9) as ->.
  { destruct (Z.testbit mask 9) eqn:Et.
    - apply negb_true_iff, Z.eqb_neq. intros Ez. apply (f_equal (fun z => Z.testbit z 9)) in Ez.
      rewrite Z.land_spec, Et in Ez. done.
    - apply negb_false_iff, Z.eqb_eq, Z.bits_inj'. intros n Hn. rewrite Z.land_spec, Z.testbit_0_l.
      change 0x200 with (2 ^ 9). rewrite Z.pow2_bits_eqb by lia.
      destruct (Z.eqb_spec 9 n) as [<-|]; [by rewrite Et|by rewrite andb_false_r]. }
  symmetry.
  destruct (Z.testbit mask 9) eqn:Et.
  - apply bool_decide_eq_true_2, list_elem_of_filter. split; [exact Et|]. apply elem_of_seq. cbv; lia.
  - apply bool_decide_eq_false_2. intros Hin. apply list_elem_of_filter in Hin as [Hin _].
    change (Z.of_nat (SP - 4)) with 9 in Hin. congruence.
Qed.

Lemma sim_pop mask op c1 : 0 < mask < 2 ^ 12 -> op = 0x80 + mask / 256 -> vrs c1 = vrs c ->
  stream ri c1 ([mask mod 256] ++ bs) -> eh_simulates (E_pop mask) c q bs (exec_pop_mask ri op c1 q).
Proof.
  intros Hm -> Hv Hs. cbn [app] in Hs. apply stream_byte in Hs as (c2 & Eb & Hs & Hv2).
  apply (eh_pop_simulates _ c c2 q bs (popped 4 12 mask)); try done; [congruence|].
  unfold exec_pop_mask. rewrite Eb. cbn [mbind outcome_bind]. rewrite pop_mask_value by done.
  destruct (Z.eqb_spec mask 0); [lia|]. unfold vr. rewrite Hv. fold (sp_at (vrs c)).
  rewrite pop_mask_pops by (first [lia | by rewrite Hv2, Hv]). rewrite load_sp_in by done. done.
Qed.

Lemma sim_pop_low mask c1 : 0 < mask < 16 -> vrs c1 = vrs c ->
  stream ri c1 ([mask] ++ bs) -> eh_simulates (E_pop_low mask) c q bs (exec_pop_low ri c1 q).
Proof.
  intros Hm Hv Hs. cbn [app] in Hs. apply stream_byte in Hs as (c2 & Eb & Hs & Hv2).
  apply (eh_pop_simulates _ c c2 q bs (popped 0 4 mask)); try done; [congruence|].
  unfold exec_pop_low. rewrite Eb. cbn [mbind outcome_bind].
  destruct (Z.eqb_spec mask 0); [lia|]. rewrite low_mask by done. cbn [negb orb Z.eqb].
  unfold vr. rewrite Hv2, Hv. fold (sp_at (vrs c)).
  rewrite pop_mask_pops by (first [change (2 ^ Z.of_nat 4) with 16; lia | by rewrite Hv2, Hv]).
  destruct (pops _ _ _ _) as [[[v c3] q3]|e| |]; try done. cbn [mbind outcome_bind].
  rewrite bool_decide_eq_false_2; [done|]. intros Hin. apply list_elem_of_filter in Hin as [_ Hin].
  apply elem_of_seq in Hin. unfold SP in Hin. lia.
Qed.

Lemma sim_pop_range n lr op c1 : 0 <= n < 8 -> op = 0xa0 + n + (if lr : bool then 8 else 0) ->
  vrs c1 = vrs c -> stream ri c1 bs ->
  eh_simulates (E_pop_range n lr) c q bs (exec_pop_range op c1 q).
Proof.
  intros Hn Eop Hv Hs. destruct (class_pop_range n lr Hn) as (_ & E7 & E8). rewrite <- Eop in *.
  set (regs := seq 4 (S (Z.to_nat n)) ++ if lr then [LR] else []).
  assert (regs_below regs) as Hbelow.
  { unfold regs. apply Forall_app. split.
    - apply Forall_forall. intros r Hr. apply list_elem_of_In, elem_of_seq in Hr. lia.
    - destruct lr; repeat constructor. }
  apply (eh_pop_simulates _ c c1 q bs regs); try done.
  unfold exec_pop_range. rewrite E7, E8, pop_range_pops by (first [lia | by rewrite Hv]).
  unfold vr. rewrite Hv. fold (sp_at (vrs c)). unfold regs. rewrite pops_app by (first [done | by rewrite Hv]).
  destruct (pops (seq _ _) _ _ _) as [[[v c2] q2]|e| |] eqn:Ep; try done. cbn [mbind outcome_bind].
  assert (length (vrs c2) = 16%nat) as Hl2.
  { unfold pops in Ep. pose proof (pop_all_cases (seq 4 (S (Z.to_nat n))) (sp_at (vrs c)) (vrs c1) q) as Hp.
    destruct (pop_all _ _ _ _) as [[[v' l'] q']|e| |]; try done. injection Ep as _ <- _. cbn. by rewrite Hp, Hv. }
  assert (bool_decide (SP ∈ seq 4 (S (Z.to_nat n)) ++ (if lr then [LR] else [])) = false) as ->.
  { apply bool_decide_eq_false_2. intros Hin. apply elem_of_app in Hin as [Hin|Hin].
    - apply elem_of_seq in Hin. unfold SP in Hin. lia.
    - destruct lr; [|by apply not_elem_of_nil in Hin]. by apply list_elem_of_singleton in Hin. }
  destruct lr; cbn [negb].
  - rewrite pops_cons by (unfold LR; lia). destruct (pop_reg LR v c2 q2) as [[c3 q3]|e| |] eqn:E3;
      unfold LR in E3; rewrite E3; cbn [mbind outcome_bind]; rewrite ?pops_nil; done.
  - by rewrite pops_nil.
Qed.

Lemma sim_add_long n c1 : 0 <= n < 2 ^ 31 -> vrs c1 = vrs c ->
  stream ri c1 (uleb_enc 5 n ++ bs) -> eh_simulates (E_add_long n) c q bs (exec_vsp_uleb ri c1 q).
Proof.
  intros Hn Hv Hs. destruct (uleb_enc_spec 5 n ltac:(change (2 ^ (7 * Z.of_nat 5)) with (2 ^ 35); lia) ltac:(lia)) as (U1 & U2 & U3).
  set (us := uleb_enc 5 n) in *. assert (us <> []) as Hne by (by destruct us).
  assert (0 < zlen us) by (destruct us; [done|rewrite zlen_cons; pose proof (zlen_nonneg us); lia]).
  unfold exec_vsp_uleb, read_uleb128.
  destruct (uleb_stream us (S (Z.to_nat (bytes_left c1))) c1 0 0 0 bs U1 Hs) as (c2 & -> & Hs2 & Hv2).
  { rewrite (stream_left c1 _ Hs), zlen_app. pose proof (zlen_nonneg bs). lia. }
  cbn [mbind outcome_bind]. destruct (Z.eqb_spec (0 + zlen us) 0); [lia|].
  rewrite leb_fold_groups by (done || lia). rewrite U3, Z.mul_1_r, Z.add_0_l, sw_small, (u64_small n) by lia.
  rewrite Z.shiftl_mul_pow2, (u64_small (n * 2 ^ 2)), u64_small by lia.
  unfold vr. rewrite Hv2, Hv. fold (sp_at (vrs c)). replace (n * 2 ^ 2) with (4 * n) by lia.
  unfold set_vr. rewrite Hv2, Hv.
  apply (simple_simulates _ c c2); try done; [congruence|by rewrite length_insert].
Qed.

Lemma sim_vfp k s n c1 : 0 <= s < 16 -> 0 <= n < 16 -> vrs c1 = vrs c ->
  stream ri c1 ([16 * s + n] ++ bs) ->
  eh_simulates (E_vfp k s n) c q bs
    (exec_pop_vfp ri (match k with FSTMFDX => 0xb3 | D16 => 0xc8 | D0 => 0xc9 end) c1 q).
Proof.
  intros Hss Hn Hv Hs. cbn [app] in Hs. apply stream_byte in Hs as (c2 & Eb & Hs & Hv2).
  unfold exec_pop_vfp. rewrite Eb. cbn [mbind outcome_bind].
  destruct (data_split s n Hss Hn) as [-> ->]. unfold vr. rewrite Hv. fold (sp_at (vrs c)).
  set (from := if _ =? 0xc8 then s + 16 else s).
  assert (from = match k with D16 => s + 16 | _ => s end) as Ef by (by destruct k).
  destruct (pop_vfp_spec (S (Z.to_nat n)) from (sp_at (vrs c)) q) as [V1 V2].
  destruct (pop_vfp _ _ _ _) as [v q'] eqn:Ep. cbn [fst snd] in V1, V2.
  unfold set_vr. rewrite Hv2, Hv. set (v' := if _ =? 0xb3 then u64 (v + 4) else v).
  assert (u32 v' = u32 (sp_at (vrs c) + 8 * (n + 1) + match k with FSTMFDX => 4 | _ => 0 end)) as ->.
  { unfold v'. destruct k; cbn [Z.eqb Pos.eqb]; rewrite ?u32_u64, <- ?(uw_add_l 32 v), ?V1, ?uw_add_l;
      f_equal; lia. }
  apply (simple_simulates _ c c2); try done; [congruence|by rewrite length_insert|].
  cbn [eh_apply]. unfold clear_d. replace (Z.to_nat (n + 1)) with (S (Z.to_nat n)) by lia.
  by rewrite <- Ef, <- V2.
Qed.

Lemma sim_vfp8 x n c1 : 0 <= n < 8 -> vrs c1 = vrs c -> stream ri c1 bs ->
  eh_simulates (E_vfp8 x n) c q bs (exec_pop_vfp8 ((if x : bool then 0xb8 else 0xd0) + n) c1 q).
Proof.
  intros Hn Hv Hs. unfold exec_pop_vfp8. destruct (class_vfp8 x n Hn) as (_ & -> & ->).
  unfold vr. rewrite Hv. fold (sp_at (vrs c)).
  destruct (pop_vfp_spec (S (Z.to_nat n)) 8 (sp_at (vrs c)) q) as [V1 V2].
  destruct (pop_vfp _ _ _ _) as [v q'] eqn:Ep. cbn [fst snd] in V1, V2.
  unfold set_vr. rewrite Hv. set (v' := if x then _ else v).
  assert (u32 v' = u32 (sp_at (vrs c) + 8 * (n + 1) + if x then 4 else 0)) as ->.
  { unfold v'. destruct x; rewrite ?u32_u64, <- ?(uw_add_l 32 v), ?V1, ?uw_add_l; f_equal; lia. }
  apply (simple_simulates _ c c1); try done; [by rewrite length_insert|].
  cbn [eh_apply]. unfold clear_d. replace (Z.to_nat (n + 1)) with (S (Z.to_nat n)) by lia.
  by rewrite <- V2.
Qed.

Lemma sim_finish c1 : vrs c1 = vrs c ->
  eh_simulates E_finish c q bs
    (Done (set_entries 0 (if vr c1 PC =? 0 then set_vr PC (vr c1 LR) c1 else c1), q)).
Proof.
  intros Hv. unfold eh_simulates. cbn [eh_apply is_finish mret outcome_ret]. unfold vr. rewrite Hv.
  eexists. split; [done|]. split; [|split; [|done]].
  - by destruct (_ =? 0); cbn; rewrite Hv.
  - destruct (_ =? 0); by rewrite ?length_insert.
Qed.

(** An instruction in the stream does what it means. *)
Lemma sim_eh i : eh_ok i -> stream ri c (eh_enc i ++ bs) ->
  eh_simulates i c q bs (unwind_exec_insn ri c q).
Proof.
  intros Hok Hs. rewrite exec_insn_class.
  destruct i as [n|n| |mask|r|n lr| |mask|n|k s n|x n]; cbn [eh_enc eh_ok] in *; cbn [app] in Hs;
    apply stream_byte in Hs as (c1 & -> & Hs & Hv); cbn [mbind outcome_bind]; unfold exec_class.
  - destruct (class_add n Hok) as (-> & -> & _). unfold set_vr, vr. rewrite Hv.
    apply (simple_simulates _ c c1); try done. by rewrite length_insert.
  - destruct (class_add n Hok) as (_ & _ & -> & ->). unfold set_vr, vr. rewrite Hv.
    apply (simple_simulates _ c c1); try done. by rewrite length_insert.
  - change (op_class 0x80) with 2%nat. unfold exec_pop_mask.
    apply stream_byte in Hs as (c2 & -> & _). done.
  - rewrite class_pop by (change (2 ^ 12) with 4096 in Hok; dlia). by apply sim_pop.
  - destruct (class_mov r) as [-> ->]; [lia..|]. unfold set_vr, vr. rewrite Hv.
    apply (simple_simulates _ c c1); try done. by rewrite length_insert.
  - destruct (class_pop_range n lr Hok) as (-> & _). by apply sim_pop_range.
  - by apply sim_finish.
  - by apply sim_pop_low.
  - by apply sim_add_long.
  - replace (op_class _) with 8%nat by (by destruct k). destruct Hok. by apply sim_vfp.
  - destruct (class_vfp8 x n Hok) as (-> & _). by apply sim_vfp8.
Qed.
End each.
End simulate.

(** ** The instructions of a frame *)

Section run.
Context `{ShiftOps} `{Process}.
Context (ri : ex_region_info) (low high : Z).

Definition eh_bytes (is_ : list eh_insn) : list Z := concat (eh_enc <$> is_).

Lemma eh_enc_cons i : exists b bs, eh_enc i = b :: bs.
Proof. destruct i; cbn [eh_enc]; eauto. Qed.

Lemma stream_entries c b bs : stream ri c (b :: bs) -> 0 < entries c.
Proof.
  intros (ws & E & _ & _ & _ & Ed). rewrite E. destruct ws; [cbn in Ed; by rewrite drop_nil in Ed|].
  rewrite zlen_cons. pose proof (zlen_nonneg ws). lia.
Qed.

Lemma loop_run is_ : forall fuel c q, stream ri c (eh_bytes is_) -> Forall eh_ok is_ ->
  length (vrs c) = 16%nat -> (length is_ < fuel)%nat ->
  match eh_run low high is_ (vrs c) q with
  | Done (l, q') => exists c', exec_loop fuel ri low high c q = Done (c', q') /\ vrs c' = l /\
                               length l = 16%nat
  | Error e => exec_loop fuel ri low high c q = Error e
  | _ => False
  end.
Proof.
  induction is_ as [|i is_ IH]; intros fuel c q Hs Hok Hl Hf; destruct fuel as [|fuel]; try (cbn in Hf; lia).
  { cbn [eh_run exec_loop]. rewrite (stream_end ri c Hs). change (0 <? 0) with false. cbv iota.
    by exists c. }
  apply Forall_cons_1 in Hok as [Hi Hok]. cbn [length] in Hf. cbn [eh_run exec_loop].
  change (eh_bytes (i :: is_)) with (eh_enc i ++ eh_bytes is_) in Hs.
  assert (0 < entries c) as He.
  { destruct (eh_enc_cons i) as (b & bs & E). rewrite E in Hs. by apply stream_entries in Hs. }
  destruct (Z.ltb_spec 0 (entries c)); [|lia].
  pose proof (sim_eh ri c q (eh_bytes is_) Hl i Hi Hs) as Hsim. unfold eh_simulates in Hsim.
  destruct (eh_apply i (vrs c) q) as [[l q1]|e| |]; try done; cbn [mbind outcome_bind].
  2: by rewrite Hsim.
  destruct Hsim as (c1 & -> & Hv & Hl1 & Hnext). cbn [mbind outcome_bind].
  unfold sp_bad, vr, sp_at. rewrite Hv. destruct (_ || _ || _); [done|].
  destruct (is_finish i).
  - exists c1. split; [|done]. destruct fuel as [|fuel]; [lia|]. cbn [exec_loop]. by rewrite Hnext.
  - rewrite <- Hv. apply IH; [done|done|by rewrite Hv|lia].
Qed.

(** The caller's frame, by the meaning of the instructions. *)
Definition eh_caller (ut_ce : bool) (is_ : list eh_insn) (l : list Z) (q : quadd_disasm_data)
    : outcome stackframe :=
  '(l, q) ← eh_run low high is_ l q;
  if ut_ce && (quadd_check_unwind_result q <? 0) then Error (- QUADD_URC_UNWIND_MISMATCH)
  else
    let l := if l !!! PC =? 0 then <[PC := l !!! LR]> l else l in
    if negb (validate_pc_addr (l !!! PC) 4) then Error (- QUADD_URC_PC_INCORRECT)
    else mret (EhFrame (l !!! FP_THUMB) (l !!! FP_ARM) (l !!! SP) (l !!! LR) (l !!! PC)).

Lemma unwind_run_means ut_ce frame is_ c q : stream ri c (eh_bytes is_) -> Forall eh_ok is_ ->
  length (vrs c) = 16%nat -> (length is_ < eh_fuel)%nat ->
  unwind_run ut_ce ri frame low high c q = eh_caller ut_ce is_ (vrs c) q.
Proof.
  intros Hs Hok Hl Hf. unfold unwind_run, eh_caller.
  pose proof (loop_run is_ eh_fuel c q Hs Hok Hl Hf) as Hr.
  destruct (eh_run low high is_ (vrs c) q) as [[l q']|e| |]; try done; [|by rewrite Hr].
  destruct Hr as (c' & -> & Hv & _). cbn [mbind outcome_bind]. unfold vr. rewrite Hv.
  destruct (ut_ce && _); [done|]. destruct (l !!! PC =? 0); unfold set_vr; cbn [vrs set_vrs]; by rewrite Hv.
Qed.
End run.

(** ** The words of an entry *)

(** Four bytes a word, in the order the interpreter takes them. *)
Fixpoint pack (bs : list Z) : list Z :=
  match bs with
  | b3 :: b2 :: b1 :: b0 :: bs => (b0 + 2 ^ 8 * b1 + 2 ^ 16 * b2 + 2 ^ 24 * b3) :: pack bs
  | _ => []
  end.

Lemma word_bytes_pack b3 b2 b1 b0 : byte_ok b3 -> byte_ok b2 -> byte_ok b1 -> byte_ok b0 ->
  word_bytes (b0 + 2 ^ 8 * b1 + 2 ^ 16 * b2 + 2 ^ 24 * b3) = [b3; b2; b1; b0].
Proof.
  unfold byte_ok, word_bytes. intros. cbn [fmap list_fmap].
  change 255 with (2 ^ 8 - 1). rewrite !land_mask, !Z.shiftr_div_pow2 by lia.
  change (2 ^ (3 * 8)) with (2 ^ 24). change (2 ^ (2 * 8)) with (2 ^ 16).
  change (2 ^ (1 * 8)) with (2 ^ 8). change (2 ^ (0 * 8)) with 1.
  change (2 ^ 24) with 16777216. change (2 ^ 16) with 65536. change (2 ^ 8) with 256.
  repeat f_equal; dlia.
Qed.

Lemma pack_bytes n : forall bs, length bs = (4 * n)%nat -> bytes_ok bs ->
  concat (word_bytes <$> pack bs) = bs /\ length (pack bs) = n.
Proof.
  induction n as [|n IH]; intros bs Hl Hb; [by destruct bs|].
  destruct bs as [|b3 [|b2 [|b1 [|b0 bs]]]]; try (cbn in Hl; lia).
  unfold bytes_ok in Hb. do 4 apply Forall_cons_1 in Hb as [? Hb].
  destruct (IH bs) as [I1 I2]; [cbn in Hl; lia|done|]. cbn [pack]. rewrite fmap_cons. cbn [concat length].
  rewrite word_bytes_pack, I1, I2 by done. done.
Qed.

Definition finish_bytes (n : nat) : list Z := replicate n 0xb0.

(** Three bytes fit the word of personality routine 0; routine 1 counts its words. *)
Definition eh_words (is_ : list eh_insn) : list Z :=
  let bs := eh_bytes is_ in
  if (length bs <=? 3)%nat then pack (0x80 :: bs ++ finish_bytes (3 - length bs))
  else
    let n := (Z.to_nat ((zlen bs + 5) / 4)) in
    pack (0x81 :: Z.of_nat n - 1 :: bs ++ finish_bytes (4 * n - 2 - length bs)).
(** The instructions with the padding. *)
Definition eh_padded (is_ : list eh_insn) : list eh_insn :=
  let k := length (eh_bytes is_) in
  is_ ++ replicate (if (k <=? 3)%nat then 3 - k
                    else 4 * Z.to_nat ((Z.of_nat k + 5) / 4) - 2 - k) E_finish.

Lemma eh_bytes_app a b : eh_bytes (a ++ b) = eh_bytes a ++ eh_bytes b.
Proof. unfold eh_bytes. by rewrite fmap_app, concat_app. Qed.
Lemma eh_bytes_finish n : eh_bytes (replicate n E_finish) = finish_bytes n.
Proof. induction n as [|n IH]; [done|]. unfold eh_bytes, finish_bytes in *. cbn. by rewrite IH. Qed.

Lemma uleb_bytes_ok n : forall v, 0 <= v -> bytes_ok (uleb_enc n v).
Proof.
  induction n as [|n IH]; intros v Hv; [constructor|]. cbn [uleb_enc]. unfold byte_ok.
  destruct (Z.ltb_spec v 128); apply Forall_cons_2;
    [unfold byte_ok; lia|apply Forall_nil_2|unfold byte_ok; dlia|apply IH; dlia].
Qed.

Lemma eh_enc_bytes_ok i : eh_ok i -> bytes_ok (eh_enc i).
Proof.
  assert (forall b, 0 <= b < 256 -> bytes_ok [b]) as H1
    by (intros; apply Forall_cons_2; [done|apply Forall_nil_2]).
  assert (forall b b', 0 <= b < 256 -> 0 <= b' < 256 -> bytes_ok [b; b']) as H2
    by (intros; by apply Forall_cons_2; [|apply H1]).
  destruct i as [n|n| |mask|r|n lr| |mask|n|k s n|x n]; cbn [eh_ok eh_enc]; intros Hok;
    change (2 ^ 12) with 4096 in *; try (first [apply H1 | apply H2]; dlia).
  - apply H1. destruct lr; lia.
  - apply Forall_cons_2; [unfold byte_ok; lia|]. apply uleb_bytes_ok. lia.
  - apply H2; [destruct k|]; lia.
  - apply H1. destruct x; lia.
Qed.

Lemma eh_bytes_ok is_ : Forall eh_ok is_ -> bytes_ok (eh_bytes is_).
Proof.
  induction is_ as [|i is_ IH]; intros Hok; [apply Forall_nil_2|]. apply Forall_cons_1 in Hok as [Hi Hok].
  apply Forall_app. split; [by apply eh_enc_bytes_ok|by apply IH].
Qed.

Lemma land_field w m k : 0 <= k -> Z.land w (Z.shiftl m k) = Z.shiftl (Z.land (Z.shiftr w k) m) k.
Proof.
  intros Hk. apply Z.bits_inj'. intros n Hn. rewrite Z.land_spec, !Z.shiftl_spec, Z.land_spec by lia.
  destruct (Z.lt_ge_cases n k).
  - by rewrite !(Z.testbit_neg_r _ (n - k)), andb_false_r by lia.
  - rewrite Z.shiftr_spec by lia. do 2 f_equal. lia.
Qed.

Lemma header_word w b3 b2 b1 b0 : word_bytes w = [b3; b2; b1; b0] ->
  Z.land w 0xff000000 = Z.shiftl b3 24 /\ Z.shiftr (Z.land w 0x00ff0000) 16 = b2.
Proof.
  intros E. injection E as E3 E2 _ _. change (3 * 8) with 24 in E3. change (2 * 8) with 16 in E2.
  change 0xff000000 with (Z.shiftl 255 24). change 0x00ff0000 with (Z.shiftl 255 16).
  rewrite !land_field, E3, E2, Z.shiftr_shiftl_l, Z.shiftl_0_r by lia. done.
Qed.

Lemma finish_ok n : bytes_ok (finish_bytes n).
Proof. apply Forall_replicate. unfold byte_ok. lia. Qed.

(** What the interpreter makes of the words: the header, then the instructions. *)
Lemma eh_words_stream ri l a is_ : Forall eh_ok is_ -> zlen (eh_bytes is_) <= 1022 ->
  words_at ri a (eh_words is_) ->
  exists w byte n, eh_read_mmap_data ri a = Done w /\ insn_size w = Done (byte, n) /\
    stream ri (Ctrl l a n byte) (eh_bytes (eh_padded is_)).
Proof.
  intros Hok Hlen Hw. pose proof (eh_bytes_ok is_ Hok) as Hb. unfold eh_words, eh_padded in *.
  rewrite eh_bytes_app, eh_bytes_finish. set (bs := eh_bytes is_) in *.
  destruct (Nat.leb_spec (length bs) 3) as [Hle|Hgt].
  - set (all := 0x80 :: bs ++ finish_bytes (3 - length bs)) in *.
    destruct (pack_bytes 1 all) as [P1 P2].
    { unfold all. cbn [length]. rewrite length_app. unfold finish_bytes. rewrite length_replicate. lia. }
    { apply Forall_cons_2; [unfold byte_ok; lia|]. apply Forall_app. split; [done|apply finish_ok]. }
    destruct (pack all) as [|w [|? ?]] eqn:Ep; try discriminate P2. cbn [concat fmap list_fmap] in P1.
    rewrite app_nil_r in P1. destruct (word_bytes w) as [|b3 [|b2 [|b1 [|b0 [|? ?]]]]] eqn:Ew; try discriminate Ew.
    injection P1 as E3 E2. subst b3. destruct (header_word w _ _ _ _ Ew) as [Hh _].
    exists w, 2, 1. pose proof (proj2 (proj2 Hw) 0%nat w eq_refl) as Er.
    rewrite Z.mul_0_r, Z.add_0_r in Er. split; [done|]. unfold insn_size. rewrite Hh. split; [done|].
    exists [w]. split; [done|]. split; [done|]. cbn [byte]. split; [lia|]. split; [done|].
    cbn [concat fmap list_fmap]. rewrite Ew, app_nil_r, E2. by rewrite <- E2.
  - set (n := Z.to_nat ((zlen bs + 5) / 4)) in *.
    change (Z.of_nat (length bs)) with (zlen bs). fold n.
    assert (2 <= Z.of_nat n <= 256 /\ (length bs + 2 <= 4 * n)%nat) as [Hn Hfit].
    { unfold n. unfold zlen in *. split; [|]; dlia. }
    set (all := 0x81 :: Z.of_nat n - 1 :: bs ++ finish_bytes (4 * n - 2 - length bs)) in *.
    destruct (pack_bytes n all) as [P1 P2].
    { unfold all. cbn [length]. rewrite length_app. unfold finish_bytes. rewrite length_replicate. lia. }
    { do 2 (apply Forall_cons_2; [unfold byte_ok; lia|]). apply Forall_app. split; [done|apply finish_ok]. }
    destruct (pack all) as [|w ws] eqn:Ep; [cbn in P2; lia|]. rewrite fmap_cons in P1. cbn [concat] in P1.
    destruct (word_bytes w) as [|b3 [|b2 [|b1 [|b0 [|? ?]]]]] eqn:Ew; try discriminate Ew.
    injection P1 as E3 E2 Erest. subst b3 b2. destruct (header_word w _ _ _ _ Ew) as [Hh Hc].
    exists w, 1, (Z.of_nat n). pose proof (proj2 (proj2 Hw) 0%nat w eq_refl) as Er.
    rewrite Z.mul_0_r, Z.add_0_r in Er. split; [done|]. unfold insn_size. rewrite Hh, Hc.
    split; [cbn; do 2 f_equal; lia|].
    exists (w :: ws). cbn [entries insn byte]. split; [unfold zlen; by rewrite P2|]. split; [done|].
    split; [lia|]. split; [done|]. rewrite fmap_cons. cbn [concat]. rewrite Ew. exact (eq_sym Erest).
Qed.

Lemma eh_padded_ok is_ : Forall eh_ok is_ -> Forall eh_ok (eh_padded is_).
Proof. intros Hok. apply Forall_app. split; [done|]. by apply Forall_replicate. Qed.

Lemma eh_bytes_length is_ : (length is_ <= length (eh_bytes is_))%nat.
Proof.
  induction is_ as [|i is_ IH]; [done|]. change (eh_bytes (i :: is_)) with (eh_enc i ++ eh_bytes is_).
  rewrite length_app. destruct (eh_enc_cons i) as (b & bs & ->). cbn [length]. lia.
Qed.

Lemma eh_padded_length is_ : (length (eh_padded is_) <= length (eh_bytes is_) + 3)%nat.
Proof.
  unfold eh_padded. rewrite length_app, length_replicate. pose proof (eh_bytes_length is_).
  set (k := length (eh_bytes is_)) in *.
  destruct (Nat.leb_spec k 3); [lia|].
  assert (4 * Z.to_nat ((Z.of_nat k + 5) / 4) <= k + 5)%nat by dlia. lia.
Qed.

(** The entry [idx] of the index, in line or by a link, holds the instructions. *)
Definition eh_entry (ri : ex_region_info) (idx : Z) (is_ : list eh_insn) : Prop :=
  exists v a, eh_read_mmap_data ri (u64 (idx + 4)) = Done v /\ insn_start ri idx v = Done a /\
    words_at ri a (eh_words is_).

(** The registers a step starts with. *)
Definition eh_start (vrs0 : list Z) (f : stackframe) : list Z :=
  <[PC := 0]> (<[LR := u32 (e_lr f)]> (<[SP := u32 (e_sp f)]>
    (<[FP_ARM := u32 (e_fp_arm f)]> (<[FP_THUMB := u32 (e_fp_thumb f)]> vrs0)))).

(** C9. One step of the EHABI unwinder means what the ABI says. When the index entry
    of the pc holds a sequence of instructions as an assembler encodes it (at most
    the 1022 bytes that an entry can hold), the step returns the frame their meaning
    gives, and refuses when the meaning refuses: when a stack word cannot be read,
    the stack pointer leaves its bounds, the instructions say so, or the return
    address is not one. When the consistency check is asked for, the prologue is
    disassembled before, and the step refuses too when it cannot be, or when it
    does not agree with what the instructions restored. *)
Theorem eh_unwind_frame_means `{ShiftOps} `{Process} vrs0 qd0 um ri f vma_sp thumbflag idx min is_ :
  length vrs0 = 16%nat -> validate_stack_addr (e_sp f) (Some vma_sp) 4 = true ->
  unwind_find_idx ri (u32 (e_pc f)) = Done (idx, min) -> is_err_or_null idx = false ->
  eh_entry ri idx is_ -> Forall eh_ok is_ -> zlen (eh_bytes is_) <= 1022 ->
  unwind_frame vrs0 qd0 um ri f vma_sp thumbflag =
    (q ← (if um_ut_ce um then quadd_disassemble min (disasm_max (e_pc f) min) thumbflag
          else mret qd0);
     eh_caller (e_sp f) (vma_end vma_sp) (um_ut_ce um) (eh_padded is_) (eh_start vrs0 f) q).
Proof.
  intros Hl Hsp Hidx Hnull (v & a & Ev & Ea & Hw) Hok Hlen. unfold unwind_frame.
  rewrite Hsp, Hidx. cbn [negb mbind outcome_bind]. rewrite Hnull, Ev. cbn [mbind outcome_bind].
  rewrite Ea. cbn [mbind outcome_bind].
  destruct (eh_words_stream ri (eh_start vrs0 f) a is_ Hok Hlen Hw) as (w & byte & n & -> & Es & Hs).
  cbn [mbind outcome_bind]. rewrite Es. cbn [mbind outcome_bind].
  destruct (if um_ut_ce um then _ else _) as [q|e| |]; cbn [mbind outcome_bind]; try done.
  pose proof (eh_padded_length is_). unfold zlen in Hlen.
  apply (unwind_run_means ri _ _ _ _ _ (Ctrl (eh_start vrs0 f) a n byte)); [done|by apply eh_padded_ok| |].
  - unfold eh_start. cbn [vrs]. by rewrite !length_insert.
  - unfold eh_fuel. lia.
Qed.

(** ** An example

    A program at 0x10000 with two functions: at 0x11000, described in line, whose frame
    is eight bytes, r4 and lr; at 0x11100, described in the table, which keeps its
    stack pointer in r7 and saves r4 to r7 and lr. *)

Definition eh_frame_a : list eh_insn := [E_add 1; E_pop_range 0 true].
Definition eh_frame_b : list eh_insn := [E_mov_sp 7; E_add 3; E_pop_range 3 true].

Definition prel31_enc (target place : Z) : Z := (target - place) mod 2 ^ 31.
Definition eh_index : list Z :=
  [prel31_enc 0x11000 0x12000] ++ eh_words eh_frame_a ++
  [prel31_enc 0x11100 0x12008; prel31_enc 0x13000 0x1200c] ++ [prel31_enc 0x11200 0x12010; 1].
Definition eh_table : list Z := eh_words eh_frame_b.
Definition words_enc (ws : list Z) : list Z := concat (le_enc 4 <$> ws).

Definition eh_sections (st : Z) : extab_info :=
  if st =? QUADD_SEC_TYPE_EXIDX then Extab 0x12000 24 0 0 0
  else if st =? QUADD_SEC_TYPE_EXTAB then Extab 0x13000 8 24 0 0 else zero_extab.
Definition eh_region (tab : list Z) : ex_region_info :=
  Region 0x10000 0x20000 eh_sections (MmapArea true example_base (words_enc (eh_index ++ tab))).

Definition eh_process : Process := {|
  find_vma a := List.find (fun v => a <? vma_end v) [Vma 0x10000 0x20000; Vma 0xf000 0x3f000];
  copy_from_user a n := rd_le n (words_enc [1; 2; 4; 0x11008; 0; 0; 0; 0; 0; 0; 0; 0]) (a - 0x30000);
  TASK_SIZE := 2 ^ 32;
  task_mm := true;
|}.
Definition eh_first : stackframe := EhFrame 0x30000 0 0x30000 0x11105 0x11010.

Lemma eh_region_ok : region_ok (eh_region (eh_table ++ [0])).
Proof.
  assert (zlen (mm_bytes (mmap (eh_region (eh_table ++ [0])))) = 32) as Hz by by vm_compute.
  split; intros st Hst.
  - split; rewrite ?Hz; try (cbn -[words_enc]; unfold example_base; lia).
    + by apply bytes_ok_dec; vm_compute.
    + cbn -[words_enc]. unfold eh_sections. repeat case_match; cbn; lia.
    + cbn -[words_enc]. unfold eh_sections. repeat case_match; cbn; lia.
    + cbn -[words_enc]. unfold eh_sections. repeat case_match; cbn; lia.
  - cbn -[words_enc]. unfold eh_sections. repeat case_match; cbn; lia.
Qed.

(** The words of the table are readable by computation. *)
Definition words_bool (ri : ex_region_info) (a : Z) (ws : list Z) : bool :=
  (0 <=? a) && (a + 4 * zlen ws <? 2 ^ 64) &&
  forallb (fun i : nat => match eh_read_mmap_data ri (a + 4 * Z.of_nat i) with
                          | Done w => w =? ws !!! i | _ => false end) (seq 0 (length ws)).
Lemma words_dec ri a ws : words_bool ri a ws = true -> words_at ri a ws.
Proof.
  unfold words_bool. rewrite !andb_true_iff, forallb_forall, Z.leb_le, Z.ltb_lt.
  intros [[H1 H2] H3]. split; [done|]. split; [done|]. intros i w Hi.
  specialize (H3 i ltac:(apply in_seq; apply lookup_lt_Some in Hi; lia)).
  destruct (eh_read_mmap_data _ _); try done. apply Z.eqb_eq in H3 as ->.
  by rewrite (list_lookup_total_correct _ _ _ Hi).
Qed.

Definition eh_um : unw_methods := Methods true true false false.
Lemma eh_unwind_frame_means_witness :
  @unwind_frame example_shifts eh_process (replicate 16 0) (Disasm false 0 0 0 0 0 0 0 0) eh_um
    (eh_region (eh_table ++ [0])) eh_first (Vma 0xf000 0x3f000) false
  = Done (EhFrame 0x30000 0 0x30010 0x11008 0x11008).
Proof.
  rewrite (@eh_unwind_frame_means example_shifts eh_process _ _ _ _ _ _ _ example_base 0x11000 eh_frame_a).
  - by vm_compute.
  - done.
  - by vm_compute.
  - by vm_compute.
  - by vm_compute.
  - exists 0x8001a8b0, (example_base + 4). split; [by vm_compute|]. split; [by vm_compute|].
    by apply words_dec; vm_compute.
  - repeat (apply Forall_cons_2; [by vm_compute|]). apply Forall_nil_2.
  - by vm_compute.
Defined.

Lemma unwind_find_idx_spec_witness :
  exists r, unwind_find_idx (eh_region (eh_table ++ [0])) 0x11010 = Done r /\
    idx_found (eh_region (eh_table ++ [0])) 0x11010 r.
Proof.
  apply (unwind_find_idx_spec (eh_region (eh_table ++ [0])) 0x11010 eh_region_ok).
  - intros i Hi. assert (i = 0 \/ i = 1 \/ i = 2) as Hc by (change (idx_count _) with 3 in Hi; lia).
    destruct Hc as [->|[->| ->]]; by vm_compute.
  - by vm_compute.
Defined.

Lemma eh_unwind_frame_safe_witness :
  safe (fun f => sp_in 0x30000 0x3f000 (e_sp f) /\ @validate_pc_addr eh_process (e_pc f) 4 = true)
    (@unwind_frame example_shifts eh_process (replicate 16 0) (Disasm false 0 0 0 0 0 0 0 0) eh_um
      (eh_region (eh_table ++ [0])) eh_first (Vma 0xf000 0x3f000) false).
Proof.
  apply (@eh_unwind_frame_safe example_shifts eh_process (replicate 16 0)
           (Disasm false 0 0 0 0 0 0 0 0) eq_refl eh_um _ eh_first (Vma 0xf000 0x3f000) false eh_region_ok).
  cbn. lia.
Defined.
