(* ===== verification/EhWalk.v ===== *)
(** * Walking the stack with EHABI tables (eh_unwind.c, 1188-1401)

    The counterpart of DwarfUnwind.v for 32-bit ARM programs, and what holds of it
    whatever the tables contain. *)

From stdpp Require Import gmap.
From S2P Require Import Prelude DwarfRead Callchain EhRegions Disasm EhAbi EhFacts EhInsns.
#[local] Open Scope Z_scope.

(** The locals of the walk and what it changes. *)
Record eh_walk := EhWalk {
  v_w : world; v_cc : callchain; v_frame : stackframe;
  v_ri : ex_region; v_prev : option ex_region; v_thumb : bool;
}.
Definition set_v_cc (cc : callchain) (b : eh_walk) : eh_walk :=
  EhWalk (v_w b) cc (v_frame b) (v_ri b) (v_prev b) (v_thumb b).

Section walk.
Context `{ShiftOps} `{Process}.
(** The locals of unwind_frame before they are set. *)
Context (vrs0 : list Z) (qd0 : quadd_disasm_data).

(** The region of the code at pc; [false] when there is none. *)
Definition eh_switch_region (vma_pc : vm_area) (b : eh_walk) : outcome (bool * eh_walk) :=
  if is_vma_addr (ti_addr (xr_sec (v_ri b) QUADD_SEC_TYPE_EXIDX)) (Some vma_pc) 4
  then mret (true, b)
  else
    w ← put_prev (v_prev b) (v_w b);
    '(g, w) ← get_extabs_ehabi (vma_start vma_pc) w;
    match g with
    | inl _ =>
        mret (false, EhWalk w (set_urc_ut QUADD_URC_TBL_NOT_EXIST (v_cc b)) (v_frame b) (v_ri b)
                       None (v_thumb b))
    | inr x => mret (true, EhWalk w (v_cc b) (v_frame b) x (Some x) (v_thumb b))
    end.

(** unwind_frame on the walk: the error code, if any. *)
Definition eh_step (vma_sp : vm_area) (b : eh_walk) : outcome (Z + stackframe) :=
  ri ← view (v_w b) (v_ri b);
  match unwind_frame vrs0 qd0 (um (v_cc b)) ri (v_frame b) vma_sp (v_thumb b) with
  | Done f => mret (inr f)
  | Error e => mret (inl e)
  | Faulty site => Faulty site
  | Timeout => Timeout
  end.

(** What the walk records of a frame, and whether it goes on. *)
Definition eh_record (f : stackframe) (b : eh_walk) : outcome (bool * eh_walk) :=
  let cc := set_curr (e_sp f) (e_fp_arm f) (e_fp_thumb f) (e_pc f) (e_lr f) (v_cc b) in
  '(added, cc) ← quadd_callchain_store cc (e_pc f) QUADD_UNW_TYPE_UT;
  mret (negb (added =? 0),
        EhWalk (v_w b) cc f (v_ri b) (v_prev b) (negb (Z.land (e_lr f) 1 =? 0))).

(** One round of the loop; [false] is a break. *)
Definition eh_walk_body (vma_sp : vm_area) (b : eh_walk) : outcome (bool * eh_walk) :=
  if negb task_mm then mret (false, b)
  else if negb (validate_stack_addr (e_sp (v_frame b)) (Some vma_sp) 4)
  then mret (false, set_v_cc (set_urc_ut QUADD_URC_SP_INCORRECT (v_cc b)) b)
  else
    match find_vma (e_pc (v_frame b)) with
    | None => mret (false, b)
    | Some vma_pc =>
        '(go, b) ← eh_switch_region vma_pc b;
        if negb go then mret (false, b)
        else
          r ← eh_step vma_sp b;
          match r with
          | inl e => mret (false, set_v_cc (set_urc_ut (- e) (v_cc b)) b)
          | inr f => eh_record f b
          end
    end.

(** Every round but the last adds one of at most 64 addresses. *)
Definition eh_walk_fuel : nat := 66.

Definition eh_unwind_backtrace (cc : callchain) (x : ex_region) (f : stackframe) (vma_sp : vm_area)
    (thumbflag : bool) (w : world) : outcome (callchain * world) :=
  b ← chain_loop (eh_walk_body vma_sp) eh_walk_fuel
        (EhWalk w (set_urc_ut QUADD_URC_FAILURE cc) f x None thumbflag);
  w ← put_prev (v_prev b) (v_w b);
  mret (v_cc b, w).

(** The frame at the sample, or where the chain has come to, and the mode. *)
Definition eh_start_frame (r : pt_regs) (cc : callchain) : stackframe * bool :=
  if negb (curr_sp cc =? 0)
  then (EhFrame (curr_fp_thumb cc) (curr_fp cc) (curr_sp cc) (curr_lr cc) (curr_pc cc),
        negb (Z.land (curr_lr cc) 1 =? 0))
  else (EhFrame (r_reg r 7) (r_reg r 11) (quadd_user_stack_pointer r) (quadd_user_link_register r)
          (instruction_pointer r), r_thumb r).

(** The number of addresses returned, and the state. *)
Definition quadd_get_user_cc_arm32_ehabi (ev : event_context) (cc : callchain) (w : world)
    : outcome (Z * callchain * world) :=
  match ev_regs ev, task_mm with
  | Some r, true =>
      if negb (r_compat r) then mret (0, cc, w)
      else if urc_ut cc =? QUADD_URC_LEVEL_TOO_DEEP then mret (nr cc, cc, w)
      else
        let cc := set_urc_ut QUADD_URC_FAILURE cc in
        let '(f, thumbflag) := eh_start_frame r cc in
        match find_vma (e_pc f) with
        | None => mret (0, cc, w)
        | Some vma =>
            match find_vma (e_sp f) with
            | None => mret (0, cc, w)
            | Some vma_sp =>
                '(g, w) ← get_extabs_ehabi (vma_start vma) w;
                match g with
                | inl _ => mret (0, set_urc_ut QUADD_URC_TBL_NOT_EXIST cc, w)
                | inr x =>
                    '(cc, w) ← eh_unwind_backtrace cc x f vma_sp thumbflag w;
                    w ← put_extabs_ehabi x w;
                    mret (nr cc, cc, w)
                end
            end
        end
  | _, _ => mret (0, cc, w)
  end.

(** Whether there is an entry that can be unwound. *)
Definition ehabi_entry_usable (ri : ex_region_info) (addr : Z) : outcome bool :=
  '(idx, _) ← unwind_find_idx ri (u32 addr);
  if is_err_or_null idx then mret false
  else
    match eh_read_mmap_data ri (u64 (idx + 4)) with
    | Done value => mret (negb (value =? 1))
    | Error _ => mret false
    | Faulty site => Faulty site
    | Timeout => Timeout
    end.

Definition quadd_is_ex_entry_exist_arm32_ehabi (ev : event_context) (addr : Z) (w : world)
    : outcome (bool * world) :=
  match ev_regs ev, task_mm with
  | Some _, true =>
      match find_vma addr with
      | None => mret (false, w)
      | Some vma =>
          '(g, w) ← get_extabs_ehabi (vma_start vma) w;
          match g with
          | inl _ => mret (false, w)
          | inr x =>
              ri ← view w x; ret ← ehabi_entry_usable ri addr;
              w ← put_extabs_ehabi x w;
              mret (ret, w)
          end
      end
  | _, _ => mret (false, w)
  end.

(** ** The walk *)

Definition ut_types : list Z := [QUADD_UNW_TYPE_UT].
Hypothesis Htask : 8 <= TASK_SIZE < 2 ^ 64.

Lemma eh_switch_spec vma b go b' : eh_switch_region vma b = Done (go, b') ->
  same_chain (v_cc b) (v_cc b') /\ v_frame b' = v_frame b /\
  forall w0, holding w0 (v_prev b) (v_w b) -> holding w0 (v_prev b') (v_w b').
Proof.
  unfold eh_switch_region. intros E. destruct (is_vma_addr _ _ _).
  { inv_done. split; [done|]. by split. }
  inv_bind E. inv_bind E. destruct x0 as [g w].
  split; [by destruct g; inv_done|]. split; [by destruct g; inv_done|]. intros w0 Hh.
  pose proof (holding_switch _ _ _ _ _ _ _ _ Hh E0 E1). by destruct g; inv_done.
Qed.

Lemma eh_record_spec f b : cc_ok (v_cc b) ->
  exists go b', eh_record f b = Done (go, b') /\ extends ut_types (v_cc b) (v_cc b') /\
    v_w b' = v_w b /\ v_prev b' = v_prev b /\ v_frame b' = f /\
    (go = true -> nr (v_cc b') = nr (v_cc b) + 1).
Proof.
  intros Hok. unfold eh_record. set (cc := set_curr _ _ _ _ _ _).
  assert (same_chain (v_cc b) cc) as Hs by done.
  pose proof (same_chain_ok _ _ Hs Hok) as Hok1.
  destruct (store_extends ut_types cc (e_pc f) QUADD_UNW_TYPE_UT)
    as (n & cc' & -> & Hex & Hnr & Hsp & Hn); [done..|by constructor|].
  eexists _, _. split; [done|]. cbn [v_cc v_w v_prev v_frame]. split.
  - apply (extends_trans _ _ cc); [apply Hok|by apply same_extends|done].
  - split_and!; try done. intros Hgo. destruct Hn as [-> | ->]; [done|exact Hnr].
Qed.

(** A round leaves the addresses alone, or adds one; it keeps the references it holds. *)
Lemma eh_body_spec vma_sp b go b' : eh_walk_body vma_sp b = Done (go, b') -> cc_ok (v_cc b) ->
  extends ut_types (v_cc b) (v_cc b') /\ (go = true -> nr (v_cc b) < nr (v_cc b')).
Proof.
  intros E Hok. pose proof (extends_refl ut_types _ Hok) as Hrefl. unfold eh_walk_body in E.
  destruct (negb task_mm); [by inv_done|].
  destruct (negb _); [inv_done; split; [by apply same_extends|done]|].
  destruct (find_vma _) as [vma_pc|]; [|by inv_done].
  inv_bind E. destruct x as [ok b1]. apply eh_switch_spec in E0 as (S1 & _ & _).
  pose proof (same_chain_ok _ _ S1 Hok) as Hok1. pose proof (same_extends ut_types _ _ Hok S1) as X1.
  destruct (negb ok); [by inv_done|]. inv_bind E. destruct x as [e|f].
  { inv_done. split; [by apply same_extends|done]. }
  destruct (eh_record_spec f b1 Hok1) as (go' & b2 & E2 & X2 & _ & _ & _ & Hgo).
  rewrite E2 in E. injection E as <- <-. split.
  - by apply (extends_trans _ _ (v_cc b1)); [apply Hok|..].
  - intros Hg. specialize (Hgo Hg). assert (nr (v_cc b1) = nr (v_cc b)) by apply S1. lia.
Qed.

Lemma eh_record_keeps f b go b' : eh_record f b = Done (go, b') ->
  v_w b' = v_w b /\ v_prev b' = v_prev b.
Proof. unfold eh_record. intros E. inv_bind E. destruct x as [n cc]. by inv_done. Qed.

Lemma eh_body_holding w0 vma_sp b go b' : eh_walk_body vma_sp b = Done (go, b') ->
  holding w0 (v_prev b) (v_w b) -> holding w0 (v_prev b') (v_w b').
Proof.
  unfold eh_walk_body. intros E Hb. destruct (negb task_mm); [by inv_done|].
  destruct (negb _); [by inv_done|]. destruct (find_vma _) as [vma|]; [|by inv_done].
  inv_bind E. destruct x as [ok b1]. apply eh_switch_spec in E0 as (_ & _ & Hk). specialize (Hk w0 Hb).
  destruct (negb ok); [by inv_done|]. inv_bind E. destruct x as [e|f]; [by inv_done|].
  apply eh_record_keeps in E as [-> ->]. done.
Qed.

(** The EHABI walk ends by itself: whatever the tables say, the bound on its rounds
    is never what stops it, and the chain it returns is the old one with accepted
    addresses appended; otherwise some round within the bound did not return. *)
Theorem eh_walk_ends vma_sp b : cc_ok (v_cc b) ->
  match chain_loop (eh_walk_body vma_sp) eh_walk_fuel b with
  | Done b' => extends ut_types (v_cc b) (v_cc b') /\
               exists n b1, rounds (eh_walk_body vma_sp) b n b1 /\ eh_walk_body vma_sp b1 = Done (false, b')
  | Timeout => exists n b1, rounds (eh_walk_body vma_sp) b n b1 /\ eh_walk_body vma_sp b1 = Timeout
  | Faulty site => exists n b1, rounds (eh_walk_body vma_sp) b n b1 /\ eh_walk_body vma_sp b1 = Faulty site
  | Error e => exists n b1, rounds (eh_walk_body vma_sp) b n b1 /\ eh_walk_body vma_sp b1 = Error e
  end.
Proof.
  intros Hok.
  exact (chain_loop_ends _ v_cc ut_types (eh_body_spec vma_sp) b eh_walk_fuel Hok ltac:(done)).
Qed.

Lemma eh_backtrace_areas cc x f vma_sp th w cc' w' :
  eh_unwind_backtrace cc x f vma_sp th w = Done (cc', w') -> same_areas w w'.
Proof.
  unfold eh_unwind_backtrace. intros E. inv_bind E.
  apply (chain_loop_keeps _ (fun b => holding w (v_prev b) (v_w b))) in E0;
    [|intros b go b'; apply eh_body_holding|by exists w].
  destruct E0 as (w1 & E1 & Hs). rewrite E1 in E. by inv_done.
Qed.

Lemma ehabi_gives_back ev cc w n cc' w' :
  quadd_get_user_cc_arm32_ehabi ev cc w = Done (n, cc', w') -> same_areas w w'.
Proof.
  unfold quadd_get_user_cc_arm32_ehabi. intros E. destruct (ev_regs ev) as [r|]; [|by inv_done].
  destruct task_mm; [|by inv_done]. destruct (negb _); [by inv_done|]. destruct (_ =? _); [by inv_done|].
  destruct (eh_start_frame _ _) as [f th].
  destruct (find_vma _) as [vma|]; [|by inv_done]. destruct (find_vma _) as [vma_sp|]; [|by inv_done].
  inv_bind E. destruct x as [[e|x] w1].
  { apply get_none_same in E0 as ->. by inv_done. }
  destruct (get_put_same _ _ _ _ _ E0) as (w2 & E2 & Hs2). inv_bind E. destruct x0 as [cc1 w3].
  apply eh_backtrace_areas in E1. destruct (put_same _ _ _ _ E1 E2) as (w4 & E4 & Hs4).
  unfold put_extabs_ehabi in E. rewrite E4 in E. cbn [mbind outcome_bind] in E. inv_done. by etrans.
Qed.

Lemma ehabi_exist_gives_back ev addr w r w' :
  quadd_is_ex_entry_exist_arm32_ehabi ev addr w = Done (r, w') -> same_areas w w'.
Proof.
  unfold quadd_is_ex_entry_exist_arm32_ehabi. intros E. destruct (ev_regs ev); [|by inv_done].
  destruct task_mm; [|by inv_done]. destruct (find_vma _); [|by inv_done].
  inv_bind E. destruct x as [[e|x] w1].
  { apply get_none_same in E0 as ->. by inv_done. }
  destruct (get_put_same _ _ _ _ _ E0) as (w2 & E2 & Hs2). inv_bind E. inv_bind E.
  unfold put_extabs_ehabi in E. rewrite E2 in E. cbn [mbind outcome_bind] in E. by inv_done.
Qed.

Lemma eh_backtrace_extends cc x f vma_sp th w cc' w' :
  eh_unwind_backtrace cc x f vma_sp th w = Done (cc', w') -> cc_ok cc -> extends ut_types cc cc'.
Proof.
  unfold eh_unwind_backtrace. intros E Hok. set (b := EhWalk _ _ _ _ _ _) in *. inv_bind E. inv_bind E.
  unfold mret, outcome_ret in E. injection E as <- _.
  assert (same_chain cc (v_cc b)) as Hs by done. pose proof (same_chain_ok _ _ Hs Hok) as Hb.
  pose proof (chain_loop_ends _ v_cc ut_types (eh_body_spec vma_sp) b eh_walk_fuel Hb ltac:(done)) as Hl.
  rewrite E0 in Hl. apply (extends_trans _ _ (v_cc b)); [apply Hok| |apply Hl]. by apply same_extends.
Qed.

Lemma ehabi_extends ev cc w n cc' w' : cc_ok cc ->
  quadd_get_user_cc_arm32_ehabi ev cc w = Done (n, cc', w') -> extends ut_types cc cc'.
Proof.
  intros Hok. unfold quadd_get_user_cc_arm32_ehabi. intros E. pose proof (extends_refl ut_types _ Hok) as Hr.
  destruct (ev_regs ev) as [r|]; [|by inv_done]. destruct task_mm; [|by inv_done].
  destruct (negb _); [by inv_done|]. destruct (_ =? _); [by inv_done|].
  set (cc1 := set_urc_ut QUADD_URC_FAILURE cc) in *.
  assert (extends ut_types cc cc1) as H1 by by apply same_extends.
  destruct (eh_start_frame _ _) as [f th].
  destruct (find_vma _) as [vma|]; [|by inv_done]. destruct (find_vma _) as [vma_sp|]; [|by inv_done].
  inv_bind E. destruct x as [[e|x] w1]; [inv_done; by apply same_extends|].
  inv_bind E. destruct x0 as [cc2 w2]. apply eh_backtrace_extends in E1; [|by apply (same_chain_ok cc)].
  inv_bind E. inv_done. apply (extends_trans _ _ cc1); [apply Hok|done|done].
Qed.

(** ** The walk returns *)

Section total.
Hypothesis Hvrs : length vrs0 = 16%nat.
(** No mapping starts at address 0. *)
Hypothesis Hvma : forall a v, find_vma a = Some v -> vma_start v <> 0.

(** [w0] is the world in which the caller took its region. *)
Record walk_ok (w0 : world) (b : eh_walk) : Prop := {
  wo_world : loaded w0;
  wo_refs : refs_only w0 (v_w b);
  wo_ri : region_in (v_w b) (v_ri b);
  wo_prev : forall x, v_prev b = Some x -> region_in (v_w b) x;
  wo_cc : cc_ok (v_cc b);
  wo_pc : e_pc (v_frame b) < 2 ^ 64;
}.

Lemma walk_ok_cc w0 b cc : walk_ok w0 b -> same_chain (v_cc b) cc -> walk_ok w0 (set_v_cc cc b).
Proof. intros [] Hs. split; try done. by apply (same_chain_ok (v_cc b)). Qed.

Lemma put_prev_total w0 b : walk_ok w0 b ->
  exists w, put_prev (v_prev b) (v_w b) = Done w /\ refs_only (v_w b) w.
Proof.
  intros [_ _ _ Hp _ _]. destruct (v_prev b) as [x|]; [by apply put_total, Hp|].
  exists (v_w b). split; [done|apply refs_only_refl].
Qed.

Lemma switch_total w0 vma b : walk_ok w0 b -> vma_start vma <> 0 ->
  exists go b', eh_switch_region vma b = Done (go, b') /\ walk_ok w0 b'.
Proof.
  intros Hb Hv. unfold eh_switch_region. destruct (is_vma_addr _ _ _).
  { eexists _, _. by split. }
  destruct (put_prev_total w0 b Hb) as (w & -> & Hr). cbn [mbind outcome_bind].
  destruct Hb as [H1 H2 H3 H4 H5 H6].
  destruct (get_total (fun x => has_section x QUADD_SEC_TYPE_EXIDX) w (vma_start vma))
    as (g & w' & E & Hr' & Hg); [by apply (refs_loaded w0), H1; apply (refs_only_trans _ (v_w b))|done|].
  unfold get_extabs_ehabi. rewrite E. cbn [mbind outcome_bind].
  assert (refs_only (v_w b) w') as Hbw by by apply (refs_only_trans _ w).
  assert (refs_only w0 w') as H0w by by apply (refs_only_trans _ (v_w b)).
  destruct g as [e|x]; eexists _, _; (split; [done|]); split; cbn; try done.
  - by apply (refs_region (v_w b)).
  - by apply (same_chain_ok (v_cc b)).
  - by apply Hg.
  - intros y [= <-]. by apply Hg.
Qed.

Lemma step_total w0 vma_sp b : walk_ok w0 b ->
  exists r, eh_step vma_sp b = Done r /\ forall f, r = inr f -> e_pc f < 2 ^ 64.
Proof.
  intros [_ _ (a & Ha & _ & Hok) _ _ Hpc]. unfold eh_step, view. rewrite Ha. cbn [mbind outcome_bind].
  pose proof (eh_unwind_frame_ok vrs0 qd0 Hvrs (um (v_cc b)) (region_of (v_ri b) a) (v_frame b) vma_sp
                (v_thumb b) Hok Hpc) as Hs.
  destruct (unwind_frame _ _ _ _ _ _ _) as [f|e| |]; try done; (eexists; split; [done|]); [|done].
  intros f' [= <-]. destruct Hs as [_ Hs]. unfold validate_pc_addr in Hs.
  apply andb_true_iff in Hs as [_ Hs]. apply Z.ltb_lt in Hs.
  pose proof (u64_range (TASK_SIZE - 4)). lia.
Qed.

Lemma record_total w0 f b : walk_ok w0 b -> e_pc f < 2 ^ 64 ->
  exists go b', eh_record f b = Done (go, b') /\ walk_ok w0 b'.
Proof.
  intros [H1 H2 H3 H4 H5 H6] Hf. destruct (eh_record_spec f b H5) as (go & b' & E & Hex & Hw & Hp & Hfr & _).
  exists go, b'. split; [done|].
  assert (v_ri b' = v_ri b) as Hri.
  { unfold eh_record in E. inv_bind E. destruct x as [n cc]. by injection E as <- <-. }
  split; rewrite ?Hw, ?Hp, ?Hfr, ?Hri; try done. by eapply ex_ok.
Qed.

Lemma body_total w0 vma_sp b : walk_ok w0 b ->
  exists go b', eh_walk_body vma_sp b = Done (go, b') /\ walk_ok w0 b'.
Proof.
  intros Hb. unfold eh_walk_body. destruct (negb task_mm); [eexists _, _; by split|].
  destruct (negb _); [eexists _, _; split; [done|]; by apply walk_ok_cc|].
  destruct (find_vma _) as [vma|] eqn:Ev; [|eexists _, _; by split]. apply Hvma in Ev.
  destruct (switch_total w0 vma b Hb Ev) as (go & b1 & -> & Hb1). cbn [mbind outcome_bind].
  destruct (negb go); [eexists _, _; by split|].
  destruct (step_total w0 vma_sp b1 Hb1) as (r & -> & Hr). cbn [mbind outcome_bind].
  destruct r as [e|f]; [eexists _, _; split; [done|]; by apply walk_ok_cc|].
  apply record_total; [done|by apply Hr].
Qed.

(** The walk between the caller's get and put. *)
Lemma backtrace_total cc x f vma_sp th w : loaded w -> region_in w x -> cc_ok cc -> e_pc f < 2 ^ 64 ->
  exists cc' w', eh_unwind_backtrace cc x f vma_sp th w = Done (cc', w') /\
    extends ut_types cc cc' /\ refs_only w w'.
Proof.
  intros Hw Hx Hok Hf. set (cc1 := set_urc_ut QUADD_URC_FAILURE cc).
  assert (same_chain cc cc1) as Hs by done.
  assert (walk_ok w (EhWalk w cc1 f x None th)) as Hb0.
  { split; cbn; try done; [apply refs_only_refl|by apply (same_chain_ok cc)]. }
  unfold eh_unwind_backtrace.
  assert (forall b, walk_ok w b -> cc_ok (v_cc b) /\
            exists go b', eh_walk_body vma_sp b = Done (go, b') /\ walk_ok w b') as Hstep
    by (intros b Hb; split; [apply Hb|by apply body_total]).
  destruct (chain_loop_total _ v_cc ut_types (eh_body_spec vma_sp) (walk_ok w) _ eh_walk_fuel Hstep Hb0)
    as (b & E & Hb & X2); [done|].
  cbn [mbind outcome_bind]. fold cc1. rewrite E. cbn [mbind outcome_bind].
  destruct (put_prev_total w b Hb) as (w2 & -> & Hr2). eexists _, _. split; [done|]. split.
  - apply (extends_trans _ _ cc1); [apply Hok|by apply same_extends|done].
  - apply (refs_only_trans _ (v_w b)); [apply Hb|done].
Qed.

(** The EHABI unwinder always returns. With loaded tables that have room, whatever
    they say and whatever the stack holds, it comes back with a chain that only grew,
    by addresses it accepts, and with every area's reference count as it was. *)
Theorem user_cc_ehabi_returns ev cc w : loaded w -> cc_ok cc ->
  (forall r, ev_regs ev = Some r -> instruction_pointer r < 2 ^ 64) -> curr_pc cc < 2 ^ 64 ->
  exists n cc' w', quadd_get_user_cc_arm32_ehabi ev cc w = Done (n, cc', w') /\
    extends ut_types cc cc' /\ w_areas w' = w_areas w.
Proof.
  intros Hw Hok Hip Hpc.
  assert (exists n cc' w', quadd_get_user_cc_arm32_ehabi ev cc w = Done (n, cc', w') /\
            extends ut_types cc cc') as (n & cc' & w' & E & Hex).
  { pose proof (extends_refl ut_types _ Hok) as Hrefl.
    unfold quadd_get_user_cc_arm32_ehabi. destruct (ev_regs ev) as [r|]; [|by eexists _, _, _].
    specialize (Hip r eq_refl). destruct task_mm; [|by eexists _, _, _].
    destruct (negb _); [by eexists _, _, _|]. destruct (_ =? _); [by eexists _, _, _|].
    set (cc1 := set_urc_ut QUADD_URC_FAILURE cc).
    assert (same_chain cc cc1) as Hs1 by done.
    pose proof (same_extends ut_types _ _ Hok Hs1) as X1. pose proof (same_chain_ok _ _ Hs1 Hok) as Hok1.
    assert (e_pc (eh_start_frame r cc1).1 < 2 ^ 64) as Hf by (unfold eh_start_frame; by destruct (negb _)).
    destruct (eh_start_frame r cc1) as [f th]. cbn [fst] in Hf.
    destruct (find_vma (e_pc f)) as [vma|] eqn:Ev; [|by eexists _, _, _]. apply Hvma in Ev.
    destruct (find_vma (e_sp f)) as [vma_sp|]; [|by eexists _, _, _].
    destruct (get_total (fun x => has_section x QUADD_SEC_TYPE_EXIDX) w _ Hw Ev) as (g & w1 & Eg & Hr & Hg).
    unfold get_extabs_ehabi. rewrite Eg. cbn [mbind outcome_bind].
    destruct g as [e|x]; [eexists _, _, _; split; [done|]; by apply same_extends|].
    destruct (backtrace_total cc1 x f vma_sp th w1) as (cc2 & w2 & -> & X2 & Hr2);
      [by apply (refs_loaded w)|by apply Hg|done|done|].
    cbn [mbind outcome_bind].
    destruct (put_total w2 x) as (w3 & E3 & _); [by apply (refs_region w1), Hg|].
    unfold put_extabs_ehabi. rewrite E3. eexists _, _, _. split; [done|].
    apply (extends_trans _ _ cc1); [apply Hok|done|done]. }
  exists n, cc', w'. split; [done|]. split; [done|]. exact (ehabi_gives_back _ _ _ _ _ _ E).
Qed.
End total.
End walk.

(** ** An example: a walk of the program of EhInsns.v *)
Definition eh_area : area :=
  Area true example_base (words_enc (eh_index ++ eh_table ++ [0])) ACTIVE 0 [].
Definition eh_sections_arg : quadd_sections :=
  Sections 0x10000 0x20000
    (fun st => if st =? QUADD_SEC_TYPE_EXIDX then (0x12000, 24, 0)
               else if st =? QUADD_SEC_TYPE_EXTAB then (0x13000, 8, 24) else (0, 0, 0)).
Definition eh_world : world :=
  after (quadd_unwind_set_extab true true eh_sections_arg 1
           (quadd_unwind_start true 0 (World None {[1 := eh_area]})).2).
Definition eh_regs : pt_regs :=
  PtRegs (<[14%nat := 0x11105]> (<[13%nat := 0x30000]> (replicate 31 0))) 0x30000 0x11010 true false.
Definition eh_event : event_context := Event (Some eh_regs) true false.
Definition eh_result : outcome (Z * callchain * world) :=
  @quadd_get_user_cc_arm32_ehabi example_shifts eh_process (replicate 16 0) (Disasm false 0 0 0 0 0 0 0 0)
    eh_event example_chain eh_world.

Definition eh_entry1 : ex_region := new_entry eh_sections_arg 1.
Lemma eh_entry_sec st : xr_sec eh_entry1 st = eh_sections st.
Proof.
  unfold eh_entry1, new_entry, eh_sections. cbn. destruct (st =? QUADD_SEC_TYPE_EXIDX); [done|].
  by destruct (st =? QUADD_SEC_TYPE_EXTAB).
Qed.

Lemma eh_entry_ok n : region_ok (region_of eh_entry1 (set_state_ref ACTIVE n eh_area)).
Proof.
  destruct eh_region_ok as [Hs Hl]. split; intros st Hst.
  - destruct (Hs st Hst) as [S1 S2 S3 S4 S5 S6 S7].
    split; unfold region_of; cbn [ex_sec]; rewrite ?eh_entry_sec; first [assumption|reflexivity].
  - specialize (Hl st Hst). unfold region_of. cbn [ex_sec]. rewrite eh_entry_sec. assumption.
Qed.

Lemma eh_world_rd : w_rd eh_world = Some (Regions (eh_entry1 :: replicate 255 zero_region) 1).
Proof. by vm_compute. Qed.
Lemma eh_world_loaded : loaded eh_world.
Proof.
  unfold loaded. rewrite eh_world_rd. cbn [rd_entries rd_nr]. split.
  { split; [split|by vm_compute|].
    - by vm_compute.
    - by vm_compute.
    - intros i j a b Hij Ha Hb. apply live_lookup_Some in Ha, Hb. lia.
    - intros [|i] x Hi Hx; [lia|]. by apply lookup_replicate in Hx as [-> _]. }
  intros i x Hi E. assert (i = 0%nat) as -> by lia. injection E as <-.
  exists (EhRegions.set_entries [eh_entry1] eh_area). split; [by vm_compute|]. split; [done|].
  exact (eh_entry_ok 0).
Qed.

Lemma user_cc_ehabi_returns_witness :
  exists n cc' w', eh_result = Done (n, cc', w') /\
    @extends eh_process ut_types example_chain cc' /\ w_areas w' = w_areas eh_world.
Proof.
  apply (@user_cc_ehabi_returns example_shifts eh_process (replicate 16 0)
           (Disasm false 0 0 0 0 0 0 0 0)).
  - cbn. lia.
  - done.
  - intros a v. cbn. repeat case_match; by intros [= <-].
  - exact eh_world_loaded.
  - exact example_chain_ok.
  - intros r [= <-]. by vm_compute.
  - by vm_compute.
Defined.

Definition eh_example_walk : eh_walk :=
  match get_extabs_ehabi 0x10000 eh_world with
  | Done (inr x, w) => EhWalk w example_chain (eh_start_frame eh_regs example_chain).1 x None false
  | _ => EhWalk eh_world example_chain eh_first zero_region None false
  end.

Lemma eh_walk_ends_witness :
  match chain_loop (@eh_walk_body example_shifts eh_process (replicate 16 0)
                      (Disasm false 0 0 0 0 0 0 0 0) (Vma 0xf000 0x3f000)) eh_walk_fuel eh_example_walk with
  | Done b' => @extends eh_process ut_types (v_cc eh_example_walk) (v_cc b') /\ nr (v_cc b') = 1
  | _ => False
  end.
Proof.
  assert (cc_ok (v_cc eh_example_walk)) as Hok by exact example_chain_ok.
  pose proof (@eh_walk_ends example_shifts eh_process (replicate 16 0) (Disasm false 0 0 0 0 0 0 0 0)
                ltac:(cbn; lia) (Vma 0xf000 0x3f000) eh_example_walk Hok) as Hw.
  assert (match chain_loop (@eh_walk_body example_shifts eh_process (replicate 16 0)
                      (Disasm false 0 0 0 0 0 0 0 0) (Vma 0xf000 0x3f000)) eh_walk_fuel eh_example_walk
          with Done b' => nr (v_cc b') =? 1 | _ => false end = true) as Hn by by vm_compute.
  cbv beta in *. destruct (chain_loop _ _ _) as [b'|e| |]; try discriminate Hn.
  split; [exact (proj1 Hw)|]. by apply Z.eqb_eq.
Defined.
