(* ===== verification/ChainStores.v ===== *)
(** * Who stores into a call chain

    Only [quadd_callchain_store] does: whatever the tables, the memory and the registers
    hold, decoding and interpreting them never ends in a store outside the arrays of a
    chain, and the walks, which record what they find, keep the chain well formed, so
    that they do not either. *)

From stdpp Require Import gmap.
From S2P Require Import Prelude DwarfRead DwarfCfa DwarfTable Callchain EhRegions DwarfUnwind DwarfWalk.
From S2P Require Disasm EhAbi.
From S2P Require Import EhWalk.
#[local] Open Scope Z_scope.

(** A computation does not end in such a store. *)
Definition stays {A} (o : outcome A) : Prop := o <> Faulty Outside_chain.
(** The same of the interpreter of DwarfCfa.v, from every state. *)
Definition xstays {A} (m : X A) : Prop := forall s, stays (m s).1.

Create HintDb stays.

Lemma stays_done {A} (x : A) : stays (Done x).
Proof. done. Qed.
Lemma stays_error {A} e : stays (@Error A e).
Proof. done. Qed.
Lemma stays_memory {A} : stays (@Faulty A Outside_memory).
Proof. done. Qed.
Lemma stays_timeout {A} : stays (@Timeout A).
Proof. done. Qed.
Lemma stays_ret {A} (x : A) : stays (mret x).
Proof. done. Qed.
Lemma stays_bind {A B} (k : A -> outcome B) o :
  stays o -> (forall x, o = Done x -> stays (k x)) -> stays (o ≫= k).
Proof.
  intros Ho Hk. destruct o as [x|e|site|]; [by apply Hk|done| |done].
  destruct site; [done|by destruct Ho].
Qed.
Lemma stays_no {A} {P : Prop} : stays (@Faulty A Outside_chain) -> P.
Proof. intros H. by destruct H. Qed.
Lemma stays_site {A B} site : stays (@Faulty A site) -> stays (@Faulty B site).
Proof. by destruct site. Qed.

Lemma xstays_ret {A} (x : A) : xstays (mret x).
Proof. done. Qed.
Lemma xstays_get : xstays xget.
Proof. done. Qed.
Lemma xstays_modify f : xstays (xmodify f).
Proof. done. Qed.
Lemma xstays_lift {A} (o : outcome A) : stays o -> xstays (xlift o).
Proof. by intros Ho s. Qed.
Lemma xstays_bind {A B} (m : X A) (k : A -> X B) :
  xstays m -> (forall x, xstays (k x)) -> xstays (m ≫= k).
Proof.
  intros Hm Hk s. specialize (Hm s). unfold mbind, X_bind.
  destruct (m s) as [[x|e|site|] s']; cbn in *; [apply Hk|done| |done].
  by destruct site.
Qed.
#[export] Hint Resolve stays_done stays_error stays_memory stays_timeout stays_ret
  xstays_ret xstays_get xstays_modify : stays.

(** Every branch of a program. *)
Ltac stays_step :=
  match goal with
  | |- stays (mbind _ _) => apply stays_bind; [|intros]
  | |- xstays (mbind _ _) => apply xstays_bind; [|intros]
  | |- xstays (xlift _) => apply xstays_lift
  | |- stays (match ?x with _ => _ end) => destruct x eqn:?
  | |- xstays (match ?x with _ => _ end) => destruct x eqn:?
  | |- stays (let _ := _ in _) => cbv zeta
  | |- xstays (let _ := _ in _) => cbv zeta
  end.
Ltac stay := intros; repeat first [solve [eauto 4 with stays] | stays_step].

(** ** Reading *)
Section tables.
Context `{ShiftOps}.
Context (ri : ex_region_info).

Lemma stays_load n a : stays (load n ri a).
Proof. unfold load. stay. Qed.
#[local] Hint Resolve stays_load : stays.
Lemma stays_read n a st : stays (read_mmap_data n ri a st).
Proof. unfold read_mmap_data. stay. Qed.
#[local] Hint Resolve stays_read : stays.

Lemma stays_leb fuel : forall a st r s c, stays (leb_loop fuel ri a st r s c).
Proof. induction fuel as [|fuel IH]; cbn [leb_loop]; unfold read_mmap_data_u8; stay. Qed.
#[local] Hint Resolve stays_leb : stays.
Lemma stays_uleb a st : stays (dwarf_read_uleb128 ri a st).
Proof. unfold dwarf_read_uleb128. stay. Qed.
Lemma stays_sleb a st : stays (dwarf_read_sleb128 ri a st).
Proof. unfold dwarf_read_sleb128. stay. Qed.
#[local] Hint Resolve stays_uleb stays_sleb : stays.

Lemma stays_ptr sz a st e : stays (read_ptr ri sz a st e).
Proof. unfold read_ptr, read_mmap_data_u32, read_mmap_data_u64. stay. Qed.
#[local] Hint Resolve stays_ptr : stays.
Lemma stays_encoded sz a base enc st : stays (dwarf_read_encoded_value ri sz a base enc st).
Proof.
  unfold dwarf_read_encoded_value, encoded_raw, encoded_base, encoded_indirect,
    read_mmap_data_s16, read_mmap_data_s32, read_mmap_data_s64. stay.
Qed.
#[local] Hint Resolve stays_encoded : stays.

(** ** Entries *)
Lemma stays_strnlen n : forall p, stays (strnlen ri n p).
Proof. induction n as [|n IH]; cbn [strnlen]; stay. Qed.
#[local] Hint Resolve stays_strnlen : stays.
Lemma stays_aug sz fuel : forall secid e aug p c, stays (aug_loop ri sz fuel secid e aug p c).
Proof. induction fuel as [|fuel IH]; cbn [aug_loop]; unfold read_mmap_data_u8; stay. Qed.
#[local] Hint Resolve stays_aug : stays.
Lemma stays_decode_cie sz c a n is_eh : stays (decode_cie_entry ri sz c a n is_eh).
Proof. unfold decode_cie_entry, cie_fixed, read_mmap_data_u32, read_mmap_data_u8. stay. Qed.
Lemma stays_decode_fde sz f a n is_eh : stays (decode_fde_entry ri sz f a n is_eh).
Proof. unfold decode_fde_entry, read_mmap_data_u32. stay. Qed.
#[local] Hint Resolve stays_decode_cie stays_decode_fde : stays.
Lemma stays_decode sz a c is_eh : stays (dwarf_decode_fde_cie ri sz a c is_eh).
Proof. unfold dwarf_decode_fde_cie, read_mmap_data_u32. stay. Qed.
#[local] Hint Resolve stays_decode : stays.

Lemma stays_catch {A} (o : outcome A) : stays o -> stays (catch o).
Proof. unfold catch. destruct o as [| |[]|]; [done..|by intros []|done]. Qed.
#[local] Hint Resolve stays_catch : stays.
Lemma stays_bst base fuel : forall start stop a, stays (bst_loop ri fuel base start stop a).
Proof. induction fuel as [|fuel IH]; cbn [bst_loop]; unfold dw_bst_get_initial_loc; stay. Qed.
#[local] Hint Resolve stays_bst : stays.
Lemma stays_table sz data n base is_eh : stays (dwarf_get_bs_table ri sz data n base is_eh).
Proof. unfold dwarf_get_bs_table. stay. Qed.
#[local] Hint Resolve stays_table : stays.
Lemma stays_find sz data n pc store is_eh c : stays (dwarf_find_fde ri sz data n pc store is_eh c).
Proof.
  unfold dwarf_find_fde, find_last, dwarf_bst_find_idx, dw_bst_get_initial_loc, dw_bst_get_fde_addr.
  stay.
Qed.
#[local] Hint Resolve stays_find : stays.
Lemma stays_exist sz a c : stays (is_fde_entry_exist ri sz a c).
Proof. unfold is_fde_entry_exist, __is_fde_entry_exist. stay. Qed.
Lemma stays_dwarf_decode sz pc store is_eh c : stays (dwarf_decode ri sz pc store is_eh c).1.
Proof.
  unfold dwarf_decode.
  pose proof (stays_find sz (hdr_start ri is_eh) (hdr_len ri is_eh) pc store is_eh c) as Hf.
  destruct (dwarf_find_fde _ _ _ _ _ _ _ _) as [[p tails]|e|[]|]; cbn [fst]; [|done|done|by destruct Hf|done].
  stay.
Qed.

(** ** The interpreter *)
Lemma xstays_fetch secid n : xstays (fetch ri secid n).
Proof. unfold fetch. stay. Qed.
Lemma xstays_uleb secid : xstays (fetch_uleb ri secid).
Proof. unfold fetch_uleb. stay. Qed.
Lemma xstays_sleb secid : xstays (fetch_sleb ri secid).
Proof. unfold fetch_sleb. stay. Qed.
#[local] Hint Resolve xstays_fetch xstays_uleb xstays_sleb : stays.
Lemma stays_set_reg n r rs : stays (set_reg n r rs).
Proof. unfold set_reg. stay. Qed.
Lemma stays_rule_offset n w v rs : stays (set_rule_offset n w v rs).
Proof. unfold set_rule_offset, set_reg. stay. Qed.
Lemma stays_rule_exp n w v rs : stays (set_rule_exp n w v rs).
Proof. unfold set_rule_exp, set_reg. stay. Qed.
#[local] Hint Resolve stays_set_reg stays_rule_offset stays_rule_exp : stays.
Lemma xstays_update f : (forall rs, stays (f rs)) -> xstays (update_rs f).
Proof. intros Hf. unfold update_rs, modify_rs. stay. Qed.
#[local] Hint Resolve xstays_update : stays.
Lemma xstays_insn secid cie rs0 insn : xstays (exec_insn ri secid cie rs0 insn).
Proof.
  unfold exec_insn, exec_switch, exec_switch_rest, set_rule, modify_rs, advance_pc, skip_insn,
    remember_state, restore_state, modify_rs. stay.
Qed.
#[local] Hint Resolve xstays_insn : stays.
Lemma xstays_loop secid cie rs0 fuel : forall e pc, xstays (exec_loop ri secid cie rs0 fuel e pc).
Proof. induction fuel as [|fuel IH]; cbn [exec_loop]; [done|]. stay. Qed.
#[local] Hint Resolve xstays_loop : stays.
Lemma xstays_run fuel a e cie rs0 pc is_eh : xstays (dwarf_cfa_exec_insns fuel ri a e cie rs0 pc is_eh).
Proof. unfold dwarf_cfa_exec_insns. stay. Qed.
Lemma stays_cleanup_from n : forall i rs, stays (rules_cleanup_from n i rs).
Proof. induction n as [|n IH]; cbn [rules_cleanup_from]; unfold set_rule; stay. Qed.
Lemma stays_cleanup m rs : stays (rules_cleanup m rs).
Proof. apply stays_cleanup_from. Qed.

(** ** The index of exception tables *)
Lemma stays_eh_read a : stays (EhAbi.eh_read_mmap_data ri a).
Proof. unfold EhAbi.eh_read_mmap_data. stay. Qed.
#[local] Hint Resolve stays_eh_read : stays.
Lemma stays_prel p s d m : stays (EhAbi.mmap_prel31_to_addr p ri s d m).
Proof. unfold EhAbi.mmap_prel31_to_addr. stay. Qed.
#[local] Hint Resolve stays_prel : stays.
Lemma stays_find_loop fuel : forall a start stop, stays (EhAbi.find_loop fuel ri a start stop).
Proof. induction fuel as [|fuel IH]; cbn [EhAbi.find_loop]; unfold EhAbi.idx_addr; stay. Qed.
#[local] Hint Resolve stays_find_loop : stays.
Lemma stays_find_idx a : stays (EhAbi.unwind_find_idx ri a).
Proof. unfold EhAbi.unwind_find_idx, EhAbi.idx_addr. stay. Qed.
Lemma stays_get_byte c : stays (EhAbi.unwind_get_byte ri c).
Proof. unfold EhAbi.unwind_get_byte. stay. Qed.
#[local] Hint Resolve stays_find_idx stays_get_byte : stays.
Lemma stays_uleb_loop fuel : forall c r s n, stays (EhAbi.uleb_loop fuel ri c r s n).
Proof. induction fuel as [|fuel IH]; cbn [EhAbi.uleb_loop]; stay. Qed.
End tables.
#[export] Hint Resolve stays_load stays_read stays_exist stays_cleanup stays_eh_read stays_prel
  stays_find_idx stays_get_byte stays_uleb_loop : stays.

(** ** One frame *)
Section frames.
Context `{ShiftOps} `{Process}.

Lemma stays_user a n : stays (read_user_data a n).
Proof. unfold read_user_data. stay. Qed.
#[local] Hint Resolve stays_user : stays.

Lemma stays_exec_insns fuel ri a e cie pc is_eh c :
  stays (exec_insns fuel ri a e cie pc is_eh c).1.
Proof.
  unfold exec_insns. set (s0 := CfaState _ _ _ _ _).
  pose proof (xstays_run ri fuel a e cie (f_rs_initial (c_sf c)) pc is_eh s0) as Hx.
  by destruct (dwarf_cfa_exec_insns _ _ _ _ _ _ _ _ s0) as [r s].
Qed.

Lemma stays_restore n : forall i vma c, stays (restore_regs n i vma c).1.
Proof.
  induction n as [|n IH]; intros i vma c; cbn [restore_regs]; [done|].
  destruct (reg _ !! _) as [r|]; [|done]. destruct (where_ r); try apply IH.
  destruct (negb _); [done|]. unfold read_user_data.
  destruct (copy_from_user _ _); [apply IH|done].
Qed.

Lemma stays_finish vma c : stays (unwind_finish vma c).1.
Proof.
  unfold unwind_finish, def_cfa.
  assert (forall o : outcome stackframe, stays o ->
    stays (match o with
      | Done f =>
          match restore_regs (num_regs (f_mode (c_sf c))) 0 vma (set_sf f c) with
          | (Done _, c0) =>
              if negb (validate_pc_addr (vreg (c_sf c0) (regnum_lr (f_mode (c_sf c))))
                         (get_user_reg_size (f_mode (c_sf c))))
              then (Error (- QUADD_URC_PC_INCORRECT), c0)
              else (Done tt, modify_sf (fun f0 => set_f_vreg (regnum_sp (f_mode (c_sf c))) (f_cfa f0)
                     (set_f_pc (vreg (c_sf c0) (regnum_lr (f_mode (c_sf c)))) f0)) c0)
          | (e, c0) => (e, c0)
          end
      | Error e => (Error e, c)
      | Faulty site => (Faulty site, c)
      | Timeout => (Timeout, c)
      end).1) as Hk.
  { intros [f|e|site|] Ho; cbn; try done.
    pose proof (stays_restore (num_regs (f_mode (c_sf c))) 0 vma (set_sf f c)) as Hr.
    destruct (restore_regs _ _ _ _) as [[[]|e|site|] c1]; cbn in *; try done.
    1: by destruct (negb _).
    all: by destruct site. }
  apply Hk. stay.
Qed.

Lemma stays_rules fuel ri cie fde pc is_eh c : stays (unwind_rules fuel ri cie fde pc is_eh c).1.
Proof.
  unfold unwind_rules.
  pose proof (stays_exec_insns fuel ri (initial_insn cie)
                (u64 (initial_insn cie + initial_insn_len cie)) cie pc is_eh c) as H1.
  destruct (initial_insn cie =? 0).
  - destruct (instructions fde =? 0); [done|apply stays_exec_insns].
  - destruct (exec_insns _ _ _ _ _ _ _ _) as [[x|e|site|] c1]; try done.
    destruct (instructions fde =? 0); [done|apply stays_exec_insns].
Qed.

Lemma stays_frame fuel cie0 ri vma is_eh c : stays (unwind_frame fuel cie0 ri vma is_eh c).1.1.
Proof.
  unfold unwind_frame. set (f := c_sf c).
  pose proof (stays_dwarf_decode ri (c_ptr_size c) (f_pc f) (negb (f_is_sched f)) is_eh cie0) as Hd.
  destruct (dwarf_decode _ _ _ _ _ _) as [[[cie fde]|e|site|] tails]; cbn in *; try done.
  pose proof (stays_cleanup (f_mode f) (set_cfa_register (-1) (f_rs f))) as Hc.
  destruct (rules_cleanup _ _) as [rs|e|site|]; cbn in *; try done.
  2: by destruct site.
  set (c1 := set_sf _ _).
  pose proof (stays_rules fuel ri cie fde (f_pc f) is_eh c1) as Hr.
  destruct (unwind_rules _ _ _ _ _ _ _) as [[[]|e|site|] c2]; cbn in *; try done.
  2: by destruct site.
  pose proof (stays_finish vma c2) as Hf. by destruct (unwind_finish _ _) as [r c3].
Qed.

(** *** Of the ARM unwinder *)
Lemma stays_arm_loop fuel : forall a q, stays (Disasm.arm_loop fuel a q).
Proof. induction fuel as [|fuel IH]; cbn [Disasm.arm_loop]; stay. Qed.
Lemma stays_thumb_loop fuel : forall a q, stays (Disasm.thumb_loop fuel a q).
Proof. induction fuel as [|fuel IH]; cbn [Disasm.thumb_loop]; unfold Disasm.thumb_insn; stay. Qed.
#[local] Hint Resolve stays_arm_loop stays_thumb_loop : stays.
Lemma stays_disassemble a b t : stays (Disasm.quadd_disassemble a b t).
Proof.
  unfold Disasm.quadd_disassemble, Disasm.quadd_disassemble_arm, Disasm.quadd_disassemble_thumb. stay.
Qed.
#[local] Hint Resolve stays_disassemble : stays.

Lemma stays_pop_reg r vsp c q : stays (EhAbi.pop_reg r vsp c q).
Proof. unfold EhAbi.pop_reg. stay. Qed.
#[local] Hint Resolve stays_pop_reg : stays.
Lemma stays_pop_mask n : forall m r vsp c q, stays (EhAbi.pop_mask n m r vsp c q).
Proof. induction n as [|n IH]; cbn [EhAbi.pop_mask]; stay. Qed.
Lemma stays_pop_range n : forall r vsp c q, stays (EhAbi.pop_range n r vsp c q).
Proof. induction n as [|n IH]; cbn [EhAbi.pop_range]; stay. Qed.
#[local] Hint Resolve stays_pop_mask stays_pop_range : stays.
Lemma stays_eh_insn ri c q : stays (EhAbi.unwind_exec_insn ri c q).
Proof.
  unfold EhAbi.unwind_exec_insn, EhAbi.exec_pop_mask, EhAbi.exec_pop_range, EhAbi.exec_pop_low,
    EhAbi.exec_vsp_uleb, EhAbi.exec_pop_vfp, EhAbi.exec_pop_vfp8, EhAbi.read_uleb128. stay.
Qed.
#[local] Hint Resolve stays_eh_insn : stays.
Lemma stays_eh_loop fuel : forall ri low high c q, stays (EhAbi.exec_loop fuel ri low high c q).
Proof. induction fuel as [|fuel IH]; cbn [EhAbi.exec_loop]; stay. Qed.
#[local] Hint Resolve stays_eh_loop : stays.
Lemma stays_eh_frame vrs0 qd0 m ri f vma th : stays (EhAbi.unwind_frame vrs0 qd0 m ri f vma th).
Proof. unfold EhAbi.unwind_frame, EhAbi.insn_start, EhAbi.insn_size, EhAbi.unwind_run. stay. Qed.
End frames.

(** ** The table of regions *)
Lemma stays_get arr i : stays (rd_get arr i).
Proof. unfold rd_get. stay. Qed.
#[export] Hint Resolve stays_get : stays.
Lemma stays_bound fuel : forall arr key i j, stays (lower_bound fuel arr key i j).
Proof. induction fuel as [|fuel IH]; cbn [lower_bound]; stay. Qed.
#[export] Hint Resolve stays_bound : stays.
Lemma stays_search_in arr n key : stays (__search_ex_region arr n key).
Proof. unfold __search_ex_region. stay. Qed.
#[export] Hint Resolve stays_search_in : stays.
Lemma stays_region f key w : stays (get_region f key w).
Proof. unfold get_region, search_ex_region, get_area. stay. Qed.
Lemma stays_dw_frames key w : stays (quadd_get_dw_frames key w).
Proof. apply stays_region. Qed.
Lemma stays_extabs key w : stays (get_extabs_ehabi key w).
Proof. apply stays_region. Qed.
Lemma stays_put x w : stays (quadd_put_dw_frames x w).
Proof. unfold quadd_put_dw_frames. stay. Qed.
#[export] Hint Resolve stays_dw_frames stays_extabs stays_put : stays.
Lemma stays_put_extabs x w : stays (put_extabs_ehabi x w).
Proof. apply stays_put. Qed.
Lemma stays_put_prev p w : stays (put_prev p w).
Proof. unfold put_prev. stay. Qed.
Lemma stays_view w x : stays (view w x).
Proof. unfold view. stay. Qed.
Lemma stays_tail_info al s id a b w : stays (quadd_unwind_set_tail_info al s id a b w).
Proof. unfold quadd_unwind_set_tail_info, rd_copy, rd_set. stay. Qed.
#[export] Hint Resolve stays_put_extabs stays_put_prev stays_view stays_tail_info : stays.
Lemma stays_tails al l : forall w, stays (store_tails al l w).
Proof. induction l as [|[[[a b] c] d] l IH]; cbn [store_tails]; stay. Qed.
#[export] Hint Resolve stays_tails : stays.

(** ** The walks

    The rounds of a loop keep the chain well formed, and none of them leaves it. *)
Section loops.
Context {S : Type} (body : S -> outcome (bool * S)) (cc_of : S -> callchain).
Hypothesis Hkeeps : forall s go s', body s = Done (go, s') -> cc_ok (cc_of s) -> cc_ok (cc_of s').
Hypothesis Hstays : forall s, cc_ok (cc_of s) -> stays (body s).

Lemma stays_chain_loop fuel : forall s, cc_ok (cc_of s) -> stays (chain_loop body fuel s).
Proof.
  induction fuel as [|fuel IH]; intros s Hok; cbn [chain_loop]; [done|].
  apply stays_bind; [by apply Hstays|]. intros [[|] s'] E; [|done]. apply IH. by eapply Hkeeps.
Qed.
End loops.

Section walks.
Context `{ShiftOps} `{Process}.
Hypothesis Htask : 8 <= TASK_SIZE < 2 ^ 64.

Lemma stays_store cc ip ty : cc_ok cc -> 0 <= ty < 16 -> stays (quadd_callchain_store cc ip ty).
Proof.
  intros Hok Ht. destruct (quadd_callchain_store_spec cc ip ty Hok Htask Ht) as (n & cc' & -> & _). done.
Qed.

Section dwarf.
Context (cfa_fuel : nat) (cie0 : dw_cie) (alloc_tail : tail_info -> bool).

Lemma stays_walk_frame vma b : stays (walk_frame cfa_fuel cie0 alloc_tail vma b).
Proof.
  unfold walk_frame. apply stays_bind; [apply stays_view|]. intros ri _.
  pose proof (stays_frame cfa_fuel cie0 ri vma (b_is_eh b) (b_cpu b)) as Hf.
  destruct (unwind_frame _ _ _ _ _ _) as [[r c] tails]. apply stays_bind; [apply stays_tails|].
  intros w _. destruct r as [| |[]|]; done.
Qed.

Lemma stays_walk_body vma b : cc_ok (b_cc b) -> stays (walk_body cfa_fuel cie0 alloc_tail vma b).
Proof.
  intros Hok. unfold walk_body. destruct (negb _); [done|]. destruct (negb _); [done|].
  destruct (find_vma _); [|done]. apply stays_bind.
  { unfold switch_region. stay. }
  intros [go b1] E. apply switch_same in E. destruct (negb go); [done|].
  apply stays_bind; [apply stays_view|]. intros ri _. apply stays_bind; [apply stays_exist|].
  intros [e d] _. destruct (negb _); [done|].
  apply stays_bind.
  { unfold try_frames. apply stays_bind; [apply stays_walk_frame|]. intros [[x|] b2] _; [|done].
    destruct (e && d); [apply stays_walk_frame|done]. }
  intros [[x|] b2] E2; [done|]. apply try_frames_same in E2. unfold record_frame.
  assert (same_chain (b_cc b) (b_cc b2)) as Hs by (rewrite E2; apply E).
  cbv zeta. match goal with |- stays (if ?c then _ else _) => destruct c end; [done|].
  apply stays_bind; [|intros [n cc] _; done].
  apply stays_store; [|by destruct (b_is_eh b2)].
  by apply (same_chain_ok (b_cc b2)), (same_chain_ok _ _ Hs).
Qed.

Lemma stays_cc_dwarf ev cc c w : cc_ok cc ->
  stays (quadd_get_user_cc_dwarf cfa_fuel cie0 alloc_tail ev cc c w).
Proof.
  intros Hok. unfold quadd_get_user_cc_dwarf. destruct (ev_regs ev) as [r|]; [|done].
  destruct task_mm; [|done]. destruct (_ =? _); [done|]. destruct (find_vma _); [|done].
  destruct (find_vma _) as [vma_sp|]; [|done].
  apply stays_bind; [apply stays_dw_frames|]. intros [[e|x] w1] _; [done|].
  apply stays_bind; [|intros [[cc1 c1] w2] _; stay].
  unfold unwind_backtrace. apply stays_bind; [|intros; stay].
  apply (stays_chain_loop _ b_cc).
  - intros s go s' E Hs. by apply (body_extends cfa_fuel cie0 alloc_tail _ Htask) in E as [X _]; [apply X|].
  - intros. by apply stays_walk_body.
  - by apply (same_chain_ok cc).
Qed.

Lemma stays_exist_dwarf ev a sz w : stays (quadd_is_ex_entry_exist_dwarf cie0 ev a sz w).
Proof. unfold quadd_is_ex_entry_exist_dwarf. stay. Qed.
End dwarf.

Section ehabi.
Context (vrs0 : list Z) (qd0 : Disasm.quadd_disasm_data).

Lemma stays_eh_body vma b : cc_ok (v_cc b) -> stays (eh_walk_body vrs0 qd0 vma b).
Proof.
  intros Hok. unfold eh_walk_body. destruct (negb _); [done|]. destruct (negb _); [done|].
  destruct (find_vma _); [|done]. apply stays_bind.
  { unfold eh_switch_region. stay. }
  intros [go b1] E. apply eh_switch_spec in E as [Hs _]. destruct (negb go); [done|].
  apply stays_bind.
  { unfold eh_step. apply stays_bind; [apply stays_view|]. intros ri _.
    pose proof (stays_eh_frame vrs0 qd0 (um (v_cc b1)) ri (v_frame b1) vma (v_thumb b1)) as Hf.
    destruct (EhAbi.unwind_frame _ _ _ _ _ _ _) as [| |[]|]; done. }
  intros [e|f] _; [done|]. unfold eh_record. apply stays_bind; [|intros [n cc] _; done].
  apply stays_store; [|done]. by apply (same_chain_ok (v_cc b1)), (same_chain_ok _ _ Hs).
Qed.

Lemma stays_cc_ehabi ev cc w : cc_ok cc -> stays (quadd_get_user_cc_arm32_ehabi vrs0 qd0 ev cc w).
Proof.
  intros Hok. unfold quadd_get_user_cc_arm32_ehabi. destruct (ev_regs ev) as [r|]; [|done].
  destruct task_mm; [|done]. destruct (negb _); [done|]. destruct (_ =? _); [done|].
  destruct (eh_start_frame _ _) as [f th]. destruct (find_vma _); [|done].
  destruct (find_vma _) as [vma_sp|]; [|done].
  apply stays_bind; [apply stays_extabs|]. intros [[e|x] w1] _; [done|].
  apply stays_bind; [|intros [cc1 w2] _; stay].
  unfold eh_unwind_backtrace. apply stays_bind; [|intros; stay].
  apply (stays_chain_loop _ v_cc).
  - intros s go s' E Hs. by apply (eh_body_spec vrs0 qd0 Htask) in E as [X _]; [apply X|].
  - intros. by apply stays_eh_body.
  - by apply (same_chain_ok cc).
Qed.

Lemma stays_exist_ehabi ev a w : stays (quadd_is_ex_entry_exist_arm32_ehabi ev a w).
Proof.
  unfold quadd_is_ex_entry_exist_arm32_ehabi.
  assert (forall ri, stays (ehabi_entry_usable ri a)) as Hu.
  { intros ri. unfold ehabi_entry_usable. apply stays_bind; [apply stays_find_idx|]. intros [i l] _.
    destruct (EhAbi.is_err_or_null i); [done|]. pose proof (stays_eh_read ri (u64 (i + 4))) as Hr.
    destruct (EhAbi.eh_read_mmap_data _ _) as [| |[]|]; done. }
  destruct (ev_regs ev); [|done]. destruct task_mm; [|done]. destruct (find_vma a); [|done].
  apply stays_bind; [apply stays_extabs|]. intros [[e|x] w1] _; [done|]. stay.
Qed.
End ehabi.
End walks.
