(* ===== verification/Backtrace.v ===== *)
(** * Frame pointers and the choice of unwinders (backtrace.c, 33-37 and 115-595)

    The unwinder that follows frame pointers, in its 64-bit and 32-bit versions, which
    are the same text on words of 8 and of 4 bytes; and the loop that takes turns with
    the three unwinders. *)

From stdpp Require Import gmap.
From S2P Require Import Prelude DwarfRead DwarfCfa DwarfTable DwarfEntries Callchain EhRegions DwarfUnwind DwarfWalk Disasm EhWalk ChainStores.
#[local] Open Scope Z_scope.

(** What the unwinders change: the chain, the processor's DWARF context, the tables. *)
Record ustate := UState { u_cc : callchain; u_cpu : cpu_context; u_w : world }.
Definition on_cc (f : callchain -> callchain) (s : ustate) : ustate :=
  UState (f (u_cc s)) (u_cpu s) (u_w s).

Definition is_table_unwinding (cc : callchain) : bool := um_ut (um cc) || um_dwarf (um cc).

(** A 32-bit local of the compat version. *)
Definition word (sz x : Z) : Z := if sz =? 4 then u32 x else x.

Section backtrace.
Context `{ShiftOps} `{Process}.
(** The locals of the table unwinders before they are set. *)
Context (cfa_fuel : nat) (cie0 : dw_cie) (alloc_tail : tail_info -> bool).
Context (vrs0 : list Z) (qd0 : quadd_disasm_data).

(** [||] evaluates the second search when the first finds nothing. *)
Definition is_ex_entry_exist (ev : event_context) (addr : Z) (s : ustate) : outcome (bool * ustate) :=
  '(r, w) ← quadd_is_ex_entry_exist_dwarf cie0 ev addr (c_ptr_size (u_cpu s)) (u_w s);
  let s := UState (u_cc s) (u_cpu s) w in
  if r : bool then mret (true, s)
  else
    '(r, w) ← quadd_is_ex_entry_exist_arm32_ehabi ev addr (u_w s);
    mret (r, UState (u_cc s) (u_cpu s) w).

(** ** One frame

    The return address and the caller's frame pointer of the frame at [tail], whose
    first word is [value]; none when it cannot be a frame. *)
Definition read_frame (sz tail value : Z) (stack_vma : option vm_area) (cc : callchain)
    : option (Z * Z) * callchain :=
  if is_vma_addr value stack_vma sz then
    (* gcc thumb/clang frame *)
    if negb (is_vma_addr (u64 (tail + sz)) stack_vma sz) then (None, cc)
    else
      match copy_from_user (u64 (tail + sz)) (Z.to_nat sz) with
      | None => (None, set_urc_fp QUADD_URC_EACCESS cc)
      | Some lr =>
          (Some (lr, value), set_curr (u64 (tail + sz * 2)) value (curr_fp_thumb cc) lr lr cc)
      end
  else
    (* gcc arm frame *)
    match copy_from_user (u64 (tail - sz)) (Z.to_nat sz) with
    | None => (None, set_urc_fp QUADD_URC_EACCESS cc)
    | Some fp =>
        if negb (is_vma_addr fp stack_vma sz) then (None, cc)
        else (Some (value, fp), set_curr (u64 (tail + sz)) fp (curr_fp_thumb cc) value value cc)
    end.

(** user_backtrace for words of [sz] bytes; the tail 0 is a null pointer. *)
Definition user_backtrace_w (sz : Z) (ev : event_context) (tail : Z) (stack_vma : option vm_area)
    (s : ustate) : outcome (Z * ustate) :=
  if negb (is_vma_addr tail stack_vma sz) then mret (0, s)
  else
    match copy_from_user tail (Z.to_nat sz) with
    | None => mret (0, on_cc (set_urc_fp QUADD_URC_EACCESS) s)
    | Some value =>
        let '(frame, cc) := read_frame sz tail value stack_vma (u_cc s) in
        let s := on_cc (fun _ => cc) s in
        match frame with
        | None => mret (0, s)
        | Some (value_lr, fp_prev) =>
            if fp_prev <=? tail then mret (0, s)
            else
              '(nr_added, cc) ← quadd_callchain_store (u_cc s) value_lr QUADD_UNW_TYPE_FP;
              let s := on_cc (fun _ => cc) s in
              if nr_added =? 0 then mret (0, s)
              else if is_table_unwinding (u_cc s) then
                '(r, s) ← is_ex_entry_exist ev value_lr s;
                mret (if r : bool then 0 else fp_prev, s)
              else mret (fp_prev, s)
        end
    end.
Definition user_backtrace := user_backtrace_w 8.
Definition user_backtrace_compat := user_backtrace_w 4.

(** [while (tail && !((unsigned long)tail & 0x3))] *)
Record tail_walk := TailWalk { k_tail : Z; k_s : ustate }.
Definition tail_stops (tail : Z) : bool := (tail =? 0) || negb (Z.land tail 0x3 =? 0).
Definition tail_body (sz : Z) (ev : event_context) (vma : option vm_area) (b : tail_walk)
    : outcome (bool * tail_walk) :=
  if tail_stops (k_tail b) then mret (false, b)
  else
    '(tail, s) ← user_backtrace_w sz ev (k_tail b) vma (k_s b);
    mret (negb (tail =? 0), TailWalk tail s).
(** Every round but the last adds one of at most 64 addresses. *)
Definition tail_fuel : nat := 66.
#[global] Arguments tail_fuel : simpl never.
Definition tail_loop (sz : Z) (ev : event_context) (vma : option vm_area) (tail : Z) (s : ustate)
    : outcome (Z * ustate) :=
  b ← chain_loop (tail_body sz ev vma) tail_fuel (TailWalk tail s);
  mret (nr (u_cc (k_s b)), k_s b).

(** ** The first frame

    The tail to start at, 0 for the frame pointer itself; or the number to return. *)
Definition first_tail (sz : Z) (regs : pt_regs) (fp reg : Z) (vma : vm_area) (s : ustate)
    : outcome ((Z + Z) * ustate) :=
  if r_thumb regs then
    if (reg <=? fp) || negb (is_vma_addr reg (Some vma) sz) then mret (inl 0, s) else mret (inr 0, s)
  else if (fp <? reg) && is_vma_addr reg (Some vma) sz then
    (* fp --> fp prev *)
    let r := if is_vma_addr (u64 (fp + sz)) (Some vma) sz then
               match copy_from_user (u64 (fp + sz)) (Z.to_nat sz) with
               | None => None
               | Some value =>
                   Some (negb (is_vma_addr value (find_vma (word sz (instruction_pointer regs))) sz))
               end
             else Some true in
    match r with
    | None => mret (inl 0, on_cc (set_urc_fp QUADD_URC_EACCESS) s)
    | Some true =>
        (* gcc: fp --> short frame tail (fp) *)
        '(nr_added, cc) ← quadd_callchain_store (u_cc s) (word sz (quadd_user_link_register regs))
                            QUADD_UNW_TYPE_FP;
        let s := on_cc (fun _ => cc) s in
        mret (if nr_added =? 0 then inl (nr (u_cc s)) else inr reg, s)
    | Some false => mret (inr 0, s)
    end
  else mret (inr 0, s).

Definition get_user_callchain_fp_w (sz : Z) (ev : event_context) (s : ustate) : outcome (Z * ustate) :=
  let s := on_cc (set_urc_fp QUADD_URC_FP_INCORRECT) s in
  match ev_regs ev, task_mm with
  | Some regs, true =>
      let sp := word sz (quadd_user_stack_pointer regs) in
      let fp := word sz (quadd_get_user_frame_pointer regs) in
      if (fp =? 0) || (fp <? sp) || negb (Z.land fp 0x3 =? 0) then mret (0, s)
      else
        match find_vma sp with
        | None => mret (0, on_cc (set_urc_fp QUADD_URC_SP_INCORRECT) s)
        | Some vma =>
            if negb (is_vma_addr fp (Some vma) sz) then mret (0, s)
            else
              match copy_from_user fp (Z.to_nat sz) with
              | None => mret (0, on_cc (set_urc_fp QUADD_URC_EACCESS) s)
              | Some reg =>
                  '(r, s) ← first_tail sz regs fp reg vma s;
                  match r with
                  | inl n => mret (n, s)
                  | inr tail => tail_loop sz ev (Some vma) (if tail =? 0 then fp else tail) s
                  end
              end
        end
  | _, _ => mret (0, on_cc (set_urc_fp QUADD_URC_FAILURE) s)
  end.
Definition get_user_callchain_fp := get_user_callchain_fp_w 8.
Definition get_user_callchain_fp_compat := get_user_callchain_fp_w 4.

(** Going on from where another unwinder stopped. *)
Definition __user_backtrace_w (sz : Z) (ev : event_context) (s : ustate) : outcome (Z * ustate) :=
  let s := on_cc (set_urc_fp QUADD_URC_FP_INCORRECT) s in
  if negb task_mm
  then mret (nr (u_cc s), on_cc (set_urc_fp QUADD_URC_FAILURE) s)
  else
    match find_vma (curr_sp (u_cc s)) with
    | None => mret (nr (u_cc s), on_cc (set_urc_fp QUADD_URC_SP_INCORRECT) s)
    | Some vma => tail_loop sz ev (Some vma) (curr_fp (u_cc s)) s
    end.
Definition __user_backtrace := __user_backtrace_w 8.
Definition __user_backtrace_compat := __user_backtrace_w 4.

(** compat_user_mode reads the registers. *)
Definition __get_user_callchain_fp (ev : event_context) (s : ustate) : outcome (Z * ustate) :=
  match ev_regs ev with
  | None => Fault
  | Some regs =>
      if negb (curr_sp (u_cc s) =? 0) then
        if urc_fp (u_cc s) =? QUADD_URC_LEVEL_TOO_DEEP then mret (nr (u_cc s), s)
        else
          '(_, s) ← (if r_compat regs then __user_backtrace_compat ev s else __user_backtrace ev s);
          mret (nr (u_cc s), s)
      else if r_compat regs then get_user_callchain_fp_compat ev s
      else get_user_callchain_fp ev s
  end.

(** ** Taking turns *)

Definition run_dwarf (ev : event_context) (s : ustate) : outcome ustate :=
  '(_, cc, c, w) ← quadd_get_user_cc_dwarf cfa_fuel cie0 alloc_tail ev (u_cc s) (u_cpu s) (u_w s);
  mret (UState cc c w).
Definition run_ehabi (ev : event_context) (s : ustate) : outcome ustate :=
  '(_, cc, w) ← quadd_get_user_cc_arm32_ehabi vrs0 qd0 ev (u_cc s) (u_w s);
  mret (UState cc (u_cpu s) w).
Definition run_fp (ev : event_context) (s : ustate) : outcome ustate :=
  '(_, s) ← __get_user_callchain_fp ev s; mret s.

Definition is_stack_ok (align_mask prev_sp : Z) (cc : callchain) : bool :=
  let ok := if nr cc <=? 1 then prev_sp <=? curr_sp cc else prev_sp <? curr_sp cc in
  if negb (Z.land (curr_sp cc) align_mask =? 0) then false else ok.

Definition mixed_body (ev : event_context) (align_mask : Z) (s : ustate) : outcome (bool * ustate) :=
  let nr_prev := nr (u_cc s) in
  let prev_sp := curr_sp (u_cc s) in
  s ← (if um_dwarf (um (u_cc s)) then run_dwarf ev s else mret s);
  s ← (if um_ut (um (u_cc s)) then run_ehabi ev s else mret s);
  s ← (if um_fp (um (u_cc s)) && (nr_prev =? nr (u_cc s)) then run_fp ev s else mret s);
  mret (negb (nr_prev =? nr (u_cc s)) && is_stack_ok align_mask prev_sp (u_cc s), s).

Definition get_user_callchain_mixed (ev : event_context) (s : ustate) : outcome (Z * ustate) :=
  '(stop, s) ←
    (if ev_user_mode ev then mret (false, s)
     else
       match ev_regs ev with
       | None => Fault
       | Some regs =>
           '(nr_added, cc) ← quadd_callchain_store (u_cc s) (instruction_pointer regs) QUADD_UNW_TYPE_KCTX;
           mret (nr_added =? 0, on_cc (fun _ => cc) s)
       end);
  if stop : bool then mret (nr (u_cc s), s)
  else
    s ← chain_loop (mixed_body ev (if cs_64 (u_cc s) then 0x07 else 0x03)) tail_fuel s;
    mret (nr (u_cc s), s).

Definition set_cs_64 (b : bool) (cc : callchain) : callchain :=
  Callchain (nr cc) (ips cc) (types cc) b (um cc) (urc_fp cc) (urc_ut cc) (urc_dwarf cc)
    (curr_sp cc) (curr_fp cc) (curr_fp_thumb cc) (curr_pc cc) (curr_lr cc) (low_addr cc).
Definition set_urcs (u : Z) (cc : callchain) : callchain :=
  set_urc_dwarf u (set_urc_ut u (set_urc_fp u cc)).

Definition quadd_get_user_callchain (ev : event_context) (s : ustate) : outcome (Z * ustate) :=
  let s := on_cc (fun cc => set_curr 0 0 0 0 0 (set_chain 0 (ips cc) (types cc) cc)) s in
  match ev_regs ev with
  | None => mret (0, on_cc (set_urcs QUADD_URC_FAILURE) s)
  | Some regs =>
      let s := on_cc (fun cc => set_urcs QUADD_URC_NONE (set_cs_64 (negb (r_compat regs)) cc)) s in
      '(_, s) ← get_user_callchain_mixed ev s;
      mret (nr (u_cc s), s)
  end.
End backtrace.

(** ** What an unwinder promises

    Every unwinder appends accepted addresses, with types of its own, and leaves the
    areas and their reference counts as they were; however it ends, it has not stored
    outside the arrays of the chain. *)
Class Unwinder `{Process} (tys : list Z) (run : ustate -> outcome ustate) : Prop := {
  unw_extends s s' : run s = Done s' -> cc_ok (u_cc s) -> extends tys (u_cc s) (u_cc s');
  unw_areas s s' : run s = Done s' -> same_areas (u_w s) (u_w s');
  unw_stays s : cc_ok (u_cc s) -> stays (run s);
}.

Section laws.
Context `{Process}.
Hypothesis Htask : 8 <= TASK_SIZE < 2 ^ 64.

Lemma unwinder_weaken tys tys' run : tys ⊆ tys' -> Unwinder tys run -> Unwinder tys' run.
Proof.
  intros Hsub [U1 U2 U3]. split; [|done..]. intros s s' E Hok. by apply (extends_weaken tys), U1.
Qed.

(** Not running, and running one after the other, are unwinding. *)
#[export] Instance unwinder_ret tys : Unwinder tys mret.
Proof. split; unfold mret, outcome_ret; [intros s s' [= <-]; apply extends_refl|by intros s s' [= <-]|done]. Qed.

#[export] Instance unwinder_bind tys run run' : Unwinder tys run -> Unwinder tys run' ->
  Unwinder tys (fun s => s ← run s; run' s).
Proof.
  intros [A1 A2 A3] [B1 B2 B3]. split; [intros s s' E; inv_bind E..|].
  - intros Hok. apply A1 in E0; [|done]. apply B1 in E; [|apply E0].
    by apply (extends_trans _ _ (u_cc x)); [apply Hok|..].
  - apply A2 in E0. apply B2 in E. by etrans.
  - intros s Hok. apply stays_bind; [by apply A3|]. intros s1 E. by apply B3, (A1 s s1 E).
Qed.

#[export] Instance unwinder_when tys (c : ustate -> bool) run : Unwinder tys run ->
  Unwinder tys (fun s => if c s then run s else mret s).
Proof.
  intros [A1 A2 A3]. destruct (unwinder_ret tys) as [R1 R2 R3].
  split; [intros s s'; destruct (c s); auto..|]. intros s. destruct (c s); auto.
Qed.

Lemma store_spec cc ip ty n cc' tys : quadd_callchain_store cc ip ty = Done (n, cc') -> cc_ok cc ->
  0 <= ty < 16 -> ty ∈ tys ->
  extends tys cc cc' /\ nr cc' = nr cc + n /\ curr_sp cc' = curr_sp cc /\ um cc' = um cc /\ (n = 0 \/ n = 1).
Proof.
  intros E Hok Ht Hin. destruct (store_extends tys cc ip ty Hok Htask Ht Hin) as (n' & c' & E' & X & A & B & C).
  rewrite E in E'. injection E' as <- <-. split_and!; try done.
  unfold quadd_callchain_store in E. destruct (_ || _); [by inv_done|].
  destruct (_ <=? _); [by inv_done|]. inv_bind E. destruct (_ <? _); [by inv_done|done].
Qed.
End laws.

Definition fp_types : list Z := [QUADD_UNW_TYPE_FP].

Section facts.
Context `{ShiftOps} `{Process}.
Context (cfa_fuel : nat) (cie0 : dw_cie) (alloc_tail : tail_info -> bool).
Context (vrs0 : list Z) (qd0 : quadd_disasm_data).
Hypothesis Htask : 8 <= TASK_SIZE < 2 ^ 64.
Abbreviation exist := (is_ex_entry_exist cie0).
Abbreviation step := (user_backtrace_w cie0).

(** ** Following frame pointers *)

Lemma exist_keeps ev addr s r s' : exist ev addr s = Done (r, s') ->
  u_cc s' = u_cc s /\ same_areas (u_w s) (u_w s').
Proof.
  unfold is_ex_entry_exist. intros E. inv_bind E. destruct x as [b w].
  apply dwarf_exist_gives_back in E0. destruct b; [by inv_done|]. inv_bind E. destruct x as [r' w'].
  apply ehabi_exist_gives_back in E1. inv_done. split; [done|]. by etrans.
Qed.

(** Only the notes of the chain change, and the caller's frame is on the stack. *)
Lemma read_frame_spec sz tail value vma cc fr cc' : read_frame sz tail value vma cc = (fr, cc') ->
  same_chain cc cc' /\ um cc' = um cc /\
  forall lr fp, fr = Some (lr, fp) -> is_vma_addr fp vma sz = true.
Proof.
  unfold read_frame. intros E. repeat case_match; simplify_eq/=; split_and!; try done; intros lr fp [= <- <-].
  - done.
  - by apply negb_false_iff.
Qed.

(** What a step does that the loop relies on. *)
Record stepped (sz tail : Z) (vma : option vm_area) (s : ustate) (t : Z) (s' : ustate) : Prop := {
  sp_extends : extends fp_types (u_cc s) (u_cc s');
  sp_areas : same_areas (u_w s) (u_w s');
  sp_um : um (u_cc s') = um (u_cc s);
  sp_next : t <> 0 -> nr (u_cc s') = nr (u_cc s) + 1 /\ tail < t /\ is_vma_addr t vma sz = true;
}.

Lemma stepped_stop sz tail vma s s' : cc_ok (u_cc s) -> same_chain (u_cc s) (u_cc s') ->
  um (u_cc s') = um (u_cc s) -> u_w s' = u_w s -> stepped sz tail vma s 0 s'.
Proof. intros Hok Hs Hu Hw. split; try done; [by apply same_extends|]. unfold same_areas. by rewrite Hw. Qed.

Lemma user_backtrace_spec sz ev tail vma s t s' : step sz ev tail vma s = Done (t, s') ->
  cc_ok (u_cc s) -> stepped sz tail vma s t s'.
Proof.
  unfold user_backtrace_w. intros E Hok.
  destruct (negb _); [inv_done; by apply stepped_stop|].
  destruct (copy_from_user _ _) as [value|]; [|inv_done; by apply stepped_stop].
  destruct (read_frame _ _ _ _ _) as [fr cc] eqn:Er. apply read_frame_spec in Er as (Hs & Hu & Hfp).
  pose proof (same_chain_ok _ _ Hs Hok) as Hok1.
  destruct fr as [[lr fp]|]; [|inv_done; by apply stepped_stop].
  destruct (Z.leb_spec fp tail); [inv_done; by apply stepped_stop|].
  inv_bind E. destruct x as [n cc2]. cbn [on_cc u_cc] in *.
  apply (store_spec Htask _ _ _ _ _ fp_types) in E0 as (X & Hn & _ & Hu2 & H01); [|done|done|by constructor].
  assert (extends fp_types (u_cc s) cc2) as X2.
  { apply (extends_trans _ _ cc); [apply Hok|by apply same_extends|done]. }
  assert (um cc2 = um (u_cc s)) as Hum by congruence.
  destruct (Z.eqb_spec n 0); [inv_done; by split|]. assert (nr cc2 = nr (u_cc s) + 1) as Hn1.
  { destruct Hs as [Hs _]. lia. }
  specialize (Hfp _ _ eq_refl). destruct (is_table_unwinding cc2).
  - inv_bind E. destruct x as [r s1]. apply exist_keeps in E0 as [Ecc Hsa]. cbn in *.
    destruct r; inv_done; split; rewrite ?Ecc; try done.
  - inv_done. by split.
Qed.
Abbreviation round := (tail_body cie0).
Definition k_cc (b : tail_walk) : callchain := u_cc (k_s b).

Lemma tail_body_spec sz ev vma b go b' : round sz ev vma b = Done (go, b') -> cc_ok (k_cc b) ->
  stepped sz (k_tail b) vma (k_s b) (if go then k_tail b' else 0) (k_s b') /\
  (go = true -> k_tail b' <> 0 /\ Z.land (k_tail b) 3 = 0).
Proof.
  unfold tail_body. intros E Hok. destruct (tail_stops _) eqn:Et.
  { inv_done. split; [by apply stepped_stop|done]. }
  unfold tail_stops in Et. apply orb_false_iff in Et as [_ Et]. apply negb_false_iff, Z.eqb_eq in Et.
  inv_bind E. destruct x as [t s]. inv_done. pose proof (user_backtrace_spec _ _ _ _ _ _ _ E0 Hok) as Hs.
  destruct (Z.eqb_spec t 0) as [->|]; by split.
Qed.

Lemma tail_body_extends sz ev vma b go b' : round sz ev vma b = Done (go, b') -> cc_ok (k_cc b) ->
  extends fp_types (k_cc b) (k_cc b') /\ (go = true -> nr (k_cc b) < nr (k_cc b')).
Proof.
  intros E Hok. destruct (tail_body_spec sz ev vma b go b' E Hok) as [[X _ _ Hn] Hgo]. split; [done|].
  intros ->. destruct (Hgo eq_refl) as [Ht _]. unfold k_cc. specialize (Hn Ht). lia.
Qed.

(** Following frame pointers climbs the stack. After [n] rounds that go on exactly [n]
    addresses have been added, each accepted and tagged as found by frame pointer, at
    most 64 in all; the frame pointer has grown with every round, and lies in the
    mapping of the stack. *)
Theorem user_backtrace_climbs sz ev vma b n b' : rounds (round sz ev vma) b n b' -> cc_ok (k_cc b) ->
  nr (k_cc b') = nr (k_cc b) + Z.of_nat n /\ nr (k_cc b) + Z.of_nat n <= QUADD_MAX_STACK_DEPTH /\
  extends fp_types (k_cc b) (k_cc b') /\ k_tail b + Z.of_nat n <= k_tail b' /\
  ((0 < n)%nat -> is_vma_addr (k_tail b') vma sz = true).
Proof.
  intros Hr Hok.
  assert (nr (k_cc b') = nr (k_cc b) + Z.of_nat n /\ extends fp_types (k_cc b) (k_cc b') /\
          k_tail b + Z.of_nat n <= k_tail b' /\
          ((0 < n)%nat -> is_vma_addr (k_tail b') vma sz = true)) as (E & X & Ht & Hv).
  { induction Hr as [|n b1 b2 Hr (E & X & Ht & _) Eb].
    { split_and!; [lia|by apply extends_refl|lia|lia]. }
    destruct (tail_body_spec _ _ _ _ _ _ Eb (ex_ok _ _ _ X)) as [[X2 _ _ Hn] Hgo].
    destruct (Hgo eq_refl) as [Hne _]. destruct (Hn Hne) as (Hnr & Hlt & Hv). unfold k_cc in *.
    split_and!; [lia| |lia|done]. apply (extends_trans _ _ (u_cc (k_s b1))); [apply Hok|done|done]. }
  pose proof (co_nr _ (ex_ok _ _ _ X)). split_and!; try done. lia.
Qed.

(** ** The three unwinders keep the promise *)

Lemma tail_loop_spec sz ev vma tail s n s' : tail_loop cie0 sz ev vma tail s = Done (n, s') ->
  cc_ok (u_cc s) -> extends fp_types (u_cc s) (u_cc s').
Proof.
  unfold tail_loop. set (b := TailWalk tail s). intros E Hok. inv_bind E.
  unfold mret, outcome_ret in E. injection E as _ <-.
  pose proof (chain_loop_ends _ k_cc fp_types (tail_body_extends sz ev vma) b tail_fuel Hok ltac:(done)) as Hl.
  rewrite E0 in Hl. apply Hl.
Qed.

Lemma user_backtrace_areas sz ev tail vma s t s' : step sz ev tail vma s = Done (t, s') ->
  same_areas (u_w s) (u_w s').
Proof.
  unfold user_backtrace_w. intros E. destruct (negb _); [by inv_done|].
  destruct (copy_from_user _ _) as [value|]; [|by inv_done].
  destruct (read_frame _ _ _ _ _) as [[[lr fp]|] cc]; [|by inv_done].
  destruct (fp <=? tail); [by inv_done|]. inv_bind E. destruct x as [n cc2].
  destruct (n =? 0); [by inv_done|]. destruct (is_table_unwinding _); [|by inv_done].
  inv_bind E. destruct x as [r s1]. apply exist_keeps in E1 as [_ Hs]. by inv_done.
Qed.

Lemma tail_body_areas sz ev vma b go b' : round sz ev vma b = Done (go, b') ->
  same_areas (u_w (k_s b)) (u_w (k_s b')).
Proof.
  unfold tail_body. intros E. destruct (tail_stops _); [by inv_done|].
  inv_bind E. destruct x as [t s2]. apply user_backtrace_areas in E0. by inv_done.
Qed.

Lemma tail_loop_areas sz ev vma tail s n s' : tail_loop cie0 sz ev vma tail s = Done (n, s') ->
  same_areas (u_w s) (u_w s').
Proof.
  unfold tail_loop. intros E. inv_bind E. unfold mret, outcome_ret in E. injection E as _ <-.
  apply (chain_loop_keeps _ (fun b => same_areas (u_w s) (u_w (k_s b)))) in E0; [done| |done].
  intros b go b' Eb Hs. apply tail_body_areas in Eb. by etrans.
Qed.

Lemma first_tail_spec sz regs fp reg vma s r s' : first_tail sz regs fp reg vma s = Done (r, s') ->
  u_w s' = u_w s /\ (cc_ok (u_cc s) -> extends fp_types (u_cc s) (u_cc s')).
Proof.
  unfold first_tail. intros E. destruct (r_thumb regs).
  { destruct (_ || _); inv_done; (split; [done|]); apply extends_refl. }
  destruct (_ && _); [|inv_done; split; [done|apply extends_refl]].
  destruct (if is_vma_addr _ _ _ then _ else _) as [[|]|].
  - inv_bind E. destruct x as [n cc]. unfold mret, outcome_ret in E. injection E as _ <-. split; [done|].
    intros Hok. by apply (store_spec Htask _ _ _ _ _ fp_types) in E0 as [X _]; [|done|done|constructor].
  - inv_done. split; [done|apply extends_refl].
  - inv_done. split; [done|]. intros Hok. by apply same_extends.
Qed.

(** What a function of the frame-pointer unwinder does to the state. *)
Definition fp_keeps (s s' : ustate) : Prop :=
  same_areas (u_w s) (u_w s') /\ (cc_ok (u_cc s) -> extends fp_types (u_cc s) (u_cc s')).

Lemma fp_keeps_note s s' : u_w s' = u_w s -> same_chain (u_cc s) (u_cc s') -> fp_keeps s s'.
Proof. intros Hw Hs. split; [unfold same_areas; by rewrite Hw|]. intros Hok. by apply same_extends. Qed.

#[export] Instance fp_keeps_trans : Transitive fp_keeps.
Proof.
  intros s1 s2 s3 [A1 A2] [B1 B2]. split; [by etrans|]. intros Hok. specialize (A2 Hok).
  apply (extends_trans _ _ (u_cc s2)); [apply Hok|done|]. apply B2, A2.
Qed.

Lemma tail_loop_keeps sz ev vma tail s n s' : tail_loop cie0 sz ev vma tail s = Done (n, s') -> fp_keeps s s'.
Proof. intros E. split; [by eapply tail_loop_areas|by eapply tail_loop_spec]. Qed.

Lemma first_keeps sz ev s n s' : get_user_callchain_fp_w cie0 sz ev s = Done (n, s') -> fp_keeps s s'.
Proof.
  unfold get_user_callchain_fp_w. intros E.
  destruct (ev_regs ev) as [r|]; [|inv_done; by apply fp_keeps_note].
  destruct task_mm; [|inv_done; by apply fp_keeps_note].
  destruct (_ || _); [inv_done; by apply fp_keeps_note|].
  destruct (find_vma _) as [vma|]; [|inv_done; by apply fp_keeps_note].
  destruct (negb _); [inv_done; by apply fp_keeps_note|].
  destruct (copy_from_user _ _) as [reg|]; [|inv_done; by apply fp_keeps_note].
  inv_bind E. destruct x as [r1 s1]. apply first_tail_spec in E0 as [Hw X].
  etrans; [by apply (fp_keeps_note s (on_cc (set_urc_fp QUADD_URC_FP_INCORRECT) s))|].
  assert (fp_keeps (on_cc (set_urc_fp QUADD_URC_FP_INCORRECT) s) s1) as K
    by (split; [unfold same_areas; by rewrite Hw|done]).
  destruct r1; [by inv_done|]. etrans; [exact K|by eapply tail_loop_keeps].
Qed.

Lemma going_on_keeps sz ev s n s' : __user_backtrace_w cie0 sz ev s = Done (n, s') -> fp_keeps s s'.
Proof.
  unfold __user_backtrace_w. intros E. destruct (negb _); [inv_done; by apply fp_keeps_note|].
  destruct (find_vma _) as [vma|]; [|inv_done; by apply fp_keeps_note].
  apply tail_loop_keeps in E. etrans; [|exact E]. by apply fp_keeps_note.
Qed.

Lemma callchain_fp_keeps ev s n s' : __get_user_callchain_fp cie0 ev s = Done (n, s') -> fp_keeps s s'.
Proof.
  unfold __get_user_callchain_fp. intros E. destruct (ev_regs ev) as [r|]; [|done].
  destruct (negb _).
  - destruct (_ =? _); [inv_done; by apply fp_keeps_note|]. inv_bind E. destruct x as [m s1]. inv_done.
    destruct (r_compat r); by eapply going_on_keeps.
  - destruct (r_compat r); by eapply first_keeps.
Qed.

(** *** However it ends, the chain's arrays are not left *)
Lemma stays_exist_any ev addr s : stays (exist ev addr s).
Proof.
  unfold is_ex_entry_exist. apply stays_bind; [apply stays_exist_dwarf|]. intros [[|] w] _; [done|].
  apply stays_bind; [apply stays_exist_ehabi|]. by intros [r w'] _.
Qed.

Lemma stays_fp_store cc ip : cc_ok cc -> stays (quadd_callchain_store cc ip QUADD_UNW_TYPE_FP).
Proof. intros Hok. by apply stays_store. Qed.

Lemma stays_backtrace sz ev tail vma s : cc_ok (u_cc s) -> stays (step sz ev tail vma s).
Proof.
  intros Hok. unfold user_backtrace_w. destruct (negb _); [done|].
  destruct (copy_from_user _ _) as [value|]; [|done].
  destruct (read_frame _ _ _ _ _) as [fr cc] eqn:Er. apply read_frame_spec in Er as (Hs & _ & _).
  destruct fr as [[lr fp]|]; [|done]. destruct (fp <=? tail); [done|].
  apply stays_bind; [by apply stays_fp_store, (same_chain_ok (u_cc s))|]. intros [n cc2] _.
  destruct (n =? 0); [done|]. destruct (is_table_unwinding _); [|done].
  apply stays_bind; [apply stays_exist_any|]. by intros [r s1] _.
Qed.

Lemma stays_tail_loop sz ev vma tail s : cc_ok (u_cc s) -> stays (tail_loop cie0 sz ev vma tail s).
Proof.
  intros Hok. unfold tail_loop. apply stays_bind; [|done]. apply (stays_chain_loop _ k_cc).
  - intros b go b' E Hb. by apply tail_body_extends in E as [X _]; [apply X|].
  - intros b Hb. unfold tail_body. destruct (tail_stops _); [done|].
    apply stays_bind; [by apply stays_backtrace|]. by intros [t s1] _.
  - done.
Qed.

Lemma stays_first_tail sz regs fp reg vma s : cc_ok (u_cc s) -> stays (first_tail sz regs fp reg vma s).
Proof.
  intros Hok. unfold first_tail. destruct (r_thumb regs); [by destruct (_ || _)|].
  destruct (_ && _); [|done]. cbv zeta.
  destruct (if is_vma_addr _ _ _ then _ else _) as [[|]|]; try done.
  apply stays_bind; [by apply stays_fp_store|]. by intros [n cc] _.
Qed.

Lemma stays_callchain_fp_w sz ev s : cc_ok (u_cc s) -> stays (get_user_callchain_fp_w cie0 sz ev s).
Proof.
  intros Hok. unfold get_user_callchain_fp_w. destruct (ev_regs ev) as [r|]; [|done].
  destruct task_mm; [|done]. cbv zeta. destruct (_ || _); [done|]. destruct (find_vma _) as [vma|]; [|done].
  destruct (negb _); [done|]. destruct (copy_from_user _ _) as [reg|]; [|done].
  apply stays_bind; [by apply stays_first_tail, (same_chain_ok (u_cc s))|].
  intros [[n|t] s1] E; [done|]. apply stays_tail_loop. apply first_tail_spec in E as [_ X].
  apply X. by apply (same_chain_ok (u_cc s)).
Qed.

Lemma stays_going_on sz ev s : cc_ok (u_cc s) -> stays (__user_backtrace_w cie0 sz ev s).
Proof.
  intros Hok. unfold __user_backtrace_w. destruct (negb _); [done|].
  destruct (find_vma _) as [vma|]; [|done]. apply stays_tail_loop. by apply (same_chain_ok (u_cc s)).
Qed.

Lemma stays_run_fp ev s : cc_ok (u_cc s) -> stays (run_fp cie0 ev s).
Proof.
  intros Hok. unfold run_fp. apply stays_bind; [|by intros [n s1] _].
  unfold __get_user_callchain_fp. destruct (ev_regs ev) as [r|]; [|done].
  destruct (negb _).
  - destruct (_ =? _); [done|]. apply stays_bind; [|by intros [n s1] _].
    destruct (r_compat r); by apply stays_going_on.
  - destruct (r_compat r); by apply stays_callchain_fp_w.
Qed.

#[export] Instance unwinder_fp ev : Unwinder fp_types (run_fp cie0 ev).
Proof.
  split; [unfold run_fp; intros s s' E; inv_bind E; destruct x as [n s1]; unfold mret, outcome_ret in E;
    injection E as <-; apply callchain_fp_keeps in E0 as [A B]; done..|apply stays_run_fp].
Qed.

#[export] Instance unwinder_dwarf ev : Unwinder dwarf_types (run_dwarf cfa_fuel cie0 alloc_tail ev).
Proof.
  split; unfold run_dwarf; [intros s s' E; inv_bind E; destruct x as [[[n cc] c] w];
    unfold mret, outcome_ret in E; injection E as <-..|].
  - intros Hok. by apply dwarf_extends in E0.
  - by apply dwarf_gives_back in E0.
  - intros s Hok. apply stays_bind; [by apply stays_cc_dwarf|]. by intros [[[n cc] c] w] _.
Qed.

#[export] Instance unwinder_ehabi ev : Unwinder ut_types (run_ehabi vrs0 qd0 ev).
Proof.
  split; unfold run_ehabi; [intros s s' E; inv_bind E; destruct x as [[n cc] w];
    unfold mret, outcome_ret in E; injection E as <-..|].
  - intros Hok. by apply ehabi_extends in E0.
  - by apply ehabi_gives_back in E0.
  - intros s Hok. apply stays_bind; [by apply stays_cc_ehabi|]. by intros [[n cc] w] _.
Qed.

(** ** Taking turns *)

Definition all_types : list Z := QUADD_UNW_TYPE_KCTX :: dwarf_types ++ ut_types ++ fp_types.
Abbreviation turn := (mixed_body cfa_fuel cie0 alloc_tail vrs0 qd0).

Lemma unwinder_any tys run : tys ⊆ all_types -> Unwinder tys run -> Unwinder all_types run.
Proof. apply unwinder_weaken. Qed.

Lemma types_dwarf : dwarf_types ⊆ all_types.
Proof. by apply list_subseteq_cons, list_subseteq_app_l. Qed.
Lemma types_ut : ut_types ⊆ all_types.
Proof. by apply list_subseteq_cons, list_subseteq_app_r, list_subseteq_app_l. Qed.
Lemma types_fp : fp_types ⊆ all_types.
Proof. by apply list_subseteq_cons, list_subseteq_app_r, list_subseteq_app_r. Qed.

(** A turn is the three unwinders in sequence, each run or not. *)
Lemma turn_unwinder ev n : Unwinder all_types (fun s =>
  s ← (if um_dwarf (um (u_cc s)) then run_dwarf cfa_fuel cie0 alloc_tail ev s else mret s);
  s ← (if um_ut (um (u_cc s)) then run_ehabi vrs0 qd0 ev s else mret s);
  (if um_fp (um (u_cc s)) && (n =? nr (u_cc s)) then run_fp cie0 ev s else mret s)).
Proof.
  pose proof (unwinder_any _ _ types_dwarf (unwinder_dwarf ev)) as Ud.
  pose proof (unwinder_any _ _ types_ut (unwinder_ehabi ev)) as Ue.
  pose proof (unwinder_any _ _ types_fp (unwinder_fp ev)) as Uf.
  exact (unwinder_bind all_types _ _
    (unwinder_when _ (fun s => um_dwarf (um (u_cc s))) _ Ud)
    (unwinder_bind all_types _ _
      (unwinder_when _ (fun s => um_ut (um (u_cc s))) _ Ue)
      (unwinder_when _ (fun s1 => um_fp (um (u_cc s1)) && (n =? nr (u_cc s1))) _ Uf))).
Qed.

Lemma turn_stays ev m s : cc_ok (u_cc s) -> stays (turn ev m s).
Proof.
  intros Hok. destruct (turn_unwinder ev (nr (u_cc s))) as [_ _ Hs]. specialize (Hs s Hok).
  unfold mixed_body. cbv beta zeta in *.
  destruct (if um_dwarf _ then _ else _) as [s1|e|site|]; cbn [mbind outcome_bind] in *;
    [|done|by eapply stays_site|done].
  destruct (if um_ut _ then _ else _) as [s2|e|site|]; cbn [mbind outcome_bind] in *;
    [|done|by eapply stays_site|done].
  destruct (if um_fp _ && _ then _ else _) as [s3|e|site|]; cbn [mbind outcome_bind] in *;
    [done|done|by eapply stays_site|done].
Qed.

Lemma turn_extends ev m s go s' : turn ev m s = Done (go, s') -> 
  (cc_ok (u_cc s) -> extends all_types (u_cc s) (u_cc s')) /\ same_areas (u_w s) (u_w s') /\
  (go = true -> nr (u_cc s) <> nr (u_cc s') /\ is_stack_ok m (curr_sp (u_cc s)) (u_cc s') = true).
Proof.
  destruct (turn_unwinder ev (nr (u_cc s))) as [U1 U2 _].
  unfold mixed_body. intros E. inv_bind E. inv_bind E. inv_bind E.
  unfold mret, outcome_ret in E. injection E as Hgo <-.
  specialize (U1 s x1). specialize (U2 s x1). cbv beta in U1, U2. rewrite E0 in U1, U2.
  cbn [mbind outcome_bind] in U1, U2. rewrite E1 in U1, U2. cbn [mbind outcome_bind] in U1, U2.
  split; [by apply U1|]. split; [by apply U2|]. intros ->. apply andb_true_iff in Hgo as [H1 H2].
  split; [|done]. apply negb_true_iff, Z.eqb_neq in H1. done.
Qed.

Lemma turn_grows ev m s go s' : turn ev m s = Done (go, s') -> cc_ok (u_cc s) ->
  extends all_types (u_cc s) (u_cc s') /\ (go = true -> nr (u_cc s) < nr (u_cc s')).
Proof.
  intros E Hok. apply turn_extends in E as (X & _ & Hgo). specialize (X Hok). split; [done|].
  intros Hg. destruct (Hgo Hg). pose proof (ex_nr _ _ _ X). lia.
Qed.

(** C36. Taking turns ends, and climbs. While the unwinders are asked again, each turn has
    added to the chain and left the stack pointer aligned and, after the first, higher;
    64 therefore bounds the turns, and the bound is never what stops the loop. *)
Theorem get_user_callchain_mixed_ends ev m s : cc_ok (u_cc s) ->
  (forall n s', rounds (turn ev m) s n s' ->
     nr (u_cc s) + Z.of_nat n <= nr (u_cc s') <= QUADD_MAX_STACK_DEPTH /\
     curr_sp (u_cc s) + Z.of_nat n - 1 <= curr_sp (u_cc s') /\
     ((0 < n)%nat -> Z.land (curr_sp (u_cc s')) m = 0)) /\
  match chain_loop (turn ev m) tail_fuel s with
  | Done s' => extends all_types (u_cc s) (u_cc s')
  | Timeout => exists n s1, rounds (turn ev m) s n s1 /\ turn ev m s1 = Timeout
  | Faulty site => exists n s1, rounds (turn ev m) s n s1 /\ turn ev m s1 = Faulty site
  | Error e => exists n s1, rounds (turn ev m) s n s1 /\ turn ev m s1 = Error e
  end.
Proof.
  intros Hok. split.
  - intros n s' Hr. pose proof (co_nr _ Hok) as H0nr.
    destruct (rounds_extend _ u_cc all_types (turn_grows ev m) _ _ _ Hr Hok) as [X Hn].
    pose proof (co_nr _ (ex_ok _ _ _ X)). split; [lia|]. clear X Hn.
    induction Hr as [|n s1 s2 Hr IH E]; [split; lia|].
    destruct (rounds_extend _ u_cc all_types (turn_grows ev m) _ _ _ Hr Hok) as [X Hn].
    destruct (turn_grows _ _ _ _ _ E (ex_ok _ _ _ X)) as [X2 Hlt]. specialize (Hlt eq_refl).
    apply turn_extends in E as (_ & _ & Hgo). destruct (Hgo eq_refl) as [_ Hs].
    destruct (IH (co_nr _ (ex_ok _ _ _ X))) as [IHsp _]. unfold is_stack_ok in Hs.
    destruct (Z.eqb_spec (Z.land (curr_sp (u_cc s2)) m) 0) as [Ha|]; [|done]. cbn [negb] in Hs.
    split; [|done]. destruct (Z.leb_spec (nr (u_cc s2)) 1); [apply Z.leb_le in Hs|apply Z.ltb_lt in Hs];
      [|lia].
    assert (n = 0%nat) as -> by lia. inversion Hr; subst. lia.
  - pose proof (chain_loop_ends _ u_cc all_types (turn_grows ev m) s tail_fuel Hok ltac:(done)) as Hl.
    destruct (chain_loop _ _ _); [apply Hl|done..].
Qed.

(** ** The whole *)

Lemma mixed_sound ev s n s' : get_user_callchain_mixed cfa_fuel cie0 alloc_tail vrs0 qd0 ev s = Done (n, s') ->
  (cc_ok (u_cc s) -> extends all_types (u_cc s) (u_cc s')) /\ same_areas (u_w s) (u_w s').
Proof.
  unfold get_user_callchain_mixed. intros E. inv_bind E. destruct x as [stop s1].
  assert ((cc_ok (u_cc s) -> extends all_types (u_cc s) (u_cc s1)) /\ u_w s1 = u_w s) as [X1 Hw].
  { clear E. destruct (ev_user_mode ev); [inv_done; split; [apply extends_refl|done]|].
    destruct (ev_regs ev) as [r|]; [|done]. inv_bind E0. destruct x as [k cc]. inv_done.
    split; [|done]. intros Hok.
    by apply (store_spec Htask _ _ _ _ _ all_types) in E as [X _]; [|done|done|constructor]. }
  assert (same_areas (u_w s) (u_w s1)) as A1 by (unfold same_areas; by rewrite Hw).
  destruct stop; [unfold mret, outcome_ret in E; by injection E as _ <-|].
  inv_bind E. unfold mret, outcome_ret in E. injection E as _ <-. split.
  - intros Hok. specialize (X1 Hok).
    pose proof (chain_loop_ends _ u_cc all_types
                  (turn_grows ev (if cs_64 (u_cc s1) then 7 else 3)) s1 tail_fuel (ex_ok _ _ _ X1) ltac:(done)) as Hl.
    rewrite E1 in Hl. apply (extends_trans _ _ (u_cc s1)); [apply Hok|done|apply Hl].
  - apply (chain_loop_keeps _ (fun b => same_areas (u_w s) (u_w b))) in E1; [done| |done].
    intros b go b' Eb Hs. apply turn_extends in Eb as (_ & Hs' & _). by etrans.
Qed.

(** The arrays of the chain, whatever it held. *)
Record arrays_ok (cc : callchain) : Prop := {
  ar_ips : zlen (ips cc) = QUADD_MAX_STACK_DEPTH;
  ar_types : zlen (types cc) = 8;
  ar_words : Forall (fun w => 0 <= w < 2 ^ 32) (types cc);
}.

Lemma stays_mixed ev s : cc_ok (u_cc s) ->
  stays (get_user_callchain_mixed cfa_fuel cie0 alloc_tail vrs0 qd0 ev s).
Proof.
  intros Hok. unfold get_user_callchain_mixed. apply stays_bind.
  { destruct (ev_user_mode ev); [done|]. destruct (ev_regs ev) as [r|]; [|done].
    apply stays_bind; [by apply stays_store|]. by intros [n cc] _. }
  intros [stop s1] E. destruct stop; [done|]. apply stays_bind; [|done].
  assert (cc_ok (u_cc s1)) as Hok1.
  { destruct (ev_user_mode ev); [by inv_done|]. destruct (ev_regs ev) as [r|]; [|done]. inv_bind E.
    destruct x as [k cc]. inv_done.
    by apply (store_spec Htask _ _ _ _ _ all_types) in E0 as [[X _ _ _ _] _]; [|done|done|constructor]. }
  apply (stays_chain_loop _ u_cc).
  - intros b go b' Eb Hb. by apply turn_grows in Eb as [X _]; [apply X|].
  - intros b Hb. by apply turn_stays.
  - done.
Qed.

(** The chain and the areas after a sample that returned [n]. *)
Record sampled (ev : event_context) (s : ustate) (n : Z) (s' : ustate) : Prop := {
  sm_ok : cc_ok (u_cc s');
  sm_count : ev_regs ev <> None -> n = nr (u_cc s');
  sm_areas : w_areas (u_w s') = w_areas (u_w s);
  sm_entries : forall j, 0 <= j < nr (u_cc s') -> exists ip, pc_ok (u_cc s) ip /\
     ips (u_cc s') !! Z.to_nat j = Some (if cs_64 (u_cc s') then ip else u32 ip) /\
     get_unw_type (types (u_cc s')) j ∈ all_types;
  sm_width : forall r, ev_regs ev = Some r -> cs_64 (u_cc s') = negb (r_compat r);
}.

End facts.

(** ** Examples: a stack of frames, and the program of DwarfUnwind.v with all unwinders *)

Definition fp_stack : list Z :=
  [example_stack_base + 32; 0x400010; 0; 0; example_stack_base + 64; 0x400020; 0; 0; 0; 0; 0; 0].
Definition fp_vma : vm_area := Vma (0x7fff0000 - 0x1000) 0x7fff0000.
Definition set_um (m : unw_methods) (cc : callchain) : callchain :=
  Callchain (nr cc) (ips cc) (types cc) (cs_64 cc) m (urc_fp cc) (urc_ut cc) (urc_dwarf cc)
    (curr_sp cc) (curr_fp cc) (curr_fp_thumb cc) (curr_pc cc) (curr_lr cc) (low_addr cc).
Definition fp_chain : callchain := set_um (Methods true false false false) example_chain.
Definition fp_start : ustate := UState fp_chain walk_cpu walk_world.
Definition fp_event : event_context :=
  Event (Some (PtRegs (<[29%nat := example_stack_base]> (replicate 31 0)) example_stack_base 0x400008 false false))
    true false.
Definition fp_round : tail_walk -> outcome (bool * tail_walk) :=
  @tail_body example_shifts (example_process fp_stack) example_cie 8 fp_event (Some fp_vma).
Definition fp_next (b : tail_walk) : tail_walk := match fp_round b with Done (_, b) => b | _ => b end.
Abbreviation all_result :=
  (@quadd_get_user_callchain example_shifts walk_process 20 example_cie (fun _ => true) (replicate 16 0)
    (Disasm false 0 0 0 0 0 0 0 0) walk_event (UState example_chain walk_cpu walk_world)).

Lemma example_chain_arrays : arrays_ok example_chain.
Proof. destruct example_chain_ok as [H1 H2 H3 H4]. by split. Qed.
Lemma fp_chain_arrays : arrays_ok fp_chain.
Proof. destruct example_chain_ok as [H1 H2 H3 H4]. by split. Qed.

Lemma fp_chain_ok : cc_ok fp_chain.
Proof. by apply (same_chain_ok example_chain), example_chain_ok. Qed.

Lemma fp_round_next b : match fp_round b with Done (go, _) => go | _ => false end = true ->
  fp_round b = Done (true, fp_next b).
Proof. unfold fp_next. destruct (fp_round b) as [[go b']|e| |]; try done. by intros ->. Qed.

Lemma user_backtrace_climbs_witness : exists b',
  nr (k_cc b') = 2 /\ example_stack_base + 2 <= k_tail b' /\ is_vma_addr (k_tail b') (Some fp_vma) 8 = true.
Proof.
  exists (fp_next (fp_next (TailWalk example_stack_base fp_start))).
  destruct (@user_backtrace_climbs example_shifts (example_process fp_stack) example_cie ltac:(cbn; lia)
              8 fp_event (Some fp_vma) (TailWalk example_stack_base fp_start) 2
              (fp_next (fp_next (TailWalk example_stack_base fp_start)))) as (E & _ & _ & Ht & Hv).
  - eapply rounds_S; [eapply rounds_S; [apply rounds_0|]|]; apply fp_round_next; by vm_compute.
  - exact fp_chain_ok.
  - split; [exact E|]. split; [exact Ht|]. apply Hv. lia.
Defined.

Lemma get_user_callchain_mixed_ends_witness :
  match chain_loop (@mixed_body example_shifts walk_process 20 example_cie (fun _ => true) (replicate 16 0)
                      (Disasm false 0 0 0 0 0 0 0 0) walk_event 7) tail_fuel
          (UState example_chain walk_cpu walk_world) with
  | Done s' => @extends walk_process all_types example_chain (u_cc s')
  | _ => False
  end.
Proof.
  destruct (@get_user_callchain_mixed_ends example_shifts walk_process 20 example_cie (fun _ => true)
              (replicate 16 0) (Disasm false 0 0 0 0 0 0 0 0) example_task walk_event 7
              (UState example_chain walk_cpu walk_world) example_chain_ok) as [_ Hl].
  assert (match chain_loop (@mixed_body example_shifts walk_process 20 example_cie (fun _ => true) (replicate 16 0)
                      (Disasm false 0 0 0 0 0 0 0 0) walk_event 7) tail_fuel
          (UState example_chain walk_cpu walk_world) with Done _ => true | _ => false end = true) as Hn
    by by vm_compute.
  cbv beta in *. destruct (chain_loop _ _ _) as [s'|e| |]; try discriminate Hn. exact Hl.
Defined.

