(* ===== verification/FramePointers.v ===== *)
(** * What following frame pointers finds (backtrace.c, 122-306)

    When only frame pointers are used, unwinding always returns; and on a stack of
    well-formed frames it returns their return addresses. *)

From stdpp Require Import gmap.
From S2P Require Import Prelude DwarfRead DwarfCfa DwarfTable Callchain EhRegions DwarfUnwind Disasm Backtrace.
#[local] Open Scope Z_scope.

Section fp.
Context `{ShiftOps} `{Process}.
Context (cfa_fuel : nat) (cie0 : dw_cie) (alloc_tail : tail_info -> bool).
Context (vrs0 : list Z) (qd0 : quadd_disasm_data).
Hypothesis Htask : 8 <= TASK_SIZE < 2 ^ 64.
Abbreviation step := (user_backtrace_w cie0).
Abbreviation round := (tail_body cie0).

(** ** It returns *)

Record fp_only (s : ustate) : Prop := {
  fo_ok : cc_ok (u_cc s);
  fo_ut : um_ut (um (u_cc s)) = false;
  fo_dwarf : um_dwarf (um (u_cc s)) = false;
}.

Lemma fp_only_note f s : fp_only s -> same_chain (u_cc s) (f (u_cc s)) -> um (f (u_cc s)) = um (u_cc s) ->
  fp_only (on_cc f s).
Proof. intros [H1 H2 H3] Hs Hu. split; cbn; rewrite ?Hu; try done. by apply (same_chain_ok (u_cc s)). Qed.

Lemma fp_only_store ip s : fp_only s -> exists n cc,
  quadd_callchain_store (u_cc s) ip QUADD_UNW_TYPE_FP = Done (n, cc) /\ fp_only (on_cc (fun _ => cc) s).
Proof.
  intros [H1 H2 H3].
  destruct (store_extends fp_types (u_cc s) ip QUADD_UNW_TYPE_FP H1 Htask) as (n & cc & E & X & _);
    [done|constructor|].
  exists n, cc. split; [done|].
  apply (store_spec Htask _ _ _ _ _ fp_types) in E as (_ & _ & _ & Hu & _); [|done|done|constructor].
  split; cbn; rewrite ?Hu; try done. apply X.
Qed.

Lemma user_backtrace_total sz ev tail vma s : fp_only s ->
  exists t s', step sz ev tail vma s = Done (t, s') /\ fp_only s'.
Proof.
  intros Hs. unfold user_backtrace_w. destruct (negb _); [by eexists _, _|].
  destruct (copy_from_user _ _) as [value|]; [|eexists _, _; split; [done|]; by apply fp_only_note].
  destruct (read_frame _ _ _ _ _) as [fr cc] eqn:Er. apply read_frame_spec in Er as (Hc & Hu & _).
  pose proof (fp_only_note (fun _ => cc) s Hs Hc Hu) as Hs1.
  destruct fr as [[lr fp]|]; [|by eexists _, _]. destruct (fp <=? tail); [by eexists _, _|].
  destruct (fp_only_store lr _ Hs1) as (n & cc2 & -> & Hs2). cbn [mbind outcome_bind].
  destruct (n =? 0); [by eexists _, _|].
  unfold is_table_unwinding. rewrite (fo_ut _ Hs2), (fo_dwarf _ Hs2). by eexists _, _.
Qed.

Lemma tail_loop_total sz ev vma tail s : fp_only s ->
  exists n s', tail_loop cie0 sz ev vma tail s = Done (n, s') /\ fp_only s'.
Proof.
  intros Hs. unfold tail_loop.
  assert (forall b, fp_only (k_s b) -> cc_ok (k_cc b) /\
            exists go b', round sz ev vma b = Done (go, b') /\ fp_only (k_s b')) as Hstep.
  { intros b Hb. split; [apply Hb|]. unfold tail_body. destruct (tail_stops _); [by eexists _, _|].
    destruct (user_backtrace_total sz ev (k_tail b) vma (k_s b) Hb) as (t & s' & -> & Hs').
    by eexists _, _. }
  destruct (chain_loop_total _ k_cc fp_types (tail_body_extends cie0 Htask sz ev vma)
              (fun b => fp_only (k_s b)) (TailWalk tail s) tail_fuel Hstep Hs) as (b & -> & Hb & _); [done|].
  by eexists _, _.
Qed.

Lemma first_tail_total sz regs fp reg vma s : fp_only s ->
  exists r s', first_tail sz regs fp reg vma s = Done (r, s') /\ fp_only s'.
Proof.
  intros Hs. unfold first_tail. destruct (r_thumb regs); [destruct (_ || _); by eexists _, _|].
  destruct (_ && _); [|by eexists _, _].
  destruct (if is_vma_addr _ _ _ then _ else _) as [[|]|]; [|by eexists _, _|].
  - destruct (fp_only_store (word sz (quadd_user_link_register regs)) s Hs) as (n & cc & -> & Hs2).
    by eexists _, _.
  - eexists _, _. split; [done|]. by apply fp_only_note.
Qed.

Lemma first_total sz ev s : fp_only s ->
  exists n s', get_user_callchain_fp_w cie0 sz ev s = Done (n, s') /\ fp_only s'.
Proof.
  intros Hs. unfold get_user_callchain_fp_w. cbv zeta.
  assert (forall u, fp_only (on_cc (set_urc_fp u) s)) as Hn by (intros u; by apply fp_only_note).
  set (s1 := on_cc (set_urc_fp QUADD_URC_FP_INCORRECT) s).
  assert (forall u, fp_only (on_cc (set_urc_fp u) s1)) as Hn1 by (intros u; apply fp_only_note; [apply Hn|done..]).
  assert (fp_only s1) as Hs1 by apply Hn.
  destruct (ev_regs ev) as [r|]; [|by eexists _, _; eauto]. destruct task_mm; [|by eexists _, _; eauto].
  destruct (_ || _); [by eexists _, _; eauto|]. destruct (find_vma _) as [vma|]; [|by eexists _, _; eauto].
  destruct (negb _); [by eexists _, _; eauto|]. destruct (copy_from_user _ _) as [reg|]; [|by eexists _, _; eauto].
  destruct (first_tail_total sz r (word sz (quadd_get_user_frame_pointer r)) reg vma s1 Hs1)
    as ([n|t] & s2 & -> & Hs2); cbn [mbind outcome_bind]; [by eexists _, _; eauto|].
  by apply tail_loop_total.
Qed.

Lemma going_on_total sz ev s : fp_only s ->
  exists n s', __user_backtrace_w cie0 sz ev s = Done (n, s') /\ fp_only s'.
Proof.
  intros Hs. unfold __user_backtrace_w. set (s1 := on_cc _ s).
  assert (fp_only s1) as Hs1 by by apply fp_only_note.
  destruct (negb _); [eexists _, _; split; [done|]; by apply fp_only_note|].
  destruct (find_vma _) as [vma|]; [|eexists _, _; split; [done|]; by apply fp_only_note].
  by apply tail_loop_total.
Qed.

Lemma run_fp_total ev r s : ev_regs ev = Some r -> fp_only s ->
  exists s', run_fp cie0 ev s = Done s' /\ fp_only s'.
Proof.
  intros Hr Hs. unfold run_fp, __get_user_callchain_fp. rewrite Hr. destruct (negb _).
  - destruct (_ =? _); [by exists s|].
    destruct (r_compat r); [destruct (going_on_total 4 ev s Hs) as (n & s' & E & Hs')
                           |destruct (going_on_total 8 ev s Hs) as (n & s' & E & Hs')];
      unfold __user_backtrace_compat, __user_backtrace; rewrite E; by exists s'.
  - destruct (r_compat r); [destruct (first_total 4 ev s Hs) as (n & s' & E & Hs')
                           |destruct (first_total 8 ev s Hs) as (n & s' & E & Hs')];
      unfold get_user_callchain_fp_compat, get_user_callchain_fp; rewrite E; by exists s'.
Qed.

Lemma turn_total ev r m s : ev_regs ev = Some r -> fp_only s ->
  exists go s', mixed_body cfa_fuel cie0 alloc_tail vrs0 qd0 ev m s = Done (go, s') /\ fp_only s'.
Proof.
  intros Hr Hs. unfold mixed_body. rewrite (fo_dwarf _ Hs). cbn [mbind outcome_bind mret outcome_ret].
  rewrite (fo_ut _ Hs). cbn [mbind outcome_bind mret outcome_ret]. destruct (_ && _).
  - destruct (run_fp_total ev r s Hr Hs) as (s' & -> & Hs'). by eexists _, _.
  - by eexists _, _.
Qed.

(** With frame pointers alone, unwinding always returns: whatever the registers and
    whatever the stack holds, the loops end and no array is left. *)
Theorem fp_callchain_returns ev s : arrays_ok (u_cc s) -> um_ut (um (u_cc s)) = false ->
  um_dwarf (um (u_cc s)) = false ->
  exists n s', quadd_get_user_callchain cfa_fuel cie0 alloc_tail vrs0 qd0 ev s = Done (n, s') /\
    0 <= n <= QUADD_MAX_STACK_DEPTH.
Proof.
  intros [A1 A2 A3] Hut Hdw. unfold quadd_get_user_callchain.
  destruct (ev_regs ev) as [r|] eqn:Hr; [|by eexists _, _]. set (s1 := on_cc _ _).
  assert (fp_only s1) as Hs1 by by split.
  unfold get_user_callchain_mixed.
  assert (exists stop s2, (if ev_user_mode ev then mret (false, s1)
            else match ev_regs ev with
                 | Some regs =>
                     '(nr_added, cc) ← quadd_callchain_store (u_cc s1) (instruction_pointer regs) QUADD_UNW_TYPE_KCTX;
                     mret (nr_added =? 0, on_cc (fun _ => cc) s1)
                 | None => Fault
                 end) = Done (stop, s2) /\ fp_only s2) as (stop & s2 & E & Hs2).
  { destruct (ev_user_mode ev); [by eexists _, _|]. rewrite Hr.
    destruct (store_extends all_types (u_cc s1) (instruction_pointer r) QUADD_UNW_TYPE_KCTX (fo_ok _ Hs1) Htask)
      as (n & cc & Es & X & _); [done|constructor|]. rewrite Es. eexists _, _. split; [done|].
    apply (store_spec Htask _ _ _ _ _ all_types) in Es as (_ & _ & _ & Hu & _); [|apply Hs1|done|constructor].
    split; cbn; rewrite ?Hu; try done. apply X. }
  rewrite E. cbn [mbind outcome_bind]. destruct stop.
  { eexists _, _. split; [done|]. apply Hs2. }
  set (m := if cs_64 (u_cc s2) then 7 else 3).
  assert (forall b, fp_only b -> cc_ok (u_cc b) /\
            exists go b', mixed_body cfa_fuel cie0 alloc_tail vrs0 qd0 ev m b = Done (go, b') /\ fp_only b') as Hstep
    by (intros b Hb; split; [apply Hb|by eapply turn_total]).
  destruct (chain_loop_total _ u_cc all_types
              (turn_grows cfa_fuel cie0 alloc_tail vrs0 qd0 Htask ev m) fp_only s2 tail_fuel Hstep Hs2)
    as (b & -> & Hb & _); [done|].
  eexists _, _. split; [done|]. apply Hb.
Qed.

(** ** What it finds *)

(** A list of frames in memory, from the frame at [tail] up, with their return
    addresses: two words, the caller's frame and the return address. The last frame
    pointer is null or unaligned, points out of the stack, or to a null word. *)
Inductive fp_frames (sz : Z) (v : vm_area) : Z -> list Z -> Prop :=
  | frames_out tail : tail_stops tail = true \/ is_vma_addr tail (Some v) sz = false ->
      fp_frames sz v tail []
  | frames_null tail : copy_from_user tail (Z.to_nat sz) = Some 0 -> fp_frames sz v tail []
  | frames_next tail next lr l : tail_stops tail = false -> is_vma_addr tail (Some v) sz = true ->
      copy_from_user tail (Z.to_nat sz) = Some next -> is_vma_addr next (Some v) sz = true -> tail < next ->
      is_vma_addr (tail + sz) (Some v) sz = true ->
      copy_from_user (tail + sz) (Z.to_nat sz) = Some lr -> fp_frames sz v next l ->
      fp_frames sz v tail (lr :: l).

(** The entry of the chain for a return address. *)
Definition fp_entry (cc : callchain) (lr : Z) : Z * Z := (if cs_64 cc then lr else u32 lr, QUADD_UNW_TYPE_FP).

Lemma store_chain cc ip : cc_ok cc -> exists n cc',
  quadd_callchain_store cc ip QUADD_UNW_TYPE_FP = Done (n, cc') /\ cc_ok cc' /\
  cs_64 cc' = cs_64 cc /\ low_addr cc' = low_addr cc /\ um cc' = um cc /\
  (pc_ok cc ip -> nr cc < 64 -> n = 1 /\ chain cc' = chain cc ++ [fp_entry cc ip]) /\
  (~ pc_ok cc ip \/ nr cc = 64 -> n = 0 /\ chain cc' = chain cc).
Proof.
  intros Hok.
  destruct (quadd_callchain_store_spec cc ip QUADD_UNW_TYPE_FP Hok Htask ltac:(done))
    as (n & cc' & E & Hok' & Hnr & _ & H01 & Hn & Hnew & Hold).
  exists n, cc'. split; [done|]. split; [done|]. destruct (store_bits _ _ _ _ _ E) as [B1 B2].
  split; [done|]. split; [done|]. pose proof (co_nr _ Hok) as Hr.
  split; [by apply (store_spec Htask _ _ _ _ _ fp_types) in E as (_ & _ & _ & Hu & _); [|done|done|constructor]|].
  unfold QUADD_MAX_STACK_DEPTH in *. split.
  - intros Hpc Hlt. assert (n = 1) as -> by (apply H01; by split). split; [done|].
    destruct (Hnew eq_refl). apply chain_snoc; try done. lia.
  - intros Hor. assert (n = 0) as ->.
    { destruct Hn as [| ->]; [done|]. destruct (proj1 H01 eq_refl). destruct Hor; [done|lia]. }
    split; [done|]. apply chain_same; [lia|done].
Qed.

Lemma note_chain cc cc' : same_chain cc cc' -> chain cc' = chain cc.
Proof. intros (E1 & E2 & E3 & _). unfold chain. by rewrite E1, E2, E3. Qed.

Section frames.
Context (sz : Z) (ev : event_context) (v : vm_area).
Hypothesis Hsz : sz = 4 \/ sz = 8.
Hypothesis Hv : 0 < vma_start v /\ sz <= vma_end v < 2 ^ 64.

(** The chain and what a later store looks at are as before. *)
Record unmoved (s s' : ustate) : Prop := {
  um_fp_only : fp_only s';
  um_chain : chain (u_cc s') = chain (u_cc s);
  um_bits : cs_64 (u_cc s') = cs_64 (u_cc s) /\ low_addr (u_cc s') = low_addr (u_cc s);
}.

Lemma unmoved_refl s : fp_only s -> unmoved s s.
Proof. by split. Qed.
Lemma unmoved_note s s' : fp_only s -> same_chain (u_cc s) (u_cc s') -> um (u_cc s') = um (u_cc s) ->
  unmoved s s'.
Proof.
  intros [H1 H2 H3] Hs Hu. split; [|by apply note_chain|by destruct Hs as (_ & _ & _ & E1 & E2)].
  split; rewrite ?Hu; try done. by apply (same_chain_ok (u_cc s)).
Qed.

(** A store that is refused. *)
Lemma refuse_step s s1 lr (t : Z) : unmoved s s1 -> ~ pc_ok (u_cc s) lr \/ nr (u_cc s) = 64 ->
  exists s', ('(nr_added, cc) ← quadd_callchain_store (u_cc s1) lr QUADD_UNW_TYPE_FP;
     let s := on_cc (fun _ => cc) s1 in
     if nr_added =? 0 then mret (0, s)
     else if is_table_unwinding (u_cc s) then
       '(r, s) ← is_ex_entry_exist cie0 ev lr s; mret (if r : bool then 0 else t, s)
     else mret (t, s)) = Done (0, s') /\ unmoved s s'.
Proof.
  intros [[U1 U2 U3] U4 [U5 U6]] Hor.
  destruct (store_chain (u_cc s1) lr U1) as (n & cc & -> & Hok & B1 & B2 & B3 & _ & Hno).
  destruct Hno as [-> Hch].
  { unfold pc_ok. rewrite U6. destruct Hor as [|Hf]; [by left|right].
    pose proof (f_equal length U4) as Hl. rewrite !chain_length in Hl. pose proof (co_nr _ U1). lia. }
  cbn [mbind outcome_bind]. eexists. split; [done|]. split; [|cbn; congruence|cbn; split; congruence].
  split; cbn; rewrite ?B3; done.
Qed.

(** The steps at the end of the list. *)
Lemma null_step tail s : fp_only s -> copy_from_user tail (Z.to_nat sz) = Some 0 ->
  exists s', step sz ev tail (Some v) s = Done (0, s') /\ unmoved s s'.
Proof.
  intros Hs Hc. unfold user_backtrace_w. destruct (negb _); [exists s; split; [done|by apply unmoved_refl]|].
  rewrite Hc. destruct (read_frame _ _ _ _ _) as [fr cc] eqn:Er.
  pose proof (read_frame_spec _ _ _ _ _ _ _ Er) as (Hc1 & Hu & _).
  assert (unmoved s (on_cc (fun _ => cc) s)) as Hm by by apply unmoved_note.
  destruct fr as [[lr fp]|]; [|by eexists].
  assert (lr = 0) as ->.
  { unfold read_frame, is_vma_addr in Er. destruct (Z.leb_spec (vma_start v) 0); [lia|]. cbn [andb] in Er.
    by repeat case_match; simplify_eq/=. }
  destruct (fp <=? tail); [by eexists|].
  apply refuse_step; [done|]. left. unfold pc_ok. lia.
Qed.

Lemma out_step tail s : fp_only s -> is_vma_addr tail (Some v) sz = false ->
  exists s', step sz ev tail (Some v) s = Done (0, s') /\ unmoved s s'.
Proof.
  intros Hs Hc. unfold user_backtrace_w. rewrite Hc. exists s. split; [done|by apply unmoved_refl].
Qed.

(** The step at a frame. *)
Lemma frame_step tail next lr s : fp_only s -> is_vma_addr tail (Some v) sz = true ->
  copy_from_user tail (Z.to_nat sz) = Some next -> is_vma_addr next (Some v) sz = true -> tail < next ->
  is_vma_addr (tail + sz) (Some v) sz = true ->
  copy_from_user (tail + sz) (Z.to_nat sz) = Some lr -> pc_ok (u_cc s) lr ->
  exists t s', step sz ev tail (Some v) s = Done (t, s') /\
    if nr (u_cc s) <? 64
    then t = next /\ fp_only s' /\ chain (u_cc s') = chain (u_cc s) ++ [fp_entry (u_cc s) lr] /\
         cs_64 (u_cc s') = cs_64 (u_cc s) /\ low_addr (u_cc s') = low_addr (u_cc s)
    else t = 0 /\ unmoved s s'.
Proof.
  intros Hs Ht Hc Hn Hlt Ht2 Hc2 Hpc. unfold user_backtrace_w. rewrite Ht. cbn [negb]. rewrite Hc.
  unfold read_frame. rewrite Hn.
  assert (u64 (tail + sz) = tail + sz) as ->.
  { unfold is_vma_addr in Ht2. apply andb_true_iff in Ht2 as [H1 H2].
    apply Z.leb_le in H1. apply Z.ltb_lt in H2. rewrite u64_small in H2 by lia. apply u64_small. lia. }
  rewrite Ht2. cbn [negb]. rewrite Hc2. set (cc1 := set_curr _ _ _ _ _ _).
  destruct (Z.leb_spec next tail); [lia|].
  assert (unmoved s (on_cc (fun _ => cc1) s)) as Hm by by apply unmoved_note.
  destruct (Z.ltb_spec (nr (u_cc s)) 64) as [Hnr|Hnr].
  2: { pose proof (co_nr _ (fo_ok _ Hs)). unfold QUADD_MAX_STACK_DEPTH in *.
       destruct (refuse_step s _ lr next Hm) as (s' & E & Hm'); [right; lia|]. exists 0, s'. by split. }
  destruct (store_chain cc1 lr (fo_ok _ (um_fp_only _ _ Hm))) as (n & cc & E & Hok & B1 & B2 & B3 & Hyes & _).
  destruct Hyes as [-> Hch]; [done|done|]. cbn [on_cc u_cc]. rewrite E. cbn [mbind outcome_bind].
  unfold is_table_unwinding. cbn [u_cc on_cc]. rewrite B3.
  destruct Hs as [Hs1 Hs2 Hs3]. change (um cc1) with (um (u_cc s)). rewrite Hs2, Hs3. cbn [orb].
  eexists next, _. split; [done|]. split; [done|]. split; [split; cbn; rewrite ?B3; done|].
  split; [exact Hch|done].
Qed.

(** The loop stops where a step does not go on. *)
Lemma loop_stops s tail fuel s' : fp_only s -> unmoved s s' ->
  tail_stops tail = true \/ step sz ev tail (Some v) s = Done (0, s') -> (0 < fuel)%nat ->
  exists b, chain_loop (round sz ev (Some v)) fuel (TailWalk tail s) = Done b /\ unmoved s (k_s b).
Proof.
  intros Hs Hm Hor Hf. destruct fuel as [|fuel]; [lia|]. cbn [chain_loop]. unfold tail_body.
  cbn [k_tail k_s]. destruct (tail_stops tail).
  - eexists. split; [done|]. by apply unmoved_refl.
  - destruct Hor as [| ->]; [done|]. cbn [mbind outcome_bind mret outcome_ret]. by eexists.
Qed.

(** Nothing is found there; the chain holds at most 64 addresses. *)
Lemma unmoved_none s s' l : fp_only s -> unmoved s s' -> nr (u_cc s) = 64 \/ l = [] ->
  chain (u_cc s') = take 64 (chain (u_cc s) ++ l).
Proof.
  intros Hs [_ -> _] Hor. pose proof (co_nr _ (fo_ok _ Hs)) as Hn. unfold QUADD_MAX_STACK_DEPTH in Hn.
  destruct Hor as [Hf| ->].
  - rewrite take_app_length'; [done|]. rewrite chain_length. lia.
  - rewrite app_nil_r, take_ge; [done|]. rewrite chain_length. lia.
Qed.

Lemma chain_nr s s' e : fp_only s -> fp_only s' -> chain (u_cc s') = chain (u_cc s) ++ [e] ->
  nr (u_cc s') = nr (u_cc s) + 1.
Proof.
  intros Hs Hs' Hch. pose proof (f_equal length Hch) as Hl. rewrite length_app, !chain_length in Hl.
  pose proof (co_nr _ (fo_ok _ Hs)). pose proof (co_nr _ (fo_ok _ Hs')). cbn [length] in Hl. lia.
Qed.

(** The loop on a list of frames. *)
Lemma loop_frames tail lrs : fp_frames sz v tail lrs ->
  forall s fuel, fp_only s -> Forall (pc_ok (u_cc s)) lrs -> 65 - nr (u_cc s) < Z.of_nat fuel ->
  exists b, chain_loop (round sz ev (Some v)) fuel (TailWalk tail s) = Done b /\ fp_only (k_s b) /\
    chain (k_cc b) = take 64 (chain (u_cc s) ++ (fp_entry (u_cc s) <$> lrs)).
Proof.
  induction 1 as [tail Hout|tail Hnull|tail next lr l Hst Ht Hc Hn Hlt Ht2 Hc2 Hl IH];
    intros s fuel Hs Hpc Hf; pose proof (co_nr _ (fo_ok _ Hs)) as Hnr; unfold QUADD_MAX_STACK_DEPTH in Hnr.
  - assert (exists s', unmoved s s' /\ (tail_stops tail = true \/ step sz ev tail (Some v) s = Done (0, s')))
      as (s' & Hm & Hor).
    { destruct Hout as [Hout|Hout]; [exists s; split; [by apply unmoved_refl|by left]|].
      destruct (out_step tail s Hs Hout) as (s' & E & Hm). exists s'. auto. }
    destruct (loop_stops s tail fuel s' Hs Hm Hor) as (b & Eb & Hb); [lia|].
    exists b. split; [done|]. split; [apply Hb|]. apply unmoved_none; auto.
  - destruct (null_step tail s Hs Hnull) as (s' & E & Hm).
    destruct (loop_stops s tail fuel s' Hs Hm (or_intror E)) as (b & Eb & Hb); [lia|].
    exists b. split; [done|]. split; [apply Hb|]. apply unmoved_none; auto.
  - apply Forall_cons_1 in Hpc as [Hp Hpc].
    destruct (frame_step tail next lr s Hs Ht Hc Hn Hlt Ht2 Hc2 Hp) as (t & s' & E & Ho).
    destruct (Z.ltb_spec (nr (u_cc s)) 64).
    2: { destruct Ho as [-> Hm]. destruct (loop_stops s tail fuel s' Hs Hm (or_intror E)) as (b & Eb & Hb); [lia|].
         exists b. split; [done|]. split; [apply Hb|]. apply unmoved_none; [done|done|left; lia]. }
    destruct Ho as (-> & Hs' & Hch & B1 & B2). pose proof (chain_nr _ _ _ Hs Hs' Hch) as Hnr'.
    assert (next <> 0) as Hne.
    { unfold is_vma_addr in Hn. apply andb_true_iff in Hn as [Hge _]. apply Z.leb_le in Hge. lia. }
    assert (round sz ev (Some v) (TailWalk tail s) = Done (true, TailWalk next s')) as Er.
    { unfold tail_body. cbn [k_tail k_s]. rewrite Hst, E. cbn [mbind outcome_bind].
      by destruct (Z.eqb_spec next 0). }
    destruct fuel as [|fuel]; [lia|]. cbn [chain_loop]. rewrite Er. cbn [mbind outcome_bind].
    destruct (IH s' fuel Hs') as (b & Eb & Hb & Hcb); [|lia|].
    { eapply Forall_impl; [|exact Hpc]. intros ip. unfold pc_ok. by rewrite B2. }
    exists b. split; [done|]. split; [done|]. rewrite Hcb, Hch, fmap_cons, <- app_assoc.
    unfold fp_entry. by rewrite B1.
Qed.

(** C16. On a stack of well-formed frames, following frame pointers finds exactly their
    return addresses, in order, from the innermost frame out, until the chain is full;
    for 64-bit and for 32-bit tasks. *)
Theorem tail_loop_frames tail lrs s : fp_frames sz v tail lrs -> arrays_ok (u_cc s) ->
  0 <= nr (u_cc s) <= 64 -> um_ut (um (u_cc s)) = false -> um_dwarf (um (u_cc s)) = false ->
  Forall (pc_ok (u_cc s)) lrs ->
  exists n s', tail_loop cie0 sz ev (Some v) tail s = Done (n, s') /\ n = zlen (chain (u_cc s')) /\
    chain (u_cc s') = take 64 (chain (u_cc s) ++ (fp_entry (u_cc s) <$> lrs)).
Proof.
  intros Hfr [A1 A2 A3] Hn Hut Hdw Hpc. assert (fp_only s) as Hs by (split; [split|..]; done).
  destruct (loop_frames tail lrs Hfr s tail_fuel Hs Hpc) as (b & E & Hb & Hch); [unfold tail_fuel; lia|].
  unfold tail_loop. rewrite E. eexists _, _. split; [done|]. split; [|done].
  unfold zlen. rewrite chain_length. pose proof (co_nr _ (fo_ok _ Hb)). lia.
Qed.
End frames.
End fp.

(** ** The examples of Backtrace.v *)

Lemma fp_callchain_returns_witness : exists n s',
  @quadd_get_user_callchain example_shifts (example_process fp_stack) 20 example_cie (fun _ => true)
    (replicate 16 0) (Disasm false 0 0 0 0 0 0 0 0) fp_event fp_start = Done (n, s') /\
  0 <= n <= QUADD_MAX_STACK_DEPTH.
Proof.
  exact (@fp_callchain_returns example_shifts (example_process fp_stack) 20 example_cie (fun _ => true)
           (replicate 16 0) (Disasm false 0 0 0 0 0 0 0 0) ltac:(cbn; lia) fp_event fp_start
           fp_chain_arrays eq_refl eq_refl).
Defined.

Lemma fp_stack_frames :
  @fp_frames (example_process fp_stack) 8 fp_vma example_stack_base [0x400010; 0x400020].
Proof.
  apply (@frames_next (example_process fp_stack) 8 fp_vma example_stack_base (example_stack_base + 32)
           0x400010 [0x400020]); [by vm_compute..|].
  apply (@frames_next (example_process fp_stack) 8 fp_vma (example_stack_base + 32) (example_stack_base + 64)
           0x400020 []); [by vm_compute..|].
  apply frames_null. by vm_compute.
Qed.

Lemma tail_loop_frames_witness : exists n s',
  @tail_loop example_shifts (example_process fp_stack) example_cie 8 fp_event (Some fp_vma)
    example_stack_base fp_start = Done (n, s') /\
  n = 2 /\ chain (u_cc s') = [(0x400010, 0); (0x400020, 0)].
Proof.
  destruct (@tail_loop_frames example_shifts (example_process fp_stack) example_cie ltac:(cbn; lia) 8 fp_event
              fp_vma ltac:(by right) ltac:(cbn; lia) example_stack_base [0x400010; 0x400020] fp_start
              fp_stack_frames fp_chain_arrays ltac:(cbn; lia) eq_refl eq_refl) as (n & s' & E & Hn & Hc).
  { repeat apply Forall_cons_2; try apply Forall_nil_2; (split; [cbn; lia|done]). }
  exists n, s'. split; [exact E|]. rewrite Hn, Hc. by split; vm_compute.
Defined.
