(* ===== verification/Bwmgr.v ===== *)
(** * The memory clock's bandwidth manager (drivers/platform/tegra/mc/emc_bwmgr.c)

    Clients ask for bandwidth, floors and caps of the external memory clock; every change
    that matters recomputes one rate for all of them. The rules of a chip are a record of
    operations, given here for Tegra186 and Tegra210 (emc_bwmgr-t18x.c, emc_bwmgr-t21x.c) and
    in BwmgrT19x.v for Tegra194. The clock framework and the task that runs are parameters. *)

From S2P Require Import Prelude.

Definition ENODEV : Z := 19.

(** ** Clients and requests *)

Definition TEGRA_BWMGR_CLIENT_DISP0 : Z := 4.
Definition TEGRA_BWMGR_CLIENT_DISP1 : Z := 5.
Definition TEGRA_BWMGR_CLIENT_DISP2 : Z := 6.
Definition TEGRA_BWMGR_CLIENT_ISPA : Z := 25.
Definition TEGRA_BWMGR_CLIENT_CAMERA : Z := 27.
Definition TEGRA_BWMGR_CLIENT_ISOMGR : Z := 29.
Definition TEGRA_BWMGR_CLIENT_APE_ADMA : Z := 33.
Definition TEGRA_BWMGR_CLIENT_EQOS : Z := 41.
Definition TEGRA_BWMGR_CLIENT_COUNT : Z := 50.

Definition TEGRA_BWMGR_SET_EMC_FLOOR : Z := 0.
Definition TEGRA_BWMGR_SET_EMC_CAP : Z := 1.
Definition TEGRA_BWMGR_SET_EMC_ISO_CAP : Z := 2.
Definition TEGRA_BWMGR_SET_EMC_SHARED_BW : Z := 3.
Definition TEGRA_BWMGR_SET_EMC_SHARED_BW_ISO : Z := 4.
Definition TEGRA_BWMGR_SET_EMC_REQ_COUNT : Z := 5.

(** struct tegra_bwmgr_client *)
Record bw_client := BwClient {
  b_bw : Z; b_iso_bw : Z; b_cap : Z; b_iso_cap : Z; b_floor : Z; b_refcount : Z }.
Definition set_b_bw (x : Z) (c : bw_client) : bw_client :=
  BwClient x (b_iso_bw c) (b_cap c) (b_iso_cap c) (b_floor c) (b_refcount c).
Definition set_b_iso_bw (x : Z) (c : bw_client) : bw_client :=
  BwClient (b_bw c) x (b_cap c) (b_iso_cap c) (b_floor c) (b_refcount c).
Definition set_b_cap (x : Z) (c : bw_client) : bw_client :=
  BwClient (b_bw c) (b_iso_bw c) x (b_iso_cap c) (b_floor c) (b_refcount c).
Definition set_b_iso_cap (x : Z) (c : bw_client) : bw_client :=
  BwClient (b_bw c) (b_iso_bw c) (b_cap c) x (b_floor c) (b_refcount c).
Definition set_b_floor (x : Z) (c : bw_client) : bw_client :=
  BwClient (b_bw c) (b_iso_bw c) (b_cap c) (b_iso_cap c) x (b_refcount c).
Definition set_b_refcount (x : Z) (c : bw_client) : bw_client :=
  BwClient (b_bw c) (b_iso_bw c) (b_cap c) (b_iso_cap c) (b_floor c) x.

Inductive bwmgr_dram_types :=
  | DRAM_TYPE_NONE
  | DRAM_TYPE_LPDDR4_16CH_ECC | DRAM_TYPE_LPDDR4_8CH_ECC | DRAM_TYPE_LPDDR4_4CH_ECC
  | DRAM_TYPE_LPDDR4_2CH_ECC
  | DRAM_TYPE_LPDDR4_16CH | DRAM_TYPE_LPDDR4_8CH | DRAM_TYPE_LPDDR4_4CH | DRAM_TYPE_LPDDR4_2CH
  | DRAM_TYPE_LPDDR3_2CH | DRAM_TYPE_DDR3_2CH.

(** The global variables the start-up code of the chip sets. *)
Record dram := Dram {
  dram_type : bwmgr_dram_types; dram_efficiency : Z; dram_num_channels : Z;
  dram_config_supported : bool; dram_iso_eff_table : list Z; iso_bw_percentage : Z;
  dram_freq_factor : Z; emc_dvfs : list (Z * Z); dram_rank : bool;
  dram_noniso_eff_table : list Z; max_nvdis_bw_reqd : list Z; max_vi_bw_reqd : list Z;
  iso_slope : list Z; vi_bw_reqd_offset : list Z }.

(** The static structure of the file. [rates] are the rates asked of the clock, the last
    one first; the holder of the lock is [b_task], its mutex [b_locked]. *)
Record bwmgr := Bwmgr {
  bwmgr_client : list bw_client; b_locked : bool; b_task : option Z;
  emc_min_rate : Z; emc_max_rate : Z; emc_clk : bool; b_status : bool;
  clk_update_disabled : bool; b_dram : dram; rates : list Z }.
Definition set_clients (l : list bw_client) (b : bwmgr) : bwmgr :=
  Bwmgr l (b_locked b) (b_task b) (emc_min_rate b) (emc_max_rate b) (emc_clk b) (b_status b)
    (clk_update_disabled b) (b_dram b) (rates b).
Definition set_b_lock (l : bool) (t : option Z) (b : bwmgr) : bwmgr :=
  Bwmgr (bwmgr_client b) l t (emc_min_rate b) (emc_max_rate b) (emc_clk b) (b_status b)
    (clk_update_disabled b) (b_dram b) (rates b).
Definition set_b_dram (d : dram) (b : bwmgr) : bwmgr :=
  Bwmgr (bwmgr_client b) (b_locked b) (b_task b) (emc_min_rate b) (emc_max_rate b) (emc_clk b)
    (b_status b) (clk_update_disabled b) d (rates b).
(** The switch in debugfs. *)
Definition set_clk_update_disabled (d : bool) (b : bwmgr) : bwmgr :=
  Bwmgr (bwmgr_client b) (b_locked b) (b_task b) (emc_min_rate b) (emc_max_rate b) (emc_clk b)
    (b_status b) d (b_dram b) (rates b).
Definition add_rate (r : Z) (b : bwmgr) : bwmgr :=
  Bwmgr (bwmgr_client b) (b_locked b) (b_task b) (emc_min_rate b) (emc_max_rate b) (emc_clk b)
    (b_status b) (clk_update_disabled b) (b_dram b) (r :: rates b).

(** struct bwmgr_ops; the last three may be NULL. apply_efficiency returns the bandwidth and
    what it stores in *iso_bw_min; [op_get_max_iso_bw] gets the maximal rate. An access outside
    a table is [None]. *)
Record bwmgr_ops := BwmgrOps {
  op_freq_to_bw : dram -> Z -> Z;
  op_bw_to_freq : dram -> Z -> Z;
  op_dvfs_latency : dram -> Z -> Z;
  op_apply_efficiency : dram -> Z -> Z -> Z -> Z -> Z -> Z -> option (Z * Z);
  op_get_best_iso_freq : option (dram -> Z -> Z -> Z -> option Z);
  op_update_efficiency : option (dram -> Z -> dram);
  op_get_max_iso_bw : option (dram -> Z -> Z -> option Z) }.

(** The clock framework: rounding to a supported rate, and the error of setting one. *)
Class ClkOps := { clk_round_rate : Z -> Z; clk_set_rate : Z -> Z }.

Section bwmgr.
Context `{ClkOps} (ops : bwmgr_ops) (current : Z).

(** ** The lock

    mutex_lock waits for another holder. *)
Definition bwmgr_lock : M bwmgr bool :=
  b ← get;
  if bool_decide (b_task b = Some current) then mret false
  else if b_locked b then BUG
  else modify (set_b_lock true (Some current));; mret true.

Definition bwmgr_unlock : M bwmgr bool :=
  b ← get;
  if negb (bool_decide (b_task b = Some current)) then mret false
  else modify (set_b_lock false None);; mret true.

(** A handle is the index of a client, [None] any other pointer. *)
Definition IS_HANDLE_VALID (h : option Z) : bool :=
  match h with Some i => (0 <=? i) && (i <? TEGRA_BWMGR_CLIENT_COUNT) | None => false end.

Definition client (i : Z) : M bwmgr bw_client :=
  b ← get; checked (bwmgr_client b !! Z.to_nat i).
Definition update_client (i : Z) (f : bw_client -> bw_client) : M bwmgr unit :=
  c ← client i;
  b ← get;
  modify (set_clients (<[Z.to_nat i := f c]> (bwmgr_client b))).

Definition purge_client (i : Z) : M bwmgr unit :=
  b ← get;
  update_client i (fun _ => BwClient 0 0 (emc_max_rate b) (emc_max_rate b) 0 0).

(** ** The rate *)

Record sums := Sums {
  s_bw : Z; s_nvdis : Z; s_vi : Z; s_other : Z; s_iso : Z; s_flags : Z;
  s_non_iso_cap : Z; s_iso_cap : Z; s_floor : Z }.

(** One round of the loop over the clients. *)
Definition sum_client (max_rate i : Z) (c : bw_client) (s : sums) : sums :=
  let bw := Z.min (u64 (s_bw s + b_bw c)) max_rate in
  let '(nvdis, vi, other, iso, flags) :=
    if 0 <? b_iso_bw c then
      let flags := Z.lor (s_flags s) (Z.shiftl 1 i) in
      let '(nvdis, vi, other) :=
        if (i =? TEGRA_BWMGR_CLIENT_DISP0) || (i =? TEGRA_BWMGR_CLIENT_DISP1) ||
           (i =? TEGRA_BWMGR_CLIENT_DISP2)
        then (Z.min (u64 (s_nvdis s + b_iso_bw c)) max_rate, s_vi s, s_other s)
        else if i =? TEGRA_BWMGR_CLIENT_CAMERA
        then (s_nvdis s, Z.min (u64 (s_vi s + b_iso_bw c)) max_rate, s_other s)
        else (s_nvdis s, s_vi s, Z.min (u64 (s_other s + b_iso_bw c)) max_rate) in
      (nvdis, vi, other, Z.min (u64 (nvdis + vi + other)) max_rate, flags)
    else (s_nvdis s, s_vi s, s_other s, s_iso s, s_flags s) in
  Sums bw nvdis vi other iso flags
    (Z.min (s_non_iso_cap s) (b_cap c)) (Z.min (s_iso_cap s) (b_iso_cap c))
    (Z.max (s_floor s) (b_floor c)).

Fixpoint sum_loop (max_rate i : Z) (l : list bw_client) (s : sums) : sums :=
  match l with
  | [] => s
  | c :: l => sum_loop max_rate (i + 1) l (sum_client max_rate i c s)
  end.

(** The rate before it is rounded, of what the loop has summed up. *)
Definition clamp (max_rate bw iso_bw_min : Z) (s : sums) : Z :=
  let floor := Z.min (s_floor s) max_rate in
  let bw := Z.max bw floor in
  Z.min bw (Z.min (s_iso_cap s) (Z.max (s_non_iso_cap s) iso_bw_min)).

Definition bwmgr_update_clk : M bwmgr Z :=
  b ← get;
  if negb (bool_decide (b_task b = Some current)) then mret (- EINVAL)
  else
    let max_rate := emc_max_rate b in
    let s := sum_loop max_rate 0 (bwmgr_client b) (Sums 0 0 0 0 0 0 max_rate max_rate 0) in
    let bw := u64 (s_bw s + s_iso s) in
    '(bw, iso_bw_min) ← checked (op_apply_efficiency ops (b_dram b) bw (s_iso s) max_rate (s_flags s)
                                   (s_nvdis s) (s_vi s));
    let iso_bw_min := u64 (clk_round_rate iso_bw_min) in
    let bw := u64 (clk_round_rate (clamp max_rate bw iso_bw_min s)) in
    modify (add_rate bw);;
    mret (clk_set_rate bw).

(** ** The interface *)

(** A handle, or [None] for ERR_PTR(-EINVAL). *)
Definition tegra_bwmgr_register (c : Z) : M bwmgr (option Z) :=
  b ← get;
  if negb (dram_config_supported (b_dram b)) then mret None
  else if (TEGRA_BWMGR_CLIENT_COUNT <=? c) || (c <? 0) then mret None
  else
    ok ← bwmgr_lock;
    if negb ok then mret None
    else
      update_client c (fun x => set_b_refcount (b_refcount x + 1) x);;
      ok ← bwmgr_unlock;
      mret (if ok : bool then Some c else None).

Definition tegra_bwmgr_unregister (h : option Z) : M bwmgr unit :=
  if negb (IS_HANDLE_VALID h) then mret tt
  else
    ok ← bwmgr_lock;
    if negb ok then mret tt
    else
      let i := default 0 h in
      update_client i (fun x => set_b_refcount (b_refcount x - 1) x);;
      c ← client i;
      (if b_refcount c <=? 0 then purge_client i else mret tt);;
      bwmgr_unlock;; mret tt.

Definition tegra_bwmgr_get_max_emc_rate : M bwmgr Z := b ← get; mret (emc_max_rate b).
Definition bwmgr_get_emc_to_dram_freq_factor : M bwmgr Z := b ← get; mret (dram_freq_factor (b_dram b)).
Definition tegra_bwmgr_get_dram_num_channels : M bwmgr Z := b ← get; mret (dram_num_channels (b_dram b)).
Definition tegra_bwmgr_round_rate (bw : Z) : M bwmgr Z :=
  b ← get; mret (if emc_clk b then u64 (clk_round_rate bw) else 0).
(** A call through a NULL operation is a fault. *)
Definition bwmgr_get_lowest_iso_emc_freq (iso_bw iso_bw_nvdis iso_bw_vi : Z) : M bwmgr Z :=
  b ← get;
  match op_get_best_iso_freq ops with
  | Some f => checked (f (b_dram b) iso_bw iso_bw_nvdis iso_bw_vi)
  | None => BUG
  end.
Definition tegra_bwmgr_get_max_iso_bw (c : Z) : M bwmgr Z :=
  b ← get;
  match op_get_max_iso_bw ops with
  | Some f => checked (f (b_dram b) (emc_max_rate b) c)
  | None => mret 0
  end.
Definition bwmgr_iso_bw_percentage_max : M bwmgr Z := b ← get; mret (iso_bw_percentage (b_dram b)).
Definition bwmgr_freq_to_bw (freq : Z) : M bwmgr Z := b ← get; mret (op_freq_to_bw ops (b_dram b) freq).
Definition bwmgr_bw_to_freq (bw : Z) : M bwmgr Z := b ← get; mret (op_bw_to_freq ops (b_dram b) bw).
Definition bwmgr_dvfs_latency (ufreq : Z) : M bwmgr Z := b ← get; mret (op_dvfs_latency ops (b_dram b) ufreq).

(** The field a request sets and the value it gets: 0 lifts a cap. *)
Definition req_field (req : Z) (c : bw_client) : Z :=
  if req =? TEGRA_BWMGR_SET_EMC_FLOOR then b_floor c
  else if req =? TEGRA_BWMGR_SET_EMC_CAP then b_cap c
  else if req =? TEGRA_BWMGR_SET_EMC_ISO_CAP then b_iso_cap c
  else if req =? TEGRA_BWMGR_SET_EMC_SHARED_BW then b_bw c
  else b_iso_bw c.
Definition set_req_field (req v : Z) (c : bw_client) : bw_client :=
  if req =? TEGRA_BWMGR_SET_EMC_FLOOR then set_b_floor v c
  else if req =? TEGRA_BWMGR_SET_EMC_CAP then set_b_cap v c
  else if req =? TEGRA_BWMGR_SET_EMC_ISO_CAP then set_b_iso_cap v c
  else if req =? TEGRA_BWMGR_SET_EMC_SHARED_BW then set_b_bw v c
  else set_b_iso_bw v c.
Definition req_value (max_rate req v : Z) : Z :=
  if ((req =? TEGRA_BWMGR_SET_EMC_CAP) || (req =? TEGRA_BWMGR_SET_EMC_ISO_CAP)) && (v =? 0)
  then max_rate else v.
(** The switch has no case for other values. *)
Definition req_known (req : Z) : bool := (0 <=? req) && (req <? TEGRA_BWMGR_SET_EMC_REQ_COUNT).

Definition tegra_bwmgr_set_emc (h : option Z) (v req : Z) : M bwmgr Z :=
  b ← get;
  if negb (emc_clk b) then mret 0
  else if negb (b_status b) then mret 0
  else if negb (dram_config_supported (b_dram b)) then mret (- EINVAL)
  else if negb (IS_HANDLE_VALID h) then mret (- EINVAL)
  else if TEGRA_BWMGR_SET_EMC_REQ_COUNT <=? req then mret (- EINVAL)
  else
    ok ← bwmgr_lock;
    if negb ok then mret (- EINVAL)
    else if negb (req_known req) then bwmgr_unlock;; mret (- EINVAL)
    else
      let i := default 0 h in
      c ← client i;
      let v := req_value (emc_max_rate b) req v in
      let update_clk := negb (req_field req c =? v) in
      (if update_clk then update_client i (set_req_field req v) else mret tt);;
      ret ← (if update_clk && negb (clk_update_disabled b) then bwmgr_update_clk else mret 0);
      ok ← bwmgr_unlock;
      mret (if ok : bool then ret else - EINVAL).

(** The error, or the value stored in *out_val: none when the manager is off. *)
Definition tegra_bwmgr_get_client_info (h : option Z) (req : Z) : M bwmgr (Z * option Z) :=
  b ← get;
  if negb (emc_clk b) then mret (0, None)
  else if negb (b_status b) then mret (0, None)
  else if negb (dram_config_supported (b_dram b)) then mret (- EINVAL, None)
  else if negb (IS_HANDLE_VALID h) then mret (- EINVAL, None)
  else if TEGRA_BWMGR_SET_EMC_REQ_COUNT <=? req then mret (- EINVAL, None)
  else
    ok ← bwmgr_lock;
    if negb ok then mret (- EINVAL, None)
    else if negb (req_known req) then bwmgr_unlock;; mret (- EINVAL, None)
    else
      c ← client (default 0 h);
      ok ← bwmgr_unlock;
      mret (if ok : bool then (0, Some (req_field req c)) else (- EINVAL, Some (req_field req c))).

(** ** Refresh rate and exit *)

(** What the thermal framework's callback does with a new state. *)
Definition tegra_bwmgr_update_efficiency (cur_state : Z) : M bwmgr Z :=
  ok ← bwmgr_lock;
  if negb ok then mret (- EINVAL)
  else
    modify (fun b => match op_update_efficiency ops with
                     | Some f => set_b_dram (f (b_dram b) cur_state) b
                     | None => b
                     end);;
    b ← get;
    ret ← (if negb (clk_update_disabled b) then bwmgr_update_clk else mret 0);
    ok ← bwmgr_unlock;
    mret (if ok : bool then ret else - EINVAL).

Definition bwmgr_exit : M bwmgr unit :=
  modify (fun b =>
    Bwmgr (map (fun _ => BwClient 0 0 (emc_max_rate b) (emc_max_rate b) 0 0) (bwmgr_client b))
      (b_locked b) (b_task b) (emc_min_rate b) (emc_max_rate b) false (b_status b)
      (clk_update_disabled b) (b_dram b) (rates b)).
End bwmgr.

(** ** Tegra186 (emc_bwmgr-t18x.c) *)

Definition bwmgr_t186_iso_bw_table : list Z :=
  [5; 10; 20; 30; 40; 60; 80; 100; 120; 140; 160; 180; 200; 250; 300; 350; 360; 370; 380; 400;
   450; 500; 550; 600; 650; 700; 750].
Definition bwmgr_t186_lpddr4_4ch_ecc_iso_eff : list Z :=
  replicate 14 15 ++ replicate 13 1.
Definition bwmgr_t186_lpddr4_2ch_ecc_iso_eff : list Z :=
  replicate 21 28 ++ replicate 6 1.
Definition bwmgr_t186_lpddr4_4ch_iso_eff : list Z :=
  [15; 19; 27; 35; 40; 42; 43; 44; 45; 46; 48; 49; 50; 50; 50; 50; 50; 50; 50; 50;
   50; 50; 50; 50; 48; 46; 45].
Definition bwmgr_t186_lpddr4_2ch_iso_eff : list Z :=
  [27; 28; 29; 30; 33; 39; 44; 47; 47; 47; 47; 47; 47; 47; 47; 47; 47; 47; 47; 47;
   47; 47; 47; 47; 47; 47; 47].
Definition bwmgr_t186_lpddr3_iso_eff : list Z :=
  [31; 32; 33; 34; 36; 40; 44; 48; 48; 48; 48; 48; 48; 48; 47; 31; 1; 1; 1; 1; 1; 1; 1; 1; 1; 1; 1].
Definition bwmgr_t186_ddr3_iso_eff : list Z :=
  [28; 29; 32; 34; 36; 41; 45; 47; 47; 47; 47; 47; 47; 47; 47; 47; 47; 47; 47; 47; 47; 47; 1; 1; 1; 1; 1].

(** The loop from index [i] down. *)
Fixpoint table_idx (table : list Z) (i : nat) (iso_bw : Z) : nat :=
  match i with
  | O => O
  | S j => if iso_bw <? table !!! i then table_idx table j iso_bw else i
  end.
Definition get_iso_bw_table_idx (table : list Z) (iso_bw : Z) : nat :=
  table_idx table (length table - 1) (iso_bw / 1000000).

Definition wide_bus (t : bwmgr_dram_types) : bool :=
  match t with
  | DRAM_TYPE_LPDDR4_4CH_ECC | DRAM_TYPE_LPDDR4_4CH | DRAM_TYPE_LPDDR3_2CH | DRAM_TYPE_DDR3_2CH => true
  | _ => false
  end.
Definition freq_to_bw (d : dram) (freq : Z) : Z :=
  u64 (freq * (if wide_bus (dram_type d) then 32 else 16)).
Definition bw_to_freq (d : dram) (bw : Z) : Z :=
  if wide_bus (dram_type d) then u64 (bw + 32 - 1) / 32 else u64 (bw + 16 - 1) / 16.

(** The pairs are the num_pairs entries of the firmware's answer. *)
Fixpoint first_pair (ufreq : Z) (l : list (Z * Z)) (last : Z) : Z :=
  match l with
  | [] => last
  | (freq, latency) :: l => if ufreq <=? freq then latency else first_pair ufreq l latency
  end.
Definition dvfs_latency (d : dram) (ufreq : Z) : Z := first_pair ufreq (emc_dvfs d) 4000 / 1000.

(** bw scaled by an efficiency in percent, up to the maximum. *)
Definition scale (bw efficiency max_rate : Z) : Z :=
  if negb (bw =? 0) && negb (efficiency =? 0) && (efficiency <? 100) then
    let bw := bw / efficiency in
    if bw <? max_rate / 100 then u64 (bw * 100) else max_rate
  else bw.

Definition t18x_bwmgr_apply_efficiency (d : dram) (total_bw iso_bw max_rate usage_flags nvdis vi : Z)
    : option (Z * Z) :=
  efficiency ← dram_iso_eff_table d !! get_iso_bw_table_idx bwmgr_t186_iso_bw_table iso_bw;
  let total_bw := scale total_bw (dram_efficiency d) max_rate in
  let iso_bw := scale iso_bw (u8 efficiency) max_rate in
  Some (Z.max total_bw iso_bw, iso_bw).

Definition bwmgr_ops_t18x : bwmgr_ops := {|
  op_freq_to_bw := freq_to_bw; op_bw_to_freq := bw_to_freq; op_dvfs_latency := dvfs_latency;
  op_apply_efficiency := t18x_bwmgr_apply_efficiency; op_get_best_iso_freq := None;
  op_update_efficiency := None; op_get_max_iso_bw := None |}.

(** ** Tegra210 (emc_bwmgr-t21x.c), whose freq_to_bw and bw_to_freq are those of Tegra186 *)

Definition bwmgr_t210_iso_bw_table : list Z :=
  [5; 10; 20; 30; 40; 60; 80; 100; 120; 140; 160; 180; 200; 250; 300; 350; 360; 370; 380; 400;
   450; 500; 550; 600; 650; 700].
Definition bwmgr_t210_lpddr4_iso_eff : list Z := replicate 24 56 ++ [49; 45].
Definition bwmgr_t210_lpddr3_iso_eff : list Z :=
  replicate 13 64 ++ [63; 60; 54; 45] ++ replicate 9 1.
Definition bwmgr_t210_ddr3_iso_eff : list Z := replicate 25 65 ++ [1].

Definition t21x_bwmgr_apply_efficiency (d : dram) (total_bw iso_bw max_rate usage_flags nvdis vi : Z)
    : option (Z * Z) :=
  efficiency ← dram_iso_eff_table d !! get_iso_bw_table_idx bwmgr_t210_iso_bw_table iso_bw;
  let total_bw := scale total_bw (dram_efficiency d) max_rate in
  let iso_bw := scale iso_bw (u8 efficiency) max_rate in
  Some (Z.max total_bw iso_bw, iso_bw).

Definition bwmgr_ops_t21x : bwmgr_ops := {|
  op_freq_to_bw := freq_to_bw; op_bw_to_freq := bw_to_freq; op_dvfs_latency := fun _ _ => 4;
  op_apply_efficiency := t21x_bwmgr_apply_efficiency; op_get_best_iso_freq := None;
  op_update_efficiency := None; op_get_max_iso_bw := None |}.

(** ** Start-up *)

Definition DRAM_DDR3 : Z := 0.
Definition DRAM_LPDDR4 : Z := 1.
Definition DRAM_LPDDR3 : Z := 2.

Definition channels (ch : Z) : Z :=
  Z.land (Z.shiftr ch 3) 1 + Z.land (Z.shiftr ch 2) 1 + Z.land (Z.shiftr ch 1) 1 + Z.land ch 1.

(** The memory of the chip from three fields of its registers. *)
Definition lpddr4_config (ecc : bool) (ch_num : Z) : bwmgr_dram_types * list Z :=
  if ch_num =? 4 then
    if ecc then (DRAM_TYPE_LPDDR4_4CH_ECC, bwmgr_t186_lpddr4_4ch_ecc_iso_eff)
    else (DRAM_TYPE_LPDDR4_4CH, bwmgr_t186_lpddr4_4ch_iso_eff)
  else if ch_num =? 2 then
    if ecc then (DRAM_TYPE_LPDDR4_2CH_ECC, bwmgr_t186_lpddr4_2ch_ecc_iso_eff)
    else (DRAM_TYPE_LPDDR4_2CH, bwmgr_t186_lpddr4_2ch_iso_eff)
  else (DRAM_TYPE_LPDDR4_2CH_ECC, bwmgr_t186_lpddr4_2ch_ecc_iso_eff).

(** The last entry above 1, from the end of the table. *)
Definition max_percentage (table : list Z) : Z := default 0 (List.find (fun e => 1 <? e) (rev table)).

(** The globals the code of Tegra186 and Tegra210 does not use keep what they are born with. *)
Definition iso_dram (t : bwmgr_dram_types) (efficiency ch_num : Z) (ok : bool) (table : list Z)
    (factor : Z) (pairs : list (Z * Z)) : dram :=
  Dram t efficiency ch_num ok table (if ok then max_percentage table else 0) factor pairs
    false [] [] [] [] [].

Definition bwmgr_eff_init_t18x (dram_reg ch_reg ecc_reg : Z) (pairs : list (Z * Z)) : dram :=
  let dram := Z.land dram_reg 3 in
  let ch_num := channels (Z.land ch_reg 15) in
  if dram =? DRAM_LPDDR4 then
    let '(t, table) := lpddr4_config (negb (Z.land ecc_reg 1 =? 0)) ch_num in
    iso_dram t 70 ch_num true table 2 pairs
  else if dram =? DRAM_LPDDR3 then
    iso_dram DRAM_TYPE_LPDDR3_2CH 80 ch_num true bwmgr_t186_lpddr3_iso_eff 1 pairs
  else if dram =? DRAM_DDR3 then
    iso_dram DRAM_TYPE_DDR3_2CH 80 ch_num true bwmgr_t186_ddr3_iso_eff 1 pairs
  else iso_dram DRAM_TYPE_NONE 0 ch_num false [] 0 pairs.

Definition bwmgr_eff_init_t21x (dram_reg : Z) : dram :=
  let dram := Z.land dram_reg 3 in
  if dram =? DRAM_LPDDR4 then iso_dram DRAM_TYPE_LPDDR4_2CH 70 2 true bwmgr_t210_lpddr4_iso_eff 2 []
  else if dram =? DRAM_LPDDR3 then
    iso_dram DRAM_TYPE_LPDDR3_2CH 80 2 true bwmgr_t210_lpddr3_iso_eff 1 []
  else if dram =? DRAM_DDR3 then iso_dram DRAM_TYPE_DDR3_2CH 80 2 true bwmgr_t210_ddr3_iso_eff 1 []
  else iso_dram DRAM_TYPE_NONE 0 2 false [] 0 [].

(** bwmgr_init from the device tree ([dn]: the node is there, [clk]: it has a clock,
    [max_rate]: the property of simulators, [available]) and the master clock. The debug files
    and the power-management client are left out. *)
Definition bwmgr_init (dn clk available : bool) (master_round : Z -> Z) (max_rate : option Z) (d : dram)
    : Z * bwmgr :=
  let zero := BwClient 0 0 0 0 0 0 in
  let b := Bwmgr (replicate (Z.to_nat TEGRA_BWMGR_CLIENT_COUNT) zero) false None 0 0 false false false d [] in
  if negb dn then (- ENODEV, b)
  else if negb clk then (- ENODEV, b)
  else
    let lo := if master_round 0 <? 0 then 0 else master_round 0 in
    let hi := if master_round (2 ^ 63 - 1) <? 0 then 0 else master_round (2 ^ 63 - 1) in
    let hi := default hi max_rate in
    (0, Bwmgr (replicate (Z.to_nat TEGRA_BWMGR_CLIENT_COUNT) (BwClient 0 0 hi hi 0 0))
          false None lo hi true available false d []).
