(* ===== verification/BwmgrFacts.v ===== *)
(** * What the bandwidth manager asks of the memory clock

    The loop over the clients computes saturated sums, so the rate that is requested is a
    function of what the clients ask ([rate]); it respects their caps and floors; and every
    call that changes a request asks for the rate of the new ones. What a chip's efficiency
    rules promise is the class [OpsOk]. *)

From S2P Require Import Prelude Bwmgr.

(** ** Sums over the clients *)

(** The sum of what [w] takes from each client and its number. *)
Fixpoint demand (w : Z -> bw_client -> Z) (i : Z) (l : list bw_client) : Z :=
  match l with
  | [] => 0
  | c :: l => w i c + demand w (i + 1) l
  end.

Definition is_disp (i : Z) : bool :=
  (i =? TEGRA_BWMGR_CLIENT_DISP0) || (i =? TEGRA_BWMGR_CLIENT_DISP1) || (i =? TEGRA_BWMGR_CLIENT_DISP2).
Definition is_camera (i : Z) : bool := i =? TEGRA_BWMGR_CLIENT_CAMERA.
Definition w_bw (_ : Z) (c : bw_client) : Z := b_bw c.
Definition w_disp (i : Z) (c : bw_client) : Z := if is_disp i then b_iso_bw c else 0.
Definition w_camera (i : Z) (c : bw_client) : Z :=
  if negb (is_disp i) && is_camera i then b_iso_bw c else 0.
Definition w_other (i : Z) (c : bw_client) : Z :=
  if is_disp i || is_camera i then 0 else b_iso_bw c.

Fixpoint iso_users (i : Z) (l : list bw_client) : Z :=
  match l with
  | [] => 0
  | c :: l => Z.lor (if 0 <? b_iso_bw c then Z.shiftl 1 i else 0) (iso_users (i + 1) l)
  end.

Definition least (f : bw_client -> Z) (x : Z) (l : list bw_client) : Z :=
  foldr (fun c => Z.min (f c)) x l.
Definition greatest (f : bw_client -> Z) (x : Z) (l : list bw_client) : Z :=
  foldr (fun c => Z.max (f c)) x l.

(** What the loop over the clients is for. *)
Definition summary (max_rate : Z) (l : list bw_client) : sums :=
  let disp := Z.min max_rate (demand w_disp 0 l) in
  let camera := Z.min max_rate (demand w_camera 0 l) in
  let other := Z.min max_rate (demand w_other 0 l) in
  Sums (Z.min max_rate (demand w_bw 0 l)) disp camera other
    (Z.min max_rate (disp + camera + other)) (iso_users 0 l)
    (least b_cap max_rate l) (least b_iso_cap max_rate l) (greatest b_floor 0 l).

(** Requests below 2^63 and rates below 2^62 do not overflow the sums. *)
Record client_ok (max_rate : Z) (c : bw_client) : Prop := {
  bw_ok : 0 <= b_bw c < 2 ^ 63;
  iso_bw_ok : 0 <= b_iso_bw c < 2 ^ 63;
  cap_ok : 0 <= b_cap c < 2 ^ 63;
  iso_cap_ok : 0 <= b_iso_cap c < 2 ^ 63;
  floor_ok : 0 <= b_floor c < 2 ^ 63 }.

Lemma demand_nonneg w i l :
  (forall i c, c ∈ l -> 0 <= w i c) -> 0 <= demand w i l.
Proof.
  revert i. induction l as [|c l IH]; intros i Hw; cbn [demand]; [lia|].
  assert (0 <= demand w (i + 1) l) by (apply IH; intros; apply Hw; by right).
  pose proof (Hw i c ltac:(by left)). lia.
Qed.

Lemma least_cons g x c l : Z.min x (Z.min (g c) (least g x l)) = Z.min (Z.min x (g c)) (least g (Z.min x (g c)) l).
Proof.
  transitivity (Z.min (g c) (Z.min x (least g x l))); [lia|].
  generalize (g c). intros y. unfold least. induction l; cbn; lia.
Qed.
Lemma greatest_cons g x c l :
  Z.max x (Z.max (g c) (greatest g x l)) = Z.max (Z.max x (g c)) (greatest g (Z.max x (g c)) l).
Proof.
  transitivity (Z.max (g c) (Z.max x (greatest g x l))); [lia|].
  generalize (g c). intros y. unfold greatest. induction l; cbn; lia.
Qed.

(** The state of the loop after clients whose sums are [a], [d], [v] and [o]. *)
Definition loop_state (m a d v o fl nc ic f : Z) : sums :=
  Sums (Z.min m a) (Z.min m d) (Z.min m v) (Z.min m o)
    (Z.min m (Z.min m d + Z.min m v + Z.min m o)) fl nc ic f.

Lemma sum_client_sat m i c a d v o fl nc ic f :
  client_ok m c -> 0 <= m < 2 ^ 62 -> 0 <= a -> 0 <= d -> 0 <= v -> 0 <= o ->
  sum_client m i c (loop_state m a d v o fl nc ic f) =
  loop_state m (a + w_bw i c) (d + w_disp i c) (v + w_camera i c) (o + w_other i c)
    (Z.lor fl (if 0 <? b_iso_bw c then Z.shiftl 1 i else 0))
    (Z.min nc (b_cap c)) (Z.min ic (b_iso_cap c)) (Z.max f (b_floor c)).
Proof.
  intros [Hb Hi _ _ _] Hm Ha Hd Hv Ho.
  unfold sum_client, loop_state, w_bw, w_disp, w_camera, w_other. cbn [s_bw s_nvdis s_vi s_other s_iso s_flags s_non_iso_cap s_iso_cap s_floor].
  assert (forall x y, 0 <= x -> 0 <= y < 2 ^ 63 -> u64 (Z.min m x + y) = Z.min m x + y) as E
    by (intros; apply u64_small; lia).
  rewrite !E by lia. destruct (Z.ltb_spec 0 (b_iso_bw c)).
  - fold (is_disp i) (is_camera i).
    destruct (is_disp i); [|destruct (is_camera i)]; cbn [orb negb andb];
      rewrite u64_small by lia; f_equal; lia.
  - replace (b_iso_bw c) with 0 by lia.
    destruct (is_disp i), (is_camera i); cbn [orb negb andb]; rewrite Z.lor_0_r; f_equal; lia.
Qed.

Lemma sum_loop_sat m l i a d v o fl nc ic f :
  Forall (client_ok m) l -> 0 <= m < 2 ^ 62 -> 0 <= a -> 0 <= d -> 0 <= v -> 0 <= o ->
  sum_loop m i l (loop_state m a d v o fl nc ic f) =
  loop_state m (a + demand w_bw i l) (d + demand w_disp i l) (v + demand w_camera i l)
    (o + demand w_other i l) (Z.lor fl (iso_users i l))
    (Z.min nc (least b_cap nc l)) (Z.min ic (least b_iso_cap ic l)) (Z.max f (greatest b_floor f l)).
Proof.
  intros H Hm. revert i a d v o fl nc ic f. induction H as [|c l Hc Hl IH]; intros.
  { cbn. rewrite !Z.add_0_r, Z.lor_0_r, !Z.min_id, Z.max_id. done. }
  cbn [sum_loop demand iso_users]. change (least b_cap nc (c :: l)) with (Z.min (b_cap c) (least b_cap nc l)).
  change (least b_iso_cap ic (c :: l)) with (Z.min (b_iso_cap c) (least b_iso_cap ic l)).
  change (greatest b_floor f (c :: l)) with (Z.max (b_floor c) (greatest b_floor f l)).
  rewrite sum_client_sat by done. destruct Hc.
  rewrite IH; [|try done..].
  - rewrite Z.lor_assoc, !Z.add_assoc, !least_cons, greatest_cons. done.
  - unfold w_bw. lia.
  - unfold w_disp. case_match; lia.
  - unfold w_camera. case_match; lia.
  - unfold w_other. case_match; lia.
Qed.

Lemma sum_loop_summary m l : Forall (client_ok m) l -> 0 <= m < 2 ^ 62 ->
  sum_loop m 0 l (Sums 0 0 0 0 0 0 m m 0) = summary m l.
Proof.
  intros Hl Hm.
  assert (Sums 0 0 0 0 0 0 m m 0 = loop_state m 0 0 0 0 0 m m 0) as ->
    by (unfold loop_state; f_equal; lia).
  rewrite sum_loop_sat by (done || lia).
  assert (forall g x, Z.min x (least g x l) = least g x l) as El
    by (clear; intros; unfold least; induction l; cbn; lia).
  assert (forall g, Forall (fun c => 0 <= g c) l -> Z.max 0 (greatest g 0 l) = greatest g 0 l) as Eg
    by (clear; intros g Hg; unfold greatest; induction Hg; cbn; lia).
  rewrite !El, Eg; [done|]. eapply Forall_impl; [|exact Hl]. intros c Hc. apply Hc.
Qed.

Lemma least_le g x l c : c ∈ l -> least g x l <= g c.
Proof. unfold least. induction 1; cbn; lia. Qed.
Lemma least_bound g x l : least g x l <= x.
Proof. unfold least. induction l; cbn; lia. Qed.
Lemma least_case g x l : least g x l = x \/ exists c, c ∈ l /\ least g x l = g c.
Proof.
  unfold least. induction l as [|c l IH]; cbn; [by left|].
  destruct (Z.min_spec (g c) (foldr (fun c => Z.min (g c)) x l)) as [[_ ->]|[_ ->]].
  - right. exists c. split; [by left|done].
  - destruct IH as [->|(c' & ? & ->)]; [by left|]. right. exists c'. split; [by right|done].
Qed.
Lemma greatest_ge g x l c : c ∈ l -> g c <= greatest g x l.
Proof. unfold greatest. induction 1; cbn; lia. Qed.

Lemma least_nonneg g m l : 0 <= m -> Forall (fun c => 0 <= g c) l -> 0 <= least g m l.
Proof. intros Hm H. unfold least. induction H; cbn; lia. Qed.

(** ** The rate the requests call for *)

Section rate.
Context `{ClkOps} (ops : bwmgr_ops) (current : Z).

(** What the rules of a chip promise on its memories: an answer, in which the isochronous
    part is part of the whole. *)
Class OpsOk (D : dram -> Prop) : Prop := {
  op_efficiency_ok : forall d total iso max_rate flags nvdis vi,
    D d -> 0 <= total < 2 ^ 63 -> 0 <= iso < 2 ^ 62 -> 0 <= max_rate < 2 ^ 62 ->
    exists bw iso_min, op_apply_efficiency ops d total iso max_rate flags nvdis vi = Some (bw, iso_min) /\
      0 <= iso_min <= bw /\ bw < 2 ^ 63;
  op_update_ok : forall f d s, op_update_efficiency ops = Some f -> D d ->
    D (f d s) /\ dram_config_supported (f d s) = dram_config_supported d }.
Context (D : dram -> Prop) `{Ops : !OpsOk D}.

(** The bandwidths after efficiency, and the rate before and after rounding. *)
Definition effective (b : bwmgr) : Z * Z :=
  let s := summary (emc_max_rate b) (bwmgr_client b) in
  default (0, 0) (op_apply_efficiency ops (b_dram b) (s_bw s + s_iso s) (s_iso s) (emc_max_rate b)
                    (s_flags s) (s_nvdis s) (s_vi s)).
Definition iso_floor (b : bwmgr) : Z := u64 (clk_round_rate (snd (effective b))).
Definition calc_rate (b : bwmgr) : Z :=
  clamp (emc_max_rate b) (fst (effective b)) (iso_floor b) (summary (emc_max_rate b) (bwmgr_client b)).
Definition rate (b : bwmgr) : Z := u64 (clk_round_rate (calc_rate b)).

Record bwmgr_ok (b : bwmgr) : Prop := {
  dram_ok : D (b_dram b);
  clients_len : length (bwmgr_client b) = 50%nat;
  clients_ok : Forall (client_ok (emc_max_rate b)) (bwmgr_client b);
  max_rate_ok : 0 <= emc_max_rate b < 2 ^ 62 }.

Lemma summary_range m l : 0 <= m -> Forall (client_ok m) l ->
  let s := summary m l in 0 <= s_bw s <= m /\ 0 <= s_iso s <= m.
Proof.
  intros Hm Hl. cbn [summary s_bw s_iso].
  assert (forall w, (forall i c, client_ok m c -> 0 <= w i c) -> 0 <= demand w 0 l) as P.
  { intros w Hw. apply demand_nonneg. intros i c Hc. apply Hw. by eapply (proj1 (list.Forall_forall _ _) Hl). }
  assert (forall w, (forall i c, w i c = b_iso_bw c \/ w i c = 0) -> 0 <= demand w 0 l) as I.
  { intros w Hw. apply P. intros i c Hc. pose proof (iso_bw_ok _ _ Hc). destruct (Hw i c); lia. }
  pose proof (P w_bw (fun i c Hc => proj1 (bw_ok _ _ Hc))).
  pose proof (I w_disp ltac:(intros; unfold w_disp; case_match; auto)).
  pose proof (I w_camera ltac:(intros; unfold w_camera; case_match; auto)).
  pose proof (I w_other ltac:(intros; unfold w_other; case_match; auto)).
  lia.
Qed.

Lemma effective_ok b : bwmgr_ok b ->
  let s := summary (emc_max_rate b) (bwmgr_client b) in
  op_apply_efficiency ops (b_dram b) (u64 (s_bw s + s_iso s)) (s_iso s) (emc_max_rate b)
    (s_flags s) (s_nvdis s) (s_vi s) = Some (effective b) /\
  0 <= snd (effective b) <= fst (effective b) /\ fst (effective b) < 2 ^ 63.
Proof.
  intros [Hd _ Hc Hm] s. destruct (summary_range (emc_max_rate b) (bwmgr_client b)) as [? ?]; [lia|done|].
  fold s in H0, H1. rewrite u64_small by lia. unfold effective. fold s.
  edestruct (op_efficiency_ok (b_dram b) (s_bw s + s_iso s) (s_iso s) (emc_max_rate b)) as (bw & m & -> & ? & ?); [done || lia..|].
  split; [done|]. cbn. lia.
Qed.

Lemma bwmgr_update_clk_ok b : bwmgr_ok b -> b_task b = Some current ->
  bwmgr_update_clk ops current b = Some (clk_set_rate (rate b), add_rate (rate b) b).
Proof.
  intros Hb Ht. destruct (effective_ok b Hb) as [E _]. destruct Hb as [_ _ Hc Hm].
  unfold bwmgr_update_clk. munfold. rewrite Ht, bool_decide_eq_true_2 by done. cbn [negb].
  rewrite sum_loop_summary by done.
  set (s := summary (emc_max_rate b) (bwmgr_client b)) in *.
  rewrite E. unfold rate, calc_rate, iso_floor. by destruct (effective b).
Qed.

(** ** What the calls do *)

Definition idle (b : bwmgr) : Prop := b_locked b = false /\ b_task b = None.
Definition ready (b : bwmgr) : Prop :=
  emc_clk b = true /\ b_status b = true /\ dram_config_supported (b_dram b) = true.

Definition purged (m : Z) (c : bw_client) : Prop :=
  b_bw c = 0 /\ b_iso_bw c = 0 /\ b_cap c = m /\ b_iso_cap c = m /\ b_floor c = 0.

(** A request: the field of the client, and the rate if it is new and updates are on. *)
Definition set_request (i req v : Z) (b : bwmgr) : bwmgr :=
  match bwmgr_client b !! Z.to_nat i with
  | Some c =>
      let v := req_value (emc_max_rate b) req v in
      let b' := set_clients (<[Z.to_nat i := set_req_field req v c]> (bwmgr_client b)) b in
      if req_field req c =? v then b
      else if clk_update_disabled b then b' else add_rate (rate b') b'
  | None => b
  end.

Lemma lookup_client b i : bwmgr_ok b -> 0 <= i < TEGRA_BWMGR_CLIENT_COUNT ->
  exists c, bwmgr_client b !! Z.to_nat i = Some c /\ client_ok (emc_max_rate b) c.
Proof.
  intros [_ L F _] Hi. unfold TEGRA_BWMGR_CLIENT_COUNT in Hi.
  destruct (lookup_lt_is_Some_2 (bwmgr_client b) (Z.to_nat i)) as [c E]; [lia|].
  exists c. split; [done|]. by eapply Forall_lookup in F.
Qed.

Lemma set_req_field_ok m req v c : client_ok m c -> 0 <= v < 2 ^ 63 -> client_ok m (set_req_field req v c).
Proof. intros [] Hv. unfold set_req_field. repeat case_match; by constructor. Qed.

Lemma req_value_ok m req v : 0 <= m < 2 ^ 62 -> 0 <= v < 2 ^ 63 -> 0 <= req_value m req v < 2 ^ 63.
Proof. intros. unfold req_value. case_match; lia. Qed.

Lemma set_clients_ok b l : bwmgr_ok b -> length l = 50%nat -> Forall (client_ok (emc_max_rate b)) l ->
  bwmgr_ok (set_clients l b).
Proof. intros [Hd _ _ M] L F. by split. Qed.

Lemma set_field_ok b i req v c : bwmgr_ok b -> bwmgr_client b !! Z.to_nat i = Some c ->
  0 <= v < 2 ^ 63 ->
  bwmgr_ok (set_clients (<[Z.to_nat i := set_req_field req v c]> (bwmgr_client b)) b).
Proof.
  intros Hb Hc Hv. pose proof Hb as [_ L F M]. apply set_clients_ok; [done| |].
  - by rewrite length_insert.
  - apply Forall_insert; [done|]. apply set_req_field_ok; [|done]. by eapply Forall_lookup in F.
Qed.

Lemma rate_lock l t b : rate (set_b_lock l t b) = rate b.
Proof. done. Qed.
Lemma bwmgr_ok_lock l t b : bwmgr_ok b -> bwmgr_ok (set_b_lock l t b).
Proof. intros []. by split. Qed.
Lemma bwmgr_ok_add_rate r b : bwmgr_ok b -> bwmgr_ok (add_rate r b).
Proof. intros []. by split. Qed.
Lemma idle_lock b l t : idle b -> set_b_lock false None (set_b_lock l t b) = b.
Proof. destruct b. unfold idle. cbn. intros [-> ->]. done. Qed.

Lemma IS_HANDLE_VALID_Some i : 0 <= i < TEGRA_BWMGR_CLIENT_COUNT -> IS_HANDLE_VALID (Some i) = true.
Proof. intros. cbn. repeat case_z; lia || done. Qed.

Lemma bwmgr_lock_idle b : idle b ->
  bwmgr_lock current b = Some (true, set_b_lock true (Some current) b).
Proof. intros [L T]. unfold bwmgr_lock. munfold. by rewrite T, L. Qed.
Lemma bwmgr_unlock_ok b : b_task b = Some current ->
  bwmgr_unlock current b = Some (true, set_b_lock false None b).
Proof. intros T. unfold bwmgr_unlock. munfold. by rewrite T, bool_decide_eq_true_2. Qed.

(** The calls change the requests as they say, whatever their arguments. *)
Definition set_emc_valid (h : option Z) (req : Z) (b : bwmgr) : bool :=
  dram_config_supported (b_dram b) && IS_HANDLE_VALID h && req_known req.
Definition set_emc_state (h : option Z) (v req : Z) (b : bwmgr) : bwmgr :=
  if emc_clk b && b_status b && set_emc_valid h req b then set_request (default 0 h) req v b else b.

Lemma IS_HANDLE_VALID_range h : IS_HANDLE_VALID h = true -> 0 <= default 0 h < TEGRA_BWMGR_CLIENT_COUNT.
Proof. destruct h as [i|]; [|done]. cbn. intros [? ?]%andb_prop. lia. Qed.

Lemma tegra_bwmgr_set_emc_ok b h req v :
  bwmgr_ok b -> idle b -> 0 <= v < 2 ^ 63 ->
  exists ret, tegra_bwmgr_set_emc ops current h v req b = Some (ret, set_emc_state h v req b) /\
    (if emc_clk b && b_status b && negb (set_emc_valid h req b) then ret = - EINVAL
     else ret = 0 \/ ret = clk_set_rate (rate (set_emc_state h v req b))).
Proof.
  intros Hb Hi Hv. unfold tegra_bwmgr_set_emc, set_emc_state, set_emc_valid. munfold.
  destruct (emc_clk b), (b_status b); cbn [andb negb]; [|eauto..].
  destruct (dram_config_supported (b_dram b)); cbn [andb negb]; [|eauto].
  destruct (IS_HANDLE_VALID h) eqn:Hh; cbn [andb negb]; [|eauto].
  destruct (Z.leb_spec TEGRA_BWMGR_SET_EMC_REQ_COUNT req).
  { assert (req_known req = false) as -> by (unfold req_known; repeat case_z; done || lia). cbn. eauto. }
  rewrite bwmgr_lock_idle by done. cbn [negb].
  destruct (req_known req); cbn [negb];
    [|rewrite bwmgr_unlock_ok, idle_lock by done; eauto].
  unfold client. munfold. destruct (lookup_client b (default 0 h) Hb) as (c & E & _);
    [by apply IS_HANDLE_VALID_range|]. cbn [bwmgr_client set_b_lock].
  rewrite E. cbn [emc_max_rate set_b_lock clk_update_disabled].
  unfold set_request. rewrite E. set (v' := req_value (emc_max_rate b) req v).
  destruct (req_field req c =? v'); cbn [negb andb].
  { rewrite bwmgr_unlock_ok, idle_lock by done. eauto. }
  unfold update_client, client. munfold. cbn [bwmgr_client set_b_lock]. rewrite E.
  set (b' := set_clients (<[Z.to_nat (default 0 h):=set_req_field req v' c]> (bwmgr_client b)) b).
  change (set_clients _ (set_b_lock true (Some current) b)) with (set_b_lock true (Some current) b').
  assert (idle b') as Hi' by done.
  assert (bwmgr_ok b') as Hb' by (by apply set_field_ok, req_value_ok, Hv; try apply Hb).
  destruct (clk_update_disabled b); cbn [negb].
  - rewrite bwmgr_unlock_ok, idle_lock by done. eauto.
  - rewrite bwmgr_update_clk_ok; [|by apply bwmgr_ok_lock|done].
    rewrite bwmgr_unlock_ok, rate_lock by done. exists (clk_set_rate (rate b')). split; [|by right].
    change (set_b_lock false None _)
      with (set_b_lock false None (set_b_lock true (Some current) (add_rate (rate b') b'))).
    by rewrite idle_lock.
Qed.

(** The other calls leave the requests as they are, or forget those of a client. *)
Definition with_client (i : Z) (f : bw_client -> bw_client) (b : bwmgr) : bwmgr :=
  match bwmgr_client b !! Z.to_nat i with
  | Some c => set_clients (<[Z.to_nat i := f c]> (bwmgr_client b)) b
  | None => b
  end.

Lemma update_client_ok b i f : bwmgr_ok b -> 0 <= i < TEGRA_BWMGR_CLIENT_COUNT ->
  exists c, bwmgr_client b !! Z.to_nat i = Some c /\ update_client i f b = Some (tt, with_client i f b).
Proof.
  intros Hb Hi. destruct (lookup_client b i Hb Hi) as (c & E & _). exists c. split; [done|].
  unfold update_client, client, with_client. munfold. by rewrite E.
Qed.

Lemma with_client_ok b i f : bwmgr_ok b ->
  (forall c, client_ok (emc_max_rate b) c -> client_ok (emc_max_rate b) (f c)) -> bwmgr_ok (with_client i f b).
Proof.
  intros Hb Hf. unfold with_client. case_match; [|done]. pose proof Hb as [_ L F _].
  apply set_clients_ok; [done|by rewrite length_insert|].
  apply Forall_insert; [done|]. apply Hf. by eapply Forall_lookup in F.
Qed.

Lemma set_b_refcount_ok m x c : client_ok m c -> client_ok m (set_b_refcount x c).
Proof. intros []. by split. Qed.

Lemma tegra_bwmgr_register_ok b c : bwmgr_ok b -> idle b ->
  tegra_bwmgr_register current c b =
    if dram_config_supported (b_dram b) && IS_HANDLE_VALID (Some c)
    then Some (Some c, with_client c (fun x => set_b_refcount (b_refcount x + 1) x) b)
    else Some (None, b).
Proof.
  intros Hb Hi. unfold tegra_bwmgr_register. munfold.
  destruct (dram_config_supported (b_dram b)); cbn [negb andb]; [|done].
  destruct (IS_HANDLE_VALID (Some c)) eqn:Hc.
  - apply IS_HANDLE_VALID_range in Hc. cbn in Hc.
    destruct (Z.leb_spec TEGRA_BWMGR_CLIENT_COUNT c), (Z.ltb_spec c 0); cbn [orb]; try lia.
    rewrite bwmgr_lock_idle by done. cbn [negb].
    destruct (update_client_ok (set_b_lock true (Some current) b) c
                (fun x => set_b_refcount (b_refcount x + 1) x)) as (x & E & ->);
      [by apply bwmgr_ok_lock|done|].
    cbn [bwmgr_client set_b_lock] in E. unfold with_client. cbn [bwmgr_client set_b_lock]. rewrite E.
    rewrite bwmgr_unlock_ok by done. f_equal. f_equal. by apply (idle_lock (set_clients _ b)).
  - cbn in Hc. destruct (Z.leb_spec TEGRA_BWMGR_CLIENT_COUNT c), (Z.ltb_spec c 0); cbn [orb]; try done.
    revert Hc. repeat case_z; lia || done.
Qed.

Lemma tegra_bwmgr_get_client_info_ok b h req : bwmgr_ok b -> idle b ->
  exists r, tegra_bwmgr_get_client_info current h req b = Some (r, b) /\
    (emc_clk b && b_status b && set_emc_valid h req b = true ->
     exists c, bwmgr_client b !! Z.to_nat (default 0 h) = Some c /\ r = (0, Some (req_field req c))).
Proof.
  intros Hb Hi. unfold tegra_bwmgr_get_client_info, set_emc_valid. munfold.
  destruct (emc_clk b), (b_status b); cbn [andb negb]; [|eexists; split; [done|discriminate]..].
  destruct (dram_config_supported (b_dram b)); cbn [andb negb]; [|eexists; split; [done|discriminate]].
  destruct (IS_HANDLE_VALID h) eqn:Hh; cbn [andb negb]; [|eexists; split; [done|discriminate]].
  destruct (Z.leb_spec TEGRA_BWMGR_SET_EMC_REQ_COUNT req).
  { eexists. split; [done|]. intros [_ ?%Z.ltb_lt]%andb_prop. lia. }
  rewrite bwmgr_lock_idle by done. cbn [negb].
  destruct (req_known req); cbn [negb]; [|rewrite bwmgr_unlock_ok, idle_lock by done;
    eexists; split; [done|discriminate]].
  unfold client. munfold. destruct (lookup_client b (default 0 h) Hb) as (c & E & _);
    [by apply IS_HANDLE_VALID_range|]. cbn [bwmgr_client set_b_lock].
  rewrite E, bwmgr_unlock_ok, idle_lock by done. eauto.
Qed.

Definition efficiency_state (s : Z) (b : bwmgr) : bwmgr :=
  match op_update_efficiency ops with Some f => set_b_dram (f (b_dram b) s) b | None => b end.

Lemma efficiency_state_ok s b : bwmgr_ok b -> bwmgr_ok (efficiency_state s b).
Proof.
  intros Hb. unfold efficiency_state. destruct (op_update_efficiency ops) as [f|] eqn:U; [|done].
  destruct Hb as [Hd L F M]. split; try done. by destruct (op_update_ok (D := D) f (b_dram b) s U Hd).
Qed.

Lemma tegra_bwmgr_update_efficiency_ok b s : bwmgr_ok b -> idle b ->
  let b' := efficiency_state s b in
  exists ret, tegra_bwmgr_update_efficiency ops current s b =
    Some (ret, if clk_update_disabled b then b' else add_rate (rate b') b').
Proof.
  intros Hb Hi b'. unfold tegra_bwmgr_update_efficiency. munfold. rewrite bwmgr_lock_idle by done.
  cbn [negb]. pose proof (efficiency_state_ok s b Hb) as Hb'. fold b' in Hb'.
  assert (idle b' /\ clk_update_disabled b' = clk_update_disabled b) as [Hi' Hu]
    by (unfold b', efficiency_state; by case_match).
  change (match op_update_efficiency ops with Some f => _ | None => _ end)
    with (efficiency_state s (set_b_lock true (Some current) b)).
  assert (efficiency_state s (set_b_lock true (Some current) b) = set_b_lock true (Some current) b') as ->
    by (unfold b', efficiency_state; by case_match).
  cbn [clk_update_disabled set_b_lock]. rewrite Hu. destruct (clk_update_disabled b); cbn [negb].
  - rewrite bwmgr_unlock_ok, idle_lock by done. eauto.
  - rewrite bwmgr_update_clk_ok, bwmgr_unlock_ok, rate_lock by (done || by apply bwmgr_ok_lock).
    eexists. do 2 f_equal. by apply (idle_lock (add_rate (rate b') b') true (Some current)).
Qed.

Definition unregister_client (m : Z) (c : bw_client) : bw_client :=
  if b_refcount c - 1 <=? 0 then BwClient 0 0 m m 0 0 else set_b_refcount (b_refcount c - 1) c.

Lemma client_at c i b : bwmgr_client b !! Z.to_nat i = Some c -> client i b = Some (c, b).
Proof. intros E. unfold client. munfold. by rewrite E. Qed.
Lemma update_client_at c i f b : bwmgr_client b !! Z.to_nat i = Some c ->
  update_client i f b = Some (tt, set_clients (<[Z.to_nat i := f c]> (bwmgr_client b)) b).
Proof. intros E. unfold update_client, client. munfold. by rewrite E. Qed.

Lemma tegra_bwmgr_unregister_ok b h : bwmgr_ok b -> idle b ->
  tegra_bwmgr_unregister current h b =
    Some (tt, if IS_HANDLE_VALID h then with_client (default 0 h) (unregister_client (emc_max_rate b)) b else b).
Proof.
  intros Hb Hi. unfold tegra_bwmgr_unregister. munfold.
  destruct (IS_HANDLE_VALID h) eqn:Hh; cbn [negb]; [|done]. apply IS_HANDLE_VALID_range in Hh.
  rewrite bwmgr_lock_idle by done. cbn [negb]. set (i := default 0 h) in *.
  destruct (lookup_client b i Hb Hh) as (c & E & _).
  assert (Z.to_nat i < length (bwmgr_client b))%nat as Hl by (by eapply lookup_lt_Some).
  unfold purge_client, with_client, unregister_client. rewrite E. munfold.
  rewrite (update_client_at c) by done. rewrite (client_at (set_b_refcount (b_refcount c - 1) c)) by
    (cbn; by apply list_lookup_insert_eq).
  cbn [b_refcount set_b_refcount bwmgr_client set_b_lock]. destruct (b_refcount c - 1 <=? 0).
  - rewrite (update_client_at (set_b_refcount (b_refcount c - 1) c)) by (cbn; by apply list_lookup_insert_eq).
    rewrite bwmgr_unlock_ok by done. cbn [bwmgr_client set_clients]. rewrite list_insert_insert_eq.
    do 2 f_equal. by apply (idle_lock (set_clients (<[_ := _]> (bwmgr_client b)) b) true (Some current)).
  - rewrite bwmgr_unlock_ok by done. do 2 f_equal.
    by apply (idle_lock (set_clients (<[_ := _]> (bwmgr_client b)) b) true (Some current)).
Qed.

(** The rate does not depend on reference counts, locks or past rates. *)
Definition requests (c : bw_client) : bw_client := set_b_refcount 0 c.

Lemma demand_requests w i l : (forall i c, w i (requests c) = w i c) ->
  demand w i (map requests l) = demand w i l.
Proof. intros Hw. revert i. induction l; intros; cbn [map demand]; congruence. Qed.
Lemma iso_users_requests i l : iso_users i (map requests l) = iso_users i l.
Proof. revert i. induction l as [|c l IH]; intros; cbn [map iso_users]; [done|]. by rewrite IH. Qed.
Lemma foldr_requests (f : bw_client -> Z -> Z) x l : (forall c, f (requests c) = f c) ->
  foldr f x (map requests l) = foldr f x l.
Proof. intros Hf. induction l; cbn; congruence. Qed.

Lemma summary_requests m l : summary m (map requests l) = summary m l.
Proof.
  unfold summary, least, greatest.
  rewrite !demand_requests, iso_users_requests, !foldr_requests; done.
Qed.

Lemma rate_requests b b' : emc_max_rate b = emc_max_rate b' -> b_dram b = b_dram b' ->
  map requests (bwmgr_client b) = map requests (bwmgr_client b') -> rate b = rate b'.
Proof.
  intros Em Ed Ec. unfold rate, calc_rate, iso_floor, effective.
  rewrite <- (summary_requests _ (bwmgr_client b)), Em, Ed, Ec, summary_requests. done.
Qed.

Lemma with_client_requests i f b : (forall c, requests (f c) = requests c) ->
  map requests (bwmgr_client (with_client i f b)) = map requests (bwmgr_client b).
Proof.
  intros Hf. unfold with_client. destruct (bwmgr_client b !! Z.to_nat i) as [c|] eqn:E; [|done].
  cbn [bwmgr_client set_clients]. rewrite list_fmap_insert, Hf. apply list_insert_id.
  by rewrite list_lookup_fmap, E.
Qed.

(** ** Bounds *)

(** The rate before rounding lies between what is asked for and what is allowed. *)
Lemma calc_rate_bounds b : bwmgr_ok b ->
  calc_rate b <= emc_max_rate b /\
  (forall c, c ∈ bwmgr_client b ->
     calc_rate b <= b_iso_cap c /\ calc_rate b <= Z.max (b_cap c) (iso_floor b)) /\
  (fst (effective b) <= calc_rate b /\
     (forall c, c ∈ bwmgr_client b -> Z.min (b_floor c) (emc_max_rate b) <= calc_rate b) \/
   calc_rate b = emc_max_rate b \/
   exists c, c ∈ bwmgr_client b /\
     (calc_rate b = b_iso_cap c \/ calc_rate b = Z.max (b_cap c) (iso_floor b))) /\
  (forall x, x <= snd (effective b) -> x <= iso_floor b -> x <= emc_max_rate b ->
     (forall c, c ∈ bwmgr_client b -> x <= b_iso_cap c) -> x <= calc_rate b).
Proof.
  intros Hb. destruct (effective_ok b Hb) as (_ & He & _). unfold calc_rate, clamp, summary. cbn.
  set (l := bwmgr_client b). set (m := emc_max_rate b).
  pose proof (least_bound b_iso_cap m l). pose proof (least_bound b_cap m l).
  assert (0 <= greatest b_floor 0 l) by (unfold greatest; clear; induction l; cbn; lia).
  split; [lia|]. split; [|split].
  - intros c Hc. pose proof (least_le b_iso_cap m l c Hc). pose proof (least_le b_cap m l c Hc). lia.
  - destruct (Z.le_gt_cases (Z.max (fst (effective b)) (Z.min (greatest b_floor 0 l) m))
                (Z.min (least b_iso_cap m l) (Z.max (least b_cap m l) (iso_floor b)))) as [Hle|Hgt].
    + left. split; [lia|]. intros c Hc. pose proof (greatest_ge b_floor 0 l c Hc). lia.
    + right. destruct (least_case b_iso_cap m l) as [Ei|(c & Hc & Ei)],
        (least_case b_cap m l) as [En|(c' & Hc' & En)]; try (left; lia).
      * destruct (Z.le_gt_cases m (Z.max (b_cap c') (iso_floor b))); [left; lia|].
        right. exists c'. split; [done|]. right. lia.
      * destruct (Z.le_gt_cases (Z.max m (iso_floor b)) (b_iso_cap c)); [left; lia|].
        right. exists c. split; [done|]. left. lia.
      * destruct (Z.le_gt_cases (Z.max (b_cap c') (iso_floor b)) (b_iso_cap c)); right;
          [exists c'; split; [done|]; right; lia|exists c; split; [done|]; left; lia].
  - intros x Hx1 Hx2 Hx3 Hx4.
    assert (x <= least b_iso_cap m l) by
      (destruct (least_case b_iso_cap m l) as [->|(c & Hc & ->)]; [lia|by apply Hx4]).
    lia.
Qed.
End rate.

(** ** Runs of calls *)

Inductive bw_call :=
  | Register (c : Z)
  | Unregister (h : option Z)
  | SetEmc (h : option Z) (v req : Z)
  | ClientInfo (h : option Z) (req : Z)
  | Refresh (state : Z)
  | Switch (disabled : bool).

Section runs.
Context `{ClkOps} (ops : bwmgr_ops) (D : dram -> Prop) `{Ops : !OpsOk ops D}.

(** A call by the task [t]; [Switch] is a write to the file in debugfs. *)
Definition exec_call (t : Z) (k : bw_call) : M bwmgr unit :=
  match k with
  | Register c => tegra_bwmgr_register t c;; mret tt
  | Unregister h => tegra_bwmgr_unregister t h
  | SetEmc h v req => tegra_bwmgr_set_emc ops t h v req;; mret tt
  | ClientInfo h req => tegra_bwmgr_get_client_info t h req;; mret tt
  | Refresh s => tegra_bwmgr_update_efficiency ops t s;; mret tt
  | Switch d => modify (set_clk_update_disabled d)
  end.
Fixpoint exec_calls (l : list (Z * bw_call)) : M bwmgr unit :=
  match l with
  | [] => mret tt
  | (t, k) :: l => exec_call t k;; exec_calls l
  end.

Definition arg_ok (k : bw_call) : Prop :=
  match k with SetEmc _ v _ => 0 <= v < 2 ^ 63 | _ => True end.

(** The last rate asked of the clock is that of the requests; before the first one there
    are no requests. *)
Definition up_to_date (b : bwmgr) : Prop :=
  match rates b with
  | [] => Forall (purged (emc_max_rate b)) (bwmgr_client b)
  | r :: _ => r = rate ops b
  end.

Definition bw_inv (b : bwmgr) : Prop :=
  bwmgr_ok D b /\ idle b /\ clk_update_disabled b = false /\ up_to_date b.

(** A call that changes what the rate depends on: an accepted request with a new value, or
    a new refresh state. With the switch off it asks for the new rate. *)
Definition changes (b : bwmgr) (k : bw_call) : bool :=
  match k with
  | SetEmc h v req =>
      emc_clk b && b_status b && set_emc_valid h req b &&
      match bwmgr_client b !! Z.to_nat (default 0 h) with
      | Some c => negb (req_field req c =? req_value (emc_max_rate b) req v)
      | None => false
      end
  | Refresh _ => true
  | _ => false
  end.
(** The last user of a client leaves: its requests go, and no rate is asked for. *)
Definition forgets (b : bwmgr) (k : bw_call) : bool :=
  match k with
  | Unregister h =>
      IS_HANDLE_VALID h &&
      match bwmgr_client b !! Z.to_nat (default 0 h) with
      | Some c => b_refcount c <=? 1
      | None => false
      end
  | _ => false
  end.
(** Whether the clock is current after a call, given whether it was before it. *)
Definition current_after (b : bwmgr) (k : bw_call) (was : bool) : bool :=
  if changes b k then negb (clk_update_disabled b) else was && negb (forgets b k).
Fixpoint current (l : list (Z * bw_call)) (b : bwmgr) (was : bool) : bool :=
  match l with
  | [] => was
  | (t, k) :: l =>
      match exec_call t k b with
      | Some (_, b') => current l b' (current_after b k was)
      | None => false
      end
  end.

Lemma purged_refcount m x c : purged m c -> purged m (set_b_refcount x c).
Proof. done. Qed.

Lemma with_client_same i f b : (forall c, requests (f c) = requests c) ->
  (forall m c, purged m c -> purged m (f c)) -> up_to_date b -> up_to_date (with_client i f b).
Proof.
  intros Hf Hp Hd.
  assert (rate ops (with_client i f b) = rate ops b) as Er.
  { apply rate_requests; [by unfold with_client; case_match..|by apply with_client_requests]. }
  unfold up_to_date, with_client in *.
  destruct (bwmgr_client b !! Z.to_nat i) as [c|] eqn:E; [|done]. cbn [rates set_clients bwmgr_client emc_max_rate].
  destruct (rates b) as [|r l]; [|by rewrite Er]. apply Forall_insert; [done|]. apply Hp. by eapply Forall_lookup in Hd.
Qed.

Lemma with_client_idle i f b : idle b -> idle (with_client i f b).
Proof. unfold idle, with_client. by case_match. Qed.

Lemma unregister_client_ok m m' c : m = m' -> 0 <= m < 2 ^ 62 -> client_ok m c ->
  client_ok m (unregister_client m' c).
Proof.
  intros <- Hm Hc. unfold unregister_client. case_z; [split; cbn; lia|by apply set_b_refcount_ok].
Qed.

Lemma set_request_changes i req v b c : bwmgr_client b !! Z.to_nat i = Some c ->
  bwmgr_ok D b -> idle b -> 0 <= v < 2 ^ 63 ->
  let b' := set_request ops i req v b in
  bwmgr_ok D b' /\ idle b' /\
  (if req_field req c =? req_value (emc_max_rate b) req v then b' = b
   else clk_update_disabled b = false -> up_to_date b').
Proof.
  intros E Hb Hi Hv b'.
  pose proof (set_field_ok D b i req (req_value (emc_max_rate b) req v) c Hb E
                (req_value_ok _ req v (max_rate_ok D b Hb) Hv)) as Ok.
  subst b'. unfold set_request. rewrite E. destruct (_ =? _); [done|].
  destruct (clk_update_disabled b); (split; [by try apply bwmgr_ok_add_rate|]); done.
Qed.

(** One call: it returns, and what it does to the clock. *)
Lemma exec_call_step t k b was : bwmgr_ok D b -> idle b -> arg_ok k -> (was = true -> up_to_date b) ->
  exists b', exec_call t k b = Some (tt, b') /\ bwmgr_ok D b' /\ idle b' /\
    (current_after b k was = true -> up_to_date b').
Proof.
  intros Hb Hi Ha Hw. unfold current_after. destruct k as [c|h|h v req|h req|s|d]; cbn; munfold.
  - rewrite (tegra_bwmgr_register_ok t D b c) by done.
    destruct (dram_config_supported (b_dram b) && IS_HANDLE_VALID (Some c)).
    2: { eexists. split; [done|]. rewrite andb_true_r. by split_and!. }
    eexists. split; [done|]. rewrite andb_true_r.
    split; [apply with_client_ok; auto using set_b_refcount_ok|]. split; [by apply with_client_idle|].
    intros Hc. apply with_client_same; auto using purged_refcount.
  - rewrite (tegra_bwmgr_unregister_ok t D b h) by done. eexists. split; [done|].
    destruct (IS_HANDLE_VALID h) eqn:Hh; cbn [andb negb]; [|rewrite andb_true_r; by split_and!].
    apply IS_HANDLE_VALID_range in Hh. destruct (lookup_client D b _ Hb Hh) as (c & E & Hc). rewrite E.
    pose proof (max_rate_ok D b Hb) as Hm. split_and!.
    + apply with_client_ok; [done|]. intros x Hx. by apply unregister_client_ok.
    + by apply with_client_idle.
    + intros [Hwas Hf]%andb_prop. apply negb_true_iff, Z.leb_gt in Hf.
      assert (with_client (default 0 h) (unregister_client (emc_max_rate b)) b =
              with_client (default 0 h) (fun x => set_b_refcount (b_refcount x - 1) x) b) as ->.
      { unfold with_client. rewrite E. do 2 f_equal. unfold unregister_client.
        by destruct (Z.leb_spec (b_refcount c - 1) 0); [lia|]. }
      apply with_client_same; auto using purged_refcount.
  - destruct (tegra_bwmgr_set_emc_ok ops t D b h req v Hb Hi Ha) as (ret & -> & _).
    eexists. split; [done|]. unfold set_emc_state.
    destruct (emc_clk b && b_status b) eqn:Hs; cbn [andb]; [|rewrite andb_true_r; by split_and!].
    destruct (set_emc_valid h req b) eqn:Hv; cbn [andb]; [|rewrite andb_true_r; by split_and!].
    assert (0 <= default 0 h < TEGRA_BWMGR_CLIENT_COUNT) as Hh.
    { apply IS_HANDLE_VALID_range. unfold set_emc_valid in Hv. by apply andb_prop in Hv as [[_ ?]%andb_prop _]. }
    destruct (lookup_client D b _ Hb Hh) as (c & E & Hc). rewrite E.
    destruct (set_request_changes (default 0 h) req v b c E Hb Hi Ha) as (O1 & O2 & O3).
    split; [done|]. split; [done|]. destruct (_ =? _); cbn [negb].
    + rewrite O3, andb_true_r. done.
    + intros Hn. apply O3. by apply negb_true_iff in Hn.
  - destruct (tegra_bwmgr_get_client_info_ok t D b h req Hb Hi) as (r & -> & _).
    eexists. split; [done|]. rewrite andb_true_r. by split_and!.
  - destruct (tegra_bwmgr_update_efficiency_ok ops t D b s Hb Hi) as (ret & ->).
    eexists. split; [done|]. pose proof (efficiency_state_ok ops D s b Hb) as Hb'.
    assert (idle (efficiency_state ops s b)) as Hi' by (unfold efficiency_state; by case_match).
    destruct (clk_update_disabled b); (split; [by try apply bwmgr_ok_add_rate|]); done.
  - eexists. split; [done|]. rewrite andb_true_r. split; [by destruct Hb; split|]. done.
Qed.

(** C7. Whatever tasks call whatever functions of the interface (register, unregister,
    request, query, a new refresh state), whatever the arguments (requests below 2^63) and
    however the switch in debugfs is set meanwhile, every call returns and the lock is free
    again. And the last rate asked of the clock is the one the clients' present requests
    call for, whenever a call that changed them (or the refresh state) with the switch off
    has asked for it, and since then no request was changed with the switch on and no
    client lost its requests with its last user, for which no rate is asked. *)
Theorem bwmgr_rate_current b l was : bwmgr_ok D b -> idle b -> (was = true -> up_to_date b) ->
  Forall (fun tk => arg_ok tk.2) l ->
  exists b', exec_calls l b = Some (tt, b') /\ bwmgr_ok D b' /\ idle b' /\
    (current l b was = true -> up_to_date b').
Proof.
  intros Hb Hi Hw Hl. revert b was Hb Hi Hw.
  induction Hl as [|[t k] l Ha Hl IH]; intros b was Hb Hi Hw; [by exists b|].
  destruct (exec_call_step t k b was Hb Hi Ha Hw) as (b1 & E1 & O1 & I1 & C1).
  destruct (IH b1 _ O1 I1 C1) as (b2 & E2 & O2 & I2 & C2).
  exists b2. cbn [exec_calls current]. munfold. rewrite E1. by split_and!.
Qed.

(** C37. The rate computed before rounding is at most the maximum, each client's ISO cap, and
    the larger of each client's cap and the isochronous need; below the demand or a floor it
    is only where one of these caps decides; and the isochronous need is met whatever the
    caps for others, unless an ISO cap is below it. *)
Theorem bwmgr_update_clk_bounds t b : bwmgr_ok D b -> b_task b = Some t ->
  exists x ret, let need := iso_floor ops b in
    bwmgr_update_clk ops t b = Some (ret, add_rate (u64 (clk_round_rate x)) b) /\ x <= emc_max_rate b /\
    (forall c, c ∈ bwmgr_client b -> x <= b_iso_cap c /\ x <= Z.max (b_cap c) need) /\
    (fst (effective ops b) <= x /\
       (forall c, c ∈ bwmgr_client b -> Z.min (b_floor c) (emc_max_rate b) <= x) \/
     x = emc_max_rate b \/
     exists c, c ∈ bwmgr_client b /\ (x = b_iso_cap c \/ x = Z.max (b_cap c) need)) /\
    (forall y, y <= snd (effective ops b) -> y <= need -> y <= emc_max_rate b ->
       (forall c, c ∈ bwmgr_client b -> y <= b_iso_cap c) -> y <= x).
Proof.
  intros Hb Ht. exists (calc_rate ops b), (clk_set_rate (rate ops b)). split.
  - by apply (bwmgr_update_clk_ok ops t D).
  - by apply (calc_rate_bounds ops D).
Qed.

Lemma req_field_set r req v c : req_known r = true -> req_known req = true ->
  req_field r (set_req_field req v c) = if r =? req then v else req_field r c.
Proof.
  unfold req_known. intros [?%Z.leb_le ?%Z.ltb_lt]%andb_prop [?%Z.leb_le ?%Z.ltb_lt]%andb_prop.
  change TEGRA_BWMGR_SET_EMC_REQ_COUNT with 5 in *.
  assert (r = 0 \/ r = 1 \/ r = 2 \/ r = 3 \/ r = 4) as Er by lia.
  assert (req = 0 \/ req = 1 \/ req = 2 \/ req = 3 \/ req = 4) as Eq by lia.
  by destruct Er as [->|[->|[->|[->| ->]]]], Eq as [->|[->|[->|[->| ->]]]].
Qed.

Lemma set_req_field_id req c : set_req_field req (req_field req c) c = c.
Proof. unfold set_req_field, req_field. destruct c. by repeat case_match. Qed.

Lemma info_valid t j r b c : bwmgr_ok D b -> idle b -> ready b -> 0 <= j < TEGRA_BWMGR_CLIENT_COUNT ->
  req_known r = true -> bwmgr_client b !! Z.to_nat j = Some c ->
  tegra_bwmgr_get_client_info t (Some j) r b = Some ((0, Some (req_field r c)), b).
Proof.
  intros Hb Hi (C & S & Su) Hj Hr Hc.
  destruct (tegra_bwmgr_get_client_info_ok t D b (Some j) r Hb Hi) as (x & -> & Hx).
  destruct Hx as (c' & E & ->).
  - unfold set_emc_valid. by rewrite C, S, Su, Hr, IS_HANDLE_VALID_Some.
  - cbn [default id] in E. by simplify_eq.
Qed.

(** What a request sets is what tegra_bwmgr_get_client_info then answers (a cap of 0
    becomes the maximal rate), and the other requests of all clients are as before. *)
Theorem tegra_bwmgr_set_get t i req v b : bwmgr_ok D b -> idle b -> ready b -> 0 <= v < 2 ^ 63 ->
  0 <= i < TEGRA_BWMGR_CLIENT_COUNT -> req_known req = true ->
  exists ret b', tegra_bwmgr_set_emc ops t (Some i) v req b = Some (ret, b') /\
    tegra_bwmgr_get_client_info t (Some i) req b' = Some ((0, Some (req_value (emc_max_rate b) req v)), b') /\
    (forall j r, 0 <= j < TEGRA_BWMGR_CLIENT_COUNT -> req_known r = true -> (j, r) <> (i, req) ->
       exists x, tegra_bwmgr_get_client_info t (Some j) r b = Some ((0, Some x), b) /\
                 tegra_bwmgr_get_client_info t (Some j) r b' = Some ((0, Some x), b')).
Proof.
  intros Hb Hi Hr Hv Hc Hk. pose proof Hr as (C & S & Su).
  destruct (tegra_bwmgr_set_emc_ok ops t D b (Some i) req v Hb Hi Hv) as (ret & -> & _).
  unfold set_emc_state, set_emc_valid. rewrite C, S, Su, Hk, IS_HANDLE_VALID_Some by done. cbn [andb default id].
  destruct (lookup_client D b i Hb Hc) as (c & E & _). set (v' := req_value (emc_max_rate b) req v).
  set (l' := <[Z.to_nat i := set_req_field req v' c]> (bwmgr_client b)).
  assert (Z.to_nat i < length (bwmgr_client b))%nat as Hl by (by eapply lookup_lt_Some).
  assert (exists b', set_request ops i req v b = b' /\ bwmgr_ok D b' /\ idle b' /\ ready b' /\
            bwmgr_client b' = l') as (b' & -> & Hb' & Hi' & Hr' & El).
  { pose proof (set_field_ok D b i req v' c Hb E (req_value_ok _ req v (max_rate_ok D b Hb) Hv)) as Ok.
    eexists. split; [done|]. unfold set_request. rewrite E. fold v' l'. fold l' in Ok.
    destruct (Z.eqb_spec (req_field req c) v') as [Ev|].
    - repeat (split; [done|]). unfold l'. symmetry. apply list_insert_id.
      by rewrite <- Ev, set_req_field_id.
    - destruct (clk_update_disabled b); repeat (split; [done||by apply bwmgr_ok_add_rate|]); done. }
  eexists _, b'. split; [done|]. split.
  - rewrite (info_valid t i req b' (set_req_field req v' c)); try done.
    + rewrite req_field_set, Z.eqb_refl by done. done.
    + rewrite El. by apply list_lookup_insert_eq.
  - intros j r Hj Hkr Hne. destruct (lookup_client D b j Hb Hj) as (cj & Ej & _).
    exists (req_field r cj). split; [by apply info_valid|].
    destruct (decide (j = i)) as [->|Hji].
    + rewrite (info_valid t i r b' (set_req_field req v' c)); try done.
      * rewrite req_field_set by done. simplify_eq. destruct (Z.eqb_spec r req); [congruence|done].
      * rewrite El. by apply list_lookup_insert_eq.
    + apply info_valid; try done. rewrite El. unfold l'.
      rewrite list_lookup_insert_ne by lia. done.
Qed.
End runs.

(** ** The rules of Tegra186 and Tegra210 *)

Lemma table_idx_le table i x : (table_idx table i x <= i)%nat.
Proof. induction i; cbn; [lia|]. case_z; lia. Qed.

(** In an increasing table the index is that of the last entry not above the bandwidth, or 0. *)
Lemma table_idx_spec table i x :
  (forall j k, (j <= k <= i)%nat -> table !!! j <= table !!! k) ->
  let n := table_idx table i x in
  (n = O \/ table !!! n <= x) /\ (forall k, (n < k <= i)%nat -> x < table !!! k).
Proof.
  induction i as [|i IH]; intros Hs; cbn [table_idx].
  - split; [by left|lia].
  - destruct (Z.ltb_spec x (table !!! S i)).
    + destruct IH as [? Hk]; [intros; apply Hs; lia|]. split; [done|]. intros k Hk'.
      destruct (decide (k = S i)) as [->|]; [done|]. apply Hk. lia.
    + split; [by right|lia].
Qed.

Lemma scale_range bw e m : 0 <= bw < 2 ^ 63 -> 0 <= e -> 0 <= m < 2 ^ 62 -> 0 <= scale bw e m < 2 ^ 63.
Proof.
  intros. unfold scale. destruct (Z.eqb_spec bw 0), (Z.eqb_spec e 0); cbn [negb andb]; try lia.
  destruct (Z.ltb_spec e 100); cbn; [|lia]. assert (0 <= bw / e) by (apply Z.div_pos; lia).
  destruct (Z.ltb_spec (bw / e) (m / 100)); [|lia]. rewrite u64_small; dlia.
Qed.

(** The scaled bandwidth is the maximum, or enough for the bandwidth at this efficiency but
    for the rounding to a multiple of 100 below it. *)
Lemma scale_enough bw e m : 0 <= bw < 2 ^ 63 -> 0 < e < 100 -> 0 <= m < 2 ^ 62 ->
  scale bw e m = m \/ scale bw e m * e <= 100 * bw < (scale bw e m + 100) * e.
Proof.
  intros. unfold scale. destruct (Z.eqb_spec bw 0); cbn [negb andb]; [right; nia|].
  destruct (Z.eqb_spec e 0), (Z.ltb_spec e 100); cbn [negb andb]; try lia.
  pose proof (Z.div_mod bw e ltac:(lia)). pose proof (Z.mod_pos_bound bw e ltac:(lia)).
  assert (0 <= bw / e) by (apply Z.div_pos; lia).
  destruct (Z.ltb_spec (bw / e) (m / 100)); [|by left]. right.
  rewrite u64_small by dlia. nia.
Qed.

(** The memories whose efficiency table covers the table of bandwidths. *)
Definition covered (n : nat) (d : dram) : Prop :=
  length (dram_iso_eff_table d) = n /\ 0 <= dram_efficiency d.

Lemma iso_efficiency_ok table d total iso m : (0 < length table)%nat ->
  covered (length table) d -> 0 <= total < 2 ^ 63 -> 0 <= iso < 2 ^ 62 -> 0 <= m < 2 ^ 62 ->
  exists bw iso_min,
    (e ← dram_iso_eff_table d !! get_iso_bw_table_idx table iso;
     Some (Z.max (scale total (dram_efficiency d) m) (scale iso (u8 e) m), scale iso (u8 e) m)) =
      Some (bw, iso_min) /\ 0 <= iso_min <= bw /\ bw < 2 ^ 63.
Proof.
  intros Hn [Hl He] Ht Hi Hm. unfold get_iso_bw_table_idx.
  pose proof (table_idx_le table (length table - 1) (iso / 1000000)).
  destruct (lookup_lt_is_Some_2 (dram_iso_eff_table d) (table_idx table (length table - 1) (iso / 1000000)))
    as [e ->]; [lia|]. cbn. pose proof (uw_range 8 e).
  pose proof (scale_range total (dram_efficiency d) m).
  pose proof (scale_range iso (u8 e) m). eexists _, _. split; [done|]. lia.
Qed.

#[export] Instance t18x_ops_ok : OpsOk bwmgr_ops_t18x (covered 27).
Proof.
  split; [|done]. intros d total iso m flags nvdis vi Hd Ht Hi Hm.
  by apply (iso_efficiency_ok bwmgr_t186_iso_bw_table); [cbn; lia|..].
Qed.
#[export] Instance t21x_ops_ok : OpsOk bwmgr_ops_t21x (covered 26).
Proof.
  split; [|done]. intros d total iso m flags nvdis vi Hd Ht Hi Hm.
  by apply (iso_efficiency_ok bwmgr_t210_iso_bw_table); [cbn; lia|..].
Qed.

(** What the start-up code leaves: a supported memory is covered. *)
Lemma eff_init_t18x_covered dram_reg ch ecc pairs :
  dram_config_supported (bwmgr_eff_init_t18x dram_reg ch ecc pairs) = true ->
  covered 27 (bwmgr_eff_init_t18x dram_reg ch ecc pairs).
Proof.
  unfold bwmgr_eff_init_t18x, lpddr4_config. repeat case_match; simplify_eq; cbn; done.
Qed.

(** On a Tegra186 the frequency for isochronous clients is looked up for the bandwidth
    class of their demand (the last entry of the table not above it, in MHz): it is the
    maximum, or the demand at the efficiency of that class but for rounding down to 100 Hz
    times the efficiency; and the frequency for all clients is no less. *)
Theorem t18x_efficiency_class d total iso m flags nvdis vi :
  covered 27 d -> 0 <= total < 2 ^ 63 -> 0 <= iso < 2 ^ 62 -> 0 <= m < 2 ^ 62 ->
  exists n e bw iso_min, dram_iso_eff_table d !! n = Some e /\
    (n = O \/ bwmgr_t186_iso_bw_table !!! n <= iso / 1000000) /\
    (forall k, (n < k < 27)%nat -> iso / 1000000 < bwmgr_t186_iso_bw_table !!! k) /\
    t18x_bwmgr_apply_efficiency d total iso m flags nvdis vi = Some (bw, iso_min) /\ iso_min <= bw /\
    (0 < e < 100 -> iso_min = m \/ iso_min * e <= 100 * iso < (iso_min + 100) * e).
Proof.
  intros Hd Ht Hi Hm. set (n := get_iso_bw_table_idx bwmgr_t186_iso_bw_table iso).
  destruct (table_idx_spec bwmgr_t186_iso_bw_table 26 (iso / 1000000)) as [Hn Hk].
  { intros j k Hjk. do 27 (destruct k as [|k]; [by do 27 (destruct j as [|j]; [cbn; lia|]); cbn; lia|]). lia. }
  fold n in Hn, Hk. change (table_idx _ _ _) with n in Hn, Hk.
  assert (n < 27)%nat as Hl by (pose proof (table_idx_le bwmgr_t186_iso_bw_table 26 (iso / 1000000)); subst n; cbn in *; lia).
  destruct (lookup_lt_is_Some_2 (dram_iso_eff_table d) n) as [e E]; [rewrite (proj1 Hd); lia|].
  exists n, e. unfold t18x_bwmgr_apply_efficiency. fold n. rewrite E. eexists _, _.
  split; [done|]. split; [done|]. split; [intros k ?; apply Hk; lia|]. split; [done|]. split; [lia|].
  intros He. rewrite (uw_small 8 e) by (change (2 ^ 8) with 256; lia). apply scale_enough; lia.
Qed.

(** ** Start-up *)

Lemma bwmgr_init_inv `{ClkOps} D ops available master max_rate d :
  D d -> dram_config_supported d = true -> 0 <= default (Z.max 0 (master (2 ^ 63 - 1))) max_rate < 2 ^ 62 ->
  bw_inv ops D (snd (bwmgr_init true true available master max_rate d)).
Proof.
  intros Hd Hs Hm. cbn. set (hi := default _ max_rate).
  assert (0 <= hi < 2 ^ 62) as Hh by (subst hi; destruct max_rate; cbn in *; [done|]; case_z; lia).
  clearbody hi. split; [|split; [done|split; [done|]]].
  - split; cbn; try done. apply Forall_replicate. split; cbn; lia.
  - cbn. by apply Forall_replicate.
Qed.

(** A clock that supports the multiples of 1000 Hz. *)
#[local] Instance clk_khz : ClkOps := { clk_round_rate x := x / 1000 * 1000; clk_set_rate _ := 0 }.
Definition t18x_boot : bwmgr :=
  snd (bwmgr_init true true true (fun x => Z.min x 1866000000) None (bwmgr_eff_init_t18x 1 15 0 [])).

Lemma t18x_boot_inv : bw_inv bwmgr_ops_t18x (covered 27) t18x_boot.
Proof. apply bwmgr_init_inv; [by apply eff_init_t18x_covered|done|cbn; lia]. Qed.

Definition sample_calls : list (Z * bw_call) :=
  [(1, Register TEGRA_BWMGR_CLIENT_CAMERA); (3, Register 16); (3, Unregister (Some 16));
   (1, SetEmc (Some TEGRA_BWMGR_CLIENT_CAMERA) 300000000 TEGRA_BWMGR_SET_EMC_SHARED_BW_ISO);
   (2, SetEmc (Some 16) 800000000 TEGRA_BWMGR_SET_EMC_FLOOR); (2, SetEmc None 5 7)].

Lemma bwmgr_rate_current_witness :
  rates (match exec_calls bwmgr_ops_t18x sample_calls t18x_boot with Some (_, b) => b | None => t18x_boot end)
    = [800000000; 600000000] /\
  exists b', exec_calls bwmgr_ops_t18x sample_calls t18x_boot = Some (tt, b') /\ idle b' /\
    up_to_date bwmgr_ops_t18x b'.
Proof.
  split; [vm_compute; reflexivity|]. destruct t18x_boot_inv as (Hb & Hi & _ & Hd).
  destruct (bwmgr_rate_current bwmgr_ops_t18x (covered 27) t18x_boot sample_calls true Hb Hi (fun _ => Hd))
    as (b' & E & _ & Hi' & Hc); [unfold sample_calls; repeat constructor; cbn; lia|].
  exists b'. split; [exact E|]. split; [exact Hi'|]. apply Hc. vm_compute. reflexivity.
Defined.

Lemma bwmgr_update_clk_bounds_witness :
  exists x ret, let b := set_b_lock true (Some 1) t18x_boot in let need := iso_floor bwmgr_ops_t18x b in
    bwmgr_update_clk bwmgr_ops_t18x 1 b = Some (ret, add_rate (u64 (clk_round_rate x)) b) /\
    x <= emc_max_rate b /\
    (forall c, c ∈ bwmgr_client b -> x <= b_iso_cap c /\ x <= Z.max (b_cap c) need) /\
    (fst (effective bwmgr_ops_t18x b) <= x /\
       (forall c, c ∈ bwmgr_client b -> Z.min (b_floor c) (emc_max_rate b) <= x) \/
     x = emc_max_rate b \/
     exists c, c ∈ bwmgr_client b /\ (x = b_iso_cap c \/ x = Z.max (b_cap c) need)) /\
    (forall y, y <= snd (effective bwmgr_ops_t18x b) -> y <= need -> y <= emc_max_rate b ->
       (forall c, c ∈ bwmgr_client b -> y <= b_iso_cap c) -> y <= x).
Proof.
  apply (bwmgr_update_clk_bounds bwmgr_ops_t18x (covered 27) 1 (set_b_lock true (Some 1) t18x_boot)).
  - apply bwmgr_ok_lock. apply t18x_boot_inv.
  - reflexivity.
Defined.

Lemma tegra_bwmgr_set_get_witness :
  exists ret b', tegra_bwmgr_set_emc bwmgr_ops_t18x 1 (Some 16) 0 TEGRA_BWMGR_SET_EMC_CAP t18x_boot = Some (ret, b') /\
    tegra_bwmgr_get_client_info 1 (Some 16) TEGRA_BWMGR_SET_EMC_CAP b' = Some ((0, Some 1866000000), b') /\
    (forall j r, 0 <= j < TEGRA_BWMGR_CLIENT_COUNT -> req_known r = true -> (j, r) <> (16, TEGRA_BWMGR_SET_EMC_CAP) ->
       exists x, tegra_bwmgr_get_client_info 1 (Some j) r t18x_boot = Some ((0, Some x), t18x_boot) /\
                 tegra_bwmgr_get_client_info 1 (Some j) r b' = Some ((0, Some x), b')).
Proof.
  apply (tegra_bwmgr_set_get bwmgr_ops_t18x (covered 27) 1 16 TEGRA_BWMGR_SET_EMC_CAP 0 t18x_boot).
  - apply t18x_boot_inv.
  - split; reflexivity.
  - repeat split; reflexivity.
  - lia.
  - unfold TEGRA_BWMGR_CLIENT_COUNT. lia.
  - reflexivity.
Defined.

Lemma t18x_efficiency_class_witness :
  exists n e bw iso_min, bwmgr_t186_lpddr4_4ch_iso_eff !! n = Some e /\
    (n = O \/ bwmgr_t186_iso_bw_table !!! n <= 25000000 / 1000000) /\
    (forall k, (n < k < 27)%nat -> 25000000 / 1000000 < bwmgr_t186_iso_bw_table !!! k) /\
    t18x_bwmgr_apply_efficiency (bwmgr_eff_init_t18x 1 15 0 []) 100000000 25000000 1866000000 0 0 0 =
      Some (bw, iso_min) /\ iso_min <= bw /\
    (0 < e < 100 -> iso_min = 1866000000 \/ iso_min * e <= 100 * 25000000 < (iso_min + 100) * e).
Proof.
  apply (t18x_efficiency_class (bwmgr_eff_init_t18x 1 15 0 []) 100000000 25000000 1866000000 0 0 0).
  - by apply eff_init_t18x_covered.
  - lia.
  - lia.
  - lia.
Defined.

(** tegra_bwmgr_unregister forgets the requests of the last user of a client but does not ask
    for the rate without them: the floor it had set stays until another client calls. *)
Definition rate_and_last (b : bwmgr) : Z * list Z := (rate bwmgr_ops_t18x b, rates b).
Example unregister_keeps_rate :
  option_map (fun r => rate_and_last r.2)
    (exec_calls bwmgr_ops_t18x
       [(1, Register 16); (1, SetEmc (Some 16) 800000000 TEGRA_BWMGR_SET_EMC_FLOOR);
        (1, Unregister (Some 16))] t18x_boot) = Some (0, [800000000]).
Proof. vm_compute. reflexivity. Qed.
