(* ===== verification/Isomgr.v ===== *)
(** * The isochronous bandwidth manager (drivers/platform/tegra/mc/isomgr.c)

    Clients with real-time needs register with a dedicated bandwidth, reserve what they need
    and realize it; the manager hands out one pool of bandwidth and asks the memory clock's
    manager (Bwmgr.v, part of the state) for the frequency. The rules of a chip are a record
    of operations (IsomgrPlat.v). Kernel: CONFIG_COMMON_CLK, reference counts of type
    atomic_t (before 4.14). A client's private pointer is only handed back by the callback,
    which no code calls; both are left out but for whether a callback was given. *)

From S2P Require Import Prelude Bwmgr.

Definition TEGRA_ISO_CLIENT_DISP_0 : Z := 0.
Definition TEGRA_ISO_CLIENT_DISP_1 : Z := 1.
Definition TEGRA_ISO_CLIENT_DISP_2 : Z := 2.
Definition TEGRA_ISO_CLIENT_VI_0 : Z := 3.
Definition TEGRA_ISO_CLIENT_ISP_A : Z := 5.
Definition TEGRA_ISO_CLIENT_ISP_B : Z := 6.
Definition TEGRA_ISO_CLIENT_BBC_0 : Z := 7.
Definition TEGRA_ISO_CLIENT_TEGRA_CAMERA : Z := 8.
Definition TEGRA_ISO_CLIENT_APE_ADMA : Z := 9.
Definition TEGRA_ISO_CLIENT_EQOS : Z := 10.
Definition TEGRA_ISO_CLIENT_COUNT : Z := 11.
Definition ISOMGR_MAGIC : Z := 1378844.

(** ** State *)

(** struct isomgr_client; [renegotiate]: a callback was given. *)
Record isomgr_client := IsoClient {
  magic : Z; kref : Z; dedi_bw : Z; rsvd_bw : Z; real_bw : Z; lti : Z; lto : Z; rsvd_mf : Z; real_mf : Z; real_mf_rq : Z; renegotiate : bool; realize : bool; sleep_bw : Z; margin_bw : Z; limit_bw_percentage : Z; bwmgr_handle : option Z }.
Definition set_kref (x : Z) (c : isomgr_client) : isomgr_client :=
  IsoClient (magic c) x (dedi_bw c) (rsvd_bw c) (real_bw c) (lti c) (lto c) (rsvd_mf c) (real_mf c)
    (real_mf_rq c) (renegotiate c) (realize c) (sleep_bw c) (margin_bw c) (limit_bw_percentage c)
    (bwmgr_handle c).
Definition set_rsvd_bw (x : Z) (c : isomgr_client) : isomgr_client :=
  IsoClient (magic c) (kref c) (dedi_bw c) x (real_bw c) (lti c) (lto c) (rsvd_mf c) (real_mf c)
    (real_mf_rq c) (renegotiate c) (realize c) (sleep_bw c) (margin_bw c) (limit_bw_percentage c)
    (bwmgr_handle c).
Definition set_real_bw (x : Z) (c : isomgr_client) : isomgr_client :=
  IsoClient (magic c) (kref c) (dedi_bw c) (rsvd_bw c) x (lti c) (lto c) (rsvd_mf c) (real_mf c)
    (real_mf_rq c) (renegotiate c) (realize c) (sleep_bw c) (margin_bw c) (limit_bw_percentage c)
    (bwmgr_handle c).
Definition set_lti (x : Z) (c : isomgr_client) : isomgr_client :=
  IsoClient (magic c) (kref c) (dedi_bw c) (rsvd_bw c) (real_bw c) x (lto c) (rsvd_mf c) (real_mf c)
    (real_mf_rq c) (renegotiate c) (realize c) (sleep_bw c) (margin_bw c) (limit_bw_percentage c)
    (bwmgr_handle c).
Definition set_lto (x : Z) (c : isomgr_client) : isomgr_client :=
  IsoClient (magic c) (kref c) (dedi_bw c) (rsvd_bw c) (real_bw c) (lti c) x (rsvd_mf c) (real_mf c)
    (real_mf_rq c) (renegotiate c) (realize c) (sleep_bw c) (margin_bw c) (limit_bw_percentage c)
    (bwmgr_handle c).
Definition set_rsvd_mf (x : Z) (c : isomgr_client) : isomgr_client :=
  IsoClient (magic c) (kref c) (dedi_bw c) (rsvd_bw c) (real_bw c) (lti c) (lto c) x (real_mf c)
    (real_mf_rq c) (renegotiate c) (realize c) (sleep_bw c) (margin_bw c) (limit_bw_percentage c)
    (bwmgr_handle c).
Definition set_real_mf (x : Z) (c : isomgr_client) : isomgr_client :=
  IsoClient (magic c) (kref c) (dedi_bw c) (rsvd_bw c) (real_bw c) (lti c) (lto c) (rsvd_mf c) x
    (real_mf_rq c) (renegotiate c) (realize c) (sleep_bw c) (margin_bw c) (limit_bw_percentage c)
    (bwmgr_handle c).
Definition set_real_mf_rq (x : Z) (c : isomgr_client) : isomgr_client :=
  IsoClient (magic c) (kref c) (dedi_bw c) (rsvd_bw c) (real_bw c) (lti c) (lto c) (rsvd_mf c)
    (real_mf c) x (renegotiate c) (realize c) (sleep_bw c) (margin_bw c) (limit_bw_percentage c)
    (bwmgr_handle c).
Definition set_realize (x : bool) (c : isomgr_client) : isomgr_client :=
  IsoClient (magic c) (kref c) (dedi_bw c) (rsvd_bw c) (real_bw c) (lti c) (lto c) (rsvd_mf c)
    (real_mf c) (real_mf_rq c) (renegotiate c) x (sleep_bw c) (margin_bw c) (limit_bw_percentage c)
    (bwmgr_handle c).
Definition set_sleep_bw (x : Z) (c : isomgr_client) : isomgr_client :=
  IsoClient (magic c) (kref c) (dedi_bw c) (rsvd_bw c) (real_bw c) (lti c) (lto c) (rsvd_mf c)
    (real_mf c) (real_mf_rq c) (renegotiate c) (realize c) x (margin_bw c) (limit_bw_percentage c)
    (bwmgr_handle c).
Definition set_margin_bw (x : Z) (c : isomgr_client) : isomgr_client :=
  IsoClient (magic c) (kref c) (dedi_bw c) (rsvd_bw c) (real_bw c) (lti c) (lto c) (rsvd_mf c)
    (real_mf c) (real_mf_rq c) (renegotiate c) (realize c) (sleep_bw c) x (limit_bw_percentage c)
    (bwmgr_handle c).
Definition set_limit (x : Z) (c : isomgr_client) : isomgr_client :=
  IsoClient (magic c) (kref c) (dedi_bw c) (rsvd_bw c) (real_bw c) (lti c) (lto c) (rsvd_mf c)
    (real_mf c) (real_mf_rq c) (renegotiate c) (realize c) (sleep_bw c) (margin_bw c) x
    (bwmgr_handle c).
Definition set_handle (x : option Z) (c : isomgr_client) : isomgr_client :=
  IsoClient (magic c) (kref c) (dedi_bw c) (rsvd_bw c) (real_bw c) (lti c) (lto c) (rsvd_mf c)
    (real_mf c) (real_mf_rq c) (renegotiate c) (realize c) (sleep_bw c) (margin_bw c)
    (limit_bw_percentage c) x.

(** struct isomgr with the other variables of the file, and the memory clock's manager.
    [isoclient_info] has the named entries (client, bandwidth manager's client). *)
Record isomgr := Isomgr {
  iso_locked : bool; iso_task : option Z; iso_handle : option Z; lt_mf : Z; lt_mf_rq : Z; avail_bw : Z; iso_dedi_bw : Z; iso_sleep_bw : Z; max_iso_bw : Z; isomgr_clients : list isomgr_client; client_valid : list bool; isoclient_info : list (Z * Z); test_mode : bool; camera_max_floor_req : bool; iso_bwmgr : bwmgr }.
Definition set_iso_handle (x : option Z) (s : isomgr) : isomgr :=
  Isomgr (iso_locked s) (iso_task s) x (lt_mf s) (lt_mf_rq s) (avail_bw s) (iso_dedi_bw s)
    (iso_sleep_bw s) (max_iso_bw s) (isomgr_clients s) (client_valid s) (isoclient_info s)
    (test_mode s) (camera_max_floor_req s) (iso_bwmgr s).
Definition set_lt_mf (x : Z) (s : isomgr) : isomgr :=
  Isomgr (iso_locked s) (iso_task s) (iso_handle s) x (lt_mf_rq s) (avail_bw s) (iso_dedi_bw s)
    (iso_sleep_bw s) (max_iso_bw s) (isomgr_clients s) (client_valid s) (isoclient_info s)
    (test_mode s) (camera_max_floor_req s) (iso_bwmgr s).
Definition set_lt_mf_rq (x : Z) (s : isomgr) : isomgr :=
  Isomgr (iso_locked s) (iso_task s) (iso_handle s) (lt_mf s) x (avail_bw s) (iso_dedi_bw s)
    (iso_sleep_bw s) (max_iso_bw s) (isomgr_clients s) (client_valid s) (isoclient_info s)
    (test_mode s) (camera_max_floor_req s) (iso_bwmgr s).
Definition set_avail_bw (x : Z) (s : isomgr) : isomgr :=
  Isomgr (iso_locked s) (iso_task s) (iso_handle s) (lt_mf s) (lt_mf_rq s) x (iso_dedi_bw s)
    (iso_sleep_bw s) (max_iso_bw s) (isomgr_clients s) (client_valid s) (isoclient_info s)
    (test_mode s) (camera_max_floor_req s) (iso_bwmgr s).
Definition set_iso_dedi_bw (x : Z) (s : isomgr) : isomgr :=
  Isomgr (iso_locked s) (iso_task s) (iso_handle s) (lt_mf s) (lt_mf_rq s) (avail_bw s) x
    (iso_sleep_bw s) (max_iso_bw s) (isomgr_clients s) (client_valid s) (isoclient_info s)
    (test_mode s) (camera_max_floor_req s) (iso_bwmgr s).
Definition set_iso_sleep_bw (x : Z) (s : isomgr) : isomgr :=
  Isomgr (iso_locked s) (iso_task s) (iso_handle s) (lt_mf s) (lt_mf_rq s) (avail_bw s) (iso_dedi_bw
    s) x (max_iso_bw s) (isomgr_clients s) (client_valid s) (isoclient_info s) (test_mode s)
    (camera_max_floor_req s) (iso_bwmgr s).
Definition set_max_iso_bw (x : Z) (s : isomgr) : isomgr :=
  Isomgr (iso_locked s) (iso_task s) (iso_handle s) (lt_mf s) (lt_mf_rq s) (avail_bw s) (iso_dedi_bw
    s) (iso_sleep_bw s) x (isomgr_clients s) (client_valid s) (isoclient_info s) (test_mode s)
    (camera_max_floor_req s) (iso_bwmgr s).
Definition set_isomgr_clients (x : list isomgr_client) (s : isomgr) : isomgr :=
  Isomgr (iso_locked s) (iso_task s) (iso_handle s) (lt_mf s) (lt_mf_rq s) (avail_bw s) (iso_dedi_bw
    s) (iso_sleep_bw s) (max_iso_bw s) x (client_valid s) (isoclient_info s) (test_mode s)
    (camera_max_floor_req s) (iso_bwmgr s).
Definition set_client_valid (x : list bool) (s : isomgr) : isomgr :=
  Isomgr (iso_locked s) (iso_task s) (iso_handle s) (lt_mf s) (lt_mf_rq s) (avail_bw s) (iso_dedi_bw
    s) (iso_sleep_bw s) (max_iso_bw s) (isomgr_clients s) x (isoclient_info s) (test_mode s)
    (camera_max_floor_req s) (iso_bwmgr s).
Definition set_test_mode (x : bool) (s : isomgr) : isomgr :=
  Isomgr (iso_locked s) (iso_task s) (iso_handle s) (lt_mf s) (lt_mf_rq s) (avail_bw s) (iso_dedi_bw
    s) (iso_sleep_bw s) (max_iso_bw s) (isomgr_clients s) (client_valid s) (isoclient_info s) x
    (camera_max_floor_req s) (iso_bwmgr s).
Definition set_iso_bwmgr (x : bwmgr) (s : isomgr) : isomgr :=
  Isomgr (iso_locked s) (iso_task s) (iso_handle s) (lt_mf s) (lt_mf_rq s) (avail_bw s) (iso_dedi_bw
    s) (iso_sleep_bw s) (max_iso_bw s) (isomgr_clients s) (client_valid s) (isoclient_info s)
    (test_mode s) (camera_max_floor_req s) x.

Definition set_iso_lock (l : bool) (t : option Z) (s : isomgr) : isomgr :=
  Isomgr l t (iso_handle s) (lt_mf s) (lt_mf_rq s) (avail_bw s) (iso_dedi_bw s) (iso_sleep_bw s) (max_iso_bw s) (isomgr_clients s) (client_valid s) (isoclient_info s) (test_mode s) (camera_max_floor_req s) (iso_bwmgr s).

(** A handle: NULL, an error pointer, the dummy of the test mode, or a client. *)
Inductive tegra_isomgr_handle := NULL | ERR | DUMMY | CLIENT (i : Z).

(** struct isomgr_ops, on the index of the client. *)
Record isomgr_ops := IsomgrOps {
  isomgr_plat_init : M isomgr unit;
  isomgr_plat_register : Z -> Z -> M isomgr bool;
  isomgr_plat_unregister : Z -> M isomgr unit;
  isomgr_plat_reserve : Z -> Z -> M isomgr bool;
  isomgr_plat_realize : Z -> M isomgr bool;
  isomgr_max_iso_bw : option (Z -> M isomgr Z) }.

(** A call of the memory clock's manager. *)
Definition bwm {A} (m : M bwmgr A) : M isomgr A := fun s =>
  match m (iso_bwmgr s) with
  | Some (x, b) => Some (x, set_iso_bwmgr b s)
  | None => None
  end.

(** The fields of a client. *)
Definition cp (i : Z) : M isomgr isomgr_client :=
  s ← get; checked (isomgr_clients s !! Z.to_nat i).
Definition upd (i : Z) (f : isomgr_client -> isomgr_client) : M isomgr unit :=
  c ← cp i;
  modify (fun s => set_isomgr_clients (<[Z.to_nat i := f c]> (isomgr_clients s)) s).

Section isomgr.
Context `{ClkOps} (bops : bwmgr_ops) (ops : isomgr_ops) (current : Z).

Definition mc_min_freq (ubw ult : Z) : M isomgr Z :=
  if ubw =? 0 then mret 0
  else f ← bwm (bwmgr_bw_to_freq bops ubw); mret (u32 f).
Definition mc_dvfs_latency (ufreq : Z) : M isomgr Z := bwm (bwmgr_dvfs_latency bops ufreq).

(** ** Locks and handles *)

Definition isomgr_lock : M isomgr bool :=
  s ← get;
  if bool_decide (iso_task s = Some current) then mret false
  else if iso_locked s then BUG
  else modify (set_iso_lock true (Some current));; mret true.

Definition isomgr_unlock : M isomgr bool :=
  s ← get;
  if negb (bool_decide (iso_task s = Some current)) then mret false
  else modify (set_iso_lock false None);; mret true.

(** mutex_trylock: true when it has taken the lock. *)
Definition trylock : M isomgr bool :=
  s ← get;
  if iso_locked s then mret false
  else modify (set_iso_lock true (iso_task s));; mret true.

Definition is_client_valid (i : Z) : M isomgr bool :=
  if (i <? 0) || (TEGRA_ISO_CLIENT_COUNT <=? i) then mret false
  else
    s ← get;
    v ← checked (client_valid s !! Z.to_nat i);
    c ← cp i;
    mret (v && bool_decide (bwmgr_handle c <> None)).

(** VALIDATE_HANDLE: the index of the client, or none. *)
Definition VALIDATE_HANDLE (h : tegra_isomgr_handle) : M isomgr (option Z) :=
  match h with
  | CLIENT i =>
      v ← is_client_valid i;
      if negb v then mret None
      else c ← cp i; mret (if magic c =? ISOMGR_MAGIC then Some i else None)
  | _ => mret None
  end.

(** ** The memory clock *)

Definition max_real_mf (l : list isomgr_client) : Z := fold_left (fun m c => Z.max m (real_mf c)) l 0.

(** What the second loop does for client [i]. *)
Definition update_client_clock (emc_max_rate i : Z) : M isomgr unit :=
  s ← get;
  c ← cp i;
  (if (i =? TEGRA_ISO_CLIENT_TEGRA_CAMERA) && camera_max_floor_req s then
     bwm (tegra_bwmgr_set_emc bops current (bwmgr_handle c) (if real_mf c =? 0 then 0 else emc_max_rate)
            TEGRA_BWMGR_SET_EMC_FLOOR);; mret tt
   else mret tt);;
  if real_mf c =? real_mf_rq c then mret tt
  else if bool_decide (bwmgr_handle c = None) then mret tt
  else
    (if limit_bw_percentage c =? 100 then mret tt
     else if limit_bw_percentage c =? 0 then BUG
     else
       let floor_freq := u64 (u64 (real_mf c) * 1000 * 100) / limit_bw_percentage c in
       bwm (tegra_bwmgr_set_emc bops current (bwmgr_handle c) floor_freq TEGRA_BWMGR_SET_EMC_FLOOR);;
       mret tt);;
    ret ← bwm (tegra_bwmgr_set_emc bops current (bwmgr_handle c) (u64 (s32 (real_mf c * 1000)))
                 TEGRA_BWMGR_SET_EMC_SHARED_BW_ISO);
    if ret =? 0 then upd i (set_real_mf_rq (real_mf c)) else mret tt.

Fixpoint update_clocks (emc_max_rate i : Z) (n : nat) : M isomgr unit :=
  match n with
  | O => mret tt
  | S n => update_client_clock emc_max_rate i;; update_clocks emc_max_rate (i + 1) n
  end.

Definition update_mc_clock : M isomgr unit :=
  emc_max_rate ← bwm tegra_bwmgr_get_max_emc_rate;
  taken ← trylock;
  if taken : bool then mret tt
  else
    modify (fun s => set_lt_mf (max_real_mf (isomgr_clients s)) s);;
    s ← get;
    (if lt_mf_rq s =? lt_mf s then mret tt
     else
       ret ← bwm (tegra_bwmgr_set_emc bops current (iso_handle s) (u64 (s32 (lt_mf s * 1000)))
                    TEGRA_BWMGR_SET_EMC_FLOOR);
       if ret =? 0 then modify (set_lt_mf_rq (lt_mf s)) else mret tt);;
    update_clocks emc_max_rate 0 (Z.to_nat TEGRA_ISO_CLIENT_COUNT).

(** ** Reference counts *)

Definition purge_isomgr_client (c : isomgr_client) : isomgr_client :=
  IsoClient 0 0 0 0 0 (lti c) (lto c) 0 0 (real_mf_rq c) false false 0 0 (limit_bw_percentage c)
    (bwmgr_handle c).

Definition unregister_iso_client (i : Z) : M isomgr unit :=
  taken ← trylock;
  if taken : bool then mret tt
  else
    c ← cp i;
    if realize c then mret tt
    else
      isomgr_plat_unregister ops i;;
      modify (fun s => set_iso_dedi_bw (s32 (iso_dedi_bw s - dedi_bw c)) s);;
      upd i purge_isomgr_client;;
      update_mc_clock.

Definition kref_put (i : Z) : M isomgr unit :=
  upd i (fun c => set_kref (s32 (kref c - 1)) c);;
  c ← cp i;
  if kref c =? 0 then unregister_iso_client i else mret tt.

(** OBJ_REF_INC_NOT_ZERO *)
Definition inc_not_zero (i : Z) : M isomgr bool :=
  c ← cp i;
  if kref c =? 0 then mret false
  else upd i (set_kref (s32 (kref c + 1)));; mret true.

(** ** The operations *)

Definition __tegra_isomgr_register (client udedi_bw : Z) (reneg : bool) : M isomgr tegra_isomgr_handle :=
  let dedi := s32 udedi_bw in
  v ← is_client_valid client;
  if negb v then mret ERR
  else if (udedi_bw =? 0) && negb reneg then mret ERR
  else
    ok ← isomgr_lock;
    if negb ok then mret ERR
    else
      c ← cp client;
      let fail_unlock : M isomgr tegra_isomgr_handle := (isomgr_unlock;; mret ERR) in
      if negb (kref c =? 0) then fail_unlock
      else
        ok ← isomgr_plat_register ops (u32 dedi) client;
        if negb ok then fail_unlock
        else
          upd client (fun c =>
            IsoClient ISOMGR_MAGIC 1 dedi 0 0 (lti c) (lto c) 0 0 (real_mf_rq c) reneg false 0 0
              (limit_bw_percentage c) (bwmgr_handle c));;
          modify (fun s => set_iso_dedi_bw (s32 (iso_dedi_bw s + dedi)) s);;
          ok ← isomgr_unlock;
          mret (if ok : bool then CLIENT client else ERR).

Definition tegra_isomgr_register (client udedi_bw : Z) (reneg : bool) : M isomgr tegra_isomgr_handle :=
  s ← get;
  if test_mode s then mret DUMMY else __tegra_isomgr_register client udedi_bw reneg.

Definition __tegra_isomgr_unregister (h : tegra_isomgr_handle) : M isomgr unit :=
  v ← VALIDATE_HANDLE h;
  match v with
  | None => mret tt
  | Some i =>
      ok ← isomgr_lock;
      if negb ok then mret tt else kref_put i;; isomgr_unlock;; mret tt
  end.

Definition tegra_isomgr_unregister (h : tegra_isomgr_handle) : M isomgr unit :=
  s ← get;
  if test_mode s then mret tt else __tegra_isomgr_unregister h.

(** The end of reserve and realize, whatever the unlocking says. *)
Definition put_unlock (i r : Z) : M isomgr Z :=
  kref_put i;; isomgr_unlock;; mret r.

Definition __tegra_isomgr_reserve (h : tegra_isomgr_handle) (ubw ult : Z) : M isomgr Z :=
  let bw := s32 ubw in
  v ← VALIDATE_HANDLE h;
  match v with
  | None => mret 0
  | Some i =>
      ok ← isomgr_lock;
      if negb ok then mret 0
      else
        ok ← inc_not_zero i;
        if negb ok then isomgr_unlock;; mret 0
        else
          c ← cp i;
          if (u32 (rsvd_bw c) =? ubw) && (u32 (lti c) =? ult) then
            kref_put i;;
            ok ← isomgr_unlock;
            c ← cp i;
            mret (if ok : bool then u32 (lto c) else 0)
          else if realize c then put_unlock i 0
          else if negb (renegotiate c) && (dedi_bw c <? bw) then put_unlock i 0
          else
            ok ← isomgr_plat_reserve ops i (u32 bw);
            if negb ok then put_unlock i 0
            else
              mf ← mc_min_freq ubw ult;
              dvfs_latency ← mc_dvfs_latency mf;
              upd i (fun c => set_rsvd_bw bw (set_rsvd_mf (s32 mf) (set_lto (s32 dvfs_latency)
                                (set_lti (s32 ult) c))));;
              put_unlock i dvfs_latency
  end.

Definition tegra_isomgr_reserve (h : tegra_isomgr_handle) (ubw ult : Z) : M isomgr Z :=
  s ← get;
  if test_mode s then mret 1 else __tegra_isomgr_reserve h ubw ult.

Definition __tegra_isomgr_realize (h : tegra_isomgr_handle) : M isomgr Z :=
  v ← VALIDATE_HANDLE h;
  match v with
  | None => mret 0
  | Some i =>
      ok ← isomgr_lock;
      if negb ok then mret 0
      else
        ok ← inc_not_zero i;
        if negb ok then isomgr_unlock;; mret 0
        else
          c ← cp i;
          if (rsvd_bw c =? real_bw c) && (rsvd_mf c =? real_mf c) then
            kref_put i;;
            ok ← isomgr_unlock;
            c ← cp i;
            mret (if ok : bool then u32 (lto c) else 0)
          else
            ok ← isomgr_plat_realize ops i;
            if negb ok then put_unlock i 0
            else
              c ← cp i;
              upd i (set_realize false);;
              update_mc_clock;;
              put_unlock i (u32 (lto c))
  end.

Definition tegra_isomgr_realize (h : tegra_isomgr_handle) : M isomgr Z :=
  s ← get;
  if test_mode s then mret 1 else __tegra_isomgr_realize h.

(** The case analysis of set_margin: the result, and the new margin and available bandwidth. *)
Definition margin_step (bw : Z) (c : isomgr_client) (s : isomgr) : Z * Z * Z :=
  let avail := avail_bw s in
  if u32 (dedi_bw c) <? bw then (- EINVAL, margin_bw c, avail)
  else if bw <=? u32 (real_bw c) then
    (0, s32 bw, if real_bw c <? margin_bw c then s32 (avail + s32 (margin_bw c - real_bw c)) else avail)
  else if bw <=? u32 (margin_bw c) then
    if real_bw c <? margin_bw c then (- EINVAL, margin_bw c, avail)
    else
      let avail := s32 (avail + u32 (margin_bw c - bw)) in
      ((if real_bw c <? s32 bw then - EINVAL else 0), s32 bw, avail)
  else
    let high_bw := if real_bw c <? margin_bw c then margin_bw c else real_bw c in
    if u32 (bw - high_bw) <=? u32 (s32 (avail - iso_sleep_bw s))
    then (0, s32 bw, s32 (avail - u32 (bw - high_bw)))
    else (- EINVAL, margin_bw c, avail).

Definition __tegra_isomgr_set_margin (client bw : Z) (wait : bool) : M isomgr Z :=
  v ← is_client_valid client;
  if negb v then mret (- EINVAL)
  else
    ok ← isomgr_lock;
    if negb ok then mret (- EINVAL)
    else
      ok ← inc_not_zero client;
      if negb ok then isomgr_unlock;; mret (- EINVAL)
      else
        c ← cp client;
        s ← get;
        let '(ret, margin, avail) := margin_step bw c s in
        upd client (set_margin_bw margin);;
        modify (set_avail_bw avail);;
        kref_put client;;
        isomgr_unlock;;
        mret ret.

Definition tegra_isomgr_set_margin (client bw : Z) (wait : bool) : M isomgr Z :=
  s ← get;
  if test_mode s then mret 0 else __tegra_isomgr_set_margin client bw wait.

Definition __tegra_isomgr_get_imp_time (client bw : Z) : M isomgr Z :=
  v ← is_client_valid client;
  s ← get;
  mret (if negb v then - EINVAL else if bw <=? u32 (avail_bw s) then 0 else 100).

Definition tegra_isomgr_get_imp_time (client bw : Z) : M isomgr Z :=
  s ← get;
  if test_mode s then mret 0 else __tegra_isomgr_get_imp_time client bw.

Definition UINT_MAX : Z := 4294967295.
Definition tegra_isomgr_get_available_iso_bw : M isomgr Z :=
  s ← get; mret (if test_mode s then UINT_MAX else u32 (avail_bw s)).

Definition __tegra_isomgr_get_total_iso_bw (client : Z) : M isomgr Z :=
  match isomgr_max_iso_bw ops with
  | Some f => f client
  | None => s ← get; mret (max_iso_bw s)
  end.
Definition tegra_isomgr_get_total_iso_bw (client : Z) : M isomgr Z :=
  s ← get;
  if test_mode s then mret UINT_MAX else __tegra_isomgr_get_total_iso_bw client.

(** ** Start-up and test mode *)

(** The handles of the clients, up to the first that bwmgr refuses. *)
Fixpoint register_clients (l : list (Z * Z)) : M isomgr unit :=
  match l with
  | [] => mret tt
  | (i, id) :: l =>
      upd i (set_kref 0);;
      h ← bwm (tegra_bwmgr_register current id);
      upd i (set_handle h);;
      if bool_decide (h = None) then mret tt else register_clients l
  end.

(** From the state that the chip's start-up code leaves. *)
Definition isomgr_init : M isomgr unit :=
  modify (fun s =>
    set_client_valid (fold_left (fun v ci => <[Z.to_nat ci.1 := true]> v) (isoclient_info s) (client_valid s)) s);;
  h ← bwm (tegra_bwmgr_register current TEGRA_BWMGR_CLIENT_ISOMGR);
  modify (set_iso_handle h);;
  if bool_decide (h = None) then modify (set_test_mode true)
  else
    isomgr_plat_init ops;;
    s ← get;
    register_clients (isoclient_info s).

(** The loop of enable_test_mode for one client: unregister until no reference is left. *)
Fixpoint retry (fuel : nat) (i : Z) : M isomgr unit :=
  match fuel with
  | O => BUG
  | S fuel =>
      __tegra_isomgr_unregister (CLIENT i);;
      c ← cp i;
      if kref c =? 0 then mret tt else retry fuel i
  end.
Fixpoint unregister_all (fuel : nat) (l : list Z) : M isomgr unit :=
  match l with
  | [] => mret tt
  | i :: l =>
      s ← get;
      v ← checked (client_valid s !! Z.to_nat i);
      (if v : bool then retry fuel i else mret tt);;
      unregister_all fuel l
  end.
Definition tegra_isomgr_enable_test_mode (fuel : nat) : M isomgr Z :=
  ok ← isomgr_lock;
  if negb ok then mret (- EINVAL)
  else
    modify (set_test_mode true);;
    ok ← isomgr_unlock;
    if negb ok then mret (- EINVAL)
    else unregister_all fuel (seqZ 0 TEGRA_ISO_CLIENT_COUNT);; mret 0.
End isomgr.
