(* ===== verification/IsomgrPlat.v ===== *)
(** * The rules of the chips (isomgr-pre_t19x.c, isomgr-t19x.c)

    Before Tegra194 the manager keeps account of one pool of bandwidth; on Tegra194 it asks
    the memory clock's manager whether a frequency for all demands exists. *)

From S2P Require Import Prelude Bwmgr Isomgr.

Section plat.
Context (bops : bwmgr_ops).

(** ** Before Tegra194 *)

Definition pre_t19x_iso_plat_init : M isomgr unit :=
  s ← get;
  if negb (max_iso_bw s =? 0) then mret tt
  else
    rate ← bwm tegra_bwmgr_get_max_emc_rate;
    let max_emc_clk := u32 (rate / 1000) in
    bw ← bwm (bwmgr_freq_to_bw bops max_emc_clk);
    pct ← bwm bwmgr_iso_bw_percentage_max;
    let max_bw := u32 (u32 bw * pct) / 100 in
    modify (set_max_iso_bw max_bw);;
    modify (set_avail_bw (s32 max_bw)).

Definition pre_t19x_iso_plat_register (dedi client : Z) : M isomgr bool :=
  s ← get;
  mret (negb (u32 (max_iso_bw s - iso_dedi_bw s) <? dedi)).

Definition pre_t19x_iso_plat_unregister (i : Z) : M isomgr unit :=
  c ← cp i;
  modify (fun s => set_avail_bw
    (s32 (avail_bw s + (if margin_bw c <? real_bw c then real_bw c else margin_bw c))) s).

Definition pre_t19x_iso_plat_reserve (i bw : Z) : M isomgr bool :=
  c ← cp i;
  s ← get;
  if negb (bw <=? u32 (margin_bw c)) && (u32 (dedi_bw c) <? bw) &&
     (u32 (avail_bw s + real_bw c - iso_sleep_bw s) <? bw)
  then mret false
  else
    rate ← bwm tegra_bwmgr_get_max_emc_rate;
    max_emc_bw ← bwm (bwmgr_freq_to_bw bops (rate / 1000));
    let bw_check := u64 (u32 max_emc_bw * limit_bw_percentage c) / 100 in
    mret (negb (bw_check <? bw)).

(** What a client holds: the larger of its realized bandwidth and its margin. *)
Definition held (c : isomgr_client) : Z :=
  if margin_bw c <=? real_bw c then real_bw c else margin_bw c.

(** SANITY_CHECK_AVAIL_BW *)
Definition sanity (s : isomgr) : bool :=
  let t := fold_left (fun t c => s32 (t + held c)) (isomgr_clients s) 0 in
  u32 (t + avail_bw s) =? max_iso_bw s.

Definition pre_t19x_iso_plat_realize (i : Z) : M isomgr bool :=
  c ← cp i;
  (if margin_bw c <? real_bw c
   then modify (fun s => set_avail_bw (s32 (avail_bw s + s32 (real_bw c - margin_bw c))) s)
   else mret tt);;
  upd i (fun c => set_realize true (set_real_bw 0 c));;
  s ← get;
  if max_iso_bw s <? u32 (avail_bw s) then mret false
  else if rsvd_bw c <=? margin_bw c then
    if negb (sleep_bw c =? 0) then mret false
    else upd i (fun c => set_real_mf (rsvd_mf c) (set_real_bw (rsvd_bw c) c));; mret true
  else if rsvd_bw c <=? s32 (avail_bw s + margin_bw c) then
    let delta_bw := s32 (rsvd_bw c - margin_bw c) in
    modify (fun s => set_avail_bw (s32 (avail_bw s - delta_bw)) s);;
    upd i (fun c => set_real_mf (rsvd_mf c) (set_real_bw (rsvd_bw c) c));;
    (if sleep_bw c =? 0 then mret tt
     else
       modify (fun s => set_iso_sleep_bw (s32 (iso_sleep_bw s - delta_bw)) s);;
       upd i (fun c => set_sleep_bw (s32 (sleep_bw c - delta_bw)) c));;
    c ← cp i;
    s ← get;
    if negb (sleep_bw c =? 0) then mret false
    else if avail_bw s <? 0 then mret false
    else mret (sanity s)
  else mret false.

Definition isomgr_ops_pre_t19x : isomgr_ops := {|
  isomgr_plat_init := pre_t19x_iso_plat_init;
  isomgr_plat_register := pre_t19x_iso_plat_register;
  isomgr_plat_unregister := pre_t19x_iso_plat_unregister;
  isomgr_plat_reserve := pre_t19x_iso_plat_reserve;
  isomgr_plat_realize := pre_t19x_iso_plat_realize;
  isomgr_max_iso_bw := None |}.

(** ** Tegra194 *)

Definition iso_is_disp (c : Z) : bool :=
  (c =? TEGRA_ISO_CLIENT_DISP_0) || (c =? TEGRA_ISO_CLIENT_DISP_1) || (c =? TEGRA_ISO_CLIENT_DISP_2).

(** The demands of the displays, of the camera and of the others. *)
Definition add_demand (c hz : Z) (d : Z * Z * Z) : Z * Z * Z :=
  let '(nvdis, vi, other) := d in
  if iso_is_disp c then (u64 (nvdis + hz), vi, other)
  else if c =? TEGRA_ISO_CLIENT_TEGRA_CAMERA then (nvdis, u64 (vi + hz), other)
  else (nvdis, vi, u64 (other + hz)).

Fixpoint add_demands (skip : Z) (info : list (Z * Z)) (d : Z * Z * Z) : M isomgr (Z * Z * Z) :=
  match info with
  | [] => mret d
  | (c, _) :: info =>
      if c =? skip then add_demands skip info d
      else
        x ← cp c;
        add_demands skip info (add_demand c (s32 (Z.max (rsvd_mf x) (real_mf x) * 1000)) d)
  end.

Definition is_isomgr_request_possible (reserve : bool) (bw client : Z) : M isomgr bool :=
  f ← bwm (bwmgr_bw_to_freq bops bw);
  let min_freq := u32 f in
  let d := add_demand client (u32 (min_freq * 1000)) (0, 0, 0) in
  s ← get;
  d ← (if reserve then add_demands client (isoclient_info s) d else mret d);
  let '(nvdis, vi, other) := d in
  ret ← bwm (bwmgr_get_lowest_iso_emc_freq bops (s64 (nvdis + vi + other)) (s64 nvdis) (s64 vi));
  mret (negb (ret =? 0)).

Definition t19x_iso_plat_realize (i : Z) : M isomgr bool :=
  upd i (fun c => set_real_mf (rsvd_mf c) (set_real_bw (rsvd_bw c) (set_realize true c)));;
  mret true.

Definition isomgr_ops_t19x : isomgr_ops := {|
  isomgr_plat_init := mret tt;
  isomgr_plat_register := fun dedi client => is_isomgr_request_possible false dedi client;
  isomgr_plat_unregister := fun _ => mret tt;
  isomgr_plat_reserve := fun i bw => is_isomgr_request_possible true bw i;
  isomgr_plat_realize := t19x_iso_plat_realize;
  isomgr_max_iso_bw := Some (fun c => bwm (tegra_bwmgr_get_max_iso_bw bops c)) |}.
End plat.

(** ** The clients of the chips, with their numbers in emc_bwmgr.h *)

Inductive tegra_chipid := TEGRA114 | TEGRA148 | TEGRA124 | TEGRA132 | TEGRA210 | TEGRA186 | TEGRA194 | OTHER_CHIP.

(** The tables of the chips before Tegra210 name no client of the bandwidth manager. *)
Definition tegra11x_isoclients : list (Z * Z) :=
  [(TEGRA_ISO_CLIENT_DISP_0, 0); (TEGRA_ISO_CLIENT_DISP_1, 0); (TEGRA_ISO_CLIENT_VI_0, 0)].
Definition tegra14x_isoclients : list (Z * Z) :=
  [(TEGRA_ISO_CLIENT_DISP_0, 0); (TEGRA_ISO_CLIENT_DISP_1, 0); (TEGRA_ISO_CLIENT_VI_0, 0);
   (TEGRA_ISO_CLIENT_BBC_0, 0)].
Definition tegra12x_isoclients : list (Z * Z) :=
  [(TEGRA_ISO_CLIENT_DISP_0, 0); (TEGRA_ISO_CLIENT_DISP_1, 0); (TEGRA_ISO_CLIENT_VI_0, 0);
   (TEGRA_ISO_CLIENT_ISP_A, 0); (TEGRA_ISO_CLIENT_ISP_B, 0); (TEGRA_ISO_CLIENT_TEGRA_CAMERA, 0)].
Definition tegra21x_isoclients : list (Z * Z) :=
  [(TEGRA_ISO_CLIENT_DISP_0, TEGRA_BWMGR_CLIENT_DISP0); (TEGRA_ISO_CLIENT_DISP_1, TEGRA_BWMGR_CLIENT_DISP1);
   (TEGRA_ISO_CLIENT_VI_0, 24); (TEGRA_ISO_CLIENT_ISP_A, TEGRA_BWMGR_CLIENT_ISPA);
   (TEGRA_ISO_CLIENT_ISP_B, 26); (TEGRA_ISO_CLIENT_TEGRA_CAMERA, TEGRA_BWMGR_CLIENT_CAMERA)].
Definition tegra18x_isoclients : list (Z * Z) :=
  [(TEGRA_ISO_CLIENT_DISP_0, TEGRA_BWMGR_CLIENT_DISP0); (TEGRA_ISO_CLIENT_DISP_1, TEGRA_BWMGR_CLIENT_DISP1);
   (TEGRA_ISO_CLIENT_DISP_2, TEGRA_BWMGR_CLIENT_DISP2); (TEGRA_ISO_CLIENT_ISP_A, TEGRA_BWMGR_CLIENT_ISPA);
   (TEGRA_ISO_CLIENT_TEGRA_CAMERA, TEGRA_BWMGR_CLIENT_CAMERA);
   (TEGRA_ISO_CLIENT_APE_ADMA, TEGRA_BWMGR_CLIENT_APE_ADMA); (TEGRA_ISO_CLIENT_EQOS, TEGRA_BWMGR_CLIENT_EQOS)].
Definition tegra19x_isoclients : list (Z * Z) :=
  [(TEGRA_ISO_CLIENT_DISP_0, TEGRA_BWMGR_CLIENT_DISP0); (TEGRA_ISO_CLIENT_DISP_1, TEGRA_BWMGR_CLIENT_DISP1);
   (TEGRA_ISO_CLIENT_DISP_2, TEGRA_BWMGR_CLIENT_DISP2); (TEGRA_ISO_CLIENT_ISP_A, TEGRA_BWMGR_CLIENT_ISPA);
   (TEGRA_ISO_CLIENT_TEGRA_CAMERA, TEGRA_BWMGR_CLIENT_CAMERA);
   (TEGRA_ISO_CLIENT_APE_ADMA, TEGRA_BWMGR_CLIENT_APE_ADMA); (TEGRA_ISO_CLIENT_EQOS, TEGRA_BWMGR_CLIENT_EQOS)].

(** The table and the clients' limits; the limit of an unknown chip stays 0. *)
Definition get_iso_client_info (cid : tegra_chipid) : list (Z * Z) * (Z -> Z) :=
  match cid with
  | TEGRA114 => (tegra11x_isoclients, fun _ => 100)
  | TEGRA148 => (tegra14x_isoclients, fun _ => 100)
  | TEGRA124 | TEGRA132 => (tegra12x_isoclients, fun _ => 100)
  | TEGRA210 => (tegra21x_isoclients, fun _ => 100)
  | TEGRA186 => (tegra18x_isoclients, fun i => if i =? TEGRA_ISO_CLIENT_TEGRA_CAMERA then 10 else 100)
  | _ => ([], fun _ => 0)
  end.
Definition t19x_get_iso_client_info : list (Z * Z) * (Z -> Z) := (tegra19x_isoclients, fun _ => 100).

(** The state before isomgr_init, with a pool of [pool] (CONFIG_TEGRA_ISOMGR_POOL_KB_PER_SEC),
    and the rules that isomgr_init picks. *)
Definition isomgr_reset (pool : Z) (info : list (Z * Z)) (limit : Z -> Z) (floor_req : bool) (b : bwmgr)
    : isomgr :=
  Isomgr false None None 0 0 (s32 pool) 0 0 (u32 pool)
    (map (fun i => IsoClient 0 0 0 0 0 0 0 0 0 0 false false 0 0 (limit i) None) (seqZ 0 TEGRA_ISO_CLIENT_COUNT))
    (replicate (Z.to_nat TEGRA_ISO_CLIENT_COUNT) false) info false floor_req b.
Definition chip_isomgr (bops : bwmgr_ops) (cid : tegra_chipid) (pool : Z) (b : bwmgr) : isomgr_ops * isomgr :=
  match cid with
  | TEGRA194 =>
      let '(info, limit) := t19x_get_iso_client_info in
      (isomgr_ops_t19x bops, isomgr_reset pool info limit true b)
  | _ =>
      let '(info, limit) := get_iso_client_info cid in
      (isomgr_ops_pre_t19x bops, isomgr_reset pool info limit false b)
  end.
