(* ===== verification/BwmgrT19x.v ===== *)
(** * The memory clock's bandwidth manager on Tegra194 (emc_bwmgr-t19x.c)

    The frequency for isochronous clients comes from tables of what the displays and the
    camera can have at each memory frequency, that for all clients from an efficiency per
    frequency. Theorems: the lowest admissible frequency is found, and lower demands never
    need a higher one. *)

From S2P Require Import Prelude Bwmgr BwmgrFacts Isomgr.

(** ** Tables, an entry per frequency (in MHz) *)

Definition bwmgr_t194_dram_freq_table : list Z :=
  [68; 102; 204; 408; 600; 792; 924; 1056; 1200; 1600; 1866; 2133].
Definition bwmgr_t194_8ch_ecc_4X_1rank_eff : list Z :=
  [20; 20; 20; 20; 20; 20; 30; 30; 30; 55; 55; 60].
Definition bwmgr_t194_4ch_ecc_4X_1rank_eff : list Z :=
  [20; 20; 20; 20; 20; 20; 30; 30; 30; 55; 55; 60].
Definition bwmgr_t194_16ch_ecc_4X_1rank_eff : list Z :=
  [20; 20; 20; 20; 20; 20; 30; 30; 30; 55; 55; 60].
Definition bwmgr_t194_8ch_4X_1rank_eff : list Z := [30; 30; 30; 30; 30; 30; 40; 40; 40; 70; 70; 70].
Definition bwmgr_t194_4ch_4X_1rank_eff : list Z := [30; 30; 30; 30; 30; 30; 40; 40; 40; 70; 70; 70].
Definition bwmgr_t194_16ch_4X_1rank_eff : list Z :=
  [30; 30; 30; 30; 30; 30; 40; 40; 40; 70; 70; 70].
Definition bwmgr_t194_8ch_ecc_4X_2rank_eff : list Z :=
  [20; 20; 20; 20; 20; 20; 30; 30; 30; 55; 55; 60].
Definition bwmgr_t194_4ch_ecc_4X_2rank_eff : list Z :=
  [20; 20; 20; 20; 20; 20; 30; 30; 30; 55; 55; 60].
Definition bwmgr_t194_16ch_ecc_4X_2rank_eff : list Z :=
  [20; 20; 20; 20; 20; 20; 30; 30; 30; 55; 55; 60].
Definition bwmgr_t194_8ch_4X_2rank_eff : list Z := [25; 25; 25; 25; 25; 25; 40; 40; 40; 65; 65; 65].
Definition bwmgr_t194_4ch_4X_2rank_eff : list Z := [25; 25; 25; 25; 25; 25; 40; 40; 40; 65; 65; 65].
Definition bwmgr_t194_16ch_4X_2rank_eff : list Z :=
  [30; 30; 30; 30; 30; 30; 35; 35; 35; 65; 65; 65].
Definition bwmgr_t194_8ch_ecc_1X_1rank_eff : list Z :=
  [45; 45; 45; 45; 45; 45; 50; 50; 50; 65; 65; 70].
Definition bwmgr_t194_4ch_ecc_1X_1rank_eff : list Z :=
  [45; 45; 45; 45; 45; 45; 50; 50; 50; 65; 65; 70].
Definition bwmgr_t194_16ch_ecc_1X_1rank_eff : list Z :=
  [40; 40; 40; 40; 40; 40; 50; 50; 50; 65; 65; 70].
Definition bwmgr_t194_8ch_1X_1rank_eff : list Z := [60; 60; 60; 60; 60; 60; 60; 60; 60; 80; 80; 80].
Definition bwmgr_t194_4ch_1X_1rank_eff : list Z := [60; 60; 60; 60; 60; 60; 60; 60; 60; 80; 80; 80].
Definition bwmgr_t194_16ch_1X_1rank_eff : list Z :=
  [60; 60; 60; 60; 60; 60; 60; 60; 60; 80; 80; 80].
Definition bwmgr_t194_8ch_ecc_1X_2rank_eff : list Z :=
  [40; 40; 40; 40; 40; 40; 45; 45; 45; 60; 55; 55].
Definition bwmgr_t194_4ch_ecc_1X_2rank_eff : list Z :=
  [40; 40; 40; 40; 40; 40; 45; 45; 45; 60; 55; 55].
Definition bwmgr_t194_16ch_ecc_1X_2rank_eff : list Z :=
  [40; 40; 40; 40; 40; 40; 50; 50; 50; 60; 55; 55].
Definition bwmgr_t194_8ch_1X_2rank_eff : list Z := [55; 55; 55; 55; 55; 55; 55; 55; 55; 70; 70; 70].
Definition bwmgr_t194_4ch_1X_2rank_eff : list Z := [55; 55; 55; 55; 55; 55; 55; 55; 55; 70; 70; 70].
Definition bwmgr_t194_16ch_1X_2rank_eff : list Z :=
  [55; 55; 55; 55; 55; 55; 55; 55; 55; 70; 70; 70].
Definition bwmgr_t194_lpddr4_8ch_iso_max_nvdis_bw_reqd : list Z :=
  [0; 0; 22; 66; 107; 148; 177; 205; 237; 437; 656; 684].
Definition bwmgr_t194_lpddr4_4ch_iso_max_nvdis_bw_reqd : list Z :=
  [0; 0; 22; 66; 107; 148; 177; 205; 237; 437; 656; 684].
Definition bwmgr_t194_lpddr4_16ch_iso_max_nvdis_bw_reqd : list Z :=
  [0; 0; 11; 33; 53; 74; 88; 102; 167; 347; 361; 375].
Definition bwmgr_t194_lpddr4_8ch_ecc_iso_max_nvdis_bw_reqd : list Z :=
  [0; 0; 26; 80; 131; 169; 196; 222; 251; 397; 494; 591].
Definition bwmgr_t194_lpddr4_4ch_ecc_iso_max_nvdis_bw_reqd : list Z :=
  [0; 0; 26; 80; 131; 169; 196; 222; 251; 397; 494; 591].
Definition bwmgr_t194_lpddr4_16ch_ecc_iso_max_nvdis_bw_reqd : list Z :=
  [0; 0; 14; 43; 70; 98; 116; 135; 156; 250; 312; 375].
Definition bwmgr_t194_lpddr4_8ch_iso_max_vi_bw_reqd : list Z :=
  [0; 0; 14; 42; 68; 95; 113; 131; 151; 279; 279; 279].
Definition bwmgr_t194_lpddr4_4ch_iso_max_vi_bw_reqd : list Z :=
  [0; 0; 14; 42; 68; 95; 113; 131; 151; 279; 279; 279].
Definition bwmgr_t194_lpddr4_16ch_iso_max_vi_bw_reqd : list Z :=
  [0; 0; 8; 24; 40; 55; 66; 76; 88; 139; 139; 139].
Definition bwmgr_t194_lpddr4_8ch_ecc_iso_max_vi_bw_reqd : list Z :=
  [0; 0; 11; 34; 56; 78; 93; 108; 124; 279; 279; 279].
Definition bwmgr_t194_lpddr4_4ch_ecc_iso_max_vi_bw_reqd : list Z :=
  [0; 0; 11; 34; 56; 78; 93; 108; 124; 279; 279; 279].
Definition bwmgr_t194_lpddr4_16ch_ecc_iso_max_vi_bw_reqd : list Z :=
  [0; 0; 6; 19; 31; 43; 52; 60; 69; 139; 139; 139].
Definition bwmgr_t194_lpddr4_8ch_iso_slope : list Z :=
  [-1; -1; -1; -1; -1; -1; -1; -1; -1; -1; -1; -1].
Definition bwmgr_t194_lpddr4_4ch_iso_slope : list Z :=
  [-1; -1; -1; -1; -1; -1; -1; -1; -1; -1; -1; -1].
Definition bwmgr_t194_lpddr4_16ch_iso_slope : list Z :=
  [-1; -1; -1; -1; -1; -1; -1; -1; -1; -1; -1; -1].
Definition bwmgr_t194_lpddr4_8ch_ecc_iso_slope : list Z :=
  [-1; -1; -1; -1; -1; -1; -1; -1; -1; -1; -1; -2].
Definition bwmgr_t194_lpddr4_4ch_ecc_iso_slope : list Z :=
  [-1; -1; -1; -1; -1; -1; -1; -1; -1; -1; -1; -2].
Definition bwmgr_t194_lpddr4_16ch_ecc_iso_slope : list Z :=
  [-1; -1; -1; -1; -1; -1; -1; -1; -1; -1; -1; -1].
Definition bwmgr_t194_lpddr4_8ch_iso_vi_bw_reqd_offset : list Z :=
  [0; 0; 0; 0; 0; 0; 0; 0; 0; 0; 0; 0].
Definition bwmgr_t194_lpddr4_4ch_iso_vi_bw_reqd_offset : list Z :=
  [0; 0; 0; 0; 0; 0; 0; 0; 0; 0; 0; 0].
Definition bwmgr_t194_lpddr4_16ch_iso_vi_bw_reqd_offset : list Z :=
  [0; 0; 0; 0; 0; 0; 0; 0; 0; 0; 0; 37].
Definition bwmgr_t194_lpddr4_8ch_ecc_iso_vi_bw_reqd_offset : list Z :=
  [0; 0; 0; 0; 0; 0; 0; 0; 0; 0; 0; 0].
Definition bwmgr_t194_lpddr4_4ch_ecc_iso_vi_bw_reqd_offset : list Z :=
  [0; 0; 0; 0; 0; 0; 0; 0; 0; 0; 0; 0].
Definition bwmgr_t194_lpddr4_16ch_ecc_iso_vi_bw_reqd_offset : list Z :=
  [0; 0; 0; 0; 0; 0; 0; 0; 0; 0; 0; 37].

(** ** The operations *)

(** Row [i] of the tables: the highest demands of displays and camera, the slope and the
    offset. An access outside a table is a fault. *)
Definition iso_row (d : dram) (i : nat) : option (Z * Z * Z * Z) :=
  max_nvdis ← max_nvdis_bw_reqd d !! i;
  max_vi ← max_vi_bw_reqd d !! i;
  slope ← iso_slope d !! i;
  offset ← vi_bw_reqd_offset d !! i;
  Some (max_nvdis, max_vi, slope, offset).

Definition row_admits (row : Z * Z * Z * Z) (total nvdis vi : Z) : bool :=
  let '(max_nvdis, max_vi, slope, offset) := row in
  (nvdis <=? max_nvdis) && (vi <=? max_vi) && (vi <=? slope * (nvdis - max_nvdis) + offset) &&
  (total <=? slope * (nvdis - max_nvdis) + offset + nvdis).

(** The loop from index [i], where the frequencies left are [l]. *)
Fixpoint best_iso_loop (d : dram) (total nvdis vi : Z) (i : nat) (l : list Z) : option Z :=
  match l with
  | [] => Some 0
  | f :: l =>
      row ← iso_row d i;
      if row_admits row total nvdis vi then Some (u32 (f * 1000000))
      else best_iso_loop d total nvdis vi (S i) l
  end.
(** The demands are of type long: their division rounds towards 0. *)
Definition get_best_iso_freq (d : dram) (total_iso_bw iso_bw_nvdis iso_bw_vi : Z) : option Z :=
  if negb (dram_config_supported d) then Some 0
  else best_iso_loop d (Z.quot total_iso_bw 1000000) (Z.quot iso_bw_nvdis 1000000)
         (Z.quot iso_bw_vi 1000000) 0 bwmgr_t194_dram_freq_table.

(** The width of the memory in bytes per clock. *)
Definition t19x_width (t : bwmgr_dram_types) : Z :=
  match t with
  | DRAM_TYPE_LPDDR4_16CH_ECC | DRAM_TYPE_LPDDR4_16CH => 64
  | DRAM_TYPE_LPDDR4_8CH_ECC | DRAM_TYPE_LPDDR4_8CH => 32
  | _ => 16
  end.
Definition t19x_freq_to_bw (d : dram) (freq : Z) : Z := u64 (freq * t19x_width (dram_type d)).
Definition t19x_bw_to_freq (d : dram) (bw : Z) : Z :=
  u64 (bw + t19x_width (dram_type d) - 1) / t19x_width (dram_type d).

Definition t19x_dvfs_latency (d : dram) (ufreq : Z) : Z := first_pair ufreq (emc_dvfs d) 80000 / 1000.

(** The first frequency that has more than [mhz] after its efficiency. *)
Fixpoint noniso_loop (d : dram) (mhz : Z) (i : nat) (l : list Z) (max_rate : Z) : option Z :=
  match l with
  | [] => Some max_rate
  | f :: l =>
      efficiency ← dram_noniso_eff_table d !! i;
      if mhz <? u32 (f * u8 efficiency) / 100 then Some (u32 (f * 1000000))
      else noniso_loop d mhz (S i) l max_rate
  end.

Definition t19x_bwmgr_apply_efficiency (d : dram) (total_bw iso_bw max_rate usage_flags nvdis vi : Z)
    : option (Z * Z) :=
  total_bw ← (if total_bw =? 0 then Some 0
              else noniso_loop d (total_bw / 1000000) 0 bwmgr_t194_dram_freq_table max_rate);
  iso_bw ← get_best_iso_freq d (s64 iso_bw) (s64 nvdis) (s64 vi);
  Some (Z.max total_bw iso_bw, iso_bw).

Definition DRAM_REFRESH_1X : Z := 0.
Definition DRAM_REFRESH_4X : Z := 1.

Definition set_noniso_table (l : list Z) (d : dram) : dram :=
  Dram (dram_type d) (dram_efficiency d) (dram_num_channels d) (dram_config_supported d)
    (dram_iso_eff_table d) (iso_bw_percentage d) (dram_freq_factor d) (emc_dvfs d) (dram_rank d) l
    (max_nvdis_bw_reqd d) (max_vi_bw_reqd d) (iso_slope d) (vi_bw_reqd_offset d).

(** The efficiency table for a refresh rate, none for other types of memory. *)
Definition eff_table_4X (t : bwmgr_dram_types) (rank2 : bool) : option (list Z) :=
  match t with
  | DRAM_TYPE_LPDDR4_16CH_ECC =>
      Some (if rank2 then bwmgr_t194_16ch_ecc_4X_2rank_eff else bwmgr_t194_16ch_ecc_4X_1rank_eff)
  | DRAM_TYPE_LPDDR4_8CH_ECC =>
      Some (if rank2 then bwmgr_t194_8ch_ecc_4X_2rank_eff else bwmgr_t194_8ch_ecc_4X_1rank_eff)
  | DRAM_TYPE_LPDDR4_4CH_ECC =>
      Some (if rank2 then bwmgr_t194_4ch_ecc_4X_2rank_eff else bwmgr_t194_4ch_ecc_4X_1rank_eff)
  | DRAM_TYPE_LPDDR4_16CH =>
      Some (if rank2 then bwmgr_t194_16ch_4X_2rank_eff else bwmgr_t194_16ch_4X_1rank_eff)
  | DRAM_TYPE_LPDDR4_8CH =>
      Some (if rank2 then bwmgr_t194_8ch_4X_2rank_eff else bwmgr_t194_8ch_4X_1rank_eff)
  | DRAM_TYPE_LPDDR4_4CH =>
      Some (if rank2 then bwmgr_t194_4ch_4X_2rank_eff else bwmgr_t194_4ch_4X_1rank_eff)
  | _ => None
  end.
Definition eff_table_1X (t : bwmgr_dram_types) (rank2 : bool) : option (list Z) :=
  match t with
  | DRAM_TYPE_LPDDR4_16CH_ECC =>
      Some (if rank2 then bwmgr_t194_16ch_ecc_1X_2rank_eff else bwmgr_t194_16ch_ecc_1X_1rank_eff)
  | DRAM_TYPE_LPDDR4_8CH_ECC =>
      Some (if rank2 then bwmgr_t194_8ch_ecc_1X_2rank_eff else bwmgr_t194_8ch_ecc_1X_1rank_eff)
  | DRAM_TYPE_LPDDR4_4CH_ECC =>
      Some (if rank2 then bwmgr_t194_4ch_ecc_1X_2rank_eff else bwmgr_t194_4ch_ecc_1X_1rank_eff)
  | DRAM_TYPE_LPDDR4_16CH =>
      Some (if rank2 then bwmgr_t194_16ch_1X_2rank_eff else bwmgr_t194_16ch_1X_1rank_eff)
  | DRAM_TYPE_LPDDR4_8CH =>
      Some (if rank2 then bwmgr_t194_8ch_1X_2rank_eff else bwmgr_t194_8ch_1X_1rank_eff)
  | DRAM_TYPE_LPDDR4_4CH =>
      Some (if rank2 then bwmgr_t194_4ch_1X_2rank_eff else bwmgr_t194_4ch_1X_1rank_eff)
  | _ => None
  end.
Definition t19x_update_efficiency (d : dram) (dram_refresh_rate : Z) : dram :=
  let table := if dram_refresh_rate =? DRAM_REFRESH_1X then eff_table_1X (dram_type d) (dram_rank d)
               else eff_table_4X (dram_type d) (dram_rank d) in
  match table with Some l => set_noniso_table l d | None => d end.

(** The index of a rate in the table of frequencies, a u8. *)
Definition get_dram_freq_table_idx (emc_rate : Z) : nat :=
  table_idx bwmgr_t194_dram_freq_table (length bwmgr_t194_dram_freq_table - 1) (emc_rate / 1000000).

Definition t19x_get_max_iso_bw (d : dram) (emc_max_rate client : Z) : option Z :=
  let idx := get_dram_freq_table_idx emc_max_rate in
  if (client =? TEGRA_ISO_CLIENT_DISP_0) || (client =? TEGRA_ISO_CLIENT_DISP_1) ||
     (client =? TEGRA_ISO_CLIENT_DISP_2)
  then x ← max_nvdis_bw_reqd d !! idx; Some (u32 (t19x_freq_to_bw d (u32 (x * 1000))))
  else if client =? TEGRA_ISO_CLIENT_TEGRA_CAMERA
  then x ← max_vi_bw_reqd d !! idx; Some (u32 (t19x_freq_to_bw d (u32 (x * 1000))))
  else
    slope ← iso_slope d !! idx;
    x ← max_nvdis_bw_reqd d !! idx;
    offset ← vi_bw_reqd_offset d !! idx;
    Some (u32 (t19x_freq_to_bw d (u32 (u32 (u32 (u32 (slope * x) + offset) - 1) * 1000)))).

Definition bwmgr_ops_t19x : bwmgr_ops := {|
  op_freq_to_bw := t19x_freq_to_bw; op_bw_to_freq := t19x_bw_to_freq;
  op_dvfs_latency := t19x_dvfs_latency; op_apply_efficiency := t19x_bwmgr_apply_efficiency;
  op_get_best_iso_freq := Some get_best_iso_freq; op_update_efficiency := Some t19x_update_efficiency;
  op_get_max_iso_bw := Some t19x_get_max_iso_bw |}.

(** ** Start-up *)

(** The number of bits set, of the lowest [n]; the loop ends when none is left. *)
Fixpoint count_bits (n : nat) (ch : Z) : Z :=
  match n with
  | O => 0
  | S n => Z.land ch 1 + count_bits n (Z.shiftr ch 1)
  end.

(** The type and the tables of a number of channels; other numbers leave the variables as
    they are born, the tables NULL. *)
Definition t19x_config (ecc : bool) (ch_num : Z) : bwmgr_dram_types * (list Z * list Z * list Z * list Z) :=
  if ecc then
    if ch_num =? 16 then
      (DRAM_TYPE_LPDDR4_16CH_ECC,
       (bwmgr_t194_lpddr4_16ch_ecc_iso_max_nvdis_bw_reqd, bwmgr_t194_lpddr4_16ch_ecc_iso_max_vi_bw_reqd,
        bwmgr_t194_lpddr4_16ch_ecc_iso_slope, bwmgr_t194_lpddr4_16ch_ecc_iso_vi_bw_reqd_offset))
    else if ch_num =? 8 then
      (DRAM_TYPE_LPDDR4_8CH_ECC,
       (bwmgr_t194_lpddr4_8ch_ecc_iso_max_nvdis_bw_reqd, bwmgr_t194_lpddr4_8ch_ecc_iso_max_vi_bw_reqd,
        bwmgr_t194_lpddr4_8ch_ecc_iso_slope, bwmgr_t194_lpddr4_8ch_ecc_iso_vi_bw_reqd_offset))
    else if ch_num =? 4 then
      (DRAM_TYPE_LPDDR4_4CH_ECC,
       (bwmgr_t194_lpddr4_4ch_ecc_iso_max_nvdis_bw_reqd, bwmgr_t194_lpddr4_4ch_ecc_iso_max_vi_bw_reqd,
        bwmgr_t194_lpddr4_4ch_ecc_iso_slope, bwmgr_t194_lpddr4_4ch_ecc_iso_vi_bw_reqd_offset))
    else (DRAM_TYPE_NONE, ([], [], [], []))
  else
    if ch_num =? 16 then
      (DRAM_TYPE_LPDDR4_16CH,
       (bwmgr_t194_lpddr4_16ch_iso_max_nvdis_bw_reqd, bwmgr_t194_lpddr4_16ch_iso_max_vi_bw_reqd,
        bwmgr_t194_lpddr4_16ch_iso_slope, bwmgr_t194_lpddr4_16ch_iso_vi_bw_reqd_offset))
    else if ch_num =? 8 then
      (DRAM_TYPE_LPDDR4_8CH,
       (bwmgr_t194_lpddr4_8ch_iso_max_nvdis_bw_reqd, bwmgr_t194_lpddr4_8ch_iso_max_vi_bw_reqd,
        bwmgr_t194_lpddr4_8ch_iso_slope, bwmgr_t194_lpddr4_8ch_iso_vi_bw_reqd_offset))
    else if ch_num =? 4 then
      (DRAM_TYPE_LPDDR4_4CH,
       (bwmgr_t194_lpddr4_4ch_iso_max_nvdis_bw_reqd, bwmgr_t194_lpddr4_4ch_iso_max_vi_bw_reqd,
        bwmgr_t194_lpddr4_4ch_iso_slope, bwmgr_t194_lpddr4_4ch_iso_vi_bw_reqd_offset))
    else (DRAM_TYPE_NONE, ([], [], [], [])).

(** From four registers; [sim]: a simulator or an FPGA, which has 16 channels of LPDDR4. *)
Definition bwmgr_eff_init_t19x (sim : bool) (dram_reg ch_reg ecc_reg rank_reg : Z) (pairs : list (Z * Z)) : dram :=
  let dram := if sim then DRAM_LPDDR4 else Z.land dram_reg 3 in
  let ch_num := if sim then 16 else count_bits 16 (Z.land ch_reg 65535) in
  let rank2 := negb (Z.land rank_reg 1 =? 0) in
  if dram =? DRAM_LPDDR4 then
    let '(t, (nvdis, vi, slope, offset)) := t19x_config (negb (Z.land ecc_reg 1 =? 0)) ch_num in
    Dram t 0 ch_num (4 <=? ch_num) [] 28 (if 4 <=? ch_num then 2 else 0) pairs rank2
      (default [] (eff_table_4X t rank2)) nvdis vi slope offset
  else Dram DRAM_TYPE_NONE 0 ch_num false [] 28 0 pairs rank2 [] [] [] [] [].

(** ** The lowest frequency for isochronous clients *)

(** The memories the start-up code supports, with an efficiency for each frequency. *)
Definition t19x_memory (d : dram) : Prop :=
  dram_config_supported d = true /\ length (dram_noniso_eff_table d) = 12%nat /\
  exists ecc n, (n = 4 \/ n = 8 \/ n = 16) /\
    (dram_type d, (max_nvdis_bw_reqd d, max_vi_bw_reqd d, iso_slope d, vi_bw_reqd_offset d)) = t19x_config ecc n.

Lemma iso_row_total d i : t19x_memory d -> (i < 12)%nat -> exists row, iso_row d i = Some row.
Proof.
  intros (_ & _ & ecc & n & Hn & E) Hi. unfold iso_row.
  destruct ecc, Hn as [->|[->| ->]]; cbn in E; injection E as _ -> -> -> ->;
    (do 12 (destruct i as [|i]; [by eexists|])); lia.
Qed.

(** Row [r'] admits what [r] does, and less. *)
Definition rises (r r' : Z * Z * Z * Z) : Prop :=
  forall t n v t' n' v', t' <= t -> n' <= n -> v' <= v -> row_admits r t n v = true -> row_admits r' t' n' v' = true.

Lemma rises_step N V s o N' V' s' o' :
  s' = -1 -> N <= N' -> V <= V' -> s = -1 -> N + o <= N' + o' -> rises (N, V, s, o) (N', V', s', o').
Proof.
  intros -> ? ? -> ? t n v t' n' v' ? ? ?. unfold row_admits.
  rewrite !andb_true_iff, !Z.leb_le. lia.
Qed.
Lemma rises_steep N V o N' V' s : (s = -1 \/ s = -2) -> N <= N' -> V <= V' -> o = 0 ->
  (s = -1 -> 2 * N <= 2 * N') -> rises (N, V, s, o) (N', V', -2, 0).
Proof.
  intros Hs ? ? -> ? t n v t' n' v' ? ? ?. unfold row_admits. rewrite !andb_true_iff, !Z.leb_le.
  destruct Hs as [->| ->]; lia.
Qed.

Lemma row_rises d i r : t19x_memory d -> iso_row d i = Some r ->
  rises r r /\ forall r', iso_row d (S i) = Some r' -> rises r r'.
Proof.
  intros (_ & _ & ecc & n & Hn & E). unfold iso_row.
  destruct ecc, Hn as [->|[->| ->]]; cbn in E; injection E as _ -> -> -> ->;
    (do 12 (destruct i as [|i];
      [intros Hr; vm_compute in Hr; injection Hr as <-; split; [|intros r' Er; vm_compute in Er; try discriminate Er; injection Er as <-];
       first [apply rises_step; lia|apply rises_steep; lia]|])); done.
Qed.

Lemma rises_trans r1 r2 r3 : rises r1 r2 -> rises r2 r3 -> rises r1 r3.
Proof. intros H12 H23 t n v t' n' v' Ht Hn Hv Ha. by apply (H23 t n v), (H12 t n v). Qed.

Lemma iso_row_range d i r : t19x_memory d -> iso_row d i = Some r -> (i < 12)%nat.
Proof.
  intros (_ & _ & ecc & n & Hn & E) Er. unfold iso_row in Er.
  assert (length (max_nvdis_bw_reqd d) = 12%nat) as <-
    by (destruct ecc, Hn as [->|[->| ->]]; cbn in E; by injection E as _ -> _ _ _).
  destruct (max_nvdis_bw_reqd d !! i) eqn:El; [|done]. by eapply lookup_lt_Some.
Qed.

Lemma rows_rise d i j r r' : t19x_memory d -> (i <= j)%nat ->
  iso_row d i = Some r -> iso_row d j = Some r' -> rises r r'.
Proof.
  intros Hd Hij Er. revert r'. induction Hij as [|j Hij IH]; intros r' Er'.
  - rewrite Er in Er'. injection Er' as <-. by destruct (row_rises d i r Hd Er).
  - pose proof (iso_row_range d _ _ Hd Er'). destruct (iso_row_total d j Hd ltac:(lia)) as [rj Ej].
    apply (rises_trans _ rj); [by apply IH|]. by destruct (row_rises d j rj Hd Ej) as [_ Hn]; apply Hn.
Qed.

(** [k] is the first row from [i] that admits the demands. *)
Definition first_row (d : dram) (t n v : Z) (k : nat) : Prop :=
  (exists row, iso_row d k = Some row /\ row_admits row t n v = true) /\
  forall j row, (j < k)%nat -> iso_row d j = Some row -> row_admits row t n v = false.

Lemma best_iso_loop_spec d t n v i l : (forall k, (i <= k < i + length l)%nat -> exists row, iso_row d k = Some row) ->
  (forall j row, (j < i)%nat -> iso_row d j = Some row -> row_admits row t n v = false) ->
  exists r, best_iso_loop d t n v i l = Some r /\
    ((exists k f, l !! k = Some f /\ r = u32 (f * 1000000) /\ first_row d t n v (i + k)) \/
     r = 0 /\ forall j row, (j < i + length l)%nat -> iso_row d j = Some row -> row_admits row t n v = false).
Proof.
  revert i. induction l as [|f l IH]; intros i Hl Hp; cbn [best_iso_loop].
  { exists 0. split; [done|]. right. split; [done|]. intros j row Hj. apply Hp. cbn in Hj. lia. }
  destruct (Hl i) as [row Er]; [cbn; lia|]. rewrite Er. cbn.
  destruct (row_admits row t n v) eqn:A.
  - eexists. split; [done|]. left. exists O, f. rewrite Nat.add_0_r. split; [done|]. split; [done|].
    split; [by exists row|done].
  - destruct (IH (S i)) as (r & E & Hr).
    + intros k Hk. apply Hl. cbn. lia.
    + intros j row' Hj Ej. destruct (decide (j = i)) as [->|]; [by simplify_eq|]. eapply Hp; [|done]. lia.
    + exists r. split; [done|]. destruct Hr as [(k & f' & Ef & -> & Hk)|[-> Hn]].
      * left. exists (S k), f'. replace (i + S k)%nat with (S i + k)%nat by lia. done.
      * right. split; [done|]. intros j row' Hj. apply Hn. cbn in Hj |- *. lia.
Qed.

(** In units of 10^6, as the tables. *)
Definition mhz (x : Z) : Z := Z.quot x 1000000.

Lemma t194_freq k f : bwmgr_t194_dram_freq_table !! k = Some f -> u32 (f * 1000000) = f * 1000000 /\ 68 <= f <= 2133.
Proof. do 12 (destruct k as [|k]; [intros [= <-]; split; [reflexivity|lia]|]). done. Qed.

Lemma get_best_iso_freq_spec d t n v : t19x_memory d ->
  exists r, get_best_iso_freq d t n v = Some r /\
    ((exists k f, bwmgr_t194_dram_freq_table !! k = Some f /\ r = f * 1000000 /\
        first_row d (mhz t) (mhz n) (mhz v) k) \/
     r = 0 /\ forall j row, iso_row d j = Some row -> row_admits row (mhz t) (mhz n) (mhz v) = false).
Proof.
  intros Hd. unfold get_best_iso_freq. rewrite (proj1 Hd). cbn [negb].
  destruct (best_iso_loop_spec d (mhz t) (mhz n) (mhz v) 0 bwmgr_t194_dram_freq_table) as (r & E & Hr).
  - intros k Hk. apply iso_row_total; [done|]. cbn in Hk. lia.
  - intros j row Hj. lia.
  - exists r. split; [done|]. destruct Hr as [(k & f & Ef & -> & Hk)|[-> Hn]].
    + left. exists k, f. split; [done|]. split; [by apply (t194_freq k)|done].
    + right. split; [done|]. intros j row Ej. apply (Hn j row); [|done]. by eapply iso_row_range.
Qed.

Lemma mhz_mono x y : x <= y -> mhz x <= mhz y.
Proof. intros. by apply Z.quot_le_mono. Qed.

(** C19. On a supported memory the rules answer with the lowest frequency of the table whose row
    admits the demands, and every higher frequency admits them too; or with 0, exactly if no
    frequency admits them. *)
Theorem t19x_best_freq_lowest d t n v : t19x_memory d ->
  exists r, get_best_iso_freq d t n v = Some r /\
    (r = 0 <-> forall j row, iso_row d j = Some row -> row_admits row (mhz t) (mhz n) (mhz v) = false) /\
    (r <> 0 -> exists k f, bwmgr_t194_dram_freq_table !! k = Some f /\ r = f * 1000000 /\
       forall j row, iso_row d j = Some row -> row_admits row (mhz t) (mhz n) (mhz v) = bool_decide (k <= j)%nat).
Proof.
  intros Hd. destruct (get_best_iso_freq_spec d t n v Hd) as (r & E & Hr). exists r. split; [done|].
  destruct Hr as [(k & f & Ef & -> & (row & Er & A) & Hlow)|[-> Hn]]; [|done].
  destruct (t194_freq k f Ef) as [_ Hf]. split.
  - split; [lia|]. intros Hn. specialize (Hn k row Er). congruence.
  - intros _. exists k, f. split; [done|]. split; [done|]. intros j row' Ej.
    destruct (bool_decide_reflect (k <= j)%nat) as [Hkj|Hkj]; [|apply (Hlow j); [lia|done]].
    by apply (rows_rise d k j row row' Hd Hkj Er Ej (mhz t) (mhz n) (mhz v)).
Qed.

(** Lower demands of isochronous clients never need a higher frequency, and can be met if
    the higher ones can. *)
Lemma best_freq_mono d t n v t' n' v' r : t19x_memory d -> t' <= t -> n' <= n -> v' <= v ->
  get_best_iso_freq d t n v = Some r -> r <> 0 ->
  exists r', get_best_iso_freq d t' n' v' = Some r' /\ 0 < r' <= r.
Proof.
  intros Hd Ht Hn Hv E Hr. destruct (get_best_iso_freq_spec d t n v Hd) as (r0 & E0 & H0).
  rewrite E in E0. injection E0 as <-. destruct H0 as [(k & f & Ef & -> & (row & Er & A) & _)|[-> _]]; [|done].
  assert (row_admits row (mhz t') (mhz n') (mhz v') = true) as A'.
  { eapply (proj1 (row_rises d k row Hd Er)); [..|exact A]; by apply mhz_mono. }
  destruct (get_best_iso_freq_spec d t' n' v' Hd) as (r' & E' & H'). exists r'. split; [done|].
  destruct H' as [(k' & f' & Ef' & -> & _ & Hlow)|[-> Hno]].
  - destruct (t194_freq k' f' Ef') as [_ ?], (t194_freq k f Ef) as [_ ?].
    assert (k' <= k)%nat as Hk.
    { destruct (decide (k' <= k)%nat); [done|]. rewrite (Hlow k row) in A'; [done|lia|done]. }
    assert (f' <= f); [|lia]. clear -Ef Ef' Hk. revert k' Hk Ef'.
    do 12 (destruct k as [|k]; [injection Ef as <-; intros k' Hk;
      do 12 (destruct k' as [|k']; [intros [= <-]; lia|]); done|]). done.
  - rewrite (Hno k row Er) in A'. done.
Qed.

(** ** The interface of the manager *)

Lemma noniso_loop_ok d x i l m : length (dram_noniso_eff_table d) = (i + length l)%nat -> 0 <= m < 2 ^ 62 ->
  exists r, noniso_loop d x i l m = Some r /\ 0 <= r < 2 ^ 62.
Proof.
  intros Hl Hm. revert i Hl. induction l as [|f l IH]; intros i Hl; cbn [noniso_loop]; [by exists m|].
  destruct (lookup_lt_is_Some_2 (dram_noniso_eff_table d) i) as [e ->]; [rewrite Hl; cbn; lia|]. cbn.
  destruct (x <? _); [|apply IH; rewrite Hl; cbn; lia].
  eexists. split; [done|]. pose proof (uw_range 32 (f * 1000000)). change (2 ^ 32) with 4294967296 in *. lia.
Qed.

Lemma eff_table_length (t : bwmgr_dram_types) rank2 l : (eff_table_4X t rank2 = Some l \/ eff_table_1X t rank2 = Some l) -> length l = 12%nat.
Proof. by intros [E|E]; destruct t, rank2; cbn in E; simplify_eq. Qed.

Lemma update_efficiency_memory d s : t19x_memory d -> t19x_memory (t19x_update_efficiency d s).
Proof.
  intros Hd. unfold t19x_update_efficiency.
  set (o := if s =? DRAM_REFRESH_1X then _ else _). destruct o as [l|] eqn:El; [|done].
  destruct Hd as (Hs & _ & Hc). split; [done|]. split; [|done]. cbn.
  apply (eff_table_length (dram_type d) (dram_rank d)). unfold o in El. destruct (s =? DRAM_REFRESH_1X); auto.
Qed.

#[export] Instance t19x_ops_ok : OpsOk bwmgr_ops_t19x t19x_memory.
Proof.
  split.
  - intros d total iso m flags nvdis vi Hd Ht Hi Hm. cbn [op_apply_efficiency bwmgr_ops_t19x].
    unfold t19x_bwmgr_apply_efficiency.
    assert (exists r, (if total =? 0 then Some 0 else noniso_loop d (total / 1000000) 0 bwmgr_t194_dram_freq_table m) = Some r /\
      0 <= r < 2 ^ 62) as (r & -> & Hr).
    { destruct (total =? 0); [by exists 0|]. apply noniso_loop_ok; [apply Hd|done]. }
    destruct (get_best_iso_freq_spec d (s64 iso) (s64 nvdis) (s64 vi) Hd) as (x & -> & Hx). cbn.
    eexists _, _. split; [done|]. enough (0 <= x < 2 ^ 62) by lia.
    destruct Hx as [(k & f & Ef & -> & _)|[-> _]]; [|lia]. destruct (t194_freq k f Ef). lia.
  - intros f d s [= <-] Hd. split; [by apply update_efficiency_memory|].
    unfold t19x_update_efficiency. by destruct (if s =? DRAM_REFRESH_1X then _ else _).
Qed.

Lemma eff_init_t19x_memory sim dram_reg ch ecc rank pairs :
  sim = true \/ Z.land dram_reg 3 = DRAM_LPDDR4 /\
    (count_bits 16 (Z.land ch 65535) = 4 \/ count_bits 16 (Z.land ch 65535) = 8 \/ count_bits 16 (Z.land ch 65535) = 16) ->
  t19x_memory (bwmgr_eff_init_t19x sim dram_reg ch ecc rank pairs).
Proof.
  intros Hc. unfold bwmgr_eff_init_t19x.
  assert (exists n, (n = 4 \/ n = 8 \/ n = 16) /\ (if sim then 16 else count_bits 16 (Z.land ch 65535)) = n /\
    (if sim then DRAM_LPDDR4 else Z.land dram_reg 3) = DRAM_LPDDR4) as (n & Hn & -> & ->).
  { destruct Hc as [->|[Hd Hc]]; [exists 16; auto|]. destruct sim; [exists 16; auto|]. eexists. split; [exact Hc|done]. }
  cbn [Z.eqb]. unfold t19x_memory.
  generalize (negb (Z.land ecc 1 =? 0)), (negb (Z.land rank 1 =? 0)). intros ecc' rank'.
  split; [by destruct ecc', Hn as [->|[->| ->]]|]. split; [by destruct ecc', rank', Hn as [->|[->| ->]]|].
  exists ecc', n. split; [done|]. by destruct ecc', Hn as [->|[->| ->]].
Qed.

(** A Tegra194 with 16 channels. *)
Definition t194_dram : dram := bwmgr_eff_init_t19x false 1 65535 0 0 [].

Lemma t194_dram_memory : t19x_memory t194_dram.
Proof. apply eff_init_t19x_memory. right. split; [reflexivity|]. right. right. reflexivity. Qed.

Lemma t19x_best_freq_lowest_witness :
  get_best_iso_freq t194_dram 400000000 150000000 100000000 = Some 2133000000 /\
  exists r, get_best_iso_freq t194_dram 400000000 150000000 100000000 = Some r /\
    (r = 0 <-> forall j row, iso_row t194_dram j = Some row ->
       row_admits row (mhz 400000000) (mhz 150000000) (mhz 100000000) = false) /\
    (r <> 0 -> exists k f, bwmgr_t194_dram_freq_table !! k = Some f /\ r = f * 1000000 /\
       forall j row, iso_row t194_dram j = Some row ->
         row_admits row (mhz 400000000) (mhz 150000000) (mhz 100000000) = bool_decide (k <= j)%nat).
Proof.
  split; [vm_compute; reflexivity|].
  apply (t19x_best_freq_lowest t194_dram 400000000 150000000 100000000). exact t194_dram_memory.
Defined.

(** A memory of 12 channels counts as supported, but has no tables: the first demand reads
    through NULL. *)
Example t19x_odd_channels :
  let d := bwmgr_eff_init_t19x false 1 4095 0 0 [] in
  dram_config_supported d = true /\ get_best_iso_freq d 1 0 0 = None.
Proof. split; vm_compute; reflexivity. Qed.

(** What a client other than the displays and the camera is told it can have, in KB/s: the
    slope is negative, and the unsigned product wraps around. *)
Example t19x_max_iso_bw_wraps :
  t19x_get_max_iso_bw t194_dram 2133000000 TEGRA_ISO_CLIENT_EQOS = Some 4273271296.
Proof. vm_compute. reflexivity. Qed.
