(* ===== verification/IsomgrFacts.v ===== *)
(** * The pool of isochronous bandwidth is never overcommitted

    The accounting of isomgr.c with the rules of the chips before Tegra194, over the memory
    clock's manager of Bwmgr.v and its interface [OpsOk]. Proofs are about [wp], one rule
    per helper of Isomgr.v. *)

From S2P Require Import Prelude Bwmgr BwmgrFacts Isomgr IsomgrPlat.

(** ** Rules for the helpers *)

Lemma wp_bwm {A} (m : M bwmgr A) (Q : A -> isomgr -> Prop) s x b :
  m (iso_bwmgr s) = Some (x, b) -> Q x (set_iso_bwmgr b s) -> wp (bwm m) Q s.
Proof. intros E H. unfold wp, bwm. by rewrite E. Qed.

Lemma wp_cp i c (Q : isomgr_client -> isomgr -> Prop) s :
  isomgr_clients s !! Z.to_nat i = Some c -> Q c s -> wp (cp i) Q s.
Proof. intros E H. unfold wp, cp. munfold. by rewrite E. Qed.

Definition upd_client (i : Z) (f : isomgr_client -> isomgr_client) (s : isomgr) : isomgr :=
  set_isomgr_clients (alter f (Z.to_nat i) (isomgr_clients s)) s.

Lemma alter_insert {A} (f : A -> A) (l : list A) (i : nat) x : l !! i = Some x -> alter f i l = <[i := f x]> l.
Proof. revert i. induction l as [|y l IH]; intros [|i] E; cbn in *; simplify_eq; [done|].
  f_equal. by apply IH. Qed.

Lemma wp_upd i c f (Q : unit -> isomgr -> Prop) s :
  isomgr_clients s !! Z.to_nat i = Some c -> Q tt (upd_client i f s) -> wp (upd i f) Q s.
Proof.
  intros E H. unfold wp, upd, cp. munfold. rewrite E.
  unfold upd_client in H. by rewrite (alter_insert _ _ _ _ E) in H.
Qed.

Definition held_by (t : Z) (s : isomgr) : Prop := iso_locked s = true /\ iso_task s = Some t.
Definition free (s : isomgr) : Prop := iso_locked s = false /\ iso_task s = None.

Lemma wp_lock t (Q : bool -> isomgr -> Prop) s :
  free s -> Q true (set_iso_lock true (Some t) s) -> wp (isomgr_lock t) Q s.
Proof. intros [L T] H. unfold wp, isomgr_lock. munfold. by rewrite T, L. Qed.

Lemma wp_unlock t (Q : bool -> isomgr -> Prop) s :
  held_by t s -> Q true (set_iso_lock false None s) -> wp (isomgr_unlock t) Q s.
Proof. intros [L T] H. unfold wp, isomgr_unlock. munfold. by rewrite T, bool_decide_eq_true_2. Qed.

Lemma wp_trylock (Q : bool -> isomgr -> Prop) s : iso_locked s = true -> Q false s -> wp trylock Q s.
Proof. intros L H. unfold wp, trylock. munfold. by rewrite L. Qed.

Lemma wp_and_imp {A} (k : M isomgr A) (Q Q' : A -> isomgr -> Prop) (P : Prop) s :
  wp k Q s -> (P -> wp k Q' s) -> wp k (fun x s' => Q x s' /\ (P -> Q' x s')) s.
Proof. unfold wp. by destruct (k s) as [[x s']|]. Qed.

(** ** What the memory clock's side does not change *)

Definition forget_rq (c : isomgr_client) : isomgr_client := set_real_mf_rq 0 c.

(** [s'] differs from [s] in requests to the clock only. *)
Record clocked (s s' : isomgr) : Prop := {
  ck_locked : iso_locked s' = iso_locked s;
  ck_task : iso_task s' = iso_task s;
  ck_handle : iso_handle s' = iso_handle s;
  ck_avail : avail_bw s' = avail_bw s;
  ck_dedi : iso_dedi_bw s' = iso_dedi_bw s;
  ck_sleep : iso_sleep_bw s' = iso_sleep_bw s;
  ck_max : max_iso_bw s' = max_iso_bw s;
  ck_valid : client_valid s' = client_valid s;
  ck_info : isoclient_info s' = isoclient_info s;
  ck_test : test_mode s' = test_mode s;
  ck_camera : camera_max_floor_req s' = camera_max_floor_req s;
  ck_clients : map forget_rq (isomgr_clients s') = map forget_rq (isomgr_clients s);
  ck_dram : b_dram (iso_bwmgr s') = b_dram (iso_bwmgr s) }.

#[export] Instance clocked_refl : Reflexive clocked.
Proof. by intros s. Qed.
#[export] Instance clocked_trans : Transitive clocked.
Proof. intros s1 s2 s3 [] []. split; congruence. Qed.

Lemma clocked_lookup s s' i c : clocked s s' -> isomgr_clients s !! i = Some c ->
  exists x, isomgr_clients s' !! i = Some (set_real_mf_rq x c).
Proof.
  intros Hc E. pose proof (f_equal (lookup i) (ck_clients s s' Hc)) as L. rewrite !list_lookup_fmap, E in L.
  destruct (isomgr_clients s' !! i) as [c'|]; [|done]. injection L as L.
  exists (real_mf_rq c'). f_equal. destruct c, c'. unfold forget_rq, set_real_mf_rq in *. cbn in *. by simplify_eq.
Qed.

Lemma clocked_bwm b s : b_dram b = b_dram (iso_bwmgr s) -> clocked s (set_iso_bwmgr b s).
Proof. by split. Qed.

Lemma clocked_rq i x s : clocked s (upd_client i (set_real_mf_rq x) s).
Proof.
  split; try done. unfold upd_client. cbn [isomgr_clients set_isomgr_clients].
  apply list_eq. intros j. rewrite !list_lookup_fmap.
  destruct (decide (Z.to_nat i = j)) as [<-|Hj].
  - rewrite list_lookup_alter_eq. by destruct (isomgr_clients s !! _).
  - by rewrite list_lookup_alter_ne.
Qed.

Section facts.
Context `{ClkOps} (bops : bwmgr_ops) (D : dram -> Prop) `{Ops : !OpsOk bops D}.

Definition bok (s : isomgr) : Prop := bwmgr_ok D (iso_bwmgr s) /\ idle (iso_bwmgr s).

Lemma set_emc_state_ok h v req b : bwmgr_ok D b -> idle b -> 0 <= v < 2 ^ 63 ->
  bwmgr_ok D (set_emc_state bops h v req b) /\ idle (set_emc_state bops h v req b).
Proof.
  intros Hb Hi Hv. unfold set_emc_state, set_request. case_match; [|done].
  destruct (bwmgr_client b !! _) as [c|] eqn:E; [|done]. case_match; [done|].
  pose proof (set_field_ok D b (default 0 h) req _ c Hb E
                (req_value_ok _ req v (max_rate_ok D b Hb) Hv)).
  case_match; [done|]. split; [by apply bwmgr_ok_add_rate|done].
Qed.

Lemma set_emc_state_dram h v req b : b_dram (set_emc_state bops h v req b) = b_dram b.
Proof. unfold set_emc_state, set_request. by repeat case_match. Qed.

Lemma wp_set_emc t h v req (Q : Z -> isomgr -> Prop) s :
  bok s -> 0 <= v < 2 ^ 63 ->
  (forall ret b, bwmgr_ok D b -> idle b -> b = set_emc_state bops h v req (iso_bwmgr s) ->
     Q ret (set_iso_bwmgr b s)) ->
  wp (bwm (tegra_bwmgr_set_emc bops t h v req)) Q s.
Proof.
  intros [Hb Hi] Hv HQ. destruct (tegra_bwmgr_set_emc_ok bops t D _ h req v Hb Hi Hv) as (ret & E & _).
  destruct (set_emc_state_ok h v req _ Hb Hi Hv). eapply wp_bwm; [exact E|]. auto.
Qed.

(** The frequencies of a client and its limit keep the requests below 2^63. *)
Definition mf_max : Z := 2147483.
Definition freqs_ok (c : isomgr_client) : Prop :=
  0 <= rsvd_mf c <= mf_max /\ 0 <= real_mf c <= mf_max /\
  (bwmgr_handle c <> None -> 0 < limit_bw_percentage c).

Lemma real_mf_hz x : 0 <= x <= mf_max -> u64 (s32 (x * 1000)) = x * 1000.
Proof.
  unfold mf_max. intros. rewrite sw_small by (try lia; change (2 ^ (32 - 1)) with 2147483648; lia).
  apply u64_small. lia.
Qed.

Definition framed (s s' : isomgr) : Prop := clocked s s' /\ bok s'.

(** Finishing a step that may call the clock's manager. *)
Lemma wp_set_emc_frame t h v req (Q : Z -> isomgr -> Prop) s :
  bok s -> 0 <= v < 2 ^ 63 -> (forall ret s', framed s s' -> Q ret s') ->
  wp (bwm (tegra_bwmgr_set_emc bops t h v req)) Q s.
Proof.
  intros Hs Hv HQ. apply wp_set_emc; [done|done|]. intros ret b Hb Hi ->. apply HQ.
  split; [by apply clocked_bwm, set_emc_state_dram|done].
Qed.

Lemma framed_trans s1 s2 s3 : framed s1 s2 -> framed s2 s3 -> framed s1 s3.
Proof. intros [] []. split; [by etransitivity|done]. Qed.
Lemma framed_refl s : bok s -> framed s s.
Proof. by split. Qed.

Lemma freqs_ok_rq x c : freqs_ok c -> freqs_ok (set_real_mf_rq x c).
Proof. done. Qed.

Lemma update_client_clock_frame t m i c s :
  isomgr_clients s !! Z.to_nat i = Some c -> freqs_ok c -> bok s -> 0 <= m < 2 ^ 62 ->
  wp (update_client_clock bops t m i) (fun _ s' => framed s s') s.
Proof.
  intros E (_ & Hmf & Hlim) Hs Hm. unfold update_client_clock. wp_simpl.
  eapply wp_cp; [exact E|]. cbv beta. wp_simpl.
  enough (forall s1, framed s s1 -> wp
    (if real_mf c =? real_mf_rq c then mret tt
     else if bool_decide (bwmgr_handle c = None) then mret tt
     else
       (if limit_bw_percentage c =? 100 then mret tt
        else if limit_bw_percentage c =? 0 then BUG
        else
          bwm (tegra_bwmgr_set_emc bops t (bwmgr_handle c)
                 (u64 (u64 (real_mf c) * 1000 * 100) / limit_bw_percentage c) TEGRA_BWMGR_SET_EMC_FLOOR);;
          mret tt);;
       ret ← bwm (tegra_bwmgr_set_emc bops t (bwmgr_handle c) (u64 (s32 (real_mf c * 1000)))
                    TEGRA_BWMGR_SET_EMC_SHARED_BW_ISO);
       if ret =? 0 then upd i (set_real_mf_rq (real_mf c)) else mret tt) (fun _ s' => framed s s') s1) as Hrest.
  { destruct (_ && _); wp_simpl; [|by apply Hrest, framed_refl].
    apply wp_set_emc_frame; [done|destruct (real_mf c =? 0); lia|]. intros _ s1 H1. wp_simpl. by apply Hrest. }
  intros s1 H1. pose proof H1 as [Hck1 Hb1].
  destruct (real_mf c =? real_mf_rq c); [done|]. destruct (bool_decide_reflect (bwmgr_handle c = None)); [done|].
  specialize (Hlim n). wp_simpl. rewrite real_mf_hz by done. unfold mf_max in *.
  enough (forall s2, framed s s2 -> wp
    (ret ← bwm (tegra_bwmgr_set_emc bops t (bwmgr_handle c) (real_mf c * 1000) TEGRA_BWMGR_SET_EMC_SHARED_BW_ISO);
     if ret =? 0 then upd i (set_real_mf_rq (real_mf c)) else mret tt) (fun _ s' => framed s s') s2) as Hrest.
  { destruct (limit_bw_percentage c =? 100) eqn:?; [wp_simpl; specialize (Hrest s1 H1); by rewrite wp_bind in Hrest|].
    destruct (Z.eqb_spec (limit_bw_percentage c) 0); [lia|]. wp_simpl.
    apply wp_set_emc_frame; [done| |].
    - rewrite (u64_small (real_mf c)), u64_small by lia. split; [apply Z.div_pos; lia|].
      apply Z.div_lt_upper_bound; nia.
    - intros _ s2 H2. wp_simpl. specialize (Hrest s2 (framed_trans _ _ _ H1 H2)). by rewrite wp_bind in Hrest. }
  intros s2 H2. pose proof H2 as [Hck2 Hb2]. wp_simpl. apply wp_set_emc_frame; [done|lia|]. intros ret s3 H3.
  pose proof (framed_trans _ _ _ H2 H3) as H23. destruct (ret =? 0); [|done].
  destruct (clocked_lookup s s3 _ c (proj1 H23) E) as (x & E3).
  eapply wp_upd; [exact E3|]. apply (framed_trans _ s3); [done|]. split; [apply clocked_rq|apply H3].
Qed.

Definition clients_freqs (s : isomgr) : Prop :=
  length (isomgr_clients s) = 11%nat /\ Forall freqs_ok (isomgr_clients s).

Lemma clients_freqs_clocked s s' : clocked s s' -> clients_freqs s -> clients_freqs s'.
Proof.
  intros Hc [L F]. pose proof (ck_clients _ _ Hc) as E. split.
  - rewrite <- L, <- (length_map forget_rq (isomgr_clients s)), <- E. by rewrite length_map.
  - apply Forall_lookup_2. intros i c Hi.
    pose proof (f_equal (lookup i) E) as El. rewrite !list_lookup_fmap, Hi in El.
    destruct (isomgr_clients s !! i) as [c0|] eqn:E0; [|done]. injection El as El.
    pose proof (Forall_lookup_1 _ _ _ _ F E0) as F0. unfold freqs_ok in *.
    destruct c, c0. unfold forget_rq, set_real_mf_rq in *. cbn in *. by simplify_eq.
Qed.

Lemma update_clocks_frame t m n i s :
  clients_freqs s -> bok s -> 0 <= m < 2 ^ 62 -> 0 <= i -> i + Z.of_nat n <= 11 ->
  wp (update_clocks bops t m i n) (fun _ s' => framed s s') s.
Proof.
  revert i s. induction n as [|n IH]; intros i s Hf Hs Hm Hi Hn; cbn [update_clocks].
  { by apply framed_refl. }
  destruct (lookup_lt_is_Some_2 (isomgr_clients s) (Z.to_nat i)) as [c E]; [rewrite (proj1 Hf); lia|].
  wp_simpl. eapply wp_mono; [apply (update_client_clock_frame t m i c s E)|]; try done.
  { by eapply Forall_lookup_1 in E; [|apply Hf]. }
  intros [] s1 H1. eapply wp_mono; [apply IH|]; try done; try lia.
  - by eapply clients_freqs_clocked; [apply H1|].
  - apply H1.
  - intros [] s2 H2. by eapply framed_trans.
Qed.

Lemma max_real_mf_range l : Forall freqs_ok l -> 0 <= max_real_mf l <= mf_max.
Proof.
  intros F. unfold max_real_mf. assert (forall a, 0 <= a <= mf_max ->
    0 <= fold_left (fun m c => Z.max m (real_mf c)) l a <= mf_max) as Hg.
  { induction F as [|c l (_ & Hc & _) F IH]; intros a Ha; cbn; [done|]. apply IH. lia. }
  apply Hg. unfold mf_max. lia.
Qed.

(** The fields [update_mc_clock] sets besides those of the clients. *)
Lemma clocked_lt x s : clocked s (set_lt_mf x s).
Proof. by split. Qed.
Lemma clocked_lt_rq x s : clocked s (set_lt_mf_rq x s).
Proof. by split. Qed.

Lemma update_mc_clock_frame t s :
  clients_freqs s -> bok s -> iso_locked s = true ->
  wp (update_mc_clock bops t) (fun _ s' => framed s s') s.
Proof.
  intros Hf Hs Hl. pose proof (max_rate_ok D _ (proj1 Hs)) as Hm.
  unfold update_mc_clock. wp_simpl. eapply wp_bwm; [reflexivity|]. wp_simpl.
  apply wp_trylock; [done|]. wp_simpl.
  set (s1 := set_lt_mf _ _). assert (framed s s1) as H1 by (by split).
  assert (0 <= lt_mf s1 <= mf_max) as Hlt by (apply max_real_mf_range, Hf).
  clearbody s1.
  enough (forall s2, framed s s2 ->
    wp (update_clocks bops t (emc_max_rate (iso_bwmgr s)) 0 (Z.to_nat TEGRA_ISO_CLIENT_COUNT))
      (fun _ s' => framed s s') s2) as Hrest.
  - destruct (lt_mf_rq s1 =? lt_mf s1); wp_simpl; [by apply Hrest|].
    rewrite real_mf_hz by done. unfold mf_max in *.
    apply wp_set_emc_frame; [apply H1|lia|]. intros ret s2 H2. pose proof (framed_trans _ _ _ H1 H2).
    destruct (ret =? 0); wp_simpl; apply Hrest; [|done].
    apply (framed_trans _ s2); [done|]. split; [apply clocked_lt_rq|apply H2].
  - intros s2 H2. eapply wp_mono; [apply update_clocks_frame|].
    + by eapply clients_freqs_clocked; [apply H2|].
    + apply H2.
    + done.
    + lia.
    + unfold TEGRA_ISO_CLIENT_COUNT. lia.
    + intros [] s3 H3. by eapply framed_trans.
Qed.

(** ** Requests follow what is realized *)

(** The value of a request. *)
Definition asked (b : bwmgr) (h req : Z) : option Z := req_field req <$> bwmgr_client b !! Z.to_nat h.

Lemma ready_set_emc h v req b : ready b -> ready (set_emc_state bops h v req b).
Proof.
  intros Hr. unfold set_emc_state, set_request. case_match; [|done].
  case_match; [|done]. case_match; [done|]. by case_match.
Qed.

Lemma asked_set b h v req h' req' : bwmgr_ok D b -> ready b -> 0 <= h < TEGRA_BWMGR_CLIENT_COUNT ->
  req_known req = true -> req_known req' = true -> 0 <= h' ->
  asked (set_emc_state bops (Some h) v req b) h' req' =
    if bool_decide (h' = h /\ req' = req) then Some (req_value (emc_max_rate b) req v) else asked b h' req'.
Proof.
  intros Hb (C & S & Su) Hh Hr Hr' Hh'. unfold set_emc_state, set_emc_valid.
  rewrite C, S, Su, Hr, IS_HANDLE_VALID_Some by done. cbn [andb default id].
  destruct (lookup_client D b h Hb Hh) as (c & E & _). unfold set_request. rewrite E.
  set (v' := req_value _ _ _).
  assert (forall b', bwmgr_client b' = <[Z.to_nat h := set_req_field req v' c]> (bwmgr_client b) ->
    asked b' h' req' = if bool_decide (h' = h /\ req' = req) then Some v' else asked b h' req') as Hset.
  { intros b' Eb. unfold asked. rewrite Eb. destruct (decide (h' = h)) as [->|Hne].
    - rewrite list_lookup_insert_eq by (by eapply lookup_lt_Some). cbn. rewrite req_field_set, E by done.
      destruct (Z.eqb_spec req' req).
      + by rewrite bool_decide_eq_true_2.
      + rewrite bool_decide_eq_false_2; [done|]. by intros [_ ?].
    - rewrite list_lookup_insert_ne by lia. rewrite bool_decide_eq_false_2; [done|]. by intros [? _]. }
  destruct (Z.eqb_spec (req_field req c) v') as [Ev|].
  - destruct (bool_decide_reflect (h' = h /\ req' = req)) as [[-> ->]|]; [|done].
    unfold asked. rewrite E. cbn. by rewrite Ev.
  - destruct (clk_update_disabled b); by apply Hset.
Qed.

(** The clients' handles are different clients of the clock's manager, and their requests
    are the last that was accepted. *)
Record linked (s : isomgr) : Prop := {
  lk_ready : ready (iso_bwmgr s);
  lk_self : exists hf, iso_handle s = Some hf /\ 0 <= hf < TEGRA_BWMGR_CLIENT_COUNT /\
    asked (iso_bwmgr s) hf TEGRA_BWMGR_SET_EMC_FLOOR = Some (lt_mf_rq s * 1000) /\
    forall i c, isomgr_clients s !! i = Some c -> bwmgr_handle c <> Some hf;
  lk_clients : forall i c h, isomgr_clients s !! i = Some c -> bwmgr_handle c = Some h ->
    0 <= h < TEGRA_BWMGR_CLIENT_COUNT /\
    asked (iso_bwmgr s) h TEGRA_BWMGR_SET_EMC_SHARED_BW_ISO = Some (real_mf_rq c * 1000) /\
    forall j c', isomgr_clients s !! j = Some c' -> bwmgr_handle c' = Some h -> j = i }.

(** The same, with a clock framework that accepts every rate: after a rate it refuses the
    manager of the clock has a request that is not noted here. *)
Definition in_step (s : isomgr) : Prop := (forall r, clk_set_rate r = 0) /\ linked s.

(** Every client's request is for its realized frequency. *)
Definition agreed_at (s : isomgr) (i : nat) : Prop :=
  forall c, isomgr_clients s !! i = Some c -> bwmgr_handle c <> None -> real_mf_rq c = real_mf c.
Definition agreed (s : isomgr) : Prop :=
  lt_mf_rq s = max_real_mf (isomgr_clients s) /\ forall i, agreed_at s i.

(** It depends on these parts of the state. *)
Definition links (s : isomgr) :=
  (map (fun c => (bwmgr_handle c, real_mf_rq c)) (isomgr_clients s), iso_handle s, lt_mf_rq s, iso_bwmgr s).

Lemma in_step_links s s' : links s' = links s -> in_step s -> in_step s'.
Proof.
  unfold links. intros E [Hc [Hr (hf & ? & ? & ? & Hn) Hcl]]. injection E as Em Eh El Eb.
  assert (forall i c, isomgr_clients s' !! i = Some c -> exists c0, isomgr_clients s !! i = Some c0 /\
    bwmgr_handle c0 = bwmgr_handle c /\ real_mf_rq c0 = real_mf_rq c) as Hl.
  { intros i c Ec. pose proof (f_equal (lookup i) Em) as L. rewrite !list_lookup_fmap, Ec in L.
    destruct (isomgr_clients s !! i) as [c0|]; [|done]. injection L as ? ?. by exists c0. }
  split; [done|split; [by rewrite Eb| |]].
  - exists hf. rewrite Eh, Eb, El. repeat (split; [done|]). intros i c Ec.
    destruct (Hl i c Ec) as (c0 & E0 & <- & _). by eapply Hn.
  - intros i c h Ec Hh. rewrite Eb. destruct (Hl i c Ec) as (c0 & E0 & Eh0 & <-). rewrite <- Eh0 in Hh.
    destruct (Hcl i c0 h E0 Hh) as (? & ? & Hj). split; [done|]. split; [done|].
    intros j c' Ej Hh'. destruct (Hl j c' Ej) as (c1 & E1 & Eh1 & _). rewrite <- Eh1 in Hh'. by eapply Hj.
Qed.

(** A request for a floor of a client's handle, or of no handle at all. *)
Lemma in_step_floor h v s i c : bok s -> in_step s -> isomgr_clients s !! i = Some c -> bwmgr_handle c = h ->
  in_step (set_iso_bwmgr (set_emc_state bops h v TEGRA_BWMGR_SET_EMC_FLOOR (iso_bwmgr s)) s).
Proof.
  intros [Hb _] [Hc [Hr (hf & Ef & Hf & Af & Hn) Hcl]] E Eh. destruct h as [h|].
  2: { unfold set_emc_state, set_emc_valid. cbn [IS_HANDLE_VALID].
       rewrite (andb_false_r (dram_config_supported (b_dram (iso_bwmgr s)))). cbn [andb]. rewrite andb_false_r.
       split; [done|]. split; [done|by exists hf|done]. }
  destruct (Hcl i c h E Eh) as (Hh & _).
  split; [done|split; [by apply ready_set_emc| |]]; cbn [iso_handle iso_bwmgr set_iso_bwmgr isomgr_clients lt_mf_rq].
  - exists hf. split; [done|]. split; [done|]. split; [|done]. rewrite asked_set by (done || lia).
    rewrite bool_decide_eq_false_2; [done|]. intros [-> _]. by destruct (Hn i c E).
  - intros j c' h' Ej Eh'. destruct (Hcl j c' h' Ej Eh') as (? & A & ?). split; [done|]. split; [|done].
    rewrite asked_set by (done || lia). rewrite bool_decide_eq_false_2; [done|]. by intros [_ ?].
Qed.

Lemma wp_set_emc_in_step t h v req (Q : Z -> isomgr -> Prop) s : bok s -> in_step s -> 0 <= v < 2 ^ 63 ->
  0 <= h < TEGRA_BWMGR_CLIENT_COUNT -> req_known req = true ->
  Q 0 (set_iso_bwmgr (set_emc_state bops (Some h) v req (iso_bwmgr s)) s) ->
  wp (bwm (tegra_bwmgr_set_emc bops t (Some h) v req)) Q s.
Proof.
  intros [Hb Hi] Hl Hv Hh Hr HQ.
  destruct (tegra_bwmgr_set_emc_ok bops t D _ (Some h) req v Hb Hi Hv) as (ret & E & Hret).
  destruct (lk_ready s (proj2 Hl)) as (C & S & Su).
  unfold set_emc_valid in Hret. rewrite C, S, Su, Hr, IS_HANDLE_VALID_Some in Hret by done. cbn in Hret.
  assert (ret = 0) as -> by (destruct Hret as [->| ->]; [done|apply (proj1 Hl)]).
  eapply wp_bwm; [exact E|]. done.
Qed.

(** The last request of a client: its realized frequency, which is then noted. *)
Lemma in_step_request s i c h : bok s -> in_step s -> freqs_ok c ->
  isomgr_clients s !! Z.to_nat i = Some c -> bwmgr_handle c = Some h ->
  in_step (upd_client i (set_real_mf_rq (real_mf c))
    (set_iso_bwmgr (set_emc_state bops (Some h) (real_mf c * 1000) TEGRA_BWMGR_SET_EMC_SHARED_BW_ISO (iso_bwmgr s)) s)).
Proof.
  intros [Hb _] [Hc [Hr (hf & Ef & Hf & Af & Hn) Hcl]] _ E Eh. destruct (Hcl _ c h E Eh) as (Hh & _ & Hu).
  assert (forall j c', alter (set_real_mf_rq (real_mf c)) (Z.to_nat i) (isomgr_clients s) !! j = Some c' ->
    exists c0, isomgr_clients s !! j = Some c0 /\ bwmgr_handle c0 = bwmgr_handle c' /\
      real_mf_rq c' = if decide (j = Z.to_nat i) then real_mf c else real_mf_rq c0) as Hl.
  { intros j c' Ej. destruct (decide (j = Z.to_nat i)) as [->|Hj].
    - rewrite list_lookup_alter_eq, E in Ej. injection Ej as <-. by exists c.
    - rewrite list_lookup_alter_ne in Ej by done. by exists c'. }
  split; [done|split; [by apply ready_set_emc| |]];
    cbn [iso_handle iso_bwmgr set_iso_bwmgr isomgr_clients lt_mf_rq upd_client set_isomgr_clients].
  - exists hf. split; [done|]. split; [done|]. split.
    + rewrite asked_set by (done || lia). rewrite bool_decide_eq_false_2; [done|]. by intros [_ ?].
    + intros j c' Ej. destruct (Hl j c' Ej) as (c0 & E0 & <- & _). by eapply Hn.
  - intros j c' h' Ej Eh'. destruct (Hl j c' Ej) as (c0 & E0 & Eh0 & Erq). rewrite <- Eh0 in Eh'.
    destruct (Hcl j c0 h' E0 Eh') as (? & A & Hju). split; [done|]. split.
    + rewrite asked_set by (done || lia). destruct (decide (j = Z.to_nat i)) as [->|Hj].
      * simplify_eq. rewrite bool_decide_eq_true_2 by done. by rewrite Erq.
      * rewrite bool_decide_eq_false_2; [by rewrite Erq|]. intros [-> _]. by apply Hj, (Hu j c0).
    + intros k c1 Ek Eh1. destruct (Hl k c1 Ek) as (c2 & E2 & Eh2 & _). rewrite <- Eh2 in Eh1. by eapply Hju.
Qed.

Lemma update_client_clock_in_step t m i c s :
  isomgr_clients s !! Z.to_nat i = Some c -> freqs_ok c -> bok s -> in_step s -> 0 <= m < 2 ^ 62 ->
  wp (update_client_clock bops t m i)
    (fun _ s' => in_step s' /\ agreed_at s' (Z.to_nat i) /\ lt_mf_rq s' = lt_mf_rq s /\
                 forall j, agreed_at s j -> agreed_at s' j) s.
Proof.
  intros E Hc Hs Hl Hm. pose proof Hc as (_ & Hmf & Hlim). unfold update_client_clock. wp_simpl.
  eapply wp_cp; [exact E|]. cbv beta. wp_simpl.
  set (Q := fun (_ : unit) s' => in_step s' /\ _).
  enough (forall s1, isomgr_clients s1 = isomgr_clients s -> lt_mf_rq s1 = lt_mf_rq s -> bok s1 -> in_step s1 -> wp
    (if real_mf c =? real_mf_rq c then mret tt
     else if bool_decide (bwmgr_handle c = None) then mret tt
     else
       (if limit_bw_percentage c =? 100 then mret tt
        else if limit_bw_percentage c =? 0 then BUG
        else
          bwm (tegra_bwmgr_set_emc bops t (bwmgr_handle c)
                 (u64 (u64 (real_mf c) * 1000 * 100) / limit_bw_percentage c) TEGRA_BWMGR_SET_EMC_FLOOR);;
          mret tt);;
       ret ← bwm (tegra_bwmgr_set_emc bops t (bwmgr_handle c) (u64 (s32 (real_mf c * 1000)))
                    TEGRA_BWMGR_SET_EMC_SHARED_BW_ISO);
       if ret =? 0 then upd i (set_real_mf_rq (real_mf c)) else mret tt) Q s1) as Hrest.
  { destruct (_ && _); wp_simpl; [|by apply Hrest].
    apply wp_set_emc; [done|destruct (real_mf c =? 0); lia|]. intros ret b Hb Hi ->. wp_simpl.
    apply Hrest; [done|done|done|by eapply in_step_floor]. }
  intros s1 Ec1 Er1 Hs1 Hl1. assert (forall j, agreed_at s j -> agreed_at s1 j) as Hag
    by (intros j; unfold agreed_at; by rewrite Ec1).
  destruct (Z.eqb_spec (real_mf c) (real_mf_rq c)) as [Eq|_].
  { wp_simpl. split; [done|]. split; [|done]. intros c' E' _. rewrite Ec1, E in E'. by injection E' as <-. }
  destruct (bwmgr_handle c) as [h|] eqn:Eh.
  2: { rewrite bool_decide_eq_true_2 by done. wp_simpl. split; [done|]. split; [|done].
       intros c' E' Hn. rewrite Ec1, E in E'. injection E' as <-. by destruct Hn. }
  rewrite bool_decide_eq_false_2 by done. specialize (Hlim ltac:(done)). wp_simpl. rewrite real_mf_hz by done. unfold mf_max in *.
  assert (0 <= h < TEGRA_BWMGR_CLIENT_COUNT) as Hh by (by eapply (lk_clients s (proj2 Hl))).
  enough (forall s2, isomgr_clients s2 = isomgr_clients s -> lt_mf_rq s2 = lt_mf_rq s -> bok s2 -> in_step s2 -> wp
    (ret ← bwm (tegra_bwmgr_set_emc bops t (Some h) (real_mf c * 1000) TEGRA_BWMGR_SET_EMC_SHARED_BW_ISO);
     if ret =? 0 then upd i (set_real_mf_rq (real_mf c)) else mret tt) Q s2) as Hrest.
  { destruct (limit_bw_percentage c =? 100) eqn:?; [wp_simpl; specialize (Hrest s1 Ec1 Er1 Hs1 Hl1); by rewrite wp_bind in Hrest|].
    destruct (Z.eqb_spec (limit_bw_percentage c) 0); [lia|]. wp_simpl.
    apply wp_set_emc; [done| |].
    - rewrite (u64_small (real_mf c)), u64_small by lia. split; [apply Z.div_pos; lia|].
      apply Z.div_lt_upper_bound; nia.
    - intros ret b Hb Hi ->. wp_simpl. match goal with |- wp _ _ ?x => specialize (Hrest x) end.
      rewrite wp_bind in Hrest. apply Hrest; [done|done|done|].
      eapply in_step_floor; [done|done|by rewrite Ec1|done]. }
  intros s2 Ec2 Er2 Hs2 Hl2. wp_simpl. apply wp_set_emc_in_step; [done|done|lia|done|done|]. cbn [Z.eqb].
  assert (isomgr_clients s2 !! Z.to_nat i = Some c) as E2 by (by rewrite Ec2).
  eapply wp_upd; [exact E2|]. split; [by apply in_step_request|]. split; [|split; [done|]].
  - intros c' E' _. unfold upd_client in E'. cbn in E'. rewrite list_lookup_alter_eq, E2 in E'. by injection E' as <-.
  - intros j Hj c' E' Hn. unfold upd_client in E'. cbn in E'. destruct (decide (Z.to_nat i = j)) as [<-|Hne].
    + rewrite list_lookup_alter_eq, E2 in E'. by injection E' as <-.
    + rewrite list_lookup_alter_ne, Ec2 in E' by done. by apply Hj.
Qed.

Lemma update_clocks_in_step t m n i s :
  clients_freqs s -> bok s -> in_step s -> 0 <= m < 2 ^ 62 -> 0 <= i -> i + Z.of_nat n <= 11 ->
  (forall j, (j < Z.to_nat i)%nat -> agreed_at s j) ->
  wp (update_clocks bops t m i n)
    (fun _ s' => in_step s' /\ lt_mf_rq s' = lt_mf_rq s /\
                 forall j, (j < Z.to_nat i + n)%nat -> agreed_at s' j) s.
Proof.
  revert i s. induction n as [|n IH]; intros i s Hf Hs Hl Hm Hi Hn Hag; cbn [update_clocks].
  { split; [done|]. split; [done|]. intros j Hj. apply Hag. lia. }
  destruct (lookup_lt_is_Some_2 (isomgr_clients s) (Z.to_nat i)) as [c E]; [rewrite (proj1 Hf); lia|].
  pose proof (Forall_lookup_1 _ _ _ _ (proj2 Hf) E) as Hc.
  wp_simpl. eapply wp_mono; [apply wp_and; [by apply (update_client_clock_frame t m i c s E)|
    by apply (update_client_clock_in_step t m i c s E)]|].
  intros [] s1 [[Hk1 Hb1] (Hl1 & Ha1 & Er1 & Hj1)]. eapply wp_mono; [apply IH|]; try done; try lia.
  - by eapply clients_freqs_clocked.
  - intros j Hj. destruct (decide (j = Z.to_nat i)) as [->|]; [done|]. apply Hj1, Hag. lia.
  - intros [] s2 (Hl2 & Er2 & Ha2). split; [done|]. split; [congruence|]. intros j Hj. apply Ha2. lia.
Qed.

Lemma max_real_mf_clocked s s' : clocked s s' ->
  max_real_mf (isomgr_clients s') = max_real_mf (isomgr_clients s).
Proof.
  intros Hk. assert (forall l, max_real_mf (map forget_rq l) = max_real_mf l) as E.
  { intros l. unfold max_real_mf. generalize 0. induction l as [|c l IH]; intros a; cbn; [done|]. apply IH. }
  by rewrite <- (E (isomgr_clients s')), (ck_clients _ _ Hk), E.
Qed.

Lemma in_step_lt x s : in_step s -> in_step (set_lt_mf x s).
Proof. by apply in_step_links. Qed.

Lemma in_step_self_request hf x s : bok s -> in_step s -> iso_handle s = Some hf ->
  in_step (set_lt_mf_rq x
    (set_iso_bwmgr (set_emc_state bops (Some hf) (x * 1000) TEGRA_BWMGR_SET_EMC_FLOOR (iso_bwmgr s)) s)).
Proof.
  intros [Hb _] [Hc [Hr (hf' & Ef & Hf & _ & Hn) Hcl]] Ef'.
  rewrite Ef in Ef'. injection Ef' as ->.
  split; [done|split; [by apply ready_set_emc| |]]; cbn [iso_handle iso_bwmgr set_iso_bwmgr isomgr_clients lt_mf_rq set_lt_mf_rq].
  - exists hf. split; [done|]. split; [done|]. split; [|done]. rewrite asked_set by (done || lia).
    by rewrite bool_decide_eq_true_2.
  - intros j c' h' Ej Eh'. destruct (Hcl j c' h' Ej Eh') as (? & A & ?). split; [done|]. split; [|done].
    rewrite asked_set by (done || lia). rewrite bool_decide_eq_false_2; [done|]. by intros [_ ?].
Qed.

Lemma update_mc_clock_in_step t s :
  clients_freqs s -> bok s -> iso_locked s = true -> in_step s ->
  wp (update_mc_clock bops t) (fun _ s' => in_step s' /\ agreed s') s.
Proof.
  intros Hf Hs Hlo Hl. pose proof (max_rate_ok D _ (proj1 Hs)) as Hm.
  eapply wp_mono; [apply wp_and; [by apply (update_mc_clock_frame t s)|
    apply (fun (x : wp (update_mc_clock bops t) (fun _ s' => in_step s' /\ lt_mf_rq s' = max_real_mf (isomgr_clients s) /\
      forall j, (j < 11)%nat -> agreed_at s' j) s) => x)]|].
  2: { intros [] s' [[Hk Hb] (Hl' & Er & Ha)]. split; [done|]. split; [by rewrite (max_real_mf_clocked s s')|].
       intros j c Ej Hn. apply (Ha j); try done. rewrite <- (proj1 (clients_freqs_clocked _ _ Hk Hf)). by eapply lookup_lt_Some. }
  unfold update_mc_clock. wp_simpl. eapply wp_bwm; [reflexivity|]. wp_simpl. apply wp_trylock; [done|]. wp_simpl.
  set (mx := max_real_mf _). assert (iso_bwmgr (set_iso_bwmgr (iso_bwmgr s) s) = iso_bwmgr s) as _ by done.
  set (s1 := set_lt_mf mx _). assert (in_step s1) as Hl1 by (by apply (in_step_links s)).
  assert (bok s1) as Hs1 by done.
  assert (0 <= mx <= mf_max) as Hmx by (apply max_real_mf_range, Hf).
  enough (forall s2, clocked s s2 -> bok s2 -> in_step s2 -> lt_mf_rq s2 = mx ->
    wp (update_clocks bops t (emc_max_rate (iso_bwmgr s)) 0 (Z.to_nat TEGRA_ISO_CLIENT_COUNT))
      (fun _ s' => in_step s' /\ lt_mf_rq s' = mx /\ forall j, (j < 11)%nat -> agreed_at s' j) s2) as Hrest.
  - destruct (Z.eqb_spec (lt_mf_rq s1) (lt_mf s1)) as [Eq|Ne]; wp_simpl; [by apply Hrest|].
    change (lt_mf s1) with mx. rewrite real_mf_hz by done. unfold mf_max in *.
    destruct (lk_self s1 (proj2 Hl1)) as (hf & Ef & Hf1 & _). rewrite Ef.
    apply wp_set_emc_in_step; [done|done|lia|done|done|]. cbn [Z.eqb]. wp_simpl.
    apply Hrest; [by split; try done; apply set_emc_state_dram| |by apply in_step_self_request|done].
    by apply (set_emc_state_ok (Some hf) (mx * 1000) TEGRA_BWMGR_SET_EMC_FLOOR _ (proj1 Hs1) (proj2 Hs1)); lia.
  - intros s2 Hk2 Hb2 Hl2 Er2. eapply wp_mono; [apply update_clocks_in_step|]; try done.
    + by eapply clients_freqs_clocked.
    + unfold TEGRA_ISO_CLIENT_COUNT. lia.
    + intros [] s3 (Hl3 & Er3 & Ha3). split; [done|]. split; [congruence|]. exact Ha3.
Qed.

Lemma update_mc_clock_spec t s :
  clients_freqs s -> bok s -> iso_locked s = true ->
  wp (update_mc_clock bops t) (fun _ s' => framed s s' /\ (in_step s -> in_step s' /\ agreed s')) s.
Proof.
  intros Hf Hs Hl. apply wp_and_imp; [by apply update_mc_clock_frame|]. by apply update_mc_clock_in_step.
Qed.
End facts.
