(* ===== verification/IsomgrHandles.v ===== *)
(** * Clients, handles and references of the isochronous bandwidth manager

    Rules for the checks of clients and handles and for the reference counts, and what does
    not depend on them; for any chip. *)

From S2P Require Import Prelude Bwmgr BwmgrFacts Isomgr IsomgrPlat IsomgrFacts.

Lemma s32_small x : - 2 ^ 31 <= x < 2 ^ 31 -> s32 x = x.
Proof. intros. by apply (sw_small 32). Qed.
Lemma s32_range x : - 2 ^ 31 <= s32 x < 2 ^ 31.
Proof. by apply (sw_range 32). Qed.
Lemma s32_inc_dec k : - 2 ^ 31 <= k < 2 ^ 31 -> s32 (s32 (k + 1) - 1) = k.
Proof.
  intros. unfold sw. change (2 ^ (32 - 1)) with 2147483648. change (2 ^ 32) with 4294967296.
  change (2 ^ 31) with 2147483648 in *. dlia.
Qed.

Lemma upd_client_at i f s c : isomgr_clients s !! Z.to_nat i = Some c ->
  isomgr_clients (upd_client i f s) !! Z.to_nat i = Some (f c).
Proof. intros E. unfold upd_client. cbn [isomgr_clients set_isomgr_clients]. by rewrite list_lookup_alter_eq, E. Qed.

Lemma upd_client_twice i f g s : upd_client i g (upd_client i f s) = upd_client i (g ∘ f) s.
Proof.
  unfold upd_client. cbn. by rewrite list_alter_alter_eq.
Qed.

Section handles.
Context `{ClkOps}.

Lemma links_alter g i s : (forall c, bwmgr_handle (g c) = bwmgr_handle c /\ real_mf_rq (g c) = real_mf_rq c) ->
  (map (fun c => (bwmgr_handle c, real_mf_rq c)) (alter g i (isomgr_clients s)), iso_handle s, lt_mf_rq s, iso_bwmgr s) = links s.
Proof.
  intros Hg. unfold links. do 3 f_equal. apply list_eq. intros j. rewrite !list_lookup_fmap.
  destruct (decide (i = j)) as [->|].
  - rewrite list_lookup_alter_eq. destruct (isomgr_clients s !! j) as [c|]; [|done]. cbn.
    by destruct (Hg c) as [-> ->].
  - by rewrite list_lookup_alter_ne.
Qed.

Lemma in_step_upd g i s : (forall c, bwmgr_handle (g c) = bwmgr_handle c /\ real_mf_rq (g c) = real_mf_rq c) ->
  in_step s -> in_step (upd_client i g s).
Proof. intros Hg Hl. exact (in_step_links s (upd_client i g s) (links_alter g (Z.to_nat i) s Hg) Hl). Qed.

Lemma in_step_lock l t s : in_step (set_iso_lock l t s) <-> in_step s.
Proof.
  split; intros Hl; [exact (in_step_links (set_iso_lock l t s) s eq_refl Hl)|exact (in_step_links s (set_iso_lock l t s) eq_refl Hl)].
Qed.

(** The requests of [s] are those for what is realized; it does not depend on references. *)
Lemma agreed_unref i k s : agreed s -> agreed (set_iso_lock false None (upd_client i (set_kref k) s)).
Proof.
  assert (forall g l j, (forall c, real_mf (g c) = real_mf c) -> max_real_mf (alter g j l) = max_real_mf l) as Hm.
  { intros g l j Hg. unfold max_real_mf. generalize 0. revert j.
    induction l as [|c l IH]; intros [|j] a; cbn; [done|done|by rewrite Hg|apply IH]. }
  intros [Hl Ha]. split; [rewrite <- (Hm (set_kref k) _ (Z.to_nat i)) in Hl by done; exact Hl|]. intros j c E Hb. unfold upd_client in E. cbn in E.
  destruct (decide (Z.to_nat i = j)) as [<-|Hne].
  - rewrite list_lookup_alter_eq in E. destruct (isomgr_clients s !! Z.to_nat i) as [c0|] eqn:E0; [|done].
    injection E as <-. by apply (Ha (Z.to_nat i) c0).
  - rewrite list_lookup_alter_ne in E by done. by apply (Ha j).
Qed.
(** The arrays have an entry for each client. *)
Definition shaped (s : isomgr) : Prop := length (isomgr_clients s) = 11%nat /\ length (client_valid s) = 11%nat.

Lemma shaped_lookup s i : shaped s -> 0 <= i < TEGRA_ISO_CLIENT_COUNT ->
  exists c, isomgr_clients s !! Z.to_nat i = Some c.
Proof.
  intros [Hl _] Hi. unfold TEGRA_ISO_CLIENT_COUNT in Hi. apply lookup_lt_is_Some_2. lia.
Qed.

Lemma free_lock t s : free s -> set_iso_lock false None (set_iso_lock true (Some t) s) = s.
Proof. destruct s. unfold free. cbn. by intros [-> ->]. Qed.

(** A client the chip has and whose clock client is there, and a registered handle. *)
Definition valid_client (i : Z) (s : isomgr) : Prop :=
  0 <= i < TEGRA_ISO_CLIENT_COUNT /\ client_valid s !! Z.to_nat i = Some true /\
  exists c, isomgr_clients s !! Z.to_nat i = Some c /\ bwmgr_handle c <> None.
Definition registered (h : tegra_isomgr_handle) (i : Z) (c : isomgr_client) (s : isomgr) : Prop :=
  h = CLIENT i /\ valid_client i s /\ isomgr_clients s !! Z.to_nat i = Some c /\ magic c = ISOMGR_MAGIC.

Lemma wp_is_client_valid i s (Q : bool -> isomgr -> Prop) :
  shaped s -> (valid_client i s -> Q true s) -> (~ valid_client i s -> Q false s) -> wp (is_client_valid i) Q s.
Proof.
  intros Hs H1 H2. unfold is_client_valid.
  destruct (Z.ltb_spec i 0), (Z.leb_spec TEGRA_ISO_CLIENT_COUNT i); cbn [orb]; wp_simpl;
    try (apply H2; intros [? _]; lia).
  destruct (lookup_lt_is_Some_2 (client_valid s) (Z.to_nat i)) as [v Ev];
    [rewrite (proj2 Hs); unfold TEGRA_ISO_CLIENT_COUNT in *; lia|].
  eapply wp_checked; [exact Ev|]. wp_simpl.
  destruct (shaped_lookup s i Hs ltac:(lia)) as (c & E). eapply wp_cp; [exact E|]. wp_simpl.
  destruct v; cbn [andb]; [|apply H2; intros (_ & ? & _); congruence].
  destruct (bool_decide_reflect (bwmgr_handle c <> None)).
  - apply H1. split; [lia|]. split; [done|]. by exists c.
  - apply H2. intros (_ & _ & c' & ? & ?). by simplify_eq.
Qed.

Lemma wp_VALIDATE_HANDLE h s (Q : option Z -> isomgr -> Prop) :
  shaped s -> (forall i c, registered h i c s -> Q (Some i) s) ->
  ((forall i c, ~ registered h i c s) -> Q None s) -> wp (VALIDATE_HANDLE h) Q s.
Proof.
  intros Hs H1 H2. destruct h as [| | |i]; try (apply H2; by intros ? ? [? _]). cbn [VALIDATE_HANDLE]. wp_simpl.
  apply wp_is_client_valid; [done| |].
  - intros Hi. cbn [negb]. wp_simpl. destruct (shaped_lookup s i Hs (proj1 Hi)) as (c & E).
    eapply wp_cp; [exact E|]. wp_simpl. destruct (Z.eqb_spec (magic c) ISOMGR_MAGIC).
    + by apply (H1 i c).
    + apply H2. intros ? ? (? & _ & ? & ?). by simplify_eq.
  - intros Hn. wp_simpl. apply H2. intros ? ? (? & ? & _). by simplify_eq.
Qed.

Lemma u32_s32 x : 0 <= x < 2 ^ 32 -> u32 (s32 x) = x.
Proof.
  intros. unfold sw, uw. change (2 ^ (32 - 1)) with 2147483648. change (2 ^ 32) with 4294967296 in *. dlia.
Qed.

(** A reference taken and dropped around a change of the client. *)
Lemma kref_roundtrip i c x f s : isomgr_clients s !! Z.to_nat i = Some c ->
  (forall y d, f (set_kref y d) = set_kref y (f d)) -> kref (f c) = kref c ->
  upd_client i (set_kref (kref c)) (upd_client i f (upd_client i (set_kref x) s)) = upd_client i f s.
Proof.
  intros E Hf Hk. rewrite !upd_client_twice. unfold upd_client. rewrite !(alter_insert _ _ _ _ E). cbn.
  rewrite Hf. do 2 f_equal. rewrite <- Hk. by destruct (f c).
Qed.

Lemma upd_client_id i c s : isomgr_clients s !! Z.to_nat i = Some c -> upd_client i id s = s.
Proof.
  intros E. unfold upd_client. rewrite (alter_insert _ _ _ _ E), list_insert_id by done. by destruct s.
Qed.

Lemma wp_inc_not_zero i c s (Q : bool -> isomgr -> Prop) : isomgr_clients s !! Z.to_nat i = Some c ->
  (kref c = 0 -> Q false s) -> (kref c <> 0 -> Q true (upd_client i (set_kref (s32 (kref c + 1))) s)) ->
  wp (inc_not_zero i) Q s.
Proof.
  intros E H1 H2. unfold inc_not_zero. wp_simpl. eapply wp_cp; [exact E|].
  destruct (Z.eqb_spec (kref c) 0); [by apply H1|]. wp_simpl. eapply wp_upd; [exact E|]. by apply H2.
Qed.

(** The beginning of reserve and realize: [K] runs with the lock and a reference, on the
    client as it was but for the count. *)
Lemma with_ref t i c s (K : M isomgr Z) (Q : Z -> isomgr -> Prop) :
  free s -> 0 <= i < TEGRA_ISO_CLIENT_COUNT -> isomgr_clients s !! Z.to_nat i = Some c ->
  (kref c = 0 -> Q 0 s) -> (kref c <> 0 -> wp K Q (upd_client i (set_kref (s32 (kref c + 1))) (set_iso_lock true (Some t) s))) ->
  wp (ok ← isomgr_lock t;
      if negb ok then mret 0
      else
        ok ← inc_not_zero i;
        if negb ok then isomgr_unlock t;; mret 0 else K) Q s.
Proof.
  intros Hf Hi E HQ HK. wp_simpl. apply wp_lock; [done|]. cbn [negb]. wp_simpl.
  eapply wp_inc_not_zero; [exact E|intros K0|intros K1]; cbn [negb]; wp_simpl; [|by apply HK].
  apply wp_unlock; [done|]. wp_simpl. rewrite free_lock by done. by apply HQ.
Qed.

Lemma wp_bwm_read {A} (k : M bwmgr A) x s (Q : A -> isomgr -> Prop) :
  k (iso_bwmgr s) = Some (x, iso_bwmgr s) -> Q x s -> wp (bwm k) Q s.
Proof.
  intros E HQ. eapply wp_bwm; [exact E|]. replace (set_iso_bwmgr (iso_bwmgr s) s) with s by (by destruct s). done.
Qed.

Lemma clocked_upd i f s s' : (forall c, forget_rq (f c) = f (forget_rq c)) -> clocked s s' ->
  clocked (upd_client i f s) (upd_client i f s').
Proof.
  intros Hf []. split; try done. unfold upd_client. cbn [isomgr_clients set_isomgr_clients].
  apply list_eq. intros j. pose proof (f_equal (lookup j) ck_clients) as El.
  rewrite !list_lookup_fmap in El. rewrite !list_lookup_fmap.
  destruct (decide (Z.to_nat i = j)) as [<-|Hj].
  - rewrite !list_lookup_alter_eq. destruct (isomgr_clients s' !! _), (isomgr_clients s !! _); try done.
    cbn in *. rewrite !Hf. congruence.
  - by rewrite !list_lookup_alter_ne.
Qed.
Lemma clocked_lock l t s s' : clocked s s' -> clocked (set_iso_lock l t s) (set_iso_lock l t s').
Proof. intros []. by split. Qed.
End handles.

(** ** Calls *)

Inductive iso_call :=
  | IRegister (client udedi_bw : Z) (reneg : bool)
  | IUnregister (h : tegra_isomgr_handle)
  | IReserve (h : tegra_isomgr_handle) (ubw ult : Z)
  | IRealize (h : tegra_isomgr_handle)
  | ISetMargin (client bw : Z) (wait : bool)
  | IImpTime (client bw : Z)
  | IAvailable.

(** Bandwidths are u32. *)
Definition iso_arg_ok (k : iso_call) : Prop :=
  match k with
  | IRegister _ bw _ | IReserve _ bw _ | ISetMargin _ bw _ => 0 <= bw < 2 ^ 32
  | _ => True
  end.

Section exec.
Context `{ClkOps} (bops : bwmgr_ops) (ops : isomgr_ops).

(** A call by the task [t]. *)
Definition exec_iso (t : Z) (k : iso_call) : M isomgr unit :=
  match k with
  | IRegister c bw reneg => tegra_isomgr_register ops t c bw reneg;; mret tt
  | IUnregister h => tegra_isomgr_unregister bops ops t h
  | IReserve h bw lt => tegra_isomgr_reserve bops ops t h bw lt;; mret tt
  | IRealize h => tegra_isomgr_realize bops ops t h;; mret tt
  | ISetMargin c bw w => tegra_isomgr_set_margin bops ops t c bw w;; mret tt
  | IImpTime c bw => tegra_isomgr_get_imp_time c bw;; mret tt
  | IAvailable => tegra_isomgr_get_available_iso_bw;; mret tt
  end.
Fixpoint exec_isos (l : list (Z * iso_call)) : M isomgr unit :=
  match l with
  | [] => mret tt
  | (t, k) :: l => exec_iso t k;; exec_isos l
  end.
End exec.
