(* ===== verification/IsomgrPool.v ===== *)
(** * The pool of isochronous bandwidth

    With the rules of the chips before Tegra194: what clients hold and what is available
    never exceeds the pool, whatever calls are made; and exactly fills it as long as no client
    is unregistered in the middle of a realization. *)

From S2P Require Import Prelude Bwmgr BwmgrFacts Isomgr IsomgrPlat IsomgrFacts IsomgrHandles.

(** ** Sums over the clients *)

Definition total (f : isomgr_client -> Z) (l : list isomgr_client) : Z :=
  foldr (fun c => Z.add (f c)) 0 l.

Lemma total_alter f g i l c : l !! i = Some c -> total f (alter g i l) = total f l - f c + f (g c).
Proof.
  revert i. induction l as [|x l IH]; intros [|i] E; cbn in *; simplify_eq; [lia|].
  change (foldr _ 0 (alter g i l)) with (total f (alter g i l)). rewrite IH by done. unfold total. lia.
Qed.

Lemma total_nonneg f l : Forall (fun c => 0 <= f c) l -> 0 <= total f l.
Proof. unfold total. induction 1; cbn; lia. Qed.

Lemma total_ge f l i c : Forall (fun c => 0 <= f c) l -> l !! i = Some c -> f c <= total f l.
Proof.
  intros F. revert i. induction F as [|x l Hx F IH]; intros [|i] E; cbn in *; simplify_eq.
  - pose proof (total_nonneg f l F). unfold total in *. lia.
  - specialize (IH i E). unfold total in IH. lia.
Qed.

Lemma total_forget f l l' : (forall c, f (forget_rq c) = f c) ->
  map forget_rq l' = map forget_rq l -> total f l' = total f l.
Proof.
  intros Hf E. assert (forall l, total f (map forget_rq l) = total f l) as T.
  { clear -Hf. intros l. unfold total. induction l; cbn; rewrite ?Hf; congruence. }
  by rewrite <- (T l), <- (T l'), E.
Qed.

Lemma held_max c : held c = Z.max (real_bw c) (margin_bw c).
Proof. unfold held. case_z; lia. Qed.

(** ** The invariant *)

(** A client of a pool of [m]: what a client without callback gets is its dedicated
    bandwidth at most. *)
Record client_pool (m : Z) (c : isomgr_client) : Prop := {
  cl_margin : 0 <= margin_bw c <= dedi_bw c;
  cl_real : 0 <= real_bw c;
  cl_rsvd : 0 <= rsvd_bw c <= m;
  cl_sleep : sleep_bw c = 0;
  cl_kref : - 2 ^ 31 <= kref c < 2 ^ 31;
  cl_reneg : renegotiate c = false -> rsvd_bw c <= dedi_bw c /\ real_bw c <= dedi_bw c;
  cl_freqs : freqs_ok c }.

Record pool_ok (m : Z) (s : isomgr) : Prop := {
  pl_len : length (isomgr_clients s) = 11%nat;
  pl_valid : length (client_valid s) = 11%nat;
  pl_max : max_iso_bw s = m;
  pl_range : 0 <= m < 2 ^ 31;
  pl_avail : 0 <= avail_bw s;
  pl_held : total held (isomgr_clients s) + avail_bw s <= m;
  pl_dedi : total dedi_bw (isomgr_clients s) <= iso_dedi_bw s <= m;
  pl_sleep : iso_sleep_bw s = 0;
  pl_clients : Forall (client_pool m) (isomgr_clients s) }.

(** Nothing is lost: the accounts add up, and a client without references holds nothing. *)
Record intact (s : isomgr) : Prop := {
  in_held : total held (isomgr_clients s) + avail_bw s = max_iso_bw s;
  in_dedi : total dedi_bw (isomgr_clients s) = iso_dedi_bw s;
  in_dead : Forall (fun c => kref c = 0 -> held c = 0 /\ dedi_bw c = 0) (isomgr_clients s) }.

Section pool.
Context (m : Z).

Lemma pool_lookup s i : pool_ok m s -> 0 <= i < TEGRA_ISO_CLIENT_COUNT ->
  exists c, isomgr_clients s !! Z.to_nat i = Some c /\ client_pool m c.
Proof.
  intros Hs Hi. unfold TEGRA_ISO_CLIENT_COUNT in Hi.
  destruct (lookup_lt_is_Some_2 (isomgr_clients s) (Z.to_nat i)) as [c E]; [rewrite (pl_len m s Hs); lia|].
  exists c. split; [done|]. by eapply Forall_lookup_1 in E; [|apply Hs].
Qed.

Lemma pool_shaped s : pool_ok m s -> shaped s.
Proof. by intros []. Qed.

Lemma held_nonneg s : pool_ok m s -> Forall (fun c => 0 <= held c) (isomgr_clients s).
Proof.
  intros Hs. eapply Forall_impl; [|apply (pl_clients m s Hs)]. intros c [? ? _ _ _ _ _]. rewrite held_max. lia.
Qed.
Lemma dedi_nonneg s : pool_ok m s -> Forall (fun c => 0 <= dedi_bw c) (isomgr_clients s).
Proof.
  intros Hs. eapply Forall_impl; [|apply (pl_clients m s Hs)]. intros c [? ? _ _ _ _ _]. lia.
Qed.

(** The bounds of a client that follow from the sums. *)
Lemma client_bounds s i c : pool_ok m s -> isomgr_clients s !! i = Some c ->
  held c + avail_bw s <= m /\ dedi_bw c <= iso_dedi_bw s <= m /\ real_bw c <= m /\ margin_bw c <= m.
Proof.
  intros Hs E. pose proof (total_ge held _ i c (held_nonneg s Hs) E).
  pose proof (total_ge dedi_bw _ i c (dedi_nonneg s Hs) E). destruct Hs. rewrite held_max in *. lia.
Qed.

(** A change of one client and of the two accounts. *)
Lemma pool_update s s' i c g :
  pool_ok m s -> isomgr_clients s !! i = Some c -> isomgr_clients s' = alter g i (isomgr_clients s) ->
  max_iso_bw s' = max_iso_bw s -> iso_sleep_bw s' = iso_sleep_bw s -> client_valid s' = client_valid s ->
  client_pool m (g c) -> 0 <= avail_bw s' -> held (g c) + avail_bw s' <= held c + avail_bw s ->
  dedi_bw (g c) - dedi_bw c + iso_dedi_bw s <= iso_dedi_bw s' <= m ->
  pool_ok m s'.
Proof.
  intros [] E Ec Em Es Ev Hc Ha Hh Hd. split; try congruence; try done.
  - by rewrite Ec, length_alter.
  - rewrite Ec, (total_alter held g i _ c E). lia.
  - rewrite Ec, (total_alter dedi_bw g i _ c E). lia.
  - rewrite Ec. apply Forall_alter; [done|]. intros x Hx _. by simplify_eq.
Qed.

Lemma intact_update s s' i c g :
  intact s -> isomgr_clients s !! i = Some c -> isomgr_clients s' = alter g i (isomgr_clients s) ->
  max_iso_bw s' = max_iso_bw s -> held (g c) + avail_bw s' = held c + avail_bw s ->
  dedi_bw (g c) - dedi_bw c + iso_dedi_bw s = iso_dedi_bw s' ->
  (kref (g c) = 0 -> held (g c) = 0 /\ dedi_bw (g c) = 0) ->
  intact s'.
Proof.
  intros [] E Ec Em Hh Hd Hk. split.
  - rewrite Ec, (total_alter held g i _ c E). lia.
  - rewrite Ec, (total_alter dedi_bw g i _ c E). lia.
  - rewrite Ec. apply Forall_alter; [done|]. intros x Hx _. by simplify_eq.
Qed.

Lemma Forall_clocked (P : isomgr_client -> Prop) l l' :
  (forall c x, P c -> P (set_real_mf_rq x c)) -> map forget_rq l' = map forget_rq l -> Forall P l -> Forall P l'.
Proof.
  intros HP E F. apply Forall_lookup_2. intros i c Hi.
  pose proof (f_equal (lookup i) E) as El. rewrite !list_lookup_fmap, Hi in El.
  destruct (l !! i) as [c0|] eqn:E0; [|done]. injection El as El.
  replace c with (set_real_mf_rq (real_mf_rq c) c0); [apply HP; by eapply Forall_lookup_1|].
  destruct c, c0. unfold forget_rq, set_real_mf_rq in *. cbn in *. by simplify_eq.
Qed.

Lemma pool_clocked s s' : clocked s s' -> pool_ok m s -> pool_ok m s'.
Proof.
  intros [] []. split; try congruence; try lia.
  - by rewrite <- (length_map forget_rq), ck_clients, length_map.
  - rewrite (total_forget held _ _ ltac:(done) ck_clients). lia.
  - rewrite (total_forget dedi_bw _ _ ltac:(done) ck_clients). lia.
  - eapply Forall_clocked; [|exact ck_clients|done]. intros c x []. by split.
Qed.

Lemma intact_clocked s s' : clocked s s' -> intact s -> intact s'.
Proof.
  intros [] []. split.
  - rewrite (total_forget held _ _ ltac:(done) ck_clients). lia.
  - rewrite (total_forget dedi_bw _ _ ltac:(done) ck_clients). lia.
  - eapply Forall_clocked; [|exact ck_clients|done]. done.
Qed.
End pool.

(** ** The operations *)

Section ops.
Context `{ClkOps} (bops : bwmgr_ops) (D : dram -> Prop) `{Ops : !OpsOk bops D} (m : Z).

(** No client's bandwidth needs more than 2.147 GHz, where KHz times 1000 overflows. *)
Hypothesis mf_ok : forall d bw, D d -> 0 <= bw <= m -> 0 <= u32 (op_bw_to_freq bops d bw) <= mf_max.

(** A sound state, the lock apart. *)
Definition sound (s : isomgr) : Prop := pool_ok m s /\ bok D s.

Abbreviation ops := (isomgr_ops_pre_t19x bops).

Lemma sound_framed s s' : framed D s s' -> sound s -> sound s'.
Proof. intros [Hc Hb] [Hp _]. split; [by eapply pool_clocked|done]. Qed.

Lemma sound_freqs s : sound s -> clients_freqs s.
Proof.
  intros [[] _]. split; [done|]. eapply Forall_impl; [|exact pl_clients0]. by intros c [].
Qed.

Lemma sound_lookup s i : sound s -> 0 <= i < TEGRA_ISO_CLIENT_COUNT ->
  exists c, isomgr_clients s !! Z.to_nat i = Some c /\ client_pool m c.
Proof. intros [Hp _]. by apply pool_lookup. Qed.

(** Neither invariant depends on the lock. *)
Lemma sound_lock l t s : sound (set_iso_lock l t s) <-> sound s.
Proof. split; intros [[] Hb]; by split. Qed.
Lemma intact_lock l t s : intact (set_iso_lock l t s) <-> intact s.
Proof. split; intros []; by split. Qed.

Lemma sound_update s s' i c g :
  sound s -> isomgr_clients s !! i = Some c -> isomgr_clients s' = alter g i (isomgr_clients s) ->
  max_iso_bw s' = max_iso_bw s -> iso_sleep_bw s' = iso_sleep_bw s -> client_valid s' = client_valid s ->
  iso_bwmgr s' = iso_bwmgr s -> client_pool m (g c) -> 0 <= avail_bw s' ->
  held (g c) + avail_bw s' <= held c + avail_bw s ->
  dedi_bw (g c) - dedi_bw c + iso_dedi_bw s <= iso_dedi_bw s' <= m ->
  sound s'.
Proof.
  intros [Hp Hb] E Ec Em Es Ev Eb Hc Ha Hh Hd. split; [by eapply pool_update|]. unfold bok in *. by rewrite Eb.
Qed.

Lemma set_kref_pool k c : - 2 ^ 31 <= k < 2 ^ 31 -> client_pool m c -> client_pool m (set_kref k c).
Proof. intros ? []. by split. Qed.

Lemma sound_kref i k c s : sound s -> isomgr_clients s !! Z.to_nat i = Some c -> - 2 ^ 31 <= k < 2 ^ 31 ->
  sound (upd_client i (set_kref k) s).
Proof.
  intros Hs E Hk. pose proof (client_bounds m s _ c (proj1 Hs) E).
  eapply (sound_update s _ _ c (set_kref k)); try done.
  - apply set_kref_pool; [done|]. by eapply Forall_lookup_1; [apply Hs|].
  - apply (pl_avail m s), Hs.
  - cbn. lia.
Qed.

Lemma purge_pool c : client_pool m c -> client_pool m (purge_isomgr_client c).
Proof. intros [? ? ? ? ? ? [? [? ?]]]. split; cbn; try lia. repeat split; cbn; unfold mf_max in *; try lia. done. Qed.

(** Dropping a reference: the last one returns what the client holds, unless a realization is
    in progress. *)
Lemma wp_kref_put t i c s (Q : unit -> isomgr -> Prop) :
  sound s -> held_by t s -> isomgr_clients s !! Z.to_nat i = Some c ->
  (s32 (kref c - 1) <> 0 -> Q tt (upd_client i (set_kref (s32 (kref c - 1))) s)) ->
  (s32 (kref c - 1) = 0 -> realize c = true -> Q tt (upd_client i (set_kref 0) s)) ->
  (s32 (kref c - 1) = 0 -> realize c = false ->
     forall s', sound s' -> held_by t s' -> (intact s -> intact s') -> (in_step s -> in_step s') -> Q tt s') ->
  wp (kref_put bops ops t i) Q s.
Proof.
  intros Hs Ht E H1 H2 H3. unfold kref_put. wp_simpl. eapply wp_upd; [exact E|]. cbv beta. wp_simpl.
  set (c1 := set_kref (s32 (kref c - 1)) c).
  assert (upd_client i (fun c => set_kref (s32 (kref c - 1)) c) s = upd_client i (set_kref (s32 (kref c - 1))) s) as ->
    by (unfold upd_client; by rewrite !(alter_insert _ _ _ _ E)).
  set (s1 := upd_client i _ s) in *. assert (isomgr_clients s1 !! Z.to_nat i = Some c1) as E1 by (by apply upd_client_at).
  eapply wp_cp; [exact E1|]. cbn [kref c1 set_kref].
  destruct (Z.eqb_spec (s32 (kref c - 1)) 0) as [K|K]; [|by apply H1].
  unfold unregister_iso_client. wp_simpl. apply wp_trylock; [apply Ht|]. wp_simpl.
  eapply wp_cp; [exact E1|]. cbn [realize c1 set_kref]. destruct (realize c) eqn:R.
  { wp_simpl. unfold s1. rewrite K. by apply H2. }
  pose proof (client_bounds m s _ c (proj1 Hs) E). pose proof (pl_avail m s (proj1 Hs)).
  pose proof (Forall_lookup_1 _ _ _ _ (pl_clients m s (proj1 Hs)) E) as Hc.
  pose proof (pl_range m s (proj1 Hs)).
  assert ((if margin_bw c <? real_bw c then real_bw c else margin_bw c) = held c) as Eh
    by (rewrite held_max; case_z; lia).
  cbn [isomgr_plat_unregister isomgr_ops_pre_t19x]. unfold pre_t19x_iso_plat_unregister. wp_simpl.
  eapply wp_cp; [exact E1|]. cbv beta. wp_simpl. cbn [margin_bw real_bw c1 set_kref]. rewrite Eh.
  eapply wp_upd; [exact E1|]. wp_simpl. cbn [avail_bw iso_dedi_bw set_avail_bw dedi_bw c1 set_kref].
  rewrite !s32_small by (change (avail_bw s1) with (avail_bw s); change (iso_dedi_bw s1) with (iso_dedi_bw s); destruct Hc; rewrite ?held_max in *; lia).
  match goal with |- wp _ _ ?x => set (s2 := x) end.
  assert (isomgr_clients s2 = alter (purge_isomgr_client ∘ set_kref (s32 (kref c - 1))) (Z.to_nat i) (isomgr_clients s)) as E2
    by (unfold s2, upd_client; cbn; by rewrite list_alter_alter_eq).
  assert (held ((purge_isomgr_client ∘ set_kref (s32 (kref c - 1))) c) = 0) as Eg by done.
  assert (sound s2) as Hs2.
  { eapply (sound_update s s2 _ c); [done|exact E|exact E2|done..| | | |].
    - cbn. apply purge_pool, set_kref_pool; [apply s32_range|done].
    - cbn. destruct Hc. rewrite held_max. lia.
    - rewrite Eg. cbn. lia.
    - cbn. destruct Hc. lia. }
  eapply wp_mono; [apply (update_mc_clock_spec bops D t s2)|].
  - by apply sound_freqs.
  - apply Hs2.
  - apply Ht.
  - intros [] s3 [Hf Hlk]. apply H3; [done|done|by eapply sound_framed| | |].
    + destruct Hf as [[] _]. unfold held_by in *. cbn in *. destruct Ht. split; congruence.
    + intros Hi. eapply intact_clocked; [apply Hf|].
      eapply (intact_update s s2 _ c); [done|exact E|exact E2|done| |cbn; lia|done].
      rewrite Eg. cbn. lia.
    + intros Hl. apply Hlk. eapply in_step_links; [|exact Hl]. unfold links at 1. rewrite E2.
      exact (links_alter (purge_isomgr_client ∘ set_kref (s32 (kref c - 1))) (Z.to_nat i) s ltac:(done)).
Qed.

(** What holds after a call, if [P] did when it was made. *)
Definition after (P : Prop) (s s' : isomgr) : Prop :=
  free s' /\ sound s' /\ (P -> intact s -> intact s') /\ (in_step s -> in_step s').

Lemma after_same P s : free s -> sound s -> after P s s.
Proof. by split. Qed.
Lemma after_unlock (P : Prop) s s' : sound s' -> (P -> intact s -> intact s') -> (in_step s -> in_step s') ->
  after P s (set_iso_lock false None s').
Proof.
  intros ? Hi Hl. split; [done|]. split; [by apply sound_lock|]. split; [intros; by apply intact_lock, Hi|].
  intros. by apply in_step_lock, Hl.
Qed.

Lemma register_ok t i udedi reneg s :
  sound s -> free s -> 0 <= udedi < 2 ^ 32 ->
  wp (__tegra_isomgr_register ops t i udedi reneg) (fun _ s' => after True s s') s.
Proof.
  intros Hs Hf Hu. unfold __tegra_isomgr_register. wp_simpl.
  apply wp_is_client_valid; [by apply (pool_shaped m), Hs| |by intros _; apply after_same]. intros [Hi _]. cbn [negb].
  destruct (_ && _); wp_simpl; [by apply after_same|].
  apply wp_lock; [done|]. cbn [negb]. wp_simpl. set (s1 := set_iso_lock _ _ s).
  destruct (sound_lookup s i Hs Hi) as (c & E & Hc). eapply wp_cp; [exact E|].
  assert (wp (isomgr_unlock t;; mret ERR) (fun _ s' => after True s s') s1) as Hfail.
  { wp_simpl. apply wp_unlock; [done|]. unfold s1. rewrite free_lock by done. by apply after_same. }
  destruct (Z.eqb_spec (kref c) 0) as [K|]; [|exact Hfail]. cbn [negb]. wp_simpl.
  cbn [isomgr_plat_register isomgr_ops_pre_t19x]. unfold pre_t19x_iso_plat_register. wp_simpl.
  cbn [max_iso_bw iso_dedi_bw s1 set_iso_lock]. rewrite u32_s32, (pl_max m s (proj1 Hs)) by done.
  pose proof (pl_range m s (proj1 Hs)). pose proof (client_bounds m s _ c (proj1 Hs) E).
  destruct (Z.ltb_spec (u32 (m - iso_dedi_bw s)) udedi) as [|Hle]; cbn [negb]; [exact Hfail|].
  rewrite u32_small in Hle by (destruct Hc; lia). assert (s32 udedi = udedi) as -> by (apply s32_small; destruct Hc; lia).
  wp_simpl. eapply wp_upd; [exact E|]. wp_simpl. apply wp_unlock; [done|]. wp_simpl.
  cbn [iso_dedi_bw upd_client set_isomgr_clients s1 set_iso_lock]. rewrite s32_small by (destruct Hc; lia).
  match goal with |- after _ _ (set_iso_lock false None (set_iso_dedi_bw _ (upd_client i ?f _))) => set (g := f) end.
  apply after_unlock.
  - eapply (sound_update s _ _ c g); [done|exact E|done..| | | |]; cbn.
    + destruct Hc as [? ? ? ? ? ? [? [? ?]]]. split; cbn; try lia. repeat split; cbn; unfold mf_max in *; try lia. done.
    + apply (pl_avail m s), Hs.
    + destruct Hc. rewrite held_max. lia.
    + destruct Hc. lia.
  - intros _ Hin. destruct (Forall_lookup_1 _ _ _ _ (in_dead s Hin) E K) as [Hh Hd].
    eapply (intact_update s _ _ c g); [done|exact E|done..| | |]; cbn; lia.
  - intros Hl. refine (in_step_links s _ _ Hl). by apply (links_alter g (Z.to_nat i) s).
Qed.

Definition realizing (h : tegra_isomgr_handle) (s : isomgr) : Prop :=
  match h with
  | CLIENT i => exists c, isomgr_clients s !! Z.to_nat i = Some c /\ realize c = true
  | _ => False
  end.

Lemma unregister_ok t h s : sound s -> free s ->
  wp (__tegra_isomgr_unregister bops ops t h) (fun _ s' => after (~ realizing h s) s s') s.
Proof.
  intros Hs Hf. unfold __tegra_isomgr_unregister. wp_simpl.
  apply wp_VALIDATE_HANDLE; [by apply (pool_shaped m), Hs| |by intros _; apply after_same]. intros i c (-> & [Hi _] & E & _). wp_simpl.
  apply wp_lock; [done|]. cbn [negb]. wp_simpl. set (s1 := set_iso_lock _ _ s).
  assert (sound s1) as Hs1 by (by apply sound_lock).
  eapply (wp_kref_put t i c s1); [done|done|exact E|..].
  - intros K. wp_simpl. apply wp_unlock; [done|]. wp_simpl. apply after_unlock.
    + eapply sound_kref; [done|exact E|apply s32_range].
    + intros _ Hin. eapply (intact_update s _ _ c (set_kref (s32 (kref c - 1)))); try done.
      cbn. lia.
    + intros Hl. by apply in_step_upd, in_step_lock.
  - intros K R. wp_simpl. apply wp_unlock; [done|]. wp_simpl. apply after_unlock.
    + eapply sound_kref; [done|exact E|lia].
    + intros P. exfalso. apply P. by exists c.
    + intros Hl. by apply in_step_upd, in_step_lock.
  - intros K R s2 Hs2 Ht2 Hin2 Hlk2. wp_simpl. apply wp_unlock; [done|]. wp_simpl. apply after_unlock; [done| |].
    + intros _ Hin. by apply Hin2, intact_lock.
    + intros Hl. by apply Hlk2, in_step_lock.
Qed.

Lemma wp_kref_put_again t i c k s (Q : unit -> isomgr -> Prop) :
  sound s -> held_by t s -> isomgr_clients s !! Z.to_nat i = Some c -> - 2 ^ 31 <= k < 2 ^ 31 -> k <> 0 ->
  kref c = s32 (k + 1) -> Q tt (upd_client i (set_kref k) s) -> wp (kref_put bops ops t i) Q s.
Proof.
  intros Hs Ht E Hr Hk Ek HQ. assert (s32 (kref c - 1) = k) as Es by (rewrite Ek; by apply s32_inc_dec).
  eapply wp_kref_put; [done|done|exact E|..]; rewrite Es; [done|lia|lia].
Qed.

Lemma wp_put_unlock t i c k r s (Q : Z -> isomgr -> Prop) :
  sound s -> held_by t s -> isomgr_clients s !! Z.to_nat i = Some c -> - 2 ^ 31 <= k < 2 ^ 31 -> k <> 0 ->
  kref c = s32 (k + 1) -> Q r (set_iso_lock false None (upd_client i (set_kref k) s)) ->
  wp (put_unlock bops ops t i r) Q s.
Proof.
  intros Hs Ht E Hr Hk Ek HQ. unfold put_unlock. wp_simpl.
  eapply wp_kref_put_again; [done|done|exact E|exact Hr|done|done|]. wp_simpl. apply wp_unlock; [done|]. exact HQ.
Qed.

Lemma ref_sound t i c s : sound s -> isomgr_clients s !! Z.to_nat i = Some c ->
  let s2 := upd_client i (set_kref (s32 (kref c + 1))) (set_iso_lock true (Some t) s) in
  sound s2 /\ held_by t s2 /\ isomgr_clients s2 !! Z.to_nat i = Some (set_kref (s32 (kref c + 1)) c).
Proof.
  intros Hs E s2. split; [|split; [done|by apply upd_client_at]].
  eapply sound_kref; [by apply sound_lock|exact E|apply s32_range].
Qed.

(** Giving up: nothing has changed. *)
Lemma wp_give_up t i c r s (Q : Z -> isomgr -> Prop) :
  sound s -> free s -> isomgr_clients s !! Z.to_nat i = Some c -> client_pool m c -> kref c <> 0 -> Q r s ->
  wp (put_unlock bops ops t i r) Q (upd_client i (set_kref (s32 (kref c + 1))) (set_iso_lock true (Some t) s)).
Proof.
  intros Hs Hf E Hc Hk HQ. destruct (ref_sound t i c s Hs E) as (Hs2 & Ht2 & E2).
  eapply (wp_put_unlock t i _ (kref c)); [done|done|exact E2|apply Hc|done|done|].
  rewrite <- (upd_client_id i _ _ E2) at 1. rewrite (kref_roundtrip i c _ id) by done.
  rewrite (upd_client_id i c) by done. by rewrite free_lock.
Qed.

(** The early return: the result is the stored latency. *)
Lemma wp_already t i c s (Q : Z -> isomgr -> Prop) :
  sound s -> free s -> isomgr_clients s !! Z.to_nat i = Some c -> client_pool m c -> kref c <> 0 ->
  Q (u32 (lto c)) s ->
  wp (kref_put bops ops t i;;
      ok ← isomgr_unlock t;
      c ← cp i;
      mret (if ok : bool then u32 (lto c) else 0)) Q
    (upd_client i (set_kref (s32 (kref c + 1))) (set_iso_lock true (Some t) s)).
Proof.
  intros Hs Hf E Hc Hk HQ. destruct (ref_sound t i c s Hs E) as (Hs2 & Ht2 & E2). wp_simpl.
  eapply (wp_kref_put_again t i _ (kref c)); [done|done|exact E2|apply Hc|done|done|]. wp_simpl.
  rewrite <- (upd_client_id i _ _ E2) at 1. rewrite (kref_roundtrip i c _ id) by done.
  rewrite (upd_client_id i c) by done. apply wp_unlock; [done|]. wp_simpl. rewrite free_lock by done.
  eapply wp_cp; [exact E|]. exact HQ.
Qed.

(** ** Reserve *)

Definition reservation (ubw ult mf lat : Z) (c : isomgr_client) : isomgr_client :=
  set_rsvd_bw ubw (set_rsvd_mf (s32 mf) (set_lto (s32 lat) (set_lti (s32 ult) c))).

(** Why the pool lets client [c] reserve [bw]. *)
Definition affordable (bw : Z) (c : isomgr_client) (s : isomgr) : Prop :=
  (renegotiate c = true \/ bw <= dedi_bw c) /\
  (bw <= dedi_bw c \/ bw <= avail_bw s + real_bw c).

(** The limit of the client, of what the memory can do at its highest rate. *)
Definition within_limit (bw : Z) (c : isomgr_client) (s : isomgr) : Prop :=
  bw <= u64 (u32 (op_freq_to_bw bops (b_dram (iso_bwmgr s)) (emc_max_rate (iso_bwmgr s) / 1000)) * limit_bw_percentage c) / 100.
Definition can_reserve (bw : Z) (c : isomgr_client) (s : isomgr) : Prop :=
  realize c = false /\ affordable bw c s /\ within_limit bw c s.

(** The frequency for a bandwidth, and the latency of a change to it. *)
Definition min_freq (bw : Z) (s : isomgr) : Z :=
  if bw =? 0 then 0 else u32 (op_bw_to_freq bops (b_dram (iso_bwmgr s)) bw).
Definition latency (bw : Z) (s : isomgr) : Z :=
  op_dvfs_latency bops (b_dram (iso_bwmgr s)) (min_freq bw s).

(** Every outcome of a reservation: a bad handle, the reservation as it was, a new one, or a
    refusal. *)
Definition reserved (h : tegra_isomgr_handle) (ubw ult r : Z) (s s' : isomgr) : Prop :=
  (forall i c, registered h i c s -> kref c = 0) /\ r = 0 /\ s' = s \/
  exists i c, registered h i c s /\ kref c <> 0 /\
    (u32 (rsvd_bw c) = ubw /\ u32 (lti c) = ult /\ r = u32 (lto c) /\ s' = s \/
     ~ (u32 (rsvd_bw c) = ubw /\ u32 (lti c) = ult) /\ can_reserve ubw c s /\ r = latency ubw s /\
       s' = upd_client i (reservation ubw ult (min_freq ubw s) r) s \/
     ~ (u32 (rsvd_bw c) = ubw /\ u32 (lti c) = ult) /\ ~ can_reserve ubw c s /\ r = 0 /\ s' = s).

Lemma reservation_pool c s ubw ult mf lat : client_pool m c -> affordable ubw c s -> 0 <= ubw <= m ->
  0 <= mf <= mf_max -> client_pool m (reservation ubw ult mf lat c).
Proof.
  intros [? ? ? ? ? Hre (? & ? & ?)] [Ha _] Hu Hmf.
  assert (s32 mf = mf) as Emf by (unfold mf_max in *; apply s32_small; lia).
  split; [done|done|done|done|done| |].
  - intros Rn. change (ubw <= dedi_bw c /\ real_bw c <= dedi_bw c).
    destruct Ha as [Rt|]; [by cbn in Rn; congruence|]. by destruct (Hre Rn).
  - split; [|done]. change (0 <= s32 mf <= mf_max). by rewrite Emf.
Qed.

Lemma affordable_le c s i bw : sound s -> isomgr_clients s !! i = Some c -> affordable bw c s -> bw <= m.
Proof.
  intros Hs E [_ Ha]. pose proof (client_bounds m s _ c (proj1 Hs) E) as (Hh & Hd & _).
  rewrite held_max in Hh. lia.
Qed.

Lemma min_freq_ok bw s : sound s -> 0 <= bw <= m -> 0 <= min_freq bw s <= mf_max.
Proof.
  intros Hs Hb. unfold min_freq. destruct (bw =? 0); [unfold mf_max; lia|]. apply mf_ok; [|done].
  apply (dram_ok D), Hs.
Qed.

(** The checks of the chip's rules, after that of the callback. *)
Lemma wp_plat_reserve i c ubw s (Q : bool -> isomgr -> Prop) :
  sound s -> isomgr_clients s !! Z.to_nat i = Some c -> 0 <= ubw < 2 ^ 32 ->
  ((ubw <= dedi_bw c \/ ubw <= avail_bw s + real_bw c) /\ within_limit ubw c s -> Q true s) ->
  (~ ((ubw <= dedi_bw c \/ ubw <= avail_bw s + real_bw c) /\ within_limit ubw c s) -> Q false s) ->
  wp (pre_t19x_iso_plat_reserve bops i ubw) Q s.
Proof.
  intros Hs E Hu Ht Hf. unfold pre_t19x_iso_plat_reserve. wp_simpl. eapply wp_cp; [exact E|]. cbv beta. wp_simpl.
  pose proof (client_bounds m s _ c (proj1 Hs) E). pose proof (pl_avail m s (proj1 Hs)).
  pose proof (pl_range m s (proj1 Hs)). destruct (Forall_lookup_1 _ _ _ _ (pl_clients m s (proj1 Hs)) E).
  rewrite held_max in *. rewrite (pl_sleep m s (proj1 Hs)), !u32_small by lia.
  destruct (negb (ubw <=? margin_bw c) && (dedi_bw c <? ubw) && (avail_bw s + real_bw c - 0 <? ubw)) eqn:Ea.
  - wp_simpl. apply Hf. intros [Ha _]. revert Ea. repeat case_z; intros; try discriminate; lia.
  - assert (ubw <= dedi_bw c \/ ubw <= avail_bw s + real_bw c) as Hor
      by (revert Ea; repeat case_z; intros; try discriminate; lia).
    clear Ea. wp_simpl. eapply wp_bwm_read; [reflexivity|]. wp_simpl. eapply wp_bwm_read; [reflexivity|]. wp_simpl.
    unfold within_limit in *.
    destruct (Z.ltb_spec (u64 (u32 (op_freq_to_bw bops (b_dram (iso_bwmgr s)) (emc_max_rate (iso_bwmgr s) / 1000)) *
      limit_bw_percentage c) / 100) ubw); cbn [negb].
    + apply Hf. lia.
    + by apply Ht.
Qed.

Lemma reserve_ok t h ubw ult s :
  sound s -> free s -> 0 <= ubw < 2 ^ 32 ->
  wp (__tegra_isomgr_reserve bops ops t h ubw ult) (fun r s' => reserved h ubw ult r s s') s.
Proof.
  intros Hs Hf Hu. unfold __tegra_isomgr_reserve. rewrite wp_bind.
  apply wp_VALIDATE_HANDLE; [by apply (pool_shaped m), Hs| |by intros Hn; left; split; [intros i c Hr; by destruct (Hn i c)|]].
  intros i c Hreg. pose proof Hreg as (-> & [Hi _] & E & _).
  pose proof (Forall_lookup_1 _ _ _ _ (pl_clients m s (proj1 Hs)) E) as Hc.
  apply (with_ref t i c s); [done..| |].
  { intros K. left. split; [|done]. intros i' c' (? & _ & ? & _). by simplify_eq. }
  intros K. destruct (ref_sound t i c s Hs E) as (Hs2 & Ht2 & E2).
  set (s2 := upd_client i _ _) in *. set (c2 := set_kref _ c) in *.
  wp_simpl. eapply wp_cp; [exact E2|]. cbv beta.
  assert (((u32 (rsvd_bw c2) =? ubw) && (u32 (lti c2) =? ult)) =
          bool_decide (u32 (rsvd_bw c) = ubw /\ u32 (lti c) = ult)) as ->.
  { change (rsvd_bw c2) with (rsvd_bw c). change (lti c2) with (lti c).
    apply eq_true_iff_eq. by rewrite andb_true_iff, !Z.eqb_eq, bool_decide_eq_true. }
  destruct (bool_decide_reflect (u32 (rsvd_bw c) = ubw /\ u32 (lti c) = ult)) as [[]|Hnew].
  { apply wp_already; try done. right. exists i, c. split; [done|]. split; [done|]. by left. }
  assert (~ can_reserve ubw c s -> wp (put_unlock bops ops t i 0)
    (fun r s' => reserved (CLIENT i) ubw ult r s s') s2) as Hno
    by (intros Hn; apply wp_give_up; try done; right; exists i, c; split; [done|]; split; [done|]; right; by right).
  change (realize c2) with (realize c). destruct (realize c) eqn:R; [apply Hno; intros [? _]; congruence|].
  change (renegotiate c2) with (renegotiate c). change (dedi_bw c2) with (dedi_bw c).
  pose proof (pl_range m s (proj1 Hs)).
  destruct (negb (renegotiate c) && (dedi_bw c <? s32 ubw)) eqn:Re.
  { apply Hno. intros (_ & Ha & _). pose proof (affordable_le c s _ ubw Hs E Ha). rewrite s32_small in Re by lia.
    apply andb_prop in Re as [Rn%negb_true_iff ?%Z.ltb_lt]. destruct Ha as [[|] _]; [congruence|lia]. }
  cbn [isomgr_plat_reserve isomgr_ops_pre_t19x]. rewrite wp_bind, u32_s32 by done.
  apply (wp_plat_reserve i c2 ubw s2); [done|exact E2|done| |intros Hn; apply Hno; intros (_ & [_ ?] & ?); by apply Hn].
  intros [Haf Hlim]. cbn [negb].
  assert (affordable ubw c s) as Haff.
  { pose proof (client_bounds m s _ c (proj1 Hs) E) as Hb. rewrite held_max in Hb.
    change (avail_bw s2) with (avail_bw s) in *. cbn [dedi_bw real_bw c2 set_kref] in Haf.
    split; [|done]. rewrite s32_small in Re by lia. destruct (renegotiate c); [by left|]. cbn in Re.
    apply Z.ltb_ge in Re. by right. }
  pose proof (affordable_le c s _ ubw Hs E Haff) as Hm.
  pose proof (client_bounds m s _ c (proj1 Hs) E). pose proof (pl_avail m s (proj1 Hs)).
  enough (forall mf, mf = min_freq ubw s -> wp
    (dvfs_latency ← bwm (bwmgr_dvfs_latency bops mf);
     upd i (fun c => set_rsvd_bw (s32 ubw) (set_rsvd_mf (s32 mf) (set_lto (s32 dvfs_latency) (set_lti (s32 ult) c))));;
     put_unlock bops ops t i dvfs_latency) (fun r s' => reserved (CLIENT i) ubw ult r s s') s2) as Hrest.
  { unfold mc_min_freq, mc_dvfs_latency, min_freq in *. wp_simpl. destruct (ubw =? 0); wp_simpl;
      [|eapply wp_bwm_read; [reflexivity|]; wp_simpl]; specialize (Hrest _ eq_refl); by rewrite !wp_bind in Hrest. }
  intros mf Emf. pose proof (min_freq_ok ubw s Hs ltac:(lia)) as Hmf. rewrite <- Emf in Hmf.
  wp_simpl. eapply wp_bwm_read; [reflexivity|]. wp_simpl. eapply wp_upd; [exact E2|]. wp_simpl.
  set (lat := op_dvfs_latency _ _ _). rewrite (s32_small ubw) by lia.
  change (fun c => set_rsvd_bw ubw _) with (reservation ubw ult mf lat).
  eapply (wp_put_unlock t i _ (kref c)).
  - eapply (sound_update s2 _ _ c2 (reservation ubw ult mf lat)); [done|exact E2|done..| | | |]; try done; try (cbn; lia).
    eapply (reservation_pool _ s2); [by apply set_kref_pool; [apply s32_range|]|exact Haff|lia|done].
  - done.
  - by apply upd_client_at.
  - apply Hc.
  - done.
  - done.
  - right. exists i, c. split; [done|]. split; [done|]. right. left. split; [done|]. split; [done|].
    split; [by unfold lat; rewrite Emf|]. unfold s2.
    change (set_iso_lock false None (upd_client i (set_kref (kref c)) (upd_client i (reservation ubw ult mf lat)
      (upd_client i (set_kref (s32 (kref c + 1))) (set_iso_lock true (Some t) s)))) =
      upd_client i (reservation ubw ult (min_freq ubw s) lat) s).
    rewrite kref_roundtrip, Emf by done.
    change (upd_client i (reservation ubw ult (min_freq ubw s) lat)
      (set_iso_lock false None (set_iso_lock true (Some t) s)) = upd_client i (reservation ubw ult (min_freq ubw s) lat) s).
    by rewrite free_lock.
Qed.

Lemma reserved_after h ubw ult r s s' : sound s -> free s -> 0 <= ubw -> reserved h ubw ult r s s' -> after True s s'.
Proof.
  intros Hs Hf Hu [(_ & _ & ->)|(i & c & (-> & _ & E & _) & K & Hr)]; [by apply after_same|].
  destruct Hr as [(_ & _ & _ & ->)|[(_ & Hcan & _ & ->)|(_ & _ & _ & ->)]]; [by apply after_same| |by apply after_same].
  destruct Hcan as (_ & Ha & _). pose proof (affordable_le c s _ ubw Hs E Ha).
  pose proof (Forall_lookup_1 _ _ _ _ (pl_clients m s (proj1 Hs)) E) as Hc.
  pose proof (client_bounds m s _ c (proj1 Hs) E).
  split; [done|]. split; [|split].
  - eapply (sound_update s _ _ c (reservation ubw ult (min_freq ubw s) r)); [done|exact E|done..| | | |].
    + eapply reservation_pool; [done|done|lia|]. apply min_freq_ok; [done|lia].
    + apply (pl_avail m s), Hs.
    + done.
    + cbn. lia.
  - intros _ Hin. eapply (intact_update s _ _ c (reservation ubw ult (min_freq ubw s) r)); [done|exact E|done..| |].
    + cbn. lia.
    + apply (Forall_lookup_1 _ _ _ _ (in_dead s Hin) E).
  - by apply in_step_upd.
Qed.

(** ** Realize *)

(** The pool has room for the reservation of [c]. *)
Definition fits (c : isomgr_client) (s : isomgr) : bool := rsvd_bw c <=? avail_bw s + held c.

Definition realization (ok : bool) (c : isomgr_client) : isomgr_client :=
  if ok then set_real_mf (rsvd_mf c) (set_real_bw (rsvd_bw c) (set_realize true c))
  else set_realize true (set_real_bw 0 c).
Definition realize_state (i : Z) (c : isomgr_client) (s : isomgr) : isomgr :=
  let ok := fits c s in
  set_avail_bw (avail_bw s + held c - (if ok then Z.max (rsvd_bw c) (margin_bw c) else margin_bw c))
    (upd_client i (realization ok) s).

Lemma in_step_realize i c s : in_step s -> in_step (realize_state i c s).
Proof.
  intros Hl. refine (in_step_links (upd_client i (realization (fits c s)) s) (realize_state i c s) eq_refl _).
  apply in_step_upd; [|done]. intros d. by destruct (fits c s).
Qed.

Lemma sanity_total s : pool_ok m s -> sanity s = (total held (isomgr_clients s) + avail_bw s =? m).
Proof.
  intros Hs. unfold sanity. pose proof (held_nonneg m s Hs) as Hn. pose proof (pl_range m s Hs).
  pose proof (pl_avail m s Hs). pose proof (pl_held m s Hs) as Hle. rewrite (pl_max m s Hs).
  assert (forall a, 0 <= a -> a + total held (isomgr_clients s) < 2 ^ 31 ->
    fold_left (fun t c => s32 (t + held c)) (isomgr_clients s) a = a + total held (isomgr_clients s)) as E.
  { clear -Hn. unfold total. induction Hn as [|c l Hc Hl IH]; intros a Ha Hb; cbn in *; [lia|].
    pose proof (total_nonneg held l Hl). unfold total in *.
    rewrite s32_small by lia. rewrite IH by lia. lia. }
  pose proof (total_nonneg held _ Hn). rewrite E by lia. by rewrite Z.add_0_l, u32_small by lia.
Qed.

Lemma realize_state_sound i c s : sound s -> isomgr_clients s !! Z.to_nat i = Some c ->
  sound (realize_state i c s) /\
  total held (isomgr_clients (realize_state i c s)) + avail_bw (realize_state i c s) =
    total held (isomgr_clients s) + avail_bw s.
Proof.
  intros Hs E. pose proof (Forall_lookup_1 _ _ _ _ (pl_clients m s (proj1 Hs)) E) as Hc.
  pose proof (client_bounds m s _ c (proj1 Hs) E). pose proof (pl_avail m s (proj1 Hs)).
  destruct Hc as [? ? ? ? ? Hre (? & ? & ?)].
  assert (held (realization (fits c s) c) = (if fits c s then Z.max (rsvd_bw c) (margin_bw c) else margin_bw c)) as Eh
    by (rewrite held_max; destruct (fits c s); cbn; lia).
  split.
  - eapply (sound_update s _ _ c (realization (fits c s))); [done|exact E|done..| | | |].
    + destruct (fits c s); cbn; split; cbn; try done; try lia.
      * intros Rn. by destruct (Hre Rn).
      * intros Rn. destruct (Hre Rn). lia.
    + unfold realize_state, fits. cbn [avail_bw set_avail_bw]. rewrite held_max in *.
      destruct (Z.leb_spec (rsvd_bw c) (avail_bw s + Z.max (real_bw c) (margin_bw c))); lia.
    + rewrite Eh. unfold realize_state. cbn [avail_bw set_avail_bw]. lia.
    + destruct (fits c s); cbn; lia.
  - unfold realize_state. cbn [isomgr_clients set_avail_bw upd_client set_isomgr_clients avail_bw].
    rewrite (total_alter held _ _ _ c E), Eh. lia.
Qed.

Lemma plat_realize_ok i c s : sound s -> isomgr_clients s !! Z.to_nat i = Some c ->
  wp (pre_t19x_iso_plat_realize i)
    (fun r s' => s' = realize_state i c s /\
       r = fits c s && ((rsvd_bw c <=? margin_bw c) || (total held (isomgr_clients s) + avail_bw s =? m))) s.
Proof.
  intros Hs E. destruct (realize_state_sound i c s Hs E) as [Hs' Et].
  pose proof (Forall_lookup_1 _ _ _ _ (pl_clients m s (proj1 Hs)) E) as Hc.
  pose proof (client_bounds m s _ c (proj1 Hs) E) as Hb. pose proof (pl_avail m s (proj1 Hs)).
  pose proof (pl_range m s (proj1 Hs)). pose proof (pl_max m s (proj1 Hs)) as Em.
  destruct Hc as [? ? ? Hsl ? _ _]. rewrite held_max in Hb.
  unfold pre_t19x_iso_plat_realize. wp_simpl. eapply wp_cp; [exact E|]. cbv beta. wp_simpl.
  set (a1 := avail_bw s + (if margin_bw c <? real_bw c then real_bw c - margin_bw c else 0)).
  assert (forall Q : unit -> isomgr -> Prop, Q tt (set_avail_bw a1 s) -> wp (if margin_bw c <? real_bw c
    then modify (fun s => set_avail_bw (s32 (avail_bw s + s32 (real_bw c - margin_bw c))) s) else mret tt) Q s) as Hgive.
  { intros Q HQ. unfold a1 in HQ. destruct (Z.ltb_spec (margin_bw c) (real_bw c)); wp_simpl.
    - rewrite (s32_small (real_bw c - margin_bw c)), s32_small by lia. done.
    - rewrite Z.add_0_r in HQ. by destruct s. }
  apply Hgive. assert (a1 = avail_bw s + held c - margin_bw c) as Ea1 by (subst a1; rewrite held_max; case_z; lia).
  cbv beta. wp_simpl. eapply wp_upd; [exact E|]. cbv beta. wp_simpl.
  change (max_iso_bw (upd_client i _ (set_avail_bw a1 s))) with (max_iso_bw s).
  change (avail_bw (upd_client i _ (set_avail_bw a1 s))) with a1.
  rewrite Em, u32_small by (rewrite Ea1, held_max; lia).
  destruct (Z.ltb_spec m a1) as [Ho|_]; [rewrite Ea1, held_max in Ho; lia|].
  set (g0 := fun c => set_realize true (set_real_bw 0 c)). rewrite Hsl. cbn [negb Z.eqb].
  assert (isomgr_clients (upd_client i g0 (set_avail_bw a1 s)) !! Z.to_nat i = Some (g0 c)) as E1 by (by apply upd_client_at).
  set (g1 := fun c => set_real_mf (rsvd_mf c) (set_real_bw (rsvd_bw c) c)).
  assert (forall x, fits c s = true -> x = avail_bw s + held c - Z.max (rsvd_bw c) (margin_bw c) ->
    set_avail_bw x (upd_client i g1 (upd_client i g0 s)) = realize_state i c s) as Est.
  { intros x Ef ->. unfold realize_state. rewrite Ef, upd_client_twice. unfold upd_client.
    by rewrite !(alter_insert _ _ _ _ E). }
  destruct (Z.leb_spec (rsvd_bw c) (margin_bw c)) as [Hle|Hgt].
  - wp_simpl. eapply wp_upd; [exact E1|]. wp_simpl.
    assert (fits c s = true) as Ef by (apply Z.leb_le; rewrite held_max; lia).
    split; [|by rewrite Ef]. apply (Est a1 Ef). rewrite held_max in *. lia.
  - assert (fits c s = (rsvd_bw c <=? s32 (a1 + margin_bw c))) as Ef.
    { unfold fits. rewrite s32_small, Ea1 by (rewrite Ea1, held_max; lia). f_equal. lia. }
    rewrite <- Ef. destruct (fits c s) eqn:Ef'; wp_simpl.
    + symmetry in Ef. apply Z.leb_le in Ef'. rewrite held_max in Ef'.
      change (avail_bw (upd_client i g0 (set_avail_bw a1 s))) with a1.
      rewrite (s32_small (rsvd_bw c - margin_bw c)), s32_small by (rewrite ?Ea1, ?held_max; lia).
      eapply wp_upd; [exact E1|]. wp_simpl.
      match goal with |- wp _ _ ?x => assert (x = realize_state i c s) as ->
        by (apply (Est (a1 - (rsvd_bw c - margin_bw c)));
            [done|rewrite Ea1, held_max in *; lia]) end.
      assert (isomgr_clients (realize_state i c s) !! Z.to_nat i = Some (realization (fits c s) c)) as E3
        by (unfold realize_state; by apply upd_client_at).
      eapply wp_cp; [exact E3|]. cbv beta. wp_simpl.
      assert (sleep_bw (realization (fits c s) c) = 0) as -> by (by destruct (fits c s)). cbn [Z.eqb negb].
      pose proof (pl_avail m _ (proj1 Hs')). destruct (Z.ltb_spec (avail_bw (realize_state i c s)) 0); [lia|].
      wp_simpl. split; [done|]. rewrite sanity_total by apply Hs'. rewrite Et. done.
    + split; [|done]. unfold realize_state. rewrite Ef'. unfold upd_client. cbn.
      rewrite !(alter_insert _ _ _ _ E). rewrite Ea1. done.
Qed.

(** What a realization did. [granted]: the pool has room, and the accounts are checked
    unless the margin covers it. *)
Definition granted (c : isomgr_client) (s : isomgr) : bool :=
  fits c s && ((rsvd_bw c <=? margin_bw c) || (total held (isomgr_clients s) + avail_bw s =? m)).
(** Every outcome of a realization: a bad handle, nothing to do, granted or refused. *)
Definition realized (h : tegra_isomgr_handle) (r : Z) (s s' : isomgr) : Prop :=
  (forall i c, registered h i c s -> kref c = 0) /\ r = 0 /\ s' = s \/
  exists i c, registered h i c s /\ kref c <> 0 /\
    if bool_decide (rsvd_bw c = real_bw c /\ rsvd_mf c = real_mf c) then r = u32 (lto c) /\ s' = s
    else if granted c s
    then r = u32 (lto c) /\ clocked (upd_client i (set_realize false) (realize_state i c s)) s' /\ bok D s' /\
         (in_step s -> in_step s' /\ agreed s')
    else r = 0 /\ s' = realize_state i c s.

Lemma realize_ok t h s : sound s -> free s ->
  wp (__tegra_isomgr_realize bops ops t h) (fun r s' => realized h r s s') s.
Proof.
  intros Hs Hf. unfold __tegra_isomgr_realize. rewrite wp_bind.
  apply wp_VALIDATE_HANDLE; [by apply (pool_shaped m), Hs| |by intros Hn; left; split; [intros i c Hr; by destruct (Hn i c)|]].
  intros i c Hreg. pose proof Hreg as (-> & [Hi _] & E & _).
  pose proof (Forall_lookup_1 _ _ _ _ (pl_clients m s (proj1 Hs)) E) as Hc.
  apply (with_ref t i c s); [done..| |].
  { intros K. left. split; [|done]. intros i' c' (? & _ & ? & _). by simplify_eq. }
  intros K. destruct (ref_sound t i c s Hs E) as (Hs2 & Ht2 & E2).
  set (s2 := upd_client i _ _) in *. set (c2 := set_kref _ c) in *.
  wp_simpl. eapply wp_cp; [exact E2|]. cbv beta.
  assert (((rsvd_bw c2 =? real_bw c2) && (rsvd_mf c2 =? real_mf c2)) =
          bool_decide (rsvd_bw c = real_bw c /\ rsvd_mf c = real_mf c)) as ->.
  { apply eq_true_iff_eq. by rewrite andb_true_iff, !Z.eqb_eq, bool_decide_eq_true. }
  destruct (bool_decide (rsvd_bw c = real_bw c /\ rsvd_mf c = real_mf c)) eqn:Already.
  { apply wp_already; try done. right. exists i, c. by rewrite Already. }
  wp_simpl. eapply wp_mono; [apply (plat_realize_ok i c2 s2 Hs2 E2)|]. cbv beta. intros r s3 [-> ->].
  assert ((fits c2 s2 && ((rsvd_bw c2 <=? margin_bw c2) || (total held (isomgr_clients s2) + avail_bw s2 =? m))) =
    granted c s) as ->.
  { unfold granted. change (fits c2 s2) with (fits c s). change (avail_bw s2) with (avail_bw s).
    do 4 f_equal. unfold s2, upd_client. cbn [isomgr_clients set_isomgr_clients set_iso_lock].
    rewrite (total_alter held _ _ _ c E). change (held (set_kref (s32 (kref c + 1)) c)) with (held c). lia. }
  destruct (realize_state_sound i c2 s2 Hs2 E2) as [Hs3 _].
  assert (isomgr_clients (realize_state i c2 s2) !! Z.to_nat i = Some (realization (fits c s) c2)) as E3
    by (unfold realize_state; by apply upd_client_at).
  assert (forall f, (forall y d, f (set_kref y d) = set_kref y (f d)) -> (forall d, kref (f d) = kref d) ->
    set_iso_lock false None (upd_client i (set_kref (kref c)) (upd_client i f (realize_state i c2 s2))) =
    upd_client i f (realize_state i c s)) as Eend.
  { intros f Hf1 Hf2. unfold realize_state. change (fits c2 s2) with (fits c s).
    set (g := realization (fits c s)). set (a := avail_bw s + _ - _).
    assert (upd_client i (set_kref (kref c)) (upd_client i (f ∘ g) s2) = upd_client i (f ∘ g) (set_iso_lock true (Some t) s)) as Er.
    { apply kref_roundtrip; [done| |].
      - intros y d. change (f (g (set_kref y d)) = set_kref y (f (g d))).
        assert (g (set_kref y d) = set_kref y (g d)) as -> by (unfold g; by destruct (fits c s)). apply Hf1.
      - change (kref (f (g c)) = kref c). rewrite Hf2. unfold g. by destruct (fits c s). }
    rewrite <- upd_client_twice in Er.
    transitivity (set_avail_bw a (set_iso_lock false None (upd_client i (set_kref (kref c)) (upd_client i f (upd_client i g s2))))); [done|].
    rewrite Er.
    transitivity (set_avail_bw a (upd_client i (f ∘ g) (set_iso_lock false None (set_iso_lock true (Some t) s)))); [done|].
    by rewrite free_lock, <- upd_client_twice. }
  assert (kref (realization (fits c s) c2) = s32 (kref c + 1)) as Ek by (by destruct (fits c s)).
  destruct (granted c s) eqn:G; cbn [negb].
  - wp_simpl. eapply wp_cp; [exact E3|]. cbv beta. wp_simpl. eapply wp_upd; [exact E3|]. wp_simpl.
    set (s4 := upd_client i (set_realize false) _).
    assert (sound s4) as Hs4.
    { pose proof (client_bounds m _ _ _ (proj1 Hs3) E3). pose proof (pl_avail m _ (proj1 Hs3)).
      eapply (sound_update _ s4 _ _ (set_realize false)); [exact Hs3|exact E3|done..| | | |]; try done.
      2: { change (iso_dedi_bw s4) with (iso_dedi_bw (realize_state i c2 s2)).
           change (dedi_bw (set_realize false (realization (fits c s) c2))) with (dedi_bw (realization (fits c s) c2)). lia. }
      by destruct (Forall_lookup_1 _ _ _ _ (pl_clients m _ (proj1 Hs3)) E3). }
    eapply wp_mono; [apply (update_mc_clock_spec bops D t s4); [by apply sound_freqs|apply Hs4|done]|].
    intros [] s5 [Hf5 Hlk5]. pose proof (sound_framed _ _ Hf5 Hs4) as Hs5. destruct Hf5 as [Hk5 Hb5].
    destruct (clocked_lookup _ _ _ _ Hk5 (upd_client_at i (set_realize false) _ _ E3)) as (x & E5).
    eapply (wp_put_unlock t i _ (kref c)); [done|split; [rewrite (ck_locked _ _ Hk5)|rewrite (ck_task _ _ Hk5)]; done|exact E5|apply Hc|done|exact Ek|].
    right. exists i, c. rewrite Already, G. split; [done|]. split; [done|].
    split; [unfold realization; by destruct (fits c s)|]. split; [|split; [done|]].
    + rewrite <- (Eend (set_realize false)) by done. by apply clocked_lock, clocked_upd.
    + intros Hl. destruct Hlk5 as [Hl5 Ha5].
      { unfold s4. apply in_step_upd, in_step_realize; [done|]. by apply in_step_upd, in_step_lock. }
      split; [by apply in_step_lock, in_step_upd|by apply agreed_unref].
  - eapply (wp_put_unlock t i _ (kref c)); [done|done|exact E3|apply Hc|done|exact Ek|].
    right. exists i, c. rewrite Already, G. split; [done|]. split; [done|]. split; [done|].
    specialize (Eend id ltac:(done) ltac:(done)). rewrite (upd_client_id _ _ _ E3) in Eend. rewrite Eend.
    eapply upd_client_id. unfold realize_state. by apply upd_client_at.
Qed.

Lemma realized_after h r s s' : sound s -> free s -> realized h r s s' -> after True s s'.
Proof.
  intros Hs Hf [(_ & _ & ->)|(i & c & (-> & _ & E & _) & K & Hr)]; [by apply after_same|].
  destruct (bool_decide _); [destruct Hr as [_ ->]; by apply after_same|].
  destruct (realize_state_sound i c s Hs E) as [Hs1 Et].
  assert (intact s -> intact (realize_state i c s)) as Hi1.
  { intros Hin. eapply (intact_update s _ _ c (realization (fits c s))); [done|exact E|done..| | |].
    - unfold realize_state in *. cbn [isomgr_clients set_avail_bw upd_client set_isomgr_clients avail_bw] in *.
      rewrite (total_alter held _ _ _ c E) in Et. lia.
    - destruct (fits c s); cbn; lia.
    - intros Ek. exfalso. apply K. rewrite <- Ek. by destruct (fits c s). }
  assert (isomgr_clients (realize_state i c s) !! Z.to_nat i = Some (realization (fits c s) c)) as E1
    by (unfold realize_state; by apply upd_client_at).
  destruct (granted c s); [|destruct Hr as [_ ->]; split; [done|split; [done|split; [by auto|by apply in_step_realize]]]].
  destruct Hr as (_ & Hk & Hb & Hlk).
  set (s4 := upd_client i (set_realize false) (realize_state i c s)) in *.
  pose proof (client_bounds m _ _ _ (proj1 Hs1) E1). pose proof (pl_avail m _ (proj1 Hs1)).
  assert (pool_ok m s4) as Hp4.
  { eapply (pool_update m _ s4 _ _ (set_realize false)); [apply Hs1|exact E1|done..| | | |]; try done.
    - by destruct (Forall_lookup_1 _ _ _ _ (pl_clients m _ (proj1 Hs1)) E1).
    - change (iso_dedi_bw s4) with (iso_dedi_bw (realize_state i c s)).
      change (dedi_bw (set_realize false (realization (fits c s) c))) with (dedi_bw (realization (fits c s) c)). lia. }
  split; [|split; [|split; [|by intros Hl; apply Hlk]]].
  - destruct Hf, Hk. unfold free. rewrite ck_locked, ck_task. done.
  - split; [by eapply pool_clocked|done].
  - intros _ Hin. eapply intact_clocked; [exact Hk|].
    eapply (intact_update _ s4 _ _ (set_realize false)); [by apply Hi1|exact E1|done..| | |]; try done.
    + change (iso_dedi_bw s4) with (iso_dedi_bw (realize_state i c s)).
      change (dedi_bw (set_realize false (realization (fits c s) c))) with (dedi_bw (realization (fits c s) c)). lia.
    + intros Ek. exfalso. apply K. rewrite <- Ek. by destruct (fits c s).
Qed.

(** ** Margins *)

Lemma margin_step_ok bw c s i : sound s -> isomgr_clients s !! i = Some c -> 0 <= bw < 2 ^ 32 ->
  margin_step bw c s =
    if (bw <=? dedi_bw c) && ((bw <=? real_bw c) || (margin_bw c <? bw) && (bw <=? avail_bw s + held c))
    then (0, bw, avail_bw s + held c - Z.max (real_bw c) bw) else (- EINVAL, margin_bw c, avail_bw s).
Proof.
  intros Hs E Hbw. pose proof (client_bounds m s _ c (proj1 Hs) E) as Hb. pose proof (pl_avail m s (proj1 Hs)).
  pose proof (pl_range m s (proj1 Hs)). rewrite held_max in *.
  destruct (Forall_lookup_1 _ _ _ _ (pl_clients m s (proj1 Hs)) E).
  unfold margin_step. rewrite (pl_sleep m s (proj1 Hs)), (u32_small (dedi_bw c)), (u32_small (real_bw c)), (u32_small (margin_bw c)) by lia.
  rewrite Z.sub_0_r, (s32_small (avail_bw s)), (u32_small (avail_bw s)) by lia.
  destruct (Z.ltb_spec (dedi_bw c) bw), (Z.leb_spec bw (dedi_bw c)); try lia; cbn [andb]; [done|].
  rewrite (s32_small bw) by lia.
  destruct (Z.leb_spec bw (real_bw c)); cbn [orb].
  { do 2 f_equal. destruct (Z.ltb_spec (real_bw c) (margin_bw c)); [|lia].
    rewrite (s32_small (margin_bw c - real_bw c)), s32_small by lia. lia. }
  destruct (Z.leb_spec bw (margin_bw c)), (Z.ltb_spec (margin_bw c) bw); try lia; cbn [andb].
  { destruct (Z.ltb_spec (real_bw c) (margin_bw c)); [done|lia]. }
  replace (if real_bw c <? margin_bw c then margin_bw c else real_bw c) with (Z.max (real_bw c) (margin_bw c))
    by (destruct (Z.ltb_spec (real_bw c) (margin_bw c)); lia).
  rewrite (u32_small (bw - _)) by lia.
  replace (bw <=? avail_bw s + Z.max (real_bw c) (margin_bw c)) with (bw - Z.max (real_bw c) (margin_bw c) <=? avail_bw s)
    by (apply eq_true_iff_eq; rewrite !Z.leb_le; lia).
  destruct (Z.leb_spec (bw - Z.max (real_bw c) (margin_bw c)) (avail_bw s)); [|done].
  rewrite s32_small by lia. f_equal. lia.
Qed.

(** The margin is set, within what is dedicated: below the realized bandwidth, or above the
    old margin while the pool has room. *)
Definition can_set_margin (bw : Z) (c : isomgr_client) (s : isomgr) : Prop :=
  bw <= dedi_bw c /\ (bw <= real_bw c \/ margin_bw c < bw /\ bw <= avail_bw s + held c).
Definition margined (i bw r : Z) (s s' : isomgr) : Prop :=
  r = - EINVAL /\ s' = s /\
    (~ valid_client i s \/
     exists c, isomgr_clients s !! Z.to_nat i = Some c /\ (kref c = 0 \/ ~ can_set_margin bw c s)) \/
  valid_client i s /\ r = 0 /\
  exists c, isomgr_clients s !! Z.to_nat i = Some c /\ kref c <> 0 /\ can_set_margin bw c s /\
    s' = set_avail_bw (avail_bw s + held c - Z.max (real_bw c) bw) (upd_client i (set_margin_bw bw) s).

Lemma set_margin_ok t i bw w s : sound s -> free s -> 0 <= bw < 2 ^ 32 ->
  wp (__tegra_isomgr_set_margin bops ops t i bw w) (fun r s' => margined i bw r s s') s.
Proof.
  intros Hs Hf Hbw. unfold __tegra_isomgr_set_margin. wp_simpl.
  apply wp_is_client_valid; [by apply (pool_shaped m), Hs| |intros; by left; auto]. intros Hv. cbn [negb]. wp_simpl.
  destruct (sound_lookup s i Hs (proj1 Hv)) as (c & E & Hc).
  apply wp_lock; [done|]. cbn [negb]. wp_simpl.
  eapply wp_inc_not_zero; [exact E|intros K0|intros K]; cbn [negb]; wp_simpl.
  { apply wp_unlock; [done|]. wp_simpl. rewrite free_lock by done. left. eauto 10. }
  destruct (ref_sound t i c s Hs E) as (Hs2 & Ht2 & E2).
  set (s2 := upd_client i _ _) in *. set (c2 := set_kref _ c) in *.
  eapply wp_cp; [exact E2|]. cbv beta. wp_simpl. rewrite (margin_step_ok bw c2 s2 _ Hs2 E2 Hbw).
  change (dedi_bw c2) with (dedi_bw c). change (real_bw c2) with (real_bw c). change (margin_bw c2) with (margin_bw c).
  change (held c2) with (held c). change (avail_bw s2) with (avail_bw s).
  assert (forall mg a ret, client_pool m (set_margin_bw mg c2) -> 0 <= a ->
    held (set_margin_bw mg c) + a <= held c + avail_bw s ->
    margined i bw ret s (set_avail_bw a (upd_client i (set_margin_bw mg) s)) ->
    wp (upd i (set_margin_bw mg);; modify (set_avail_bw a);; kref_put bops ops t i;; isomgr_unlock t;; mret ret)
      (fun r s' => margined i bw r s s') s2) as Hgo.
  { intros mg a ret Hp Ha Hh Hm. wp_simpl. eapply wp_upd; [exact E2|]. wp_simpl. set (s3 := set_avail_bw a _).
    pose proof (client_bounds m s _ c (proj1 Hs) E).
    assert (sound s3) as Hs3.
    { eapply (sound_update s2 s3 _ c2 (set_margin_bw mg)); [done|exact E2|done..| | | |]; try done.
      change (dedi_bw c2 - dedi_bw c2 + iso_dedi_bw s <= iso_dedi_bw s <= m). lia. }
    eapply (wp_kref_put_again t i _ (kref c)); [done|done|by apply upd_client_at|apply Hc|done|done|].
    wp_simpl. apply wp_unlock; [done|]. wp_simpl.
    replace (set_iso_lock _ _ _) with (set_avail_bw a (upd_client i (set_margin_bw mg) s)); [done|].
    transitivity (set_avail_bw a (set_iso_lock false None (upd_client i (set_kref (kref c)) (upd_client i (set_margin_bw mg) s2)))); [|done].
    unfold s2. rewrite kref_roundtrip by done.
    transitivity (set_avail_bw a (upd_client i (set_margin_bw mg) (set_iso_lock false None (set_iso_lock true (Some t) s)))); [|done].
    by rewrite free_lock. }
  pose proof (client_bounds m s _ c (proj1 Hs) E). pose proof (pl_avail m s (proj1 Hs)). pose proof Hc as [].
  destruct ((bw <=? dedi_bw c) && _) eqn:Eg; apply Hgo.
  - apply andb_prop in Eg as [?%Z.leb_le ?]. split; cbn; try done; try lia. apply s32_range.
  - rewrite held_max in *. revert Eg. repeat case_z; intros; try discriminate; lia.
  - rewrite !held_max. cbn. lia.
  - right. split; [done|]. split; [done|]. exists c. apply andb_prop in Eg as [?%Z.leb_le Eg].
    split; [done|]. split; [done|]. split; [|done]. split; [done|].
    apply orb_prop in Eg as [?%Z.leb_le|[?%Z.ltb_lt ?%Z.leb_le]%andb_prop]; [by left|by right].
  - split; cbn; try done; try lia. apply s32_range.
  - lia.
  - done.
  - left. split; [done|]. split.
    + unfold upd_client. rewrite (alter_insert _ _ _ _ E).
      replace (set_margin_bw (margin_bw c) c) with c by (by destruct c). rewrite list_insert_id by done. by destruct s.
    + right. exists c. split; [done|]. right. unfold can_set_margin. intros [Hd Hor].
      revert Eg. repeat case_z; intros; try discriminate; lia.
Qed.

Lemma margined_after i bw r s s' : sound s -> free s -> 0 <= bw -> margined i bw r s s' -> after True s s'.
Proof.
  intros Hs Hf Hb [(_ & -> & _)|(_ & _ & c & E & K & [Hd Hor] & ->)]; [by apply after_same|].
  pose proof (Forall_lookup_1 _ _ _ _ (pl_clients m s (proj1 Hs)) E) as Hc.
  pose proof (client_bounds m s _ c (proj1 Hs) E). pose proof (pl_avail m s (proj1 Hs)).
  assert (held (set_margin_bw bw c) = Z.max (real_bw c) bw) as Eh by (by rewrite held_max).
  split; [done|]. split; [|split].
  - eapply (sound_update s _ _ c (set_margin_bw bw)); [done|exact E|done..| | | |].
    + destruct Hc. split; cbn; try done; lia.
    + cbn [avail_bw set_avail_bw]. rewrite held_max in *. lia.
    + rewrite Eh. cbn [avail_bw set_avail_bw]. lia.
    + cbn. lia.
  - intros _ Hin. eapply (intact_update s _ _ c (set_margin_bw bw)); [done|exact E|done..| | |].
    + rewrite Eh. cbn [avail_bw set_avail_bw]. lia.
    + cbn. lia.
    + done.
  - intros Hl. by refine (in_step_links _ _ _ (in_step_upd (set_margin_bw bw) i s ltac:(done) Hl)).
Qed.
End ops.
