(* ===== verification/IsomgrRuns.v ===== *)
(** * Runs of the isochronous bandwidth manager

    The properties of IsomgrPool.v for sequences of calls by any tasks, for the start-up of a
    chip, and on a Tegra186. *)

From stdpp Require Import relations.
From S2P Require Import Prelude Bwmgr BwmgrFacts Isomgr IsomgrPlat IsomgrFacts IsomgrHandles IsomgrPool.

Section runs.
Context `{ClkOps} (bops : bwmgr_ops) (D : dram -> Prop) `{Ops : !OpsOk bops D} (m : Z).
Hypothesis mf_ok : forall d bw, D d -> 0 <= bw <= m -> 0 <= u32 (op_bw_to_freq bops d bw) <= mf_max.

Abbreviation ops := (isomgr_ops_pre_t19x bops).

(** What a call must not be for the accounts to stay exact. *)
Definition harmless (k : iso_call) (s : isomgr) : Prop :=
  match k with IUnregister h => ~ realizing h s | _ => True end.

Lemma after_weaken (P P' : Prop) s s' : (P' -> P) -> after D m P s s' -> after D m P' s s'.
Proof. intros HP (? & ? & Hi & ?). split; [done|]. split; [done|]. auto. Qed.

Lemma exec_iso_ok t k s : sound D m s -> free s -> iso_arg_ok k ->
  wp (exec_iso bops ops t k) (fun _ s' => after D m (harmless k s) s s') s.
Proof.
  intros Hs Hf Ha.
  destruct k as [c bw rn|h|h bw lt|h|c bw w|c bw|]; cbn [exec_iso harmless];
    unfold tegra_isomgr_register, tegra_isomgr_unregister, tegra_isomgr_reserve, tegra_isomgr_realize,
      tegra_isomgr_set_margin, tegra_isomgr_get_imp_time, tegra_isomgr_get_available_iso_bw; wp_simpl;
    try (destruct (test_mode s); wp_simpl; [by apply after_same|]).
  - eapply wp_mono; [by apply (register_ok bops D m)|]. intros r s' Hp. wp_simpl. exact Hp.
  - by apply (unregister_ok bops D m).
  - eapply wp_mono; [by apply (reserve_ok bops D m)|]. intros r s' Hp. wp_simpl.
    eapply (reserved_after bops D m); [done|done|done|apply Ha|exact Hp].
  - eapply wp_mono; [by apply (realize_ok bops D m)|]. intros r s' Hp. wp_simpl.
    eapply (realized_after D m); [done|done|exact Hp].
  - eapply wp_mono; [by apply (set_margin_ok bops D m)|]. intros r s' Hp. wp_simpl.
    eapply (margined_after D m); [done|done|apply Ha|exact Hp].
  - unfold __tegra_isomgr_get_imp_time. wp_simpl.
    apply wp_is_client_valid; [by apply (pool_shaped m), Hs| |]; intros _; wp_simpl; by apply after_same.
  - by apply after_same.
Qed.

Lemma exec_isos_ok l s : sound D m s -> free s -> Forall (fun tk => iso_arg_ok tk.2) l ->
  exists s', exec_isos bops ops l s = Some (tt, s') /\ sound D m s' /\ free s' /\ (in_step s -> in_step s').
Proof.
  intros Hs Hf Hl. revert s Hs Hf. induction Hl as [|[t k] l Ha Hl IH]; intros s Hs Hf; [by eauto 10|].
  destruct (wp_total _ _ _ (exec_iso_ok t k s Hs Hf Ha)) as ([] & s1 & E1 & Hf1 & Hs1 & _ & Hl1).
  destruct (IH s1 Hs1 Hf1) as (s2 & E2 & ? & ? & ?). exists s2. split; [|by auto 10]. cbn [exec_isos]. munfold. by rewrite E1.
Qed.

(** C5. On the chips before Tegra194, whatever calls are made, by whatever tasks with whatever handles and bandwidths: every
    call returns with the lock free, what the clients hold (the larger of realized bandwidth
    and margin) and what is available together stay within the pool, what is available is not
    negative, the dedicated bandwidths fit the pool, and a client without callback has no more
    than its dedicated bandwidth. *)
Theorem iso_never_overcommitted l s : sound D m s -> free s -> Forall (fun tk => iso_arg_ok tk.2) l ->
  exists s', exec_isos bops ops l s = Some (tt, s') /\ free s' /\
    total held (isomgr_clients s') + avail_bw s' <= m /\ 0 <= avail_bw s' /\
    total dedi_bw (isomgr_clients s') <= m /\
    Forall (fun c => renegotiate c = false -> real_bw c <= dedi_bw c) (isomgr_clients s').
Proof.
  intros Hs Hf Hl.
  destruct (exec_isos_ok l s Hs Hf Hl) as (s' & E & [[] _] & Hf' & _).
  exists s'. split; [done|]. split; [done|]. split; [done|]. split; [done|]. split; [lia|].
  eapply Forall_impl; [|done]. intros c [] Rn. by apply cl_reneg.
Qed.

(** A call that is not the unregistering of a client in the middle of a realization. *)
Inductive iso_step (s s' : isomgr) : Prop :=
  | iso_step_call t k : iso_arg_ok k -> harmless k s -> exec_iso bops ops t k s = Some (tt, s') -> iso_step s s'.

Lemma iso_steps_inv s0 s : rtc iso_step s0 s -> sound D m s0 -> free s0 -> intact s0 ->
  sound D m s /\ free s /\ intact s.
Proof.
  induction 1 as [|s0 s1 s [t k Ha Hh E] _ IH]; intros Hs Hf Hi; [done|].
  destruct (wp_total _ _ _ (exec_iso_ok t k s0 Hs Hf Ha)) as ([] & s1' & E1 & Hf1 & Hs1 & Hi1 & _).
  simplify_eq. auto.
Qed.

(** As long as no client is unregistered in the middle of a realization, the accounts are
    exact: held and available bandwidth add up to the pool, the dedicated bandwidths to their
    total, and a client without references holds and has nothing. *)
Theorem iso_accounts_exact s0 s : sound D m s0 -> free s0 -> intact s0 -> rtc iso_step s0 s ->
  total held (isomgr_clients s) + avail_bw s = m /\ total dedi_bw (isomgr_clients s) = iso_dedi_bw s /\
  forall i c, isomgr_clients s !! i = Some c -> kref c = 0 ->
    real_bw c = 0 /\ margin_bw c = 0 /\ dedi_bw c = 0.
Proof.
  intros Hs Hf Hi Hst. destruct (iso_steps_inv s0 s Hst Hs Hf Hi) as ([Hp _] & _ & [Hh Hd Hk]).
  rewrite Hh, (pl_max m s Hp). split; [done|]. split; [done|]. intros i c E K.
  destruct (Forall_lookup_1 _ _ _ _ Hk E K) as [H0 Hd0]. rewrite held_max in H0.
  destruct (Forall_lookup_1 _ _ _ _ (pl_clients m s Hp) E). lia.
Qed.

Definition plain (k : iso_call) : Prop := match k with IUnregister _ => False | _ => True end.

Lemma exec_isos_steps l s s' : Forall (fun tk => iso_arg_ok tk.2 /\ plain tk.2) l ->
  exec_isos bops ops l s = Some (tt, s') -> rtc iso_step s s'.
Proof.
  intros Hl. revert s. induction Hl as [|[t k] l [Ha Hp] Hl IH]; intros s E.
  - cbn in E. munfold. by injection E as <-.
  - cbn [exec_isos] in E. munfold. destruct (exec_iso bops ops t k s) as [[[] s1]|] eqn:E1; [|done].
    eapply rtc_l; [|by apply IH]. eapply iso_step_call; [exact Ha| |exact E1]. by destruct k.
Qed.

Lemma realized_at h i c s r s' : registered h i c s -> kref c <> 0 -> realized D m h r s s' ->
  if bool_decide (rsvd_bw c = real_bw c /\ rsvd_mf c = real_mf c) then r = u32 (lto c) /\ s' = s
  else if granted m c s
  then r = u32 (lto c) /\ clocked (upd_client i (set_realize false) (realize_state i c s)) s' /\ bok D s' /\
       (in_step s -> in_step s' /\ agreed s')
  else r = 0 /\ s' = realize_state i c s.
Proof.
  intros Hr K [(Hn & _)|(i' & c' & Hr' & _ & H')]; [by destruct K, (Hn i c)|].
  destruct Hr as (-> & _ & E & _), Hr' as (Eh & _ & E' & _). by simplify_eq.
Qed.

Lemma granted_intact c s : sound D m s -> intact s -> granted m c s = fits c s.
Proof.
  intros [Hp _] Hi. unfold granted. rewrite (in_held s Hi), (pl_max m s Hp), Z.eqb_refl, orb_true_r.
  apply andb_true_r.
Qed.

Lemma realize_state_at i c s : isomgr_clients s !! Z.to_nat i = Some c ->
  isomgr_clients (realize_state i c s) !! Z.to_nat i = Some (realization (fits c s) c).
Proof. intros E. unfold realize_state. by apply upd_client_at. Qed.

(** Realizing a new reservation while the accounts are exact: it is granted if and only if
    the available bandwidth and what the client holds cover it; then it is the client's
    bandwidth and the rest is available. Otherwise 0 is returned, the client's bandwidth is
    gone back to the pool and it is left in the middle of a realization. *)
Theorem realize_outcome t h i c s : sound D m s -> free s -> intact s -> test_mode s = false ->
  registered h i c s -> kref c <> 0 -> ~ (rsvd_bw c = real_bw c /\ rsvd_mf c = real_mf c) ->
  exists r s' c', tegra_isomgr_realize bops ops t h s = Some (r, s') /\
    isomgr_clients s' !! Z.to_nat i = Some c' /\
    if rsvd_bw c <=? avail_bw s + Z.max (real_bw c) (margin_bw c)
    then r = u32 (lto c) /\ real_bw c' = rsvd_bw c /\ real_mf c' = rsvd_mf c /\ realize c' = false /\
         avail_bw s' = avail_bw s + Z.max (real_bw c) (margin_bw c) - Z.max (rsvd_bw c) (margin_bw c)
    else r = 0 /\ real_bw c' = 0 /\ realize c' = true /\
         avail_bw s' = avail_bw s + Z.max (real_bw c) (margin_bw c) - margin_bw c.
Proof.
  intros Hs Hf Hi Ht Hreg K Hne.
  assert (wp (tegra_isomgr_realize bops ops t h) (fun r s' => realized D m h r s s') s) as W.
  { unfold tegra_isomgr_realize. wp_simpl. rewrite Ht. by apply (realize_ok bops D m). }
  destruct (wp_total _ _ _ W) as (r & s' & E & Hr).
  pose proof (realized_at h i c s r s' Hreg K Hr) as Hc. rewrite bool_decide_eq_false_2 in Hc by done.
  rewrite granted_intact in Hc by done. destruct Hreg as (_ & _ & El & _).
  pose proof (realize_state_at i c s El) as E1. rewrite <- (held_max c). fold (fits c s). destruct (fits c s) eqn:F.
  - destruct Hc as (-> & Hk & _).
    destruct (clocked_lookup _ _ _ _ Hk (upd_client_at i (set_realize false) _ _ E1)) as (x & E').
    eexists _, s', _. split; [exact E|]. split; [exact E'|]. repeat (split; [done|]).
    rewrite (ck_avail _ _ Hk). unfold realize_state. by rewrite F.
  - destruct Hc as (-> & ->). eexists _, _, _. split; [exact E|]. split; [exact E1|]. repeat (split; [done|]).
    unfold realize_state. by rewrite F.
Qed.

(** C17. The two managers agree, on the chips before Tegra194 and as long as the clock framework
    accepts every rate (after one it refuses, the manager of the clock has a request that this
    one has not noted). From a state where every client's handle is a client of the memory
    clock's manager and its requests are the noted ones, after any calls by any tasks: once,
    outside the test mode, a realization that changes something has been granted, the clock's manager holds, for every
    client, a request for the shared isochronous bandwidth of exactly its realized frequency,
    and a floor of the highest realized frequency. *)
Theorem realize_requests_clock l s0 s t h i c : (forall r, clk_set_rate r = 0) ->
  sound D m s0 -> free s0 -> linked s0 ->
  Forall (fun tk => iso_arg_ok tk.2) l -> exec_isos bops ops l s0 = Some (tt, s) -> test_mode s = false ->
  registered h i c s -> kref c <> 0 -> ~ (rsvd_bw c = real_bw c /\ rsvd_mf c = real_mf c) ->
  granted m c s = true ->
  exists r s' hf, tegra_isomgr_realize bops ops t h s = Some (r, s') /\ iso_handle s' = Some hf /\
    asked (iso_bwmgr s') hf TEGRA_BWMGR_SET_EMC_FLOOR = Some (max_real_mf (isomgr_clients s') * 1000) /\
    forall j cj hj, isomgr_clients s' !! j = Some cj -> bwmgr_handle cj = Some hj ->
      asked (iso_bwmgr s') hj TEGRA_BWMGR_SET_EMC_SHARED_BW_ISO = Some (real_mf cj * 1000).
Proof.
  intros Hclk Hs0 Hf0 Hl0 Hl E0 Ht Hreg K Hne G.
  destruct (exec_isos_ok l s0 Hs0 Hf0 Hl) as (s1 & E1 & Hs & Hf & Hlk). simplify_eq.
  assert (wp (tegra_isomgr_realize bops ops t h) (fun r s' => realized D m h r s s') s) as W.
  { unfold tegra_isomgr_realize. wp_simpl. rewrite Ht. by apply (realize_ok bops D m). }
  destruct (wp_total _ _ _ W) as (r & s' & E & Hr).
  pose proof (realized_at h i c s r s' Hreg K Hr) as Hc. rewrite bool_decide_eq_false_2, G in Hc by done.
  destruct Hc as (_ & _ & _ & Hc). destruct (Hc (Hlk (conj Hclk Hl0))) as [[_ [_ (hf & Eh & _ & Af & _) Hcl]] [Em Ha]].
  exists r, s', hf. split; [done|]. split; [done|]. rewrite Em in Af. split; [exact Af|].
  intros j cj hj Ej Hj. destruct (Hcl j cj hj Ej Hj) as (_ & -> & _). rewrite (Ha j cj Ej); [done|congruence].
Qed.

(** A new reservation above the dedicated bandwidth that is granted can be realized at once. *)
Theorem reserve_then_realize t t' h i c ubw ult s r s1 :
  sound D m s -> free s -> intact s -> test_mode s = false -> 0 <= ubw < 2 ^ 32 ->
  registered h i c s -> kref c <> 0 -> ~ (u32 (rsvd_bw c) = ubw /\ u32 (lti c) = ult) ->
  dedi_bw c < ubw -> tegra_isomgr_reserve bops ops t h ubw ult s = Some (r, s1) -> r <> 0 -> 0 <= r < 2 ^ 32 ->
  exists s2 c2, tegra_isomgr_realize bops ops t' h s1 = Some (r, s2) /\
    isomgr_clients s2 !! Z.to_nat i = Some c2 /\ real_bw c2 = ubw.
Proof.
  intros Hs Hf Hi Ht Hu Hreg K Hnew Hd E Hr Hr2.
  assert (wp (tegra_isomgr_reserve bops ops t h ubw ult) (fun r s' => reserved bops h ubw ult r s s') s) as W.
  { unfold tegra_isomgr_reserve. wp_simpl. rewrite Ht. by apply (reserve_ok bops D m). }
  unfold wp in W. rewrite E in W. pose proof (reserved_after bops D m mf_ok h ubw ult r s s1 Hs Hf ltac:(lia) W) as (Hf1 & Hs1 & Hi1 & _).
  specialize (Hi1 I Hi).
  destruct W as [(_ & ? & _)|(i' & c' & Hreg' & _ & W)]; [done|].
  pose proof Hreg as (-> & Hv & El & Hm). pose proof Hreg' as (Eh' & _ & El' & _).
  injection Eh' as <-. rewrite El in El'. injection El' as <-.
  destruct W as [(? & ? & _)|[(_ & (Hre & Ha & _) & _ & ->)|(_ & _ & ? & _)]]; [by destruct Hnew| |done].
  destruct Ha as [_ [|Ha]]; [lia|].
  set (c1 := reservation ubw ult (min_freq bops ubw s) r c). set (s1 := upd_client _ _ s) in *.
  assert (isomgr_clients s1 !! Z.to_nat i = Some c1) as El1 by (by apply upd_client_at).
  assert (u32 (lto c1) = r) as Elto by (change (u32 (s32 r) = r); by apply u32_s32).
  assert (registered (CLIENT i) i c1 s1) as Hreg1.
  { split; [done|]. split; [|done]. destruct Hv as (? & ? & c0 & ? & ?). simplify_eq.
    split; [done|]. split; [done|]. by exists c1. }
  assert (wp (tegra_isomgr_realize bops ops t' (CLIENT i)) (fun r s' => realized D m (CLIENT i) r s1 s') s1) as W.
  { unfold tegra_isomgr_realize. wp_simpl. change (test_mode s1) with (test_mode s). rewrite Ht.
    by apply (realize_ok bops D m). }
  destruct (wp_total _ _ _ W) as (r2 & s2 & E2 & Hr3).
  pose proof (realized_at _ i c1 s1 r2 s2 Hreg1 K Hr3) as Hc. rewrite Elto in Hc.
  destruct (bool_decide_reflect (rsvd_bw c1 = real_bw c1 /\ rsvd_mf c1 = real_mf c1)) as [[Eb _]|_].
  { destruct Hc as [-> ->]. exists s1, c1. by repeat split. }
  rewrite granted_intact in Hc by done.
  assert (fits c1 s1 = true) as F.
  { apply Z.leb_le. change (ubw <= avail_bw s + held c). rewrite held_max. lia. }
  rewrite F in Hc. destruct Hc as (-> & Hk & _).
  pose proof (realize_state_at i c1 s1 El1) as E3. rewrite F in E3.
  destruct (clocked_lookup _ _ _ _ Hk (upd_client_at i (set_realize false) _ _ E3)) as (x & E').
  exists s2, (set_real_mf_rq x (set_realize false (realization true c1))). by repeat split.
Qed.
End runs.

(** ** Start-up *)

Section startup.
Context `{ClkOps} (bops : bwmgr_ops) (D : dram -> Prop) `{Ops : !OpsOk bops D}.

(** The pool: the configured one, or the part of the memory's bandwidth that is for
    isochronous clients. *)
Definition pool_of (pool : Z) (b : bwmgr) : Z :=
  if pool =? 0
  then u32 (u32 (op_freq_to_bw bops (b_dram b) (u32 (emc_max_rate b / 1000))) * iso_bw_percentage (b_dram b)) / 100
  else pool.

Definition blank (c : isomgr_client) : Prop :=
  magic c = 0 /\ kref c = 0 /\ dedi_bw c = 0 /\ rsvd_bw c = 0 /\ real_bw c = 0 /\ rsvd_mf c = 0 /\ real_mf c = 0 /\
  realize c = false /\ sleep_bw c = 0 /\ margin_bw c = 0 /\ (bwmgr_handle c <> None -> 0 < limit_bw_percentage c).

Record started (m : Z) (s : isomgr) : Prop := {
  st_clients : Forall blank (isomgr_clients s);
  st_len : length (isomgr_clients s) = 11%nat;
  st_valid : length (client_valid s) = 11%nat;
  st_max : max_iso_bw s = m;
  st_avail : avail_bw s = m;
  st_dedi : iso_dedi_bw s = 0;
  st_sleep : iso_sleep_bw s = 0;
  st_free : free s;
  st_bwm : bok D s }.

Lemma total_blank f l : (forall c, blank c -> f c = 0) -> Forall blank l -> total f l = 0.
Proof. intros Hf. unfold total. induction 1; cbn; [done|]. rewrite Hf by done. lia. Qed.

Lemma blank_held c : blank c -> held c = 0.
Proof. intros (_ & _ & _ & _ & Hr & _ & _ & _ & _ & Hm & _). rewrite held_max. lia. Qed.
Lemma blank_dedi c : blank c -> dedi_bw c = 0.
Proof. by intros (_ & _ & ? & _). Qed.

Lemma started_ok m s : 0 <= m < 2 ^ 31 -> started m s -> sound D m s /\ free s /\ intact s.
Proof.
  intros Hm [Hc Hl Hv Hmax Ha Hd Hsl Hf Hb].
  pose proof (total_blank held _ blank_held Hc) as Th. pose proof (total_blank dedi_bw _ blank_dedi Hc) as Td.
  split; [split; [|done]|split; [done|]].
  - split; try done; try lia. eapply Forall_impl; [|exact Hc].
    intros c (? & ? & ? & ? & ? & ? & ? & ? & ? & ? & ?). split; try lia. unfold freqs_ok, mf_max. split; [lia|].
    split; [lia|done].
  - split; [lia|lia|]. eapply Forall_impl; [|exact Hc]. intros c Hbl _. split; [by apply blank_held|by apply blank_dedi].
Qed.

Lemma wp_bwm_register t c s (Q : option Z -> isomgr -> Prop) : bok D s ->
  (forall h b, bwmgr_ok D b -> idle b -> b_dram b = b_dram (iso_bwmgr s) -> emc_max_rate b = emc_max_rate (iso_bwmgr s) ->
     (dram_config_supported (b_dram (iso_bwmgr s)) = true -> 0 <= c < TEGRA_BWMGR_CLIENT_COUNT -> h = Some c) ->
     Q h (set_iso_bwmgr b s)) ->
  wp (bwm (tegra_bwmgr_register t c)) Q s.
Proof.
  intros [Hb Hi] HQ. pose proof (tegra_bwmgr_register_ok t D _ c Hb Hi) as E.
  destruct (dram_config_supported (b_dram (iso_bwmgr s)) && IS_HANDLE_VALID (Some c)) eqn:V;
    (eapply wp_bwm; [exact E|]); apply HQ; try done.
  - apply with_client_ok; [done|]. intros. by apply set_b_refcount_ok.
  - unfold with_client. by case_match.
  - unfold with_client. by case_match.
  - unfold with_client. by case_match.
  - intros S Hc. rewrite S, IS_HANDLE_VALID_Some in V by done. done.
Qed.

Lemma started_upd m s i c f : started m s -> isomgr_clients s !! Z.to_nat i = Some c -> blank (f c) ->
  started m (upd_client i f s).
Proof.
  intros [] E Hb. split; try done; cbn.
  - apply Forall_alter; [done|]. intros x Hx _. by simplify_eq.
  - by rewrite length_alter.
Qed.

(** The chip's clients and its memory, which registering leaves alone. *)
Definition chip_of (s : isomgr) : list (Z * Z) * list bool * dram :=
  (isoclient_info s, client_valid s, b_dram (iso_bwmgr s)).

Lemma register_clients_ok m t l s : started m s ->
  Forall (fun ci => 0 <= ci.1 < TEGRA_ISO_CLIENT_COUNT /\
    forall c, isomgr_clients s !! Z.to_nat ci.1 = Some c -> 0 < limit_bw_percentage c) l ->
  wp (register_clients t l) (fun _ s' => started m s' /\ chip_of s' = chip_of s) s.
Proof.
  intros Hs Hl. revert s Hs Hl. induction l as [|[i id] l IH]; intros s Hs Hl; [done|].
  inversion Hl as [|x l' [Hi Hlim] Hl' Ex]; subst. cbn [fst] in *. cbn [register_clients]. wp_simpl.
  destruct (lookup_lt_is_Some_2 (isomgr_clients s) (Z.to_nat i)) as [c E];
    [rewrite (st_len m s Hs); unfold TEGRA_ISO_CLIENT_COUNT in *; lia|]. specialize (Hlim c E).
  pose proof (Forall_lookup_1 _ _ _ _ (st_clients m s Hs) E) as Hbl.
  eapply wp_upd; [exact E|]. wp_simpl.
  assert (upd_client i (set_kref 0) s = s) as ->.
  { unfold upd_client. rewrite (alter_insert _ _ _ _ E), list_insert_id; [by destruct s|].
    rewrite E. f_equal. destruct Hbl as (_ & K & _). rewrite <- K. by destruct c. }
  apply wp_bwm_register; [apply Hs|]. intros h b Hb Hib Ed _ _. wp_simpl.
  set (s1 := set_iso_bwmgr b s). assert (started m s1) as Hs1 by (destruct Hs; by split).
  eapply wp_upd; [exact E|]. wp_simpl. set (s2 := upd_client i (set_handle h) s1).
  assert (started m s2) as Hs2.
  { eapply (started_upd m s1 i c); [done|exact E|]. destruct Hbl as (? & ? & ? & ? & ? & ? & ? & ? & ? & ? & ?). by repeat split. }
  assert (chip_of s2 = chip_of s) as Hch by (unfold chip_of; cbn; by rewrite Ed). rewrite <- Hch.
  destruct (bool_decide (h = None)); [done|]. apply IH; [done|].
  eapply Forall_impl; [|exact Hl']. intros [j id'] [Hj Hlj]. split; [done|]. cbn [fst] in *. intros c' E'.
  unfold s2, s1, upd_client in E'. cbn in E'.
  destruct (decide (Z.to_nat i = Z.to_nat j)) as [Eij|Nij].
  - rewrite Eij, list_lookup_alter_eq in E'. destruct (isomgr_clients s !! Z.to_nat j) as [c0|]; [|done].
    injection E' as <-. exact (Hlj c0 eq_refl).
  - rewrite list_lookup_alter_ne in E' by done. by apply Hlj.
Qed.

Lemma reset_pool m s : max_iso_bw s = m -> avail_bw s = s32 m -> set_avail_bw (s32 m) (set_max_iso_bw m s) = s.
Proof. destruct s. cbn. by intros -> ->. Qed.

(** What isomgr_init leaves. *)
Lemma isomgr_init_ok t cid pool b : cid <> TEGRA194 -> bwmgr_ok D b -> idle b ->
  dram_config_supported (b_dram b) = true -> 0 <= pool -> 0 <= pool_of pool b < 2 ^ 31 ->
  let '(ops, s) := chip_isomgr bops cid pool b in
  exists s', isomgr_init ops t s = Some (tt, s') /\
    sound D (pool_of pool b) s' /\ free s' /\ intact s' /\ avail_bw s' = pool_of pool b.
Proof.
  intros Hcid Hb Hi Hd Hpool Hm.
  assert (exists info limit, chip_isomgr bops cid pool b =
      (isomgr_ops_pre_t19x bops, isomgr_reset pool info limit false b) /\
    Forall (fun ci => 0 <= ci.1 < TEGRA_ISO_CLIENT_COUNT /\ 0 < limit ci.1) info) as (info & limit & -> & Hinfo).
  { destruct cid; try done; eexists _, _; (split; [reflexivity|]);
      unfold tegra11x_isoclients, tegra14x_isoclients, tegra12x_isoclients, tegra21x_isoclients, tegra18x_isoclients;
      repeat constructor; done. }
  enough (wp (isomgr_init (isomgr_ops_pre_t19x bops) t) (fun _ s' => started (pool_of pool b) s')
            (isomgr_reset pool info limit false b)) as W.
  { destruct (wp_total _ _ _ W) as ([] & s' & E & Hs). exists s'. split; [done|].
    destruct (started_ok _ _ Hm Hs) as (? & ? & ?). split; [done|]. split; [done|]. split; [done|]. apply Hs. }
  unfold isomgr_init. wp_simpl. set (s1 := set_client_valid _ _).
  assert (length (client_valid s1) = 11%nat) as Lv.
  { unfold s1. cbn [client_valid set_client_valid isomgr_reset isoclient_info].
    assert (forall v, length (fold_left (fun v ci => <[Z.to_nat ci.1 := true]> v) info v) = length v) as L.
    { clear. induction info as [|[i id] l IH]; intros v; cbn; [done|]. by rewrite IH, length_insert. }
    by rewrite L. }
  apply wp_bwm_register; [done|]. intros h b1 Hb1 Hi1 Ed Em Hh. wp_simpl.
  rewrite (Hh Hd ltac:(unfold TEGRA_BWMGR_CLIENT_ISOMGR, TEGRA_BWMGR_CLIENT_COUNT; lia)).
  rewrite bool_decide_eq_false_2 by done. wp_simpl. set (s2 := set_iso_handle _ _).
  enough (forall s3, started (pool_of pool b) s3 -> isomgr_clients s3 = isomgr_clients s2 -> isoclient_info s3 = info ->
    wp (s ← get; register_clients t (isoclient_info s)) (fun _ s' => started (pool_of pool b) s') s3) as Hrest.
  - assert (forall a, s32 a = a -> a = pool_of pool b ->
      started (pool_of pool b) (set_avail_bw (s32 a) (set_max_iso_bw a s2))) as Hst.
    { intros a Ea ->. split; try done; cbn.
      apply Forall_fmap, Forall_forall. by intros i _. }
    cbn [isomgr_plat_init isomgr_ops_pre_t19x]. unfold pre_t19x_iso_plat_init. wp_simpl.
    change (max_iso_bw s2) with (u32 pool). unfold pool_of in *. destruct (Z.eqb_spec pool 0) as [->|Hp].
    + cbn [Z.eqb negb]. change (u32 0 =? 0) with true. cbn [negb]. wp_simpl.
      eapply wp_bwm_read; [reflexivity|]. wp_simpl. eapply wp_bwm_read; [reflexivity|]. wp_simpl.
      eapply wp_bwm_read; [reflexivity|]. wp_simpl. change (iso_bwmgr s2) with b1. rewrite Ed, Em.
      specialize (Hrest (set_avail_bw (s32 (u32 (u32 (op_freq_to_bw bops (b_dram b) (u32 (emc_max_rate b / 1000))) *
        iso_bw_percentage (b_dram b)) / 100)) (set_max_iso_bw (u32 (u32 (op_freq_to_bw bops (b_dram b) (u32 (emc_max_rate b / 1000))) *
        iso_bw_percentage (b_dram b)) / 100) s2))). rewrite wp_bind, wp_get in Hrest. apply Hrest; [|done..].
      apply Hst; [|done]. apply s32_small. lia.
    + rewrite (u32_small pool) by lia. destruct (Z.eqb_spec pool 0); [done|]. cbn [negb]. wp_simpl.
      specialize (Hrest s2). rewrite wp_bind, wp_get in Hrest. apply Hrest; [|done..].
      assert (max_iso_bw s2 = pool) as Hs2m by (cbn; apply u32_small; lia).
      assert (avail_bw s2 = s32 pool) as Hs2a by reflexivity.
      rewrite <- (reset_pool pool s2 Hs2m Hs2a).
      apply Hst; [apply s32_small; lia|done].
  - intros s3 Hs3 Ec Ei. wp_simpl. rewrite Ei.
    eapply wp_mono; [apply (register_clients_ok (pool_of pool b)); [done|]|by intros ? ? []].
    eapply Forall_impl; [|exact Hinfo]. intros [i id] [Hr Hl]. split; [done|]. cbn [fst] in *. intros c.
    rewrite Ec. unfold s2, s1, isomgr_reset. cbn [isomgr_clients set_iso_handle set_iso_bwmgr set_client_valid].
    rewrite list_lookup_fmap, lookup_seqZ_lt by (unfold TEGRA_ISO_CLIENT_COUNT in *; lia). cbn. intros Eq.
    injection Eq as <-. cbn. by rewrite Z2Nat.id by lia.
Qed.

(** On the chips before Tegra194 isomgr_init returns, with a pool that is the configured
    one, or computed from the memory's bandwidth if that is 0, all of it available; and
    whatever calls follow, every one returns and what clients hold stays within the pool. *)
Theorem isomgr_boot_safe t cid pool b l : cid <> TEGRA194 -> bwmgr_ok D b -> idle b ->
  dram_config_supported (b_dram b) = true -> 0 <= pool -> 0 <= pool_of pool b < 2 ^ 31 ->
  (forall d bw, D d -> 0 <= bw <= pool_of pool b -> 0 <= u32 (op_bw_to_freq bops d bw) <= mf_max) ->
  Forall (fun tk => iso_arg_ok tk.2) l ->
  let '(ops, s) := chip_isomgr bops cid pool b in
  exists s1 s2, isomgr_init ops t s = Some (tt, s1) /\ avail_bw s1 = pool_of pool b /\
    exec_isos bops (isomgr_ops_pre_t19x bops) l s1 = Some (tt, s2) /\ free s2 /\
    total real_bw (isomgr_clients s2) <= pool_of pool b.
Proof.
  intros Hc Hb Hi Hd Hp Hm Hmf Hl. pose proof (isomgr_init_ok t cid pool b Hc Hb Hi Hd Hp Hm) as Hinit.
  destruct (chip_isomgr bops cid pool b) as [ops s]. destruct Hinit as (s1 & E1 & Hs1 & Hf1 & _ & Ha1).
  destruct (exec_isos_ok bops D (pool_of pool b) Hmf l s1 Hs1 Hf1 Hl) as (s2 & E2 & Hs2 & Hf2 & _).
  exists s1, s2. repeat (split; [done|]).
  assert (total real_bw (isomgr_clients s2) <= total held (isomgr_clients s2)).
  { unfold total. clear. induction (isomgr_clients s2) as [|c l IH]; cbn; [lia|]. rewrite held_max. lia. }
  pose proof (pl_held _ _ (proj1 Hs2)). pose proof (pl_avail _ _ (proj1 Hs2)). lia.
Qed.
End startup.

(** ** A Tegra186 *)

#[local] Existing Instance clk_khz.
Abbreviation t18x := bwmgr_ops_t18x.
Abbreviation iops := (isomgr_ops_pre_t19x bwmgr_ops_t18x).
Definition t18x_pool : Z := pool_of t18x 0 t18x_boot.

Lemma t18x_mf_ok d bw : covered 27 d -> 0 <= bw <= t18x_pool -> 0 <= u32 (op_bw_to_freq t18x d bw) <= mf_max.
Proof.
  change t18x_pool with 26870400. intros _ Hb. cbn [op_bw_to_freq bwmgr_ops_t18x]. unfold bw_to_freq, mf_max.
  destruct (wide_bus (dram_type d)); rewrite u64_small, u32_small by dlia; dlia.
Qed.

Definition t18x_isomgr : isomgr :=
  match isomgr_init iops 1 (snd (chip_isomgr t18x TEGRA186 0 t18x_boot)) with
  | Some (_, s) => s
  | None => snd (chip_isomgr t18x TEGRA186 0 t18x_boot)
  end.

Lemma t18x_isomgr_ok : sound (covered 27) t18x_pool t18x_isomgr /\ free t18x_isomgr /\ intact t18x_isomgr.
Proof.
  pose proof (isomgr_init_ok t18x (covered 27) 1 TEGRA186 0 t18x_boot) as Hinit.
  destruct t18x_boot_inv as (Hb & Hi & _). unfold t18x_isomgr.
  change (chip_isomgr t18x TEGRA186 0 t18x_boot) with
    (iops, isomgr_reset 0 tegra18x_isoclients (snd (get_iso_client_info TEGRA186)) false t18x_boot) in *.
  cbn [snd] in *. destruct Hinit as (s & -> & ? & ? & ? & _); try done.
Qed.

(** The camera and a display register, reserve and realize; the camera's dedicated bandwidth
    is 1 GB/s. *)
Definition CAMERA : tegra_isomgr_handle := CLIENT TEGRA_ISO_CLIENT_TEGRA_CAMERA.
Definition sample_iso : list (Z * iso_call) :=
  [(1, IRegister TEGRA_ISO_CLIENT_TEGRA_CAMERA 1000000 true); (1, IReserve CAMERA 2000000 10);
   (1, IRealize CAMERA); (2, IRegister 0 3000000 false); (2, IReserve (CLIENT 0) 4000000 10);
   (2, IReserve (CLIENT 0) 3000000 10); (2, IRealize (CLIENT 0)); (1, IRealize DUMMY)].

Lemma sample_iso_ok : Forall (fun tk : Z * iso_call => iso_arg_ok tk.2) sample_iso.
Proof. unfold sample_iso. repeat constructor; cbn; lia. Qed.

Lemma isomgr_boot_safe_witness :
  let '(ops, s) := chip_isomgr t18x TEGRA186 0 t18x_boot in
  exists s1 s2, isomgr_init ops 1 s = Some (tt, s1) /\ avail_bw s1 = t18x_pool /\
    exec_isos t18x iops sample_iso s1 = Some (tt, s2) /\ free s2 /\ total real_bw (isomgr_clients s2) <= t18x_pool.
Proof.
  apply (isomgr_boot_safe t18x (covered 27) 1 TEGRA186 0 t18x_boot sample_iso).
  - discriminate.
  - apply t18x_boot_inv.
  - split; reflexivity.
  - reflexivity.
  - lia.
  - change (pool_of t18x 0 t18x_boot) with 26870400. lia.
  - exact t18x_mf_ok.
  - exact sample_iso_ok.
Defined.

Lemma iso_never_overcommitted_witness :
  option_map (fun r => (avail_bw r.2, map real_bw (isomgr_clients r.2)))
    (exec_isos t18x iops sample_iso t18x_isomgr) =
    Some (21870400, [3000000; 0; 0; 0; 0; 0; 0; 0; 2000000; 0; 0]) /\
  exists s', exec_isos t18x iops sample_iso t18x_isomgr = Some (tt, s') /\ free s' /\
    total held (isomgr_clients s') + avail_bw s' <= t18x_pool /\ 0 <= avail_bw s' /\
    total dedi_bw (isomgr_clients s') <= t18x_pool /\
    Forall (fun c => renegotiate c = false -> real_bw c <= dedi_bw c) (isomgr_clients s').
Proof.
  split; [vm_compute; reflexivity|].
  apply (iso_never_overcommitted t18x (covered 27) t18x_pool t18x_mf_ok).
  - apply t18x_isomgr_ok.
  - apply t18x_isomgr_ok.
  - exact sample_iso_ok.
Defined.

Definition run_iso (l : list (Z * iso_call)) : isomgr :=
  match exec_isos t18x iops l t18x_isomgr with Some (_, s) => s | None => t18x_isomgr end.

Lemma sample_iso_plain : Forall (fun tk : Z * iso_call => iso_arg_ok tk.2 /\ plain tk.2) sample_iso.
Proof. unfold sample_iso. repeat constructor; cbn; lia. Qed.

Lemma run_iso_ok l : Forall (fun tk => iso_arg_ok tk.2 /\ plain tk.2) l ->
  rtc (iso_step t18x) t18x_isomgr (run_iso l) /\
  sound (covered 27) t18x_pool (run_iso l) /\ free (run_iso l) /\ intact (run_iso l).
Proof.
  intros Hl. destruct t18x_isomgr_ok as (Hs & Hf & Hi).
  assert (rtc (iso_step t18x) t18x_isomgr (run_iso l)) as St.
  { unfold run_iso. destruct (exec_isos t18x iops l t18x_isomgr) as [[[] s]|] eqn:E; [|done].
    by eapply exec_isos_steps. }
  split; [done|]. by apply (iso_steps_inv t18x (covered 27) t18x_pool t18x_mf_ok _ _ St).
Qed.

Lemma iso_accounts_exact_witness :
  rtc (iso_step t18x) t18x_isomgr (run_iso sample_iso) /\
  total held (isomgr_clients (run_iso sample_iso)) + avail_bw (run_iso sample_iso) = t18x_pool /\
  total dedi_bw (isomgr_clients (run_iso sample_iso)) = iso_dedi_bw (run_iso sample_iso) /\
  forall i c, isomgr_clients (run_iso sample_iso) !! i = Some c -> kref c = 0 ->
    real_bw c = 0 /\ margin_bw c = 0 /\ dedi_bw c = 0.
Proof.
  destruct (run_iso_ok sample_iso sample_iso_plain) as (St & _). split; [exact St|].
  apply (iso_accounts_exact t18x (covered 27) t18x_pool t18x_mf_ok t18x_isomgr).
  - apply t18x_isomgr_ok.
  - apply t18x_isomgr_ok.
  - apply t18x_isomgr_ok.
  - exact St.
Defined.

(** The camera as registered, and with its reservation of 2 GB/s. *)
Definition camera0 : isomgr_client :=
  IsoClient ISOMGR_MAGIC 1 1000000 0 0 0 0 0 0 0 true false 0 0 10 (Some TEGRA_BWMGR_CLIENT_CAMERA).
Definition camera1 : isomgr_client :=
  IsoClient ISOMGR_MAGIC 1 1000000 2000000 0 10 4 62500 0 0 true false 0 0 10 (Some TEGRA_BWMGR_CLIENT_CAMERA).

Lemma camera_registered n c :
  let s := run_iso (take n sample_iso) in
  isomgr_clients s !! 8%nat = Some c -> magic c = ISOMGR_MAGIC -> bwmgr_handle c <> None ->
  client_valid s !! 8%nat = Some true -> registered CAMERA TEGRA_ISO_CLIENT_TEGRA_CAMERA c s.
Proof. intros s E Hm Hh Hv. split; [done|]. split; [|done]. split; [done|]. split; [done|]. by exists c. Qed.

Lemma realize_outcome_witness :
  exists r s' c', tegra_isomgr_realize t18x iops 1 CAMERA (run_iso (take 2 sample_iso)) = Some (r, s') /\
    isomgr_clients s' !! 8%nat = Some c' /\
    r = 4 /\ real_bw c' = 2000000 /\ real_mf c' = 62500 /\ realize c' = false /\ avail_bw s' = 24870400.
Proof.
  destruct (run_iso_ok (take 2 sample_iso)) as (_ & Hs & Hf & Hi); [apply Forall_take, sample_iso_plain|].
  destruct (realize_outcome t18x (covered 27) t18x_pool t18x_mf_ok 1 CAMERA TEGRA_ISO_CLIENT_TEGRA_CAMERA camera1
    (run_iso (take 2 sample_iso))) as (r & s' & c' & E & Ec & Hr);
    [exact Hs|exact Hf|exact Hi|vm_compute; reflexivity| |discriminate|intros [? _]; discriminate|].
  - apply camera_registered; [vm_compute; reflexivity|reflexivity|discriminate|vm_compute; reflexivity].
  - exists r, s', c'. split; [exact E|]. split; [exact Ec|].
    assert (avail_bw (run_iso (take 2 sample_iso)) = 26870400) as Ea by (vm_compute; reflexivity).
    rewrite Ea in Hr. cbn in Hr. exact Hr.
Defined.

(** After start-up every handle is linked, and no request has been made. *)
Definition t18x_links : list (option Z) :=
  [Some 4; Some 5; Some 6; None; None; Some 25; None; None; Some 27; Some 33; Some 41].

Lemma t18x_links_inj i j h : t18x_links !! i = Some (Some h) -> t18x_links !! j = Some (Some h) -> j = i.
Proof.
  intros Ei Ej. assert (0 <= h < 50 /\ h <> 29) as Hh by (do 11 (destruct i as [|i]; [cbn in Ei; simplify_eq; done|]); done).
  pose proof (eq_trans Ei (eq_sym Ej)) as E.
  do 11 (destruct i as [|i]; [do 11 (destruct j as [|j]; [done|]); done|]). done.
Qed.

Definition fresh_links (s : isomgr) : bool :=
  forallb (fun oh => match oh with
    | Some h => (0 <=? h) && (h <? TEGRA_BWMGR_CLIENT_COUNT) && negb (h =? 29) &&
        bool_decide (asked (iso_bwmgr s) h TEGRA_BWMGR_SET_EMC_SHARED_BW_ISO = Some 0)
    | None => true
    end) t18x_links.

Lemma linked_fresh s : ready (iso_bwmgr s) -> iso_handle s = Some 29 ->
  asked (iso_bwmgr s) 29 TEGRA_BWMGR_SET_EMC_FLOOR = Some (lt_mf_rq s * 1000) ->
  map (fun c => (bwmgr_handle c, real_mf_rq c)) (isomgr_clients s) = map (fun h => (h, 0)) t18x_links ->
  fresh_links s = true -> linked s.
Proof.
  intros Hr Hs Ha E B.
  assert (forall i h, t18x_links !! i = Some (Some h) -> (0 <= h < TEGRA_BWMGR_CLIENT_COUNT /\ h <> 29) /\
    asked (iso_bwmgr s) h TEGRA_BWMGR_SET_EMC_SHARED_BW_ISO = Some 0) as A.
  { intros i h Ei. pose proof (proj1 (forallb_forall _ _) B (Some h) (proj1 (list_elem_of_In _ _) (list_elem_of_lookup_2 _ _ _ Ei))) as Bh.
    cbv beta iota in Bh. apply andb_prop in Bh as [Bh A%bool_decide_eq_true].
    apply andb_prop in Bh as [[?%Z.leb_le ?%Z.ltb_lt]%andb_prop ?%negb_true_iff%Z.eqb_neq]. done. }
  assert (forall i c h, isomgr_clients s !! i = Some c -> bwmgr_handle c = Some h ->
    t18x_links !! i = Some (Some h) /\ real_mf_rq c = 0) as L.
  { intros i c h Ec Eh. pose proof (f_equal (lookup i) E) as El. rewrite !list_lookup_fmap, Ec in El.
    destruct (t18x_links !! i); cbn in El; [|done]. injection El as E1 E2. by rewrite <- E1, Eh, E2. }
  split; [done| |].
  - exists 29. split; [done|]. split; [split; reflexivity || discriminate|].
    split; [done|]. intros i c Ec Eh. destruct (L i c 29 Ec Eh) as [El _].
    by destruct (A i 29 El) as [[_ ?] _].
  - intros i c h Ec Eh. destruct (L i c h Ec Eh) as [El ->].
    destruct (A i h El) as [[? _] ?]. split; [done|]. split; [done|].
    intros j c' Ej Ej'. destruct (L j c' h Ej Ej') as [El' _]. by eapply t18x_links_inj.
Qed.

Lemma t18x_isomgr_linked : linked t18x_isomgr.
Proof. apply linked_fresh; vm_compute; repeat split. Qed.

Lemma run_iso_exec l : Forall (fun tk => iso_arg_ok tk.2) l -> exec_isos t18x iops l t18x_isomgr = Some (tt, run_iso l).
Proof.
  intros Hl. destruct t18x_isomgr_ok as (Hs & Hf & _).
  destruct (exec_isos_ok t18x (covered 27) t18x_pool t18x_mf_ok l _ Hs Hf Hl) as (s & E & _).
  unfold run_iso. by rewrite E.
Qed.

Lemma realize_requests_clock_witness :
  exists r s' hf, tegra_isomgr_realize t18x iops 1 CAMERA (run_iso (take 2 sample_iso)) = Some (r, s') /\
    iso_handle s' = Some hf /\
    asked (iso_bwmgr s') hf TEGRA_BWMGR_SET_EMC_FLOOR = Some (max_real_mf (isomgr_clients s') * 1000) /\
    forall j cj hj, isomgr_clients s' !! j = Some cj -> bwmgr_handle cj = Some hj ->
      asked (iso_bwmgr s') hj TEGRA_BWMGR_SET_EMC_SHARED_BW_ISO = Some (real_mf cj * 1000).
Proof.
  apply (realize_requests_clock t18x (covered 27) t18x_pool t18x_mf_ok (take 2 sample_iso) t18x_isomgr
    (run_iso (take 2 sample_iso)) 1 CAMERA TEGRA_ISO_CLIENT_TEGRA_CAMERA camera1).
  - reflexivity.
  - apply t18x_isomgr_ok.
  - apply t18x_isomgr_ok.
  - exact t18x_isomgr_linked.
  - apply Forall_take, sample_iso_ok.
  - apply run_iso_exec, Forall_take, sample_iso_ok.
  - vm_compute. reflexivity.
  - apply camera_registered; [vm_compute; reflexivity|reflexivity|discriminate|vm_compute; reflexivity].
  - discriminate.
  - intros [? _]. discriminate.
  - vm_compute. reflexivity.
Defined.

Lemma reserve_then_realize_witness :
  exists s1, tegra_isomgr_reserve t18x iops 1 CAMERA 2000000 10 (run_iso (take 1 sample_iso)) = Some (4, s1) /\
  exists s2 c2, tegra_isomgr_realize t18x iops 2 CAMERA s1 = Some (4, s2) /\
    isomgr_clients s2 !! 8%nat = Some c2 /\ real_bw c2 = 2000000.
Proof.
  destruct (run_iso_ok (take 1 sample_iso)) as (_ & Hs & Hf & Hi); [apply Forall_take, sample_iso_plain|].
  eexists. split; [vm_compute; reflexivity|].
  apply (reserve_then_realize t18x (covered 27) t18x_pool t18x_mf_ok 1 2 CAMERA TEGRA_ISO_CLIENT_TEGRA_CAMERA camera0
    2000000 10 (run_iso (take 1 sample_iso))); [exact Hs|exact Hf|exact Hi|vm_compute; reflexivity|lia|..].
  - apply camera_registered; [vm_compute; reflexivity|reflexivity|discriminate|vm_compute; reflexivity].
  - discriminate.
  - vm_compute. intros [? _]. discriminate.
  - reflexivity.
  - vm_compute. reflexivity.
  - discriminate.
  - lia.
Defined.

(** ** What goes wrong *)

(** The dedicated bandwidth is not kept for its client: one whose 20 GB/s are dedicated can
    reserve but not realize them when another client, with none, has realized the pool. *)
Example dedicated_not_guaranteed :
  option_map fst
    ((tegra_isomgr_register iops 1 0 20000000 true;;
      tegra_isomgr_register iops 2 1 0 true;;
      tegra_isomgr_reserve t18x iops 2 (CLIENT 1) 26000000 10;;
      r1 ← tegra_isomgr_realize t18x iops 2 (CLIENT 1);
      r2 ← tegra_isomgr_reserve t18x iops 1 (CLIENT 0) 20000000 10;
      r3 ← tegra_isomgr_realize t18x iops 1 (CLIENT 0);
      mret (r1, r2, r3)) t18x_isomgr) = Some (4, 4, 0).
Proof. vm_compute. reflexivity. Qed.

(** A refused realization leaves the client in the middle of it: a smaller reservation is
    refused, and unregistering keeps the dedicated bandwidth and the margin for ever, so that
    then no realization above a margin succeeds. *)
Example refused_realize_wedges :
  option_map fst
    ((tegra_isomgr_register iops 1 0 10000000 true;;
      tegra_isomgr_set_margin t18x iops 1 0 5000000 false;;
      tegra_isomgr_register iops 2 1 0 true;;
      tegra_isomgr_reserve t18x iops 2 (CLIENT 1) 20000000 10;;
      tegra_isomgr_realize t18x iops 2 (CLIENT 1);;
      tegra_isomgr_reserve t18x iops 1 (CLIENT 0) 8000000 10;;
      r1 ← tegra_isomgr_realize t18x iops 1 (CLIENT 0);
      r2 ← tegra_isomgr_reserve t18x iops 1 (CLIENT 0) 1000000 10;
      tegra_isomgr_unregister t18x iops 1 (CLIENT 0);;
      tegra_isomgr_register iops 1 0 0 true;;
      s ← get;
      tegra_isomgr_reserve t18x iops 2 (CLIENT 1) 1000000 10;;
      r3 ← tegra_isomgr_realize t18x iops 2 (CLIENT 1);
      mret (r1, r2, iso_dedi_bw s, total held (isomgr_clients s) + avail_bw s, r3)) t18x_isomgr) =
    Some (0, 0, 10000000, 21870400, 0).
Proof. vm_compute. reflexivity. Qed.

(** A margin above the realized bandwidth cannot be lowered unless it goes below that bandwidth. *)
Example margin_not_lowered :
  option_map fst
    ((tegra_isomgr_register iops 1 0 10000000 true;;
      r1 ← tegra_isomgr_set_margin t18x iops 1 0 5000000 false;
      r2 ← tegra_isomgr_set_margin t18x iops 1 0 3000000 false;
      r3 ← tegra_isomgr_set_margin t18x iops 1 0 0 false;
      mret (r1, r2, r3)) t18x_isomgr) = Some (0, - EINVAL, 0).
Proof. vm_compute. reflexivity. Qed.
