(* ===== verification/IsomgrT19x.v ===== *)
(** * Isochronous bandwidth on Tegra194

    The manager of isomgr.c with the rules of isomgr-t19x.c over the memory clock's manager
    with those of emc_bwmgr-t19x.c: whatever is reserved and realized together is admitted by
    one row of the memory's tables, at every moment. *)

From S2P Require Import Prelude Bwmgr BwmgrFacts Isomgr IsomgrPlat BwmgrT19x IsomgrFacts IsomgrHandles IsomgrPool.

(** ** Demands *)

(** What client [i] may use once it realizes, in Hz. *)
Definition mf_of (c : isomgr_client) : Z := Z.max (rsvd_mf c) (real_mf c).
Definition want (l : list isomgr_client) (i : Z) : Z :=
  match l !! Z.to_nat i with Some c => mf_of c * 1000 | None => 0 end.

Definition is_iso_camera (i : Z) : bool := i =? TEGRA_ISO_CLIENT_TEGRA_CAMERA.
Definition is_iso_other (i : Z) : bool := negb (iso_is_disp i) && negb (is_iso_camera i).

(** The sum of a demand over a class of the chip's clients. *)
Definition sum_of (p : Z -> bool) (w : Z -> Z) (info : list (Z * Z)) : Z :=
  foldr (fun ci => Z.add (if p ci.1 then w ci.1 else 0)) 0 info.

(** One frequency admits the demands. *)
Definition admissible (d : dram) (nvdis vi other : Z) : Prop :=
  exists r, get_best_iso_freq d (nvdis + vi + other) nvdis vi = Some r /\ r <> 0.
Definition feasible (d : dram) (w : Z -> Z) : Prop :=
  admissible d (sum_of iso_is_disp w tegra19x_isoclients) (sum_of is_iso_camera w tegra19x_isoclients)
    (sum_of is_iso_other w tegra19x_isoclients).

Lemma sum_of_mono p w w' : (forall i, 0 <= i -> w' i <= w i) ->
  sum_of p w' tegra19x_isoclients <= sum_of p w tegra19x_isoclients.
Proof.
  intros Hw. assert (Forall (fun ci => 0 <= ci.1) tegra19x_isoclients) as F by (repeat constructor; done).
  unfold sum_of. induction F as [|ci l Hi F IH]; cbn; [lia|]. specialize (Hw ci.1 Hi). destruct (p ci.1); lia.
Qed.

Lemma admissible_mono d n v o n' v' o' : t19x_memory d -> n' <= n -> v' <= v -> o' <= o ->
  admissible d n v o -> admissible d n' v' o'.
Proof.
  intros Hd Hn Hv Ho (r & E & Hr).
  destruct (best_freq_mono d (n + v + o) n v (n' + v' + o') n' v' r Hd ltac:(lia) Hn Hv E Hr) as (r' & E' & ?).
  exists r'. split; [done|lia].
Qed.
Lemma feasible_mono d w w' : t19x_memory d -> (forall i, 0 <= i -> w' i <= w i) -> feasible d w -> feasible d w'.
Proof. intros Hd Hw. apply admissible_mono; [done|by apply sum_of_mono..]. Qed.

Lemma sum_of_add p w w' v i info : p i = true -> NoDup (map fst info) -> i ∈ map fst info ->
  (forall j, j <> i -> w' j = w j) -> w' i = w i + v -> sum_of p w' info = sum_of p w info + v.
Proof.
  intros Hp Hn Hi Hw Hwi. unfold sum_of. induction info as [|[j x] l IH]; cbn in *; [by apply not_elem_of_nil in Hi|].
  inversion_clear Hn as [|? ? Hj Hn0]. rename Hn0 into Hn. destruct (decide (j = i)) as [->|Hji].
  - rewrite Hp, Hwi. enough (foldr (fun ci => Z.add (if p ci.1 then w' ci.1 else 0)) 0 l =
      foldr (fun ci => Z.add (if p ci.1 then w ci.1 else 0)) 0 l) by lia.
    clear IH Hn Hi. induction l as [|[k y] l IH]; [done|]. cbn in *. apply not_elem_of_cons in Hj as [Hk Hj].
    rewrite IH, Hw by (done || congruence). done.
  - rewrite Hw by done. apply elem_of_cons in Hi as [->|Hi]; [done|]. rewrite (IH Hn Hi). lia.
Qed.
Lemma sum_of_other p w w' i info : p i = false -> (forall j, j <> i -> w' j = w j) -> sum_of p w' info = sum_of p w info.
Proof.
  intros Hp Hw. unfold sum_of. induction info as [|[j x] l IH]; cbn; [done|]. rewrite IH.
  destruct (decide (j = i)) as [->|]; [by rewrite Hp|by rewrite Hw].
Qed.

Definition own_want (i hz : Z) (w : Z -> Z) (j : Z) : Z := if j =? i then hz else w j.

(** ** The check of a request *)

Abbreviation t19x := bwmgr_ops_t19x.
Abbreviation ops := (isomgr_ops_t19x bwmgr_ops_t19x).

Lemma freqs_want l i : Forall freqs_ok l -> 0 <= want l i <= 2147483000.
Proof.
  intros F. unfold want, mf_of. destruct (l !! Z.to_nat i) as [c|] eqn:E; [|lia].
  destruct (Forall_lookup_1 _ _ _ _ F E) as (? & ? & _). unfold mf_max in *. lia.
Qed.

Lemma add_demands_ok skip info n v o s : shaped s -> Forall freqs_ok (isomgr_clients s) ->
  Forall (fun ci => 0 <= ci.1 < TEGRA_ISO_CLIENT_COUNT) info -> 0 <= n -> 0 <= v -> 0 <= o ->
  n + v + o + 2147483000 * Z.of_nat (length info) < 2 ^ 63 ->
  let w := own_want skip 0 (want (isomgr_clients s)) in
  wp (add_demands skip info (n, v, o)) (fun d s' => s' = s /\
    d = (n + sum_of iso_is_disp w info, v + sum_of is_iso_camera w info, o + sum_of is_iso_other w info) /\
    sum_of iso_is_disp w info + sum_of is_iso_camera w info + sum_of is_iso_other w info <= 2147483000 * Z.of_nat (length info)) s.
Proof.
  intros Hs F Hi. revert n v o. induction Hi as [|[c x] info Hc Hi IH]; intros n v o Hn Hv Ho Hb w; cbn [add_demands].
  { split; [done|]. unfold sum_of. cbn. rewrite !Z.add_0_r. split; [done|lia]. }
  cbn [fst length] in *. rewrite Nat2Z.inj_succ in Hb.
  destruct (Z.eqb_spec c skip) as [->|Hne].
  { eapply wp_mono; [by apply IH; try done; lia|]. cbv beta. intros d s' (-> & -> & Hle). rewrite Nat2Z.inj_succ. split; [done|].
    assert (w skip = 0) as E by (unfold w, own_want; by rewrite Z.eqb_refl).
    unfold sum_of in *. cbn [foldr fst]. fold w in Hle |- *. rewrite E. clear IH. clearbody w.
    destruct (iso_is_disp skip), (is_iso_camera skip), (is_iso_other skip); rewrite !Z.add_0_l.
    all: split; [reflexivity|]. all: lia. }
  wp_simpl. destruct (shaped_lookup s c Hs Hc) as (y & Ey). eapply wp_cp; [exact Ey|]. cbv beta.
  destruct (Forall_lookup_1 _ _ _ _ F Ey) as (? & ? & _). unfold mf_max in *.
  assert (s32 (Z.max (rsvd_mf y) (real_mf y) * 1000) = w c) as ->.
  { unfold w, own_want, want. destruct (Z.eqb_spec c skip); [done|]. rewrite Ey. unfold mf_of. apply s32_small. lia. }
  assert (0 <= w c <= 2147483000) as Hw.
  { unfold w, own_want. destruct (Z.eqb_spec c skip); [lia|]. by apply freqs_want. }
  assert (forall p, sum_of p w ((c, x) :: info) = (if p c : bool then w c else 0) + sum_of p w info) as Es by done.
  assert (is_iso_other c = negb (iso_is_disp c) && negb (is_iso_camera c)) as Eo by done.
  unfold add_demand. fold (is_iso_camera c).
  destruct (iso_is_disp c) eqn:Ed; [|destruct (is_iso_camera c) eqn:Ec]; rewrite u64_small by lia;
    (eapply wp_mono; [by apply IH; lia|]); cbv beta; fold w; intros d s' (-> & -> & Hle);
    rewrite Nat2Z.inj_succ, !Es, Eo, Ed; cbn [negb andb].
  - assert (is_iso_camera c = false) as -> by (unfold is_iso_camera, iso_is_disp in *; case_z; [by subst|done]).
    split; [done|]. split; [apply f_equal2; [apply f_equal2|]; lia|lia].
  - rewrite Ec. cbn [negb]. split; [done|]. split; [apply f_equal2; [apply f_equal2|]; lia|lia].
  - rewrite Ec. cbn [negb]. split; [done|]. split; [apply f_equal2; [apply f_equal2|]; lia|lia].
Qed.

Lemma isoclients_NoDup : NoDup (map fst tegra19x_isoclients).
Proof. by apply (bool_decide_unpack _). Qed.

Lemma sum_own p i hz w : i ∈ map fst tegra19x_isoclients ->
  sum_of p (own_want i hz w) tegra19x_isoclients =
    (if p i then hz else 0) + sum_of p (own_want i 0 w) tegra19x_isoclients.
Proof.
  intros Hi. assert (forall j, j <> i -> own_want i hz w j = own_want i 0 w j) as Ho
    by (intros j Hj; unfold own_want; by destruct (Z.eqb_spec j i)).
  destruct (p i) eqn:Hp; [|by apply (sum_of_other p _ _ i)].
  rewrite Z.add_comm. apply (sum_of_add p (own_want i 0 w) _ hz i); [done|apply isoclients_NoDup|done|done|].
  unfold own_want. by rewrite Z.eqb_refl.
Qed.

(** ** The invariant *)

Record client19 (c : isomgr_client) : Prop := {
  c9_kref : kref c = 0 \/ kref c = 1;
  c9_magic : magic c = ISOMGR_MAGIC -> kref c = 1;
  c9_realize : realize c = false;
  c9_freqs : freqs_ok c }.

(** Everything reserved or realized together is admitted by one frequency. *)
Record t19_ok (s : isomgr) : Prop := {
  t9_shape : shaped s;
  t9_info : isoclient_info s = tegra19x_isoclients;
  t9_valid : forall i, 0 <= i -> client_valid s !! Z.to_nat i = Some true -> i ∈ map fst tegra19x_isoclients;
  t9_clients : Forall client19 (isomgr_clients s);
  t9_bok : bok t19x_memory s;
  t9_fits : feasible (b_dram (iso_bwmgr s)) (want (isomgr_clients s)) }.

Lemma t19_lock l t s : t19_ok (set_iso_lock l t s) <-> t19_ok s.
Proof. split; intros []; by split. Qed.

Lemma t19_freqs s : t19_ok s -> clients_freqs s.
Proof. intros [[L _] _ _ F _ _]. split; [done|]. eapply Forall_impl; [|exact F]. by intros c []. Qed.

Lemma t19_memory s : t19_ok s -> t19x_memory (b_dram (iso_bwmgr s)).
Proof. intros []. apply t9_bok0. Qed.

Lemma t19_valid s i : t19_ok s -> valid_client i s -> i ∈ map fst tegra19x_isoclients.
Proof. intros Hs ([? _] & E & _). by apply (t9_valid s Hs). Qed.

Lemma want_alter l i c g j : l !! Z.to_nat i = Some c -> 0 <= i -> 0 <= j ->
  want (alter g (Z.to_nat i) l) j = own_want i (mf_of (g c) * 1000) (want l) j.
Proof.
  intros E Hi Hj. unfold want, own_want. destruct (Z.eqb_spec j i) as [->|].
  - by rewrite list_lookup_alter_eq, E.
  - by rewrite list_lookup_alter_ne by lia.
Qed.

(** A change of one client. *)
Lemma t19_update s s' i c g : t19_ok s -> isomgr_clients s !! Z.to_nat i = Some c -> 0 <= i ->
  isomgr_clients s' = alter g (Z.to_nat i) (isomgr_clients s) -> client_valid s' = client_valid s ->
  isoclient_info s' = isoclient_info s -> iso_bwmgr s' = iso_bwmgr s -> client19 (g c) ->
  feasible (b_dram (iso_bwmgr s)) (own_want i (mf_of (g c) * 1000) (want (isomgr_clients s))) -> t19_ok s'.
Proof.
  intros Hs E Hi Ec Ev Ei Eb Hc Hf. pose proof (t19_memory s Hs) as Hd. destruct Hs as [[] ? ? ? ? ?]. split; try congruence; try done.
  - split; [|congruence]. by rewrite Ec, length_alter.
  - intros j Hj. rewrite Ev. auto.
  - rewrite Ec. apply Forall_alter; [done|]. intros x Hx _. by simplify_eq.
  - unfold bok. by rewrite Eb.
  - rewrite Eb. eapply feasible_mono; [done| |exact Hf]. intros j Hj. by rewrite Ec, (want_alter _ i c).
Qed.

(** A change that demands no more. *)
Lemma t19_shrink s s' i c g : t19_ok s -> isomgr_clients s !! Z.to_nat i = Some c -> 0 <= i ->
  isomgr_clients s' = alter g (Z.to_nat i) (isomgr_clients s) -> client_valid s' = client_valid s ->
  isoclient_info s' = isoclient_info s -> iso_bwmgr s' = iso_bwmgr s -> client19 (g c) ->
  mf_of (g c) <= mf_of c -> t19_ok s'.
Proof.
  intros Hs E Hi Ec Ev Ei Eb Hc Hm. eapply t19_update; try done.
  eapply feasible_mono; [by apply t19_memory| |apply (t9_fits s Hs)]. intros j Hj. unfold own_want, want.
  destruct (Z.eqb_spec j i) as [->|]; [|done]. rewrite E. lia.
Qed.

Lemma want_clocked s s' i : clocked s s' -> want (isomgr_clients s') i = want (isomgr_clients s) i.
Proof.
  intros Hk. unfold want. destruct (isomgr_clients s !! Z.to_nat i) as [c|] eqn:E.
  - by destruct (clocked_lookup s s' _ c Hk E) as (x & ->).
  - pose proof (f_equal (lookup (Z.to_nat i)) (ck_clients s s' Hk)) as L. rewrite !list_lookup_fmap, E in L.
    by destruct (isomgr_clients s' !! Z.to_nat i).
Qed.

Lemma t19_framed s s' : framed t19x_memory s s' -> t19_ok s -> t19_ok s'.
Proof.
  intros [Hk Hb] Hs. pose proof (t19_memory s Hs) as Hd. destruct Hs as [[L V] I Hv F B Hf]. split.
  - split; [|by rewrite (ck_valid s s' Hk)]. by rewrite <- (length_map forget_rq), (ck_clients s s' Hk), length_map.
  - by rewrite (ck_info s s' Hk).
  - intros i Hi. rewrite (ck_valid s s' Hk). auto.
  - eapply Forall_clocked; [|apply (ck_clients s s' Hk)|done]. intros c x []. by split.
  - done.
  - rewrite (ck_dram s s' Hk). eapply feasible_mono; [done| |exact Hf]. intros i Hi. by rewrite (want_clocked s s').
Qed.

(** ** The check of a request *)

(** Up to 34 GB/s the frequency of a bandwidth, in Hz, fits an s32 of KHz times 1000. *)
Definition bw_max : Z := 34359728.

Lemma bw_to_freq_small d bw : 0 <= bw <= bw_max -> 0 <= t19x_bw_to_freq d bw <= mf_max.
Proof.
  intros Hb. unfold t19x_bw_to_freq, bw_max, mf_max in *.
  assert (t19x_width (dram_type d) = 16 \/ t19x_width (dram_type d) = 32 \/ t19x_width (dram_type d) = 64) as Hw
    by (unfold t19x_width; case_match; auto).
  destruct Hw as [->|[->| ->]]; rewrite u64_small by lia; dlia.
Qed.
Lemma mf_small d bw : 0 <= bw <= bw_max -> u32 (t19x_bw_to_freq d bw) = t19x_bw_to_freq d bw.
Proof. intros Hb. pose proof (bw_to_freq_small d bw Hb). unfold mf_max in *. apply u32_small. lia. Qed.

(** The demand of a bandwidth, in Hz. *)
Definition hz_of (d : dram) (bw : Z) : Z := t19x_bw_to_freq d bw * 1000.

Lemma sums_range w : (forall i, 0 <= i -> 0 <= w i <= 2147483000) ->
  let n := sum_of iso_is_disp w tegra19x_isoclients in
  let v := sum_of is_iso_camera w tegra19x_isoclients in
  let o := sum_of is_iso_other w tegra19x_isoclients in
  0 <= n /\ 0 <= v /\ 0 <= o /\ n + v + o <= 2147483000 * 7.
Proof.
  intros Hw. unfold sum_of. cbn.
  pose proof (Hw 0). pose proof (Hw 1). pose proof (Hw 2). pose proof (Hw 5). pose proof (Hw 8). pose proof (Hw 9).
  pose proof (Hw 10). change TEGRA_ISO_CLIENT_DISP_0 with 0. change TEGRA_ISO_CLIENT_DISP_1 with 1.
  change TEGRA_ISO_CLIENT_DISP_2 with 2. change TEGRA_ISO_CLIENT_ISP_A with 5. change TEGRA_ISO_CLIENT_TEGRA_CAMERA with 8.
  change TEGRA_ISO_CLIENT_APE_ADMA with 9. change TEGRA_ISO_CLIENT_EQOS with 10. lia.
Qed.

Lemma wp_lowest_iso_freq n v o s (Q : bool -> isomgr -> Prop) : t19x_memory (b_dram (iso_bwmgr s)) ->
  0 <= n -> 0 <= v -> 0 <= o -> n + v + o < 2 ^ 63 ->
  (forall r, (r = true <-> admissible (b_dram (iso_bwmgr s)) n v o) -> Q r s) ->
  wp (ret ← bwm (bwmgr_get_lowest_iso_emc_freq t19x (s64 (n + v + o)) (s64 n) (s64 v)); mret (negb (ret =? 0))) Q s.
Proof.
  intros Hd Hn Hv Ho Hb HQ. assert (forall x, 0 <= x < 2 ^ 63 -> s64 x = x) as Es by (intros; apply (sw_small 64); lia).
  rewrite !Es by lia. destruct (get_best_iso_freq_spec _ (n + v + o) n v Hd) as (r & E & _).
  wp_simpl. apply (wp_bwm_read _ r).
  - unfold bwmgr_get_lowest_iso_emc_freq. cbn [op_get_best_iso_freq bwmgr_ops_t19x]. munfold. by rewrite E.
  - wp_simpl. apply HQ. unfold admissible. rewrite negb_true_iff, Z.eqb_neq. split.
    + intros Hr. by exists r.
    + intros (r' & E' & Hr). congruence.
Qed.

(** What the check relies on. *)
Record checkable (s : isomgr) : Prop := {
  ch_shape : shaped s;
  ch_info : isoclient_info s = tegra19x_isoclients;
  ch_freqs : Forall freqs_ok (isomgr_clients s);
  ch_memory : t19x_memory (b_dram (iso_bwmgr s)) }.

Lemma t19_checkable s : t19_ok s -> checkable s.
Proof. intros Hs. split; [apply Hs|apply Hs|apply (t19_freqs s Hs)|by apply t19_memory]. Qed.

Lemma wp_request_possible reserve bw i s (Q : bool -> isomgr -> Prop) : checkable s -> 0 <= bw <= bw_max ->
  i ∈ map fst tegra19x_isoclients ->
  (forall r, (r = true <-> feasible (b_dram (iso_bwmgr s)) (own_want i (hz_of (b_dram (iso_bwmgr s)) bw)
     (if reserve : bool then want (isomgr_clients s) else fun _ => 0))) -> Q r s) ->
  wp (is_isomgr_request_possible t19x reserve bw i) Q s.
Proof.
  intros Hs Hbw Hi HQ. pose proof (ch_memory s Hs) as Hd. set (d := b_dram (iso_bwmgr s)) in *.
  pose proof (bw_to_freq_small d bw Hbw) as Hf. unfold mf_max in Hf.
  unfold is_isomgr_request_possible. wp_simpl.
  apply (wp_bwm_read _ (t19x_bw_to_freq d bw)); [done|]. wp_simpl.
  rewrite mf_small by done. rewrite (u32_small (_ * 1000)) by lia. fold (hz_of d bw). set (hz := hz_of d bw) in *.
  assert (0 <= hz <= 2147483000) as Hz by (unfold hz, hz_of; lia).
  set (w := if reserve then want (isomgr_clients s) else fun _ => 0) in *.
  assert (forall p, 0 <= sum_of p (own_want i 0 w) tegra19x_isoclients) as Hp.
  { assert (Forall freqs_ok (isomgr_clients s)) as F by apply Hs.
    assert (forall j, 0 <= own_want i 0 w j) as Hw0.
    { intros j. unfold own_want. destruct (j =? i); [lia|]. unfold w. destruct reserve; [|lia]. by apply freqs_want. }
    intros p. unfold sum_of. generalize tegra19x_isoclients. intros l. induction l as [|ci l IH]; cbn; [lia|].
    specialize (Hw0 ci.1). destruct (p ci.1); lia. }
  set (N := sum_of iso_is_disp (own_want i 0 w) tegra19x_isoclients) in *.
  set (V := sum_of is_iso_camera (own_want i 0 w) tegra19x_isoclients) in *.
  set (O := sum_of is_iso_other (own_want i 0 w) tegra19x_isoclients) in *.
  assert (N + V + O <= 2147483000 * 7) as Hsum.
  { apply sums_range. intros j Hj. unfold own_want. destruct (j =? i); [lia|]. unfold w. destruct reserve; [|lia].
    apply freqs_want, Hs. }
  pose proof (Hp iso_is_disp) as HN. pose proof (Hp is_iso_camera) as HV. pose proof (Hp is_iso_other) as HO.
  fold N in HN. fold V in HV. fold O in HO.
  set (own := add_demand i hz (0, 0, 0)).
  assert (own = (if iso_is_disp i then hz else 0, if is_iso_camera i then hz else 0, if is_iso_other i then hz else 0)) as Eown.
  { unfold own, add_demand, is_iso_other. fold (is_iso_camera i). rewrite !Z.add_0_l, !u64_small by lia.
    destruct (iso_is_disp i) eqn:Ed, (is_iso_camera i) eqn:Ec; try done.
    unfold iso_is_disp, is_iso_camera in *. exfalso. revert Ed Ec. repeat case_z; try done; subst; done. }
  assert (forall d', d' = ((if iso_is_disp i then hz else 0) + N, (if is_iso_camera i then hz else 0) + V,
    (if is_iso_other i then hz else 0) + O) -> wp (let '(nvdis, vi, other) := d' in
      ret ← bwm (bwmgr_get_lowest_iso_emc_freq t19x (s64 (nvdis + vi + other)) (s64 nvdis) (s64 vi));
      mret (negb (ret =? 0))) Q s) as Hend.
  { intros d' ->. assert (forall (b : bool), 0 <= (if b then hz else 0) <= hz) as Hh by (intros []; lia).
    pose proof (Hh (iso_is_disp i)). pose proof (Hh (is_iso_camera i)). pose proof (Hh (is_iso_other i)).
    apply wp_lowest_iso_freq; [done|lia..|]. intros r Hr. apply HQ. rewrite Hr. unfold feasible.
    rewrite !(sum_own _ i hz w Hi). done. }
  destruct reserve; wp_simpl.
  - rewrite (ch_info s Hs), Eown.
    eapply wp_mono; [apply add_demands_ok; [by apply Hs|by apply Hs|by repeat constructor|..]|].
    + destruct (iso_is_disp i); lia.
    + destruct (is_iso_camera i); lia.
    + destruct (is_iso_other i); lia.
    + cbn [length tegra19x_isoclients]. destruct (iso_is_disp i), (is_iso_camera i), (is_iso_other i); lia.
    + cbv beta. intros x s' (-> & -> & _). exact (Hend _ eq_refl).
  - assert (sum_of iso_is_disp (own_want i 0 w) tegra19x_isoclients = 0 /\ V = 0 /\ O = 0) as (EN & EV & EO).
    { assert (forall p, sum_of p (own_want i 0 (fun _ => 0)) tegra19x_isoclients = 0) as E0; [|by repeat split; apply E0].
      intros p. unfold sum_of, own_want. generalize tegra19x_isoclients. intros l. induction l as [|ci l IH]; cbn; [done|].
      rewrite IH. by destruct (p ci.1), (ci.1 =? i). }
    rewrite Eown. specialize (Hend _ eq_refl). fold N in EN. rewrite EN, EV, EO, !Z.add_0_r in Hend. exact Hend.
Qed.

(** ** The operations *)

Section ops.
Context `{ClkOps}.

(** What holds after a call. *)
Definition after19 (s s' : isomgr) : Prop := free s' /\ t19_ok s' /\ (in_step s -> in_step s').

Lemma after19_same s : free s -> t19_ok s -> after19 s s.
Proof. by split. Qed.
Lemma after19_unlock s s' : t19_ok s' -> (in_step s -> in_step s') -> after19 s (set_iso_lock false None s').
Proof. intros ? Hl. split; [done|]. split; [by apply t19_lock|]. intros. by apply in_step_lock, Hl. Qed.

Lemma t19_client s i : t19_ok s -> 0 <= i < TEGRA_ISO_CLIENT_COUNT ->
  exists c, isomgr_clients s !! Z.to_nat i = Some c /\ client19 c.
Proof.
  intros Hs Hi. destruct (shaped_lookup s i (t9_shape s Hs) Hi) as [c E]. exists c. split; [done|].
  eapply Forall_lookup_1; [apply (t9_clients s Hs)|exact E].
Qed.

Lemma mf_of_nonneg c : client19 c -> 0 <= mf_of c.
Proof. intros [_ _ _ (? & ? & _)]. unfold mf_of. lia. Qed.

Lemma register19_ok t i udedi reneg s : t19_ok s -> free s -> 0 <= udedi <= bw_max ->
  wp (__tegra_isomgr_register ops t i udedi reneg) (fun _ s' => after19 s s') s.
Proof.
  intros Hs Hf Hu. unfold __tegra_isomgr_register. wp_simpl.
  apply wp_is_client_valid; [apply Hs| |by intros _; apply after19_same]. intros Hv. pose proof Hv as [Hi _]. cbn [negb].
  destruct (_ && _); wp_simpl; [by apply after19_same|].
  apply wp_lock; [done|]. cbn [negb]. wp_simpl. set (s1 := set_iso_lock _ _ s).
  assert (t19_ok s1) as Hs1 by (by apply t19_lock).
  destruct (t19_client s i Hs Hi) as (c & E & Hc). eapply wp_cp; [exact E|].
  assert (wp (isomgr_unlock t;; mret ERR) (fun _ s' => after19 s s') s1) as Hfail.
  { wp_simpl. apply wp_unlock; [done|]. unfold s1. rewrite free_lock by done. by apply after19_same. }
  destruct (Z.eqb_spec (kref c) 0) as [K|]; [|exact Hfail]. cbn [negb]. wp_simpl.
  cbn [isomgr_plat_register isomgr_ops_t19x]. unfold bw_max in Hu.
  apply wp_request_possible; [by apply t19_checkable| |by apply (t19_valid s1)|].
  { rewrite u32_s32 by lia. unfold bw_max. lia. }
  intros r _. destruct r; cbn [negb]; [|exact Hfail].
  wp_simpl. eapply wp_upd; [exact E|]. wp_simpl. apply wp_unlock; [done|]. wp_simpl.
  match goal with |- after19 _ (set_iso_lock false None (set_iso_dedi_bw _ (upd_client i ?f _))) => set (g := f) end.
  apply after19_unlock.
  - eapply (t19_shrink s1 _ i c g); [done|exact E|lia|done..| |].
    + destruct Hc as [_ _ _ (? & ? & ?)]. split; cbn; auto. unfold freqs_ok, mf_max in *. cbn. lia || split; [lia|split; [lia|done]].
    + pose proof (mf_of_nonneg c Hc). unfold mf_of at 1. cbn. lia.
  - intros Hl. refine (in_step_links s _ _ Hl). by apply (links_alter g (Z.to_nat i) s).
Qed.

(** Dropping one of two references does nothing more. *)
Lemma wp_kref_put_2 t i c s (Q : unit -> isomgr -> Prop) : isomgr_clients s !! Z.to_nat i = Some c -> kref c = 2 ->
  Q tt (upd_client i (set_kref 1) s) -> wp (kref_put t19x ops t i) Q s.
Proof.
  intros E K HQ. unfold kref_put. wp_simpl. eapply wp_upd; [exact E|]. cbv beta. wp_simpl.
  assert (upd_client i (fun c => set_kref (s32 (kref c - 1)) c) s = upd_client i (set_kref 1) s) as ->
    by (unfold upd_client; by rewrite !(alter_insert _ _ _ _ E), K).
  eapply wp_cp; [by apply upd_client_at|]. cbn. exact HQ.
Qed.

Lemma unregister19_ok t h s : t19_ok s -> free s ->
  wp (__tegra_isomgr_unregister t19x ops t h) (fun _ s' => after19 s s') s.
Proof.
  intros Hs Hf. unfold __tegra_isomgr_unregister. wp_simpl.
  apply wp_VALIDATE_HANDLE; [apply Hs| |by intros _; apply after19_same]. intros i c (-> & [Hi _] & E & Mg). wp_simpl.
  apply wp_lock; [done|]. cbn [negb]. wp_simpl. set (s1 := set_iso_lock _ _ s).
  pose proof (Forall_lookup_1 _ _ _ _ (t9_clients s Hs) E) as Hc. pose proof (c9_magic c Hc Mg) as K.
  unfold kref_put. wp_simpl. eapply wp_upd; [exact E|]. cbv beta. wp_simpl.
  assert (upd_client i (fun c => set_kref (s32 (kref c - 1)) c) s1 = upd_client i (set_kref 0) s1) as ->
    by (unfold upd_client; by rewrite !(alter_insert _ _ _ _ E), K).
  assert (isomgr_clients (upd_client i (set_kref 0) s1) !! Z.to_nat i = Some (set_kref 0 c)) as E1 by (by apply upd_client_at).
  eapply wp_cp; [exact E1|]. cbn [kref set_kref Z.eqb]. unfold unregister_iso_client. wp_simpl.
  apply wp_trylock; [done|]. wp_simpl. eapply wp_cp; [exact E1|]. cbn [realize set_kref]. rewrite (c9_realize c Hc).
  wp_simpl. cbn [isomgr_plat_unregister isomgr_ops_t19x]. wp_simpl. eapply wp_upd; [exact E1|]. wp_simpl.
  match goal with |- wp _ _ ?x => set (s2 := x) end.
  assert (isomgr_clients s2 = alter (purge_isomgr_client ∘ set_kref 0) (Z.to_nat i) (isomgr_clients s)) as E2
    by (unfold s2, upd_client; cbn; by rewrite list_alter_alter_eq).
  assert (t19_ok s2) as Hs2.
  { eapply (t19_shrink s s2 i c); [done|exact E|lia|exact E2|done..| |].
    - destruct Hc as [_ _ _ (? & ? & ?)]. split; [by left|discriminate|done|].
      unfold freqs_ok, mf_max in *. cbn. split; [lia|split; [lia|done]].
    - pose proof (mf_of_nonneg c Hc). unfold mf_of at 1. cbn. lia. }
  eapply wp_mono; [apply (update_mc_clock_spec t19x t19x_memory t s2); [by apply t19_freqs|apply Hs2|done]|].
  intros [] s3 [Hf3 Hlk]. wp_simpl. destruct (proj1 Hf3). apply wp_unlock.
  { split; [rewrite ck_locked|rewrite ck_task]; done. }
  wp_simpl. apply after19_unlock; [by eapply t19_framed|]. intros Hl. apply Hlk.
  refine (in_step_links s _ _ Hl). unfold links at 1. rewrite E2.
  exact (links_alter (purge_isomgr_client ∘ set_kref 0) (Z.to_nat i) s ltac:(done)).
Qed.

(** The end of a call with a reference: only the change [f] of the client is left. *)
Lemma wp_put_unlock_2 t i c f r s (Q : Z -> isomgr -> Prop) : free s -> isomgr_clients s !! Z.to_nat i = Some c ->
  kref c = 1 -> (forall y d, f (set_kref y d) = set_kref y (f d)) -> (forall d, kref (f d) = kref d) ->
  Q r (upd_client i f s) ->
  wp (put_unlock t19x ops t i r) Q (upd_client i f (upd_client i (set_kref 2) (set_iso_lock true (Some t) s))).
Proof.
  intros Hf E K Hk1 Hk2 HQ. unfold put_unlock. wp_simpl.
  eapply (wp_kref_put_2 t i (f (set_kref 2 c))); [by do 2 apply upd_client_at|by rewrite Hk2|]. wp_simpl.
  apply wp_unlock; [done|]. wp_simpl.
  assert (upd_client i (set_kref 1) (upd_client i f (upd_client i (set_kref 2) (set_iso_lock true (Some t) s))) =
    upd_client i f (set_iso_lock true (Some t) s)) as ->.
  { rewrite <- K. apply kref_roundtrip; [exact E|done|by rewrite Hk2]. }
  change (set_iso_lock false None (upd_client i f (set_iso_lock true (Some t) s)))
    with (upd_client i f (set_iso_lock false None (set_iso_lock true (Some t) s))).
  by rewrite free_lock.
Qed.

Lemma wp_give_up_2 t i c r s (Q : Z -> isomgr -> Prop) : free s -> isomgr_clients s !! Z.to_nat i = Some c ->
  kref c = 1 -> Q r s ->
  wp (put_unlock t19x ops t i r) Q (upd_client i (set_kref 2) (set_iso_lock true (Some t) s)).
Proof.
  intros Hf E K HQ. pose proof (wp_put_unlock_2 t i c id r s Q Hf E K) as W.
  rewrite (upd_client_id i c), (upd_client_id i (set_kref 2 c)) in W by (done || by apply upd_client_at). by apply W.
Qed.

Lemma wp_already_2 t i c s (Q : Z -> isomgr -> Prop) : free s -> isomgr_clients s !! Z.to_nat i = Some c -> kref c = 1 ->
  Q (u32 (lto c)) s ->
  wp (kref_put t19x ops t i;;
      ok ← isomgr_unlock t;
      c ← cp i;
      mret (if ok : bool then u32 (lto c) else 0)) Q (upd_client i (set_kref 2) (set_iso_lock true (Some t) s)).
Proof.
  intros Hf E K HQ. wp_simpl. eapply (wp_kref_put_2 t i (set_kref 2 c)); [by apply upd_client_at|done|]. wp_simpl.
  assert (upd_client i (set_kref 1) (upd_client i (set_kref 2) (set_iso_lock true (Some t) s)) = set_iso_lock true (Some t) s) as ->.
  { rewrite upd_client_twice. transitivity (upd_client i id (set_iso_lock true (Some t) s)); [|by eapply upd_client_id].
    unfold upd_client. rewrite !(alter_insert _ _ _ _ E). cbn. rewrite <- K. by destruct c. }
  apply wp_unlock; [done|]. wp_simpl. rewrite free_lock by done. eapply wp_cp; [exact E|]. exact HQ.
Qed.

(** Why the rules let client [c] reserve [bw]: with what the others may use, one frequency
    admits it. *)
Definition can_reserve19 (bw i : Z) (c : isomgr_client) (s : isomgr) : Prop :=
  (renegotiate c = true \/ bw <= dedi_bw c) /\
  feasible (b_dram (iso_bwmgr s)) (own_want i (hz_of (b_dram (iso_bwmgr s)) bw) (want (isomgr_clients s))).

(** Every outcome of a reservation on Tegra194. *)
Definition reserved19 (h : tegra_isomgr_handle) (ubw ult r : Z) (s s' : isomgr) : Prop :=
  (forall i c, ~ registered h i c s) /\ r = 0 /\ s' = s \/
  exists i c, registered h i c s /\
    (u32 (rsvd_bw c) = ubw /\ u32 (lti c) = ult /\ r = u32 (lto c) /\ s' = s \/
     ~ (u32 (rsvd_bw c) = ubw /\ u32 (lti c) = ult) /\ can_reserve19 ubw i c s /\ r = latency t19x ubw s /\
       s' = upd_client i (reservation ubw ult (min_freq t19x ubw s) r) s \/
     ~ (u32 (rsvd_bw c) = ubw /\ u32 (lti c) = ult) /\ ~ can_reserve19 ubw i c s /\ r = 0 /\ s' = s).

Lemma feasible_ext d w w' : t19x_memory d -> (forall i, 0 <= i -> w' i = w i) -> feasible d w <-> feasible d w'.
Proof.
  intros Hd Hw. split; apply feasible_mono; try done; intros i Hi; rewrite Hw by done; lia.
Qed.

Lemma reserve19_ok t h ubw ult s : t19_ok s -> free s -> 0 <= ubw <= bw_max ->
  wp (__tegra_isomgr_reserve t19x ops t h ubw ult) (fun r s' => reserved19 h ubw ult r s s') s.
Proof.
  intros Hs Hf Hu. unfold __tegra_isomgr_reserve. rewrite wp_bind.
  apply wp_VALIDATE_HANDLE; [apply Hs| |by intros Hn; left]. intros i c Hreg. pose proof Hreg as (-> & Hv & E & Mg).
  pose proof (Forall_lookup_1 _ _ _ _ (t9_clients s Hs) E) as Hc. pose proof (c9_magic c Hc Mg) as K.
  pose proof (t19_memory s Hs) as Hd.
  apply (with_ref t i c s); [done|apply Hv|done|lia|]. intros _. rewrite K.
  change (s32 (1 + 1)) with 2. set (s2 := upd_client i _ _).
  assert (isomgr_clients s2 !! Z.to_nat i = Some (set_kref 2 c)) as E2 by (by apply upd_client_at).
  wp_simpl. eapply wp_cp; [exact E2|]. cbv beta.
  cbn [rsvd_bw lti realize renegotiate dedi_bw set_kref].
  assert (((u32 (rsvd_bw c) =? ubw) && (u32 (lti c) =? ult)) =
          bool_decide (u32 (rsvd_bw c) = ubw /\ u32 (lti c) = ult)) as ->
    by (apply eq_true_iff_eq; by rewrite andb_true_iff, !Z.eqb_eq, bool_decide_eq_true).
  destruct (bool_decide_reflect (u32 (rsvd_bw c) = ubw /\ u32 (lti c) = ult)) as [[]|Hnew].
  { apply (wp_already_2 t i c s); try done. right. exists i, c. split; [done|]. by left. }
  rewrite (c9_realize c Hc). unfold bw_max in Hu. assert (s32 ubw = ubw) as Eu by (apply s32_small; lia).
  assert (~ can_reserve19 ubw i c s ->
    wp (put_unlock t19x ops t i 0) (fun r s' => reserved19 (CLIENT i) ubw ult r s s') s2) as Hno
    by (intros Hn; apply (wp_give_up_2 t i c); try done; right; exists i, c; split; [done|]; right; by right).
  rewrite Eu. destruct (negb (renegotiate c) && (dedi_bw c <? ubw)) eqn:Re.
  { apply Hno. intros [Ha _]. apply andb_prop in Re as [Rn%negb_true_iff ?%Z.ltb_lt]. destruct Ha; [congruence|lia]. }
  assert (renegotiate c = true \/ ubw <= dedi_bw c) as Ha
    by (destruct (renegotiate c); [by left|right; cbn in Re; by apply Z.ltb_ge in Re]).
  cbn [isomgr_plat_reserve isomgr_ops_t19x]. rewrite wp_bind, u32_small by lia.
  assert (forall j, 0 <= j -> want (isomgr_clients s2) j = want (isomgr_clients s) j) as Hw.
  { intros j Hj. destruct Hv as [? _].
    unfold s2, upd_client. cbn [isomgr_clients set_isomgr_clients set_iso_lock].
    rewrite (want_alter _ i c) by (done || lia). unfold own_want. destruct (Z.eqb_spec j i) as [->|]; [|done].
    unfold want. by rewrite E. }
  apply wp_request_possible; [|done|by apply (t19_valid s)|].
  { destruct (t19_checkable s Hs) as [[L V] I F M]. split; [|done| |done].
    - split; [|done]. unfold s2, upd_client. cbn. by rewrite length_alter.
    - unfold s2, upd_client. cbn [isomgr_clients set_isomgr_clients set_iso_lock]. apply Forall_alter; [done|].
      intros x Hx Fx. exact Fx. }
  intros r Hr. change (b_dram (iso_bwmgr s2)) with (b_dram (iso_bwmgr s)) in Hr. cbv iota in Hr.
  assert (r = true <-> can_reserve19 ubw i c s) as Hcan.
  { rewrite Hr, (feasible_ext _ _ (own_want i (hz_of (b_dram (iso_bwmgr s)) ubw) (want (isomgr_clients s)))); [|done|].
    - split; [by split|by intros [_ ?]].
    - intros j Hj. unfold own_want. destruct (j =? i); [done|]. by rewrite Hw. }
  clear Hr Hno Hw. destruct r; cbn [negb].
  2: { apply (wp_give_up_2 t i c); try done. right. exists i, c. split; [done|]. right. right. split; [done|]. split; [|done].
       intros Hx. by apply Hcan in Hx. }
  assert (mf_max < 2 ^ 31) as Hmx by done. pose proof (bw_to_freq_small (b_dram (iso_bwmgr s)) ubw Hu) as Hmf.
  enough (forall mf, mf = min_freq t19x ubw s -> wp
    (dvfs_latency ← bwm (bwmgr_dvfs_latency t19x mf);
     upd i (fun c => set_rsvd_bw ubw (set_rsvd_mf (s32 mf) (set_lto (s32 dvfs_latency) (set_lti (s32 ult) c))));;
     put_unlock t19x ops t i dvfs_latency) (fun r s' => reserved19 (CLIENT i) ubw ult r s s') s2) as Hrest.
  { unfold mc_min_freq, mc_dvfs_latency, min_freq in *. wp_simpl. destruct (ubw =? 0); wp_simpl;
      [|eapply wp_bwm_read; [reflexivity|]; wp_simpl]; specialize (Hrest _ eq_refl); by rewrite !wp_bind in Hrest. }
  intros mf Emf. wp_simpl. eapply wp_bwm_read; [reflexivity|]. wp_simpl. eapply wp_upd; [exact E2|]. wp_simpl.
  set (lat := op_dvfs_latency _ _ _).
  apply (wp_put_unlock_2 t i c (reservation ubw ult mf lat)); try done.
  right. exists i, c. split; [done|]. right. left. split; [done|]. split; [by apply Hcan|].
  split; [unfold lat; by rewrite Emf|]. by rewrite Emf.
Qed.

Lemma min_freq_hz ubw s : 0 <= ubw <= bw_max -> min_freq t19x ubw s * 1000 = hz_of (b_dram (iso_bwmgr s)) ubw.
Proof.
  intros Hu. unfold min_freq, hz_of. cbn [op_bw_to_freq bwmgr_ops_t19x].
  rewrite mf_small by done. destruct (Z.eqb_spec ubw 0) as [->|]; [|done].
  unfold t19x_bw_to_freq, t19x_width. by case_match.
Qed.

Lemma reserved19_after h ubw ult r s s' : t19_ok s -> free s -> 0 <= ubw <= bw_max ->
  reserved19 h ubw ult r s s' -> after19 s s'.
Proof.
  intros Hs Hf Hu [(_ & _ & ->)|(i & c & (-> & [Hi _] & E & _) & Hr)]; [by apply after19_same|].
  destruct Hr as [(_ & _ & _ & ->)|[(_ & [_ Hfe] & _ & ->)|(_ & _ & _ & ->)]]; [by apply after19_same| |by apply after19_same].
  pose proof (Forall_lookup_1 _ _ _ _ (t9_clients s Hs) E) as Hc. pose proof (t19_memory s Hs) as Hd.
  set (g := reservation ubw ult (min_freq t19x ubw s) r). pose proof (min_freq_hz ubw s Hu) as Ehz.
  pose proof (bw_to_freq_small (b_dram (iso_bwmgr s)) ubw Hu) as Hmf. unfold hz_of in Ehz.
  assert (rsvd_mf (g c) = min_freq t19x ubw s) as Erm by (apply s32_small; unfold mf_max in *; lia).
  split; [done|]. split.
  - eapply (t19_update s _ i c g); [done|exact E|lia|done..| |].
    + destruct Hc as [? ? ? (? & ? & ?)]. split; [done|done|done|]. split; [rewrite Erm; lia|done].
    + unfold mf_of at 1. rewrite Erm. change (real_mf (g c)) with (real_mf c).
      destruct (Z.max_spec (min_freq t19x ubw s) (real_mf c)) as [[_ ->]|[_ ->]].
      * eapply feasible_mono; [done| |apply (t9_fits s Hs)]. intros j Hj. unfold own_want, want.
        destruct (Z.eqb_spec j i) as [->|]; [|done]. rewrite E. unfold mf_of. lia.
      * rewrite Ehz. exact Hfe.
  - by apply in_step_upd.
Qed.

(** ** Realize *)

Definition realization19 (c : isomgr_client) : isomgr_client :=
  set_realize false (set_real_mf (rsvd_mf c) (set_real_bw (rsvd_bw c) (set_realize true c))).

(** Every outcome of a realization on Tegra194: it is not refused. *)
Definition realized19 (h : tegra_isomgr_handle) (r : Z) (s s' : isomgr) : Prop :=
  (forall i c, ~ registered h i c s) /\ r = 0 /\ s' = s \/
  exists i c, registered h i c s /\ r = u32 (lto c) /\
    (rsvd_bw c = real_bw c /\ rsvd_mf c = real_mf c /\ s' = s \/
     ~ (rsvd_bw c = real_bw c /\ rsvd_mf c = real_mf c) /\
     framed t19x_memory (upd_client i realization19 s) s' /\ (in_step s -> in_step s' /\ agreed s')).

Lemma framed_lock l t s s' : framed t19x_memory s s' -> framed t19x_memory (set_iso_lock l t s) (set_iso_lock l t s').
Proof. intros [Hk Hb]. split; [by apply clocked_lock|done]. Qed.

Lemma realize19_ok t h s : t19_ok s -> free s ->
  wp (__tegra_isomgr_realize t19x ops t h) (fun r s' => realized19 h r s s') s.
Proof.
  intros Hs Hf. unfold __tegra_isomgr_realize. rewrite wp_bind.
  apply wp_VALIDATE_HANDLE; [apply Hs| |by intros Hn; left]. intros i c Hreg. pose proof Hreg as (-> & Hv & E & Mg).
  pose proof (Forall_lookup_1 _ _ _ _ (t9_clients s Hs) E) as Hc. pose proof (c9_magic c Hc Mg) as K.
  apply (with_ref t i c s); [done|apply Hv|done|lia|]. intros _. rewrite K.
  change (s32 (1 + 1)) with 2. set (s2 := upd_client i _ _).
  assert (isomgr_clients s2 !! Z.to_nat i = Some (set_kref 2 c)) as E2 by (by apply upd_client_at).
  wp_simpl. eapply wp_cp; [exact E2|]. cbv beta. cbn [rsvd_bw rsvd_mf real_bw real_mf set_kref].
  assert (((rsvd_bw c =? real_bw c) && (rsvd_mf c =? real_mf c)) =
          bool_decide (rsvd_bw c = real_bw c /\ rsvd_mf c = real_mf c)) as ->
    by (apply eq_true_iff_eq; by rewrite andb_true_iff, !Z.eqb_eq, bool_decide_eq_true).
  destruct (bool_decide_reflect (rsvd_bw c = real_bw c /\ rsvd_mf c = real_mf c)) as [[? ?]|Hne].
  { apply (wp_already_2 t i c s); try done. right. exists i, c. split; [done|]. split; [done|]. by left. }
  wp_simpl. cbn [isomgr_plat_realize isomgr_ops_t19x]. unfold t19x_iso_plat_realize. wp_simpl.
  eapply wp_upd; [exact E2|]. wp_simpl. cbn [negb]. wp_simpl.
  eapply wp_cp; [by apply upd_client_at|]. cbv beta. wp_simpl. eapply wp_upd; [by apply upd_client_at|]. wp_simpl.
  rewrite upd_client_twice. change (set_realize false ∘ _) with realization19.
  set (s3 := upd_client i realization19 s2).
  assert (isomgr_clients s3 = alter (realization19 ∘ set_kref 2) (Z.to_nat i) (isomgr_clients s)) as E3
    by (unfold s3, s2, upd_client; cbn; by rewrite list_alter_alter_eq).
  assert (clients_freqs s3) as Hfr.
  { destruct (t19_freqs s Hs) as [L F]. split; rewrite E3; [by rewrite length_alter|].
    apply Forall_alter; [done|]. intros x _ (? & ? & ?). split; [done|]. by split. }
  eapply wp_mono; [apply (update_mc_clock_spec t19x t19x_memory t s3); [done|apply Hs|done]|].
  intros [] s4 [[Hk4 Hb4] Hlk4].
  destruct (clocked_lookup _ _ _ _ Hk4 (upd_client_at i realization19 s2 _ E2)) as (x & E4).
  unfold put_unlock. wp_simpl. eapply (wp_kref_put_2 t i _); [exact E4|done|]. wp_simpl.
  apply wp_unlock; [split; [exact (ck_locked _ _ Hk4)|exact (ck_task _ _ Hk4)]|]. wp_simpl.
  right. exists i, c. split; [done|]. split; [done|]. right. split; [done|]. split.
  - split; [|done]. assert (upd_client i realization19 s =
      set_iso_lock false None (upd_client i (set_kref 1) s3)) as ->.
    { unfold s3, s2. rewrite <- K, kref_roundtrip by done.
      transitivity (upd_client i realization19 (set_iso_lock false None (set_iso_lock true (Some t) s))); [by rewrite free_lock|done]. }
    by apply clocked_lock, clocked_upd.
  - intros Hl. destruct Hlk4 as [Hl4 Ha4].
    { apply in_step_upd, in_step_upd, in_step_lock; done. }
    split; [by apply in_step_lock, in_step_upd|by apply agreed_unref].
Qed.

Lemma realized19_after h r s s' : t19_ok s -> free s -> realized19 h r s s' -> after19 s s'.
Proof.
  intros Hs Hf [(_ & _ & ->)|(i & c & (-> & [Hi _] & E & _) & _ & Hr)]; [by apply after19_same|].
  destruct Hr as [(_ & _ & ->)|(_ & [Hk Hb] & Hl)]; [by apply after19_same|].
  pose proof (Forall_lookup_1 _ _ _ _ (t9_clients s Hs) E) as Hc.
  split; [|split].
  - destruct Hf, Hk. unfold free. rewrite ck_locked, ck_task. done.
  - eapply t19_framed; [by split|]. eapply (t19_shrink s _ i c realization19); [done|exact E|lia|done..| |].
    + destruct Hc as [? ? ? (? & ? & ?)]. split; [done|done|done|]. split; [done|]. by split.
    + unfold mf_of, realization19. cbn. lia.
  - intros. by apply Hl.
Qed.

(** ** Margins *)

Lemma margin19_ok t i bw w s : t19_ok s -> free s ->
  wp (__tegra_isomgr_set_margin t19x ops t i bw w) (fun _ s' => after19 s s') s.
Proof.
  intros Hs Hf. unfold __tegra_isomgr_set_margin. wp_simpl.
  apply wp_is_client_valid; [apply Hs| |by intros; apply after19_same]. intros Hv. cbn [negb]. wp_simpl.
  destruct (t19_client s i Hs (proj1 Hv)) as (c & E & Hc).
  apply wp_lock; [done|]. cbn [negb]. wp_simpl.
  eapply wp_inc_not_zero; [exact E|intros K0|intros K0]; cbn [negb]; wp_simpl.
  { apply wp_unlock; [done|]. wp_simpl. rewrite free_lock by done. by apply after19_same. }
  assert (kref c = 1) as K by (by destruct (c9_kref c Hc)). rewrite K. change (s32 (1 + 1)) with 2.
  set (s2 := upd_client i _ _).
  assert (isomgr_clients s2 !! Z.to_nat i = Some (set_kref 2 c)) as E2 by (by apply upd_client_at).
  eapply wp_cp; [exact E2|]. cbv beta. wp_simpl. destruct (margin_step bw (set_kref 2 c) s2) as [[ret mg] a].
  wp_simpl. eapply wp_upd; [exact E2|]. wp_simpl.
  eapply (wp_kref_put_2 t i (set_margin_bw mg (set_kref 2 c))); [by apply upd_client_at|done|]. wp_simpl.
  apply wp_unlock; [done|]. wp_simpl.
  replace (set_iso_lock false None (upd_client i (set_kref 1) (set_avail_bw a (upd_client i (set_margin_bw mg) s2))))
    with (set_avail_bw a (upd_client i (set_margin_bw mg) s)).
  2: { transitivity (set_avail_bw a (set_iso_lock false None (upd_client i (set_kref 1) (upd_client i (set_margin_bw mg) s2)))); [|done].
       unfold s2. rewrite <- K, kref_roundtrip by done.
       transitivity (set_avail_bw a (upd_client i (set_margin_bw mg) (set_iso_lock false None (set_iso_lock true (Some t) s)))); [|done].
       by rewrite free_lock. }
  split; [done|]. destruct Hv as [Hi _]. split.
  - eapply (t19_shrink s _ i c (set_margin_bw mg)); [done|exact E|lia|done..| |done]. destruct Hc. by split.
  - intros Hl. by refine (in_step_links _ _ _ (in_step_upd (set_margin_bw mg) i s ltac:(done) Hl)).
Qed.
End ops.
