(* ===== verification/IsomgrT19xRuns.v ===== *)
(** * Runs of the isochronous bandwidth manager of Tegra194

    The invariant of IsomgrT19x.v from start-up through sequences of calls by any tasks, and
    what a reservation and its realization do; on a Tegra194 with 16 channels. *)

From S2P Require Import Prelude Bwmgr BwmgrFacts Isomgr IsomgrPlat BwmgrT19x IsomgrFacts IsomgrHandles IsomgrPool IsomgrRuns IsomgrT19x.

Abbreviation t19x := bwmgr_ops_t19x.
Abbreviation ops := (isomgr_ops_t19x bwmgr_ops_t19x).

Section runs.
Context `{ClkOps}.

(** ** Sequences of calls *)

(** Bandwidths up to 34 GB/s. *)
Definition arg19_ok (k : iso_call) : Prop :=
  match k with
  | IRegister _ bw _ | IReserve _ bw _ => 0 <= bw <= bw_max
  | _ => True
  end.

Lemma exec_iso19_ok t k s : t19_ok s -> free s -> arg19_ok k ->
  wp (exec_iso t19x ops t k) (fun _ s' => after19 s s') s.
Proof.
  intros Hs Hf Ha.
  destruct k as [c bw rn|h|h bw lt|h|c bw w|c bw|]; cbn [exec_iso];
    unfold tegra_isomgr_register, tegra_isomgr_unregister, tegra_isomgr_reserve, tegra_isomgr_realize,
      tegra_isomgr_set_margin, tegra_isomgr_get_imp_time, tegra_isomgr_get_available_iso_bw; wp_simpl;
    try (destruct (test_mode s); wp_simpl; [by apply after19_same|]).
  - eapply wp_mono; [by apply register19_ok|]. intros r s' Hp. wp_simpl. exact Hp.
  - by apply unregister19_ok.
  - eapply wp_mono; [by apply reserve19_ok|]. intros r s' Hp. wp_simpl. exact (reserved19_after h bw lt r s s' Hs Hf Ha Hp).
  - eapply wp_mono; [by apply realize19_ok|]. intros r s' Hp. wp_simpl. exact (realized19_after h r s s' Hs Hf Hp).
  - eapply wp_mono; [by apply margin19_ok|]. intros r s' Hp. wp_simpl. exact Hp.
  - unfold __tegra_isomgr_get_imp_time. wp_simpl.
    apply wp_is_client_valid; [apply Hs| |]; intros _; wp_simpl; by apply after19_same.
  - by apply after19_same.
Qed.

Lemma exec_isos19_ok l s : t19_ok s -> free s -> Forall (fun tk => arg19_ok tk.2) l ->
  exists s', exec_isos t19x ops l s = Some (tt, s') /\ after19 s s'.
Proof.
  intros Hs Hf Hl. revert s Hs Hf. induction Hl as [|[t k] l Ha Hl IH]; intros s Hs Hf.
  { exists s. split; [done|]. by apply after19_same. }
  destruct (wp_total _ _ _ (exec_iso19_ok t k s Hs Hf Ha)) as ([] & s1 & E1 & Hf1 & Hs1 & Hl1).
  destruct (IH s1 Hs1 Hf1) as (s2 & E2 & ? & ? & ?). exists s2. split; [|split; [done|split; [done|auto]]].
  cbn [exec_isos]. munfold. by rewrite E1.
Qed.

(** ** Start-up *)

Lemma feasible_nothing d w : t19x_memory d -> (forall i, 0 <= i -> w i = 0) -> feasible d w.
Proof.
  intros Hd Hw. apply (feasible_mono d (fun _ => 0)); [done|intros i Hi; rewrite Hw by done; lia|].
  change (admissible d 0 0 0).
  destruct (get_best_iso_freq_spec d 0 0 0 Hd) as (r & E & Hr). exists r. split; [exact E|].
  destruct Hr as [(k & f & Ef & -> & _)|[-> Hn]]; [destruct (t194_freq k f Ef); lia|].
  destruct Hd as (_ & _ & ecc & n & Hw' & Ec). exfalso. revert Hn. unfold iso_row.
  destruct ecc, Hw' as [->|[->| ->]]; cbn in Ec; injection Ec as _ -> -> -> ->; intros Hn;
    specialize (Hn 0%nat _ eq_refl); discriminate Hn.
Qed.

Lemma started_t19 m s : started t19x_memory m s -> isoclient_info s = tegra19x_isoclients ->
  (forall i, 0 <= i -> client_valid s !! Z.to_nat i = Some true -> i ∈ map fst tegra19x_isoclients) -> t19_ok s.
Proof.
  intros [Hc Hl Hv _ _ _ _ _ Hb] Hi Hm. split; try done.
  - eapply Forall_impl; [|exact Hc]. intros c (Mg & K & Hd & ? & ? & Hr & Hr' & Hz & ? & ? & Hlim). split; [by left| |done|].
    + rewrite Mg. discriminate.
    + unfold freqs_ok, mf_max. rewrite Hr, Hr'. split; [lia|split; [lia|exact Hlim]].
  - apply feasible_nothing; [apply Hb|]. intros i Hi0. unfold want.
    destruct (isomgr_clients s !! Z.to_nat i) as [c|] eqn:E; [|done].
    destruct (Forall_lookup_1 _ _ _ _ Hc E) as (_ & _ & _ & _ & _ & Hr & Hr' & _). unfold mf_of. by rewrite Hr, Hr'.
Qed.

Definition valid19 : list bool :=
  fold_left (fun v ci => <[Z.to_nat ci.1 := true]> v) tegra19x_isoclients (replicate (Z.to_nat TEGRA_ISO_CLIENT_COUNT) false).

Lemma valid19_clients i : 0 <= i -> valid19 !! Z.to_nat i = Some true -> i ∈ map fst tegra19x_isoclients.
Proof.
  intros Hi E. pose proof (lookup_lt_Some _ _ _ E) as L. rewrite <- (Z2Nat.id i Hi). change (length valid19) with 11%nat in L.
  revert E L. generalize (Z.to_nat i). intros n.
  do 11 (destruct n as [|n]; [intros E _; vm_compute in E; first [discriminate E|apply list_elem_of_In; vm_compute; intuition congruence]|]). lia.
Qed.

Lemma isomgr_init19_ok t pool b : bwmgr_ok t19x_memory b -> idle b -> 0 <= pool < 2 ^ 31 ->
  wp (isomgr_init ops t) (fun _ s' => free s' /\ t19_ok s') (snd (chip_isomgr t19x TEGRA194 pool b)).
Proof.
  intros Hb Hi Hp. assert (t19x_memory (b_dram b)) as Hd by apply Hb. cbn [chip_isomgr snd t19x_get_iso_client_info].
  unfold isomgr_init. wp_simpl. set (s1 := set_client_valid _ _).
  apply (wp_bwm_register t19x_memory); [done|]. intros h b1 Hb1 Hi1 Ed _ Hh. wp_simpl.
  rewrite (Hh (proj1 Hd) ltac:(unfold TEGRA_BWMGR_CLIENT_ISOMGR, TEGRA_BWMGR_CLIENT_COUNT; lia)).
  rewrite bool_decide_eq_false_2 by done. wp_simpl. cbn [isomgr_plat_init isomgr_ops_t19x]. wp_simpl.
  set (s2 := set_iso_handle _ _).
  assert (started t19x_memory pool s2) as Hs2.
  { split; try done; cbn.
    - apply Forall_fmap, Forall_forall. by intros i _.
    - apply u32_small. lia.
    - apply s32_small. lia. }
  eapply wp_mono; [apply (register_clients_ok t19x_memory pool t _ s2 Hs2)|].
  - change (isoclient_info s2) with tegra19x_isoclients. change (isomgr_clients s2) with
      (isomgr_clients (isomgr_reset pool tegra19x_isoclients (fun _ => 100) true b)).
    cbn [isomgr_clients isomgr_reset]. unfold tegra19x_isoclients.
    repeat (constructor; [split; [done|intros c E; vm_compute in E; injection E as <-; reflexivity]|]). constructor.
  - cbv beta. intros _ s3 [Hs3 Ech]. split; [apply Hs3|].
    injection Ech as Ei Ev _. eapply started_t19; [exact Hs3|exact Ei|]. rewrite Ev. exact valid19_clients.
Qed.

(** C6. On Tegra194 isomgr_init returns, and whatever calls follow, by whatever tasks with
    whatever handles and bandwidths up to 34 GB/s: every call returns with the lock free, and
    one frequency of the memory admits together everything that is reserved or realized. *)
Theorem t19x_reserved_fit t pool b l : bwmgr_ok t19x_memory b -> idle b -> 0 <= pool < 2 ^ 31 ->
  Forall (fun tk => arg19_ok tk.2) l ->
  let '(ops, s) := chip_isomgr t19x TEGRA194 pool b in
  exists s1 s2, isomgr_init ops t s = Some (tt, s1) /\ exec_isos t19x ops l s1 = Some (tt, s2) /\ free s2 /\
    feasible (b_dram (iso_bwmgr s2)) (want (isomgr_clients s2)).
Proof.
  intros Hb Hi Hp Hl. pose proof (isomgr_init19_ok t pool b Hb Hi Hp) as W.
  destruct (wp_total _ _ _ W) as ([] & s1 & E1 & Hf1 & Hs1).
  destruct (exec_isos19_ok l s1 Hs1 Hf1 Hl) as (s2 & E2 & Hf2 & Hs2 & _).
  exists s1, s2. split; [exact E1|]. split; [exact E2|]. split; [done|]. apply (t9_fits s2 Hs2).
Qed.

Lemma registered_upd i c f s : registered (CLIENT i) i c s -> magic (f c) = magic c ->
  bwmgr_handle (f c) = bwmgr_handle c -> registered (CLIENT i) i (f c) (upd_client i f s).
Proof.
  intros (_ & (Hi & Hv & x & E' & Hh) & E & Mg) Hm Hb. rewrite E in E'. injection E' as <-. split; [done|].
  assert (isomgr_clients (upd_client i f s) !! Z.to_nat i = Some (f c)) as E1 by (by apply upd_client_at).
  split; [|split; [done|congruence]]. split; [done|]. split; [done|]. exists (f c). split; [done|congruence].
Qed.

(** C18. On Tegra194, outside the test mode, for bandwidths up to 34 GB/s (the frequency that a
    much larger one needs wraps around, see absurd_bandwidth_granted) whose latency is a number
    of 32 bits: a new reservation is granted exactly if the client may renegotiate or stays
    within its dedicated bandwidth, and one frequency admits it with what the others may use;
    one that is not granted changes nothing. One that is granted returns the latency of its
    frequency and can be realized, with the same result. If the realized bandwidth was another
    one, and the clock framework accepts every rate, then the memory clock's manager has the
    realized frequency of every client as its request, and the highest as the floor, when its
    requests were the noted ones before. *)
Theorem t19x_reserve_and_realize t t' i c ubw ult s : t19_ok s -> free s -> test_mode s = false ->
  registered (CLIENT i) i c s -> 0 <= ubw <= bw_max -> ~ (u32 (rsvd_bw c) = ubw /\ u32 (lti c) = ult) ->
  0 <= latency t19x ubw s < 2 ^ 32 ->
  exists r s1, tegra_isomgr_reserve t19x ops t (CLIENT i) ubw ult s = Some (r, s1) /\
    ((can_reserve19 ubw i c s /\ r = latency t19x ubw s /\
       exists s2 c2, tegra_isomgr_realize t19x ops t' (CLIENT i) s1 = Some (r, s2) /\
         isomgr_clients s2 !! Z.to_nat i = Some c2 /\ real_bw c2 = ubw /\
         (ubw <> real_bw c -> (forall r, clk_set_rate r = 0) -> linked s ->
           exists hf, iso_handle s2 = Some hf /\
             asked (iso_bwmgr s2) hf TEGRA_BWMGR_SET_EMC_FLOOR = Some (max_real_mf (isomgr_clients s2) * 1000) /\
             forall j cj hj, isomgr_clients s2 !! j = Some cj -> bwmgr_handle cj = Some hj ->
               asked (iso_bwmgr s2) hj TEGRA_BWMGR_SET_EMC_SHARED_BW_ISO = Some (real_mf cj * 1000))) \/
     ~ can_reserve19 ubw i c s /\ r = 0 /\ s1 = s).
Proof.
  intros Hs Hf Ht Hreg Hu Hnew Hlat.
  assert (wp (tegra_isomgr_reserve t19x ops t (CLIENT i) ubw ult) (fun r s' => reserved19 (CLIENT i) ubw ult r s s') s) as W.
  { unfold tegra_isomgr_reserve. wp_simpl. rewrite Ht. by apply reserve19_ok. }
  destruct (wp_total _ _ _ W) as (r & s1 & E & Hr). exists r, s1. split; [exact E|].
  pose proof (reserved19_after _ _ _ _ _ _ Hs Hf Hu Hr) as (Hf1 & Hs1 & Hl1).
  destruct Hr as [(Hno & _)|(j & c' & Hreg' & Hr)]; [by destruct (Hno i c)|].
  pose proof Hreg as (_ & Hv & El & _). destruct Hreg' as (Ej & _ & El' & _). injection Ej as <-.
  rewrite El in El'. injection El' as <-.
  destruct Hr as [(? & ? & _)|[(_ & Hc & Er & Es)|(_ & Hc & -> & ->)]]; [by destruct Hnew| |by right].
  rewrite <- Er in Hlat. left. split; [done|]. split; [done|].
  set (g := reservation ubw ult (min_freq t19x ubw s) r) in Es. rewrite Es in Hf1, Hs1, Hl1 |- *. clear Es E.
  pose proof (registered_upd i c g s Hreg eq_refl eq_refl) as Hreg1.
  assert (wp (tegra_isomgr_realize t19x ops t' (CLIENT i)) (fun r s' => realized19 (CLIENT i) r (upd_client i g s) s')
    (upd_client i g s)) as W1.
  { unfold tegra_isomgr_realize. wp_simpl. change (test_mode (upd_client i g s)) with (test_mode s). rewrite Ht.
    by apply realize19_ok. }
  destruct (wp_total _ _ _ W1) as (r2 & s2 & E2 & Hr).
  destruct Hr as [(Hno & _)|(k & x & (Ek & _ & Ex & _) & Er2 & Hr)]; [by destruct (Hno i (g c))|].
  injection Ek as <-. rewrite (proj1 (proj2 (proj2 Hreg1))) in Ex. injection Ex as <-.
  change (r2 = u32 (s32 r)) in Er2. rewrite u32_s32 in Er2 by done. subst r2.
  destruct Hr as [(Eb & _ & ->)|(_ & [Hk _] & Ha)].
  { eexists _, _. split; [exact E2|]. split; [exact (proj1 (proj2 (proj2 Hreg1)))|]. split; [done|].
    intros Hne. by destruct Hne. }
  destruct (clocked_lookup _ _ _ _ Hk (upd_client_at i realization19 _ _ (proj1 (proj2 (proj2 Hreg1))))) as (q & Eq).
  eexists s2, _. split; [exact E2|]. split; [exact Eq|]. split; [done|]. intros _ Hclk Hlk.
  destruct (Ha (Hl1 (conj Hclk Hlk))) as [[_ [_ (hf & Eh & _ & Af & _) Hcl]] [Em Hag]].
  exists hf. split; [done|]. rewrite Em in Af. split; [exact Af|].
  intros j cj hj Ecj Ehj. destruct (Hcl j cj hj Ecj Ehj) as (_ & -> & _). rewrite (Hag j cj Ecj); [done|congruence].
Qed.
End runs.

(** ** A Tegra194 with 16 channels *)

#[local] Existing Instance clk_khz.

Definition t19x_boot : bwmgr :=
  snd (bwmgr_init true true true (fun x => Z.min x 2133000000) None t194_dram).

Lemma t19x_boot_inv : bw_inv t19x t19x_memory t19x_boot.
Proof. apply bwmgr_init_inv; [exact t194_dram_memory|done|cbn; lia]. Qed.

(** The calls of a display and of the camera; the second reservation of the display is more
    than the memory admits next to the camera's. *)
Definition sample19 : list (Z * iso_call) :=
  [(1, IRegister TEGRA_ISO_CLIENT_TEGRA_CAMERA 1000000 true); (2, IRegister 0 3000000 true);
   (1, IReserve CAMERA 6000000 10); (2, IReserve (CLIENT 0) 5000000 10); (2, IRealize (CLIENT 0));
   (2, IReserve (CLIENT 0) 30000000 10); (1, IRealize CAMERA); (1, IUnregister CAMERA)].

Lemma sample19_ok : Forall (fun tk : Z * iso_call => arg19_ok tk.2) sample19.
Proof. unfold sample19, bw_max. repeat constructor; cbn; unfold bw_max; lia. Qed.

Lemma t19x_reserved_fit_witness :
  let '(ops, s) := chip_isomgr t19x TEGRA194 0 t19x_boot in
  exists s1 s2, isomgr_init ops 1 s = Some (tt, s1) /\ exec_isos t19x ops sample19 s1 = Some (tt, s2) /\ free s2 /\
    feasible (b_dram (iso_bwmgr s2)) (want (isomgr_clients s2)).
Proof.
  apply (t19x_reserved_fit 1 0 t19x_boot sample19).
  - apply t19x_boot_inv.
  - apply t19x_boot_inv.
  - lia.
  - exact sample19_ok.
Defined.

Definition t19x_isomgr : isomgr :=
  match isomgr_init ops 1 (snd (chip_isomgr t19x TEGRA194 0 t19x_boot)) with
  | Some (_, s) => s
  | None => snd (chip_isomgr t19x TEGRA194 0 t19x_boot)
  end.
Definition run19 (l : list (Z * iso_call)) : isomgr :=
  match exec_isos t19x ops l t19x_isomgr with Some (_, s) => s | None => t19x_isomgr end.

Lemma t19x_isomgr_ok : free t19x_isomgr /\ t19_ok t19x_isomgr /\ in_step t19x_isomgr.
Proof.
  pose proof (isomgr_init19_ok 1 0 t19x_boot (proj1 t19x_boot_inv) (proj1 (proj2 t19x_boot_inv)) ltac:(lia)) as W.
  destruct (wp_total _ _ _ W) as ([] & s & E & Hf & Hs).
  assert (t19x_isomgr = s) as <- by (unfold t19x_isomgr; by rewrite E).
  split; [exact Hf|]. split; [exact Hs|]. clear. split; [reflexivity|]. apply linked_fresh; vm_compute; repeat split.
Qed.

Lemma run19_ok l : Forall (fun tk => arg19_ok tk.2) l -> free (run19 l) /\ t19_ok (run19 l) /\ in_step (run19 l).
Proof.
  intros Hl. destruct t19x_isomgr_ok as (Hf & Hs & Hlk). unfold run19.
  destruct (exec_isos19_ok l _ Hs Hf Hl) as (s & -> & ? & ? & Ha). auto.
Qed.

Example sample19_demands :
  map (fun n => map mf_of (isomgr_clients (run19 (take n sample19)))) [6; 8]%nat =
    [[78125; 0; 0; 0; 0; 0; 0; 0; 93750; 0; 0]; [78125; 0; 0; 0; 0; 0; 0; 0; 0; 0; 0]].
Proof. vm_compute. reflexivity. Qed.

(** The display as registered. *)
Definition display0 : isomgr_client :=
  IsoClient ISOMGR_MAGIC 1 3000000 0 0 0 0 0 0 0 true false 0 0 100 (Some TEGRA_BWMGR_CLIENT_DISP0).

Lemma t19x_reserve_and_realize_witness :
  exists s1 s2 c2 hf, tegra_isomgr_reserve t19x ops 2 (CLIENT 0) 5000000 10 (run19 (take 3 sample19)) = Some (80, s1) /\
    tegra_isomgr_realize t19x ops 1 (CLIENT 0) s1 = Some (80, s2) /\
    isomgr_clients s2 !! 0%nat = Some c2 /\ real_bw c2 = 5000000 /\ iso_handle s2 = Some hf /\
    asked (iso_bwmgr s2) hf TEGRA_BWMGR_SET_EMC_FLOOR = Some (max_real_mf (isomgr_clients s2) * 1000).
Proof.
  destruct (run19_ok (take 3 sample19)) as (Hf & Hs & Hlk); [apply Forall_take, sample19_ok|].
  destruct (t19x_reserve_and_realize 2 1 0 display0 5000000 10 (run19 (take 3 sample19))) as (r & s1 & E & Hr);
    [exact Hs|exact Hf|vm_compute; reflexivity|..].
  - split; [reflexivity|]. assert (isomgr_clients (run19 (take 3 sample19)) !! Z.to_nat 0 = Some display0) as E0
      by (vm_compute; reflexivity).
    split; [|split; [exact E0|reflexivity]]. split; [unfold TEGRA_ISO_CLIENT_COUNT; lia|].
    split; [vm_compute; reflexivity|]. exists display0. split; [exact E0|discriminate].
  - unfold bw_max. lia.
  - intros [X _]. discriminate X.
  - vm_compute. split; [discriminate|reflexivity].
  - assert (option_map fst (tegra_isomgr_reserve t19x ops 2 (CLIENT 0) 5000000 10 (run19 (take 3 sample19))) = Some 80)
      as E80 by (vm_compute; reflexivity).
    rewrite E in E80. cbn in E80. injection E80 as ->.
    destruct Hr as [(_ & _ & s2 & c2 & E2 & Ec & Eb & Hc)|(_ & X & _)]; [|discriminate X].
    destruct (Hc ltac:(discriminate) (proj1 Hlk) (proj2 Hlk)) as (hf & Eh & Ea & _).
    exists s1, s2, c2, hf. repeat (split; [assumption|]). exact Ea.
Defined.

(** A bandwidth beyond all memories is granted: its frequency times 1000 wraps around an
    unsigned int. *)
Example absurd_bandwidth_granted :
  option_map fst (tegra_isomgr_reserve t19x ops 1 CAMERA 274878000 10 (run19 (take 2 sample19))) = Some 80 /\
  option_map fst (tegra_isomgr_reserve t19x ops 1 CAMERA 30000000 10 (run19 (take 2 sample19))) = Some 0.
Proof. split; vm_compute; reflexivity. Qed.
