(* ===== verification/Syncpt.v ===== *)
(** * Sync points of host1x (drivers/video/tegra/host/nvhost_syncpt.c, host1x/host1x_syncpt.c)

    A sync point is a 32-bit counter of the hardware with a copy of its last known value and
    of the value it will reach. The arrays of struct nvhost_syncpt are one list of records
    here, with the counter registers; thresholds are compared modulo 2^32. One host1x, not a
    virtual one; the semaphores that back sync points on Tegra194 are left out. *)

From stdpp Require Import strings.
From S2P Require Import Prelude.

(** ** Data *)

(** An entry of the arrays of struct nvhost_syncpt; [reg] is its counter register. *)
Record syncpt := Syncpt {
  assigned : bool; in_use : bool; client_managed : bool;
  min_val : Z; max_val : Z; sp_ref : Z;
  syncpt_name : option string; last_used_by : option string;
  reg : Z }.
Definition set_assigned (x : bool) (p : syncpt) : syncpt :=
  Syncpt x (in_use p) (client_managed p) (min_val p) (max_val p) (sp_ref p) (syncpt_name p) (last_used_by p) (reg p).
Definition set_in_use (x : bool) (p : syncpt) : syncpt :=
  Syncpt (assigned p) x (client_managed p) (min_val p) (max_val p) (sp_ref p) (syncpt_name p) (last_used_by p) (reg p).
Definition set_client_managed (x : bool) (p : syncpt) : syncpt :=
  Syncpt (assigned p) (in_use p) x (min_val p) (max_val p) (sp_ref p) (syncpt_name p) (last_used_by p) (reg p).
Definition set_min (x : Z) (p : syncpt) : syncpt :=
  Syncpt (assigned p) (in_use p) (client_managed p) x (max_val p) (sp_ref p) (syncpt_name p) (last_used_by p) (reg p).
Definition set_max (x : Z) (p : syncpt) : syncpt :=
  Syncpt (assigned p) (in_use p) (client_managed p) (min_val p) x (sp_ref p) (syncpt_name p) (last_used_by p) (reg p).
Definition set_sp_ref (x : Z) (p : syncpt) : syncpt :=
  Syncpt (assigned p) (in_use p) (client_managed p) (min_val p) (max_val p) x (syncpt_name p) (last_used_by p) (reg p).
Definition set_syncpt_name (x : option string) (p : syncpt) : syncpt :=
  Syncpt (assigned p) (in_use p) (client_managed p) (min_val p) (max_val p) (sp_ref p) x (last_used_by p) (reg p).
Definition set_last_used_by (x : option string) (p : syncpt) : syncpt :=
  Syncpt (assigned p) (in_use p) (client_managed p) (min_val p) (max_val p) (sp_ref p) (syncpt_name p) x (reg p).
Definition set_reg (x : Z) (p : syncpt) : syncpt :=
  Syncpt (assigned p) (in_use p) (client_managed p) (min_val p) (max_val p) (sp_ref p) (syncpt_name p) (last_used_by p) x.

(** Of struct host1x_device_info; [can_mark]: the chip has the operations mark_used and
    mark_unused. *)
Record host1x_info := HostInfo {
  nb_hw_pts : Z; nb_pts : Z; pts_base : Z; pts_limit : Z; nb_mlocks : Z; can_mark : bool }.

(** [busy] counts the references that keep the host powered, [busy_err] is what the next
    nvhost_module_busy returns; [mlocks] are the hardware's locks. *)
Record nvhost_master := Master {
  info : host1x_info; pts : list syncpt; syncpt_mutex : bool; lock_counts : list Z; mlocks : list bool;
  busy : Z; busy_err : Z }.
Definition set_pts (x : list syncpt) (m : nvhost_master) : nvhost_master :=
  Master (info m) x (syncpt_mutex m) (lock_counts m) (mlocks m) (busy m) (busy_err m).
Definition set_mutex (x : bool) (m : nvhost_master) : nvhost_master :=
  Master (info m) (pts m) x (lock_counts m) (mlocks m) (busy m) (busy_err m).
Definition set_locks (c : list Z) (x : list bool) (m : nvhost_master) : nvhost_master :=
  Master (info m) (pts m) (syncpt_mutex m) c x (busy m) (busy_err m).
Definition set_busy (x : Z) (m : nvhost_master) : nvhost_master :=
  Master (info m) (pts m) (syncpt_mutex m) (lock_counts m) (mlocks m) x (busy_err m).
Definition set_info (x : host1x_info) (m : nvhost_master) : nvhost_master :=
  Master x (pts m) (syncpt_mutex m) (lock_counts m) (mlocks m) (busy m) (busy_err m).

Definition NVSYNCPT_INVALID : Z := 4294967295.
Definition NVSYNCPT_AVP_0 : Z := 10.
Definition NVSYNCPT_VBLANK0 : Z := 26.
Definition NVSYNCPT_VBLANK1 : Z := 27.

(** ** One sync point *)

Definition nvhost_syncpt_read_min (p : syncpt) : Z := min_val p.
Definition nvhost_syncpt_read_max (p : syncpt) : Z := max_val p.
Definition nvhost_syncpt_min_eq_max (p : syncpt) : bool := min_val p =? max_val p.
Definition nvhost_syncpt_incr_max (incrs : Z) : M syncpt Z :=
  modify (fun p => set_max (u32 (max_val p + incrs)) p);; p ← get; mret (max_val p).
Definition nvhost_syncpt_set_max (v : Z) : M syncpt Z := modify (set_max v);; mret v.

(** The exchange succeeds when nothing runs in between; interleavings are in SyncptFacts.v. *)
Definition t20_syncpt_update_min : M syncpt Z :=
  modify (fun p => set_min (reg p) p);; p ← get; mret (reg p).
Definition t20_syncpt_reset : M syncpt unit := modify (fun p => set_reg (min_val p) p).
Definition t20_syncpt_cpu_incr : M syncpt unit :=
  p ← get;
  if negb (client_managed p) && nvhost_syncpt_min_eq_max p then mret tt
  else modify (set_reg (u32 (reg p + 1))).
Definition nvhost_syncpt_set_min_eq_max : M syncpt unit :=
  modify (fun p => set_min (max_val p) p);; t20_syncpt_reset.

(** ** Comparing thresholds *)

Definition _nvhost_syncpt_is_expired (current_val future_val : Z) (has_future_val : bool) (thresh : Z) : bool :=
  if has_future_val then u32 (current_val - thresh) <=? u32 (future_val - thresh)
  else 0 <=? s32 (current_val - thresh).

Definition _nvhost_syncpt_compare_ref (ref a b : Z) : Z :=
  let a_n := u32 (a - ref) in
  let b_n := u32 (b - ref) in
  if a_n <? b_n then -1 else if b_n <? a_n then 1 else 0.

Definition _nvhost_syncpt_compare (current_val future_val : Z) (has_future_val : bool) (a b : Z) : Z :=
  if a =? b then 0
  else
    let a_expired := _nvhost_syncpt_is_expired current_val future_val has_future_val a in
    let b_expired := _nvhost_syncpt_is_expired current_val future_val has_future_val b in
    if a_expired && negb b_expired then -1
    else if negb a_expired && b_expired then 1
    else _nvhost_syncpt_compare_ref current_val a b.

Definition nvhost_syncpt_is_expired (p : syncpt) (thresh : Z) : bool :=
  _nvhost_syncpt_is_expired (min_val p) (max_val p) (negb (client_managed p)) thresh.
Definition nvhost_syncpt_compare (p : syncpt) (a b : Z) : Z :=
  _nvhost_syncpt_compare (min_val p) (max_val p) (negb (client_managed p)) a b.

Definition syncpt_update_min_is_expired (thresh : Z) : M syncpt bool :=
  t20_syncpt_update_min;; p ← get; mret (nvhost_syncpt_is_expired p thresh).

Definition nvhost_syncpt_set_min_cached (v : Z) : M syncpt Z :=
  p ← get;
  if nvhost_syncpt_is_expired p v then t20_syncpt_update_min
  else modify (set_min v);; mret v.

(** Some client has incremented it too often: back to the maximum. *)
Definition t20_intr_handle_extra_increments : M syncpt unit :=
  p ← get;
  if client_managed p then mret tt
  else
    min ← t20_syncpt_update_min;
    if 0 <? s32 (min - max_val p) then nvhost_syncpt_set_min_eq_max else mret tt.

(** ** The host *)

(** An operation on the sync point [id]; there is memory for [nb_hw_pts] of them. *)
Definition at_pt {A} (id : Z) (k : M syncpt A) : M nvhost_master A := fun m =>
  match pts m !! Z.to_nat id with
  | Some p =>
      match k p with
      | Some (x, p') => Some (x, set_pts (<[Z.to_nat id := p']> (pts m)) m)
      | None => None
      end
  | None => None
  end.
Definition pt (id : Z) : M nvhost_master syncpt := at_pt id get.

Definition nvhost_module_busy : M nvhost_master Z :=
  m ← get;
  if busy_err m =? 0 then modify (set_busy (busy m + 1));; mret 0 else mret (busy_err m).
Definition nvhost_module_idle_mult (refs : Z) : M nvhost_master unit :=
  modify (fun m => set_busy (busy m - refs) m).
Definition nvhost_module_idle : M nvhost_master unit := nvhost_module_idle_mult 1.

Definition nvhost_syncpt_is_valid_hw_pt (m : nvhost_master) (id : Z) : bool :=
  (0 <=? id) && (id <? nb_hw_pts (info m)) && negb (id =? NVSYNCPT_INVALID).
Definition nvhost_syncpt_is_valid_pt (m : nvhost_master) (id : Z) : bool :=
  (pts_base (info m) <=? id) && (id <? pts_limit (info m)) && negb (id =? NVSYNCPT_INVALID).
Definition NVHOST_FREE_SYNCPT_BASE (m : nvhost_master) : Z := pts_base (info m) + 1.

Definition nvhost_syncpt_update_min (id : Z) : M nvhost_master Z := at_pt id t20_syncpt_update_min.

(** The identifiers from [i]. *)
Fixpoint each_pt (i : Z) (n : nat) (k : Z -> M nvhost_master unit) : M nvhost_master unit :=
  match n with
  | O => mret tt
  | S n => k i;; each_pt (i + 1) n k
  end.
Definition all_pts (k : Z -> M nvhost_master unit) : M nvhost_master unit :=
  m ← get;
  each_pt (pts_base (info m)) (Z.to_nat (pts_limit (info m) - pts_base (info m))) k.

Definition nvhost_syncpt_reset : M nvhost_master unit := all_pts (fun i => at_pt i t20_syncpt_reset).
Definition nvhost_syncpt_save : M nvhost_master unit :=
  all_pts (fun i =>
    p ← pt i;
    if client_managed p then nvhost_syncpt_update_min i;; mret tt else mret tt).
(** The sync point of the host itself. *)
Definition nvhost_syncpt_patch_check : M nvhost_master unit :=
  m ← get; at_pt (pts_base (info m)) (modify (set_min 0);; t20_syncpt_reset).

(** The error, or the value stored in *val. *)
Definition nvhost_syncpt_read_check (id : Z) : M nvhost_master (Z * option Z) :=
  err ← nvhost_module_busy;
  if negb (err =? 0) then mret (- EINVAL, None)
  else v ← nvhost_syncpt_update_min id; nvhost_module_idle;; mret (0, Some v).
Definition nvhost_syncpt_read (id : Z) : M nvhost_master Z :=
  err ← nvhost_module_busy;
  if negb (err =? 0) then mret 4294967295
  else v ← nvhost_syncpt_update_min id; nvhost_module_idle;; mret v.

Definition nvhost_syncpt_incr (id : Z) : M nvhost_master Z :=
  err ← nvhost_module_busy;
  if negb (err =? 0) then mret err
  else
    p ← pt id;
    (if client_managed p then at_pt id (nvhost_syncpt_incr_max 1);; mret tt else mret tt);;
    at_pt id t20_syncpt_cpu_incr;;
    nvhost_module_idle;;
    mret 0.

(** Reading a free lock's register takes the lock. *)
Definition syncpt_mutex_try_lock (idx : Z) : M nvhost_master bool :=
  m ← get;
  l ← checked (mlocks m !! Z.to_nat idx);
  modify (set_locks (lock_counts m) (<[Z.to_nat idx := true]> (mlocks m)));;
  mret l.
Definition nvhost_mutex_try_lock (idx : Z) : M nvhost_master Z :=
  err ← nvhost_module_busy;
  if negb (err =? 0) then mret err
  else
    held ← syncpt_mutex_try_lock idx;
    if held : bool then nvhost_module_idle;; mret (- EBUSY)
    else
      m ← get;
      c ← checked (lock_counts m !! Z.to_nat idx);
      modify (set_locks (<[Z.to_nat idx := c + 1]> (lock_counts m)) (mlocks m));;
      mret 0.
Definition nvhost_mutex_unlock (idx : Z) : M nvhost_master unit :=
  m ← get;
  c ← checked (lock_counts m !! Z.to_nat idx);
  modify (set_locks (<[Z.to_nat idx := c - 1]> (lock_counts m)) (<[Z.to_nat idx := false]> (mlocks m)));;
  nvhost_module_idle.

(** A number stored through sysfs, [None] if there is none. *)
Definition nvhost_nb_syncpts_store (n : option Z) : M nvhost_master Z :=
  m ← get;
  match n with
  | Some n =>
      if 0 <? n then
        let i := info m in
        modify (set_info (HostInfo (nb_hw_pts i) n (pts_base i) (pts_base i + n) (nb_mlocks i) (can_mark i)));;
        mret 1
      else mret (- EIO)
  | None => mret (- EIO)
  end.

Definition nvhost_syncpt_set_manager (id : Z) (client : bool) : M nvhost_master unit :=
  at_pt id (modify (set_client_managed client)).
Definition nvhost_syncpt_set_minval (id v : Z) : M nvhost_master unit :=
  at_pt id (modify (set_min v);; t20_syncpt_reset).
Definition nvhost_syncpt_set_maxval (id v : Z) : M nvhost_master unit := at_pt id (modify (set_max v)).

(** ** Allocation *)

Definition mutex_lock : M nvhost_master unit :=
  m ← get; if syncpt_mutex m then BUG else modify (set_mutex true).
Definition mutex_unlock : M nvhost_master unit := modify (set_mutex false).

Fixpoint find_free (m : nvhost_master) (i : Z) (n : nat) : option Z :=
  match n with
  | O => Some 0
  | S n => p ← pts m !! Z.to_nat i; if assigned p then find_free m (i + 1) n else Some i
  end.
Definition nvhost_find_free_syncpt : M nvhost_master Z :=
  m ← get;
  checked (find_free m (NVHOST_FREE_SYNCPT_BASE m) (Z.to_nat (pts_limit (info m) - NVHOST_FREE_SYNCPT_BASE m))).

Definition nvhost_reserve_syncpt (id : Z) (client : bool) : M nvhost_master Z :=
  m ← get;
  if negb (nvhost_syncpt_is_valid_pt m id) then mret (- EINVAL)
  else
    p ← pt id;
    if assigned p then mret (- EINVAL)
    else at_pt id (modify (fun p => set_client_managed client (set_assigned true p)));; mret 0.

Definition nvhost_syncpt_assign_name (id : Z) (name : option string) : M nvhost_master Z :=
  m ← get;
  if id <? NVHOST_FREE_SYNCPT_BASE m then mret (- EINVAL)
  else
    p ← pt id;
    if negb (assigned p) then mret (- EINVAL)
    else at_pt id (modify (set_syncpt_name name));; mret 0.

Definition nvhost_syncpt_get_ref (id : Z) : M nvhost_master Z :=
  at_pt id (modify (fun p => set_sp_ref (s32 (sp_ref p + 1)) p));; p ← pt id; mret (sp_ref p).
Definition nvhost_syncpt_read_ref (id : Z) : M nvhost_master Z := p ← pt id; mret (sp_ref p).

Section wait.
(** nvhost_syncpt_wait_timeout, by which the last reference waits for the maximum. *)
Context (wait_max : Z -> M nvhost_master unit).

Definition nvhost_free_syncpt (id : Z) : M nvhost_master unit :=
  m ← get;
  if negb (nvhost_syncpt_is_valid_pt m id) then mret tt
  else
    p ← pt id;
    if negb (assigned p) then mret tt
    else
      (if negb (client_managed p) && negb (nvhost_syncpt_min_eq_max p) then wait_max id else mret tt);;
      mutex_lock;;
      at_pt id (
        modify (fun p => set_last_used_by (syncpt_name p) p);;
        nvhost_syncpt_set_min_eq_max;;
        modify (fun p => set_syncpt_name None (set_client_managed false (set_assigned false p))));;
      mutex_unlock.

Definition nvhost_syncpt_put_ref (id : Z) : M nvhost_master unit :=
  at_pt id (modify (fun p => set_sp_ref (s32 (sp_ref p - 1)) p));;
  p ← pt id;
  if sp_ref p =? 0 then nvhost_free_syncpt id else mret tt.

(** The search is repeated for a second; [others] is what happens each time the mutex is
    free. *)
Fixpoint find_retry (others : list (nvhost_master -> nvhost_master)) : M nvhost_master Z :=
  id ← nvhost_find_free_syncpt;
  if negb (id =? 0) then mret id
  else
    match others with
    | [] => mret 0
    | f :: others => mutex_unlock;; modify f;; mutex_lock;; find_retry others
    end.

Definition nvhost_get_syncpt (others : list (nvhost_master -> nvhost_master)) (client : bool) (name : option string)
    : M nvhost_master Z :=
  mutex_lock;;
  id ← find_retry others;
  if id =? 0 then mutex_unlock;; mret 0
  else
    err ← nvhost_reserve_syncpt id client;
    if negb (err =? 0) then mutex_unlock;; mret 0
    else
      err ← nvhost_syncpt_assign_name id name;
      if negb (err =? 0) then mutex_unlock;; mret 0
      else
        ret ← nvhost_syncpt_get_ref id;
        if negb (ret =? 1) then nvhost_syncpt_put_ref id;; mutex_unlock;; mret 0
        else mutex_unlock;; mret id.

Definition nvhost_get_syncpt_host_managed (others : list (nvhost_master -> nvhost_master)) (name : option string)
    : M nvhost_master Z := nvhost_get_syncpt others false name.
Definition nvhost_get_syncpt_client_managed (others : list (nvhost_master -> nvhost_master)) (name : option string)
    : M nvhost_master Z :=
  nvhost_get_syncpt others true (match name with None => Some "client_managed"%string | _ => name end).

(** The chip's operations always succeed. *)
Definition nvhost_syncpt_mark_used (id : Z) : M nvhost_master Z :=
  m ← get;
  if can_mark (info m) then
    p ← pt id;
    if in_use p then mret 0
    else at_pt id (modify (set_in_use true));; nvhost_syncpt_get_ref id;; mret 0
  else mret 0.
Definition nvhost_syncpt_mark_unused (id : Z) : M nvhost_master Z :=
  m ← get;
  if can_mark (info m) then
    p ← pt id;
    if in_use p then at_pt id (modify (set_in_use false));; nvhost_syncpt_put_ref id;; mret 0
    else mret 0
  else mret 0.
End wait.

Definition nvhost_channel_set_syncpoint_name (id : Z) (name : option string) : M nvhost_master Z :=
  mutex_lock;;
  ret ← nvhost_syncpt_assign_name id name;
  mutex_unlock;;
  mret ret.

(** ** Start-up *)

Definition reserve_fixed (id : Z) (name : string) : M nvhost_master unit :=
  at_pt id (modify (fun p => set_syncpt_name (Some name) (set_client_managed true (set_assigned true p))));;
  nvhost_syncpt_get_ref id;; mret tt.
Definition nvhost_reserve_syncpts : M nvhost_master unit :=
  mutex_lock;;
  reserve_fixed NVSYNCPT_VBLANK0 "vblank0";;
  reserve_fixed NVSYNCPT_VBLANK1 "vblank1";;
  reserve_fixed NVSYNCPT_AVP_0 "avp";;
  mutex_unlock.

(** With the counters as they are born; [err] is the first error of the allocations and of
    sysfs. *)
Definition nvhost_syncpt_init (err : Z) (regs : list Z) : M nvhost_master Z :=
  if negb (err =? 0) then modify (set_pts []);; mret err
  else
    modify (fun m =>
      set_pts (imap (fun i r => Syncpt false false (negb (nvhost_syncpt_is_valid_pt m (Z.of_nat i))) 0 0 0 None None r) regs) m);;
    nvhost_reserve_syncpts;;
    mret 0.
