(* ===== verification/SyncptFacts.v ===== *)
(** * What comparing and reading sync points means

    The counters of a sync point as integers that never wrap around: the comparisons modulo
    2^32 are those of the integers within a window, and loads of the counter by any number of
    tasks never set the known value back. *)

From stdpp Require Import strings relations.
From S2P Require Import Prelude Syncpt.

(** ** Comparing *)

Lemma u32_sub a b : 0 <= a - b < 2 ^ 32 -> u32 (u32 a - u32 b) = a - b.
Proof. unfold uw. change (2 ^ 32) with 4294967296. intros. dlia. Qed.
Lemma u32_sub_wrap a b : - 2 ^ 32 <= a - b < 0 -> u32 (u32 a - u32 b) = a - b + 2 ^ 32.
Proof. unfold uw. change (2 ^ 32) with 4294967296. intros. dlia. Qed.
Lemma s32_sub a b : - 2 ^ 31 <= a - b < 2 ^ 31 -> s32 (u32 a - u32 b) = a - b.
Proof.
  unfold uw, sw. change (2 ^ (32 - 1)) with 2147483648. change (2 ^ 32) with 4294967296. change (2 ^ 31) with 2147483648.
  intros. dlia.
Qed.

(** The thresholds that can be told apart when the counter is at [c] and will reach [f]. *)
Definition comparable (c f : Z) (tracked : bool) (t : Z) : Prop :=
  if tracked then f - 2 ^ 32 < t <= c + 2 ^ 32 else c - 2 ^ 31 < t <= c + 2 ^ 31.
(** Outstanding: not reached, and it will be. *)
Definition outstanding (c f : Z) (tracked : bool) (t : Z) : bool :=
  (c <? t) && (negb tracked || (t <=? f)).

Lemma is_expired_outstanding c f tracked t : 0 <= f - c < 2 ^ 32 -> comparable c f tracked t ->
  _nvhost_syncpt_is_expired (u32 c) (u32 f) tracked (u32 t) = negb (outstanding c f tracked t).
Proof.
  intros Hcf Ht. unfold _nvhost_syncpt_is_expired, outstanding, comparable in *. destruct tracked; cbn [negb orb].
  - destruct (Z.ltb_spec c t); cbn [andb negb].
    + rewrite (u32_sub_wrap c t) by lia. destruct (Z.leb_spec t f); cbn [negb].
      * rewrite (u32_sub f t) by lia. apply Z.leb_gt. lia.
      * rewrite (u32_sub_wrap f t) by lia. apply Z.leb_le. lia.
    + rewrite (u32_sub c t), (u32_sub f t) by lia. apply Z.leb_le. lia.
  - rewrite andb_true_r. destruct (Z.eq_dec (t - c) (2 ^ 31)).
    + destruct (Z.ltb_spec c t); [|lia]. cbn. apply Z.leb_gt. unfold uw, sw.
      change (2 ^ (32 - 1)) with 2147483648. change (2 ^ 32) with 4294967296. change (2 ^ 31) with 2147483648 in *. dlia.
    + rewrite s32_sub by lia. destruct (Z.ltb_spec c t); cbn; [apply Z.leb_gt|apply Z.leb_le]; lia.
Qed.

(** C29. With the true values of the counter, of the value it will reach and of the threshold,
    none of which wraps around: a threshold is reported as not expired exactly if the counter
    has not reached it and the outstanding increments will (any threshold ahead, for a sync
    point that its client manages). *)
Theorem syncpt_is_expired_exact p c f t : min_val p = u32 c -> max_val p = u32 f -> 0 <= f - c < 2 ^ 32 ->
  comparable c f (negb (client_managed p)) t ->
  nvhost_syncpt_is_expired p (u32 t) = negb (outstanding c f (negb (client_managed p)) t).
Proof. intros Hc Hf Hcf Ht. unfold nvhost_syncpt_is_expired. rewrite Hc, Hf. by apply is_expired_outstanding. Qed.

Definition sgn_cmp (a b : Z) : Z := match a ?= b with Lt => -1 | Eq => 0 | Gt => 1 end.

Lemma compare_ref_ahead c a b : 0 <= a - c < 2 ^ 32 -> 0 <= b - c < 2 ^ 32 ->
  _nvhost_syncpt_compare_ref (u32 c) (u32 a) (u32 b) = sgn_cmp a b.
Proof.
  intros Ha Hb. unfold _nvhost_syncpt_compare_ref, sgn_cmp. rewrite !u32_sub by lia.
  destruct (Z.ltb_spec (a - c) (b - c)), (Z.ltb_spec (b - c) (a - c)), (Z.compare_spec a b); lia || done.
Qed.
Lemma compare_ref_behind c a b : - 2 ^ 32 <= a - c < 0 -> - 2 ^ 32 <= b - c < 0 ->
  _nvhost_syncpt_compare_ref (u32 c) (u32 a) (u32 b) = sgn_cmp a b.
Proof.
  intros Ha Hb. unfold _nvhost_syncpt_compare_ref, sgn_cmp. rewrite !u32_sub_wrap by lia.
  destruct (Z.ltb_spec (a - c + 2 ^ 32) (b - c + 2 ^ 32)), (Z.ltb_spec (b - c + 2 ^ 32) (a - c + 2 ^ 32)),
    (Z.compare_spec a b); lia || done.
Qed.

Lemma u32_eqb_window a b : - 2 ^ 32 < a - b < 2 ^ 32 -> (u32 a =? u32 b) = (a =? b).
Proof.
  intros. apply eq_true_iff_eq. rewrite !Z.eqb_eq. split; [|congruence].
  unfold uw. change (2 ^ 32) with 4294967296 in *. intros. dlia.
Qed.

(** Two thresholds compare as their true values do, which increments will reach or have
    reached within half the range of a client's sync point; but one that is just reached is
    put before those reached earlier, which is excluded here. *)
Theorem syncpt_compare_exact p c f a b : min_val p = u32 c -> max_val p = u32 f -> 0 <= f - c < 2 ^ 32 ->
  (forall t, t = a \/ t = b -> comparable c f (negb (client_managed p)) t /\ (negb (client_managed p) = true -> t <= f)) ->
  (a = c -> c <= b) -> (b = c -> c <= a) ->
  nvhost_syncpt_compare p (u32 a) (u32 b) = sgn_cmp a b.
Proof.
  intros Hc Hf Hcf Ht Ha Hb. unfold nvhost_syncpt_compare, _nvhost_syncpt_compare. rewrite Hc, Hf.
  destruct (Ht a ltac:(by left)) as [Ka Fa], (Ht b ltac:(by right)) as [Kb Fb]. clear Ht.
  rewrite !is_expired_outstanding by done. set (tr := negb (client_managed p)) in *. clearbody tr. clear Hc Hf.
  assert (- 2 ^ 32 < a - b < 2 ^ 32 \/ False) as [Hab|[]].
  { left. unfold comparable in *. destruct tr; [specialize (Fa eq_refl); specialize (Fb eq_refl)|]; lia. }
  rewrite u32_eqb_window by done. destruct (Z.eqb_spec a b) as [->|Hne]; [unfold sgn_cmp; by rewrite Z.compare_refl|].
  assert (forall t, t = a \/ t = b -> outstanding c f tr t = (c <? t)) as Ho.
  { intros t Htt. unfold outstanding. destruct tr; cbn [negb orb]; [|by rewrite andb_true_r].
    assert (t <= f) as ?%Z.leb_le by (destruct Htt as [->| ->]; auto). by rewrite H, andb_true_r. }
  rewrite !Ho by auto. clear Ho. unfold comparable in *. change (2 ^ 31) with 2147483648 in *. change (2 ^ 32) with 4294967296 in *.
  destruct (Z.ltb_spec c a) as [Ha1|Ha1], (Z.ltb_spec c b) as [Hb1|Hb1]; cbn [negb andb].
  - apply compare_ref_ahead; change (2 ^ 32) with 4294967296; destruct tr; try specialize (Fa eq_refl); try specialize (Fb eq_refl); lia.
  - unfold sgn_cmp. destruct (Z.compare_spec a b); lia.
  - unfold sgn_cmp. destruct (Z.compare_spec a b); lia.
  - destruct (Z.eq_dec a c) as [->|], (Z.eq_dec b c) as [->|]; try lia.
    apply compare_ref_behind; change (2 ^ 32) with 4294967296; destruct tr; lia.
Qed.

Definition demo_sp (client : bool) : syncpt := Syncpt true false client 4294967290 (if client then 4294967290 else 5) 1 None None 4294967295.
Lemma syncpt_is_expired_exact_witness :
  nvhost_syncpt_is_expired (demo_sp false) (u32 4294967298) = false /\
  nvhost_syncpt_is_expired (demo_sp false) (u32 4294967302) = true.
Proof.
  split.
  - rewrite (syncpt_is_expired_exact (demo_sp false) 4294967290 4294967301); [reflexivity..|lia|cbn; lia].
  - rewrite (syncpt_is_expired_exact (demo_sp false) 4294967290 4294967301); [reflexivity..|lia|cbn; lia].
Defined.
Lemma syncpt_compare_exact_witness : nvhost_syncpt_compare (demo_sp true) (u32 4294967298) (u32 4294967295) = 1.
Proof.
  rewrite (syncpt_compare_exact (demo_sp true) 4294967290 4294967290); [reflexivity..|lia| |lia|lia].
  intros t [-> | ->]; (split; [cbn; lia|done]).
Defined.

(** The excluded case: at 7, the threshold 7 is said to trigger before 5. *)
Example compare_just_reached :
  _nvhost_syncpt_compare 7 9 true 7 5 = -1 /\ _nvhost_syncpt_compare 7 9 true 5 7 = 1.
Proof. done. Qed.

(** ** Loading the counter *)

(** A task in t20_syncpt_update_min: before the first read, with the value known before, with
    that and the live one. The numbers are the true values; the code has them modulo 2^32. *)
Inductive loader := Start | Old (o : Z) | Live (o l : Z).
Record load_world := LW { lw_min : Z; lw_count : Z; loaders : list loader }.
Definition load_window (c : Z) (a : loader) : bool :=
  match a with
  | Start => true
  | Old o | Live o _ => c - o <? 4294967296
  end.

(** The counter does not pass by a task that far while it loads. *)
Inductive load_step : load_world -> load_world -> Prop :=
  | load_incr v c l : forallb (load_window (c + 1)) l = true -> load_step (LW v c l) (LW v (c + 1) l)
  | load_enter v c l : load_step (LW v c l) (LW v c (Start :: l))
  | load_old v c l i : l !! i = Some Start -> load_window c (Old v) = true ->
      load_step (LW v c l) (LW v c (<[i := Old v]> l))
  | load_live v c l i o : l !! i = Some (Old o) -> load_step (LW v c l) (LW v c (<[i := Live o c]> l))
  | load_swap v c l i o n : l !! i = Some (Live o n) -> u32 v = u32 o -> load_step (LW v c l) (LW n c (delete i l))
  | load_retry v c l i o n : l !! i = Some (Live o n) -> u32 v <> u32 o ->
      load_step (LW v c l) (LW v c (<[i := Start]> l)).

Definition loader_ok (v c : Z) (a : loader) : Prop :=
  match a with
  | Start => True
  | Old o => o <= v /\ c - o < 2 ^ 32
  | Live o n => o <= v /\ o <= n <= c /\ c - o < 2 ^ 32
  end.
Definition load_ok (w : load_world) : Prop :=
  lw_min w <= lw_count w /\ Forall (loader_ok (lw_min w) (lw_count w)) (loaders w).

Lemma loader_ok_mono v v' c a : v <= v' -> loader_ok v c a -> loader_ok v' c a.
Proof. destruct a; cbn; lia. Qed.
Lemma loader_ok_count v c a : load_window (c + 1) a = true -> loader_ok v c a -> loader_ok v (c + 1) a.
Proof. change (2 ^ 32) with 4294967296. destruct a; cbn; change (2 ^ 32) with 4294967296; [done|..]; intros ?%Z.ltb_lt; lia. Qed.

Lemma load_step_ok w w' : load_step w w' -> load_ok w -> load_ok w' /\ lw_min w <= lw_min w'.
Proof.
  unfold load_ok. change (2 ^ 32) with 4294967296.
  destruct 1 as [v c l W|v c l|v c l i E W|v c l i o E|v c l i o n E U|v c l i o n E U]; cbn; intros [Hv Hl].
  - split; [split; [lia|]|lia]. rewrite forallb_forall in W. apply Forall_forall. intros a Ha.
    apply loader_ok_count; [by apply W|]. by eapply Forall_forall in Hl.
  - split; [split|]; [lia|by constructor|lia].
  - apply Z.ltb_lt in W. split; [split|]; [lia| |lia]. apply Forall_insert; [done|]. cbn. change (2 ^ 32) with 4294967296. lia.
  - pose proof (Forall_lookup_1 _ _ _ _ Hl E) as K. cbn in K. change (2 ^ 32) with 4294967296 in K.
    split; [split|]; [lia| |lia]. apply Forall_insert; [done|]. cbn. change (2 ^ 32) with 4294967296. lia.
  - pose proof (Forall_lookup_1 _ _ _ _ Hl E) as K. cbn in K.
    assert (v = o) as ->.
    { apply Z.eqb_eq. rewrite <- u32_eqb_window by lia. by apply Z.eqb_eq. }
    split; [split|]; [lia| |lia]. apply (Forall_delete _ _ i) in Hl. eapply Forall_impl; [|exact Hl].
    intros a. apply loader_ok_mono. lia.
  - split; [split|]; [lia| |lia]. by apply Forall_insert.
Qed.
Lemma load_steps_ok w w' : rtc load_step w w' -> load_ok w -> load_ok w' /\ lw_min w <= lw_min w'.
Proof.
  induction 1 as [w|w x y H _ IH]; intros Hw; [split; [done|lia]|].
  destruct (load_step_ok _ _ H Hw) as [Hx Hm]. destruct (IH Hx). split; [done|lia].
Qed.

(** C26. Any number of tasks that load the counter into the known value at once, each by an
    exchange that another's may overtake, never set it back, and never past the counter. *)
Theorem update_min_monotone v c w w' : v <= c -> rtc load_step (LW v c []) w -> rtc load_step w w' ->
  v <= lw_min w <= lw_min w' /\ lw_min w' <= lw_count w'.
Proof.
  intros Hv H1 H2.
  destruct (load_steps_ok _ _ H1) as [K1 M1]; [by split|].
  destruct (load_steps_ok _ _ H2 K1) as [[K2 _] M2]. cbn in M1. lia.
Qed.

(** Alone, the steps are t20_syncpt_update_min. *)
Lemma update_min_alone p v c : min_val p = u32 v -> reg p = u32 c -> c - v < 4294967296 ->
  (exists p', t20_syncpt_update_min p = Some (u32 c, p') /\ min_val p' = u32 c) /\
  rtc load_step (LW v c []) (LW c c []).
Proof.
  intros Hv Hc W. split; [rewrite <- Hc; by eexists|].
  eapply rtc_l; [apply load_enter|]. eapply rtc_l; [apply (load_old _ _ _ 0); [done|by apply Z.ltb_lt]|].
  eapply rtc_l; [by apply (load_live _ _ _ 0 v)|]. eapply rtc_l; [by apply (load_swap _ _ _ 0 v c)|]. apply rtc_refl.
Qed.
Lemma update_min_monotone_witness : 3 <= 5 <= 5 /\ 5 <= 5.
Proof.
  apply (update_min_monotone 3 5 (LW 5 5 []) (LW 5 5 [])); [lia| |apply rtc_refl].
  apply (update_min_alone (Syncpt true false false 3 9 1 None None 5) 3 5); [reflexivity..|lia].
Defined.
