(* ===== verification/SyncptAlloc.v ===== *)
(** * Sync points from hand to hand

    What a free sync point is, that a client is given one which nobody else has, and that it
    is free again after its last reference. *)

From stdpp Require Import strings relations.
From S2P Require Import Prelude Syncpt SyncptFacts.

(** ** Single sync points *)

Lemma wp_at_pt {A} id (k : M syncpt A) p (Q : A -> nvhost_master -> Prop) m : pts m !! Z.to_nat id = Some p ->
  wp k (fun x p' => Q x (set_pts (<[Z.to_nat id := p']> (pts m)) m)) p -> wp (at_pt id k) Q m.
Proof. unfold wp, at_pt. intros ->. by destruct (k p) as [[x p']|]. Qed.
Lemma wp_pt id p (Q : syncpt -> nvhost_master -> Prop) m : pts m !! Z.to_nat id = Some p -> Q p m -> wp (pt id) Q m.
Proof.
  intros Hp HQ. apply (wp_at_pt _ _ p); [done|]. rewrite wp_get, list_insert_id by done. by destruct m.
Qed.

(** Free: nobody has a reference, every threshold counts as reached, and the name and the
    manager are those of the start. *)
Definition sp_free (p : syncpt) : Prop :=
  assigned p = false /\ client_managed p = false /\ min_val p = max_val p /\ sp_ref p = 0 /\ syncpt_name p = None.
Definition alloc_ok (m : nvhost_master) : Prop :=
  0 <= pts_base (info m) /\ pts_base (info m) < pts_limit (info m) <= zlen (pts m) /\ pts_limit (info m) < NVSYNCPT_INVALID /\
  forall i p, pts_base (info m) < Z.of_nat i < pts_limit (info m) -> pts m !! i = Some p -> assigned p = false -> sp_free p.

Lemma sp_free_expired p t : sp_free p -> nvhost_syncpt_is_expired p t = true.
Proof.
  intros (_ & C & E & _). unfold nvhost_syncpt_is_expired, _nvhost_syncpt_is_expired. rewrite C, E. apply Z.leb_refl.
Qed.

(** ** The search *)

Lemma find_free_spec m i n : 0 <= i -> i + Z.of_nat n <= zlen (pts m) ->
  exists id, find_free m i n = Some id /\
    ((id = 0 /\ forall j p, i <= Z.of_nat j < i + Z.of_nat n -> pts m !! j = Some p -> assigned p = true) \/
     (i <= id < i + Z.of_nat n /\ exists p, pts m !! Z.to_nat id = Some p /\ assigned p = false)).
Proof.
  revert i. induction n as [|n IH]; intros i Hi Hn; cbn [find_free].
  { exists 0. split; [done|]. left. split; [done|]. lia. }
  destruct (lookup_lt_is_Some_2 (pts m) (Z.to_nat i)) as [p Hp]; [unfold zlen in Hn; lia|].
  rewrite Hp. cbn [mbind option_bind]. destruct (assigned p) eqn:Ha; [|exists i; split; [done|]; right; split; [lia|eauto]].
  destruct (IH (i + 1)) as (id & -> & H); [lia..|]. exists id. split; [done|].
  destruct H as [[-> H]|[H1 H2]]; [left|right; split; [lia|done]]. split; [done|]. intros j q Hj Hq.
  destruct (decide (Z.of_nat j = i)) as [<-|]; [rewrite Nat2Z.id in Hp; congruence|]. apply (H j q); [lia|done].
Qed.

Definition all_assigned (m : nvhost_master) : Prop :=
  forall i p, pts_base (info m) < Z.of_nat i < pts_limit (info m) -> pts m !! i = Some p -> assigned p = true.
Definition free_at (m : nvhost_master) (id : Z) (p : syncpt) : Prop :=
  pts_base (info m) < id < pts_limit (info m) /\ pts m !! Z.to_nat id = Some p /\ sp_free p.

Lemma wp_find_free (Q : Z -> nvhost_master -> Prop) m : alloc_ok m ->
  (all_assigned m -> Q 0 m) -> (forall id p, free_at m id p -> Q id m) -> wp nvhost_find_free_syncpt Q m.
Proof.
  intros (Hb & Hl & Hi & Hf) H0 H1. unfold nvhost_find_free_syncpt. wp_simpl.
  destruct (find_free_spec m (NVHOST_FREE_SYNCPT_BASE m) (Z.to_nat (pts_limit (info m) - NVHOST_FREE_SYNCPT_BASE m)))
    as (id & E & H).
  { unfold NVHOST_FREE_SYNCPT_BASE. lia. }
  { unfold NVHOST_FREE_SYNCPT_BASE. lia. }
  eapply wp_checked; [exact E|]. unfold NVHOST_FREE_SYNCPT_BASE in H. destruct H as [[-> H]|[Hr (p & Hp & Ha)]].
  - apply H0. intros i p Hp. apply H. lia.
  - apply (H1 id p). split; [lia|]. split; [done|]. apply (Hf (Z.to_nat id)); [lia|done..].
Qed.

(** ** Getting one *)

Definition sp_taken (client : bool) (name : option string) (p : syncpt) : syncpt :=
  Syncpt true (in_use p) client (min_val p) (max_val p) 1 name (last_used_by p) (reg p).

Lemma pts_set_pts x m : pts (set_pts x m) = x.
Proof. done. Qed.
Lemma set_pts_twice x y m : set_pts x (set_pts y m) = set_pts x m.
Proof. done. Qed.
Lemma lookup_set_pts i p q m : pts m !! i = Some p -> pts (set_pts (<[i := q]> (pts m)) m) !! i = Some q.
Proof. intros H. cbn. apply list_lookup_insert_eq. by eapply lookup_lt_Some. Qed.

Lemma alloc_ok_mutex b m : alloc_ok m -> alloc_ok (set_mutex b m).
Proof. done. Qed.
Lemma alloc_ok_assigned id q m : alloc_ok m -> assigned q = true \/ sp_free q ->
  alloc_ok (set_pts (<[id := q]> (pts m)) m).
Proof.
  intros (Hb & Hl & Hi & Hf) Hq. split; [done|]. split; [unfold zlen in *; cbn; by rewrite length_insert|]. split; [done|].
  cbn. intros i p Hr Hp Ha. apply list_lookup_insert_Some in Hp as [(-> & -> & _)|[_ Hp]].
  - destruct Hq; [congruence|done].
  - by eapply Hf.
Qed.

Section get.
Variable wait_max : Z -> M nvhost_master unit.

(** The rest of nvhost_get_syncpt, for a sync point that is free. *)
Lemma wp_take client name id p (Q : Z -> nvhost_master -> Prop) m : alloc_ok m -> free_at m id p ->
  Q id (set_mutex false (set_pts (<[Z.to_nat id := sp_taken client name p]> (pts m)) m)) ->
  wp (err ← nvhost_reserve_syncpt id client;
      if negb (err =? 0) then mutex_unlock;; mret 0
      else
        err ← nvhost_syncpt_assign_name id name;
        if negb (err =? 0) then mutex_unlock;; mret 0
        else
          ret ← nvhost_syncpt_get_ref id;
          if negb (ret =? 1) then nvhost_syncpt_put_ref wait_max id;; mutex_unlock;; mret 0
          else mutex_unlock;; mret id) Q m.
Proof.
  intros (Hb & Hl & Hi & _) (Hid & Hp & Ha & Hc & Hmm & Hr & Hn) HQ.
  wp_simpl. unfold nvhost_reserve_syncpt. wp_simpl. unfold nvhost_syncpt_is_valid_pt.
  assert ((pts_base (info m) <=? id) && (id <? pts_limit (info m)) && negb (id =? NVSYNCPT_INVALID) = true) as ->
    by (repeat case_z; lia || done).
  cbn [negb]. wp_simpl. apply (wp_pt _ p); [done|]. rewrite Ha. wp_simpl.
  apply (wp_at_pt _ _ p); [done|]. wp_simpl. cbn [Z.eqb negb]. wp_simpl.
  unfold nvhost_syncpt_assign_name. wp_simpl. unfold NVHOST_FREE_SYNCPT_BASE. cbn [info set_pts].
  destruct (Z.ltb_spec id (pts_base (info m) + 1)); [lia|]. wp_simpl.
  eapply wp_pt; [by eapply lookup_set_pts|]. cbn [assigned set_client_managed set_assigned negb]. wp_simpl.
  eapply wp_at_pt; [by eapply lookup_set_pts|]. wp_simpl. cbn [Z.eqb negb]. wp_simpl.
  unfold nvhost_syncpt_get_ref. wp_simpl.
  rewrite !pts_set_pts, !set_pts_twice, !list_insert_insert_eq.
  eapply wp_at_pt; [by eapply lookup_set_pts|]. wp_simpl. rewrite !pts_set_pts, !set_pts_twice, !list_insert_insert_eq.
  eapply wp_pt; [by eapply lookup_set_pts|]. destruct p; cbn in *; subst. exact HQ.
Qed.

(** What others do while the mutex is free. *)
Definition others_ok (f : nvhost_master -> nvhost_master) : Prop :=
  forall m, alloc_ok m -> syncpt_mutex m = false -> alloc_ok (f m) /\ syncpt_mutex (f m) = false.

Lemma set_mutex_id m : syncpt_mutex m = false -> set_mutex false (set_mutex true m) = m.
Proof. destruct m; cbn. by intros ->. Qed.

Lemma wp_find_retry others (Q : Z -> nvhost_master -> Prop) m : alloc_ok m -> syncpt_mutex m = false ->
  Forall others_ok others ->
  (forall k m', m' = foldl (fun m f => f m) m (take k others) -> alloc_ok m' -> syncpt_mutex m' = false ->
     (all_assigned m' -> Q 0 (set_mutex true m')) /\ (forall id p, free_at m' id p -> Q id (set_mutex true m'))) ->
  wp (find_retry others) Q (set_mutex true m).
Proof.
  revert m. induction others as [|f others IH]; intros m Hm Hx Ho HQ; cbn [find_retry]; wp_simpl.
  - destruct (HQ 0%nat m) as [H0 H1]; [done..|]. apply wp_find_free; [done| |].
    + intros Ha. cbn. apply H0, Ha.
    + intros id p Hp. destruct (Z.eqb_spec id 0) as [->|]; cbn [negb]; wp_simpl; by apply (H1 _ p).
  - inversion_clear Ho as [|? ? Hf Ho']. destruct (Hf m Hm Hx) as [Hfm Hfx].
    assert (wp (mutex_unlock;; modify f;; mutex_lock;; find_retry others) Q (set_mutex true m)) as Hretry.
    { wp_simpl. unfold mutex_unlock, mutex_lock. wp_simpl. rewrite set_mutex_id, Hfx by done. wp_simpl.
      apply IH; [done..|]. intros k m' ->. apply (HQ (S k)). done. }
    apply wp_find_free; [done| |].
    + intros _. exact Hretry.
    + intros id p Hp. destruct (Z.eqb_spec id 0) as [->|]; cbn [negb]; [exact Hretry|]. wp_simpl.
      destruct (HQ 0%nat m) as [_ H1]; [done..|]. by apply (H1 _ p).
Qed.

Lemma wp_get_syncpt others client name (Q : Z -> nvhost_master -> Prop) m : alloc_ok m -> syncpt_mutex m = false ->
  Forall others_ok others ->
  (forall k m', m' = foldl (fun m f => f m) m (take k others) -> alloc_ok m' -> syncpt_mutex m' = false ->
     (all_assigned m' -> Q 0 m') /\
     (forall id p, free_at m' id p -> Q id (set_pts (<[Z.to_nat id := sp_taken client name p]> (pts m')) m'))) ->
  wp (nvhost_get_syncpt wait_max others client name) Q m.
Proof.
  intros Hm Hx Ho HQ. unfold nvhost_get_syncpt. wp_simpl. unfold mutex_lock. wp_simpl. rewrite Hx. wp_simpl.
  apply wp_find_retry; [done..|]. intros k m' E Hm' Hx'. destruct (HQ k m') as [H0 H1]; [done..|]. split.
  - intros Ha. cbn. unfold mutex_unlock. wp_simpl. rewrite set_mutex_id by done. auto.
  - intros id p Hp. destruct (Z.eqb_spec id 0) as [->|].
    { destruct Hp as [? _]. destruct Hm'. lia. }
    apply (wp_take _ _ _ p); [by apply alloc_ok_mutex|done|]. destruct m'; cbn in *. subst. by apply (H1 _ p).
Qed.

(** C27. A new sync point was free when it was found, and no other sync point changes; 0 is
    returned exactly if none was free at the last look. Whatever others do each time the
    mutex is released, what they keep is kept: a free sync point has no reference, no name
    and no outstanding increment. *)
Theorem get_syncpt_exclusive others client name m : alloc_ok m -> syncpt_mutex m = false -> Forall others_ok others ->
  exists id m' k, nvhost_get_syncpt wait_max others client name m = Some (id, m') /\
    let m0 := foldl (fun m f => f m) m (take k others) in
    alloc_ok m' /\ syncpt_mutex m' = false /\
    ((id = 0 /\ m' = m0 /\ all_assigned m0) \/
     exists p, free_at m0 id p /\ m' = set_pts (<[Z.to_nat id := sp_taken client name p]> (pts m0)) m0).
Proof.
  intros Hm Hx Ho.
  assert (wp (nvhost_get_syncpt wait_max others client name) (fun id m' => exists k,
    let m0 := foldl (fun m f => f m) m (take k others) in
    alloc_ok m' /\ syncpt_mutex m' = false /\
    ((id = 0 /\ m' = m0 /\ all_assigned m0) \/
     exists p, free_at m0 id p /\ m' = set_pts (<[Z.to_nat id := sp_taken client name p]> (pts m0)) m0)) m)
    as (id & m' & E & k & H)%wp_total; [|by exists id, m', k].
  apply wp_get_syncpt; [done..|].
  intros k m' -> Hm' Hx'. split.
  - intros Ha. exists k. cbn. split; [done|]. split; [done|]. by left.
  - intros id p Hp. exists k. cbn. split; [apply alloc_ok_assigned; [done|by left]|]. split; [done|]. right. by exists p.
Qed.

(** ** The last reference *)

(** The wait for the outstanding increments changes nothing but the counter. *)
Definition waits : Prop := forall id p m, pts m !! Z.to_nat id = Some p -> syncpt_mutex m = false ->
  wp (wait_max id) (fun _ m' => exists v r, m' = set_pts (<[Z.to_nat id := set_reg r (set_min v p)]> (pts m)) m) m.

Definition sp_freed (p : syncpt) : syncpt :=
  Syncpt false (in_use p) false (max_val p) (max_val p) 0 None (syncpt_name p) (max_val p).
Lemma sp_freed_free p : sp_free (sp_freed p).
Proof. done. Qed.

Definition sp_held (m : nvhost_master) (id : Z) (p : syncpt) : Prop :=
  pts_base (info m) < id < pts_limit (info m) /\ pts m !! Z.to_nat id = Some p /\ assigned p = true /\ sp_ref p = 1.

Lemma wp_free_rest id p (Q : unit -> nvhost_master -> Prop) m : pts m !! Z.to_nat id = Some p -> syncpt_mutex m = false ->
  sp_ref p = 0 -> Q tt (set_pts (<[Z.to_nat id := sp_freed p]> (pts m)) m) ->
  wp (mutex_lock;;
      at_pt id (
        modify (fun p => set_last_used_by (syncpt_name p) p);;
        nvhost_syncpt_set_min_eq_max;;
        modify (fun p => set_syncpt_name None (set_client_managed false (set_assigned false p))));;
      mutex_unlock) Q m.
Proof.
  intros Hp Hx Hr HQ. unfold mutex_lock, mutex_unlock. wp_simpl. rewrite Hx. wp_simpl.
  apply (wp_at_pt _ _ p); [done|]. unfold nvhost_syncpt_set_min_eq_max, t20_syncpt_reset. wp_simpl.
  destruct m, p; cbn in *. by subst.
Qed.

Lemma wp_put_last id p (Q : unit -> nvhost_master -> Prop) m : waits -> alloc_ok m -> syncpt_mutex m = false ->
  sp_held m id p -> Q tt (set_pts (<[Z.to_nat id := sp_freed p]> (pts m)) m) ->
  wp (nvhost_syncpt_put_ref wait_max id) Q m.
Proof.
  intros Hw (_ & _ & Hi & _) Hx (Hid & Hp & Ha & Hr) HQ. unfold nvhost_syncpt_put_ref. wp_simpl.
  apply (wp_at_pt _ _ p); [done|]. wp_simpl. rewrite Hr. change (s32 (1 - 1)) with 0.
  eapply wp_pt; [by eapply lookup_set_pts|]. cbn [sp_ref set_sp_ref Z.eqb].
  unfold nvhost_free_syncpt. wp_simpl. unfold nvhost_syncpt_is_valid_pt. cbn [info set_pts].
  assert ((pts_base (info m) <=? id) && (id <? pts_limit (info m)) && negb (id =? NVSYNCPT_INVALID) = true) as ->
    by (repeat case_z; lia || done).
  cbn [negb]. wp_simpl. eapply wp_pt; [by eapply lookup_set_pts|]. cbn [assigned set_sp_ref]. rewrite Ha. cbn [negb].
  wp_simpl. destruct (negb (client_managed _) && negb (nvhost_syncpt_min_eq_max _)).
  - eapply wp_mono; [eapply Hw; [by eapply lookup_set_pts|done]|]. cbn beta. intros _ m1 (v & r & ->).
    apply (wp_free_rest _ (set_reg r (set_min v (set_sp_ref 0 p)))).
    + eapply lookup_set_pts. by eapply lookup_set_pts.
    + done.
    + done.
    + rewrite !pts_set_pts, !set_pts_twice, !list_insert_insert_eq. exact HQ.
  - rewrite wp_ret. apply (wp_free_rest _ (set_sp_ref 0 p)); [by eapply lookup_set_pts|done..|].
    rewrite !pts_set_pts, !set_pts_twice, !list_insert_insert_eq. exact HQ.
Qed.

(** C28. What a client got is free again after its reference is dropped, whatever the counter and
    the maximum were meanwhile: every threshold of it counts as reached, it can be handed
    out, and of the client only the name is remembered. *)
Theorem put_syncpt_frees id p m : waits -> alloc_ok m -> syncpt_mutex m = false -> sp_held m id p ->
  exists m', nvhost_syncpt_put_ref wait_max id m = Some (tt, m') /\ alloc_ok m' /\ syncpt_mutex m' = false /\
    pts m' = <[Z.to_nat id := sp_freed p]> (pts m) /\ free_at m' id (sp_freed p) /\
    (forall t, nvhost_syncpt_is_expired (sp_freed p) t = true).
Proof.
  intros Hw Hm Hx Hh. enough (wp (nvhost_syncpt_put_ref wait_max id) (fun _ m' =>
    alloc_ok m' /\ syncpt_mutex m' = false /\
    pts m' = <[Z.to_nat id := sp_freed p]> (pts m) /\ free_at m' id (sp_freed p) /\
    (forall t, nvhost_syncpt_is_expired (sp_freed p) t = true)) m) as ([] & m' & E & H)%wp_total by by exists m'.
  apply (wp_put_last id p); [done..|]. split; [by apply alloc_ok_assigned; [|right]|]. split; [done|]. split; [done|].
  split; [|intros; by apply sp_free_expired]. destruct Hh as (Hid & Hp & _). split; [done|]. split; [|done].
  by eapply lookup_set_pts.
Qed.
End get.

(** ** An example: sixteen sync points of which none but the host's own is free at first *)

Definition demo_host : nvhost_master :=
  Master (HostInfo 16 16 0 16 0 false)
    (imap (fun i _ => Syncpt (bool_decide (i <= 12)%nat) false false 0 0 (if bool_decide (i <= 12)%nat then 1 else 0) None None 7)
       (replicate 16 tt)) false [] [] 0 0.
Definition demo_taken : nvhost_master :=
  match nvhost_get_syncpt (fun _ => mret tt) [] false (Some "a"%string) demo_host with Some (_, m) => m | None => demo_host end.
Lemma demo_host_ok : alloc_ok demo_host.
Proof.
  split; [done|]. split; [done|]. split; [done|]. intros i p Hi Hp Ha. cbn in Hi.
  assert (i < 16)%nat as Hi16 by lia. clear Hi. do 16 (destruct i as [|i]; [injection Hp as <-; done|]). lia.
Qed.
Lemma get_syncpt_exclusive_witness :
  exists id m', nvhost_get_syncpt (fun _ => mret tt) [] false (Some "a"%string) demo_host = Some (id, m') /\ id = 13.
Proof.
  destruct (get_syncpt_exclusive (fun _ => mret tt) [] false (Some "a"%string) demo_host demo_host_ok)
    as (id & m' & k & E & _); [done|constructor|].
  exists id, m'. split; [exact E|]. revert E. generalize m'. intros m1 E. vm_compute in E. by injection E as <- <-.
Defined.
Lemma put_syncpt_frees_witness :
  exists m', nvhost_syncpt_put_ref (fun _ => mret tt) 13 demo_taken = Some (tt, m') /\ alloc_ok m'.
Proof.
  destruct (put_syncpt_frees (fun _ => mret tt) 13 (sp_taken false (Some "a"%string) (Syncpt false false false 0 0 0 None None 7))
    demo_taken) as (m' & E & Hm & _).
  - intros id p m Hp Hx. wp_simpl. exists (min_val p), (reg p). destruct m, p; cbn in *. by rewrite list_insert_id.
  - destruct (get_syncpt_exclusive (fun _ => mret tt) [] false (Some "a"%string) demo_host demo_host_ok)
      as (id & m' & k & E & Hm & _); [done|constructor|]. unfold demo_taken. by rewrite E.
  - reflexivity.
  - split; [by vm_compute|]. split; [by vm_compute|done].
  - exists m'. by split.
Defined.
