(* ===== verification/Intr.v ===== *)
(** * Waiting for sync points (drivers/video/tegra/host/nvhost_intr.c, host1x/host1x_intr.c)

    Actions wait in a queue, sorted by threshold, until the counter has reached them. The
    interrupt's thread, the worker of the low priorities and tasks that drop a reference take
    them from there. The state is that of one sync point; a waiter is an address in
    [waiters], and an access to one that has been freed is a fault. *)

From stdpp Require Import gmap.
From S2P Require Import Prelude Syncpt.

(** ** Data *)

Inductive nvhost_intr_action := SIGNAL_SYNC_PT | WAKEUP | WAKEUP_INTERRUPTIBLE | FAST_NOTIFY | SUBMIT_COMPLETE | NOTIFY.
#[export] Instance nvhost_intr_action_dec : EqDecision nvhost_intr_action.
Proof. solve_decision. Defined.
Definition action_nr (a : nvhost_intr_action) : nat :=
  match a with
  | SIGNAL_SYNC_PT => 0 | WAKEUP => 1 | WAKEUP_INTERRUPTIBLE => 2 | FAST_NOTIFY => 3 | SUBMIT_COMPLETE => 4 | NOTIFY => 5
  end.
Definition NVHOST_INTR_ACTION_COUNT : nat := 6.
Definition NVHOST_INTR_HIGH_PRIO_COUNT : nat := action_nr SUBMIT_COMPLETE.

(** enum waitlist_state, as the numbers atomic_inc counts through. *)
Definition WLS_PENDING : Z := 0.
Definition WLS_REMOVED : Z := 1.
Definition WLS_CANCELLED : Z := 2.
Definition WLS_HANDLED : Z := 3.
Definition WLS_CLEANUP : Z := 4.

Record nvhost_waitlist := Waiter {
  refcount : Z; thresh : Z; action : nvhost_intr_action; wstate : Z; isr_recv : Z; wdata : Z; wcount : Z }.
Definition set_refcount (x : Z) (w : nvhost_waitlist) : nvhost_waitlist :=
  Waiter x (thresh w) (action w) (wstate w) (isr_recv w) (wdata w) (wcount w).
Definition set_wstate (x : Z) (w : nvhost_waitlist) : nvhost_waitlist :=
  Waiter (refcount w) (thresh w) (action w) x (isr_recv w) (wdata w) (wcount w).
Definition set_isr_recv (x : Z) (w : nvhost_waitlist) : nvhost_waitlist :=
  Waiter (refcount w) (thresh w) (action w) (wstate w) x (wdata w) (wcount w).
Definition set_wdata (x : Z) (w : nvhost_waitlist) : nvhost_waitlist :=
  Waiter (refcount w) (thresh w) (action w) (wstate w) (isr_recv w) x (wcount w).
Definition set_wcount (x : Z) (w : nvhost_waitlist) : nvhost_waitlist :=
  Waiter (refcount w) (thresh w) (action w) (wstate w) (isr_recv w) (wdata w) x.

(** What a handler does for a waiter: the action, its data, its count and the time. *)
Record event := Event { ev_waiter : nat; ev_action : nvhost_intr_action; ev_data : Z; ev_count : Z; ev_time : Z }.

(** struct nvhost_intr_syncpt with the waiters in memory, the hardware's threshold and enable
    bit, the sync point itself, the references that keep the host powered, what handlers have
    done (the last one first), and whether a WARN_ON has been hit. [work]: the work item of
    the low priorities is queued; [host_busy_err]: what powering the host returns, 0 when it
    succeeds; [unpowered]: the interrupt's thread has warned that it failed. *)
Record nvhost_intr_syncpt := IntrSyncpt {
  wait_head : list nat; low_prio_handlers : list (list nat); sp_isr_recv : Z; work : bool;
  waiters : gmap nat nvhost_waitlist;
  int_thresh : Z; int_enabled : bool; sp : syncpt; host_busy : Z; host_busy_err : Z;
  handled : list event; warned : bool; unpowered : bool }.
Definition set_wait_head (x : list nat) (s : nvhost_intr_syncpt) : nvhost_intr_syncpt :=
  IntrSyncpt x (low_prio_handlers s) (sp_isr_recv s) (work s) (waiters s) (int_thresh s) (int_enabled s) (sp s)
    (host_busy s) (host_busy_err s) (handled s) (warned s) (unpowered s).
Definition set_low_prio (x : list (list nat)) (s : nvhost_intr_syncpt) : nvhost_intr_syncpt :=
  IntrSyncpt (wait_head s) x (sp_isr_recv s) (work s) (waiters s) (int_thresh s) (int_enabled s) (sp s)
    (host_busy s) (host_busy_err s) (handled s) (warned s) (unpowered s).
Definition set_sp_isr_recv (x : Z) (s : nvhost_intr_syncpt) : nvhost_intr_syncpt :=
  IntrSyncpt (wait_head s) (low_prio_handlers s) x (work s) (waiters s) (int_thresh s) (int_enabled s) (sp s)
    (host_busy s) (host_busy_err s) (handled s) (warned s) (unpowered s).
Definition set_work (x : bool) (s : nvhost_intr_syncpt) : nvhost_intr_syncpt :=
  IntrSyncpt (wait_head s) (low_prio_handlers s) (sp_isr_recv s) x (waiters s) (int_thresh s) (int_enabled s) (sp s)
    (host_busy s) (host_busy_err s) (handled s) (warned s) (unpowered s).
Definition set_waiters (x : gmap nat nvhost_waitlist) (s : nvhost_intr_syncpt) : nvhost_intr_syncpt :=
  IntrSyncpt (wait_head s) (low_prio_handlers s) (sp_isr_recv s) (work s) x (int_thresh s) (int_enabled s) (sp s)
    (host_busy s) (host_busy_err s) (handled s) (warned s) (unpowered s).
Definition set_int (t : Z) (e : bool) (s : nvhost_intr_syncpt) : nvhost_intr_syncpt :=
  IntrSyncpt (wait_head s) (low_prio_handlers s) (sp_isr_recv s) (work s) (waiters s) t e (sp s)
    (host_busy s) (host_busy_err s) (handled s) (warned s) (unpowered s).
Definition set_sp (x : syncpt) (s : nvhost_intr_syncpt) : nvhost_intr_syncpt :=
  IntrSyncpt (wait_head s) (low_prio_handlers s) (sp_isr_recv s) (work s) (waiters s) (int_thresh s) (int_enabled s) x
    (host_busy s) (host_busy_err s) (handled s) (warned s) (unpowered s).
Definition set_host_busy (x : Z) (s : nvhost_intr_syncpt) : nvhost_intr_syncpt :=
  IntrSyncpt (wait_head s) (low_prio_handlers s) (sp_isr_recv s) (work s) (waiters s) (int_thresh s) (int_enabled s) (sp s)
    x (host_busy_err s) (handled s) (warned s) (unpowered s).
Definition set_host_busy_err (x : Z) (s : nvhost_intr_syncpt) : nvhost_intr_syncpt :=
  IntrSyncpt (wait_head s) (low_prio_handlers s) (sp_isr_recv s) (work s) (waiters s) (int_thresh s) (int_enabled s) (sp s)
    (host_busy s) x (handled s) (warned s) (unpowered s).
Definition add_handled (e : event) (s : nvhost_intr_syncpt) : nvhost_intr_syncpt :=
  IntrSyncpt (wait_head s) (low_prio_handlers s) (sp_isr_recv s) (work s) (waiters s) (int_thresh s) (int_enabled s) (sp s)
    (host_busy s) (host_busy_err s) (e :: handled s) (warned s) (unpowered s).
Definition set_warned (s : nvhost_intr_syncpt) : nvhost_intr_syncpt :=
  IntrSyncpt (wait_head s) (low_prio_handlers s) (sp_isr_recv s) (work s) (waiters s) (int_thresh s) (int_enabled s) (sp s)
    (host_busy s) (host_busy_err s) (handled s) true (unpowered s).
Definition set_unpowered (s : nvhost_intr_syncpt) : nvhost_intr_syncpt :=
  IntrSyncpt (wait_head s) (low_prio_handlers s) (sp_isr_recv s) (work s) (waiters s) (int_thresh s) (int_enabled s) (sp s)
    (host_busy s) (host_busy_err s) (handled s) (warned s) true.

Abbreviation I := (M nvhost_intr_syncpt).

Definition waiter (w : nat) : I nvhost_waitlist := s ← get; checked (waiters s !! w).
Definition upd_waiter (w : nat) (f : nvhost_waitlist -> nvhost_waitlist) : I unit :=
  waiter w;; modify (fun s => set_waiters (alter f w (waiters s)) s).
Definition WARN_ON (b : bool) : I unit := if b then modify set_warned else mret tt.
Definition on_sp {A} (k : M syncpt A) : I A := fun s =>
  match k (sp s) with
  | Some (x, p) => Some (x, set_sp p s)
  | None => None
  end.

(** ** References and the interrupt *)

Definition module_busy : I Z :=
  s ← get;
  if host_busy_err s =? 0 then modify (set_host_busy (host_busy s + 1));; mret 0 else mret (host_busy_err s).
Definition module_idle_mult (n : Z) : I unit := modify (fun s => set_host_busy (host_busy s - n) s).

(** The count is at most two, so its width does not matter. *)
Definition waiter_release (w : nat) : I unit :=
  module_idle_mult 1;; modify (fun s => set_waiters (delete w (waiters s)) s).
Definition kref_put (w : nat) : I unit :=
  upd_waiter w (fun x => set_refcount (refcount x - 1) x);;
  x ← waiter w;
  if refcount x =? 0 then waiter_release w else mret tt.

Definition t20_intr_set_syncpt_threshold (t : Z) : I unit := modify (fun s => set_int t (int_enabled s) s).
Definition t20_intr_enable_syncpt_intr : I unit := modify (fun s => set_int (int_thresh s) true s).
Definition t20_intr_disable_syncpt_intr : I unit := modify (fun s => set_int (int_thresh s) false s).

(** The hardware raises the interrupt. *)
Definition raised (s : nvhost_intr_syncpt) : bool := int_enabled s && (0 <=? s32 (reg (sp s) - int_thresh s)).

Definition nvhost_intr_release_time (w : nat) : I (Z * option Z) :=
  x ← waiter w;
  mret (if wstate x =? WLS_PENDING then (- EBUSY, None) else (0, Some (isr_recv x))).

(** ** The queue *)

(** From the end: behind the first waiter whose threshold is not later. *)
Fixpoint insert_waiter (h : gmap nat nvhost_waitlist) (t : Z) (w : nat) (rev_queue tail : list nat)
    : option (bool * list nat) :=
  match rev_queue with
  | [] => Some (true, w :: tail)
  | p :: q =>
      x ← h !! p;
      if s32 (thresh x - t) <=? 0 then Some (false, rev q ++ p :: w :: tail)
      else insert_waiter h t w q (p :: tail)
  end.
Definition add_waiter_to_queue (w : nat) : I bool :=
  s ← get;
  x ← waiter w;
  '(head, q) ← checked (insert_waiter (waiters s) (thresh x) w (rev (wait_head s)) []);
  modify (set_wait_head q);;
  mret head.

(** One completed waiter: [completed] are the lists by action. *)
Definition complete_waiter (w : nat) (time : Z) (completed : list (list nat)) : I (list (list nat)) :=
  upd_waiter w (set_isr_recv time);;
  x ← waiter w;
  let i := action_nr (action x) in
  let dest := completed !!! i in
  removed ← (match list.last dest with
             | Some prev =>
                 if bool_decide (action x = SUBMIT_COMPLETE) then
                   y ← waiter prev;
                   if wdata y =? wdata x then upd_waiter prev (fun y => set_wcount (wcount y + 1) y);; mret true
                   else mret false
                 else mret false
             | None => mret false
             end);
  upd_waiter w (fun x => set_wstate (wstate x + 1) x);;
  x ← waiter w;
  if (wstate x =? WLS_HANDLED) || removed then
    upd_waiter w (set_wstate WLS_CLEANUP);;
    mret (<[i := w :: dest]> completed)
  else mret (<[i := dest ++ [w]]> completed).

Fixpoint remove_completed_waiters (q : list nat) (sync time : Z) (completed : list (list nat))
    : I (list nat * list (list nat)) :=
  match q with
  | [] => mret ([], completed)
  | w :: q' =>
      x ← waiter w;
      if 0 <? s32 (thresh x - sync) then mret (q, completed)
      else
        completed ← complete_waiter w time completed;
        remove_completed_waiters q' sync time completed
  end.

Definition reset_threshold_interrupt (head : nat) : I unit :=
  x ← waiter head;
  t20_intr_set_syncpt_threshold (thresh x);;
  t20_intr_enable_syncpt_intr.

(** ** Handlers *)

Definition xchg_handled (w : nat) : I unit :=
  x ← waiter w;
  WARN_ON (negb (wstate x =? WLS_REMOVED));;
  upd_waiter w (set_wstate WLS_HANDLED).

Definition log_event (w : nat) (a : nvhost_intr_action) : I unit :=
  x ← waiter w;
  modify (add_handled (Event w a (wdata x) (wcount x) (isr_recv x))).

Definition action_signal_sync_pt (w : nat) : I unit := log_event w SIGNAL_SYNC_PT.
Definition action_wakeup (w : nat) : I unit := xchg_handled w;; log_event w WAKEUP.
Definition action_wakeup_interruptible (w : nat) : I unit := xchg_handled w;; log_event w WAKEUP_INTERRUPTIBLE.
(** The callback with its private data; the notifier is freed. *)
Definition action_notify (a : nvhost_intr_action) (w : nat) : I unit :=
  log_event w a;;
  x ← waiter w;
  module_idle_mult (wcount x);;
  upd_waiter w (set_wdata 0).
(** The channel is told the number of submits that have completed; 0 is one that is not mapped. *)
Definition action_submit_complete (w : nat) : I unit :=
  x ← waiter w;
  if wdata x =? 0 then mret tt else log_event w SUBMIT_COMPLETE.

(** action_handlers *)
Definition action_handler (i w : nat) : I unit :=
  match i with
  | 0 => action_signal_sync_pt w
  | 1 => action_wakeup w
  | 2 => action_wakeup_interruptible w
  | 3 => action_notify FAST_NOTIFY w
  | 4 => action_submit_complete w
  | 5 => action_notify NOTIFY w
  | _ => BUG
  end%nat.
Definition is_wakeup (i : nat) : bool := (i =? 1)%nat || (i =? 2)%nat.

(** The loop's body before and after the label cleanup. *)
Definition run_handler (iw : nat * nat) : I unit :=
  let '(i, w) := iw in
  x ← waiter w;
  if wstate x =? WLS_CLEANUP then mret tt
  else
    action_handler i w;;
    if is_wakeup i then mret tt else xchg_handled w.

(** The waiters in the order in which run_handlers comes to them. *)
Definition handler_list (completed : list (list nat)) : list (nat * nat) :=
  concat (imap (fun i l => map (pair i) l) completed).
Fixpoint run_handlers (l : list (nat * nat)) : I unit :=
  match l with
  | [] => mret tt
  | iw :: l => run_handler iw;; kref_put iw.2;; run_handlers l
  end.

(** ** Completion *)

(** The part of process_wait_list under the lock; what handlers of high priority have to do. *)
Definition process_locked (threshold : Z) : I (list (nat * nat) * bool) :=
  s ← get;
  '(q, completed) ← remove_completed_waiters (wait_head s) threshold (sp_isr_recv s)
                      (replicate NVHOST_INTR_HIGH_PRIO_COUNT [] ++ low_prio_handlers s);
  modify (set_wait_head q);;
  (match q with
   | [] => t20_intr_disable_syncpt_intr
   | head :: _ => reset_threshold_interrupt head
   end);;
  let low := drop NVHOST_INTR_HIGH_PRIO_COUNT completed in
  modify (set_low_prio low);;
  mret (handler_list (take NVHOST_INTR_HIGH_PRIO_COUNT completed), negb (bool_decide (concat low = []))).
Definition queue_low_prio_work (run : bool) : I unit := if run then modify (set_work true) else mret tt.
Definition process_wait_list (threshold : Z) : I bool :=
  '(l, low) ← process_locked threshold;
  s ← get;
  run_handlers l;;
  queue_low_prio_work low;;
  mret (bool_decide (wait_head s = [])).

(** The lists of low priority become local to the worker. *)
Definition low_prio_cut : I (list (nat * nat)) :=
  s ← get;
  modify (set_low_prio (map (fun _ => []) (low_prio_handlers s)));;
  mret (handler_list (replicate NVHOST_INTR_HIGH_PRIO_COUNT [] ++ low_prio_handlers s)).
Definition nvhost_syncpt_low_prio_work : I unit := l ← low_prio_cut; run_handlers l.

(** Up to the test of the result, with its WARN. *)
Definition thresh_fn_busy : I Z :=
  err ← module_busy;
  (if err =? 0 then mret tt else modify set_unpowered);;
  mret err.
Definition nvhost_syncpt_thresh_fn : I unit :=
  err ← thresh_fn_busy;
  if negb (err =? 0) then mret tt
  else
    v ← on_sp t20_syncpt_update_min;
    process_wait_list v;;
    module_idle_mult 1.

Definition t20_intr_syncpt_intr_ack (disable_intr : bool) : I unit :=
  (if disable_intr then t20_intr_disable_syncpt_intr else mret tt);;
  on_sp t20_intr_handle_extra_increments.
(** What the interrupt's thread does for a sync point that is not the host's. *)
Definition syncpt_thresh_cascade_isr (now : Z) : I unit :=
  modify (set_sp_isr_recv now);;
  t20_intr_syncpt_intr_ack true;;
  nvhost_syncpt_thresh_fn.

(** ** The interface *)

Definition nvhost_intr_has_pending_jobs (exclude_data : Z) : I bool :=
  s ← get;
  (fix go q :=
     match q with
     | [] => mret false
     | w :: q =>
         x ← waiter w;
         if bool_decide (action x = SUBMIT_COMPLETE) && negb (wdata x =? exclude_data) then mret true else go q
     end) (wait_head s).

(** kzalloc: an address, or none. *)
Definition nvhost_intr_alloc_waiter (addr : option nat) : I (option nat) :=
  match addr with
  | Some w => modify (fun s => set_waiters (<[w := Waiter 0 0 SIGNAL_SYNC_PT 0 0 0 0]> (waiters s)) s);; mret (Some w)
  | None => mret None
  end.
Definition kfree_waiter (w : nat) : I unit := waiter w;; modify (fun s => set_waiters (delete w (waiters s)) s).

(** [ref]: the caller wants a reference. *)
Definition nvhost_intr_add_action (t : Z) (a : nvhost_intr_action) (d : Z) (w : option nat) (ref : bool) : I Z :=
  match w with
  | None => mret (- EINVAL)
  | Some w =>
      err ← module_busy;
      if negb (err =? 0) then mret err
      else
        upd_waiter w (fun x => Waiter (if ref then 2 else 1) t a WLS_PENDING (isr_recv x) d 1);;
        s ← get;
        let queue_was_empty := bool_decide (wait_head s = []) in
        head ← add_waiter_to_queue w;
        (if head : bool then
           t20_intr_set_syncpt_threshold t;;
           (if queue_was_empty then t20_intr_enable_syncpt_intr else mret tt)
         else mret tt);;
        mret 0
  end.

(** [waiter_addr], [notifier]: what the allocations return, the notifier as its data. *)
Definition __nvhost_intr_register_notifier (t : Z) (a : nvhost_intr_action) (callback : bool)
    (waiter_addr : option nat) (notifier : Z) : I Z :=
  if negb callback then mret (- EINVAL)
  else
    w ← nvhost_intr_alloc_waiter waiter_addr;
    match w with
    | None => mret (- ENOMEM)
    | Some w =>
        if notifier =? 0 then kfree_waiter w;; mret (- ENOMEM)
        else
          err ← module_busy;
          if negb (err =? 0) then kfree_waiter w;; mret err
          else nvhost_intr_add_action t a notifier (Some w) false
    end.
Definition nvhost_intr_register_notifier (t : Z) (callback : bool) (waiter_addr : option nat) (notifier : Z) : I Z :=
  __nvhost_intr_register_notifier t NOTIFY callback waiter_addr notifier.
Definition nvhost_intr_register_fast_notifier (t : Z) (callback : bool) (waiter_addr : option nat) (notifier : Z) : I Z :=
  __nvhost_intr_register_notifier t FAST_NOTIFY callback waiter_addr notifier.

(** One turn of the loop that waits for a handler: whether it is over. *)
Definition try_cancel (w : nat) : I bool :=
  x ← waiter w;
  (if wstate x =? WLS_PENDING then upd_waiter w (set_wstate WLS_CANCELLED) else mret tt);;
  mret (negb (wstate x =? WLS_REMOVED)).
(** With nobody else to run the handler the loop does not end. *)
Definition nvhost_intr_put_ref (w : nat) : I unit :=
  ok ← try_cancel w;
  if ok : bool then
    v ← on_sp t20_syncpt_update_min;
    process_wait_list v;;
    kref_put w
  else BUG.

(** nvhost_intr_stop for one sync point: whether waiters are left. *)
Fixpoint stop_waiters (q : list nat) : I (list nat) :=
  match q with
  | [] => mret []
  | w :: q =>
      x ← waiter w;
      if wstate x =? WLS_CANCELLED then
        upd_waiter w (set_wstate WLS_HANDLED);;
        kref_put w;;
        stop_waiters q
      else q ← stop_waiters q; mret (w :: q)
  end.
Definition intr_stop_syncpt : I Z :=
  t20_intr_disable_syncpt_intr;;
  s ← get;
  q ← stop_waiters (wait_head s);
  modify (set_wait_head q);;
  match q with
  | [] => mret 0
  | _ => t20_intr_enable_syncpt_intr;; mret (- EBUSY)
  end.
