(* ===== verification/IntrFacts.v ===== *)
(** * Waiters on their way

    Each waiter is in the queue, among those whose handler is still to be run, among those
    whose reference is still to be dropped, or only with the client that refers to it. What
    holds of it there is kept by every operation on the lists and on the waiters. *)

From stdpp Require Import gmap fin_sets relations.
From S2P Require Import Prelude Syncpt SyncptFacts Intr.

(** ** Sums over lists *)

Fixpoint zsum {A} (f : A -> Z) (l : list A) : Z :=
  match l with
  | [] => 0
  | x :: l => f x + zsum f l
  end.
Lemma zsum_app {A} (f : A -> Z) l1 l2 : zsum f (l1 ++ l2) = zsum f l1 + zsum f l2.
Proof. induction l1; cbn; lia. Qed.
#[export] Instance zsum_perm {A} (f : A -> Z) : Proper (Permutation ==> eq) (zsum f).
Proof. intros l l' H. induction H; cbn; lia. Qed.
Lemma zsum_ext {A} (f g : A -> Z) l : (forall x, x ∈ l -> f x = g x) -> zsum f l = zsum g l.
Proof.
  induction l as [|x l IH]; intros H; cbn; [done|]. rewrite (H x) by left. f_equal. apply IH. intros y Hy. apply H. by right.
Qed.

(** Membership in a goal, down to the parts. *)
Ltac mem := repeat (rewrite elem_of_app || rewrite elem_of_cons).
Ltac mem_in H := repeat (rewrite elem_of_app in H || rewrite elem_of_cons in H).

Ltac wls := unfold WLS_PENDING, WLS_REMOVED, WLS_CANCELLED, WLS_HANDLED, WLS_CLEANUP in *; congruence.

(** ** Operations on a waiter *)

Section ops.
Context {s : nvhost_intr_syncpt} {w : nat} {x : nvhost_waitlist} (Hw : waiters s !! w = Some x).

Lemma wp_waiter (Q : nvhost_waitlist -> nvhost_intr_syncpt -> Prop) : Q x s -> wp (waiter w) Q s.
Proof. intros HQ. unfold waiter. wp_simpl. by eapply wp_checked. Qed.
Lemma wp_upd_waiter f (Q : unit -> nvhost_intr_syncpt -> Prop) :
  Q tt (set_waiters (<[w := f x]> (waiters s)) s) -> wp (upd_waiter w f) Q s.
Proof. intros HQ. unfold upd_waiter. wp_simpl. apply wp_waiter. wp_simpl. by rewrite (alter_alt_Some _ _ _ _ Hw). Qed.
End ops.

(** ** The invariant of the waiters *)

(** What a client asked for. *)
Record winfo := WInfo { wi_thresh : Z; wi_action : nvhost_intr_action; wi_data : Z }.

Inductive place := InQueue | ToRun (i : nat) | ToPut | Unlisted.

Definition wakes (a : nvhost_intr_action) : Prop := a = WAKEUP \/ a = WAKEUP_INTERRUPTIBLE.

Section inv.
(** [Q]: the queue; [T]: the waiters whose handler is to be run, by the number of their
    action; [D]: those to be put; [C]: the references of clients; [V]: the true value of the
    counter; [log]: what handlers have done; [info]: all that was ever asked for; [canc]: the
    waiters that were cancelled. *)
Implicit Types (Q D C : list nat) (T : list (nat * nat)) (h : gmap nat nvhost_waitlist) (V : Z)
  (log : list event) (info : gmap nat winfo) (canc : gset nat).

Definition placed Q T D (w : nat) (pl : place) : Prop :=
  match pl with
  | InQueue => w ∈ Q
  | ToRun i => (i, w) ∈ T
  | ToPut => w ∈ D
  | Unlisted => (w ∉ Q) /\ (w ∉ T.*2) /\ (w ∉ D)
  end.

Definition logged log (w : nat) : Prop := w ∈ map ev_waiter log.

(** A waiter in its place, of which [wi] was asked. *)
Definition state_ok (x : nvhost_waitlist) (wi : winfo) (canceled handled : Prop) V (pl : place) : Prop :=
  match pl with
  | InQueue => wdata x = wi_data wi /\ wcount x = 1 /\ ~ handled /\
      ((wstate x = WLS_PENDING /\ ~ canceled) \/ (wstate x = WLS_CANCELLED /\ canceled))
  | ToRun i => i = action_nr (action x) /\ wdata x = wi_data wi /\ wi_thresh wi <= V /\ ~ handled /\
      ((wstate x = WLS_REMOVED /\ ~ canceled) \/ (wstate x = WLS_CLEANUP /\ (canceled \/ action x = SUBMIT_COMPLETE)))
  | ToPut | Unlisted => wstate x = WLS_HANDLED \/ wstate x = WLS_CLEANUP
  end.

Definition refs Q T D C (w : nat) : Z :=
  (if decide (w ∈ Q ++ (T.*2) ++ D) then 1 else 0) + (if decide (w ∈ C) then 1 else 0).

Definition waiter_ok Q T D C V log info canc (w : nat) (x : nvhost_waitlist) : Prop :=
  refcount x = refs Q T D C w /\ (w ∈ C -> wakes (action x)) /\
  exists wi, info !! w = Some wi /\ action x = wi_action wi /\ thresh x = u32 (wi_thresh wi) /\
    forall pl, placed Q T D w pl -> state_ok x wi (w ∈ canc) (logged log w) V pl.

(** The submits of channel [d]: those that handlers have reported, that are to be reported,
    in the queue, and all. *)
Definition ev_submits (d : Z) (e : event) : Z :=
  if decide (ev_action e = SUBMIT_COMPLETE /\ ev_data e = d) then ev_count e else 0.
Definition run_submits h (d : Z) (iw : nat * nat) : Z :=
  match h !! iw.2 with
  | Some x => if decide (action x = SUBMIT_COMPLETE /\ wdata x = d /\ wstate x = WLS_REMOVED) then wcount x else 0
  | None => 0
  end.
Definition is_submit info (d : Z) (w : nat) : Z :=
  match info !! w with
  | Some wi => if decide (wi_action wi = SUBMIT_COMPLETE /\ wi_data wi = d) then 1 else 0
  | None => 0
  end.
Definition submits info (d : Z) : Z := zsum (is_submit info d) (elements (dom info)).

Definition event_ok V info canc (e : event) : Prop :=
  (ev_waiter e ∉ canc) /\
  exists wi, info !! ev_waiter e = Some wi /\ ev_action e = wi_action wi /\ ev_data e = wi_data wi /\ wi_thresh wi <= V.

Record vinv Q T D C h V log info canc : Prop := {
  vi_own : NoDup (Q ++ (T.*2) ++ D);
  vi_ref : NoDup C;
  vi_dom w : w ∈ (Q ++ (T.*2) ++ D) ++ C <-> is_Some (h !! w);
  vi_ok w x : h !! w = Some x -> waiter_ok Q T D C V log info canc w x;
  vi_log : NoDup (map ev_waiter log) /\ Forall (event_ok V info canc) log;
  vi_canc w : w ∈ canc -> exists wi, info !! w = Some wi /\ wakes (wi_action wi);
  vi_lost w wi : info !! w = Some wi -> wi_action wi <> SUBMIT_COMPLETE ->
    w ∈ canc \/ logged log w \/ w ∈ Q ++ (T.*2);
  vi_sum d : d <> 0 -> zsum (ev_submits d) log + zsum (run_submits h d) T + zsum (is_submit info d) Q = submits info d;
  vi_due w wi : info !! w = Some wi -> w ∈ Q \/ wi_thresh wi <= V }.

(** ** Changes of the lists *)

Lemma refs_cases Q T D C w : 0 <= refs Q T D C w <= 2.
Proof. unfold refs. repeat case_decide; lia. Qed.

Lemma placed_perm Q T T' D D' w pl : T ≡ₚ T' -> D ≡ₚ D' -> placed Q T D w pl -> placed Q T' D' w pl.
Proof. intros HT HD. destruct pl; cbn; rewrite ?HT, ?HD; done. Qed.

Lemma own_nodup Q T D : NoDup (Q ++ T.*2 ++ D) <->
  NoDup Q /\ NoDup T.*2 /\ NoDup D /\
  forall w, (w ∈ Q -> w ∉ T.*2) /\ (w ∈ Q -> w ∉ D) /\ (w ∈ T.*2 -> w ∉ D).
Proof.
  rewrite !list.NoDup_app. setoid_rewrite elem_of_app. split.
  - intros (HQ & QT & HT & TD & HD). do 3 (split; [done|]). intros w. specialize (QT w). specialize (TD w). tauto.
  - intros (HQ & HT & HD & K). split; [done|]. split; [|split; [done|split; [|done]]]; intros w; specialize (K w); tauto.
Qed.
Lemma torun_ids T i w : (i, w) ∈ T -> w ∈ T.*2.
Proof. intros Hi. apply list_elem_of_fmap. by exists (i, w). Qed.
Lemma nodup_torun T i j w : NoDup T.*2 -> (i, w) ∈ T -> (j, w) ∈ T -> i = j.
Proof.
  intros HT Hi Hj. apply list_elem_of_lookup in Hi as [a Ha], Hj as [b Hb].
  assert (a = b) as <-; [|congruence]. eapply (NoDup_lookup T.*2); [done|..]; rewrite list_lookup_fmap, ?Ha, ?Hb; done.
Qed.

Lemma vinv_perm Q Q' T T' D D' C C' h V log info canc : Q ≡ₚ Q' -> T ≡ₚ T' -> D ≡ₚ D' -> C ≡ₚ C' ->
  vinv Q T D C h V log info canc -> vinv Q' T' D' C' h V log info canc.
Proof.
  intros HQ HT HD HC [O R Dm K L Cn Lo S Du]. split; try done.
  - by rewrite <- HQ, <- HT, <- HD.
  - by rewrite <- HC.
  - intros w. by rewrite <- Dm, HQ, HT, HD, HC.
  - intros w x Hx. destruct (K w x Hx) as (E & W & wi & Hi & Ha & Ht & P). split; [|split].
    + rewrite E. unfold refs. repeat case_decide; try done; exfalso; rewrite HQ, HT, HD, HC in *; done.
    + by rewrite <- HC.
    + exists wi. split; [done|]. split; [done|]. split; [done|]. intros pl Hp. apply P. revert Hp.
      destruct pl; cbn; rewrite ?HQ, ?HT, ?HD; done.
  - intros w wi Hi Ha. rewrite <- HT, <- HQ. eauto.
  - intros d Hd. rewrite <- HT, <- HQ. auto.
  - intros w wi Hi. rewrite <- HQ. eauto.
Qed.
Lemma placed_unique Q T D w pl pl' : NoDup (Q ++ T.*2 ++ D) -> placed Q T D w pl -> placed Q T D w pl' -> pl = pl'.
Proof.
  intros (_ & HT & _ & K)%own_nodup. destruct (K w) as (K1 & K2 & K3). pose proof (torun_ids T) as Hi.
  destruct pl as [|i| |], pl' as [|j| |]; cbn; try done; try (intros H1 H2; exfalso; tauto || (apply Hi in H1; tauto) || (apply Hi in H2; tauto)).
  intros H1 H2. f_equal. by eapply nodup_torun.
Qed.

(** A waiter that an operation leaves alone. *)
Lemma waiter_ok_frame Q T D C V log info canc Q' T' D' C' V' log' info' canc' w x :
  waiter_ok Q T D C V log info canc w x ->
  (forall pl, placed Q' T' D' w pl -> placed Q T D w pl) -> (w ∈ Q' ++ T'.*2 ++ D' <-> w ∈ Q ++ T.*2 ++ D) ->
  (w ∈ C' <-> w ∈ C) -> V <= V' -> (logged log' w -> logged log w) -> info' !! w = info !! w ->
  (w ∈ canc' <-> w ∈ canc) -> waiter_ok Q' T' D' C' V' log' info' canc' w x.
Proof.
  intros (E & W & wi & Hi & Ha & Ht & P) Hpl Hr HC HV Hl Hinf Hc. split; [|split].
  - rewrite E. unfold refs. repeat case_decide; tauto.
  - by rewrite HC.
  - exists wi. split; [congruence|]. split; [done|]. split; [done|]. intros pl Hp. specialize (P pl (Hpl pl Hp)).
    destruct pl; cbn in *; [tauto| |done..]. destruct P as (P1 & P2 & P3 & P4 & P5). repeat (split; [done || lia || tauto|]). tauto.
Qed.

Lemma event_ok_mono V V' info info' canc canc' e : V <= V' -> (forall wi, info !! ev_waiter e = Some wi -> info' !! ev_waiter e = Some wi) ->
  (ev_waiter e ∈ canc' -> ev_waiter e ∈ canc) -> event_ok V info canc e -> event_ok V' info' canc' e.
Proof. intros HV Hi Hc (K & wi & H1 & H2 & H3 & H4). split; [auto|]. exists wi. repeat (split; [by auto|]). lia. Qed.

(** The counter goes on. *)
Lemma vinv_incr Q T D C h V V' log info canc : V <= V' -> vinv Q T D C h V log info canc -> vinv Q T D C h V' log info canc.
Proof.
  intros HV [O R Dm K [L1 L2] Cn Lo S Du]. split; try done.
  - intros w x Hx. by eapply waiter_ok_frame; [by apply K|..].
  - split; [done|]. eapply list.Forall_impl; [exact L2|]. intros e. by apply event_ok_mono.
  - intros w wi Hi. destruct (Du w wi Hi); [auto|right; lia].
Qed.

(** ** A new waiter *)

Lemma submits_insert info w wi d : info !! w = None ->
  submits (<[w := wi]> info) d = is_submit {[ w := wi ]} d w + submits info d.
Proof.
  intros Hw. unfold submits. rewrite dom_insert_L, elements_disj_union by (apply not_elem_of_dom in Hw; set_solver).
  rewrite elements_singleton. cbn [app zsum]. f_equal.
  - unfold is_submit. by rewrite lookup_insert_eq, lookup_singleton_eq.
  - apply zsum_ext. intros v Hv. unfold is_submit. rewrite lookup_insert_ne; [done|]. intros ->.
    by apply elem_of_elements, elem_of_dom in Hv as [? ?]; congruence.
Qed.

Lemma vinv_add Q T D C h V log info canc w t a d (ref : bool) r : vinv Q T D C h V log info canc ->
  info !! w = None -> (ref = true -> wakes a) ->
  vinv (w :: Q) T D (if ref then w :: C else C)
    (<[w := Waiter (if ref then 2 else 1) (u32 t) a WLS_PENDING r d 1]> h) V log (<[w := WInfo t a d]> info) canc.
Proof.
  intros [O R Dm K [L1 L2] Cn Lo S Du] Hi Hr.
  assert (h !! w = None) as Hh.
  { destruct (h !! w) as [x|] eqn:E; [|done]. destruct (K w x E) as (_ & _ & wi & ? & _). congruence. }
  assert (w ∉ (Q ++ T.*2 ++ D) ++ C) as Hn by (rewrite Dm, Hh; by intros [? [=]]).
  rewrite elem_of_app in Hn. assert (w ∉ Q ++ T.*2 ++ D) as Hown by tauto. assert (w ∉ C) as HC by tauto. clear Hn.
  assert (w ∉ canc) as Hc by (intros Hc; destruct (Cn w Hc) as (? & ? & _); congruence).
  assert (~ logged log w) as Hl.
  { intros (e & -> & He)%list_elem_of_fmap. rewrite list.Forall_forall in L2. destruct (L2 e He) as (_ & ? & ? & _). congruence. }
  split.
  - cbn. by apply list.NoDup_cons.
  - destruct ref; [by apply list.NoDup_cons|done].
  - intros v. rewrite lookup_insert_is_Some', <- Dm. assert (w = v <-> v = w) as -> by (split; congruence).
    destruct ref; cbn [app]; mem; tauto.
  - intros v x [[<- <-]|[Hv Hx]]%lookup_insert_Some.
    + split; [|split].
      * unfold refs. cbn [app refcount]. rewrite decide_True by left.
        destruct ref; [by rewrite decide_True by left|by rewrite decide_False].
      * cbn [action]. destruct ref; [auto|done].
      * exists (WInfo t a d). rewrite lookup_insert_eq. do 3 (split; [done|]). intros pl Hp.
        pose proof Hown as Hown'. rewrite !elem_of_app in Hown'.
        destruct pl; cbn in *; [tauto|apply torun_ids in Hp; tauto|tauto|]. destruct Hp as [Hp _]. by destruct Hp; left.
    + apply (waiter_ok_frame Q T D C V log info canc); [by apply K|..]; try done.
      * intros pl. destruct pl; cbn; [rewrite elem_of_cons; intros [->|?]; done|done|done|rewrite elem_of_cons; tauto].
      * cbn. rewrite elem_of_cons. split; [intros [->|?]; done|tauto].
      * destruct ref; [rewrite elem_of_cons; split; [intros [->|?]; done|tauto]|done].
      * by rewrite lookup_insert_ne.
  - split; [done|]. eapply list.Forall_impl; [exact L2|]. intros e. apply event_ok_mono; [done| |done].
    intros wi He. rewrite lookup_insert_ne; [done|]. congruence.
  - intros v Hv. destruct (Cn v Hv) as (wi & ? & ?). exists wi. rewrite lookup_insert_ne; [done|congruence].
  - intros v wi [[<- <-]|[Hv Hx]]%lookup_insert_Some Ha.
    + right. right. cbn. by left.
    + destruct (Lo v wi Hx Ha) as [|[|]]; [tauto|tauto|]. right. right. cbn. by right.
  - intros e He. rewrite submits_insert by done. rewrite <- (S e He). cbn [zsum].
    assert (zsum (run_submits (<[w:=Waiter (if ref then 2 else 1) (u32 t) a WLS_PENDING r d 1]> h) e) T = zsum (run_submits h e) T) as ->.
    { apply zsum_ext. intros [i v] Hv. unfold run_submits. cbn. rewrite lookup_insert_ne; [done|]. intros ->.
      apply torun_ids in Hv. apply Hown. rewrite !elem_of_app. auto. }
    assert (zsum (is_submit (<[w:=WInfo t a d]> info) e) Q = zsum (is_submit info e) Q) as ->.
    { apply zsum_ext. intros v Hv. unfold is_submit. rewrite lookup_insert_ne; [done|]. intros ->.
      apply Hown. rewrite !elem_of_app. auto. }
    unfold is_submit at 1 3. rewrite lookup_insert_eq, lookup_singleton_eq. lia.
  - intros v wi [[<- <-]|[Hv Hx]]%lookup_insert_Some; [left; by left|]. destruct (Du v wi Hx); [left; by right|auto].
Qed.

(** ** A waiter that has completed *)

(** What becomes of the waiters when [w], now [x], is taken from the queue: a cancelled one
    is only to be cleaned up, as is one whose submit is counted with that of [prev]. *)
Inductive completes h T (w : nat) (x : nvhost_waitlist) (time : Z) : gmap nat nvhost_waitlist -> Prop :=
  | comp_cancelled : wstate x = WLS_CANCELLED ->
      completes h T w x time (<[w := set_wstate WLS_CLEANUP (set_isr_recv time x)]> h)
  | comp_merged prev y : wstate x = WLS_PENDING -> action x = SUBMIT_COMPLETE ->
      (action_nr SUBMIT_COMPLETE, prev) ∈ T -> h !! prev = Some y -> wstate y = WLS_REMOVED -> wdata y = wdata x ->
      completes h T w x time (<[w := set_wstate WLS_CLEANUP (set_isr_recv time x)]> (<[prev := set_wcount (wcount y + 1) y]> h))
  | comp_removed : wstate x = WLS_PENDING ->
      completes h T w x time (<[w := set_wstate WLS_REMOVED (set_isr_recv time x)]> h).

Lemma waiter_ok_count Q T D C V log info canc w x c : w ∉ Q ->
  waiter_ok Q T D C V log info canc w x -> waiter_ok Q T D C V log info canc w (set_wcount c x).
Proof.
  intros HQ (E & W & wi & Hi & Ha & Ht & P). split; [done|]. split; [done|]. exists wi. do 3 (split; [done|]).
  intros pl Hp. specialize (P pl Hp). by destruct pl.
Qed.

Lemma own_move Q T D i w : (w :: Q) ++ T.*2 ++ D ≡ₚ Q ++ ((i, w) :: T).*2 ++ D.
Proof. cbn. by rewrite Permutation_middle. Qed.

Lemma run_submits_other h T d w x : w ∉ T.*2 -> zsum (run_submits (<[w := x]> h) d) T = zsum (run_submits h d) T.
Proof.
  intros Hw. apply zsum_ext. intros [i v] Hv. unfold run_submits. cbn. rewrite lookup_insert_ne; [done|]. intros ->.
  by apply Hw, (torun_ids T i).
Qed.

Section complete.
Variables (Q D C : list nat) (T : list (nat * nat)) (h h' : gmap nat nvhost_waitlist) (V time : Z)
  (log : list event) (info : gmap nat winfo) (canc : gset nat) (w : nat) (x : nvhost_waitlist) (wi : winfo).
Hypothesis (I : vinv (w :: Q) T D C h V log info canc) (Hx : h !! w = Some x) (Hi : info !! w = Some wi)
  (Hv : wi_thresh wi <= V) (Hc : completes h T w x time h').

Lemma complete_own : (w ∉ Q) /\ (w ∉ T.*2) /\ (w ∉ D) /\ w ∉ Q ++ T.*2 ++ D.
Proof.
  destruct I as [O _ _ _ _ _ _ _ _]. cbn in O. apply list.NoDup_cons in O as [O _]. mem_in O. mem. tauto.
Qed.
Lemma complete_state : action x = wi_action wi /\ wdata x = wi_data wi /\ wcount x = 1 /\ ~ logged log w /\
  ((wstate x = WLS_PENDING /\ w ∉ canc) \/ (wstate x = WLS_CANCELLED /\ w ∈ canc)).
Proof.
  destruct (vi_ok _ _ _ _ _ _ _ _ _ I w x Hx) as (_ & _ & wi' & Hi' & Ha & _ & P). replace wi' with wi in * by congruence.
  specialize (P InQueue ltac:(by left)). cbn in P. tauto.
Qed.

Lemma complete_ok v y : h' !! v = Some y -> waiter_ok Q ((action_nr (action x), w) :: T) D C V log info canc v y.
Proof.
  pose proof complete_own as (HQ & HT & HD & HO). pose proof complete_state as (Ha & Hd & Hn & Hl & Hs).
  pose proof (vi_ok _ _ _ _ _ _ _ _ _ I) as K.
  assert (forall v y, v <> w -> h !! v = Some y -> waiter_ok Q ((action_nr (action x), w) :: T) D C V log info canc v y) as Hother.
  { clear v y. intros v y Hne Hy. apply (waiter_ok_frame (w :: Q) T D C V log info canc); [by apply K|..]; try done.
    - intros pl. destruct pl; cbn; mem; [tauto|intros [[=]|]; done|done|tauto].
    - by rewrite <- own_move. }
  assert (forall z, refcount z = refcount x -> action z = action x -> thresh z = thresh x -> wdata z = wdata x ->
    ((wstate z = WLS_REMOVED /\ w ∉ canc) \/ (wstate z = WLS_CLEANUP /\ (w ∈ canc \/ action x = SUBMIT_COMPLETE))) ->
    waiter_ok Q ((action_nr (action x), w) :: T) D C V log info canc w z) as Hself.
  { intros z E1 E2 E3 E4 Hz. destruct (K w x Hx) as (E & W & wi' & Hi' & _ & Ht & _). replace wi' with wi in * by congruence.
    split; [|split].
    - rewrite E1, E. unfold refs. repeat case_decide; try done; exfalso; rewrite own_move in *; tauto.
    - by rewrite E2.
    - exists wi. split; [done|]. split; [congruence|]. split; [congruence|]. intros pl Hp.
      assert (pl = ToRun (action_nr (action x))) as ->.
      { destruct pl as [|j| |]; cbn in Hp; [done| |done|].
        - mem_in Hp. destruct Hp as [[= ->]|Hp%torun_ids]; done.
        - destruct Hp as (_ & Hp & _). by destruct Hp; left. }
      cbn. rewrite E2, E4. tauto. }
  destruct Hc as [Hs'|prev z Hs' Hsub Hprev Hz Hzs Hzd|Hs'].
  - intros [[<- <-]|[Hne Hy]]%lookup_insert_Some; [|by apply Hother]. apply Hself; try done. cbn. right. split; [done|].
    destruct Hs as [[E _]|[_ E]]; [rewrite Hs' in E; done|by left].
  - intros [[<- <-]|[Hne [[<- <-]|[Hne' Hy]]%lookup_insert_Some]]%lookup_insert_Some; [| |by apply Hother].
    + apply Hself; try done. cbn. auto.
    + apply waiter_ok_count; [|by apply Hother].
      destruct I as [O _ _ _ _ _ _ _ _]. apply own_nodup in O as (_ & _ & _ & O). destruct (O prev) as (O1 & _).
      intros Hq. apply O1; [by right|]. by eapply torun_ids.
  - intros [[<- <-]|[Hne Hy]]%lookup_insert_Some; [|by apply Hother]. apply Hself; try done. cbn. left. split; [done|].
    destruct Hs as [[_ E]|[E _]]; [done|rewrite Hs' in E; done].
Qed.

Lemma complete_sum d : d <> 0 ->
  zsum (run_submits h' d) ((action_nr (action x), w) :: T) = zsum (run_submits h d) T + is_submit info d w.
Proof.
  intros Hd0. pose proof complete_own as (HQ & HT & HD & HO). pose proof complete_state as (Ha & Hd & Hn & Hl & Hs).
  assert (is_submit info d w = if decide (action x = SUBMIT_COMPLETE /\ wdata x = d) then 1 else 0) as ->
    by (unfold is_submit; by rewrite Hi, <- Ha, <- Hd).
  cbn [zsum]. destruct Hc as [Hs'|prev z Hs' Hsub Hprev Hz Hzs Hzd|Hs'].
  - rewrite run_submits_other by done. unfold run_submits at 1. cbn. rewrite lookup_insert_eq. cbn.
    rewrite decide_False by (intros (_ & _ & ?); done). rewrite decide_False; [lia|]. intros [E _].
    destruct Hs as [[E' _]|[_ E']]; [rewrite Hs' in E'; done|].
    destruct (vi_canc _ _ _ _ _ _ _ _ _ I w E') as (wi' & ? & [|]); congruence.
  - rewrite run_submits_other by done. unfold run_submits at 1. cbn. rewrite lookup_insert_eq. cbn.
    rewrite decide_False by (intros (_ & _ & ?); done).
    assert (NoDup T.*2) as HN by (destruct I as [O _ _ _ _ _ _ _ _]; apply own_nodup in O; tauto).
    apply list_elem_of_split in Hprev as (T1 & T2 & ->). rewrite <- Permutation_middle in HN |- *. cbn in HN.
    apply list.NoDup_cons in HN as [HN _]. cbn [zsum]. rewrite run_submits_other by done.
    unfold run_submits at 1 3. cbn. rewrite lookup_insert_eq, Hz. cbn. rewrite <- Hzd.
    assert (action z = SUBMIT_COMPLETE) as Hza.
    { destruct (vi_ok _ _ _ _ _ _ _ _ _ I prev z Hz) as (_ & _ & wz & _ & _ & _ & P).
      specialize (P (ToRun 4)). cbn in P. destruct P as (P & _); [mem; auto|]. by destruct (action z). }
    repeat case_decide; try tauto; lia.
  - rewrite run_submits_other by done. unfold run_submits at 1. cbn. rewrite lookup_insert_eq. cbn.
    rewrite Hn. repeat case_decide; try tauto; lia.
Qed.

Lemma vinv_complete : vinv Q ((action_nr (action x), w) :: T) D C h' V log info canc.
Proof.
  pose proof complete_sum as Hsum. pose proof complete_ok as Hok.
  destruct I as [O R Dm K L Cn Lo S Du]. split; try done.
  - by rewrite <- own_move.
  - intros v. rewrite <- own_move, Dm. destruct Hc as [Hs|prev z Hs Hsub Hp Hz Hzs Hzd|Hs].
    + rewrite lookup_insert_is_Some'. split; [auto|]. intros [<-|]; [by eexists|done].
    + rewrite !lookup_insert_is_Some'. split; [auto|]. intros [<-|[<-|]]; [by eexists|by eexists|done].
    + rewrite lookup_insert_is_Some'. split; [auto|]. intros [<-|]; [by eexists|done].
  - intros v wv Hvi Hva. destruct (Lo v wv Hvi Hva) as [|[|Hin]]; [auto|auto|]. right. right.
    cbn in *. mem_in Hin. mem. tauto.
  - intros d Hd. rewrite Hsum by done. rewrite <- (S d Hd). cbn [zsum]. lia.
  - intros v wv Hvi. destruct (Du v wv Hvi) as [[->|]%elem_of_cons|]; [right; congruence|auto|auto].
Qed.
End complete.

Lemma vinv_place Q T D C h V log info canc w x pl : vinv Q T D C h V log info canc -> h !! w = Some x -> placed Q T D w pl ->
  exists wi, info !! w = Some wi /\ action x = wi_action wi /\ thresh x = u32 (wi_thresh wi) /\
    state_ok x wi (w ∈ canc) (logged log w) V pl.
Proof. intros I Hx Hp. destruct (vi_ok _ _ _ _ _ _ _ _ _ I w x Hx) as (_ & _ & wi & ? & ? & ? & P). eauto 6. Qed.

(** ** A waiter whose handler runs *)

Inductive runs h log (w : nat) (x : nvhost_waitlist) : gmap nat nvhost_waitlist -> list event -> Prop :=
  | runs_cleanup : wstate x = WLS_CLEANUP -> runs h log w x h log
  | runs_unmapped : wstate x = WLS_REMOVED -> action x = SUBMIT_COMPLETE -> wdata x = 0 ->
      runs h log w x (<[w := set_wstate WLS_HANDLED x]> h) log
  | runs_event d : wstate x = WLS_REMOVED ->
      runs h log w x (<[w := set_wstate WLS_HANDLED (set_wdata d x)]> h)
        (Event w (action x) (wdata x) (wcount x) (isr_recv x) :: log).

Lemma waiter_ok_handled Q T D C V log info canc w x st d : waiter_ok Q T D C V log info canc w x ->
  (forall pl, placed Q T D w pl -> pl = ToPut) -> st = WLS_HANDLED \/ st = WLS_CLEANUP ->
  waiter_ok Q T D C V log info canc w (set_wstate st (set_wdata d x)).
Proof.
  intros (E & W & wi & Hi & Ha & Ht & P) Hpl Hst. split; [done|]. split; [done|]. exists wi. do 3 (split; [done|]).
  intros pl Hp. by rewrite (Hpl pl Hp).
Qed.

Section run.
Variables (Q D C : list nat) (T : list (nat * nat)) (h h' : gmap nat nvhost_waitlist) (V : Z)
  (log log' : list event) (info : gmap nat winfo) (canc : gset nat) (i w : nat) (x : nvhost_waitlist).
Hypothesis (I : vinv Q ((i, w) :: T) D C h V log info canc) (Hx : h !! w = Some x) (Hr : runs h log w x h' log').

Lemma run_own : (w ∉ Q) /\ (w ∉ T.*2) /\ (w ∉ D) /\ Q ++ ((i, w) :: T).*2 ++ D ≡ₚ Q ++ T.*2 ++ w :: D.
Proof.
  destruct I as [O _ _ _ _ _ _ _ _]. apply own_nodup in O as (_ & HT & _ & O). cbn in HT. apply list.NoDup_cons in HT as [HT _].
  destruct (O w) as (O1 & O2 & O3). split; [intros Hq; apply O1; [done|by left]|]. split; [done|]. split; [apply O3; by left|].
  cbn. by rewrite Permutation_middle.
Qed.

Lemma run_placed v pl : placed Q T (w :: D) v pl -> (v = w /\ pl = ToPut) \/ (v <> w /\ placed Q ((i, w) :: T) D v pl).
Proof.
  pose proof run_own as (HQ & HT & HD & _). destruct (decide (v = w)) as [->|Hne].
  - intros Hp. left. split; [done|]. destruct pl as [|j| |]; cbn in Hp; [done|by apply torun_ids in Hp|done|].
    destruct Hp as (_ & _ & Hp). mem_in Hp. tauto.
  - intros Hp. right. split; [done|]. destruct pl; cbn in *; mem; [done|auto|mem_in Hp; tauto|]. mem_in Hp. tauto.
Qed.

Lemma run_logged v : logged log' v -> v = w \/ logged log v.
Proof. destruct Hr; [auto|auto|]. unfold logged. cbn. mem. auto. Qed.

Lemma run_ok v y : h' !! v = Some y -> waiter_ok Q T (w :: D) C V log' info canc v y.
Proof.
  pose proof run_own as (HQ & HT & HD & HO). pose proof (vi_ok _ _ _ _ _ _ _ _ _ I) as K.
  assert (forall v y, v <> w -> h !! v = Some y -> waiter_ok Q T (w :: D) C V log' info canc v y) as Hother.
  { clear v y. intros v y Hne Hy. apply (waiter_ok_frame Q ((i, w) :: T) D C V log info canc); [by apply K|..]; try done.
    - intros pl Hp. destruct (run_placed v pl Hp) as [[? _]|[_ ?]]; done.
    - by rewrite <- HO.
    - intros [?|?]%run_logged; done. }
  assert (forall d st, st = WLS_HANDLED \/ st = WLS_CLEANUP -> waiter_ok Q T (w :: D) C V log' info canc w (set_wstate st (set_wdata d x))) as Hself.
  { intros d st Hst. destruct (K w x Hx) as (E & W & wi & Hi & Ha & Ht & _). split; [|split; [done|]].
    - cbn. rewrite E. unfold refs. repeat case_decide; try done; exfalso; rewrite HO in *; tauto.
    - exists wi. do 3 (split; [done|]). intros pl [[_ ->]|[? _]]%run_placed; [done|done]. }
  revert Hother Hself. destruct Hr as [Hs|Hs Ha Hd|d Hs]; intros Hother Hself.
  - intros Hy. destruct (decide (v = w)) as [->|]; [|by apply Hother]. replace y with (set_wstate WLS_CLEANUP (set_wdata (wdata x) x)); [auto|].
    rewrite Hx in Hy. injection Hy as <-. destruct x. cbn in *. by subst.
  - intros [[<- <-]|[Hne Hy]]%lookup_insert_Some; [|by apply Hother].
    replace (set_wstate WLS_HANDLED x) with (set_wstate WLS_HANDLED (set_wdata (wdata x) x)) by by destruct x. auto.
  - intros [[<- <-]|[Hne Hy]]%lookup_insert_Some; [|by apply Hother]. auto.
Qed.

Lemma vinv_run : vinv Q T (w :: D) C h' V log' info canc.
Proof.
  pose proof run_ok as Hok. pose proof run_own as (HQ & HT & HD & HO).
  destruct (vinv_place _ _ _ _ _ _ _ _ _ w x (ToRun i) I Hx ltac:(by left)) as (wi & Hi & Ha & Ht & -> & Hd & Hv & Hl & Hs).
  destruct I as [O R Dm K [L1 L2] Cn Lo S Du]. split; try done.
  - by rewrite <- HO.
  - intros v. rewrite <- HO, Dm. destruct Hr; rewrite ?lookup_insert_is_Some'; [done|..]; (split; [auto|]; intros [<-|]; [by eexists|done]).
  - destruct Hr as [|Hs' _ _|d Hs']; [done|done|]. split; [cbn; by apply list.NoDup_cons|]. apply list.Forall_cons. split; [|done].
    split; [destruct Hs as [[_ ?]|[? _]]; [done|wls]|]. by exists wi.
  - intros v wv Hvi Hva. destruct (Lo v wv Hvi Hva) as [|[Hlv|Hin]]; [auto|..].
    + right. left. destruct Hr; [done|done|]. unfold logged. cbn. by right.
    + cbn in Hin. mem_in Hin. destruct Hin as [Hq|[->|Ht']]; [right; right; mem; tauto| |right; right; mem; tauto].
      replace wv with wi in * by congruence. destruct Hr as [Hs'|Hs' Ha' _|d Hs'].
      * destruct Hs as [[? _]|[_ [?|?]]]; [wls|auto|congruence].
      * congruence.
      * right. left. unfold logged. cbn. by left.
  - intros d Hd0. rewrite <- (S d Hd0). cbn [zsum]. unfold run_submits at 2. cbn [snd]. rewrite Hx.
    destruct Hr as [Hs'|Hs' Ha' Hd'|e Hs'].
    + rewrite decide_False by (intros (_ & _ & ?); wls). lia.
    + rewrite run_submits_other by done. rewrite decide_False by (intros (_ & ? & _); congruence). lia.
    + rewrite run_submits_other by done. cbn [zsum]. unfold ev_submits at 1. cbn.
      repeat case_decide; try tauto; lia.
Qed.
End run.

(** ** A reference that is dropped *)

Definition put_heap h (w : nat) (x : nvhost_waitlist) : gmap nat nvhost_waitlist :=
  if refcount x - 1 =? 0 then delete w h else <[w := set_refcount (refcount x - 1) x]> h.

Lemma put_heap_other h w x v : v <> w -> put_heap h w x !! v = h !! v.
Proof. intros Hv. unfold put_heap. case_match; [by rewrite lookup_delete_ne|by rewrite lookup_insert_ne]. Qed.
Lemma put_heap_same h w x : put_heap h w x !! w = if refcount x - 1 =? 0 then None else Some (set_refcount (refcount x - 1) x).
Proof. unfold put_heap. case_match; [apply lookup_delete_eq|apply lookup_insert_eq]. Qed.

(** From any lists to any others that differ in one reference to [w]. *)
Lemma vinv_put Q T D C D' C' h V log info canc w x :
  vinv Q T D C h V log info canc -> h !! w = Some x -> NoDup (Q ++ T.*2 ++ D') -> NoDup C' ->
  refs Q T D' C' w = refs Q T D C w - 1 ->
  (forall v, v <> w -> (v ∈ D' <-> v ∈ D) /\ (v ∈ C' <-> v ∈ C)) -> (w ∈ C' -> w ∈ C) ->
  (forall pl, placed Q T D' w pl -> placed Q T D w pl \/ (pl = Unlisted /\ w ∈ D)) ->
  vinv Q T D' C' (put_heap h w x) V log info canc.
Proof.
  intros [O R Dm K L Cn Lo S Du] Hx HO HC Hrefs Hoth HCw Hpl.
  assert (refcount x = refs Q T D C w) as Erc by apply (K w x Hx).
  assert (put_heap h w x !! w = None -> (w ∉ Q ++ T.*2 ++ D') /\ (w ∉ C')) as Hdel.
  { rewrite put_heap_same. destruct (Z.eqb_spec (refcount x - 1) 0) as [Hz|]; [|done]. intros _.
    rewrite Erc, <- Hrefs in Hz. unfold refs in Hz. repeat case_decide; try lia; done. }
  split; try done.
  - intros v. destruct (decide (v = w)) as [->|Hne].
    + destruct (put_heap h w x !! w) as [y|] eqn:E.
      * split; [by eexists|]. intros _. rewrite put_heap_same in E. destruct (Z.eqb_spec (refcount x - 1) 0) as [|Hz]; [done|].
        rewrite Erc, <- Hrefs in Hz. unfold refs in Hz.
        assert (w ∈ Q ++ T.*2 ++ D' \/ w ∈ C') as Hin by (repeat case_decide; tauto || lia). mem_in Hin. mem. tauto.
      * split; [|by intros [? [=]]]. destruct (Hdel eq_refl) as [Hd1 Hd2]. mem_in Hd1. mem. tauto.
    + rewrite put_heap_other by done. rewrite <- Dm. destruct (Hoth v Hne) as [E1 E2]. mem. rewrite E1, E2. done.
  - intros v y Hy. destruct (decide (v = w)) as [->|Hne].
    + rewrite put_heap_same in Hy. destruct (Z.eqb_spec (refcount x - 1) 0) as [|Hz]; [done|]. injection Hy as <-.
      destruct (K w x Hx) as (E & W & wi & Hi & Ha & Ht & P). split; [cbn; lia|]. split; [auto|]. exists wi. do 3 (split; [done|]).
      intros pl Hp. destruct (Hpl pl Hp) as [Hp'|[-> Hp']]; [by specialize (P pl Hp'); destruct pl|by apply (P ToPut)].
    + rewrite put_heap_other in Hy by done. destruct (Hoth v Hne) as [E1 E2].
      apply (waiter_ok_frame Q T D C V log info canc); [by apply K|..]; try done.
      * intros pl. destruct pl; cbn; rewrite ?E1; done.
      * mem. by rewrite E1.
  - intros d Hd. rewrite <- (S d Hd). f_equal. f_equal. apply zsum_ext. intros [i v] Hv. unfold run_submits. cbn.
    destruct (decide (v = w)) as [->|]; [|by rewrite put_heap_other].
    rewrite put_heap_same. destruct (Z.eqb_spec (refcount x - 1) 0) as [Hz|]; [|by rewrite Hx].
    exfalso. apply torun_ids in Hv. destruct Hdel as [Hd' _]; [rewrite put_heap_same, (proj2 (Z.eqb_eq _ _) Hz); done|].
    apply Hd'. mem. auto.
Qed.

Lemma vinv_put_done Q T D C h V log info canc w x : vinv Q T (w :: D) C h V log info canc -> h !! w = Some x ->
  vinv Q T D C (put_heap h w x) V log info canc.
Proof.
  intros I Hx. pose proof (vi_own _ _ _ _ _ _ _ _ _ I) as O. apply own_nodup in O as (O1 & O2 & O3 & O4).
  apply list.NoDup_cons in O3 as [O3 O5]. destruct (O4 w) as (O6 & O7 & O8).
  assert (w ∉ Q ++ T.*2 ++ D) as Hw.
  { mem. intros [Hq|[Hq|Hq]]; [apply O7; [done|by left]|apply O8; [done|by left]|done]. }
  apply (vinv_put Q T (w :: D) C); try done.
  - apply own_nodup. do 3 (split; [done|]). intros v. destruct (O4 v) as (P1 & P2 & P3). split; [done|].
    split; intros Hq Hv; [apply P2|apply P3]; by try right.
  - apply I.
  - unfold refs. rewrite (decide_False (P := w ∈ Q ++ T.*2 ++ D)) by done. rewrite (decide_True (P := w ∈ Q ++ T.*2 ++ w :: D)) by (mem; auto). lia.
  - intros v Hv. split; [mem; split; [auto|intros [|]; done]|done].
  - intros pl Hp. mem_in Hw. destruct pl as [|i| |]; cbn in *; [tauto|apply torun_ids in Hp; tauto|tauto|]. right. split; [done|by left].
Qed.

Lemma vinv_put_client Q T D C h V log info canc w x : vinv Q T D (w :: C) h V log info canc -> h !! w = Some x ->
  vinv Q T D C (put_heap h w x) V log info canc.
Proof.
  intros I Hx. pose proof (vi_ref _ _ _ _ _ _ _ _ _ I) as R. apply list.NoDup_cons in R as [R1 R2].
  apply (vinv_put Q T D (w :: C)); try done.
  - apply I.
  - unfold refs. rewrite (decide_False (P := w ∈ C)) by done. rewrite (decide_True (P := w ∈ w :: C)) by by left. lia.
  - intros v Hv. split; [done|]. mem. split; [auto|intros [|]; done].
  - auto.
Qed.

(** ** A waiter that is cancelled *)

Lemma vinv_pending Q T D C h V log info canc w x : vinv Q T D C h V log info canc -> h !! w = Some x -> wstate x = WLS_PENDING ->
  w ∈ Q.
Proof.
  intros I Hx Hs. destruct (decide (w ∈ Q)) as [|HQ]; [done|]. exfalso.
  assert (exists pl, pl <> InQueue /\ placed Q T D w pl) as (pl & Hne & Hp).
  { destruct (decide (w ∈ T.*2)) as [([i v] & -> & Hi)%list_elem_of_fmap|]; [by exists (ToRun i)|].
    destruct (decide (w ∈ D)); [by exists ToPut|by exists Unlisted]. }
  destruct (vinv_place _ _ _ _ _ _ _ _ _ w x pl I Hx Hp) as (wi & _ & _ & _ & P). destruct pl; cbn in P; [done|..].
  - destruct P as (_ & _ & _ & _ & [[? _]|[? _]]); rewrite Hs in *; done.
  - rewrite Hs in P. by destruct P.
  - rewrite Hs in P. by destruct P.
Qed.

Lemma vinv_cancel Q T D C h V log info canc w x : vinv Q T D C h V log info canc -> h !! w = Some x ->
  wstate x = WLS_PENDING -> w ∈ C ->
  vinv Q T D C (<[w := set_wstate WLS_CANCELLED x]> h) V log info ({[ w ]} ∪ canc).
Proof.
  intros I Hx Hs HC. pose proof (vinv_pending _ _ _ _ _ _ _ _ _ w x I Hx Hs) as HQ.
  destruct (vinv_place _ _ _ _ _ _ _ _ _ w x InQueue I Hx HQ) as (wi & Hi & Ha & Ht & Hd & Hn & Hl & _).
  destruct I as [O R Dm K [L1 L2] Cn Lo S Du]. pose proof O as O'. apply own_nodup in O' as (_ & _ & _ & O').
  destruct (O' w) as (HT & HD & _). specialize (HT HQ). specialize (HD HQ). destruct (K w x Hx) as (Erc & W & _).
  split; try done.
  - intros v. rewrite lookup_insert_is_Some', <- Dm. split; [auto|]. intros [<-|]; [mem; auto|done].
  - intros v y [[<- <-]|[Hne Hy]]%lookup_insert_Some.
    + split; [done|]. split; [done|]. exists wi. do 3 (split; [done|]). intros pl Hp.
      replace pl with InQueue by by eapply placed_unique. cbn. do 3 (split; [done|]). right. split; [done|]. set_solver.
    + apply (waiter_ok_frame Q T D C V log info canc); [by apply K|..]; try done. set_solver.
  - split; [done|]. apply list.Forall_forall. intros e He. rewrite list.Forall_forall in L2. destruct (L2 e He) as [E1 E2].
    split; [|done]. intros [Ew%elem_of_singleton|]%elem_of_union; [|done]. apply Hl. rewrite <- Ew. apply list_elem_of_fmap. by exists e.
  - intros v [->%elem_of_singleton|Hv]%elem_of_union; [|auto]. exists wi. split; [done|]. rewrite <- Ha. auto.
  - intros v wv Hvi Hva. destruct (Lo v wv Hvi Hva) as [|[|]]; [set_solver|auto|auto].
  - intros d Hd0. rewrite run_submits_other by done. auto.
Qed.
End inv.
