(* ===== verification/IntrOps.v ===== *)
(** * The operations on waiters keep the invariant

    Each step of the interrupt's thread, of the worker and of a client, with what it does to
    the queue and to the interrupt. *)

From stdpp Require Import gmap fin_sets relations sorting.
From S2P Require Import Prelude Syncpt SyncptFacts Intr IntrFacts.

(** ** Lists by action *)

Lemma handler_list_app l1 l2 :
  handler_list (l1 ++ l2) = handler_list l1 ++ concat (imap (fun i l => map (pair (length l1 + i)%nat) l) l2).
Proof. unfold handler_list. rewrite imap_app, concat_app. done. Qed.

Lemma handler_list_insert l i dest dest' : l !! i = Some dest ->
  exists r, handler_list l ≡ₚ map (pair i) dest ++ r /\ handler_list (<[i := dest']> l) ≡ₚ map (pair i) dest' ++ r.
Proof.
  intros Hi. assert (i < length l)%nat as Hlt by by eapply lookup_lt_Some.
  rewrite insert_take_drop by done.
  assert (handler_list l = handler_list (take i l ++ dest :: drop (S i) l)) as -> by by rewrite take_drop_middle.
  rewrite !handler_list_app. assert (length (take i l) = i) as -> by (rewrite length_take; lia). cbn [imap concat].
  rewrite Nat.add_0_r. eexists. split; rewrite Permutation_app_comm, <- app_assoc; apply Permutation_app_head, Permutation_app_comm.
Qed.
Lemma handler_list_front l i dest w : l !! i = Some dest -> handler_list (<[i := w :: dest]> l) ≡ₚ (i, w) :: handler_list l.
Proof. intros Hi. destruct (handler_list_insert l i dest (w :: dest) Hi) as (r & E1 & E2). by rewrite E1, E2. Qed.
Lemma handler_list_back l i dest w : l !! i = Some dest -> handler_list (<[i := dest ++ [w]]> l) ≡ₚ (i, w) :: handler_list l.
Proof.
  intros Hi. destruct (handler_list_insert l i dest (dest ++ [w]) Hi) as (r & E1 & E2).
  rewrite E1, E2, map_app, <- app_assoc. cbn. by rewrite <- Permutation_middle.
Qed.
Lemma handler_list_elem l i dest w : l !! i = Some dest -> w ∈ dest -> (i, w) ∈ handler_list l.
Proof.
  intros Hi Hw. destruct (handler_list_insert l i dest dest Hi) as (r & -> & _). mem. left. apply list_elem_of_fmap. by exists w.
Qed.

(** The waiters of low priority, as the worker will come to them. *)
Definition low_list (s : nvhost_intr_syncpt) : list (nat * nat) :=
  handler_list (replicate NVHOST_INTR_HIGH_PRIO_COUNT [] ++ low_prio_handlers s).

Lemma handler_list_split l : (4 <= length l)%nat ->
  handler_list l = handler_list (take 4 l) ++ handler_list (replicate 4 [] ++ drop 4 l).
Proof.
  intros Hl. assert (handler_list l = handler_list (take 4 l ++ drop 4 l)) as -> by by rewrite take_drop. rewrite !handler_list_app. rewrite length_take, Nat.min_l by lia. done.
Qed.
Lemma low_list_nil s : low_list s = [] <-> concat (low_prio_handlers s) = [].
Proof.
  unfold low_list. rewrite handler_list_app. cbn [replicate handler_list app length]. change (length (replicate _ _)) with 4%nat.
  generalize 4%nat as k. intros k. transitivity (concat (imap (fun i l => map (pair (k + i)%nat) l) (low_prio_handlers s)) = []); [done|].
  generalize (low_prio_handlers s) as L. intros L. revert k.
  induction L as [|l L IH]; intros k; cbn; [done|].
  assert (imap ((fun i l => map (pair (k + i)%nat) l) ∘ S) L = imap (fun i l => map (pair (S k + i)%nat) l) L) as ->.
  { apply imap_ext. intros i x _. cbn. by rewrite Nat.add_succ_r. }
  specialize (IH (S k)). destruct l; cbn; [done|]. split; done.
Qed.

(** The last submit of its list is not one that is only to be cleaned up. *)
Definition submit_last (h : gmap nat nvhost_waitlist) (l : list (list nat)) : Prop :=
  forall dest prev, l !! 4%nat = Some dest -> list.last dest = Some prev -> exists y, h !! prev = Some y /\ wstate y = WLS_REMOVED.

(** ** Completion *)

Section complete.
Variables (D C : list nat) (P : list (nat * nat)) (V time : Z) (log : list event) (info : gmap nat winfo) (canc : gset nat).
Abbreviation inv Q T h := (vinv Q T D C h V log info canc).

Lemma action_nr_lt a : (action_nr a < 6)%nat.
Proof. destruct a; cbn; lia. Qed.

Lemma wp_complete_waiter s w Q x wi l (K : list (list nat) -> nvhost_intr_syncpt -> Prop) :
  inv (w :: Q) (handler_list l ++ P) (waiters s) -> waiters s !! w = Some x -> info !! w = Some wi -> wi_thresh wi <= V ->
  length l = 6%nat -> submit_last (waiters s) l ->
  (forall h l', inv Q (handler_list l' ++ P) h -> length l' = 6%nat -> submit_last h l' ->
     handler_list l' ≡ₚ (action_nr (action x), w) :: handler_list l -> K l' (set_waiters h s)) ->
  wp (complete_waiter w time l) K s.
Proof.
  intros I Hx Hi Hv Hl Hsub HK.
  destruct (vinv_place _ _ _ _ _ _ _ _ _ w x InQueue I Hx ltac:(by left)) as (wi' & Hi' & Ha & _ & _ & _ & _ & Hs).
  replace wi' with wi in * by congruence. clear Hi' wi'.
  destruct (lookup_lt_is_Some_2 l (action_nr (action x))) as [dest Hd]; [rewrite Hl; apply action_nr_lt|].
  assert (forall h' l', completes (waiters s) (handler_list l ++ P) w x time h' -> length l' = 6%nat ->
    handler_list l' ≡ₚ (action_nr (action x), w) :: handler_list l -> submit_last h' l' -> K l' (set_waiters h' s)) as Hfin.
  { intros h' l' Hc Hl' HP Hs'. apply HK; [|done|done|done].
    eapply vinv_perm; [done|by rewrite HP|done|done|]. eapply vinv_complete; [exact I|done|exact Hi|done|exact Hc]. }
  assert (w ∉ (handler_list l ++ P).*2) as Hw.
  { pose proof (vi_own _ _ _ _ _ _ _ _ _ I) as O. apply own_nodup in O as (_ & _ & _ & O). apply O. by left. }
  assert (forall prev, prev ∈ l !!! 4%nat -> prev <> w) as Hprev.
  { intros prev Hp ->. apply Hw. destruct (l !! 4%nat) as [d4|] eqn:E4; [|apply lookup_ge_None in E4; lia].
    apply list_lookup_total_correct in E4 as E. rewrite E in Hp. rewrite fmap_app. mem. left.
    apply list_elem_of_fmap. exists (4%nat, w). split; [done|]. by eapply handler_list_elem. }
  unfold complete_waiter. wp_simpl. apply (wp_upd_waiter Hx). wp_simpl.
  assert (waiters (set_waiters (<[w:=set_isr_recv time x]> (waiters s)) s) !! w = Some (set_isr_recv time x)) as Hx1
    by apply lookup_insert_eq.
  apply (wp_waiter Hx1). wp_simpl. cbn [action set_isr_recv]. rewrite (list_lookup_total_correct _ _ _ Hd).
  assert (forall removed h1 x1, h1 !! w = Some x1 -> wstate x1 = wstate x ->
     (removed = true \/ wstate x = WLS_CANCELLED -> K (<[action_nr (action x) := w :: dest]> l) (set_waiters (<[w := set_wstate WLS_CLEANUP x1]> h1) s)) ->
     (removed = false -> wstate x = WLS_PENDING -> K (<[action_nr (action x) := dest ++ [w]]> l) (set_waiters (<[w := set_wstate WLS_REMOVED x1]> h1) s)) ->
     wp (upd_waiter w (fun x => set_wstate (wstate x + 1) x);;
         x0 ← waiter w;
         if (wstate x0 =? WLS_HANDLED) || removed then
           upd_waiter w (set_wstate WLS_CLEANUP);; mret (<[action_nr (action x) := w :: dest]> l)
         else mret (<[action_nr (action x) := dest ++ [w]]> l)) K (set_waiters h1 s)) as Hrest.
  { intros removed h1 x1 Hx2 E H1 H2. wp_simpl. eapply wp_upd_waiter; [exact Hx2|]. wp_simpl.
    eapply wp_waiter; [apply lookup_insert_eq|]. cbn [wstate set_wstate]. rewrite E.
    destruct Hs as [[E' _]|[E' _]]; rewrite E'.
    - destruct removed; [change (_ || true) with true|change (_ || false) with false]; cbv iota; wp_simpl.
      + eapply wp_upd_waiter; [apply lookup_insert_eq|]. wp_simpl. cbn [waiters set_waiters]. rewrite insert_insert_eq. by apply H1; left.
      + by apply H2.
    - change (_ || removed) with true. cbv iota. wp_simpl. eapply wp_upd_waiter; [apply lookup_insert_eq|]. wp_simpl.
      cbn [waiters set_waiters]. rewrite insert_insert_eq. by apply H1; right. }
  assert (list.last dest = None \/ action x <> SUBMIT_COMPLETE \/ (exists prev, list.last dest = Some prev) /\ action x = SUBMIT_COMPLETE)
    as Hcases by (destruct (list.last dest); [destruct (decide (action x = SUBMIT_COMPLETE))|]; eauto).
  assert (submit_last (<[w := set_wstate WLS_REMOVED (set_isr_recv time x)]> (waiters s)) (<[action_nr (action x) := dest ++ [w]]> l)) as Hsr.
  { intros d4 prev [(E4 & <- & _)|[Hne E4]]%list_lookup_insert_Some Hlast.
    - rewrite last_snoc in Hlast. injection Hlast as <-. eexists. by rewrite lookup_insert_eq.
    - rewrite lookup_insert_ne; [by eapply Hsub|]. intros <-. apply list_lookup_total_correct in E4 as E.
      apply (Hprev w); [|done]. rewrite E. by apply last_Some_elem_of. }
  assert (action x <> SUBMIT_COMPLETE -> submit_last (<[w := set_wstate WLS_CLEANUP (set_isr_recv time x)]> (waiters s))
    (<[action_nr (action x) := w :: dest]> l)) as Hsc.
  { intros Hne d4 prev [(E4 & <- & _)|[Hne' E4]]%list_lookup_insert_Some Hlast; [by destruct (action x)|].
    rewrite lookup_insert_ne; [by eapply Hsub|]. intros <-. apply list_lookup_total_correct in E4 as E.
    apply (Hprev w); [|done]. rewrite E. by apply last_Some_elem_of. }
  assert (wstate x = WLS_CANCELLED -> action x <> SUBMIT_COMPLETE) as Hcn.
  { intros E Hsa. destruct Hs as [[E' _]|[_ Hc]]; [wls|]. destruct (vi_canc _ _ _ _ _ _ _ _ _ I w Hc) as (? & ? & [|]); congruence. }
  assert (wp (upd_waiter w (fun x => set_wstate (wstate x + 1) x);;
         x0 ← waiter w;
         if (wstate x0 =? WLS_HANDLED) || false then
           upd_waiter w (set_wstate WLS_CLEANUP);; mret (<[action_nr (action x) := w :: dest]> l)
         else mret (<[action_nr (action x) := dest ++ [w]]> l)) K (set_waiters (<[w := set_isr_recv time x]> (waiters s)) s)) as Hplain.
  { eapply Hrest; [apply lookup_insert_eq|done|..]; rewrite insert_insert_eq.
    - intros [?|E]; [done|]. apply Hfin; [by apply comp_cancelled|by rewrite length_insert|by apply handler_list_front|auto].
    - intros _ E. apply Hfin; [by apply comp_removed|by rewrite length_insert|by apply handler_list_back|done]. }
  clear Hsr. destruct Hcases as [Hlast|[Hne|[[prev Hlast] Hsa]]].
  - rewrite Hlast. exact Hplain.
  - destruct (list.last dest); [rewrite bool_decide_false by done|]; exact Hplain.
  - rewrite Hlast, bool_decide_true by done. wp_simpl.
    rewrite Hsa in Hd. cbn [action_nr] in Hd. destruct (Hsub dest prev Hd Hlast) as (y & Hy & Hys).
    assert (prev ∈ dest) as Hin by by apply last_Some_elem_of.
    assert (prev <> w) as Hpw by (apply Hprev; by rewrite (list_lookup_total_correct _ _ _ Hd)).
    eapply wp_waiter; [cbn; by rewrite lookup_insert_ne|]. cbn [wdata set_isr_recv].
    destruct (Z.eqb_spec (wdata y) (wdata x)) as [Ed|]; [|exact Hplain].
    wp_simpl. eapply wp_upd_waiter; [cbn; by rewrite lookup_insert_ne|]. rewrite wp_ret. cbn [waiters set_waiters].
    eapply Hrest; [by rewrite lookup_insert_ne by done; apply lookup_insert_eq|done|..].
    + intros _. rewrite (insert_insert_ne _ prev w), insert_insert_eq by done. rewrite Hsa. cbn [action_nr].
      apply Hfin; [| |rewrite Hsa; by apply handler_list_front|].
      * apply (comp_merged _ _ _ _ _ prev y); try done.
        -- destruct Hs as [[? _]|[E _]]; [done|by apply Hcn in E].
        -- mem. left. by eapply handler_list_elem.
      * by rewrite length_insert.
      * intros d4 p [(_ & <- & _)|[? ?]]%list_lookup_insert_Some; [|done]. rewrite last_cons, Hlast. intros [= <-].
        eexists. rewrite lookup_insert_ne by done. by rewrite lookup_insert_eq.
    + done.
Qed.

(** The true threshold of a waiter; those in the queue are within half the range of the
    counter of [c]. *)
Definition thr (w : nat) : Z := match info !! w with Some wi => wi_thresh wi | None => 0 end.
Definition within (c t : Z) : Prop := - 2 ^ 31 < t - c < 2 ^ 31.
Definition q_sorted (Q : list nat) : Prop := StronglySorted (fun a b => thr a <= thr b) Q.

Lemma queue_thr Q T h w x : inv Q T h -> h !! w = Some x -> thresh x = u32 (thr w) /\ exists wi, info !! w = Some wi /\ thr w = wi_thresh wi.
Proof.
  intros I Hx. destruct (vi_ok _ _ _ _ _ _ _ _ _ I w x Hx) as (_ & _ & wi & Hi & _ & Ht & _). unfold thr. rewrite Hi. eauto.
Qed.
Lemma inv_heap Q T h w : inv Q T h -> w ∈ (Q ++ T.*2 ++ D) ++ C -> exists x, h !! w = Some x.
Proof. intros I Hw. by apply (vi_dom _ _ _ _ _ _ _ _ _ I) in Hw as [x ?]; exists x. Qed.

Lemma within_s32 c t : within c t -> s32 (u32 t - u32 c) = t - c.
Proof. unfold within. change (2 ^ 31) with 2147483648. intros. apply s32_sub. change (2 ^ 31) with 2147483648. lia. Qed.

Lemma wp_remove_completed c Q l s (K : list nat * list (list nat) -> nvhost_intr_syncpt -> Prop) :
  inv Q (handler_list l ++ P) (waiters s) -> c <= V -> (forall w, w ∈ Q -> within c (thr w)) -> q_sorted Q ->
  length l = 6%nat -> submit_last (waiters s) l ->
  (forall Q' h l' pre, inv Q' (handler_list l' ++ P) h -> length l' = 6%nat -> submit_last h l' ->
     Q = pre.*2 ++ Q' -> handler_list l' ≡ₚ pre ++ handler_list l -> (forall w, w ∈ pre.*2 -> thr w <= c) ->
     (forall w, w ∈ Q' -> c < thr w) -> K (Q', l') (set_waiters h s)) ->
  wp (remove_completed_waiters Q (u32 c) time l) K s.
Proof.
  revert l s. induction Q as [|w Q IH]; intros l s I Hc Hw Hsort Hl Hs HK; cbn [remove_completed_waiters].
  { wp_simpl. replace s with (set_waiters (waiters s) s) by by destruct s.
    apply (HK [] (waiters s) l []); try done; intros w Hin; by apply not_elem_of_nil in Hin. }
  destruct (inv_heap _ _ _ w I) as [x Hx]; [mem; auto|].
  destruct (queue_thr _ _ _ w x I Hx) as (Ht & wi & Hi & Hthr).
  wp_simpl. apply (wp_waiter Hx). rewrite Ht, within_s32 by (apply Hw; by left).
  inversion_clear Hsort as [|? ? Hsort' Hfirst].
  destruct (Z.ltb_spec 0 (thr w - c)).
  - wp_simpl. replace s with (set_waiters (waiters s) s) by by destruct s. apply (HK (w :: Q) (waiters s) l []); try done.
    + intros v Hin. by apply not_elem_of_nil in Hin.
    + intros v [->|Hv]%elem_of_cons; [lia|]. rewrite list.Forall_forall in Hfirst. specialize (Hfirst v Hv). lia.
  - wp_simpl. eapply (wp_complete_waiter s w Q x wi); try done; [lia|]. intros h l1 I1 Hl1 Hs1 HP.
    apply (IH l1 (set_waiters h s)); try done; [intros v Hv; apply Hw; by right|].
    intros Q' h' l' pre I' Hl' Hs' HQ' HP' Hpre Hgt. rewrite HP in HP'.
    change (set_waiters h' (set_waiters h s)) with (set_waiters h' s).
    apply (HK Q' h' l' ((action_nr (action x), w) :: pre)); try done.
    + cbn. by rewrite HQ'.
    + rewrite HP'. cbn. by rewrite Permutation_middle.
    + intros v. cbn. intros [->|Hv]%elem_of_cons; [lia|auto].
Qed.

(** ** The part of process_wait_list under the lock *)

Definition low_ok (s : nvhost_intr_syncpt) : Prop :=
  length (low_prio_handlers s) = 2%nat /\
  submit_last (waiters s) (replicate NVHOST_INTR_HIGH_PRIO_COUNT [] ++ low_prio_handlers s).

(** What process_locked leaves: [l] to run now. *)
Record processed (c : Z) (s s' : nvhost_intr_syncpt) (l : list (nat * nat)) (low : bool) : Prop := {
  pr_inv : inv (wait_head s') (low_list s' ++ l ++ P) (waiters s');
  pr_low : low_ok s';
  pr_pre : exists pre, wait_head s = pre.*2 ++ wait_head s' /\ low_list s' ++ l ≡ₚ pre ++ low_list s;
  pr_gt : forall w, w ∈ wait_head s' -> c < thr w;
  pr_flag : low = negb (bool_decide (low_list s' = []));
  pr_int : match wait_head s' with
           | [] => int_enabled s' = false
           | w :: _ => int_enabled s' = true /\ int_thresh s' = u32 (thr w)
           end;
  pr_rest : sp s' = sp s /\ work s' = work s /\ handled s' = handled s /\ warned s' = warned s /\
            host_busy s' = host_busy s /\ host_busy_err s' = host_busy_err s /\ unpowered s' = unpowered s }.

Lemma wp_process_locked c s (K : list (nat * nat) * bool -> nvhost_intr_syncpt -> Prop) :
  time = sp_isr_recv s -> inv (wait_head s) (low_list s ++ P) (waiters s) -> low_ok s -> c <= V ->
  (forall w, w ∈ wait_head s -> within c (thr w)) -> q_sorted (wait_head s) ->
  (forall l low s', processed c s s' l low -> K (l, low) s') ->
  wp (process_locked (u32 c)) K s.
Proof.
  intros Et I [Hlen Hsub] Hc Hw Hsort HK. unfold process_locked. wp_simpl. rewrite <- Et.
  eapply (wp_remove_completed c); try done.
  { rewrite length_app, length_replicate, Hlen. done. }
  intros Q' h l' pre I' Hl' Hs' HQ HP Hpre Hgt. wp_simpl.
  assert (handler_list l' = handler_list (take 4 l') ++ handler_list (replicate 4 [] ++ drop 4 l')) as Hsplit
    by (apply handler_list_split; lia).
  assert (length (take 4 l') = 4%nat) as Htake by (rewrite length_take; lia).
  set (s2 := set_low_prio (drop 4 l') (set_wait_head Q' (set_waiters h s))).
  assert (wp (match Q' with [] => t20_intr_disable_syncpt_intr | head :: _ => reset_threshold_interrupt head end)
    (fun _ s1 => s1 = set_int (int_thresh s1) (int_enabled s1) (set_wait_head Q' (set_waiters h s)) /\
       match Q' with [] => int_enabled s1 = false | w :: _ => int_enabled s1 = true /\ int_thresh s1 = u32 (thr w) end)
    (set_wait_head Q' (set_waiters h s))) as Hint.
  { destruct Q' as [|w Q']; [done|]. destruct (inv_heap _ _ _ w I') as [x Hx]; [mem; auto|].
    unfold reset_threshold_interrupt. wp_simpl. eapply wp_waiter; [exact Hx|].
    unfold t20_intr_set_syncpt_threshold, t20_intr_enable_syncpt_intr. wp_simpl. split; [done|]. split; [done|]. cbn.
    by destruct (queue_thr _ _ _ w x I' Hx) as [-> _]. }
  eapply wp_mono; [exact Hint|]. cbn beta. intros _ s1 [E1 Hi]. wp_simpl.
  assert (low_list (set_low_prio (drop 4 l') s1) = handler_list (replicate 4 [] ++ drop 4 l')) as Hlow by done.
  rewrite E1 in Hlow |- *. apply HK. change NVHOST_INTR_HIGH_PRIO_COUNT with 4%nat. split; try done.
  - eapply vinv_perm; [done| |done|done|exact I']. rewrite Hsplit. cbn [wait_head set_low_prio set_int].
    rewrite Hlow. rewrite (Permutation_app_comm (handler_list (take 4 l'))). by rewrite app_assoc.
  - split; [cbn; rewrite length_drop; lia|]. cbn. intros dest prev Hd Hlast. apply (Hs' dest prev); [|done].
    change (drop 4 l' !! 0%nat = Some dest) in Hd. by rewrite lookup_drop in Hd.
  - exists pre. split; [done|]. rewrite Hlow, Permutation_app_comm. rewrite <- Hsplit. exact HP.
  - do 2 f_equal. apply bool_decide_ext. rewrite low_list_nil. done.
Qed.
End complete.


(** ** Handlers and references *)

(** The state but for the waiters, what handlers have done, and the host's references. *)
Definition outer (s : nvhost_intr_syncpt) :=
  (wait_head s, low_prio_handlers s, sp_isr_recv s, work s, (int_thresh s, int_enabled s, sp s), (host_busy_err s, warned s, unpowered s)).

Lemma wp_run_handler Q T D C V info canc i w s (K : unit -> nvhost_intr_syncpt -> Prop) :
  vinv Q ((i, w) :: T) D C (waiters s) V (handled s) info canc ->
  (forall s', vinv Q T (w :: D) C (waiters s') V (handled s') info canc -> outer s' = outer s ->
     (forall v, v <> w -> waiters s' !! v = waiters s !! v) -> K tt s') ->
  wp (run_handler (i, w)) K s.
Proof.
  intros I HK. destruct (proj1 (vi_dom _ _ _ _ _ _ _ _ _ I w)) as [x Hx]; [cbn; mem; auto|].
  destruct (vinv_place _ _ _ _ _ _ _ _ _ w x (ToRun i) I Hx ltac:(by left)) as (wi & _ & _ & _ & -> & _ & _ & _ & Hs).
  assert (forall h' log' s', runs (waiters s) (handled s) w x h' log' -> waiters s' = h' -> handled s' = log' ->
    outer s' = outer s -> K tt s') as Hfin.
  { intros h' log' s' Hr <- <- Ho. apply HK; [by eapply vinv_run|done|]. intros v Hv.
    inversion Hr as [|? ? ? E|? ? E]; [done|..]; by rewrite lookup_insert_ne. }
  unfold run_handler. wp_simpl. apply (wp_waiter Hx). destruct (Z.eqb_spec (wstate x) WLS_CLEANUP) as [Hc|Hc].
  { wp_simpl. by eapply Hfin; [apply runs_cleanup|..]. }
  assert (wstate x = WLS_REMOVED) as Hr by tauto. clear Hs Hc.
  assert (forall d s' K', waiters s' !! w = Some (set_wdata d x) -> warned s' = warned s ->
    K' tt (set_waiters (<[w := set_wstate WLS_HANDLED (set_wdata d x)]> (waiters s')) s') -> wp (xchg_handled w) K' s') as Hx'.
  { intros d s' K' Hl Hwarn HK'. unfold xchg_handled. wp_simpl. apply (wp_waiter Hl). cbn. rewrite Hr. cbn. wp_simpl.
    by apply (wp_upd_waiter Hl). }
  assert (forall a K', action x = a -> (forall s', runs (waiters s) (handled s) w x (waiters s') (handled s') -> outer s' = outer s -> K' tt s') ->
    wp (xchg_handled w;; log_event w a) K' s) as Hwake.
  { intros a K' <- HK'. wp_simpl. apply (Hx' (wdata x)); [by rewrite Hx; destruct x|done|]. wp_simpl. unfold log_event. wp_simpl.
    eapply wp_waiter; [apply lookup_insert_eq|]. wp_simpl. apply HK'; [|done]. cbn. by apply runs_event. }
  assert (forall a K', action x = a -> (forall s', waiters s' = waiters s -> handled s' = Event w (action x) (wdata x) (wcount x) (isr_recv x) :: handled s ->
    outer s' = outer s -> K' tt s') -> wp (log_event w a) K' s) as Hlog.
  { intros a K' <- HK'. unfold log_event. wp_simpl. apply (wp_waiter Hx). wp_simpl. by apply HK'. }
  assert (forall s', waiters s' = waiters s -> handled s' = Event w (action x) (wdata x) (wcount x) (isr_recv x) :: handled s ->
    outer s' = outer s -> wp (xchg_handled w) K s') as Hend.
  { intros s' E1 E2 E3. apply (Hx' (wdata x)); [by rewrite E1, Hx; destruct x|by injection E3|].
    eapply Hfin; [by apply (runs_event _ _ _ _ (wdata x))|cbn; by rewrite E1|done|done]. }
  assert (forall a, action x = a -> a = FAST_NOTIFY \/ a = NOTIFY -> wp (action_notify a w) (fun _ s' => wp (xchg_handled w) K s') s) as Hnotify.
  { intros a Ha Han. unfold action_notify. wp_simpl. apply Hlog; [done|]. intros s' E1 E2 E3. wp_simpl.
    eapply wp_waiter; [by rewrite E1|]. unfold module_idle_mult. wp_simpl.
    eapply wp_upd_waiter; [cbn; by rewrite E1|]. apply (Hx' 0); [apply lookup_insert_eq|by injection E3|].
    eapply Hfin; [by apply (runs_event _ _ _ _ 0)|cbn; by rewrite E1, insert_insert_eq|done|done]. }
  destruct (action x) eqn:Ea; cbn [action_nr action_handler is_wakeup Nat.eqb orb] in *; wp_simpl.
  - unfold action_signal_sync_pt. apply Hlog; [done|]. intros s' ? ? ?. by apply Hend.
  - apply (Hwake WAKEUP); [done|]. intros s' Hr' Ho. rewrite wp_ret. by eapply Hfin.
  - apply (Hwake WAKEUP_INTERRUPTIBLE); [done|]. intros s' Hr' Ho. rewrite wp_ret. by eapply Hfin.
  - apply Hnotify; [done|by left].
  - unfold action_submit_complete. wp_simpl. apply (wp_waiter Hx). destruct (Z.eqb_spec (wdata x) 0) as [Ez|].
    + rewrite wp_ret. apply (Hx' (wdata x)); [by rewrite Hx; destruct x|done|].
      eapply Hfin; [by apply runs_unmapped| |done|done]. cbn. by destruct x.
    + apply Hlog; [done|]. intros s' ? ? ?. by apply Hend.
  - apply Hnotify; [done|by right].
Qed.

Lemma wp_waiter_put w s x (K : unit -> nvhost_intr_syncpt -> Prop) : waiters s !! w = Some x ->
  (forall s', waiters s' = put_heap (waiters s) w x -> handled s' = handled s -> outer s' = outer s -> K tt s') ->
  wp (kref_put w) K s.
Proof.
  intros Hx HK. unfold kref_put. wp_simpl. apply (wp_upd_waiter Hx). wp_simpl. eapply wp_waiter; [apply lookup_insert_eq|].
  cbn [refcount set_refcount]. unfold put_heap in HK. destruct (refcount x - 1 =? 0).
  - unfold waiter_release, module_idle_mult. wp_simpl. apply HK; [|done|done]. cbn. by rewrite delete_insert_eq.
  - wp_simpl. by apply HK.
Qed.

Lemma wp_try_cancel Q T D C V info canc w s (K : bool -> nvhost_intr_syncpt -> Prop) :
  vinv Q T D C (waiters s) V (handled s) info canc -> w ∈ C ->
  (forall s', vinv Q T D C (waiters s') V (handled s') info ({[ w ]} ∪ canc) -> handled s' = handled s -> outer s' = outer s ->
     (exists x, waiters s !! w = Some x /\ wstate x = WLS_PENDING) -> (forall v, v <> w -> waiters s' !! v = waiters s !! v) -> K true s') ->
  (forall x, waiters s !! w = Some x -> wstate x <> WLS_PENDING -> K (negb (wstate x =? WLS_REMOVED)) s) ->
  wp (try_cancel w) K s.
Proof.
  intros I Hw H1 H2. destruct (proj1 (vi_dom _ _ _ _ _ _ _ _ _ I w)) as [x Hx]; [mem; auto|].
  unfold try_cancel. wp_simpl. apply (wp_waiter Hx). wp_simpl. destruct (Z.eqb_spec (wstate x) WLS_PENDING) as [E|E].
  - apply (wp_upd_waiter Hx). wp_simpl. rewrite E. apply H1; [by apply vinv_cancel|done|done|eauto|]. intros v Hv. cbn. by rewrite lookup_insert_ne.
  - wp_simpl. by apply H2.
Qed.

(** ** A new waiter *)

Lemma insert_waiter_spec (T : nat -> Z) (h : gmap nat nvhost_waitlist) t w R tail :
  (forall p, p ∈ R -> exists x, h !! p = Some x /\ thresh x = u32 (T p) /\ within t (T p)) ->
  T w = t -> StronglySorted (fun a b => T a <= T b) (rev R ++ tail) -> (forall v, v ∈ tail -> t < T v) ->
  exists head q, insert_waiter h (u32 t) w R tail = Some (head, q) /\ q ≡ₚ w :: rev R ++ tail /\
    StronglySorted (fun a b => T a <= T b) q /\
    (if head : bool then q = w :: rev R ++ tail else exists v r r', rev R ++ tail = v :: r /\ q = v :: r').
Proof.
  intros HR Ht. revert tail. induction R as [|p R IH]; intros tail Hs Htail; cbn [insert_waiter].
  - exists true, (w :: tail). split; [done|]. split; [done|]. split; [|done]. apply SSorted_cons; [done|].
    apply list.Forall_forall. intros v Hv. specialize (Htail v Hv). lia.
  - destruct (HR p) as (x & Hx & Hth & Hw); [by left|]. rewrite Hx. cbn [mbind option_bind]. rewrite Hth, (within_s32 t) by done.
    cbn [rev] in *. rewrite <- app_assoc in Hs |- *. cbn [app] in *. destruct (Z.leb_spec (T p - t) 0).
    + exists false. eexists. split; [done|]. split; [by rewrite <- Permutation_middle, <- Permutation_middle, Permutation_swap, Permutation_middle|].
      apply StronglySorted_app in Hs as (H1 & H2 & H3). split.
      * apply StronglySorted_app. split; [|split; [done|]].
        -- intros a b Ha [->|[->|Hb]%elem_of_cons]%elem_of_cons; [apply H1; [done|by left]| |apply H1; [done|by right]].
           specialize (H1 a p Ha ltac:(by left)). cbn in H1. lia.
        -- apply StronglySorted_cons in H3 as [H3 H4]. rewrite list.Forall_forall in H3. repeat apply SSorted_cons; [done|..];
             apply list.Forall_forall; intros v; [|intros [->|Hv]%elem_of_cons; [lia|auto]]. intros Hv. specialize (Htail v Hv). lia.
      * destruct (rev R) as [|v r]; cbn; eauto 6.
    + destruct (IH (fun q Hq => HR q ltac:(by right)) (p :: tail)) as (head & q & E & HP & Hq & Hh); [done|..].
      * intros v [->|Hv]%elem_of_cons; [lia|auto].
      * eauto 8.
Qed.

(** What a client does: a waiter of its own, or a notifier. *)
Definition client_add (w : nat) (t : Z) (a : nvhost_intr_action) (d : Z) (ref : bool) : I Z :=
  match a with
  | FAST_NOTIFY => nvhost_intr_register_fast_notifier (u32 t) true (Some w) d
  | NOTIFY => nvhost_intr_register_notifier (u32 t) true (Some w) d
  | _ => x ← nvhost_intr_alloc_waiter (Some w); nvhost_intr_add_action (u32 t) a d x ref
  end.
(** References are asked for by those that sleep; a notifier is in memory. *)
Definition req_ok (a : nvhost_intr_action) (d : Z) (ref : bool) : Prop :=
  (ref = true -> wakes a) /\ (a = FAST_NOTIFY \/ a = NOTIFY -> d <> 0).

(** The interrupt after a waiter is queued: a new head is the threshold, and the first one
    enables it. *)
Record added (w : nat) (t : Z) (a : nvhost_intr_action) (d : Z) (ref : bool) (info : gmap nat winfo)
    (s s' : nvhost_intr_syncpt) : Prop := {
  ad_waiters : waiters s' = <[w := Waiter (if ref then 2 else 1) (u32 t) a WLS_PENDING 0 d 1]> (waiters s);
  ad_queue : wait_head s' ≡ₚ w :: wait_head s;
  ad_sorted : q_sorted info (wait_head s');
  ad_int : (hd_error (wait_head s') = Some w /\ int_thresh s' = u32 t /\ (int_enabled s' = true \/ int_enabled s' = int_enabled s /\ wait_head s <> []))
    \/ (hd_error (wait_head s') = hd_error (wait_head s) /\ wait_head s <> [] /\ int_thresh s' = int_thresh s /\ int_enabled s' = int_enabled s);
  ad_rest : sp s' = sp s /\ work s' = work s /\ handled s' = handled s /\ warned s' = warned s /\
            host_busy_err s' = host_busy_err s /\ low_prio_handlers s' = low_prio_handlers s /\ unpowered s' = unpowered s }.

Section add.
Variables (info : gmap nat winfo) (w : nat) (t : Z) (a : nvhost_intr_action) (d : Z) (ref : bool).
Hypothesis (Hthr : thr info w = t).

Lemma wp_add_action s (K : Z -> nvhost_intr_syncpt -> Prop) x :
  host_busy_err s = 0 -> waiters s !! w = Some x -> isr_recv x = 0 -> w ∉ wait_head s -> q_sorted info (wait_head s) ->
  (forall p, p ∈ wait_head s -> exists x, waiters s !! p = Some x /\ thresh x = u32 (thr info p) /\ within t (thr info p)) ->
  (forall s', added w t a d ref info s s' -> K 0 s') -> wp (nvhost_intr_add_action (u32 t) a d (Some w) ref) K s.
Proof.
  intros Hb Hx Hr Hw Hs HQ HK. unfold nvhost_intr_add_action, module_busy. wp_simpl. rewrite Hb. cbn [Z.eqb]. wp_simpl. cbn [Z.eqb negb]. wp_simpl.
  eapply wp_upd_waiter; [exact Hx|]. wp_simpl. unfold add_waiter_to_queue. wp_simpl.
  eapply wp_waiter; [apply lookup_insert_eq|]. wp_simpl. cbn [waiters set_waiters set_host_busy thresh wait_head].
  destruct (insert_waiter_spec (thr info) (<[w := Waiter (if ref then 2 else 1) (u32 t) a WLS_PENDING (isr_recv x) d 1]> (waiters s)) t w (rev (wait_head s)) [])
    as (head & q & E & HP & Hq & Hh).
  { intros p Hp. rewrite lookup_insert_ne; [apply HQ|intros ->; apply Hw]; revert Hp; by rewrite <- Permutation_rev. }
  { done. }
  { by rewrite rev_involutive, app_nil_r. }
  { intros v Hv. by apply not_elem_of_nil in Hv. }
  rewrite rev_involutive, app_nil_r in HP, Hh. eapply wp_checked; [exact E|]. wp_simpl.
  assert (forall s1, waiters s1 = <[w := Waiter (if ref then 2 else 1) (u32 t) a WLS_PENDING 0 d 1]> (waiters s) ->
    wait_head s1 = q -> sp s1 = sp s -> work s1 = work s -> handled s1 = handled s -> warned s1 = warned s ->
    host_busy_err s1 = host_busy_err s -> low_prio_handlers s1 = low_prio_handlers s -> unpowered s1 = unpowered s ->
    ((hd_error q = Some w /\ int_thresh s1 = u32 t /\ (int_enabled s1 = true \/ int_enabled s1 = int_enabled s /\ wait_head s <> []))
    \/ (hd_error q = hd_error (wait_head s) /\ wait_head s <> [] /\ int_thresh s1 = int_thresh s /\ int_enabled s1 = int_enabled s)) -> K 0 s1) as Hfin.
  { intros s1 E1 E2 E3 E4 E5 E6 E7 E8 E9 E10. apply HK. by split; rewrite ?E2. }
  clear HK. rewrite Hr. destruct head.
  - subst q. unfold t20_intr_set_syncpt_threshold, t20_intr_enable_syncpt_intr. wp_simpl. case_bool_decide as He; wp_simpl.
    + apply Hfin; try done. left. cbn. auto.
    + apply Hfin; try done. left. cbn. auto.
  - wp_simpl. apply Hfin; try done. right. destruct Hh as (v & r & r' & -> & ->). done.
Qed.

Lemma wp_client_add s (K : Z -> nvhost_intr_syncpt -> Prop) :
  host_busy_err s = 0 -> w ∉ wait_head s -> q_sorted info (wait_head s) -> req_ok a d ref -> (a = FAST_NOTIFY \/ a = NOTIFY -> ref = false) ->
  (forall p, p ∈ wait_head s -> exists x, waiters s !! p = Some x /\ thresh x = u32 (thr info p) /\ within t (thr info p)) ->
  (forall s', added w t a d ref info s s' -> K 0 s') -> wp (client_add w t a d ref) K s.
Proof.
  intros Hb Hw Hs [_ Hd] Href HQ HK.
  assert (forall s1, host_busy_err s1 = 0 -> wait_head s1 = wait_head s -> waiters s1 = <[w := Waiter 0 0 SIGNAL_SYNC_PT 0 0 0 0]> (waiters s) ->
    outer s1 = outer s -> handled s1 = handled s -> wp (nvhost_intr_add_action (u32 t) a d (Some w) ref) K s1) as Hadd.
  { intros s1 Hb1 Eq Ew Eo Eh. eapply wp_add_action; [done|by rewrite Ew; apply lookup_insert_eq|done|by rewrite Eq|by rewrite Eq| |].
    - rewrite Eq, Ew. intros p Hp. rewrite lookup_insert_ne; [by apply HQ|]. by intros ->.
    - injection Eo as X1 X2 X3 X4 X5 X6 X7 X8 X9 X10. intros s' [H1 H2 H3 H4 (H5 & H6 & H7 & H8 & H9 & H10 & H11)]. apply HK. split.
      + by rewrite H1, Ew, insert_insert_eq.
      + by rewrite H2, Eq.
      + done.
      + rewrite Eq in H4. destruct H4 as [(? & ? & [|[? ?]])|(? & ? & ? & ?)]; [left; auto|left; split; [done|split; [done|right; split; [congruence|done]]]|].
        right. repeat (split; [congruence|]). congruence.
      + repeat split; congruence. }
  assert (a = FAST_NOTIFY \/ a = NOTIFY -> wp (__nvhost_intr_register_notifier (u32 t) a true (Some w) d) K s) as Hnot.
  { intros Ha. unfold __nvhost_intr_register_notifier, nvhost_intr_alloc_waiter. cbn [negb]. wp_simpl.
    destruct (Z.eqb_spec d 0) as [|_]; [by apply Hd in Ha|]. unfold module_busy. wp_simpl. cbn [host_busy_err set_waiters]. rewrite Hb.
    cbn [Z.eqb]. wp_simpl. cbn [Z.eqb negb]. rewrite <- (Href Ha). by apply Hadd. }
  destruct a; try (apply Hnot; auto); unfold client_add, nvhost_intr_alloc_waiter; wp_simpl; by apply Hadd.
Qed.

(** When the host cannot be powered: at most a waiter of the caller's own is left, that nobody
    else knows of. *)
Definition unadded (s s' : nvhost_intr_syncpt) : Prop :=
  s' = s \/ s' = set_waiters (<[w := Waiter 0 0 SIGNAL_SYNC_PT 0 0 0 0]> (waiters s)) s.
Lemma wp_client_unadded s (K : Z -> nvhost_intr_syncpt -> Prop) :
  host_busy_err s <> 0 -> waiters s !! w = None -> (a = FAST_NOTIFY \/ a = NOTIFY -> d <> 0) ->
  (forall s', unadded s s' -> K (host_busy_err s) s') -> wp (client_add w t a d ref) K s.
Proof.
  intros Hb Hw Hd HK. apply Z.eqb_neq in Hb as Hb'.
  assert (a = FAST_NOTIFY \/ a = NOTIFY -> wp (__nvhost_intr_register_notifier (u32 t) a true (Some w) d) K s) as Hnot.
  { intros Ha. unfold __nvhost_intr_register_notifier, nvhost_intr_alloc_waiter. cbn [negb]. wp_simpl.
    destruct (Z.eqb_spec d 0) as [|_]; [by apply Hd in Ha|]. unfold module_busy. wp_simpl. cbn [host_busy_err set_waiters]. rewrite Hb'.
    wp_simpl. rewrite Hb'. cbn [negb]. unfold kfree_waiter. wp_simpl. eapply wp_waiter; [apply lookup_insert_eq|]. wp_simpl.
    apply HK. left. cbn. rewrite delete_insert_eq, delete_id by done. by destruct s. }
  destruct a; try (apply Hnot; auto); unfold client_add, nvhost_intr_alloc_waiter, nvhost_intr_add_action, module_busy; wp_simpl;
    cbn [host_busy_err set_waiters]; rewrite Hb'; wp_simpl; rewrite Hb'; cbn [negb]; wp_simpl; apply HK; by right.
Qed.
End add.
