(* ===== verification/IntrWorld.v ===== *)
(** * A sync point and everybody who waits for it

    The counter goes on while clients add waiters and drop references and the interrupt's
    thread and the worker take waiters from the queue. Each runs in steps, those of one
    interleaved with those of the others. *)

From stdpp Require Import gmap fin_sets relations sorting.
From S2P Require Import Prelude Syncpt SyncptFacts Intr IntrFacts IntrOps.

(** ** Tasks *)

(** Where a task is: in the loop that cancels its waiter, before the counter is loaded, before
    the lock is taken with what was loaded ([c] is the true value), in run_handlers before a
    waiter and before its reference is dropped ([low]: queue the worker afterwards), and
    before its own reference is dropped. *)
Inductive stage :=
  | SCancel | SRead | SLock (v c : Z) | SRun (l : list (nat * nat)) (low : bool)
  | SPut (w : nat) (l : list (nat * nat)) (low : bool) | SEnd.

(** [a_ref]: the reference that nvhost_intr_put_ref drops; [a_busy]: the interrupt's thread,
    which keeps the host powered. *)
Record agent := Agent { a_ref : option nat; a_busy : bool; a_stage : stage }.
Definition at_stage (a : agent) (x : stage) : agent := Agent (a_ref a) (a_busy a) x.

Definition agent_step (V : Z) (a : agent) : I (option agent) :=
  match a_stage a with
  | SCancel =>
      match a_ref a with
      | Some w => ok ← try_cancel w; mret (Some (at_stage a (if ok : bool then SRead else SCancel)))
      | None => BUG
      end
  | SRead => v ← on_sp t20_syncpt_update_min; mret (Some (at_stage a (SLock v V)))
  | SLock v _ => '(l, low) ← process_locked v; mret (Some (at_stage a (SRun l low)))
  | SRun (iw :: l) low => run_handler iw;; mret (Some (at_stage a (SPut iw.2 l low)))
  | SRun [] low => queue_low_prio_work low;; mret (Some (at_stage a SEnd))
  | SPut w l low => kref_put w;; mret (Some (at_stage a (SRun l low)))
  | SEnd =>
      (match a_ref a with Some w => kref_put w | None => mret tt end);;
      (if a_busy a then module_idle_mult 1 else mret tt);;
      mret None
  end.

(** The interrupt's thread as far as the test of what nvhost_module_busy returns, and the worker up to its handlers. *)
Definition isr_start (now : Z) : I Z :=
  modify (set_sp_isr_recv now);;
  t20_intr_syncpt_intr_ack true;;
  thresh_fn_busy.
Definition work_start : I (list (nat * nat)) := modify (set_work false);; low_prio_cut.

(** ** The world *)

(** [held]: the references of clients that are not being dropped; [V], [mx]: the true values
    of the counter and of the maximum; [info]: what was asked for; [canc]: the waiters that
    were cancelled in time. *)
Record world := World {
  st : nvhost_intr_syncpt; agents : list agent; held : list nat; V : Z; mx : Z;
  info : gmap nat winfo; canc : gset nat }.

Definition pre (a : agent) : list (nat * nat) :=
  match a_stage a with
  | SRun l _ | SPut _ l _ => l
  | _ => []
  end.
Definition post (a : agent) : list nat := match a_stage a with SPut w _ _ => [w] | _ => [] end.
Definition clients (ags : list agent) : list nat := omap a_ref ags.

(** The thresholds in the queue are within half the range of the counter and of the values
    that tasks have loaded; the increments that are expected are within it too. *)
Definition windowed (W : world) : Prop :=
  (forall w, w ∈ wait_head (st W) ->
     within (V W) (thr (info W) w) /\
     (forall a v c, a ∈ agents W -> a_stage a = SLock v c -> within c (thr (info W) w))) /\
  mx W - V W < 2 ^ 31.

Definition tracked (W : world) : bool := negb (client_managed (sp (st W))).

(** What a task's step adds to the cancelled waiters. *)
Definition cancels (a : agent) (s : nvhost_intr_syncpt) : gset nat :=
  match a_stage a, a_ref a with
  | SCancel, Some w =>
      match waiters s !! w with
      | Some x => if wstate x =? WLS_PENDING then {[ w ]} else ∅
      | None => ∅
      end
  | _, _ => ∅
  end.

Definition hw_incr (s : nvhost_intr_syncpt) : nvhost_intr_syncpt := set_sp (set_reg (u32 (reg (sp s) + 1)) (sp s)) s.

(** The interrupt's thread goes on only if the host is powered. *)
Definition isr_agent (r : Z) : list agent := if r =? 0 then [Agent None true SRead] else [].

(** A step of a task that has work to do. *)
Inductive work_step : world -> world -> Prop :=
  | step_isr W now r s' : raised (st W) = true -> isr_start now (st W) = Some (r, s') ->
      work_step W (World s' (agents W ++ isr_agent r) (held W) (V W) (mx W) (info W) (canc W))
  | step_work W l s' : work (st W) = true -> work_start (st W) = Some (l, s') ->
      work_step W (World s' (agents W ++ [Agent None false (SRun l false)]) (held W) (V W) (mx W) (info W) (canc W))
  | step_agent W l1 a l2 oa s' : agents W = l1 ++ a :: l2 -> agent_step (V W) a (st W) = Some (oa, s') ->
      work_step W (World s' (l1 ++ option_list oa ++ l2) (held W) (V W) (mx W) (info W) (cancels a (st W) ∪ canc W)).

(** A waiter that a client may add: its address is not used again, and its threshold is
    within half the range of those in the queue. *)
Definition can_add (W : world) (w : nat) (t : Z) (a : nvhost_intr_action) (d : Z) (ref : bool) : Prop :=
  info W !! w = None /\ req_ok a d ref /\ forall p, p ∈ wait_head (st W) -> within t (thr (info W) p).

(** What comes from outside: the counter, the maximum, a client that loads the counter, a new
    waiter, a reference that a client drops, and that the host can be powered or not: [e] is
    what nvhost_module_busy returns from now on. A waiter that could not be added because of
    that is its client's, and is not in the world. *)
Inductive env_step : world -> world -> Prop :=
  | step_incr W : (tracked W = true -> V W < mx W) ->
      env_step W (World (hw_incr (st W)) (agents W) (held W) (V W + 1) (mx W) (info W) (canc W))
  | step_incr_max W v s' : on_sp (nvhost_syncpt_incr_max 1) (st W) = Some (v, s') ->
      env_step W (World s' (agents W) (held W) (V W) (mx W + 1) (info W) (canc W))
  | step_read W v s' : on_sp t20_syncpt_update_min (st W) = Some (v, s') ->
      env_step W (World s' (agents W) (held W) (V W) (mx W) (info W) (canc W))
  | step_add W w t a d ref s' : can_add W w t a d ref -> client_add w t a d ref (st W) = Some (0, s') ->
      env_step W (World s' (agents W) (if ref then w :: held W else held W) (V W) (mx W) (<[w := WInfo t a d]> (info W)) (canc W))
  | step_put W h1 w h2 : held W = h1 ++ w :: h2 ->
      env_step W (World (st W) (agents W ++ [Agent (Some w) false SCancel]) (h1 ++ h2) (V W) (mx W) (info W) (canc W))
  | step_power W e :
      env_step W (World (set_host_busy_err e (st W)) (agents W) (held W) (V W) (mx W) (info W) (canc W)).

Inductive wstep : world -> world -> Prop :=
  | wstep_work W W' : work_step W W' -> windowed W' -> wstep W W'
  | wstep_env W W' : env_step W W' -> windowed W' -> wstep W W'.

(** ** The invariant *)

Definition agent_ok (V : Z) (a : agent) : Prop :=
  match a_stage a with
  | SCancel => a_ref a <> None
  | SLock v c => v = u32 c /\ c <= V
  | _ => True
  end.
(** A task that will see to the interrupt, and one that will queue the worker. *)
Definition rearms (a : agent) : Prop := a_stage a = SRead \/ exists v c, a_stage a = SLock v c.
Definition requeues (a : agent) : Prop :=
  match a_stage a with
  | SRun _ low | SPut _ _ low => low = true
  | _ => False
  end.

Record winv (W : world) : Prop := {
  w_inv : vinv (wait_head (st W)) (low_list (st W) ++ concat (map pre (agents W))) (concat (map post (agents W)))
            (held W ++ clients (agents W)) (waiters (st W)) (V W) (handled (st W)) (info W) (canc W);
  w_low : low_ok (st W);
  w_sorted : q_sorted (info W) (wait_head (st W));
  w_sp : reg (sp (st W)) = u32 (V W) /\ (tracked W = true -> max_val (sp (st W)) = u32 (mx W) /\ V W <= mx W);
  w_armed : wait_head (st W) <> [] -> unpowered (st W) = true \/ int_enabled (st W) = true \/ exists a, a ∈ agents W /\ rearms a;
  w_thresh : int_enabled (st W) = true -> exists w q, wait_head (st W) = w :: q /\ int_thresh (st W) = u32 (thr (info W) w);
  w_agents : Forall (agent_ok (V W)) (agents W);
  w_work : low_list (st W) <> [] -> work (st W) = true \/ exists a, a ∈ agents W /\ requeues a;
  w_fine : warned (st W) = false }.

Lemma wp_run {S A} (m : M S A) Q s x s' : wp m Q s -> m s = Some (x, s') -> Q x s'.
Proof. unfold wp. intros H E. by rewrite E in H. Qed.

(** ** Steps of a task *)

Lemma low_list_ge s i w : (i, w) ∈ low_list s -> (4 <= i)%nat.
Proof.
  unfold low_list. rewrite handler_list_app. change (length (replicate _ _)) with 4%nat. cbn [handler_list replicate app].
  change (handler_list (replicate NVHOST_INTR_HIGH_PRIO_COUNT [])) with (@nil (nat * nat)). cbn [app].
  generalize (low_prio_handlers s) as L, 4%nat as k. intros L. induction L as [|l L IH]; intros k; cbn; [by intros ?%not_elem_of_nil|].
  assert (imap ((fun i l => map (pair (k + i)%nat) l) ∘ S) L = imap (fun i l => map (pair (S k + i)%nat) l) L) as ->.
  { apply imap_ext. intros j x _. cbn. by rewrite Nat.add_succ_r. }
  intros [(v & [= -> ->] & _)%list_elem_of_fmap|Hi]%elem_of_app; [lia|]. apply IH in Hi. lia.
Qed.

Lemma outer_low s s' : outer s' = outer s -> low_list s' = low_list s /\ wait_head s' = wait_head s.
Proof. unfold low_list. intros E. injection E as E1 E2 E3 E4 E5 E6 E7 E8 E9 E10. by rewrite E1, E2. Qed.

(** The waiters of low priority are neither in the queue nor clients', nor to be put. *)
Lemma low_not_client T D C h V log info canc s P w i : vinv (wait_head s) (low_list s ++ P) D C h V log info canc ->
  (i, w) ∈ low_list s -> T = low_list s ++ P -> (w ∉ C) /\ (w ∉ D) /\ (w ∉ P.*2).
Proof.
  intros I Hi ->. pose proof (vi_own _ _ _ _ _ _ _ _ _ I) as O. apply own_nodup in O as (_ & HT & _ & O).
  assert (w ∈ (low_list s).*2) as Hl by by eapply torun_ids.
  split; [|split].
  - intros HC. destruct (proj1 (vi_dom _ _ _ _ _ _ _ _ _ I w)) as [x Hx]; [mem; auto|].
    destruct (vinv_place _ _ _ _ _ _ _ _ _ w x (ToRun i) I Hx ltac:(cbn; mem; auto)) as (_ & _ & _ & _ & Hn & _).
    destruct (vi_ok _ _ _ _ _ _ _ _ _ I w x Hx) as (_ & Hw & _). apply low_list_ge in Hi.
    destruct (Hw HC) as [E|E]; rewrite E in Hn; cbn in Hn; lia.
  - destruct (O w) as (_ & _ & O3). apply O3. rewrite fmap_app. mem. auto.
  - rewrite fmap_app in HT. apply list.NoDup_app in HT as (_ & HT & _). auto.
Qed.

Lemma low_ok_same s s' : outer s' = outer s -> low_ok s -> (forall i w, (i, w) ∈ low_list s -> waiters s' !! w = waiters s !! w) -> low_ok s'.
Proof.
  intros E [H1 H2] Hs. injection E as E1 E2 E3 E4 E5 E6 E7 E8 E9 E10. split; [congruence|]. rewrite E2. intros dest prev Hd Hl.
  destruct (H2 dest prev Hd Hl) as (y & Hy & Hys). exists y. split; [|done]. rewrite Hs with (i := 4%nat); [done|].
  unfold low_list. eapply handler_list_elem; [exact Hd|by apply last_Some_elem_of].
Qed.

Lemma concat_mid {A B} (f : A -> list B) l1 x l2 : concat (map f (l1 ++ x :: l2)) ≡ₚ f x ++ concat (map f (l1 ++ l2)).
Proof.
  rewrite !map_app, !concat_app. cbn. rewrite !app_assoc. apply Permutation_app_tail, Permutation_app_comm.
Qed.
Lemma clients_mid l1 x l2 : clients (l1 ++ x :: l2) ≡ₚ option_list (a_ref x) ++ clients (l1 ++ l2).
Proof.
  unfold clients. rewrite !omap_app. cbn. destruct (a_ref x); cbn; [by rewrite Permutation_middle|done].
Qed.

(** What a step on the waiters leaves as it is. *)
Definition steady (s0 s : nvhost_intr_syncpt) : Prop :=
  wait_head s = wait_head s0 /\ low_prio_handlers s = low_prio_handlers s0 /\ int_thresh s = int_thresh s0 /\
  int_enabled s = int_enabled s0 /\ reg (sp s) = reg (sp s0) /\ max_val (sp s) = max_val (sp s0) /\
  client_managed (sp s) = client_managed (sp s0) /\ host_busy_err s = host_busy_err s0 /\ warned s = warned s0 /\
  unpowered s = unpowered s0 /\
  (work s0 = true -> work s = true).
Lemma outer_steady s s' : outer s' = outer s -> steady s s'.
Proof. intros E. injection E as E1 E2 E3 E4 E5 E6 E7 E8 E9 E10. unfold steady. repeat (split; [congruence|]). congruence. Qed.
Lemma steady_low s s' : steady s s' -> low_list s' = low_list s.
Proof. intros (_ & E & _). unfold low_list. by rewrite E. Qed.

Section agent.
Variables (W : world) (l1 l2 : list agent) (a : agent).
Hypothesis (HW : winv W) (Ha : agents W = l1 ++ a :: l2).

Definition others_run : list (nat * nat) := concat (map pre (l1 ++ l2)).
Definition others_put : list nat := concat (map post (l1 ++ l2)).
Definition others_ref : list nat := held W ++ clients (l1 ++ l2).

Definition next (s : nvhost_intr_syncpt) (oa : option agent) : world :=
  World s (l1 ++ option_list oa ++ l2) (held W) (V W) (mx W) (info W) (cancels a (st W) ∪ canc W).

(** The lists with the task in front. *)
Lemma agent_lists oa : let ags := l1 ++ option_list oa ++ l2 in
  concat (map pre ags) ≡ₚ from_option pre [] oa ++ others_run /\
  concat (map post ags) ≡ₚ from_option post [] oa ++ others_put /\
  held W ++ clients ags ≡ₚ option_list (oa ≫= a_ref) ++ others_ref.
Proof.
  unfold others_run, others_put, others_ref. destruct oa as [b|]; cbn [from_option mbind option_bind]; [|done].
  change (option_list (Some b) ++ l2) with (b :: l2). rewrite !concat_mid, clients_mid. split; [done|]. split; [done|].
  rewrite !app_assoc. apply Permutation_app_tail, Permutation_app_comm.
Qed.
Lemma agent_inv : vinv (wait_head (st W)) (low_list (st W) ++ pre a ++ others_run) (post a ++ others_put)
  (option_list (a_ref a) ++ others_ref) (waiters (st W)) (V W) (handled (st W)) (info W) (canc W).
Proof.
  destruct (agent_lists (Some a)) as (E1 & E2 & E3). cbn in E1, E2, E3. pose proof (w_inv W HW) as I. rewrite Ha in I.
  eapply vinv_perm; [done|apply Permutation_app_head, E1|exact E2|exact E3|exact I].
Qed.
Lemma next_inv s oa : vinv (wait_head s) (low_list s ++ from_option pre [] oa ++ others_run) (from_option post [] oa ++ others_put)
  (option_list (oa ≫= a_ref) ++ others_ref) (waiters s) (V W) (handled s) (info W) (cancels a (st W) ∪ canc W) ->
  let N := next s oa in
  vinv (wait_head (st N)) (low_list (st N) ++ concat (map pre (agents N))) (concat (map post (agents N)))
            (held N ++ clients (agents N)) (waiters (st N)) (V N) (handled (st N)) (info N) (canc N).
Proof.
  destruct (agent_lists oa) as (E1 & E2 & E3). intros I N. subst N. cbn [st agents held V info canc next].
  eapply vinv_perm; [done|apply Permutation_app_head; symmetry; exact E1|symmetry; exact E2|symmetry; exact E3|exact I].
Qed.

Lemma agent_in : a ∈ agents W.
Proof. rewrite Ha. mem. auto. Qed.
Lemma next_elem oa b : b ∈ l1 ++ option_list oa ++ l2 <-> (oa = Some b \/ b ∈ l1 ++ l2).
Proof.
  destruct oa as [c|]; cbn; mem; [|split; [auto|intros [?|?]; done]]. split; [intros [|[->|]]; auto|intros [[= ->]|[]]; auto].
Qed.
Lemma next_agents oa : (forall b, oa = Some b -> agent_ok (V W) b) -> Forall (agent_ok (V W)) (l1 ++ option_list oa ++ l2).
Proof.
  intros Hb. apply list.Forall_forall. intros b [E|Hin]%next_elem; [auto|].
  pose proof (w_agents W HW) as Hall. rewrite list.Forall_forall in Hall. apply Hall. rewrite Ha. mem_in Hin. mem. tauto.
Qed.
(** Some task has a property if it has it still, or the others. *)
Lemma next_some oa (F : agent -> Prop) : (F a -> exists b, oa = Some b /\ F b) ->
  (exists b, b ∈ agents W /\ F b) -> exists b, b ∈ l1 ++ option_list oa ++ l2 /\ F b.
Proof.
  intros HF (b & Hb & Fb). rewrite Ha in Hb. mem_in Hb. destruct Hb as [Hb|[->|Hb]].
  - exists b. split; [apply next_elem; mem; auto|done].
  - destruct (HF Fb) as (c & -> & Fc). exists c. split; [apply next_elem; auto|done].
  - exists b. split; [apply next_elem; mem; auto|done].
Qed.

(** A step that leaves the lists of the sync point alone. *)
Lemma winv_local s oa : steady (st W) s ->
  vinv (wait_head (st W)) (low_list (st W) ++ from_option pre [] oa ++ others_run) (from_option post [] oa ++ others_put)
    (option_list (oa ≫= a_ref) ++ others_ref) (waiters s) (V W) (handled s) (info W) (cancels a (st W) ∪ canc W) ->
  (forall i w, (i, w) ∈ low_list (st W) -> waiters s !! w = waiters (st W) !! w) ->
  (rearms a -> exists b, oa = Some b /\ rearms b) -> (requeues a -> work s = true \/ exists b, oa = Some b /\ requeues b) ->
  (forall b, oa = Some b -> agent_ok (V W) b) -> winv (next s oa).
Proof.
  intros St I Hlow Hr Hq Hok. pose proof (steady_low _ _ St) as El. destruct St as (Eq & E2 & E3 & E4 & E5 & E6 & E7 & E8 & E9 & E10 & Ew).
  destruct HW as [_ L S [R1 R2] A T _ K F].
  split; cbn [st agents held V mx info canc next].
  - apply next_inv. by rewrite El, Eq.
  - destruct L as [L1 L2]. split; [congruence|]. rewrite E2. intros dest prev Hd Hl.
    destruct (L2 dest prev Hd Hl) as (y & Hy & Hys). exists y. split; [|done]. rewrite Hlow with (i := 4%nat); [done|].
    unfold low_list. eapply handler_list_elem; [exact Hd|by apply last_Some_elem_of].
  - by rewrite Eq.
  - unfold tracked in *. cbn [st next] in *. rewrite E5, E6, E7. done.
  - rewrite Eq, E4, E10. intros Hne. destruct (A Hne) as [|[|Hex]]; [auto|auto|]. right; right. by apply next_some.
  - rewrite Eq, E3, E4. exact T.
  - by apply next_agents.
  - rewrite El. intros Hne. destruct (K Hne) as [|(b & Hb & Fb)]; [auto|]. rewrite Ha in Hb. mem_in Hb.
    destruct Hb as [Hb|[->|Hb]]; [right; exists b; split; [apply next_elem; mem; auto|done]| |right; exists b; split; [apply next_elem; mem; auto|done]].
    destruct (Hq Fb) as [|(c & -> & Fc)]; [auto|]. right. exists c. split; [apply next_elem; auto|done].
  - by rewrite E9.
Qed.

(** ** Each stage *)

Definition step_ok : Prop := wp (agent_step (V W) a) (fun oa s => winv (next s oa)) (st W).

Lemma no_cancel : a_stage a <> SCancel -> cancels a (st W) ∪ canc W = canc W.
Proof. intros Hs. unfold cancels. destruct (a_stage a); try done; by rewrite union_empty_l_L. Qed.

Lemma step_ok_cancel : a_stage a = SCancel -> step_ok.
Proof.
  intros Hs. unfold step_ok, agent_step. rewrite Hs. pose proof agent_inv as I.
  pose proof (w_agents W HW) as Hok. rewrite list.Forall_forall in Hok. specialize (Hok a agent_in). unfold agent_ok in Hok. rewrite Hs in Hok.
  destruct (a_ref a) as [w|] eqn:Er; [|done]. unfold pre, post in I. rewrite Hs in I. cbn [app] in I.
  wp_simpl. eapply wp_try_cancel; [exact I|by left| |].
  - intros s' I' Eh Eo (x & Hx & Hp) Hoth. wp_simpl. apply winv_local; [by apply outer_steady|..]; cbn [from_option pre post at_stage a_stage mbind option_bind a_ref app].
    + rewrite Er. unfold cancels. rewrite Hs, Er, Hx, Hp. exact I'.
    + intros i v Hv. apply Hoth. intros ->. destruct (low_not_client _ _ _ _ _ _ _ _ _ _ w i I Hv eq_refl) as [Hc _]. apply Hc. by left.
    + intros _. eexists. split; [done|by left].
    + unfold requeues. by rewrite Hs.
    + intros b [= <-]. done.
  - intros x Hx Hp. wp_simpl. apply winv_local; [by apply outer_steady|..].
    + assert (cancels a (st W) = ∅) as ->.
      { unfold cancels. rewrite Hs, Er, Hx. by destruct (Z.eqb_spec (wstate x) WLS_PENDING). }
      rewrite union_empty_l_L. destruct (negb (wstate x =? WLS_REMOVED)); cbn [from_option pre post at_stage a_stage mbind option_bind a_ref app]; by rewrite Er.
    + done.
    + unfold rearms. rewrite Hs. by intros [|(? & ? & ?)].
    + unfold requeues. by rewrite Hs.
    + intros b [= <-]. unfold agent_ok. by destruct (negb (wstate x =? WLS_REMOVED)); cbn; rewrite ?Er.
Qed.

Lemma step_ok_read : a_stage a = SRead -> step_ok.
Proof.
  intros Hs. unfold step_ok, agent_step. rewrite Hs. pose proof agent_inv as I. unfold pre, post in I. rewrite Hs in I. cbn [app] in I.
  destruct (w_sp W HW) as [R _]. wp_simpl.
  change (wp (on_sp t20_syncpt_update_min) ?K (st W)) with (K (reg (sp (st W))) (set_sp (set_min (reg (sp (st W))) (sp (st W))) (st W))).
  cbv beta. wp_simpl. apply winv_local; [done|..]; rewrite ?no_cancel by (by rewrite Hs).
  - exact I.
  - done.
  - intros _. eexists. split; [done|]. right. by eexists _, _.
  - unfold requeues. by rewrite Hs.
  - intros b [= <-]. cbn. split; [done|lia].
Qed.

Lemma step_ok_run iw l low : a_stage a = SRun (iw :: l) low -> step_ok.
Proof.
  intros Hs. unfold step_ok, agent_step. rewrite Hs. pose proof agent_inv as I. unfold pre, post in I. rewrite Hs in I. cbn [app] in I.
  destruct iw as [i w]. wp_simpl.
  assert (vinv (wait_head (st W)) ((i, w) :: low_list (st W) ++ l ++ others_run) others_put (option_list (a_ref a) ++ others_ref)
    (waiters (st W)) (V W) (handled (st W)) (info W) (canc W)) as I1.
  { eapply vinv_perm; [done| |done|done|exact I]. cbn. by rewrite <- Permutation_middle. }
  eapply wp_run_handler; [exact I1|]. intros s' I' Eo Hoth. wp_simpl.
  apply winv_local; [by apply outer_steady|..]; rewrite ?no_cancel by (by rewrite Hs).
  - cbn [from_option pre post at_stage a_stage mbind option_bind a_ref app snd]. destruct (outer_low _ _ Eo) as [_ Eq]. exact I'.
  - intros j v Hv. apply Hoth. intros ->. destruct (low_not_client _ _ _ _ _ _ _ _ _ _ w j I Hv eq_refl) as (_ & _ & Hc). apply Hc. cbn. by left.
  - unfold rearms. rewrite Hs. by intros [|(? & ? & ?)].
  - unfold requeues. rewrite Hs. intros ->. right. by eexists.
  - intros b [= <-]. done.
Qed.

Lemma step_ok_put w l low : a_stage a = SPut w l low -> step_ok.
Proof.
  intros Hs. unfold step_ok, agent_step. rewrite Hs. pose proof agent_inv as I. unfold pre, post in I. rewrite Hs in I. cbn [app] in I.
  wp_simpl. destruct (proj1 (vi_dom _ _ _ _ _ _ _ _ _ I w)) as [x Hx]; [mem; auto|].
  eapply wp_waiter_put; [exact Hx|]. intros s' Ew Eh Eo. wp_simpl.
  apply winv_local; [by apply outer_steady|..]; rewrite ?no_cancel by (by rewrite Hs).
  - cbn [from_option pre post at_stage a_stage mbind option_bind a_ref app]. rewrite Ew, Eh. by apply vinv_put_done.
  - intros j v Hv. rewrite Ew. apply put_heap_other. intros ->.
    destruct (low_not_client _ _ _ _ _ _ _ _ _ _ w j I Hv eq_refl) as (_ & Hc & _). apply Hc. by left.
  - unfold rearms. rewrite Hs. by intros [|(? & ? & ?)].
  - unfold requeues. rewrite Hs. intros ->. right. by eexists.
  - intros b [= <-]. done.
Qed.

Lemma step_ok_done low : a_stage a = SRun [] low -> step_ok.
Proof.
  intros Hs. unfold step_ok, agent_step. rewrite Hs. pose proof agent_inv as I. unfold pre, post in I. rewrite Hs in I. cbn [app] in I.
  assert (forall s, steady (st W) s -> waiters s = waiters (st W) -> handled s = handled (st W) -> (low = true -> work s = true) ->
    winv (next s (Some (at_stage a SEnd)))) as Hfin.
  { intros s Hst Ew Eh Hl. apply winv_local; [done|..]; rewrite ?no_cancel by (by rewrite Hs).
    - cbn [from_option pre post at_stage a_stage mbind option_bind a_ref app]. by rewrite Ew, Eh.
    - by rewrite Ew.
    - unfold rearms. rewrite Hs. by intros [|(? & ? & ?)].
    - unfold requeues. rewrite Hs. auto.
    - intros b [= <-]. done. }
  unfold queue_low_prio_work. destruct low; wp_simpl; by apply Hfin.
Qed.

Lemma step_ok_end : a_stage a = SEnd -> step_ok.
Proof.
  intros Hs. unfold step_ok, agent_step. rewrite Hs. pose proof agent_inv as I. unfold pre, post in I. rewrite Hs in I. cbn [app] in I.
  assert (forall s, vinv (wait_head (st W)) (low_list (st W) ++ others_run) others_put others_ref (waiters s) (V W) (handled s) (info W) (canc W) ->
    outer s = outer (st W) -> (forall i w, (i, w) ∈ low_list (st W) -> waiters s !! w = waiters (st W) !! w) ->
    wp (if a_busy a then module_idle_mult 1 else mret tt) (fun _ s => winv (next s None)) s) as Hfin.
  { intros s I' Eo Hlow. assert (forall s1, waiters s1 = waiters s -> handled s1 = handled s -> outer s1 = outer (st W) -> winv (next s1 None)) as Hn.
    { intros s1 Ew Eh Eo1. apply winv_local; [by apply outer_steady|..]; rewrite ?no_cancel by (by rewrite Hs); try done.
      - by rewrite Ew, Eh.
      - by rewrite Ew.
      - unfold rearms. rewrite Hs. by intros [|(? & ? & ?)].
      - unfold requeues. by rewrite Hs. }
    unfold module_idle_mult. destruct (a_busy a); wp_simpl; by apply Hn. }
  wp_simpl. destruct (a_ref a) as [w|] eqn:Er.
  - destruct (proj1 (vi_dom _ _ _ _ _ _ _ _ _ I w)) as [x Hx]; [cbn; mem; auto|].
    eapply wp_waiter_put; [exact Hx|]. intros s' Ew Eh Eo. wp_simpl. eapply wp_mono; [apply Hfin|].
    + rewrite Ew, Eh. by apply vinv_put_client.
    + done.
    + intros j v Hv. rewrite Ew. apply put_heap_other. intros ->.
      destruct (low_not_client _ _ _ _ _ _ _ _ _ _ w j I Hv eq_refl) as (Hc & _ & _). apply Hc. by left.
    + intros [] s Hs'. by wp_simpl.
  - wp_simpl. eapply wp_mono; [by apply Hfin|]. intros [] s Hs'. by wp_simpl.
Qed.

Lemma step_processed v c : a_stage a = SLock v c -> windowed W ->
  wp (process_locked v) (fun r s => processed others_put (option_list (a_ref a) ++ others_ref) others_run (V W) (handled (st W))
    (info W) (canc W) c (st W) s r.1 r.2) (st W).
Proof.
  intros Hs [Hw _]. pose proof agent_inv as I. unfold pre, post in I. rewrite Hs in I. cbn [app] in I.
  pose proof (w_agents W HW) as Hok. rewrite list.Forall_forall in Hok. specialize (Hok a agent_in). unfold agent_ok in Hok. rewrite Hs in Hok.
  destruct Hok as [-> Hc]. eapply wp_process_locked; [reflexivity|exact I|apply HW|exact Hc| |apply HW|done].
  intros w Hq. destruct (Hw w Hq) as (_ & H). by eapply H; [apply agent_in|].
Qed.

Lemma winv_processed v c s l low : a_stage a = SLock v c ->
  processed others_put (option_list (a_ref a) ++ others_ref) others_run (V W) (handled (st W)) (info W) (canc W) c (st W) s l low ->
  winv (next s (Some (at_stage a (SRun l low)))).
Proof.
  intros Hs [I L (pr & Hq & _) _ Hf Hi (E1 & E2 & E3 & E4 & E5 & E6 & E7)].
  destruct HW as [_ _ S [R1 R2] A T _ K F].
  split; cbn [st agents held V mx info canc next].
  - apply next_inv. rewrite no_cancel by (by rewrite Hs). cbn [from_option pre post at_stage a_stage mbind option_bind a_ref app]. by rewrite E3.
  - done.
  - rewrite Hq in S. by apply StronglySorted_app_1_r in S.
  - unfold tracked in *. cbn [st next] in *. rewrite E1. done.
  - destruct (wait_head s); [done|]. intros _. right; left. apply Hi.
  - destruct (wait_head s) as [|w q]; [by rewrite Hi|]. intros _. exists w, q. split; [done|apply Hi].
  - apply next_agents. intros b [= <-]. done.
  - intros Hne. right. exists (at_stage a (SRun l low)). split; [apply next_elem; auto|]. cbn. rewrite Hf. by rewrite bool_decide_false.
  - by rewrite E4.
Qed.

Lemma step_ok_lock v c : a_stage a = SLock v c -> windowed W -> step_ok.
Proof.
  intros Hs Hw. unfold step_ok, agent_step. rewrite Hs. wp_simpl. eapply wp_mono; [by apply (step_processed v c)|].
  intros [l low] s Hp. wp_simpl. by eapply winv_processed.
Qed.

(** No task faults, whatever it does next, and the invariant holds again. *)
Lemma agent_step_ok : windowed W -> step_ok.
Proof.
  intros Hw. destruct (a_stage a) as [| |v c|[|iw l] low|w l low|] eqn:Hs;
    eauto using step_ok_cancel, step_ok_read, step_ok_lock, step_ok_done, step_ok_run, step_ok_put, step_ok_end.
Qed.
End agent.

(** ** The interrupt, the worker, and clients *)

Lemma rearm_new W a : a ∈ agents W ++ [a].
Proof. mem. auto. Qed.

Lemma isr_start_ok W now : winv W -> windowed W -> raised (st W) = true ->
  wp (isr_start now) (fun r s => r = host_busy_err (st W) /\
    winv (World s (agents W ++ isr_agent r) (held W) (V W) (mx W) (info W) (canc W))) (st W).
Proof.
  intros HW [_ Hw] Hr. destruct HW as [I L S [R1 R2] A T K1 K F]. unfold isr_start, t20_intr_syncpt_intr_ack, t20_intr_disable_syncpt_intr.
  wp_simpl. cbn [int_thresh set_sp_isr_recv set_int].
  set (s0 := set_int _ _ _).
  assert (exists p, on_sp t20_intr_handle_extra_increments s0 = Some (tt, set_sp p s0) /\ reg p = reg (sp (st W)) /\
    max_val p = max_val (sp (st W)) /\ client_managed p = client_managed (sp (st W))) as (p & E & P1 & P2 & P3).
  { unfold on_sp, t20_intr_handle_extra_increments, t20_syncpt_update_min. munfold. cbn [sp set_int set_sp_isr_recv s0].
    destruct (client_managed (sp (st W))) eqn:Ec; [by eexists|]. cbn.
    assert ((0 <? s32 (reg (sp (st W)) - max_val (sp (st W)))) = false) as ->; [|by eexists].
    destruct R2 as [R2 R3]; [unfold tracked; by rewrite Ec|]. rewrite R1, R2, s32_sub by (change (2 ^ 31) with 2147483648 in *; lia).
    apply Z.ltb_ge. lia. }
  assert (forall s ags, waiters s = waiters (st W) -> wait_head s = wait_head (st W) -> low_prio_handlers s = low_prio_handlers (st W) ->
    handled s = handled (st W) -> work s = work (st W) -> warned s = warned (st W) -> sp s = p -> int_enabled s = false ->
    unpowered s = true \/ ags <> [] -> Forall (fun a => a = Agent None true SRead) ags ->
    winv (World s (agents W ++ ags) (held W) (V W) (mx W) (info W) (canc W))) as Hfin.
  { intros s ags E1 E2 E3 E4 E5 E6 E7 E8 E9 E10.
    assert (concat (map pre ags) = [] /\ concat (map post ags) = [] /\ clients ags = []) as (Z1 & Z2 & Z3)
      by (clear -E10; induction E10 as [|a l -> _ IH]; [done|exact IH]).
    assert (low_list s = low_list (st W)) as El by (unfold low_list; by rewrite E3).
    split; cbn [st agents held V mx info canc].
    - unfold clients in *. rewrite !map_app, !concat_app, omap_app, Z1, Z2, Z3, !app_nil_r, E1, E2, E4, El. exact I.
    - destruct L as [L1 L2]. split; [congruence|]. by rewrite E1, E3.
    - by rewrite E2.
    - unfold tracked in *. cbn [st]. by rewrite E7, P1, P2, P3.
    - intros _. destruct E9 as [|Hne]; [auto|]. right; right. destruct E10 as [|a l -> _]; [done|].
      exists (Agent None true SRead). split; [mem; auto|by left].
    - by rewrite E8.
    - apply list.Forall_app. split; [done|]. eapply list.Forall_impl; [exact E10|]. by intros a ->.
    - rewrite El, E5. intros Hne. destruct (K Hne) as [|(b & Hb & Fb)]; [auto|]. right. exists b. split; [mem; auto|done].
    - by rewrite E6. }
  unfold wp at 1. rewrite E. unfold thresh_fn_busy, module_busy. wp_simpl. cbn [host_busy_err set_sp s0 set_int set_sp_isr_recv].
  destruct (Z.eqb_spec (host_busy_err (st W)) 0) as [E0|E0]; wp_simpl.
  - cbn [Z.eqb]. wp_simpl. split; [done|]. apply Hfin; try done; [by right|]. by repeat constructor.
  - rewrite (proj2 (Z.eqb_neq _ _) E0). wp_simpl. split; [done|]. unfold isr_agent. rewrite (proj2 (Z.eqb_neq _ _) E0).
    apply Hfin; try done. by left.
Qed.

Lemma work_start_ok W : winv W ->
  wp work_start (fun l s => winv (World s (agents W ++ [Agent None false (SRun l false)]) (held W) (V W) (mx W) (info W) (canc W))) (st W).
Proof.
  intros [I L S R A T K1 K F]. unfold work_start, low_prio_cut. wp_simpl.
  set (s := set_low_prio _ _). assert (low_list s = []) as El.
  { apply low_list_nil. cbn. generalize (low_prio_handlers (st W)). induction l as [|l0 l IH]; cbn; done. }
  change (handler_list (replicate NVHOST_INTR_HIGH_PRIO_COUNT [] ++ low_prio_handlers (set_work false (st W)))) with (low_list (st W)).
  split; cbn [st agents held V mx info canc].
  - rewrite El. unfold clients in *. rewrite !map_app, !concat_app, omap_app. cbn. rewrite !app_nil_r.
    eapply vinv_perm; [done|apply Permutation_app_comm|done|done|exact I].
  - split; [cbn; rewrite length_map; apply L|]. intros dest prev Hd Hl. cbn in Hd.
    change (map (fun _ => []) (low_prio_handlers (st W)) !! 0%nat = Some dest) in Hd. destruct (low_prio_handlers (st W)); [done|].
    cbn in Hd. by injection Hd as <-.
  - exact S.
  - exact R.
  - intros Hne. destruct (A Hne) as [|[|(b & Hb & Fb)]]; [auto|auto|]. right; right. exists b. split; [mem; auto|done].
  - exact T.
  - apply list.Forall_app. split; [done|]. by constructor.
  - by rewrite El.
  - done.
Qed.

Lemma incr_ok W : winv W -> (tracked W = true -> V W < mx W) ->
  winv (World (hw_incr (st W)) (agents W) (held W) (V W + 1) (mx W) (info W) (canc W)).
Proof.
  intros [I L S [R1 R2] A T K1 K F] Hv. split; cbn [st agents held V mx info canc]; try done.
  - eapply vinv_incr; [|exact I]. lia.
  - unfold tracked in *. cbn [st hw_incr sp set_sp reg set_reg max_val client_managed] in *. split; [by rewrite R1, uw_add_l|].
    intros Ht. destruct (R2 Ht) as [R3 R4]. split; [done|]. specialize (Hv Ht). lia.
  - eapply list.Forall_impl; [exact K1|]. intros a. unfold agent_ok. destruct (a_stage a); try done. lia.
Qed.

Lemma incr_max_ok W : winv W ->
  wp (on_sp (nvhost_syncpt_incr_max 1)) (fun _ s => winv (World s (agents W) (held W) (V W) (mx W + 1) (info W) (canc W))) (st W).
Proof.
  intros [I L S [R1 R2] A T K1 K F].
  change (winv (World (set_sp (set_max (u32 (max_val (sp (st W)) + 1)) (sp (st W))) (st W)) (agents W) (held W) (V W) (mx W + 1) (info W) (canc W))).
  split; cbn [st agents held V mx info canc]; try done.
  unfold tracked in *. cbn [st sp set_sp reg set_max max_val client_managed] in *. split; [done|].
  intros Ht. destruct (R2 Ht) as [-> R4]. split; [apply uw_add_l|lia].
Qed.

Lemma put_ok W h1 w h2 : winv W -> held W = h1 ++ w :: h2 ->
  winv (World (st W) (agents W ++ [Agent (Some w) false SCancel]) (h1 ++ h2) (V W) (mx W) (info W) (canc W)).
Proof.
  intros [I L S R A T K1 K F] Hh. split; cbn [st agents held V mx info canc]; try done.
  - unfold clients in *. rewrite !map_app, !concat_app, omap_app. cbn. rewrite !app_nil_r.
    eapply vinv_perm; [done|done|done| |exact I]. rewrite Hh, <- !app_assoc. cbn. apply Permutation_app_head.
    rewrite Permutation_middle. apply Permutation_app_head. apply Permutation_cons_append.
  - intros Hne. destruct (A Hne) as [|[|(b & Hb & Fb)]]; [auto|auto|]. right; right. exists b. split; [mem; auto|done].
  - apply list.Forall_app. split; [done|]. by constructor.
  - intros Hne. destruct (K Hne) as [|(b & Hb & Fb)]; [auto|]. right. exists b. split; [mem; auto|done].
Qed.

Lemma thr_insert (i : gmap nat winfo) w x v : v <> w -> thr (<[w := x]> i) v = thr i v.
Proof. intros Hv. unfold thr. by rewrite lookup_insert_ne. Qed.
Lemma sorted_ext (R R' : nat -> nat -> Prop) l : (forall a b, a ∈ l -> b ∈ l -> R a b -> R' a b) -> StronglySorted R l -> StronglySorted R' l.
Proof.
  intros HR. induction 1 as [|a l Hs IH Hf]; constructor.
  - apply IH. intros x y Hx Hy. apply HR; by right.
  - apply list.Forall_forall. intros b Hb. rewrite list.Forall_forall in Hf. apply HR; [by left|by right|auto].
Qed.
Lemma q_sorted_insert (i : gmap nat winfo) w x q : w ∉ q -> q_sorted i q -> q_sorted (<[w := x]> i) q.
Proof.
  intros Hw. apply sorted_ext. intros a b Ha Hb. rewrite !thr_insert; [done|by intros ->|by intros ->].
Qed.

Lemma add_ok W w t a d ref : winv W -> can_add W w t a d ref ->
  wp (client_add w t a d ref) (fun r s => r = host_busy_err (st W) /\
    (r = 0 -> sp s = sp (st W) /\ wait_head s ≡ₚ w :: wait_head (st W) /\
       winv (World s (agents W) (if ref then w :: held W else held W) (V W) (mx W) (<[w := WInfo t a d]> (info W)) (canc W))) /\
    (r <> 0 -> unadded w (st W) s)) (st W).
Proof.
  intros HW (Hi & [Hreq1 Hreq2] & Hwin). destruct HW as [I L S R A T K1 K F].
  assert (waiters (st W) !! w = None) as Hh.
  { destruct (waiters (st W) !! w) as [x|] eqn:E; [|done]. destruct (vi_ok _ _ _ _ _ _ _ _ _ I w x E) as (_ & _ & wi & ? & _). congruence. }
  destruct (Z.eq_dec (host_busy_err (st W)) 0) as [F1|F1].
  2:{ apply wp_client_unadded; [done|done|done|]. intros s' Hs'. by split; [|split; [intros ?|]]. }
  rewrite F1. assert (forall v, waiters (st W) !! v <> None -> v <> w) as Hne by (intros v Hv ->; done).
  assert (forall v, v ∈ wait_head (st W) -> v <> w) as HwQ.
  { intros v Hv. apply Hne. destruct (proj1 (vi_dom _ _ _ _ _ _ _ _ _ I v)) as [x ->]; [mem; auto|done]. }
  assert (w ∉ wait_head (st W)) as Hw by (intros Hq; by apply (HwQ w)).
  set (i' := <[w := WInfo t a d]> (info W)).
  assert (thr i' w = t) as Ht by (unfold thr, i'; by rewrite lookup_insert_eq).
  eapply (wp_client_add i' w t a d ref Ht); [done|done|by apply q_sorted_insert|done| | |].
  - intros [-> | ->]; destruct ref; try done; by destruct (Hreq1 eq_refl).
  - intros p Hp. destruct (proj1 (vi_dom _ _ _ _ _ _ _ _ _ I p)) as [x Hx]; [mem; auto|]. exists x. split; [done|].
    unfold i'. rewrite thr_insert by auto. split; [|by apply Hwin]. by destruct (queue_thr _ _ _ _ _ _ _ _ _ p x I Hx).
  - intros s' [H1 H2 H3 H4 (E1 & E2 & E3 & E4 & E5 & E6 & E7)]. split; [done|]. split; [intros _|done]. do 2 (split; [done|]).
    assert (low_list s' = low_list (st W)) as El by (unfold low_list; by rewrite E6).
    split; cbn [st agents held V mx info canc].
    + rewrite El, E3, H1. eapply vinv_perm; [symmetry; exact H2|done|done| |by apply (vinv_add _ _ _ _ _ _ _ _ _ w t a d ref 0 I Hi Hreq1)].
      by destruct ref.
    + destruct L as [L1 L2]. split; [congruence|]. rewrite E6. intros dest prev Hd Hl.
      destruct (L2 dest prev Hd Hl) as (y & Hy & Hys). exists y. split; [|done]. rewrite H1, lookup_insert_ne; [done|].
      intros ->. congruence.
    + done.
    + unfold tracked in *. cbn [st] in *. by rewrite E1.
    + intros _. rewrite E7. destruct H4 as [(_ & _ & [->|[-> Hq]])|(_ & Hq & _ & ->)]; auto.
    + intros He. destruct H4 as [(Hd & Hth & _)|(Hd & Hq & Hth & Hen)].
      * destruct (wait_head s') as [|v q]; [done|]. injection Hd as ->. exists w, q. by rewrite Ht.
      * rewrite Hen in He. destruct (T He) as (v & q & Eq & Et). rewrite Eq in Hd. destruct (wait_head s') as [|v' q']; [done|]. injection Hd as ->.
        exists v, q'. split; [done|]. rewrite Hth, Et. unfold i'. rewrite thr_insert; [done|]. apply HwQ. rewrite Eq. by left.
    + done.
    + rewrite El, E2. done.
    + by rewrite E4.
Qed.

(** ** All steps *)

Lemma work_step_winv W W' : winv W -> windowed W -> work_step W W' -> winv W'.
Proof.
  intros HW Hw Hs. destruct Hs as [W now r s' Hr E|W l s' _ E|W l1 a l2 oa s' Ha E].
  - by apply (wp_run _ _ _ _ _ (isr_start_ok W now HW Hw Hr)) in E as [_ E].
  - by apply (wp_run _ _ _ _ _ (work_start_ok W HW)) in E.
  - by apply (wp_run _ _ _ _ _ (agent_step_ok W l1 l2 a HW Ha Hw)) in E.
Qed.
Lemma env_step_winv W W' : winv W -> env_step W W' -> winv W'.
Proof.
  intros HW Hs. destruct Hs as [W Hv|W v s' E|W v s' [= <- <-]|W w t a d ref s' Hc E|W h1 w h2 Hh|W e].
  - by apply incr_ok.
  - by apply (wp_run _ _ _ _ _ (incr_max_ok W HW)) in E.
  - by destruct HW.
  - by apply (wp_run _ _ _ _ _ (add_ok W w t a d ref HW Hc)) in E as (_ & E & _); apply E.
  - by apply (put_ok W h1 w h2).
  - by destruct HW.
Qed.

Definition sound (W : world) : Prop := winv W /\ windowed W.
Lemma wstep_sound W W' : sound W -> wstep W W' -> sound W'.
Proof.
  intros [HW Hw] Hs. inversion_clear Hs; split; try done; eauto using work_step_winv, env_step_winv.
Qed.

(** Nobody waits for a sync point at first. *)
Definition idle_syncpt (p : syncpt) (busy : Z) : nvhost_intr_syncpt := IntrSyncpt [] [[]; []] 0 false ∅ 0 false p busy 0 [] false false.
Definition start (p : syncpt) (busy v m : Z) : world := World (idle_syncpt p busy) [] [] v m ∅ ∅.
Definition start_ok (p : syncpt) (v m : Z) : Prop :=
  reg p = u32 v /\ max_val p = u32 m /\ v <= m < v + 2 ^ 31.

Lemma start_sound p busy v m : start_ok p v m -> sound (start p busy v m).
Proof.
  intros (R1 & R2 & R3). split.
  - split; cbn; [|split; [done|]|apply SSorted_nil|split; [done|by intros _; split; [|lia]]|done|done|constructor|done|done].
    + split; cbn; try done; try (by apply NoDup_nil_2).
      * intros w. rewrite lookup_empty. split; [by intros ?%not_elem_of_nil|by intros [? ?]].
      * split; [by apply NoDup_nil_2|constructor].
    + intros dest prev Hd Hl. by injection Hd as <-.
  - split; cbn; [|lia]. by intros w ?%not_elem_of_nil.
Qed.

Lemma reachable_sound p busy v m W : start_ok p v m -> rtc wstep (start p busy v m) W -> sound W.
Proof.
  intros Hs Hr. assert (sound (start p busy v m)) as H0 by by apply start_sound.
  induction Hr as [|x y z Hxy _ IH]; eauto using wstep_sound.
Qed.
