(* ===== verification/IntrRuns.v ===== *)
(** * What waiting guarantees

    In every run of the tasks of a sync point: no fault and no warning; what handlers do is
    what was asked for, once, and not before the counter is there; when there is nothing left
    to do, all of it is done; and there always comes such a moment. *)

From stdpp Require Import gmap fin_sets relations sorting.
From S2P Require Import Prelude Syncpt SyncptFacts Intr IntrFacts IntrOps IntrWorld.

(** Nobody has anything to do. *)
Definition quiet (W : world) : Prop := agents W = [] /\ work (st W) = false /\ raised (st W) = false.

(** The submits of channel [d] whose threshold the counter has reached. *)
Definition due_submit (info : gmap nat winfo) (V d : Z) (w : nat) : Z := if thr info w <=? V then is_submit info d w else 0.
Definition due_submits (info : gmap nat winfo) (V d : Z) : Z := zsum (due_submit info V d) (elements (dom info)).

Lemma isr_start_outer now s r s' : isr_start now s = Some (r, s') -> 
  wait_head s' = wait_head s /\ low_list s' = low_list s /\ work s' = work s /\ int_enabled s' = false.
Proof.
  unfold isr_start, t20_intr_syncpt_intr_ack, t20_intr_disable_syncpt_intr, thresh_fn_busy, module_busy, on_sp. munfold. cbn.
  destruct (t20_intr_handle_extra_increments (sp s)) as [[[] q]|]; [|done]. cbn. destruct (host_busy_err s =? 0) eqn:E; [by intros [= <- <-]|].
  rewrite E. by intros [= <- <-].
Qed.

Lemma isr_start_unpowered now s r s' : isr_start now s = Some (r, s') ->
  unpowered s' = unpowered s || negb (host_busy_err s =? 0).
Proof.
  unfold isr_start, t20_intr_syncpt_intr_ack, t20_intr_disable_syncpt_intr, thresh_fn_busy, module_busy, on_sp. munfold. cbn.
  destruct (t20_intr_handle_extra_increments (sp s)) as [[[] q]|]; [|done]. cbn. destruct (host_busy_err s =? 0) eqn:E.
  - intros [= <- <-]. by rewrite orb_false_r.
  - rewrite E. intros [= <- <-]. by rewrite orb_true_r.
Qed.

Section runs.
Variables (p : syncpt) (busy v m : Z).
Hypothesis (Hstart : start_ok p v m).
Abbreviation reachable := (rtc wstep (start p busy v m)).

(** C12. In every reachable world, whether or not the host can be powered: no WARN_ON of the
    waiters' states has been hit; whatever a task or a client does next never touches a waiter
    that was freed, and returns; it fails only with the error of a host that cannot be
    powered, and a waiter that could not be added has changed nothing, but may be left to its
    caller. While somebody waits, the interrupt is enabled for the first threshold or a task
    is about to look at the queue again, unless the interrupt's thread has once warned that
    the host could not be powered: then nobody may be (nvhost_intr.c:367). It warns exactly
    if the host cannot be powered when it starts. *)
Theorem intr_safe W : reachable W ->
  warned (st W) = false /\
  (forall a, a ∈ agents W -> exists oa s, agent_step (V W) a (st W) = Some (oa, s)) /\
  (forall now, raised (st W) = true -> exists s, isr_start now (st W) = Some (host_busy_err (st W), s) /\
     unpowered s = unpowered (st W) || negb (host_busy_err (st W) =? 0)) /\
  (exists l s, work_start (st W) = Some (l, s)) /\
  (forall w t a d ref, can_add W w t a d ref -> exists s, client_add w t a d ref (st W) = Some (host_busy_err (st W), s) /\
     if host_busy_err (st W) =? 0 then w ∈ wait_head s
     else s = st W \/ s = set_waiters (<[w := Waiter 0 0 SIGNAL_SYNC_PT 0 0 0 0]> (waiters (st W))) (st W)) /\
  (forall w q, wait_head (st W) = w :: q -> unpowered (st W) = true \/
     (int_enabled (st W) = true /\ int_thresh (st W) = u32 (thr (info W) w)) \/ exists a, a ∈ agents W /\ rearms a).
Proof.
  intros Hr. destruct (reachable_sound _ _ _ _ _ Hstart Hr) as [HW Hw].
  split; [apply HW|]. split; [|split; [|split; [|split]]].
  - intros a Ha. apply list_elem_of_split in Ha as (l1 & l2 & Ha).
    destruct (wp_total _ _ _ (agent_step_ok W l1 l2 a HW Ha Hw)) as (oa & s & E & _). eauto.
  - intros now Hrs. destruct (wp_total _ _ _ (isr_start_ok W now HW Hw Hrs)) as (r & s & E & -> & _). exists s. split; [done|].
    by apply isr_start_unpowered in E.
  - destruct (wp_total _ _ _ (work_start_ok W HW)) as (l & s & E & _). eauto.
  - intros w t a d ref Hc. destruct (wp_total _ _ _ (add_ok W w t a d ref HW Hc)) as (r & s & E & -> & H1 & H2). exists s. split; [done|].
    destruct (Z.eqb_spec (host_busy_err (st W)) 0) as [E0|E0]; [|by apply H2]. destruct (H1 E0) as (_ & -> & _). by left.
  - intros w q Hq. destruct (w_armed W HW) as [Hu|[He|]]; [by rewrite Hq|by left| |auto]. right; left. split; [done|].
    destruct (w_thresh W HW He) as (w' & q' & Hq' & Ht). congruence.
Qed.

(** C11. Whatever the interleaving, no waiter is handled twice, none before the counter has
    reached its threshold, and none that was cancelled while it was pending; its handler does
    what was asked for it. *)
Theorem intr_once W : reachable W ->
  NoDup (map ev_waiter (handled (st W))) /\
  forall e, e ∈ handled (st W) -> (ev_waiter e ∉ canc W) /\
    exists wi, info W !! ev_waiter e = Some wi /\ ev_action e = wi_action wi /\ ev_data e = wi_data wi /\ wi_thresh wi <= V W.
Proof.
  intros Hr. destruct (reachable_sound _ _ _ _ _ Hstart Hr) as [HW _].
  destruct (vi_log _ _ _ _ _ _ _ _ _ (w_inv W HW)) as [H1 H2]. split; [done|]. by apply list.Forall_forall.
Qed.

Lemma quiet_inv W : sound W -> quiet W ->
  vinv (wait_head (st W)) [] [] (held W) (waiters (st W)) (V W) (handled (st W)) (info W) (canc W).
Proof.
  intros [HW _] (Ha & Hk & _). pose proof (w_inv W HW) as I. rewrite Ha in I.
  cbn [map concat] in I. change (clients []) with (@nil nat) in I. rewrite !app_nil_r in I.
  assert (low_list (st W) = []) as El; [|by rewrite El in I].
  destruct (decide (low_list (st W) = [])) as [|Hne]; [done|]. destruct (w_work W HW Hne) as [E|(b & Hb & _)]; [congruence|].
  rewrite Ha in Hb. by apply not_elem_of_nil in Hb.
Qed.

Lemma quiet_late W w : sound W -> quiet W -> unpowered (st W) = false -> w ∈ wait_head (st W) -> V W < thr (info W) w.
Proof.
  intros [HW [Hw _]] (Ha & Hk & Hr) Hu Hq. destruct (wait_head (st W)) as [|h q] eqn:Eq; [by apply not_elem_of_nil in Hq|].
  destruct (w_armed W HW) as [|[He|(b & Hb & _)]]; [by rewrite Eq|congruence| |rewrite Ha in Hb; by apply not_elem_of_nil in Hb].
  destruct (w_thresh W HW He) as (h' & q' & Eq' & Et). rewrite Eq in Eq'. injection Eq' as <- <-.
  unfold raised in Hr. rewrite He, Et in Hr. cbn [andb] in Hr. destruct (w_sp W HW) as [R _]. rewrite R in Hr.
  destruct (Hw h ltac:(by left)) as [[Hw1 Hw2] _]. rewrite s32_sub in Hr by lia. apply Z.leb_gt in Hr.
  assert (thr (info W) h <= thr (info W) w); [|lia]. pose proof (w_sorted W HW) as S. rewrite Eq in S.
  apply StronglySorted_cons in S as [S _]. rewrite list.Forall_forall in S.
  apply elem_of_cons in Hq as [->|Hq]; [lia|auto].
Qed.

Lemma zsum_split {A} (f g k : A -> Z) l : (forall x, x ∈ l -> f x = g x + k x) -> zsum f l = zsum g l + zsum k l.
Proof.
  induction l as [|x l IH]; intros H; cbn; [done|]. rewrite (H x), IH; [lia| |by left]. intros y Hy. apply H. by right.
Qed.
Lemma zsum_zero {A} (f : A -> Z) l : (forall x, x ∈ l -> f x = 0) -> zsum f l = 0.
Proof. induction l as [|x l IH]; intros H; cbn; [done|]. rewrite (H x), IH; [done| |by left]. intros y Hy. apply H. by right. Qed.
(** A sum over a set whose terms vanish outside a part of it. *)
Lemma zsum_part {A} `{EqDecision A} (f : A -> Z) l k : NoDup l -> NoDup k -> (forall x, x ∈ k -> x ∈ l) ->
  (forall x, x ∈ l -> x ∉ k -> f x = 0) -> zsum f l = zsum f k.
Proof.
  intros Hl Hk Hsub Hz. assert (exists r, l ≡ₚ k ++ r) as (r & Hr) by (apply submseteq_Permutation, NoDup_submseteq; done).
  rewrite Hr, zsum_app, (zsum_zero f r); [lia|]. intros x Hx. rewrite Hr in Hl. apply list.NoDup_app in Hl as (_ & Hd & _).
  apply Hz; [rewrite Hr; mem; auto|]. intros Hxk. by apply (Hd x Hxk).
Qed.

Lemma quiet_submits W d : sound W -> quiet W -> unpowered (st W) = false -> d <> 0 ->
  zsum (ev_submits d) (handled (st W)) = due_submits (info W) (V W) d.
Proof.
  intros HW Hq Hu Hd. pose proof (quiet_inv W HW Hq) as I.
  pose proof (vi_sum _ _ _ _ _ _ _ _ _ I d Hd) as E. cbn [zsum] in E. unfold submits in E.
  pose (late := fun w => if thr (info W) w <=? V W then 0 else is_submit (info W) d w).
  rewrite (zsum_split _ (due_submit (info W) (V W) d) late (elements (dom (info W)))) in E by (intros w _; unfold due_submit, late; case_match; lia).
  rewrite (zsum_part late _ (wait_head (st W))) in E.
  - rewrite (zsum_ext late (is_submit (info W) d) (wait_head (st W))) in E.
    + unfold due_submits. lia.
    + intros w Hin. pose proof (quiet_late W w HW Hq Hu Hin) as Hlate. unfold late. by destruct (Z.leb_spec (thr (info W) w) (V W)); [lia|].
  - apply NoDup_elements.
  - pose proof (vi_own _ _ _ _ _ _ _ _ _ I) as O. by apply own_nodup in O as [O _].
  - intros w Hin. apply elem_of_elements, elem_of_dom.
    destruct (proj1 (vi_dom _ _ _ _ _ _ _ _ _ I w)) as [x Hx]; [mem; auto|].
    destruct (vi_ok _ _ _ _ _ _ _ _ _ I w x Hx) as (_ & _ & wi & -> & _). by eexists.
  - intros w [wi Hi]%elem_of_elements%elem_of_dom Hn. unfold late, thr. rewrite Hi.
    destruct (vi_due _ _ _ _ _ _ _ _ _ I w wi Hi); [done|]. destruct (Z.leb_spec (wi_thresh wi) (V W)); [done|lia].
Qed.

(** C10. When there is nothing left to do, the waiters in memory, those that never could be added
    aside, are those still in the queue and those that a client refers to. And exactly those
    waiters have been handled whose threshold the counter has reached and that were not
    cancelled, and each channel has been told exactly as many submits as have completed on it,
    however they were counted together; unless the interrupt's thread has once warned that the
    host could not be powered, after which waiters may be left behind (nvhost_intr.c:367). *)
Theorem intr_complete W : reachable W -> quiet W ->
  (unpowered (st W) = false ->
     (forall w wi, info W !! w = Some wi -> wi_action wi <> SUBMIT_COMPLETE ->
        (w ∈ map ev_waiter (handled (st W)) <-> wi_thresh wi <= V W /\ w ∉ canc W)) /\
     (forall d, d <> 0 -> zsum (ev_submits d) (handled (st W)) = due_submits (info W) (V W) d)) /\
  (forall w, is_Some (waiters (st W) !! w) <-> w ∈ wait_head (st W) \/ w ∈ held W).
Proof.
  intros Hr Hq. pose proof (reachable_sound _ _ _ _ _ Hstart Hr) as HW. pose proof (quiet_inv W HW Hq) as I.
  split; [intros Hu; split; [|intros d; by apply quiet_submits]|].
  - intros w wi Hi Hne. split.
    + intros (e & -> & He)%list_elem_of_fmap. destruct (vi_log _ _ _ _ _ _ _ _ _ I) as [_ Hall].
      rewrite list.Forall_forall in Hall. destruct (Hall e He) as (Hc & wi' & Hi' & _ & _ & Hv). replace wi with wi' by congruence. done.
    + intros [Hv Hc]. destruct (vi_lost _ _ _ _ _ _ _ _ _ I w wi Hi Hne) as [|[|Hin]]; [done|done|].
      cbn in Hin. rewrite app_nil_r in Hin. pose proof (quiet_late W w HW Hq Hu Hin) as Hlate. unfold thr in Hlate. rewrite Hi in Hlate. lia.
  - intros w. rewrite <- (vi_dom _ _ _ _ _ _ _ _ _ I w). cbn. rewrite app_nil_r. by mem.
Qed.
End runs.

(** ** Every run of the tasks ends *)

(** A step of a task that changes something: not a turn of the loop that waits for a handler. *)
Definition busy_step (W W' : world) : Prop := work_step W W' /\ W' <> W.

Definition b2n (b : bool) (n : nat) : nat := if b then n else 0.
(** What a task still has to do, with the counter at [v]: a value loaded earlier can raise the
    interrupt once more. *)
Definition stage_work (v : Z) (x : stage) : nat :=
  match x with
  | SCancel => 8
  | SRead => 7
  | SLock _ c => 6 + b2n (negb (c =? v)) 8
  | SRun l low => 2 + 2 * length l + b2n low 3
  | SPut _ l low => 3 + 2 * length l + b2n low 3
  | SEnd => 1
  end.
Fixpoint agents_work (v : Z) (l : list agent) : nat :=
  match l with
  | [] => 0
  | a :: l => stage_work v (a_stage a) + agents_work v l
  end.
Definition to_do (W : world) : nat :=
  2 * length (wait_head (st W)) + 2 * length (low_list (st W)) + b2n (work (st W)) 3 + b2n (raised (st W)) 8 +
  agents_work (V W) (agents W).

Lemma agents_work_app v l1 l2 : agents_work v (l1 ++ l2) = (agents_work v l1 + agents_work v l2)%nat.
Proof. induction l1; cbn; lia. Qed.

Lemma steady_raised s s' : steady s s' -> raised s' = raised s.
Proof. intros (_ & _ & E3 & E4 & E5 & _). unfold raised. by rewrite E3, E4, E5. Qed.

Lemma world_eta W : World (st W) (agents W) (held W) (V W) (mx W) (info W) (canc W) = W.
Proof. by destruct W. Qed.
Lemma at_stage_id a x : a_stage a = x -> at_stage a x = a.
Proof. destruct a. cbn. by intros <-. Qed.

(** In the loop that waits for the handler of its waiter. *)
Definition blocked (W : world) (a : agent) : Prop :=
  a_stage a = SCancel /\ exists w x, a_ref a = Some w /\ waiters (st W) !! w = Some x /\ wstate x = WLS_REMOVED.

Section measure.
Variables (W : world) (l1 l2 : list agent) (a : agent).
Hypothesis (HW : winv W) (Hwin : windowed W) (Ha : agents W = l1 ++ a :: l2).
Local Abbreviation nxt s oa := (next W l1 l2 a s oa).

Lemma to_do_local s oa : steady (st W) s -> (b2n (work s) 3 + from_option (fun b => stage_work (V W) (a_stage b)) 0 oa <
    b2n (work (st W)) 3 + stage_work (V W) (a_stage a))%nat -> (to_do (nxt s oa) < to_do W)%nat.
Proof.
  intros Hs Hlt. pose proof (steady_raised _ _ Hs) as Er. pose proof (steady_low _ _ Hs) as El. destruct Hs as (Eq & _).
  unfold to_do. cbn [st agents V next]. rewrite Er, El, Eq, Ha, !agents_work_app. cbn [agents_work].
  destruct oa as [b|]; cbn in *; lia.
Qed.

Lemma to_do_processed s v c l low : a_stage a = SLock v c ->
  processed (others_put l1 l2) (option_list (a_ref a) ++ others_ref W l1 l2) (others_run l1 l2) (V W) (handled (st W)) (info W) (canc W)
    c (st W) s l low ->
  (to_do (nxt s (Some (at_stage a (SRun l low)))) < to_do W)%nat.
Proof.
  intros Hs [I L (pr & Hq & Hp) Hgt Hf Hi (E1 & E2 & _)]. unfold to_do. cbn [st agents V next].
  rewrite E2, Ha, !agents_work_app. rewrite Hq, length_app, length_fmap. apply Permutation_length in Hp. rewrite !length_app in Hp.
  change (option_list (Some (at_stage a (SRun l low)))) with [at_stage a (SRun l low)].
  cbn [agents_work app at_stage a_stage]. rewrite Hs. cbn [stage_work]. assert (b2n low 3 <= 3)%nat by (destruct low; cbn; lia).
  enough (b2n (raised s) 8 <= b2n (negb (c =? V W)%Z) 8)%nat by lia.
  destruct (Z.eqb_spec c (V W)) as [->|]; cbn [negb b2n]; [|by destruct (raised s); cbn; lia].
  assert (raised s = false) as ->; [|done]. unfold raised. destruct (wait_head s) as [|w q] eqn:Eq; [by rewrite Hi|].
  destruct Hi as [_ ->]. apply andb_false_intro2. rewrite E1. destruct (w_sp W HW) as [R _]. rewrite R.
  assert (V W < thr (info W) w) by (apply Hgt; by left).
  destruct Hwin as [Hw _]. destruct (Hw w) as [[Hw1 Hw2] _]; [rewrite Hq; mem; auto|].
  rewrite s32_sub by lia. apply Z.leb_gt. lia.
Qed.

(** The task does not wait, or it waits without a change; the queue does not grow; a value
    just loaded is that of the counter. *)
Definition advances (oa : option agent) (s : nvhost_intr_syncpt) : Prop :=
  ((nxt s oa = W /\ blocked W a) \/ (to_do (nxt s oa) < to_do W)%nat) /\ (forall w, w ∈ wait_head s -> w ∈ wait_head (st W)) /\
  (forall b v c, oa = Some b -> a_stage b = SLock v c -> c = V W).

Lemma advances_local s oa : steady (st W) s -> (forall b v c, oa = Some b -> a_stage b = SLock v c -> c = V W) ->
  (b2n (work s) 3 + from_option (fun b => stage_work (V W) (a_stage b)) 0 oa <
    b2n (work (st W)) 3 + stage_work (V W) (a_stage a))%nat -> advances oa s.
Proof.
  intros Hs Hc Hlt. split; [right; by apply to_do_local|]. split; [|done]. destruct Hs as (-> & _). done.
Qed.

Lemma agent_step_decr : wp (agent_step (V W) a) advances (st W).
Proof.
  pose proof (agent_inv W l1 l2 a HW Ha) as I. unfold agent_step.
  destruct (a_stage a) as [| |v c|[|[i w] l] low|w l low|] eqn:Hs; unfold pre, post in I; rewrite Hs in I; cbn [app] in I; wp_simpl.
  - pose proof (w_agents W HW) as Hok. rewrite list.Forall_forall in Hok. specialize (Hok a (agent_in W l1 l2 a Ha)).
    unfold agent_ok in Hok. rewrite Hs in Hok. destruct (a_ref a) as [w|] eqn:Er; [|done]. wp_simpl.
    eapply wp_try_cancel; [exact I|by left| |].
    + intros s _ _ Eo _ _. wp_simpl. apply advances_local; [by apply outer_steady|by intros ? ? ? [= <-]|]. rewrite Hs. injection Eo as ? ? ? ->. cbn. lia.
    + intros x Hx Hp. wp_simpl. destruct (Z.eqb_spec (wstate x) WLS_REMOVED) as [E|]; cbn [negb].
      * split; [left; split; [|by split; [|exists w, x]]|split; [done|by intros ? ? ? [= <-]]]. unfold next, cancels. rewrite Hs, Er, Hx. destruct (Z.eqb_spec (wstate x) WLS_PENDING); [done|].
        rewrite union_empty_l_L. rewrite (at_stage_id _ _ Hs).
        change (l1 ++ option_list (Some a) ++ l2) with (l1 ++ a :: l2). rewrite <- Ha. apply world_eta.
      * apply advances_local; [by apply outer_steady|by intros ? ? ? [= <-]|]. rewrite Hs. cbn. lia.
  - change (wp (on_sp t20_syncpt_update_min) ?K (st W)) with (K (reg (sp (st W))) (set_sp (set_min (reg (sp (st W))) (sp (st W))) (st W))).
    cbv beta. wp_simpl. apply advances_local; [done|by intros ? ? ? [= <-] [= _ <-]|]. rewrite Hs. cbn [from_option a_stage at_stage stage_work work set_sp].
    rewrite Z.eqb_refl. cbn. lia.
  - eapply wp_mono; [by apply (step_processed W l1 l2 a HW Ha v c)|]. intros [l low] s Hp. wp_simpl. split; [right; by eapply to_do_processed|]. split; [|by intros ? ? ? [= <-]].
    intros w Hq. destruct Hp as [_ _ (pr & Hp & _) _ _ _ _]. rewrite Hp. mem. auto.
  - unfold queue_low_prio_work. destruct low; wp_simpl; (apply advances_local; [done|by intros ? ? ? [= <-]|]); rewrite Hs; cbn; [destruct (work (st W))|]; cbn; lia.
  - eapply wp_run_handler.
    + eapply vinv_perm; [done| |done|done|exact I]. cbn. by rewrite <- Permutation_middle.
    + intros s _ Eo _. wp_simpl. apply advances_local; [by apply outer_steady|by intros ? ? ? [= <-]|]. rewrite Hs. injection Eo as ? ? ? ->. cbn. lia.
  - destruct (proj1 (vi_dom _ _ _ _ _ _ _ _ _ I w)) as [x Hx]; [mem; auto|].
    eapply wp_waiter_put; [exact Hx|]. intros s _ _ Eo. wp_simpl. apply advances_local; [by apply outer_steady|by intros ? ? ? [= <-]|]. rewrite Hs.
    injection Eo as ? ? ? ->. cbn. lia.
  - assert (forall s, outer s = outer (st W) -> wp (if a_busy a then module_idle_mult 1 else mret tt)
      (fun _ s => advances None s) s) as Hfin.
    { intros s Eo. unfold module_idle_mult. destruct (a_busy a); wp_simpl; (apply advances_local; [by apply outer_steady|done|]);
        rewrite Hs; injection Eo as ? ? ? E; cbn; rewrite ?E; lia. }
    destruct (a_ref a) as [w|] eqn:Er; wp_simpl.
    + destruct (proj1 (vi_dom _ _ _ _ _ _ _ _ _ I w)) as [x Hx]; [cbn; mem; auto|].
      eapply wp_waiter_put; [exact Hx|]. intros s _ _ Eo. wp_simpl. eapply wp_mono; [by apply Hfin|]. intros [] s1 H1. by wp_simpl.
    + eapply wp_mono; [by apply Hfin|]. intros [] s1 H1. by wp_simpl.
Qed.
End measure.

Lemma work_step_decr W W' : winv W -> windowed W -> work_step W W' -> W' = W \/ (to_do W' < to_do W)%nat.
Proof.
  intros HW Hw Hs. destruct Hs as [W now r s' Hr E|W l s' Hk E|W l1 a l2 oa s' Ha E].
  - right. apply isr_start_outer in E as (E1 & E2 & E3 & E4). unfold to_do. cbn [st agents V]. rewrite E1, E2, E3, Hr, agents_work_app.
    assert (agents_work (V W) (isr_agent r) <= 7)%nat by (unfold isr_agent; by destruct (r =? 0); cbn; lia).
    unfold raised at 1. rewrite E4. cbn [andb b2n]. lia.
  - right. unfold work_start, low_prio_cut in E. munfold. injection E as <- <-. unfold to_do. cbn [st agents V]. rewrite agents_work_app, Hk.
    set (s' := set_low_prio _ _). assert (low_list s' = []) as El.
    { apply low_list_nil. cbn. generalize (low_prio_handlers (st W)). induction l as [|l0 l IH]; cbn; done. }
    rewrite El.
    change (raised s') with (raised (st W)). change (wait_head s') with (wait_head (st W)). cbn [agents_work a_stage stage_work b2n length]. 
    change (work s') with false. cbn [b2n].
    change (handler_list ([] :: [] :: [] :: [] :: low_prio_handlers (st W))) with (low_list (st W)). lia.
  - by apply (wp_run _ _ _ _ _ (agent_step_decr W l1 l2 a HW Hw Ha)) in E as [[[E _]|E] _]; auto.
Qed.

Lemma work_step_windowed W W' : winv W -> windowed W -> work_step W W' -> windowed W'.
Proof.
  intros HW Hw Hs. destruct Hs as [W now r s' Hr E|W l s' Hk E|W l1 a l2 oa s' Ha E]; split; try apply Hw; cbn [st agents V info].
  - apply isr_start_outer in E as (-> & _). intros w Hq. destruct Hw as [Hw _]. destruct (Hw w Hq) as [H1 H2]. split; [done|].
    intros a v c [Hin|Hin]%elem_of_app; [by eapply H2|]. unfold isr_agent in Hin. destruct (r =? 0); [|by apply not_elem_of_nil in Hin].
    apply list_elem_of_singleton in Hin as ->. done.
  - unfold work_start, low_prio_cut in E. munfold. injection E as <- <-. intros w Hq. destruct Hw as [Hw _].
    destruct (Hw w Hq) as [H1 H2]. split; [done|].
    intros a v c Hin. mem_in Hin. destruct Hin as [Hin|[->|Hin]]; [by eapply H2|done|by apply not_elem_of_nil in Hin].
  - apply (wp_run _ _ _ _ _ (agent_step_decr W l1 l2 a HW Hw Ha)) in E as (_ & Hsub & Hc). intros w Hq. destruct Hw as [Hw _].
    destruct (Hw w (Hsub w Hq)) as [H1 H2]. split; [done|]. intros b v c Hb Hs. apply next_elem in Hb as [->|Hb].
    + by rewrite (Hc _ _ _ eq_refl Hs).
    + eapply (H2 b v c); [|done]. rewrite Ha. mem_in Hb. mem. tauto.
Qed.

Lemma busy_sound W W' : sound W -> work_step W W' -> sound W'.
Proof. intros [HW Hw] Hs. split; eauto using work_step_winv, work_step_windowed. Qed.

(** ** Somebody can always go on *)

Lemma work_keeps W W' : work_step W W' -> V W' = V W /\ info W' = info W /\ mx W' = mx W.
Proof. by destruct 1. Qed.

Lemma agent_can_step W a : sound W -> a ∈ agents W -> (exists W', busy_step W W') \/ blocked W a.
Proof.
  intros [HW Hw] Ha. apply list_elem_of_split in Ha as (l1 & l2 & Ha).
  destruct (wp_total _ _ _ (agent_step_decr W l1 l2 a HW Hw Ha)) as (oa & s & E & [[[_ Hb]|Hlt] _]); [by right|left].
  eexists. split; [by eapply step_agent|]. intros Heq. unfold next in Hlt. rewrite Heq in Hlt. lia.
Qed.

(** A waiter that a task waits for is with another task or with the worker. *)
Lemma blocked_other W a : sound W -> a ∈ agents W -> blocked W a ->
  work (st W) = true \/ exists b, b ∈ agents W /\ a_stage b <> SCancel.
Proof.
  intros [HW _] Ha (Hs & w & x & Hr & Hx & Hst). pose proof (w_inv W HW) as I.
  assert (w ∈ held W ++ clients (agents W)) as Hc.
  { mem. right. unfold clients. apply list_elem_of_omap. by exists a. }
  assert (exists pl, placed (wait_head (st W)) (low_list (st W) ++ concat (map pre (agents W))) (concat (map post (agents W))) w pl) as [pl Hp].
  { destruct (decide (w ∈ wait_head (st W))); [by exists InQueue|].
    destruct (decide (w ∈ (low_list (st W) ++ concat (map pre (agents W))).*2)) as [([i v] & -> & Hi)%list_elem_of_fmap|]; [by exists (ToRun i)|].
    destruct (decide (w ∈ concat (map post (agents W)))); [by exists ToPut|by exists Unlisted]. }
  destruct (vinv_place _ _ _ _ _ _ _ _ _ w x pl I Hx Hp) as (wi & _ & _ & _ & P).
  destruct pl as [|i| |]; cbn in P; cbn [placed] in Hp.
  - exfalso. rewrite Hst in P. destruct P as (_ & _ & _ & [[? _]|[? _]]); wls.
  - mem_in Hp. destruct Hp as [Hl|Hl].
    + assert (low_list (st W) <> []) as Hne by (intros E; rewrite E in Hl; by apply not_elem_of_nil in Hl).
      destruct (w_work W HW Hne) as [|(b & Hb & Fb)]; [auto|]. right. exists b. split; [done|]. intros E. unfold requeues in Fb. by rewrite E in Fb.
    + right. apply list_elem_of_In, in_concat in Hl as (l & Hin & Hl). apply in_map_iff in Hin as (b & <- & Hb).
      exists b. split; [by apply list_elem_of_In|]. intros E. unfold pre in Hl. by rewrite E in Hl.
  - exfalso. rewrite Hst in P. destruct P; wls.
  - exfalso. rewrite Hst in P. destruct P; wls.
Qed.

Lemma work_step_changes W W' : agents W' <> agents W -> W' <> W.
Proof. by intros H ->. Qed.

Lemma can_go_on W : sound W -> quiet W \/ exists W', busy_step W W'.
Proof.
  intros HS. pose proof HS as [HW Hw]. destruct (raised (st W)) eqn:Er.
  { right. destruct (wp_total _ _ _ (isr_start_ok W 0 HW Hw Er)) as (r & s & E & _ & _). eexists. split; [by eapply step_isr|].
    intros E1. apply (f_equal (fun W => raised (st W))) in E1. cbn [st] in E1. apply isr_start_outer in E as (_ & _ & _ & E).
    unfold raised at 1 in E1. rewrite E, Er in E1. done. }
  destruct (work (st W)) eqn:Ek.
  { right. destruct (wp_total _ _ _ (work_start_ok W HW)) as (l & s & E & _). eexists. split; [by eapply step_work|].
    apply work_step_changes. cbn. intros E1. apply (f_equal length) in E1. rewrite length_app in E1. cbn in E1. lia. }
  destruct (agents W) as [|a ags] eqn:Ea; [by left|]. right.
  assert (a ∈ agents W) as Ha by (rewrite Ea; by left).
  destruct (agent_can_step W a HS Ha) as [|Hb]; [done|].
  destruct (blocked_other W a HS Ha Hb) as [|(b & Hin & Hne)]; [congruence|].
  destruct (agent_can_step W b HS Hin) as [|[? _]]; done.
Qed.

Section settles.
Variables (p : syncpt) (busy v m : Z).
Hypothesis (Hstart : start_ok p v m).
Abbreviation reachable := (rtc wstep (start p busy v m)).

Lemma busy_acc W : sound W -> Acc (fun y x => busy_step x y) W.
Proof.
  remember (to_do W) as n eqn:En. assert (to_do W <= n)%nat as Hn by lia. clear En. revert W Hn.
  induction n as [|n IH]; intros W Hn HS; constructor; intros W' [Hs Hne];
    (destruct (work_step_decr W W' (proj1 HS) (proj2 HS) Hs) as [E|Hlt]; [destruct (Hne E)|]).
  - lia.
  - apply IH; [lia|by eapply busy_sound].
Qed.

(** C13. When the counter stands still and clients do nothing, the interrupt's thread, the worker
    and the tasks that drop references come to an end in whatever order they run, turns of
    the loop that waits for a handler aside: no run of them is endless, and one stops only
    where nobody has anything left to do. *)
Theorem intr_settles W : reachable W ->
  Acc (fun y x => busy_step x y) W /\
  (forall W', rtc busy_step W W' -> (forall W'', ~ busy_step W' W'') -> quiet W') /\
  (exists W', rtc busy_step W W' /\ reachable W' /\ quiet W' /\ V W' = V W /\ info W' = info W).
Proof.
  intros Hr. pose proof (reachable_sound _ _ _ _ _ Hstart Hr) as HS.
  assert (forall W1 W2, rtc busy_step W1 W2 -> sound W1 -> sound W2) as Hrun.
  { induction 1 as [|x y z [Hxy _] _ IH]; [done|]. intros Hx. by apply IH, (busy_sound x). }
  split; [by apply busy_acc|]. split.
  - intros W' Hs Hstop. destruct (can_go_on W' (Hrun _ _ Hs HS)) as [|[W'' Hb]]; [done|]. by apply Hstop in Hb.
  - pose proof (busy_acc W HS) as Hacc. revert Hr HS. induction Hacc as [W _ IH]. intros Hr HS.
    destruct (can_go_on W HS) as [|[W1 Hb]]; [by exists W|]. pose proof Hb as [Hw1 _]. pose proof (busy_sound _ _ HS Hw1) as HS1.
    destruct (IH W1 Hb) as (W' & H1 & H2 & H3 & H4 & H5); [|done|].
    + eapply rtc_r; [exact Hr|]. apply wstep_work; [done|apply HS1].
    + destruct (work_keeps _ _ Hw1) as (E1 & E2 & _). exists W'. split; [by eapply rtc_l|]. split; [done|]. split; [done|]. split; congruence.
Qed.
End settles.

(** ** Runs by name *)

Inductive cmd :=
  | CIncr | CIncrMax | CAdd (w : nat) (t : Z) (a : nvhost_intr_action) (d : Z) (ref : bool) | CPut (i : nat)
  | CIsr (now : Z) | CWork | CTask (i : nat) | CPower (e : Z).

Definition withinb (c t : Z) : bool := (- 2147483648 <? t - c) && (t - c <? 2147483648).
Definition loaded_ok (W : world) (w : nat) (a : agent) : bool :=
  match a_stage a with
  | SLock _ c => withinb c (thr (info W) w)
  | _ => true
  end.
Definition windowedb (W : world) : bool :=
  forallb (fun w => withinb (V W) (thr (info W) w) && forallb (loaded_ok W w) (agents W)) (wait_head (st W)) &&
  (mx W - V W <? 2147483648).
Definition req_okb (a : nvhost_intr_action) (d : Z) (ref : bool) : bool :=
  match a with
  | WAKEUP | WAKEUP_INTERRUPTIBLE => true
  | FAST_NOTIFY | NOTIFY => negb ref && negb (d =? 0)
  | _ => negb ref
  end.

Definition step_cmd (W : world) (c : cmd) : option world :=
  match c with
  | CIncr => if negb (tracked W) || (V W <? mx W)
      then Some (World (hw_incr (st W)) (agents W) (held W) (V W + 1) (mx W) (info W) (canc W)) else None
  | CIncrMax => '(_, s) ← on_sp (nvhost_syncpt_incr_max 1) (st W);
      Some (World s (agents W) (held W) (V W) (mx W + 1) (info W) (canc W))
  | CAdd w t a d ref =>
      if bool_decide (info W !! w = None) && req_okb a d ref && forallb (fun p => withinb t (thr (info W) p)) (wait_head (st W)) then
        '(r, s) ← client_add w t a d ref (st W);
        if r =? 0 then Some (World s (agents W) (if ref then w :: held W else held W) (V W) (mx W) (<[w := WInfo t a d]> (info W)) (canc W))
        else None
      else None
  | CPut i => w ← held W !! i;
      Some (World (st W) (agents W ++ [Agent (Some w) false SCancel]) (take i (held W) ++ drop (S i) (held W)) (V W) (mx W) (info W) (canc W))
  | CIsr now =>
      if raised (st W) then
        '(r, s) ← isr_start now (st W);
        Some (World s (agents W ++ isr_agent r) (held W) (V W) (mx W) (info W) (canc W))
      else None
  | CWork =>
      if work (st W) then
        '(l, s) ← work_start (st W);
        Some (World s (agents W ++ [Agent None false (SRun l false)]) (held W) (V W) (mx W) (info W) (canc W))
      else None
  | CTask i =>
      a ← agents W !! i;
      '(oa, s) ← agent_step (V W) a (st W);
      Some (World s (take i (agents W) ++ option_list oa ++ drop (S i) (agents W)) (held W) (V W) (mx W) (info W) (cancels a (st W) ∪ canc W))
  | CPower e => Some (World (set_host_busy_err e (st W)) (agents W) (held W) (V W) (mx W) (info W) (canc W))
  end.
Fixpoint run_cmds (W : world) (l : list cmd) : option world :=
  match l with
  | [] => Some W
  | c :: l => W' ← step_cmd W c; if windowedb W' then run_cmds W' l else None
  end.

Lemma withinb_ok c t : withinb c t = true -> within c t.
Proof. unfold withinb, within. change (2 ^ 31) with 2147483648. intros [?%Z.ltb_lt ?%Z.ltb_lt]%andb_prop. lia. Qed.
Lemma windowedb_ok W : windowedb W = true -> windowed W.
Proof.
  unfold windowedb. intros [Hq Hm%Z.ltb_lt]%andb_prop. rewrite forallb_forall in Hq. split; [|change (2 ^ 31) with 2147483648; lia].
  intros w Hw%list_elem_of_In. apply Hq, andb_prop in Hw as [H1 H2]. split; [by apply withinb_ok|].
  intros a v c Ha%list_elem_of_In Hs. rewrite forallb_forall in H2. specialize (H2 a Ha). unfold loaded_ok in H2. rewrite Hs in H2.
  by apply withinb_ok.
Qed.
Lemma req_okb_ok a d ref : req_okb a d ref = true -> req_ok a d ref.
Proof.
  unfold req_okb, req_ok, wakes. destruct a, ref; cbn; intros H; try discriminate H; (split; [auto; discriminate|]);
    try (intros [E|E]; discriminate E); intros _; by destruct (Z.eqb_spec d 0).
Qed.

Lemma step_cmd_wstep W c W' : step_cmd W c = Some W' -> windowed W' -> wstep W W'.
Proof.
  intros E Hw. destruct c as [| |w t a d ref|i|now| |i|e]; cbn [step_cmd] in E.
  - destruct (negb (tracked W) || (V W <? mx W)) eqn:Hc; [|done]. injection E as <-. apply wstep_env; [|done]. constructor.
    intros Ht. rewrite Ht in Hc. cbn in Hc. by apply Z.ltb_lt.
  - destruct (on_sp _ _) as [[x s]|] eqn:Ex; [|done]. injection E as <-. apply wstep_env; [|done]. by eapply step_incr_max.
  - destruct (bool_decide _ && _ && _) eqn:Hc; [|done]. apply andb_prop in Hc as [[H1%bool_decide_eq_true H2]%andb_prop H3].
    destruct (client_add w t a d ref (st W)) as [[r s]|] eqn:Ex; [|done]. cbn in E. destruct (Z.eqb_spec r 0) as [->|]; [|done].
    injection E as <-. apply wstep_env; [|done]. apply step_add; [|done]. split; [done|]. split; [by apply req_okb_ok|].
    intros p Hp%list_elem_of_In. rewrite forallb_forall in H3. by apply withinb_ok, H3.
  - destruct (held W !! i) as [w|] eqn:Ex; [|done]. injection E as <-. apply wstep_env; [|done]. apply step_put. by rewrite take_drop_middle.
  - destruct (raised (st W)) eqn:Hr; [|done]. destruct (isr_start now (st W)) as [[r s]|] eqn:Ex; [|done]. injection E as <-.
    apply wstep_work; [|done]. by eapply step_isr.
  - destruct (work (st W)) eqn:Hr; [|done]. destruct (work_start (st W)) as [[r s]|] eqn:Ex; [|done]. injection E as <-.
    apply wstep_work; [|done]. by eapply step_work.
  - destruct (agents W !! i) as [a|] eqn:Ei; [|done]. cbn [mbind option_bind] in E. destruct (agent_step (V W) a (st W)) as [[oa s]|] eqn:Ex; [|done]. injection E as <-.
    apply wstep_work; [|done]. eapply step_agent; [|exact Ex]. by rewrite take_drop_middle.
  - injection E as <-. apply wstep_env; [constructor|done].
Qed.
Lemma run_cmds_reachable l W W' : run_cmds W l = Some W' -> rtc wstep W W'.
Proof.
  revert W. induction l as [|c l IH]; intros W E; cbn in E; [injection E as <-; apply rtc_refl|].
  destruct (step_cmd W c) as [W1|] eqn:E1; [|done]. cbn in E. destruct (windowedb W1) eqn:Hw; [|done].
  eapply rtc_l; [by eapply step_cmd_wstep; [|apply windowedb_ok]|auto].
Qed.

(** Two submits of one channel and a task that sleeps; another task gives up before its
    threshold is reached. *)
Definition demo_pt : syncpt := Syncpt true false false 4294967294 2 1 None None 4294967294.
Definition demo_script : list cmd :=
  [CAdd 0 4294967295 SUBMIT_COMPLETE 7 false; CAdd 1 4294967296 SUBMIT_COMPLETE 7 false; CAdd 2 4294967296 WAKEUP 0 true;
   CAdd 3 4294967298 WAKEUP_INTERRUPTIBLE 0 true; CIncr; CIncr; CIsr 5; CPut 0; CTask 0; CTask 1; CTask 1; CTask 0;
   CTask 0; CTask 0; CTask 1; CTask 0; CTask 0; CTask 0; CTask 0; CWork; CTask 0; CTask 0; CTask 0; CTask 0; CTask 0; CTask 0].
Definition demo_world : world := default (start demo_pt 1 4294967294 4294967298) (run_cmds (start demo_pt 1 4294967294 4294967298) demo_script).

Lemma demo_start : start_ok demo_pt 4294967294 4294967298.
Proof. split; [reflexivity|]. split; [reflexivity|]. vm_compute. split; [discriminate|reflexivity]. Qed.
Lemma demo_world_run : rtc wstep (start demo_pt 1 4294967294 4294967298) demo_world.
Proof.
  apply (run_cmds_reachable demo_script). unfold demo_world.
  destruct (run_cmds (start demo_pt 1 4294967294 4294967298) demo_script) eqn:E; [reflexivity|].
  exfalso. revert E. vm_compute. discriminate.
Qed.
Lemma demo_quiet : quiet demo_world.
Proof. vm_compute. done. Qed.

Lemma intr_safe_witness : warned (st demo_world) = false.
Proof. exact (proj1 (intr_safe demo_pt 1 4294967294 4294967298 demo_start demo_world demo_world_run)). Defined.
Lemma intr_once_witness : NoDup (map ev_waiter (handled (st demo_world))).
Proof. exact (proj1 (intr_once demo_pt 1 4294967294 4294967298 demo_start demo_world demo_world_run)). Defined.
Lemma intr_complete_witness : zsum (ev_submits 7) (handled (st demo_world)) = due_submits (info demo_world) (V demo_world) 7.
Proof.
  apply (intr_complete demo_pt 1 4294967294 4294967298 demo_start demo_world demo_world_run demo_quiet); [vm_compute; reflexivity|discriminate].
Defined.
Lemma intr_settles_witness : exists W', rtc busy_step demo_world W' /\ quiet W'.
Proof.
  destruct (intr_settles demo_pt 1 4294967294 4294967298 demo_start demo_world demo_world_run) as (_ & _ & W' & H1 & _ & H2 & _).
  exists W'. split; [exact H1|exact H2].
Defined.
(** Two submits are reported by one event. *)
Example demo_submits : zsum (ev_submits 7) (handled (st demo_world)) = 2 /\ length (handled (st demo_world)) = 2%nat.
Proof. split; vm_compute; reflexivity. Qed.

(** The host cannot be powered for the interrupt: it stays disabled, with a waiter in the queue
    whose threshold is reached, even when the host can be powered again. *)
Definition unpowered_world : world := default (start demo_pt 1 4294967294 4294967298)
  (run_cmds (start demo_pt 1 4294967294 4294967298) [CAdd 0 4294967295 SIGNAL_SYNC_PT 0 false; CIncr; CPower (- EIO); CIsr 5; CPower 0]).
Example waiter_left_behind : (quiet unpowered_world /\ wait_head (st unpowered_world) = [0%nat]) /\
  V unpowered_world = 4294967295 /\ unpowered (st unpowered_world) = true.
Proof. vm_compute. repeat split. Qed.
