(* ===== verification/IntrTasks.v ===== *)
(** * The steps of a task are the code

    Left alone, the tasks of IntrWorld.v do what nvhost_intr_put_ref, the interrupt's thread
    and the worker do. *)

From stdpp Require Import gmap relations.
From S2P Require Import Prelude Syncpt Intr IntrFacts IntrOps IntrWorld IntrRuns.

(** A task and the sync point, with nobody else; [None]: it has returned. *)
Inductive alone (v : Z) : option agent * nvhost_intr_syncpt -> option agent * nvhost_intr_syncpt -> Prop :=
  | alone_step a s oa s' : agent_step v a s = Some (oa, s') -> alone v (Some a, s) (oa, s').

Lemma alone_run v a l low s s' : run_handlers l s = Some (tt, s') ->
  rtc (alone v) (Some (at_stage a (SRun l low)), s) (Some (at_stage a (SRun [] low)), s').
Proof.
  revert s. induction l as [|iw l IH]; intros s E; cbn [run_handlers] in E; [injection E as <-; apply rtc_refl|].
  apply M_bind_Some in E as ([] & s1 & E1 & E). apply M_bind_Some in E as ([] & s2 & E2 & E).
  eapply rtc_l; [apply alone_step; unfold agent_step; cbn [a_stage at_stage]; unfold mbind, M_bind; rewrite E1; reflexivity|].
  eapply rtc_l; [apply alone_step; unfold agent_step; cbn [a_stage at_stage]; unfold mbind, M_bind; rewrite E2; reflexivity|].
  apply IH, E.
Qed.

Lemma alone_process v a t s e s' : process_wait_list t s = Some (e, s') ->
  rtc (alone v) (Some (at_stage a (SLock t v)), s) (Some (at_stage a SEnd), s').
Proof.
  intros E. unfold process_wait_list in E. apply M_bind_Some in E as ([l low] & s1 & E1 & E).
  apply M_bind_Some in E as (s1' & s1'' & [= <- <-] & E). apply M_bind_Some in E as ([] & s2 & E2 & E).
  apply M_bind_Some in E as ([] & s3 & E3 & [= <- <-]).
  eapply rtc_l; [apply alone_step; unfold agent_step; cbn [a_stage at_stage]; unfold mbind, M_bind; rewrite E1; reflexivity|].
  etrans; [by apply (alone_run v a)|].
  eapply rtc_l; [apply alone_step; unfold agent_step; cbn [a_stage at_stage]; unfold mbind, M_bind; rewrite E3; reflexivity|].
  apply rtc_refl.
Qed.

Lemma alone_load v a s t s1 e s' : on_sp t20_syncpt_update_min s = Some (t, s1) -> process_wait_list t s1 = Some (e, s') ->
  rtc (alone v) (Some (at_stage a SRead), s) (Some (at_stage a SEnd), s').
Proof.
  intros E1 E2. eapply rtc_l; [apply alone_step; unfold agent_step; cbn [a_stage at_stage]; unfold mbind, M_bind; rewrite E1; reflexivity|].
  by apply (alone_process v a) in E2.
Qed.

(** Whatever nvhost_intr_put_ref, the interrupt's thread and the worker do to a sync point is
    what the steps of a task do that nobody interrupts. *)
Lemma tasks_are_code v s s' :
  (forall w, nvhost_intr_put_ref w s = Some (tt, s') -> rtc (alone v) (Some (Agent (Some w) false SCancel), s) (None, s')) /\
  (forall now, host_busy_err s = 0 -> syncpt_thresh_cascade_isr now s = Some (tt, s') ->
     exists s1, isr_start now s = Some (0, s1) /\ rtc (alone v) (Some (Agent None true SRead), s1) (None, s')) /\
  (nvhost_syncpt_low_prio_work (set_work false s) = Some (tt, s') ->
     exists l s1, work_start s = Some (l, s1) /\ rtc (alone v) (Some (Agent None false (SRun l false)), s1) (None, s')).
Proof.
  split; [|split].
  - intros w E. unfold nvhost_intr_put_ref in E. apply M_bind_Some in E as ([] & s1 & E1 & E); [|done].
    apply M_bind_Some in E as (t & s2 & E2 & E). apply M_bind_Some in E as (e & s3 & E3 & E).
    eapply rtc_l; [apply alone_step; unfold agent_step; cbn [a_stage a_ref]; unfold mbind, M_bind; rewrite E1; reflexivity|].
    etrans; [by eapply (alone_load v (Agent (Some w) false SCancel))|].
    apply rtc_once, alone_step. unfold agent_step. cbn [a_stage at_stage a_ref a_busy]. unfold mbind, M_bind. by rewrite E.
  - intros now Hb E. unfold syncpt_thresh_cascade_isr in E. apply M_bind_Some in E as ([] & s1 & E1 & E).
    apply M_bind_Some in E as ([] & s2 & E2 & E). unfold nvhost_syncpt_thresh_fn in E. apply M_bind_Some in E as (r & s3 & E3 & E).
    assert (host_busy_err s2 = 0) as Hb2.
    { injection E1 as <-. unfold t20_intr_syncpt_intr_ack, t20_intr_disable_syncpt_intr, on_sp in E2. munfold. cbn in E2.
      destruct (t20_intr_handle_extra_increments (sp s)) as [[[] q]|]; [|done]. by injection E2 as <-. }
    assert (r = 0) as -> by (unfold thresh_fn_busy, module_busy in E3; munfold; rewrite Hb2 in E3; by injection E3).
    cbn [Z.eqb negb] in E. apply M_bind_Some in E as (t & s4 & E4 & E). apply M_bind_Some in E as (e & s5 & E5 & E).
    exists s3. split; [unfold isr_start, mbind, M_bind; rewrite E1, E2; exact E3|].
    etrans; [by eapply (alone_load v (Agent None true SRead))|].
    apply rtc_once, alone_step. unfold agent_step. cbn [a_stage at_stage a_ref a_busy]. unfold mbind, M_bind. unfold mret, M_ret. by rewrite E.
  - intros E. unfold nvhost_syncpt_low_prio_work in E. apply M_bind_Some in E as (l & s1 & E1 & E). exists l, s1.
    split; [unfold work_start, mbind, M_bind; exact E1|].
    etrans; [by apply (alone_run v (Agent None false SEnd) l false)|].
    eapply rtc_l; [apply alone_step; reflexivity|]. apply rtc_once, alone_step. reflexivity.
Qed.

Definition demo_waiting : nvhost_intr_syncpt :=
  default (idle_syncpt demo_pt 1) (snd <$> client_add 0 4294967298 WAKEUP 0 true (idle_syncpt demo_pt 1)).
Definition demo_put : nvhost_intr_syncpt := default demo_waiting (snd <$> nvhost_intr_put_ref 0 demo_waiting).
Lemma demo_tasks :
  rtc (alone 4294967294) (Some (Agent (Some 0%nat) false SCancel), demo_waiting) (None, demo_put).
Proof. apply (tasks_are_code 4294967294 demo_waiting demo_put). vm_compute. reflexivity. Defined.
