(* ===== verification/SyncptWait.v ===== *)
(** * Waiting for a value (drivers/video/tegra/host/nvhost_syncpt.c, nvhost_syncpt_wait_timeout)

    The task that waits and everybody else take turns: [env n] is what the others do, the
    jiffies that pass and whether a signal arrives in the [n]-th turn. They have one while the
    task sleeps and between the steps of the function. The state is that of one sync point
    of a host that is not virtual. *)

From stdpp Require Import gmap.
From S2P Require Import Prelude Syncpt Intr.

(** ** Turns *)

Record turn := Turn { others : nvhost_intr_syncpt -> nvhost_intr_syncpt; jiffies : Z; signal : bool }.
(** The turn that comes next; the jiffies since the call; whether a signal is pending. *)
Record waiting := Waiting { now : nvhost_intr_syncpt; turn_nr : nat; clock : Z; signal_pending : bool }.
Definition set_now (s : nvhost_intr_syncpt) (x : waiting) : waiting := Waiting s (turn_nr x) (clock x) (signal_pending x).

Abbreviation T := (M waiting).

(** A step of the task on the sync point. *)
Definition step {A} (k : I A) : T A := fun x =>
  match k (now x) with
  | Some (r, s) => Some (r, set_now s x)
  | None => None
  end.

Definition ERESTARTSYS : Z := 512.
Definition NVHOST_NO_TIMEOUT : Z := 4294967295.
Definition MAX_STUCK_CHECK_COUNT : Z := 15.
(** Milliseconds. *)
Definition SYNCPT_POLL_PERIOD : Z := 1.

(** What the call leaves in [*value] and [*ts]; [None]: they are not written. *)
Record outcome := Outcome { err : Z; value : option Z; ts : option Z }.

Section wait.
Context (env : nat -> turn) (HZ : Z) (jiffies_to_msecs msecs_to_jiffies : Z -> Z).

Definition SYNCPT_CHECK_PERIOD : Z := 6 * HZ.

(** The others have a turn: how long it was. *)
Definition meanwhile : T Z :=
  x ← get;
  let t := env (turn_nr x) in
  modify (fun x => Waiting (others t (now x)) (S (turn_nr x)) (clock x + jiffies t) (signal_pending x || signal t));;
  mret (jiffies t).

(** nvhost_ktime_get_ts *)
Definition ktime : T Z := x ← get; mret (clock x).

Section for_thresh.
(** Of the call's arguments; [ref] is the waiter, which a task that polls has not. *)
Context (thresh : Z) (interruptible : bool).

Definition reached : T bool := step (on_sp (syncpt_update_min_is_expired thresh)).

(** wait_event_timeout and wait_event_interruptible_timeout; [None]: it still sleeps after
    [fuel] turns. *)
Fixpoint wait_event (fuel : nat) (left : Z) : T (option Z) :=
  ok ← reached;
  if ok : bool then mret (Some (Z.max left 1))
  else if left =? 0 then mret (Some 0)
  else
    x ← get;
    if interruptible && signal_pending x then mret (Some (- ERESTARTSYS))
    else
      match fuel with
      | O => mret None
      | S fuel => d ← meanwhile; wait_event fuel (Z.max 0 (left - d))
      end.

(** The loop that polls, with [loops - i] to go. *)
Fixpoint poll_loop (loops : nat) : T Z :=
  match loops with
  | O => mret 0
  | S n => ok ← reached; if ok : bool then mret (Z.of_nat loops) else meanwhile;; poll_loop n
  end.
Definition poll (check : Z) : T Z :=
  let check_ms := jiffies_to_msecs check in
  left ← poll_loop (Z.to_nat ((check_ms + SYNCPT_POLL_PERIOD - 1) / SYNCPT_POLL_PERIOD));
  mret (msecs_to_jiffies (left * SYNCPT_POLL_PERIOD)).

Definition one_period (fuel : nat) (ref : option nat) (check : Z) : T (option Z) :=
  match ref with
  | None => remain ← poll check; mret (Some remain)
  | Some _ => wait_event fuel check
  end.

Definition release_ts (ref : option nat) : T Z :=
  match ref with
  | Some w =>
      '(e, t) ← step (nvhost_intr_release_time w);
      if e =? 0 then mret (default 0 t) else ktime
  | None => ktime
  end.

(** The value that is left in [*value] is 0 until there is another. *)
Fixpoint wait_loop (fuel : nat) (ref : option nat) (timeout check_count : Z) : T (option outcome) :=
  match fuel with
  | O => mret None
  | S n =>
      if timeout =? 0 then mret (Some (Outcome (- EAGAIN) (Some 0) None))
      else
        let check := Z.min SYNCPT_CHECK_PERIOD timeout in
        r ← one_period n ref check;
        match r with
        | None => mret None
        | Some remain =>
            meanwhile;;
            ok ← (if 0 <? remain then mret true else reached);
            if ok : bool then
              meanwhile;;
              x ← get;
              t ← release_ts ref;
              mret (Some (Outcome 0 (Some (nvhost_syncpt_read_min (sp (now x)))) (Some t)))
            else if remain <? 0 then mret (Some (Outcome remain (Some 0) None))
            else
              let timeout := if timeout =? NVHOST_NO_TIMEOUT then timeout else timeout - check in
              if negb (timeout =? 0) && (check_count <=? MAX_STUCK_CHECK_COUNT) then
                step (on_sp t20_syncpt_update_min);;
                wait_loop n ref timeout (check_count + 1)
              else wait_loop n ref timeout check_count
        end
  end.

(** nvhost_intr_put_ref, with turns for the handler while the task waits for it. *)
Fixpoint put_ref (fuel : nat) (w : nat) : T bool :=
  ok ← step (try_cancel w);
  if ok : bool then
    step (v ← on_sp t20_syncpt_update_min; process_wait_list v;; kref_put w);;
    mret true
  else
    match fuel with
    | O => mret false
    | S n => meanwhile;; put_ref n w
    end.

(** The part between nvhost_module_busy and nvhost_module_idle. [addr]: what the allocation
    returns; the data of the waiter is the address of its wait queue. *)
Definition wait_busy (fuel : nat) (syncpt_poll : bool) (timeout : Z) (addr : option nat) : T (option outcome) :=
  val ← step (on_sp t20_syncpt_update_min);
  meanwhile;;
  x ← get;
  if nvhost_syncpt_is_expired (sp (now x)) thresh then
    t ← ktime; mret (Some (Outcome 0 (Some val) (Some t)))
  else if timeout =? 0 then mret (Some (Outcome (- EAGAIN) (Some 0) None))
  else
    if syncpt_poll then wait_loop fuel None timeout 0
    else
      waiter ← step (nvhost_intr_alloc_waiter addr);
      match waiter with
      | None => mret (Some (Outcome (- ENOMEM) (Some 0) None))
      | Some w =>
          e ← step (nvhost_intr_add_action thresh (if interruptible then WAKEUP_INTERRUPTIBLE else WAKEUP) (Z.of_nat w) (Some w) true);
          if negb (e =? 0) then mret (Some (Outcome e (Some 0) None))
          else
            meanwhile;;
            r ← wait_loop fuel (Some w) timeout 0;
            match r with
            | None => mret None
            | Some o =>
                meanwhile;;
                ok ← put_ref fuel w;
                mret (if ok : bool then Some o else None)
            end
      end.

(** [m] is the host, of which only the ranges of the identifiers matter here;
    [use_cross_vm_interrupts] is a feature of the chip. *)
Definition nvhost_syncpt_wait_timeout (fuel : nat) (m : nvhost_master) (use_cross_vm_interrupts : bool) (id timeout : Z)
    (addr : option nat) : T (option outcome) :=
  if (id =? 0) || negb (nvhost_syncpt_is_valid_hw_pt m id) then mret (Some (Outcome (- EINVAL) None None))
  else
    let valid := nvhost_syncpt_is_valid_pt m id in
    let syncpt_poll := negb use_cross_vm_interrupts && negb valid in
    x ← get;
    if valid && nvhost_syncpt_is_expired (sp (now x)) thresh then
      meanwhile;;
      x ← get;
      t ← ktime;
      mret (Some (Outcome 0 (Some (nvhost_syncpt_read_min (sp (now x)))) (Some t)))
    else
      e ← step module_busy;
      if negb (e =? 0) then mret (Some (Outcome e (Some 0) None))
      else
        meanwhile;;
        r ← wait_busy fuel syncpt_poll timeout addr;
        match r with
        | None => mret None
        | Some o => step (module_idle_mult 1);; mret (Some o)
        end.
End for_thresh.
End wait.
