(* ===== verification/SyncptWaitFacts.v ===== *)
(** * The steps of a task that waits

    Among the tasks of IntrWorld.v: what others do in their turns is any number of the steps
    there. Rules for the steps of nvhost_syncpt_wait_timeout, and the end of
    nvhost_intr_put_ref as a run of the world. *)

From stdpp Require Import gmap fin_sets relations sorting.
From S2P Require Import Prelude Syncpt SyncptFacts Intr IntrFacts IntrOps IntrWorld IntrRuns SyncptWait.

(** ** What time does to a world *)

(** The known value of the counter is [c] modulo 2^32, which the counter had. *)
Definition loaded (W : world) (c : Z) : Prop := min_val (sp (st W)) = u32 c /\ c <= V W.

Record later (W W' : world) : Prop := {
  la_V : V W <= V W'; la_mx : mx W <= mx W'; la_tracked : tracked W' = tracked W;
  la_loaded : forall c, loaded W c -> exists c', c <= c' /\ loaded W' c' }.

#[export] Instance later_preorder : PreOrder later.
Proof.
  split.
  - intros W. split; [lia|lia|done|]. intros c. exists c. split; [lia|done].
  - intros W1 W2 W3 [A1 B1 C1 D1] [A2 B2 C2 D2]. split; [lia|lia|congruence|].
    intros c Hc. destruct (D1 c Hc) as (c1 & H1 & Hc1). destruct (D2 c1 Hc1) as (c2 & H2 & Hc2). exists c2. split; [lia|done].
Qed.

(** The known value stays, or becomes the counter's. *)
Definition sp_later (p q : syncpt) : Prop :=
  client_managed q = client_managed p /\ (min_val q = min_val p \/ min_val q = reg p).

Lemma later_sp W W' : winv W -> sp_later (sp (st W)) (sp (st W')) -> V W <= V W' -> mx W <= mx W' -> later W W'.
Proof.
  intros HW [Hc Hm] HV Hmx. destruct (w_sp W HW) as [R _]. split; [done|done|unfold tracked; by rewrite Hc|].
  intros c [E Hle]. unfold loaded. destruct Hm as [-> | ->].
  - exists c. split; [done|]. split; [done|lia].
  - exists (V W). split; [done|]. split; [done|lia].
Qed.

Lemma sp_later_refl p : sp_later p p.
Proof. split; auto. Qed.
Lemma sp_later_update p : sp_later p (set_min (reg p) p).
Proof. split; [done|by right]. Qed.
Lemma outer_sp s s' : outer s' = outer s -> sp s' = sp s.
Proof. intros E. by injection E. Qed.

Lemma agent_step_sp W l1 a l2 : winv W -> windowed W -> agents W = l1 ++ a :: l2 ->
  wp (agent_step (V W) a) (fun _ s => sp_later (sp (st W)) (sp s)) (st W).
Proof.
  intros HW Hw Ha. pose proof (agent_inv W l1 l2 a HW Ha) as I. unfold agent_step, pre, post in *.
  destruct (a_stage a) as [| |v c|[|[i w] l] low|w l low|] eqn:Hs.
  - destruct (a_ref a) as [w|] eqn:Er.
    + wp_simpl. eapply wp_try_cancel; [exact I|by left| |].
      * intros s' _ _ Eo _ _. wp_simpl. rewrite (outer_sp _ _ Eo). apply sp_later_refl.
      * intros x _ _. wp_simpl. apply sp_later_refl.
    + pose proof (w_agents W HW) as Hok. rewrite list.Forall_forall in Hok. specialize (Hok a (agent_in W l1 l2 a Ha)).
      unfold agent_ok in Hok. by rewrite Hs in Hok.
  - wp_simpl. change (sp_later (sp (st W)) (set_min (reg (sp (st W))) (sp (st W)))). apply sp_later_update.
  - wp_simpl. eapply wp_mono; [by apply (step_processed W l1 l2 a HW Ha v c Hs Hw)|].
    intros [l low] s [_ _ _ _ _ _ (E1 & _)]. wp_simpl. rewrite E1. apply sp_later_refl.
  - unfold queue_low_prio_work. destruct low; wp_simpl; apply sp_later_refl.
  - wp_simpl. eapply wp_run_handler.
    + eapply vinv_perm; [reflexivity|symmetry; apply Permutation_middle|reflexivity|reflexivity|exact I].
    + intros s' _ Eo _. wp_simpl. rewrite (outer_sp _ _ Eo). apply sp_later_refl.
  - wp_simpl. destruct (proj1 (vi_dom _ _ _ _ _ _ _ _ _ I w)) as [x Hx]; [cbn; mem; auto 6|].
    eapply wp_waiter_put; [exact Hx|]. intros s' _ _ Eo. wp_simpl. rewrite (outer_sp _ _ Eo). apply sp_later_refl.
  - assert (forall s, sp s = sp (st W) ->
      wp (if a_busy a then module_idle_mult 1 else mret tt) (fun _ s => sp_later (sp (st W)) (sp s)) s) as Hfin.
    { intros s E. unfold module_idle_mult. destruct (a_busy a); wp_simpl; cbn; rewrite E; apply sp_later_refl. }
    wp_simpl. destruct (a_ref a) as [w|] eqn:Er.
    + destruct (proj1 (vi_dom _ _ _ _ _ _ _ _ _ I w)) as [x Hx]; [cbn; mem; auto 6|].
      eapply wp_waiter_put; [exact Hx|]. intros s' _ _ Eo. wp_simpl. eapply wp_mono; [by apply Hfin, outer_sp|].
      intros [] s Hs'. by wp_simpl.
    + wp_simpl. eapply wp_mono; [by apply Hfin|]. intros [] s Hs'. by wp_simpl.
Qed.

Lemma thresh_fn_busy_sp s r s' : thresh_fn_busy s = Some (r, s') -> sp s' = sp s.
Proof.
  unfold thresh_fn_busy, module_busy. munfold. destruct (host_busy_err s =? 0) eqn:E; [by intros [= <- <-]|]. rewrite E. by intros [= <- <-].
Qed.
Lemma isr_start_sp now s r s' : isr_start now s = Some (r, s') -> (client_managed (sp s) = false -> s32 (reg (sp s) - max_val (sp s)) <= 0) ->
  sp_later (sp s) (sp s').
Proof.
  unfold isr_start, t20_intr_syncpt_intr_ack, t20_intr_disable_syncpt_intr, on_sp, t20_intr_handle_extra_increments,
    t20_syncpt_update_min. munfold. cbn [sp set_sp_isr_recv set_int]. intros E Hc. destruct (client_managed (sp s)) eqn:Ec.
  - apply thresh_fn_busy_sp in E as ->. split; cbn; auto.
  - cbn [set_min reg max_val] in E. assert ((0 <? s32 (reg (sp s) - max_val (sp s))) = false) as Hn by (apply Z.ltb_ge; auto).
    rewrite Hn in E. apply thresh_fn_busy_sp in E as ->. split; cbn; auto.
Qed.

Lemma wstep_later W W' : sound W -> wstep W W' -> later W W'.
Proof.
  intros HS H. revert HS. destruct H as [X X' Hs _|X X' Hs _];
    [destruct Hs as [X now r s' Hr E|X l s' _ E|X l1 a l2 oa s' Ha E]|destruct Hs as [X Hv|X v s' E|X v s' [= <- <-]|X w t a d ref s' Hc E|X h1 w h2 Hh|X e]];
    intros [HW Hw]; (apply later_sp; [done| |cbn; lia|cbn; lia]); cbn [st].
  - eapply isr_start_sp; [exact E|]. intros Hc. destruct (w_sp X HW) as [R1 R2]. destruct R2 as [R2 R3]; [unfold tracked; by rewrite Hc|].
    destruct Hw as [_ Hw]. rewrite R1, R2, s32_sub by (change (2 ^ 31) with 2147483648 in *; lia). lia.
  - unfold work_start, low_prio_cut in E. munfold. injection E as <- <-. apply sp_later_refl.
  - by apply (wp_run _ _ _ _ _ (agent_step_sp X l1 a l2 HW Hw Ha)) in E.
  - split; cbn; auto.
  - unfold on_sp, nvhost_syncpt_incr_max in E. munfold. injection E as <- <-. split; cbn; auto.
  - apply sp_later_update.
  - apply (wp_run _ _ _ _ _ (add_ok X w t a d ref HW Hc)) in E as (_ & E & _). destruct (E eq_refl) as (-> & _). apply sp_later_refl.
  - apply sp_later_refl.
  - apply sp_later_refl.
Qed.


(** ** The others *)

(** A threshold that is within half the range of the counter, of the known value, of what
    others have loaded and of the thresholds in the queue; the known value is not older. *)
Record near (t : Z) (W : world) : Prop := {
  ne_V : within (V W) t;
  ne_c : exists c, loaded W c /\ V W < c + 2 ^ 31 /\ within c t;
  ne_agents : forall a v c, a ∈ agents W -> a_stage a = SLock v c -> within c t;
  ne_queue : forall p, p ∈ wait_head (st W) -> within t (thr (info W) p) }.

(** It is one that the expected increments reach. *)
Definition calm (t : Z) (W : world) : Prop := sound W /\ near t W /\ (tracked W = true -> t <= mx W).

(** What others may do in a turn: steps of IntrWorld.v within the window, which neither use the
    address of the task's waiter nor drop its reference. *)
Definition interferes (t : Z) (addr : option nat) (f : nvhost_intr_syncpt -> nvhost_intr_syncpt) : Prop :=
  forall W, calm t W -> exists W', rtc wstep W W' /\ st W' = f (st W) /\ near t W' /\
    forall w, addr = Some w -> (info W !! w = None -> info W' !! w = None) /\ (w ∈ held W -> w ∈ held W').

Lemma wsteps_later W W' : sound W -> rtc wstep W W' -> sound W' /\ later W W'.
Proof.
  intros HS Hr. revert HS. induction Hr as [|W W1 W2 H1 _ IH]; intros HS; [done|].
  destruct (IH (wstep_sound _ _ HS H1)) as [HS2 Hl]. split; [done|]. etrans; [by apply wstep_later|done].
Qed.
Lemma calm_later t W W' : calm t W -> sound W' -> later W W' -> near t W' -> calm t W'.
Proof.
  intros (_ & _ & Hm) HS Hl Hn. split; [done|]. split; [done|]. rewrite (la_tracked _ _ Hl). pose proof (la_mx _ _ Hl). intros Ht. specialize (Hm Ht). lia.
Qed.

Lemma expired_at t W c : calm t W -> loaded W c -> V W < c + 2 ^ 31 -> within c t ->
  nvhost_syncpt_is_expired (sp (st W)) (u32 t) = (t <=? c).
Proof.
  intros ([HW [_ Hw]] & Hn & Hm) [Hc Hle] Hwin Ht. unfold within in *. change (2 ^ 31) with 2147483648 in *.
  destruct (w_sp W HW) as [_ R]. unfold tracked in *.
  assert (forall f, (client_managed (sp (st W)) = false -> max_val (sp (st W)) = u32 f) -> 0 <= f - c < 2 ^ 32 -> f - 2 ^ 32 < t ->
    (client_managed (sp (st W)) = false -> t <= f) -> nvhost_syncpt_is_expired (sp (st W)) (u32 t) = (t <=? c)) as H.
  { intros f Hf Hcf Hft Htf. unfold nvhost_syncpt_is_expired. transitivity (_nvhost_syncpt_is_expired (u32 c) (u32 f) (negb (client_managed (sp (st W)))) (u32 t)).
    - rewrite Hc. destruct (client_managed (sp (st W))); [done|]. by rewrite Hf.
    - rewrite is_expired_outstanding; [|done|unfold comparable; change (2 ^ 32) with 4294967296 in *; change (2 ^ 31) with 2147483648; destruct (client_managed (sp (st W))); cbn [negb]; try specialize (Htf eq_refl); lia].
      unfold outstanding. destruct (client_managed (sp (st W))); cbn [negb orb].
      + rewrite andb_true_r. by destruct (Z.ltb_spec c t), (Z.leb_spec t c); try lia.
      + specialize (Htf eq_refl). apply Z.leb_le in Htf. rewrite Htf, andb_true_r. by destruct (Z.ltb_spec c t), (Z.leb_spec t c); try lia. }
  pose proof (ne_V _ _ Hn) as HV. unfold within in HV. change (2 ^ 31) with 2147483648 in *. change (2 ^ 32) with 4294967296 in *.
  destruct (client_managed (sp (st W))) eqn:Ec.
  - apply (H c); [done|lia|lia|done].
  - destruct (R eq_refl) as [R1 R2]. apply (H (mx W)); [done|lia|lia|auto].
Qed.

(** A step of the task that changes the known value or the host's references. *)
Definition with_st (W : world) (s : nvhost_intr_syncpt) : world := World s (agents W) (held W) (V W) (mx W) (info W) (canc W).
Definition known (W : world) : nvhost_intr_syncpt := set_sp (set_min (reg (sp (st W))) (sp (st W))) (st W).

Lemma calm_known t W : calm t W -> calm t (with_st W (known W)) /\ later W (with_st W (known W)) /\ loaded (with_st W (known W)) (V W).
Proof.
  intros Hc. pose proof Hc as ([HW Hw] & Hn & Hm).
  assert (loaded (with_st W (known W)) (V W)) as Hl by (split; [apply (w_sp W HW)|cbn; lia]).
  assert (later W (with_st W (known W))) as La by (apply later_sp; [done|apply sp_later_update|cbn; lia|cbn; lia]).
  split; [|done]. eapply calm_later; [exact Hc| |exact La|].
  - split; [|exact Hw]. by destruct HW.
  - destruct Hn as [N1 N2 N3 N4]. split; try done. exists (V W). split; [done|]. split; [cbn; lia|done].
Qed.
Lemma calm_busy t W b : calm t W -> calm t (with_st W (set_host_busy b (st W))) /\ later W (with_st W (set_host_busy b (st W))).
Proof.
  intros Hc. pose proof Hc as ([HW Hw] & Hn & Hm).
  assert (later W (with_st W (set_host_busy b (st W)))) as La by (apply later_sp; [done|apply sp_later_refl|cbn; lia|cbn; lia]).
  split; [|done]. eapply calm_later; [exact Hc| |exact La|].
  - split; [|exact Hw]. by destruct HW.
  - by destruct Hn.
Qed.

(** ** Steps of the task *)

Lemma wp_step {A} (k : I A) K x : wp (step k) K x = wp k (fun r s => K r (set_now s x)) (now x).
Proof. unfold wp, step. by destruct (k (now x)) as [[r s]|]. Qed.

Section task.
Variables (env : nat -> turn) (t : Z) (addr : option nat).
Hypothesis (Henv : forall n, interferes t addr (others (env n))).

(** The task is in a world that came from [W0]; [own]: it has a reference to its waiter, whose
    address nobody has used before. *)
Record stands (own : bool) (W0 W : world) (x : waiting) : Prop := {
  he_now : now x = st W; he_calm : calm t W; he_later : later W0 W;
  he_own : forall w, addr = Some w -> if own then w ∈ held W else info W !! w = None }.

Lemma wp_meanwhile own W0 W x (K : Z -> waiting -> Prop) : stands own W0 W x ->
  (forall W' x', stands own W0 W' x' -> later W W' -> clock x' = clock x + jiffies (env (turn_nr x)) ->
     (signal_pending x = true -> signal_pending x' = true) -> turn_nr x' = S (turn_nr x) -> K (jiffies (env (turn_nr x))) x') -> wp (meanwhile env) K x.
Proof.
  intros [Hx Hc Hl Ho] HK. destruct (Henv (turn_nr x) W Hc) as (W' & Hr & Hs & Hn & Hw).
  destruct (wsteps_later W W' (proj1 Hc) Hr) as [HS La].
  unfold meanwhile. wp_simpl. apply (HK W'); [|done|done|by cbn; intros ->|done].
  split; [by rewrite Hs, Hx|by eapply calm_later|by etrans|].
  intros w Hw'. specialize (Ho w Hw'). destruct (Hw w Hw') as [H1 H2]. destruct own; auto.
Qed.

Lemma wp_load own W0 W x (K : Z -> waiting -> Prop) : stands own W0 W x ->
  (forall W', stands own W0 W' (set_now (st W') x) -> later W W' -> V W' = V W -> loaded W' (V W) -> K (u32 (V W)) (set_now (st W') x)) ->
  wp (step (on_sp t20_syncpt_update_min)) K x.
Proof.
  intros [Hx Hc Hl Ho] HK. rewrite wp_step, Hx. destruct (calm_known t W Hc) as (Hc' & La & Hld).
  pose proof (proj1 (w_sp W (proj1 (proj1 Hc)))) as R. change (K (reg (sp (st W))) (set_now (st (with_st W (known W))) x)).
  rewrite R. apply HK; [|done|done|done]. split; [done|done|by etrans|exact Ho].
Qed.

Lemma wp_reached own W0 W x (K : bool -> waiting -> Prop) : stands own W0 W x ->
  (forall W', stands own W0 W' (set_now (st W') x) -> later W W' -> V W' = V W -> loaded W' (V W) -> K (t <=? V W) (set_now (st W') x)) ->
  wp (reached (u32 t)) K x.
Proof.
  intros [Hx Hc Hl Ho] HK. unfold reached. rewrite wp_step, Hx. destruct (calm_known t W Hc) as (Hc' & La & Hld).
  change (K (nvhost_syncpt_is_expired (sp (st (with_st W (known W)))) (u32 t)) (set_now (st (with_st W (known W))) x)).
  rewrite (expired_at t _ (V W)); [|done|done|cbn; change (2 ^ 31) with 2147483648; lia|apply Hc].
  apply HK; [|done|done|done]. split; [done|done|by etrans|exact Ho].
Qed.
End task.

(** ** Dropping the reference *)

(** What the rest of nvhost_intr_put_ref changes. *)
Record keeps (W W' : world) : Prop := {
  ke_sound : sound W'; ke_run : rtc wstep W W'; ke_V : V W' = V W; ke_held : held W' = held W; ke_info : info W' = info W;
  ke_queue : forall p, p ∈ wait_head (st W') -> p ∈ wait_head (st W);
  ke_min : min_val (sp (st W)) = u32 (V W) -> min_val (sp (st W')) = u32 (V W) }.
Lemma keeps_trans W1 W2 W3 : keeps W1 W2 -> keeps W2 W3 -> keeps W1 W3.
Proof.
  intros [A1 B1 C1 D1 E1 F1 G1] [A2 B2 C2 D2 E2 F2 G2]. split; try done; try congruence; [by etrans|auto|].
  intros Hm. rewrite C1 in G2. auto.
Qed.

Section put.
Variables (l1 l2 : list agent).

Definition goes (W : world) (oa : option agent) (s : nvhost_intr_syncpt) : Prop :=
  exists W', keeps W W' /\ st W' = s /\ agents W' = l1 ++ option_list oa ++ l2.

Lemma wp_agent W a : sound W -> agents W = l1 ++ a :: l2 -> wp (agent_step (V W) a) (goes W) (st W).
Proof.
  intros [HW Hw] Ha. pose proof (wp_and _ _ _ _ (agent_step_decr W l1 l2 a HW Hw Ha) (agent_step_sp W l1 a l2 HW Hw Ha)) as H.
  apply wp_total in H as (oa & s & E & (_ & Hq & _) & [_ Hsp]). unfold wp. rewrite E.
  assert (work_step W (next W l1 l2 a s oa)) as Hs by by eapply step_agent.
  exists (next W l1 l2 a s oa). split; [|done].
  pose proof (work_step_windowed W _ HW Hw Hs) as Hw'. split; try done.
  - by eapply busy_sound.
  - apply rtc_once. by apply wstep_work.
  - cbn. intros Hm. destruct Hsp as [-> | ->]; [done|]. apply (w_sp W HW).
Qed.

Lemma run_goes a low l : forall W, sound W -> agents W = l1 ++ at_stage a (SRun l low) :: l2 ->
  wp (run_handlers l) (fun _ s => goes W (Some (at_stage a (SRun [] low))) s) (st W).
Proof.
  induction l as [|iw l IH]; intros W HS Ha; cbn [run_handlers].
  - wp_simpl. exists W. split; [|done]. by split.
  - pose proof (wp_agent W _ HS Ha) as H1. unfold agent_step in H1. cbn [a_stage at_stage] in H1. autorewrite with wp_rw in H1.
    wp_simpl. eapply wp_mono; [exact H1|]. cbv beta. intros _ s1. rewrite wp_ret. intros (W1 & K1 & <- & Ha1).
    pose proof (wp_agent W1 _ (ke_sound _ _ K1) Ha1) as H2. unfold agent_step in H2. cbn [a_stage at_stage] in H2. autorewrite with wp_rw in H2.
    wp_simpl. eapply wp_mono; [exact H2|]. cbv beta. intros _ s2. rewrite wp_ret. intros (W2 & K2 & <- & Ha2).
    eapply wp_mono; [by apply (IH W2 (ke_sound _ _ K2))|]. cbv beta. intros _ s (W' & K' & Hs & Ha').
    exists W'. split; [|done]. eapply keeps_trans; [exact K1|]. by eapply keeps_trans.
Qed.

Lemma process_goes a v c W : sound W -> agents W = l1 ++ at_stage a (SLock v c) :: l2 ->
  wp (process_wait_list v) (fun _ s => goes W (Some (at_stage a SEnd)) s) (st W).
Proof.
  intros HS Ha. pose proof (wp_agent W _ HS Ha) as H1. unfold agent_step in H1. cbn [a_stage at_stage] in H1. autorewrite with wp_rw in H1.
  unfold process_wait_list. wp_simpl. eapply wp_mono; [exact H1|]. cbv beta. intros [l low] s1. wp_simpl. intros (W1 & K1 & <- & Ha1).
  eapply wp_mono; [by apply (run_goes a low l W1 (ke_sound _ _ K1))|]. cbv beta. intros _ s2 (W2 & K2 & <- & Ha2).
  pose proof (wp_agent W2 _ (ke_sound _ _ K2) Ha2) as H3. unfold agent_step in H3. cbn [a_stage at_stage] in H3. autorewrite with wp_rw in H3.
  wp_simpl. eapply wp_mono; [exact H3|]. cbv beta. intros _ s3. rewrite wp_ret. intros (W3 & K3 & Hs & Ha3).
  exists W3. split; [|done]. eapply keeps_trans; [exact K1|]. by eapply keeps_trans.
Qed.

(** From the load of the counter to the end. *)
Definition finish (a : agent) : I unit :=
  v ← on_sp t20_syncpt_update_min;
  process_wait_list v;;
  (match a_ref a with Some w => kref_put w | None => mret tt end);;
  if a_busy a then module_idle_mult 1 else mret tt.

Lemma finish_goes a W : a_stage a = SRead -> sound W -> agents W = l1 ++ a :: l2 ->
  wp (finish a) (fun _ s => exists W', keeps W W' /\ st W' = s /\ agents W' = l1 ++ l2 /\ min_val (sp s) = u32 (V W)) (st W).
Proof.
  intros Hstage HS Ha. pose proof (wp_agent W _ HS Ha) as H1. unfold agent_step in H1. rewrite Hstage in H1. autorewrite with wp_rw in H1.
  assert (wp (on_sp t20_syncpt_update_min) (fun _ s => min_val (sp s) = u32 (V W)) (st W)) as Hm.
  { change (reg (sp (st W)) = u32 (V W)). apply (w_sp W (proj1 HS)). }
  unfold finish. rewrite wp_bind. eapply wp_mono; [exact (wp_and _ _ _ _ H1 Hm)|]. cbv beta. intros v s1. rewrite wp_ret. intros [(W1 & K1 & <- & Ha1) Hm1].
  rewrite <- (ke_V _ _ K1) in Hm1. rewrite wp_bind.
  eapply wp_mono; [by apply (process_goes _ _ _ W1 (ke_sound _ _ K1) Ha1)|]. cbv beta. intros _ s2 (W2 & K2 & <- & Ha2).
  pose proof (wp_agent W2 _ (ke_sound _ _ K2) Ha2) as H3. unfold agent_step in H3. cbn [a_stage at_stage a_ref a_busy] in H3. autorewrite with wp_rw in H3.
  wp_simpl. eapply wp_mono; [exact H3|]. cbv beta. intros _ s3. wp_simpl. intros H4. eapply wp_mono; [exact H4|]. cbv beta. intros [] s4. wp_simpl.
  intros (W3 & K3 & <- & Ha3).
  exists W3. split; [eapply keeps_trans; [exact K1|]; by eapply keeps_trans|]. split; [done|]. split; [done|].
  rewrite <- (ke_V _ _ K1), <- (ke_V _ _ K2). apply (ke_min _ _ K3). rewrite (ke_V _ _ K2). by apply (ke_min _ _ K2).
Qed.
End put.
