(* ===== verification/SyncptWaitRuns.v ===== *)
(** * What a wait returns

    nvhost_syncpt_wait_timeout from its call to its end, among the tasks of IntrWorld.v. *)

From stdpp Require Import gmap fin_sets relations sorting.
From S2P Require Import Prelude Syncpt SyncptFacts Intr IntrFacts IntrOps IntrWorld IntrRuns SyncptWait SyncptWaitFacts.

(** ** What a call returns *)

Definition passes (x x' : waiting) : Prop :=
  clock x <= clock x' /\ (signal_pending x = true -> signal_pending x' = true) /\ (turn_nr x <= turn_nr x')%nat.
#[export] Instance passes_preorder : PreOrder passes.
Proof.
  split; [by split; [lia|]|]. intros x y z (H1 & H2 & H3) (H4 & H5 & H6). split; [lia|]. split; [auto|lia].
Qed.
Lemma passes_now s x : passes x (set_now s x).
Proof. by split; [cbn; lia|]. Qed.

Lemma loaded_later W W' c t : later W W' -> loaded W c -> t <= c -> exists c', loaded W' c' /\ t <= c'.
Proof. intros Hl Hc Ht. destruct (la_loaded _ _ Hl c Hc) as (c' & ? & ?). exists c'. split; [done|lia]. Qed.
Lemma held_waiter W w : winv W -> w ∈ held W -> exists x, waiters (st W) !! w = Some x.
Proof. intros HW Hw. destruct (proj1 (vi_dom _ _ _ _ _ _ _ _ _ (w_inv W HW) w)) as [x Hx]; [mem; auto|eauto]. Qed.

Section loops.
Variables (env : nat -> turn) (t : Z) (addr : option nat) (interruptible : bool).
Hypothesis (Henv : forall n, interferes t addr (others (env n))) (Hjif : forall n, 0 <= jiffies (env n)).
Abbreviation here := (stands t addr).

Lemma wp_pass own W0 W x (K : Z -> waiting -> Prop) : here own W0 W x ->
  (forall d W' x', here own W0 W' x' -> later W W' -> clock x' = clock x + d -> 0 <= d -> passes x x' -> K d x') -> wp (meanwhile env) K x.
Proof.
  intros H HK. eapply wp_meanwhile; [done..|]. intros W' x' H' Hl Hc Hs Hn. specialize (Hjif (turn_nr x)).
  eapply HK; try done. split; [lia|]. split; [done|lia].
Qed.

(** The end of a period: reached, its time is over, or a signal. *)
Definition period_end (sleeps : bool) (W0 W : world) (x x' : waiting) (check r : Z) : Prop :=
  (0 < r /\ exists c, loaded W c /\ t <= c) \/
  (r = 0 /\ (sleeps = true -> check <= clock x' - clock x)) \/
  (r = - ERESTARTSYS /\ interruptible = true /\ sleeps = true /\ signal_pending x' = true /\ V W0 < t).

Lemma wp_wait_event own W0 fuel : forall W x left, here own W0 W x -> 0 <= left ->
  wp (wait_event env (u32 t) interruptible fuel left)
    (fun r x' => exists W', here own W0 W' x' /\ passes x x' /\ from_option (period_end true W0 W' x x' left) True r) x.
Proof.
  assert (forall W x left (k : T (option Z)) (Q : option Z -> waiting -> Prop), here own W0 W x -> 0 <= left ->
    (forall W', here own W0 W' (set_now (st W') x) -> (exists c, loaded W' c /\ t <= c) -> Q (Some (Z.max left 1)) (set_now (st W') x)) ->
    (forall W', here own W0 W' (set_now (st W') x) -> left = 0 -> Q (Some 0) (set_now (st W') x)) ->
    (forall W', here own W0 W' (set_now (st W') x) -> 0 < left -> V W0 < t -> wp k Q (set_now (st W') x)) ->
    wp (ok ← reached (u32 t); if ok : bool then mret (Some (Z.max left 1)) else if left =? 0 then mret (Some 0) else k) Q x) as Hgo.
  { intros W x left k Q H Hleft H1 H2 H3. wp_simpl. eapply wp_reached; [exact H|]. intros W' H' Hl HV Hld.
    destruct (Z.leb_spec t (V W)); [apply H1; [done|by exists (V W)]|]. destruct (Z.eqb_spec left 0); [by apply H2|].
    apply H3; [done|lia|]. pose proof (la_V _ _ (he_later _ _ _ _ _ _ H)). lia. }
  induction fuel as [|fuel IH]; intros W x left H Hleft; cbn [wait_event];
    (eapply Hgo; [exact H|done| | |]; clear Hgo).
  1, 4: intros W' H' Hc; exists W'; split; [done|]; split; [apply passes_now|]; left; split; [lia|done].
  1, 3: intros W' H' ->; exists W'; split; [done|]; split; [apply passes_now|]; right; left; split; [done|cbn; lia].
  - intros W' H' Hpos Hlt. wp_simpl. destruct (interruptible && signal_pending x) eqn:Es; cbn [signal_pending set_now]; rewrite Es; wp_simpl.
    + apply andb_prop in Es as [E1 E2]. exists W'. split; [done|]. split; [apply passes_now|]. right; right. done.
    + exists W'. split; [done|]. split; [apply passes_now|done].
  - intros W' H' Hpos Hlt. wp_simpl. destruct (interruptible && signal_pending x) eqn:Es; cbn [signal_pending set_now]; rewrite Es; wp_simpl.
    + apply andb_prop in Es as [E1 E2]. exists W'. split; [done|]. split; [apply passes_now|]. right; right. done.
    + eapply wp_pass; [exact H'|]. intros d W1 x1 H1 Hl1 Hc1 Hd1 Hp1.
      eapply wp_mono; [apply (IH W1); [done|lia]|]. cbv beta. intros r x' (W2 & H2 & Hp2 & Hr).
      assert (passes x x') as Hp by (etrans; [exact Hp1|done]).
      exists W2. split; [done|]. split; [done|]. destruct r as [r|]; [|done]. cbn [from_option clock set_now] in *.
      destruct Hr as [Hr|[[-> Ht]|Hr]]; [by left| |by right; right]. right; left. split; [done|]. intros _. specialize (Ht eq_refl). lia.
Qed.

Lemma wp_poll_loop own W0 n : forall W x, here own W0 W x ->
  wp (poll_loop env (u32 t) n) (fun r x' => exists W', here own W0 W' x' /\ passes x x' /\ (r = 0 \/ 0 < r /\ exists c, loaded W' c /\ t <= c)) x.
Proof.
  induction n as [|n IH]; intros W x H; cbn [poll_loop].
  - wp_simpl. exists W. split; [done|]. split; [reflexivity|by left].
  - wp_simpl. eapply wp_reached; [exact H|]. intros W1 H1 Hl1 HV1 Hld1. destruct (Z.leb_spec t (V W)).
    + wp_simpl. exists W1. split; [done|]. split; [apply passes_now|]. right. split; [lia|by exists (V W)].
    + wp_simpl. eapply wp_pass; [exact H1|]. intros d W2 x2 H2 Hl2 Hc2 Hd2 Hp2.
      eapply wp_mono; [by apply (IH W2)|]. cbv beta. intros r x' (W3 & H3 & Hp3 & Hr). exists W3. split; [done|]. split; [|done].
      etrans; [apply (passes_now (st W1))|]. by etrans.
Qed.
End loops.

Section call.
Variables (env : nat -> turn) (HZ : Z) (jiffies_to_msecs msecs_to_jiffies : Z -> Z).
Variables (t : Z) (addr : option nat) (interruptible : bool).
Hypothesis (Henv : forall n, interferes t addr (others (env n))) (Hjif : forall n, 0 <= jiffies (env n)).
Hypothesis (HHZ : 0 < HZ) (Hms : msecs_to_jiffies 0 = 0 /\ forall n, 0 <= n -> 0 <= msecs_to_jiffies n).
Abbreviation here := (stands t addr).

Lemma wp_one_period own W0 fuel ref W x check : here own W0 W x -> 0 <= check ->
  wp (one_period env jiffies_to_msecs msecs_to_jiffies (u32 t) interruptible fuel ref check)
    (fun r x' => exists W', here own W0 W' x' /\ passes x x' /\
       from_option (period_end t interruptible (bool_decide (is_Some ref)) W0 W' x x' check) True r) x.
Proof.
  intros H Hc. destruct ref as [w|]; cbn [one_period].
  - eapply wp_mono; [by eapply wp_wait_event|done].
  - unfold poll. wp_simpl. eapply wp_mono; [by eapply wp_poll_loop|]. cbv beta. intros r x' (W' & H' & Hp & Hr). wp_simpl.
    exists W'. split; [done|]. split; [done|]. cbn [from_option]. unfold period_end. destruct Hms as [Hm0 Hm].
    destruct Hr as [->|[Hr Hl]]; [right; left; split; [exact Hm0|done]|].
    assert (0 <= msecs_to_jiffies (r * SYNCPT_POLL_PERIOD)) as Hr' by (apply Hm; unfold SYNCPT_POLL_PERIOD; lia).
    destruct (decide (msecs_to_jiffies (r * SYNCPT_POLL_PERIOD) = 0)); [by right; left|left; split; [lia|done]].
Qed.

Lemma wp_release_ts W0 ref W x : here (bool_decide (is_Some ref)) W0 W x -> (forall w, ref = Some w -> addr = Some w) ->
  wp (release_ts ref) (fun _ x' => x' = x) x.
Proof.
  intros [Hx Hc Hl Ho] Hr. destruct ref as [w|]; unfold release_ts; wp_simpl; [|done].
  destruct (held_waiter W w (proj1 (proj1 Hc)) (Ho w (Hr w eq_refl))) as [y Hy].
  rewrite wp_step. unfold nvhost_intr_release_time. rewrite Hx. wp_simpl. apply (wp_waiter Hy). wp_simpl.
  assert (set_now (st W) x = x) as -> by (destruct x; cbn in *; by subst).
  destruct (wstate y =? WLS_PENDING); cbn [Z.eqb]; [|destruct (0 =? 0)]; by wp_simpl.
Qed.

(** How a call ends: the value is there, it is known to be there but [*value] is older, the
    time is over, a signal, or an error of the allocation. *)
Inductive returns (sleeps : bool) (timeout : Z) (W0 W : world) (x0 x : waiting) : outcome -> Prop :=
  | ret_reached c time : t <= c <= V W -> returns sleeps timeout W0 W x0 x (Outcome 0 (Some (u32 c)) (Some time))
  | ret_seen c time : V W0 <= c <= V W -> t <= V W -> returns sleeps timeout W0 W x0 x (Outcome 0 (Some (u32 c)) (Some time))
  | ret_timeout : V W0 < t -> timeout <> NVHOST_NO_TIMEOUT -> (sleeps = true -> timeout <= clock x - clock x0) ->
      returns sleeps timeout W0 W x0 x (Outcome (- EAGAIN) (Some 0) None)
  | ret_signal : V W0 < t -> interruptible = true -> sleeps = true -> signal_pending x = true ->
      returns sleeps timeout W0 W x0 x (Outcome (- ERESTARTSYS) (Some 0) None)
  | ret_nomem : V W0 < t -> addr = None -> returns sleeps timeout W0 W x0 x (Outcome (- ENOMEM) (Some 0) None).

Lemma returns_later sleeps timeout W0 W W' x0 x0' x x' o : returns sleeps timeout W0 W x0 x o -> V W <= V W' -> passes x0' x0 -> passes x x' ->
  returns sleeps timeout W0 W' x0' x' o.
Proof.
  intros H HV (Hc0 & _) (Hc & Hs & _). destruct H as [c ? Ht|c ? Ht|Ht Hn Hk| |]; [apply ret_reached; lia|apply ret_seen; lia| |by apply ret_signal; auto|by apply ret_nomem].
  apply ret_timeout; [done|done|]. intros E. specialize (Hk E). lia.
Qed.

Lemma wp_wait_loop W0 fuel ref : (forall w, ref = Some w -> addr = Some w) -> let own := bool_decide (is_Some ref) in
  forall W x timeout count, here own W0 W x -> V W0 < t -> 0 <= timeout < 2 ^ 32 ->
  wp (wait_loop env HZ jiffies_to_msecs msecs_to_jiffies (u32 t) interruptible fuel ref timeout count)
    (fun r x' => exists W', here own W0 W' x' /\ passes x x' /\ from_option (returns own timeout W0 W' x x') True r) x.
Proof.
  intros Hr own. induction fuel as [|fuel IH]; intros W x timeout count H Hlt Ht; cbn [wait_loop].
  { wp_simpl. exists W. split; [done|]. split; [reflexivity|done]. }
  destruct (Z.eqb_spec timeout 0) as [->|Hne].
  { wp_simpl. exists W. split; [done|]. split; [reflexivity|]. apply ret_timeout; [done|done|lia]. }
  assert (0 < Z.min (SYNCPT_CHECK_PERIOD HZ) timeout <= timeout) as Hcheck by (unfold SYNCPT_CHECK_PERIOD; lia).
  wp_simpl. eapply wp_mono; [apply (wp_one_period own W0 fuel ref W x); [done|lia]|]. cbv beta. intros [remain|] x1 (W1 & H1 & Hp1 & Hend); wp_simpl;
    [|by exists W1]. cbn [from_option] in Hend.
  eapply wp_pass; [done|done|exact H1|]. intros d W2 x2 H2 Hl2 Hc2 Hd2 Hp2.
  assert (forall W3 x3, here own W0 W3 x3 -> passes x2 x3 -> (exists c, loaded W3 c /\ t <= c) -> wp (meanwhile env;; x0 ← get; ts ← release_ts ref;
     mret (Some (Outcome 0 (Some (nvhost_syncpt_read_min (sp (now x0)))) (Some ts))))
     (fun r x' => exists W', here own W0 W' x' /\ passes x x' /\ from_option (returns own timeout W0 W' x x') True r) x3) as Hdone.
  { intros W3 x3 H3 Hp3 (c & Hc & Hcle). wp_simpl. eapply wp_pass; [done|done|exact H3|]. intros d' W4 x4 H4 Hl4 _ _ Hp4. wp_simpl.
    eapply wp_mono; [by eapply (wp_release_ts W0 ref W4)|]. cbv beta. intros ts x' ->. wp_simpl. exists W4. split; [done|].
    split; [etrans; [exact Hp1|]; etrans; [exact Hp2|]; by etrans|].
    destruct (loaded_later _ _ _ _ Hl4 Hc Hcle) as (c' & [Hm Hv] & Hle). rewrite (he_now _ _ _ _ _ _ H4). unfold nvhost_syncpt_read_min.
    rewrite Hm. by apply ret_reached. }
  destruct (Z.ltb_spec 0 remain) as [Hpos|Hnpos].
  { wp_simpl. eapply Hdone; [exact H2|reflexivity|]. destruct Hend as [[_ (c & Hc & Hle)]|[[-> _]|(-> & _)]]; [|lia|unfold ERESTARTSYS in Hpos; lia].
    by eapply loaded_later. }
  destruct Hend as [[? _]|Hend]; [lia|]. wp_simpl. eapply wp_reached; [exact H2|]. intros W3 H3 Hl3 HV3 Hld3. wp_simpl.
  destruct (Z.leb_spec t (V W2)) as [Hge|Hlt2]; [eapply Hdone; [exact H3|apply passes_now|by exists (V W2)]|].
  assert (passes x (set_now (st W3) x2)) as Hpx by (etrans; [exact Hp1|]; etrans; [exact Hp2|]; apply passes_now).
  destruct Hend as [[-> Hcheckt]|(-> & Hi & Hs & Hsig & _)].
  2:{ cbn [Z.ltb ERESTARTSYS]. wp_simpl. exists W3. split; [done|]. split; [done|]. apply ret_signal; [done|done|done|]. by apply Hp2. }
  cbn [Z.ltb Z.compare]. set (timeout' := if timeout =? NVHOST_NO_TIMEOUT then timeout else timeout - Z.min (SYNCPT_CHECK_PERIOD HZ) timeout).
  assert (0 <= timeout' < 2 ^ 32) as Ht' by (subst timeout'; case_match; lia).
  assert (forall W4 x4 count', here own W0 W4 x4 -> passes (set_now (st W3) x2) x4 ->
    wp (wait_loop env HZ jiffies_to_msecs msecs_to_jiffies (u32 t) interruptible fuel ref timeout' count')
     (fun r x' => exists W', here own W0 W' x' /\ passes x x' /\ from_option (returns own timeout W0 W' x x') True r) x4) as Hgo.
  { intros W4 x4 count' H4 Hp4. eapply wp_mono; [by apply (IH W4 x4 timeout')|]. cbv beta. intros r x' (W' & H' & Hp' & Hret).
    exists W'. split; [done|]. split; [etrans; [exact Hpx|]; by etrans|]. destruct r as [o|]; [|done]. cbn [from_option] in *.
    destruct Hret as [| |H5 H6 Hk| |]; [by apply ret_reached|by apply ret_seen| |by apply ret_signal|by apply ret_nomem].
    subst timeout'. destruct (Z.eqb_spec timeout NVHOST_NO_TIMEOUT) as [->|Hnt]; [done|].
    apply ret_timeout; [done|done|]. intros E. specialize (Hk E). specialize (Hcheckt E). destruct Hp4 as [Hp4 _], Hp1 as [Hp1 _]. cbn [clock set_now] in *. lia. }
  destruct (negb (timeout' =? 0) && (count <=? MAX_STUCK_CHECK_COUNT)).
  - wp_simpl. eapply wp_load; [exact H3|]. intros W4 H4 Hl4 HV4 Hld4. eapply Hgo; [exact H4|apply passes_now].
  - eapply Hgo; [exact H3|reflexivity].
Qed.
End call.

(** ** Coming back in time *)

Section ends.
Variables (env : nat -> turn) (HZ : Z) (jiffies_to_msecs msecs_to_jiffies : Z -> Z) (thresh : Z) (interruptible : bool).
Hypothesis (Hjif : forall n, 1 <= jiffies (env n)) (HHZ : 0 < HZ).

Lemma wait_event_ends fuel : forall left x r x', 0 <= left <= Z.of_nat fuel ->
  wait_event env thresh interruptible fuel left x = Some (r, x') -> r <> None.
Proof.
  induction fuel as [|fuel IH]; intros left x r x' Hl E; cbn [wait_event] in E; apply M_bind_Some in E as (ok & x1 & _ & E);
    (destruct ok; [by injection E as <- <-|]); destruct (Z.eqb_spec left 0) as [->|]; try (by injection E as <- <-); [lia|].
  apply M_bind_Some in E as (x2 & x3 & [= <- <-] & E). destruct (interruptible && signal_pending x1); [by injection E as <- <-|].
  apply M_bind_Some in E as (d & x2 & Ed & E). apply IH in E; [done|]. injection Ed as <- <-. specialize (Hjif (turn_nr x1)). lia.
Qed.

Lemma wait_loop_ends fuel ref : forall timeout count x r x', 0 <= timeout < Z.of_nat fuel -> timeout <> NVHOST_NO_TIMEOUT ->
  timeout < 2 ^ 32 -> wait_loop env HZ jiffies_to_msecs msecs_to_jiffies thresh interruptible fuel ref timeout count x = Some (r, x') -> r <> None.
Proof.
  induction fuel as [|fuel IH]; intros timeout count x r x' Ht Hn Hw E; [lia|]. cbn [wait_loop] in E.
  destruct (Z.eqb_spec timeout 0) as [|Hne]; [by injection E as <- <-|].
  assert (0 < Z.min (SYNCPT_CHECK_PERIOD HZ) timeout <= timeout) as Hcheck by (unfold SYNCPT_CHECK_PERIOD; lia).
  apply M_bind_Some in E as (p & x1 & Ep & E). destruct p as [remain|].
  2:{ exfalso. destruct ref as [w|]; cbn [one_period] in Ep.
      - apply wait_event_ends in Ep; [done|]. lia.
      - by apply M_bind_Some in Ep as (? & ? & _ & [= ]). }
  apply M_bind_Some in E as (d & x2 & _ & E). apply M_bind_Some in E as (ok & x3 & _ & E).
  destruct ok; [by repeat (apply M_bind_Some in E as (? & ? & _ & E)); injection E as <- <-|].
  destruct (remain <? 0); [by injection E as <- <-|]. rewrite (proj2 (Z.eqb_neq _ _) Hn) in E.
  assert (timeout - Z.min (SYNCPT_CHECK_PERIOD HZ) timeout <> NVHOST_NO_TIMEOUT) as Hn' by (unfold NVHOST_NO_TIMEOUT; lia).
  destruct (negb _ && _); [apply M_bind_Some in E as (? & ? & _ & E)|]; apply IH in E; try done; lia.
Qed.

(** A handler has taken the waiter and has not come to its end. *)
Definition being_handled (w : nat) (s : nvhost_intr_syncpt) : Prop :=
  exists y, waiters s !! w = Some y /\ wstate y = WLS_REMOVED.

Lemma try_cancel_false w s s' : try_cancel w s = Some (false, s') -> s' = s /\ being_handled w s.
Proof.
  unfold try_cancel, waiter, upd_waiter, being_handled. munfold. destruct (waiters s !! w) as [y|] eqn:E; [|done].
  destruct (Z.eqb_spec (wstate y) WLS_PENDING) as [Ep|Ep].
  - unfold waiter. munfold. rewrite E, Ep. done.
  - destruct (Z.eqb_spec (wstate y) WLS_REMOVED) as [Er|]; [|done]. intros [= <-]. eauto.
Qed.

Lemma put_ref_waits w fuel : forall x x', put_ref env fuel w x = Some (false, x') ->
  turn_nr x' = (turn_nr x + fuel)%nat /\ being_handled w (now x').
Proof.
  induction fuel as [|fuel IH]; intros x x' E; cbn [put_ref] in E; apply M_bind_Some in E as (ok & x1 & E1 & E);
    (destruct ok; [by apply M_bind_Some in E as (? & ? & _ & [= ])|]);
    unfold step in E1; destruct (try_cancel w (now x)) as [[ok s]|] eqn:Ec; try discriminate E1; injection E1 as -> <-;
    apply try_cancel_false in Ec as [-> Hn].
  - injection E as <-. split; [cbn; lia|done].
  - apply M_bind_Some in E as (d & x2 & [= <- <-] & E). apply IH in E as [Et Hb]. split; [|done]. cbn [turn_nr] in Et. cbn in Et. lia.
Qed.
End ends.

(** ** The whole call *)

Section put_ref.
Variables (env : nat -> turn) (t : Z) (w : nat).
Hypothesis (Henv : forall n, interferes t (Some w) (others (env n))) (Hjif : forall n, 0 <= jiffies (env n)).
Abbreviation here := (stands t (Some w)).

Lemma wp_finish_ref Q s : wp (finish (Agent (Some w) false SRead)) Q s ->
  wp (v ← on_sp t20_syncpt_update_min; process_wait_list v;; kref_put w) Q s.
Proof.
  unfold finish. wp_simpl. intros H. eapply wp_mono; [exact H|]. cbv beta. intros v s1. wp_simpl. intros H1. eapply wp_mono; [exact H1|].
  cbv beta. intros _ s2. wp_simpl. intros H2. eapply wp_mono; [exact H2|]. by intros [] s3.
Qed.

(** The task's reference is gone. *)
Definition gone (W0 W : world) (x : waiting) : Prop := now x = st W /\ calm t W /\ later W0 W /\ w ∉ held W.

(** The step that gives the reference to the task of IntrWorld.v. *)
Definition dropping (W : world) (h : list nat) (a : stage) (s : nvhost_intr_syncpt) : world :=
  World s (agents W ++ [Agent (Some w) false a]) h (V W) (mx W) (info W) (canc W).

Lemma drop_sound W h1 h2 : sound W -> held W = h1 ++ w :: h2 ->
  sound (dropping W (h1 ++ h2) SCancel (st W)) /\ wstep W (dropping W (h1 ++ h2) SCancel (st W)).
Proof.
  intros [HW [Hw1 Hw2]] Hh. assert (windowed (dropping W (h1 ++ h2) SCancel (st W))) as Hw'.
  { split; [|done]. intros p Hp. destruct (Hw1 p Hp) as [H1 H2]. split; [done|]. intros a v c Ha Hs. cbn [agents dropping] in Ha. mem_in Ha.
    destruct Ha as [Ha|[->|Ha]]; [by eapply H2|done|by apply not_elem_of_nil in Ha]. }
  split; [split; [by apply put_ok|done]|]. apply wstep_env; [by apply step_put|done].
Qed.

Lemma keeps_near W W' h : near t W -> agents W' = agents W -> keeps (dropping W h SCancel (st W)) W' -> loaded W' (V W) -> near t W'.
Proof.
  intros [N1 N2 N3 N4] Ha K Hl. pose proof (ke_V _ _ K) as EV. cbn in EV. split.
  - by rewrite EV.
  - exists (V W). rewrite EV. split; [done|]. split; [change (2 ^ 31) with 2147483648; lia|done].
  - by rewrite Ha.
  - intros p Hp%(ke_queue _ _ K). rewrite (ke_info _ _ K). by apply N4.
Qed.

Lemma wp_try_drop W0 W x (K : bool -> waiting -> Prop) : here true W0 W x ->
  (forall s, (forall x', now x' = s -> passes x x' -> clock x' = clock x -> 
     wp (step (v ← on_sp t20_syncpt_update_min; process_wait_list v;; kref_put w)) (fun _ x' => exists W', gone W0 W' x' /\ passes x x') x') ->
     K true (set_now s x)) ->
  (here true W0 W (set_now (st W) x) -> K false (set_now (st W) x)) -> wp (step (try_cancel w)) K x.
Proof.
  intros [Hx Hc Hl Ho] H1 H2. pose proof Hc as ([HW Hw] & Hn & Hm). pose proof (Ho w eq_refl) as Hh.
  apply list_elem_of_split in Hh as (h1 & h2 & Hh). destruct (drop_sound W h1 h2 (proj1 Hc) Hh) as [HS1 Hs1].
  set (W1 := dropping W (h1 ++ h2) SCancel (st W)) in *.
  pose proof (wp_agent (agents W) [] W1 (Agent (Some w) false SCancel) HS1 eq_refl) as Hag.
  unfold agent_step in Hag. cbn [a_stage a_ref] in Hag. autorewrite with wp_rw in Hag.
  assert (wp (try_cancel w) (fun ok s => ok = false -> s = st W) (st W)) as Hsame.
  { eapply wp_try_cancel; [apply (w_inv W HW)|mem; left; by apply (Ho w)|done|]. intros y _ _ _. done. }
  rewrite wp_step, Hx. eapply wp_mono; [exact (wp_and _ _ _ _ Hag Hsame)|]. cbv beta. intros ok s [HG Hs]. rewrite wp_ret in HG.
  destruct ok; [|rewrite (Hs eq_refl); apply H2; by split]. apply H1. intros x' Hx' Hp Hclk. destruct HG as (W2 & K2 & <- & Ha2).
  rewrite wp_step, Hx'. eapply wp_mono; [by apply wp_finish_ref, (finish_goes (agents W) [] (Agent (Some w) false SRead) W2 eq_refl (ke_sound _ _ K2))|]. cbv beta. intros _ s' (W3 & K3 & <- & Ha3 & Hmin).
  pose proof (keeps_trans _ _ _ K2 K3) as KK. rewrite app_nil_r in Ha3.
  assert (V W3 = V W) as EV by apply (ke_V _ _ KK).
  assert (loaded W3 (V W)) as Hld. { split; [|lia]. rewrite Hmin. f_equal. apply (ke_V _ _ K2). }
  assert (rtc wstep W W3) as Hrun by (eapply rtc_l; [exact Hs1|apply (ke_run _ _ KK)]).
  destruct (wsteps_later W W3 (proj1 Hc) Hrun) as [HS3 La3].
  exists W3. split; [|exact Hp]. split; [done|].
  split; [eapply calm_later; [exact Hc|done|done|by eapply keeps_near]|]. split; [by etrans|].
  rewrite (ke_held _ _ KK). cbn [held W1 dropping]. pose proof (vi_ref _ _ _ _ _ _ _ _ _ (w_inv W HW)) as HN. rewrite Hh in HN.
  apply list.NoDup_app in HN as (HN & _). rewrite <- Permutation_middle in HN. by apply list.NoDup_cons in HN as [HN _].
Qed.

Lemma wp_put_ref W0 fuel : forall W x, here true W0 W x ->
  wp (put_ref env fuel w) (fun ok x' => passes x x' /\ if ok : bool then exists W', gone W0 W' x' else exists W', here true W0 W' x') x.
Proof.
  induction fuel as [|fuel IH]; intros W x H; cbn [put_ref]; wp_simpl; (eapply wp_try_drop; [exact H| |]).
  1, 3: intros s Htail; wp_simpl; (eapply wp_mono; [by apply Htail; [|apply passes_now|]|]); cbv beta; intros _ x' (W' & Hg & Hp);
    wp_simpl; split; [exact Hp|by exists W'].
  - intros H'. wp_simpl. split; [apply passes_now|by exists W].
  - intros H'. wp_simpl. eapply wp_pass; [done|done|exact H'|]. intros d W1 x1 H1 Hl1 Hc1 Hd1 Hp1.
    eapply wp_mono; [by apply (IH W1)|]. cbv beta. intros ok x' [Hp Hr]. split; [|done]. etrans; [apply (passes_now (st W))|]. by etrans.
Qed.

(** ** Adding the waiter *)

Lemma wp_add_waiter W0 W x interruptible (K : Z -> waiting -> Prop) : here false W0 W x ->
  (forall W', here true W0 W' (set_now (st W') x) -> later W W' -> V W' = V W -> K 0 (set_now (st W') x)) ->
  (forall s, host_busy_err (st W) <> 0 -> unadded w (st W) s -> K (host_busy_err (st W)) (set_now s x)) ->
  wp (step (nvhost_intr_alloc_waiter (Some w))) (fun a x => a = Some w /\
    wp (step (nvhost_intr_add_action (u32 t) (if interruptible : bool then WAKEUP_INTERRUPTIBLE else WAKEUP) (Z.of_nat w) (Some w) true)) K x) x.
Proof.
  intros [Hx Hc Hl Ho] HK HF. pose proof Hc as ([HW Hw] & Hn & Hm).
  set (act := if interruptible then WAKEUP_INTERRUPTIBLE else WAKEUP).
  assert (can_add W w t act (Z.of_nat w) true) as Hcan.
  { split; [by apply Ho|]. split; [|apply Hn]. split; [intros _; unfold wakes, act; destruct interruptible; auto|unfold act; by destruct interruptible; intros []]. }
  pose proof (add_ok W w t act (Z.of_nat w) true HW Hcan) as Hadd.
  assert (client_add w t act (Z.of_nat w) true = (x ← nvhost_intr_alloc_waiter (Some w); nvhost_intr_add_action (u32 t) act (Z.of_nat w) x true)) as E
    by (unfold act; by destruct interruptible).
  rewrite E in Hadd. unfold nvhost_intr_alloc_waiter in *. autorewrite with wp_rw in Hadd.
  rewrite wp_step, Hx. unfold nvhost_intr_alloc_waiter. wp_simpl. split; [done|]. rewrite wp_step. cbn [now set_now].
  eapply wp_mono; [exact Hadd|]. cbv beta. intros r s (Hr & Hok & Hfail).
  change (set_now s (set_now _ x)) with (set_now s x).
  destruct (Z.eq_dec r 0) as [E0|E0]; [|subst r; by apply HF; [|apply Hfail]]. rewrite E0 in *. destruct (Hok eq_refl) as (Hsp & Hq & HW').
  set (W' := World s _ _ _ _ _ _) in HW'. change (set_now s x) with (set_now (st W') x).
  assert (later W W') as La by (apply later_sp; [done|cbn; rewrite Hsp; apply sp_later_refl|cbn; lia|cbn; lia]).
  assert (thr (info W') w = t) as Htw by (cbn; unfold thr; by rewrite lookup_insert_eq).
  assert (forall p, p ∈ wait_head s -> p = w \/ thr (info W') p = thr (info W) p /\ p ∈ wait_head (st W)) as Hqs.
  { intros p. rewrite Hq, elem_of_cons. destruct (decide (p = w)) as [|Hne]; [auto|]. intros [|Hp]; [done|]. right. split; [|done]. by apply thr_insert. }
  destruct Hn as [N1 N2 N3 N4]. assert (sound W') as HS'.
  { split; [exact HW'|]. split; [|apply Hw]. cbn [st V agents]. intros p Hp. destruct (Hqs p Hp) as [->|[-> Hp']]; [rewrite Htw; eauto|]. by apply Hw. }
  assert (near t W') as Hn'.
  { split; [done| |done|].
    - destruct N2 as (c & [H1 H2] & H3). exists c. split; [|done]. split; [cbn; by rewrite Hsp|done].
    - cbn [st]. intros p Hp. destruct (Hqs p Hp) as [->|[-> Hp']]; [|by apply N4]. rewrite Htw. unfold within. change (2 ^ 31) with 2147483648. lia. }
  apply HK; [|done|done]. split; [done|by eapply calm_later|by etrans|]. intros w' [= <-]. by left.
Qed.
End put_ref.

Section wait_timeout.
Variables (env : nat -> turn) (HZ : Z) (jiffies_to_msecs msecs_to_jiffies : Z -> Z).
Variables (t : Z) (addr : option nat) (interruptible : bool).
Hypothesis (Henv : forall n, interferes t addr (others (env n))) (Hjif : forall n, 0 <= jiffies (env n)).
Hypothesis (HHZ : 0 < HZ) (Hms : msecs_to_jiffies 0 = 0 /\ forall n, 0 <= n -> 0 <= msecs_to_jiffies n).
Abbreviation here := (stands t addr).

(** The host could not be powered: at the call, or when the waiter was added, which then stays
    in memory. *)
Definition unpowered_end (sleeps : bool) (W : world) (x : waiting) (o : outcome) : Prop :=
  host_busy_err (st W) <> 0 /\ o = Outcome (host_busy_err (st W)) (Some 0) None /\
  (now x = st W \/
   sleeps = true /\ exists w, addr = Some w /\ now x = set_waiters (<[w := Waiter 0 0 SIGNAL_SYNC_PT 0 0 0 0]> (waiters (st W))) (st W)).

(** Where a call ends: without a reference to its waiter. *)
Definition over (sleeps : bool) (timeout : Z) (W0 W : world) (x0 x : waiting) (o : outcome) : Prop :=
  calm t W /\ later W0 W /\ passes x0 x /\ (forall w, addr = Some w -> w ∉ held W) /\
  (now x = st W /\ returns t addr interruptible sleeps timeout W0 W x0 x o \/ unpowered_end sleeps W x o).

Lemma fresh_not_held W w : winv W -> info W !! w = None -> w ∉ held W.
Proof.
  intros HW Hi Hh. destruct (held_waiter W w HW Hh) as [x Hx]. destruct (vi_ok _ _ _ _ _ _ _ _ _ (w_inv W HW) w x Hx) as (_ & _ & wi & ? & _). congruence.
Qed.
Lemma here_unpowered sleeps timeout W0 W x0 x x' o : here false W0 W x -> passes x0 x' -> unpowered_end sleeps W x' o ->
  over sleeps timeout W0 W x0 x' o.
Proof.
  intros [H1 H2 H3 H4] Hp Hr. split; [done|]. split; [done|]. split; [done|]. split; [|by right].
  intros w Hw. apply fresh_not_held; [apply H2|by apply H4].
Qed.
Lemma here_over sleeps timeout W0 W x0 x o : here false W0 W x -> passes x0 x -> returns t addr interruptible sleeps timeout W0 W x0 x o ->
  over sleeps timeout W0 W x0 x o.
Proof.
  intros [H1 H2 H3 H4] Hp Hr. split; [done|]. split; [done|]. split; [done|]. split; [|by left].
  intros w Hw. apply fresh_not_held; [apply H2|by apply H4].
Qed.

(** A finite timeout, fuel for it, and turns that last a jiffy: then the call can be delayed
    only by a handler that has not come to its end in [fuel] turns. *)
Definition in_time (fuel : nat) (timeout : Z) : Prop :=
  timeout <> NVHOST_NO_TIMEOUT /\ timeout < Z.of_nat fuel /\ forall n, 1 <= jiffies (env n).
Definition delayed (fuel : nat) (x0 x : waiting) : Prop :=
  exists w, addr = Some w /\ being_handled w (now x) /\ (turn_nr x0 + fuel <= turn_nr x)%nat.

Definition comes_back (fuel : nat) (sleeps : bool) (timeout : Z) (W0 : world) (x0 x : waiting) (r : option outcome) : Prop :=
  match r with
  | Some o => exists W, over sleeps timeout W0 W x0 x o
  | None => in_time fuel timeout -> sleeps = true /\ delayed fuel x0 x
  end.

Lemma wp_wait_busy fuel poll timeout W0 W x0 x : here false W0 W x -> passes x0 x -> 0 <= timeout < 2 ^ 32 ->
  wp (wait_busy env HZ jiffies_to_msecs msecs_to_jiffies (u32 t) interruptible fuel poll timeout addr)
    (fun r x' => comes_back fuel (negb poll) timeout W0 x0 x' r) x.
Proof.
  intros H Hp Ht. unfold wait_busy. wp_simpl. eapply wp_load; [exact H|]. intros W1 H1 Hl1 HV1 Hld1. wp_simpl.
  eapply wp_pass; [done|done|exact H1|]. intros d W2 x2 H2 Hl2 _ _ Hp2. wp_simpl.
  assert (passes x0 x2) as Hpx by (etrans; [exact Hp|]; etrans; [apply (passes_now (st W1))|exact Hp2]).
  pose proof H2 as [Hx2 Hc2 HL2 Ho2]. rewrite Hx2. pose proof (ne_c _ _ (proj1 (proj2 Hc2))) as (c & Hc & Hwin & Hct).
  rewrite (expired_at t W2 c) by done. pose proof (la_V _ _ (he_later _ _ _ _ _ _ H)) as HV0. pose proof (la_V _ _ Hl2) as HV2.
  destruct (Z.leb_spec t c) as [Hle|Hlt].
  { unfold ktime. wp_simpl. exists W2. apply here_over; [done|done|]. destruct Hc as [_ Hc]. apply ret_seen; lia. }
  assert (V W0 < t) as Hlt0.
  { destruct (la_loaded _ _ Hl2 (V W) Hld1) as (c' & Hc' & [Hm' Hv']). destruct Hc as [Hm Hv]. rewrite Hm in Hm'.
    assert ((u32 c =? u32 c') = true) as E by by apply Z.eqb_eq. destruct (Z.lt_ge_cases c c') as [Hcc|]; [|lia]. exfalso.
    rewrite u32_eqb_window in E; [lia|]. change (2 ^ 31) with 2147483648 in *. change (2 ^ 32) with 4294967296. lia. }
  destruct (Z.eqb_spec timeout 0) as [->|Hne].
  { wp_simpl. exists W2. apply here_over; [done|done|]. apply ret_timeout; [done|done|]. intros _. destruct Hpx. lia. }
  destruct poll.
  { eapply wp_mono; [eapply wp_and_run; [eapply (wp_wait_loop env HZ jiffies_to_msecs msecs_to_jiffies t addr interruptible Henv Hjif HHZ Hms W0 fuel None); [done|exact H2|done|done]|]|].
    { intros r x' E. exact (fun F : in_time fuel timeout => wait_loop_ends env HZ _ _ _ _ (proj2 (proj2 F)) HHZ fuel None _ _ _ _ _
        (conj (proj1 Ht) (proj1 (proj2 F))) (proj1 F) (proj2 Ht) E). }
    cbv beta. intros [o|] x' [(W' & H' & Hp' & Hr) HN]; [|by intros F; destruct (HN F)]. cbn [from_option negb] in *. exists W'. apply here_over; [done|by etrans|].
    destruct Hr; [by apply ret_reached|by apply ret_seen|by apply ret_timeout|done|by apply ret_nomem]. }
  clear HV0 HV2 Hwin Hct Hlt Hc c. destruct addr as [w|] eqn:Eaddr.
  2:{ wp_simpl. rewrite wp_step. unfold nvhost_intr_alloc_waiter. wp_simpl. exists W2.
    assert (set_now (now x2) x2 = x2) as -> by by destruct x2. rewrite <- Eaddr in *. apply here_over; [done|done|by apply ret_nomem]. }
  wp_simpl. eapply wp_mono; [apply (wp_add_waiter t w W0 W2 x2 interruptible
    (fun e x => passes x2 x /\ if e =? 0 then exists W', stands t (Some w) true W0 W' x
                               else e = host_busy_err (st W2) /\ unadded w (st W2) (now x)) H2)|].
  { intros W' H' _ _. split; [apply passes_now|by exists W']. }
  { intros s E0 Hs. rewrite (proj2 (Z.eqb_neq _ _) E0). split; [apply passes_now|done]. }
  cbv beta. intros a x3 [-> Hadd]. wp_simpl. eapply wp_mono; [exact Hadd|]. cbv beta. intros e x4 (Hp4 & H4). destruct (Z.eqb_spec e 0) as [->|E0]; cbn [negb]; wp_simpl.
  2:{ destruct H4 as [-> Hs]. exists W2. rewrite <- Eaddr in *. eapply here_unpowered; [exact H2|by etrans|].
      split; [done|]. split; [done|]. destruct Hs as [|Hs]; [by left|right]. split; [done|]. by exists w. }
  destruct H4 as [W4 H4]. eapply wp_pass; [done|done|exact H4|]. intros d' W5 x5 H5 _ _ _ Hp5. wp_simpl.
  eapply wp_mono; [eapply wp_and_run; [eapply (wp_wait_loop env HZ jiffies_to_msecs msecs_to_jiffies t (Some w) interruptible Henv Hjif HHZ Hms W0 fuel (Some w)); [done|exact H5|done|done]|]|].
  { intros r x' E. exact (fun F : in_time fuel timeout => wait_loop_ends env HZ _ _ _ _ (proj2 (proj2 F)) HHZ fuel (Some w) _ _ _ _ _
      (conj (proj1 Ht) (proj1 (proj2 F))) (proj1 F) (proj2 Ht) E). }
  cbv beta. intros [o|] x6 [(W6 & H6 & Hp6 & Hr6) HN]; wp_simpl; [|by intros F; destruct (HN F)]. cbn [from_option] in Hr6.
  eapply wp_pass; [done|done|exact H6|]. intros d'' W7 x7 H7 Hl7 _ _ Hp7.
  wp_simpl. eapply wp_mono; [eapply wp_and_run; [apply (wp_put_ref env t w Henv Hjif W7 fuel W7); destruct H7; by split|]|].
  { intros r x' E. exact (fun (F : r = false) => put_ref_waits env w fuel x7 x' (eq_trans E (f_equal (fun b => Some (b, x')) F))). }
  cbv beta. intros ok x8 [[Hp8 Hg] HE]; wp_simpl. destruct ok.
  2:{ intros _. destruct (HE eq_refl) as [Et Hb]. split; [done|]. exists w. split; [done|]. split; [done|].
      destruct Hpx as (_ & _ & Ht1), Hp4 as (_ & _ & Ht2), Hp5 as (_ & _ & Ht3), Hp6 as (_ & _ & Ht4), Hp7 as (_ & _ & Ht5). lia. }
  destruct Hg as (W8 & Hx8 & Hc8 & Hl8 & Hw8). cbn [negb]. exists W8.
  assert (passes x0 x5) as Hp05 by (etrans; [exact Hpx|]; etrans; [exact Hp4|exact Hp5]).
  assert (passes x6 x8) as Hp68 by by etrans.
  assert (V W6 <= V W8) as HV68 by (pose proof (la_V _ _ Hl7); pose proof (la_V _ _ Hl8); lia).
  split; [done|]. split; [etrans; [exact (he_later _ _ _ _ _ _ H7)|done]|]. split; [etrans; [exact Hp05|]; by etrans|].
  split; [intros w'; rewrite Eaddr; by intros [= <-]|]. left. split; [done|]. rewrite Eaddr. by eapply returns_later.
Qed.

End wait_timeout.

(** ** A wait *)

(** A counter of the clients' own that goes on until it has reached [t], but by no more than
    half its range after the last load and not past a threshold of the queue. *)
Definition ahead (s : nvhost_intr_syncpt) (w : nat) : bool :=
  match waiters s !! w with
  | Some x => 0 <=? s32 (thresh x - reg (sp s))
  | None => false
  end.
Definition tick (t : Z) (s : nvhost_intr_syncpt) : nvhost_intr_syncpt :=
  if client_managed (sp s) && (0 <? s32 (u32 t - reg (sp s))) && (u32 (reg (sp s) - min_val (sp s)) <? 2147483647) &&
    forallb (ahead s) (wait_head s) then hw_incr s else s.

Lemma tick_interferes t addr : interferes t addr (tick t).
Proof.
  intros W ([HW Hw] & Hn & Hm). unfold tick. destruct (_ && _ && _ && _) eqn:Ec; [|by exists W].
  apply andb_prop in Ec as [[[Ec Ht%Z.ltb_lt]%andb_prop Hc%Z.ltb_lt]%andb_prop Hq]. destruct Hn as [N1 (c & [Hmin Hcv] & Hwin & Hct) N3 N4].
  destruct (w_sp W HW) as [R _]. pose proof N1 as N1'. unfold within in *. change (2 ^ 31) with 2147483648 in *.
  rewrite R, s32_sub in Ht by (change (2 ^ 31) with 2147483648; lia).
  rewrite R, Hmin, u32_sub in Hc by (change (2 ^ 32) with 4294967296; lia).
  set (W' := World (hw_incr (st W)) (agents W) (held W) (V W + 1) (mx W) (info W) (canc W)).
  exists W'. split; [|split; [done|split; [|done]]].
  - apply rtc_once, wstep_env; [constructor; unfold tracked; by rewrite Ec|]. destruct Hw as [Hw Hmx]. split; [|cbn; change (2 ^ 31) with 2147483648 in *; lia].
    cbn [st hw_incr wait_head set_sp V info agents W']. intros p Hp. destruct (Hw p Hp) as [H1 H2]. split; [|done].
    rewrite forallb_forall in Hq. specialize (Hq p ltac:(by apply list_elem_of_In)). unfold ahead in Hq.
    destruct (waiters (st W) !! p) as [x|] eqn:Ex; [|done]. apply Z.leb_le in Hq.
    destruct (queue_thr _ _ _ _ _ _ _ _ _ p x (w_inv W HW) Ex) as [Hth _]. unfold within in *. change (2 ^ 31) with 2147483648 in *.
    rewrite Hth, R, s32_sub in Hq by (change (2 ^ 31) with 2147483648; lia). lia.
  - split; cbn [V st info agents W']; [unfold within; change (2 ^ 31) with 2147483648; lia| |done|done].
    exists c. split; [split; [exact Hmin|cbn; lia]|]. split; [cbn; change (2 ^ 31) with 2147483648; lia|done].
Qed.

(** The interrupt's thread, from its start to its end. *)
Definition serve (time : Z) (s : nvhost_intr_syncpt) : nvhost_intr_syncpt :=
  if raised s then default s (snd <$> syncpt_thresh_cascade_isr time s) else s.

Lemma cascade_finish time s r s1 : isr_start time s = Some (r, s1) ->
  syncpt_thresh_cascade_isr time s = if r =? 0 then finish (Agent None true SRead) s1 else Some (tt, s1).
Proof.
  unfold isr_start, syncpt_thresh_cascade_isr, nvhost_syncpt_thresh_fn. intros E.
  apply M_bind_Some in E as ([] & s2 & E2 & E). apply M_bind_Some in E as ([] & s3 & E3 & E).
  unfold mbind, M_bind. rewrite E2, E3, E. by destruct (r =? 0).
Qed.

Lemma serve_interferes t addr time : interferes t addr (serve time).
Proof.
  intros W (HS & Hn & _). unfold serve. destruct (raised (st W)) eqn:Hr; [|by exists W]. pose proof HS as [HW Hw].
  destruct (wp_total _ _ _ (isr_start_ok W time HW Hw Hr)) as (r & s1 & E & _ & _). rewrite (cascade_finish _ _ _ _ E).
  assert (work_step W (World s1 (agents W ++ isr_agent r) (held W) (V W) (mx W) (info W) (canc W))) as Hs0 by by eapply step_isr.
  pose proof (busy_sound _ _ HS Hs0) as HS0. unfold isr_agent in *. destruct (r =? 0).
  2:{ rewrite app_nil_r in *. eexists. split; [apply rtc_once, wstep_work; [exact Hs0|apply HS0]|]. split; [done|]. split; [|done].
      destruct Hn as [N1 (c & [Hmin Hcv] & Hwin & Hct) N3 N4].
      destruct (la_loaded _ _ (wstep_later _ _ HS (wstep_work _ _ Hs0 (proj2 HS0))) c (conj Hmin Hcv)) as (c' & Hcc & Hmin' & Hcv').
      split; [done| |done|].
      - exists c'. split; [done|]. cbn in Hcv' |- *. unfold within in *. split; [lia|]. lia.
      - cbn [st info]. by rewrite (proj1 (isr_start_outer _ _ _ _ E)). }
  set (W1 := World s1 (agents W ++ [Agent None true SRead]) (held W) (V W) (mx W) (info W) (canc W)).
  assert (work_step W W1) as Hs by exact Hs0. pose proof HS0 as HS1. change (sound W1) in HS1.
  destruct (wp_total _ _ _ (finish_goes (agents W) [] (Agent None true SRead) W1 eq_refl HS1 eq_refl)) as (r' & s' & E' & W' & K & <- & Ha & Hmin).
  change (st W1) with s1 in E'. rewrite E', app_nil_r in *. cbn [snd fmap option_fmap option_map default].
  exists W'. split; [eapply rtc_l; [apply wstep_work; [exact Hs|apply HS1]|apply (ke_run _ _ K)]|]. split; [done|]. split.
  - destruct Hn as [N1 N2 N3 N4]. pose proof (ke_V _ _ K) as EV. cbn in EV. split.
    + by rewrite EV.
    + exists (V W). unfold loaded. rewrite EV. split; [split; [done|lia]|]. split; [change (2 ^ 31) with 2147483648; lia|done].
    + by rewrite Ha.
    + intros p Hp%(ke_queue _ _ K). rewrite (ke_info _ _ K). apply N4. cbn [st W1] in Hp. by rewrite (proj1 (isr_start_outer _ _ _ _ E)) in Hp.
  - intros w _. by rewrite (ke_info _ _ K), (ke_held _ _ K).
Qed.

Definition wait_pt : syncpt := Syncpt true false true 4294967294 4294967294 1 None None 4294967294.
Definition wait_world : world := start wait_pt 1 4294967294 4294967294.
Definition wait_start : waiting := Waiting (st wait_world) 0 0 false.
Definition wait_host : nvhost_master := Master (HostInfo 64 32 0 32 8 true) [] false [] [] 0 0.
Definition wait_env (n : nat) : turn := Turn (if Nat.even n then tick 4294967297 else serve (Z.of_nat n)) 1 false.
Lemma wait_env_interferes n : interferes 4294967297 (Some 7%nat) (others (wait_env n)).
Proof. unfold wait_env. destruct (Nat.even n); [apply tick_interferes|apply serve_interferes]. Qed.
(** With the call's timeout, and HZ 250. *)
Definition wait_call (id timeout : Z) : T (option outcome) :=
  nvhost_syncpt_wait_timeout wait_env 250 (fun j => 4 * j) (fun n => (n + 3) / 4) (u32 4294967297) true 40 wait_host false id timeout (Some 7%nat).

Lemma wait_world_calm : calm 4294967297 wait_world.
Proof.
  split; [apply start_sound; by split; [|split; [|vm_compute; split; [discriminate|reflexivity]]]|]. split; [|discriminate].
  split; cbn; [by vm_compute| |by intros ? ? ? ?%not_elem_of_nil|by intros ? ?%not_elem_of_nil].
  exists 4294967294. by vm_compute.
Qed.
(** It sleeps; polls a sync point of another machine; runs out of time; names none. *)
Example wait_outcomes :
  (fst <$> wait_call 7 20 wait_start) = Some (Some (Outcome 0 (Some 1) (Some 5))) /\
  (fst <$> wait_call 40 20 wait_start) = Some (Some (Outcome 0 (Some 1) (Some 7))) /\
  (fst <$> wait_call 7 0 wait_start) = Some (Some (Outcome (- EAGAIN) (Some 0) None)) /\
  (fst <$> wait_call 0 20 wait_start) = Some (Some (Outcome (- EINVAL) None None)).
Proof. vm_compute. repeat split. Qed.

(** The interrupt has run the handler of the waiter, at time 5, and all is as it was before. *)
Example wait_woken : (fun r => (handled (now (snd r)), waiters (now (snd r)), wait_head (now (snd r)), host_busy (now (snd r)))) <$> wait_call 7 20 wait_start =
  Some ([Event 7 WAKEUP_INTERRUPTIBLE 7 1 5], ∅, [], 1).
Proof. vm_compute. reflexivity. Qed.

(** With others of one's own choice, and the counter one behind the threshold. *)
Definition wait_with (f : nat -> nvhost_intr_syncpt -> nvhost_intr_syncpt) (signal : bool) (id : Z) : option (option outcome * waiting) :=
  nvhost_syncpt_wait_timeout (fun n => Turn (f n) 1 signal) 250 (fun j => 4 * j) (fun n => (n + 3) / 4) 4294967295 true 40 wait_host false
    id 20 (Some 7%nat) wait_start.

(** Between the load and the check another client loads the new value: the wait succeeds, and
    the value it leaves is older than the threshold. *)
Definition overtake (n : nat) (s : nvhost_intr_syncpt) : nvhost_intr_syncpt :=
  if (n =? 1)%nat then default s (snd <$> on_sp t20_syncpt_update_min (hw_incr s)) else s.
Example value_before_threshold : (fst <$> wait_with overtake false 7) = Some (Some (Outcome 0 (Some 4294967294) (Some 2))).
Proof. vm_compute. reflexivity. Qed.

(** A signal ends the wait of a task that sleeps, but not that of one that polls. *)
Example signal_polling :
  (fst <$> wait_with (fun _ s => s) true 7) = Some (Some (Outcome (- ERESTARTSYS) (Some 0) None)) /\
  (fst <$> wait_with (fun _ s => s) true 40) = Some (Some (Outcome (- EAGAIN) (Some 0) None)).
Proof. split; vm_compute; reflexivity. Qed.

(** The host cannot be powered any more when the waiter is added: the waiter stays in memory. *)
Lemma power_interferes t addr e : interferes t addr (set_host_busy_err e).
Proof.
  intros W ([HW Hw] & Hn & _). exists (World (set_host_busy_err e (st W)) (agents W) (held W) (V W) (mx W) (info W) (canc W)).
  split; [|by destruct Hn]. apply rtc_once, wstep_env; [constructor|exact Hw].
Qed.
Definition power_fails (n : nat) : nvhost_intr_syncpt -> nvhost_intr_syncpt :=
  if (n =? 1)%nat then set_host_busy_err (- EIO) else fun s => s.
Example waiter_leaks : (fun r => (fst r, waiters (now (snd r)) !! 7%nat)) <$> wait_with power_fails false 7 =
  Some (Some (Outcome (- EIO) (Some 0) None), Some (Waiter 0 0 SIGNAL_SYNC_PT 0 0 0 0)).
Proof. vm_compute. reflexivity. Qed.
